(* ===== verification/_CoqProject ===== *)
-Q . S2P
Prelude.v
Bands.v
Atom.v
Region.v
RegionOp.v
RegionSweep.v
RegionSort.v
RegionValidate.v
RegionBatch.v
RegionScatter.v
RegionMerge.v
RegionTheorems.v
RecordSet.v
ResourceDB.v
ResourceProofs.v
ResourceFree.v
ResourceFreeProofs.v
ResourceInit.v
ResourceTheorems.v
ResourceIds.v
ResourceClient.v
ResourceTypes.v
Window.v
WindowProofs.v
Property.v
PropertyProofs.v
PropertyRead.v
PropertyRotate.v
PropertySafety.v
Timestamp.v
Selection.v
SelectionProofs.v
XorgList.v
HashTable.v
HashTableProofs.v
Callback.v
CallbackProofs.v
WorkQueue.v
WorkQueueProofs.v
EventQueue.v
EventQueueProofs.v
Grabs.v
GrabsProofs.v
GrabsCommit.v
GrabsAdd.v
Timer.v
TimerProofs.v
TimerQueue.v
TimerTheorems.v
SaveScreens.v
ScreenSaver.v
SaveSet.v
BlockHandlers.v
PixelBits.v
ColorCells.v
ColorAccounts.v
ColorFind.v
ColorNearest.v
ColorAlloc.v
ColorPlanes.v
ColorCellsReq.v
ColorShared.v
ColorPlanesReq.v
ColorTheorems.v
