(* ===== verification/Prelude.v ===== *)
(** * Super Sonic X: a verification library for the device independent X server

    Super Sonic X (src/) is an X Window System display server.  The core of the
    server is device independent: tables of atoms and of resources, the algebra of
    regions that all clipping goes through, the state behind the requests on windows,
    and small abstractions that extensions build on.  This library models parts of
    that core as executable functions and proves what they promise.

    ** Parts, files and sources

    - Prelude (this file): machine integers, allocation, result codes, tactics.
      An [oracle] gives the outcomes of the next allocations, so every error path that
      starts with a refused allocation is a value, and theorems hold for all oracles.
    - Atom (dix/atom.c, dix/initatoms.c): interning of strings.  [AtomState] is the
      four static variables; the tree of nodes is an inductive type, [nodeTable] a map
      from atoms to strings.  [MakeAtom], [NameForAtom], [ValidAtom], [FreeAllAtoms] and
      [InitAtoms] are the functions of the same names.
    - Bands: sets of points, lists of boxes, canonical bandings; no code, but the
      mathematics the region theorems are stated in.
    - Region, RegionOp, RegionSweep (include/regionstr.h, dix/region.c): the region
      header and its allocation, and the sweep over two banded regions that every set
      operation is an instance of.  The overlap procedure is an interface (a record of
      laws), which [RegionUnionO] implements.
    - RegionSort, RegionValidate, RegionScatter, RegionMerge, RegionBatch
      (dix/region.c): [QuickSortRects], [RegionAppend], [RegionValidate] (scatter into
      piles, merge pairwise) and [RegionFromRects].
    - RegionTheorems: the theorems about regions.
    - RecordSet (record/set.c, record/set.h, fragments of record/record.c): sets of
      small integers in two representations behind a table of operations, a type class.
    - ResourceDB, ResourceInit, ResourceFree (dix/resource.c, include/resource.h): the
      per-client hash tables of resources.  Nodes have addresses: an operation that keeps a
      pointer across a callback finds out whether the node is still there, and following
      a pointer to a freed node is the error [Dangling].  Deletion procedures are an
      argument of the definitions; they may call the operations of the database again.
      ResourceProofs, ResourceFreeProofs, ResourceTheorems, ResourceIds, ResourceClient and
      ResourceTypes prove the invariant and the theorems.
    - Window, WindowProofs (dix/window.c, include/windowstr.h): the optional record of a
      window and its inheritance from an ancestor.
    - Property, PropertyProofs, PropertyRead, PropertyRotate, PropertySafety
      (dix/property.c, dix/dixutils.c, include/dix.h): the requests on window properties,
      on top of the atom table, the resource database and the window tree; [Server] puts
      the parts together, [dispatch] is the part of the request table that they make up.
      A request has a length: its fixed part can only be read when it is there
      ([struct_at]), so that the checks of the length matter.
    - Timestamp, Selection, SelectionProofs (dix/selection.c, dix/dixutils.c,
      dix/dispatch.c): time stamps, and the ownership of selections; [SelectionServer] adds
      the list of selections and the current time to [Server].
    - XorgList (include/list.h): intrusive circular lists as shapes of a heap of nodes.
    - HashTable, HashTableProofs (Xext/hashtable.c): a growing hash table, against an
      interface for hash functions (the class [HashFunc]), with the memory it allocates.
    - Callback, CallbackProofs (dix/dixutils.c): lists of callbacks that may change while
      they are called, against an interface for the procedures (the class [Reentrant]).
    - WorkQueue, WorkQueueProofs (dix/dixutils.c, os/connection.c, dix/dispatch.c): the linked
      queue of work procedures and, on top of it, sleeping clients, who are not waited for
      ([ServerComm] has the lists of ready clients and those polled); the abstract queue is a list.
    - EventQueue, EventQueueProofs (mi/mieq.c): the ring buffer of input events, with a
      schedule of the signals that fill it while it is emptied.
    - Grabs, GrabsProofs, GrabsCommit, GrabsAdd (dix/grabs.c): passive grabs as sets of
      combinations; comparing, deleting with its plan and back-out, adding.
    - Timer, TimerProofs, TimerQueue, TimerTheorems (os/WaitFor.c): the list of timers,
      with callbacks that are functions on the whole state, a clock of 32 bits that may go
      back, and the queue of full times that the list stands for.
    - SaveScreens (dix/window.c, Xext/dpms.c): saving the screens and setting their power level;
      [Display] has the screens and a log of what they are told, [Saver] the times on top of it.
    - ScreenSaver (os/WaitFor.c, Xext/dpms.c): the callback of the screen saver timer.
    - SaveSet (dix/dixutils.c): the save sets of clients, arrays that are resized.
    - BlockHandlers (dix/dixutils.c): the handlers that are called before the server sleeps
      and after it wakes up, with handlers that register and remove handlers, but start no
      round of their own.
    - PixelBits, ColorCells, ColorAlloc (dix/colormap.c, include/colormapst.h): counting in
      the bits of a mask; the cells of colour maps with all operations on them.  [ColormapRec]
      has the tables and the lists of pixels of the clients, [CmapWorld] the shared colours in
      memory, what the screen was told, and the outcomes of allocations.  ColorAccounts has
      the invariant [map_ok] and freeing; ColorFind getting colours; ColorNearest the
      nearest colour; ColorPlanes and ColorCellsReq private cells;
      ColorShared and ColorPlanesReq shared planes; ColorTheorems the theorems.

    ** What the theorems show

    - Atoms: [MakeAtom] refines a dictionary from strings to numbers, also when an
      allocation fails; names can be read back; start-up defines exactly the predefined
      atoms; tear-down frees every node once.
    - Regions: every operation terminates within its fuel and returns the banded region
      of exactly the right points, with an exact overlap flag, unless memory was refused;
      equal point sets have equal representations; two error paths are wrong (theorems
      [RegionOp_loses_failure] and [RegionValidate_double_free]).
    - Record sets: both representations implement the same set, and iterate alike.
    - Resources: adding, freeing, changing and looking up act on the stacks of resources
      of each identifier; freeing is safe and terminates although deletion procedures free
      other resources, as long as they keep the counter (the interface [SafeDelete]; one function of the file does
      not: [FreeResource_use_after_free]); identifiers are fresh and in their range.
    - Properties: each request acts on a map from names to values as the protocol says,
      and no request of less than 2 GiB, however short or malformed, makes the server leave its memory.
    - Selections: at most one owner, the rules of time for changing it, and exactly one
      answer to a conversion; time stamps are extended to the closest full time.
    - Lists and hash tables: the pointer operations are those of a sequence, the table is a
      finite map whatever the hash function and loses no memory, except when it is destroyed.
    - Callback lists: re-entrant calls are safe and call exactly what was registered; the
      lists to clean up lose an entry when a list is freed.
    - Work queue: it refines a list walked by index, drains when work begets less work, then
      calls what a signalled client sleeps on, and sleeping clients are exactly those ignored.
    - Event queue: it refines a bounded queue although signals interrupt the loop, compresses
      only motions, and is emptied in order, each event to its own device and the core one.
    - Passive grabs: deleting removes exactly the combinations
      asked for or nothing, adding never takes what another client has, and is refused exactly
      where a combination is shared, or where a grab without combinations is in the way.
    - Timers: no callback makes them touch freed memory; the list is a queue in the order of
      time although times wrap; with callbacks that leave the timers alone the main loop wakes up
      when the first is due and calls what is due in order; too long timeouts count as past; setting the clock back ends well.
    - Screen saver: nothing that is due is missed or late; the screens are saved and told.
    - Save sets are ordered sets of windows; deleting never fails.
    - Block handlers: each is called once per round in order, and those marked as removed leave after it.
    - Colour maps: getting and freeing keep the counts, the numbers of free cells and the
      shared colours right and change exactly the counts of the cells they are about; a client
      loses exactly the cells it names and gets cells that were free; a pixel can be read back; the nearest colour is nearest.  Where memory runs out,
      planes are missing or DirectColor tables are small the code is wrong (the theorems
      that end ColorTheorems).

    ** Bounds and fuel

    Loops that the code bounds by data are structural recursions.  The others carry fuel
    that the theorems prove sufficient: the sweep has one step per band of either region;
    the sort one level per rectangle and one scan per element; a walk over a chain of
    resources [rounds n = (n + 1)^2] steps for [n] resources, since each restart is paid for by
    a removed resource; the search for an optional record the number of windows; the
    normalisation of a rotation its absolute value; a loop over the combinations of a mask
    one step for each and 32 to carry; a scan for free cells one step per cell.  Running out
    of fuel is an error value that the theorems exclude.

    ** Parameters

    What is not under src/ or belongs to a part that is not modelled is an argument: the
    deletion procedures of resource types (with the interface [LeafDelete] or a
    hypothesis on what they may do), the answers of the security modules (XaceHook), which for
    selections may exchange the selection that was found for another,
    the procedures of screen drivers, and the outcome of allocations.  Replies, events, cache flushes and calls into
    dix/cursor.c are recorded in order in a log.

    ** Not modelled

    Drivers and their buses (hw/), rendering (fb/, exa/, glamor/, miext/, render/, most of
    mi/), fonts, the operating system layer (os/, but for its timers
    and for ignoring clients), the remaining extensions (Xext/, Xi/,
    randr/, composite/, damageext/, glx/, ...), the keyboard extension, the vendored
    libraries (extras/), the client programs (programs/) and their libraries (lib/).  In
    dix/: dispatch, input events and devices, graphics contexts, cursors, fonts, window
    creation and configuration; of dix/colormap.c the windows that are told of maps and the
    reading of requests.  [StoreColors] has theorems on where it fails and not a proof of
    the invariant, the copying of maps has definitions only. *)

From Stdlib Require Export ZArith Lia Bool.
From stdpp Require Export base numbers list gmap.

#[global] Open Scope Z_scope.

Declare Scope ssx_scope.
Delimit Scope ssx_scope with ssx.

(** ** Machine integers

    C values are integers; the wrap-around of an operation is written with
    these functions, at the width the source declares. *)

Definition u16 (z : Z) : Z := z mod 2 ^ 16.
Definition u32 (z : Z) : Z := z mod 2 ^ 32.
Definition u64 (z : Z) : Z := z mod 2 ^ 64.

(** Conversion to a signed type of width [w]. *)
Definition wrap_s (w z : Z) : Z :=
  let m := z mod 2 ^ w in if m <? 2 ^ (w - 1) then m else m - 2 ^ w.

(** A byte read through a (signed) [char]. *)
Definition schar (b : Z) : Z := wrap_s 8 b.

Lemma u32_range z : 0 <= u32 z < 2 ^ 32.
Proof. apply Z.mod_pos_bound. lia. Qed.

Lemma u32_small z : 0 <= z < 2 ^ 32 -> u32 z = z.
Proof. apply Z.mod_small. Qed.

Lemma u64_small z : 0 <= z < 2 ^ 64 -> u64 z = z.
Proof. apply Z.mod_small. Qed.

Create HintDb ssx.
Create Rewrite HintDb ssx.
#[export] Hint Rewrite u32_small u64_small using lia : ssx.

(** ** Memory allocation

    Whether [malloc], [xalloc] and their relatives succeed is decided by the
    environment: an [oracle] lists the outcomes of the next allocations, and an
    exhausted oracle means success.  Every allocation of the source consumes
    one outcome. *)

Abbreviation oracle := (list bool).

Definition alloc (o : oracle) : bool * oracle :=
  match o with [] => (true, []) | b :: o' => (b, o') end.

(** An allocation that may still fail, and one that cannot. *)
Abbreviation may_fail o := (Exists (eq false) o).
Abbreviation all_ok o := (Forall (eq true) o).

Lemma alloc_spec o ok o' :
  alloc o = (ok, o') ->
  (ok = false -> may_fail o) ∧ (may_fail o' -> may_fail o) ∧ (all_ok o -> all_ok o').
Proof.
  destruct o as [|b o]; simpl; intros [= <- <-]; [done|].
  split; [intros ->; by left|split; [by right|by inversion 1]].
Qed.

Lemma may_fail_not_all_ok o : may_fail o -> ¬ all_ok o.
Proof. induction 1; inversion 1; subst; done. Qed.

Lemma all_ok_nil : all_ok [].
Proof. constructor. Qed.

#[export] Hint Resolve all_ok_nil : ssx.

(** ** Result codes of request handlers (X.h) *)

Inductive Status :=
  | Success | BadRequest | BadValue | BadWindow | BadPixmap | BadAtom
  | BadCursor | BadFont | BadMatch | BadDrawable | BadAccess | BadAlloc
  | BadColor | BadGC | BadIDChoice | BadName | BadLength | BadImplementation
  | ClientMarked (** -1: the client is marked for exception *).

#[export] Instance Status_eq_dec : EqDecision Status.
Proof. solve_decision. Defined.

(** ** Lists *)

Lemma concat_replicate_nil {A} n : concat (replicate n (@nil A)) = [].
Proof. by induction n. Qed.

Lemma list_filter_all {A} (P : A -> Prop) `{!∀ x, Decision (P x)} (l : list A) : (∀ x, x ∈ l -> P x) -> filter P l = l.
Proof.
  induction l as [|x l IH]; intros Hl; [done|]. rewrite filter_cons, decide_True by (apply Hl; by left).
  f_equal. apply IH. intros y Hy. apply Hl. by right.
Qed.

(** ** Automation *)

(** Case analysis on the innermost [match] or [if] of the goal. *)
Ltac case_goal :=
  match goal with
  | |- context [match ?x with _ => _ end] =>
      lazymatch x with context [match _ with _ => _ end] => fail | _ => destruct x eqn:? end
  end.

(** The same on a hypothesis. *)
Ltac case_hyp H :=
  match type of H with
  | context [match ?x with _ => _ end] =>
      lazymatch x with context [match _ with _ => _ end] => fail | _ => destruct x eqn:? end
  end.

(** Boolean comparisons of integers as propositions. *)
Ltac zbool :=
  repeat match goal with
  | H : (_ && _)%bool = true |- _ => apply andb_true_iff in H as [? ?]
  | H : (_ || _)%bool = false |- _ => apply orb_false_iff in H as [? ?]
  | H : negb _ = true |- _ => apply negb_true_iff in H
  | H : negb _ = false |- _ => apply negb_false_iff in H
  | H : (_ =? _) = true |- _ => apply Z.eqb_eq in H
  | H : (_ =? _) = false |- _ => apply Z.eqb_neq in H
  | H : (_ <? _) = true |- _ => apply Z.ltb_lt in H
  | H : (_ <? _) = false |- _ => apply Z.ltb_ge in H
  | H : (_ <=? _) = true |- _ => apply Z.leb_le in H
  | H : (_ <=? _) = false |- _ => apply Z.leb_gt in H
  end.
