(* ===== verification/Bands.v ===== *)
(** * Bands: the theory of y-x banded rectangle lists

    The shape of a region is described at the top of dix/region.c: rectangles
    grouped in bands of equal top and bottom, sorted by [y1] and then [x1], no two
    rectangles of a band touching.  This file gives that shape as a datatype, the
    points it covers, the flat rectangle list it stands for, and the lemmas the
    region operations share.  It is the specification side: the operations
    themselves are in Region.v, RegionOp.v and RegionValidate.v. *)

From stdpp Require Import base numbers list.
From S2P Require Import Prelude.

(** ** Boxes *)

(** [BoxRec] (X11/Xmd and regionstr.h): the pixels [x1 <= x < x2], [y1 <= y < y2]. *)
Record Box := mkBox { x1 : Z; y1 : Z; x2 : Z; y2 : Z }.

#[export] Instance Box_eq_dec : EqDecision Box.
Proof. solve_decision. Defined.

Definition in_box (b : Box) (p : Z * Z) : bool :=
  (x1 b <=? fst p) && (fst p <? x2 b) && (y1 b <=? snd p) && (snd p <? y2 b).

(** How many boxes of the list cover a point. *)
Definition cover (l : list Box) (p : Z * Z) : nat :=
  length (filter (fun b => in_box b p = true) l).

Definition in_rects (l : list Box) (p : Z * Z) : Prop := Exists (fun b => in_box b p = true) l.

Definition nonempty_box (b : Box) : Prop := x1 b < x2 b ∧ y1 b < y2 b.

Lemma in_box_spec b x y :
  in_box b (x, y) = true <-> x1 b <= x < x2 b ∧ y1 b <= y < y2 b.
Proof. unfold in_box; simpl. lia. Qed.

Lemma cover_app l1 l2 p : cover (l1 ++ l2) p = (cover l1 p + cover l2 p)%nat.
Proof. unfold cover. by rewrite filter_app, length_app. Qed.

Lemma cover_perm l1 l2 p : l1 ≡ₚ l2 -> cover l1 p = cover l2 p.
Proof. unfold cover. intros H. by rewrite H. Qed.

Lemma in_rects_cover l p : in_rects l p <-> (0 < cover l p)%nat.
Proof.
  unfold in_rects, cover. rewrite Exists_exists. split.
  - intros (b & Hb & Hp). destruct (filter _ l) eqn:E; simpl; [|lia].
    assert (b ∈ filter (fun b => in_box b p = true) l) as Hin by (by apply list_elem_of_filter).
    rewrite E in Hin. by inversion Hin.
  - destruct (filter _ l) as [|b l'] eqn:E; simpl; [lia|]. intros _. exists b.
    assert (b ∈ filter (fun b => in_box b p = true) l) as [? ?]%list_elem_of_filter
      by (rewrite E; left). done.
Qed.

Lemma in_rects_app l1 l2 p : in_rects (l1 ++ l2) p <-> in_rects l1 p ∨ in_rects l2 p.
Proof. apply Exists_app. Qed.

(** ** Spans: the x extents of one band *)

Abbreviation span := (Z * Z)%type.

Definition in_spans (x : Z) (s : list span) : Prop := Exists (fun p => fst p <= x < snd p) s.

(** Nonempty spans in increasing order, with a gap before each; the first one
    starts after [lo]. *)
Fixpoint spans_from (lo : Z) (s : list span) : Prop :=
  match s with
  | [] => True
  | (a, b) :: s => lo < a ∧ a < b ∧ spans_from b s
  end.

Definition spans_ok (s : list span) : Prop := exists lo, spans_from lo s.

Lemma in_spans_nil x : in_spans x [] <-> False.
Proof. apply Exists_nil. Qed.

Lemma in_spans_cons x a b s : in_spans x ((a, b) :: s) <-> a <= x < b ∨ in_spans x s.
Proof. apply Exists_cons. Qed.

Lemma in_spans_app x s1 s2 : in_spans x (s1 ++ s2) <-> in_spans x s1 ∨ in_spans x s2.
Proof. apply Exists_app. Qed.

Lemma spans_from_weaken lo lo' s : spans_from lo s -> lo' <= lo -> spans_from lo' s.
Proof. destruct s as [|[a b] s]; simpl; [done|]. intuition lia. Qed.

Lemma spans_from_lower lo s x : spans_from lo s -> in_spans x s -> lo < x.
Proof.
  revert lo; induction s as [|[a b] s IH]; simpl; intros lo Hs.
  - intros []%in_spans_nil.
  - rewrite in_spans_cons. intros [?|?]; [lia|].
    assert (b < x) by (apply IH; tauto). lia.
Qed.

Lemma spans_ok_cons a b s : spans_ok ((a, b) :: s) -> a < b ∧ spans_from b s ∧ spans_ok s.
Proof. intros (lo & ? & ? & ?). split_and!; try done. by exists b. Qed.

(** A list of spans is determined by the points it covers. *)
Lemma spans_from_unique s1 s2 lo1 lo2 :
  spans_from lo1 s1 -> spans_from lo2 s2 ->
  (forall x, in_spans x s1 <-> in_spans x s2) -> s1 = s2.
Proof.
  revert s2 lo1 lo2; induction s1 as [|[a b] s1 IH]; intros [|[c d] s2] lo1 lo2 H1 H2 Heq; simpl in *.
  - done.
  - exfalso. apply (in_spans_nil c), Heq, in_spans_cons. lia.
  - exfalso. apply (in_spans_nil a), Heq, in_spans_cons. lia.
  - destruct H1 as (? & ? & H1), H2 as (? & ? & H2).
    assert (Hlt1 := spans_from_lower _ _ a H1). assert (Hlt1' := spans_from_lower _ _ c H1).
    assert (Hlt2 := spans_from_lower _ _ a H2). assert (Hlt2' := spans_from_lower _ _ c H2).
    assert (Ha := Heq a). assert (Hc := Heq c). rewrite !in_spans_cons in Ha, Hc.
    assert (a = c) as -> by (destruct (proj1 Ha) as [?|?%Hlt2], (proj2 Hc) as [?|?%Hlt1']; lia).
    assert (Hb := Heq b). assert (Hd := Heq d). rewrite !in_spans_cons in Hb, Hd.
    assert (Hb1 := spans_from_lower _ _ b H1). assert (Hb2 := spans_from_lower _ _ b H2).
    assert (Hd1 := spans_from_lower _ _ d H1). assert (Hd2 := spans_from_lower _ _ d H2).
    assert (b = d) as ->.
    { destruct (Z.lt_trichotomy b d) as [?|[?|?]]; [|done|].
      - destruct (proj2 Hb) as [?|?%Hb1]; lia.
      - destruct (proj1 Hd) as [?|?%Hd2]; lia. }
    f_equal. eapply IH; [done|done|]. intros x. assert (Hx := Heq x). rewrite !in_spans_cons in Hx.
    assert (Hx1 := spans_from_lower _ _ x H1). assert (Hx2 := spans_from_lower _ _ x H2).
    split; intros Hin.
    + destruct (proj1 Hx (or_intror Hin)) as [?|?]; [|done]. apply Hx1 in Hin. lia.
    + destruct (proj2 Hx (or_intror Hin)) as [?|?]; [|done]. apply Hx2 in Hin. lia.
Qed.

Lemma spans_unique s1 s2 :
  spans_ok s1 -> spans_ok s2 -> (forall x, in_spans x s1 <-> in_spans x s2) -> s1 = s2.
Proof. intros [? ?] [? ?]. by eapply spans_from_unique. Qed.

(** The end of the last span. *)
Definition send (lo : Z) (s : list span) : Z :=
  match last s with Some (_, b) => b | None => lo end.

Lemma send_cons lo a b s : send lo ((a, b) :: s) = send b s.
Proof.
  destruct s as [|p s]; [done|]. unfold send. rewrite last_cons_cons.
  by destruct (last (p :: s)) as [[??]|] eqn:E; [|apply last_None in E].
Qed.

Lemma spans_from_snoc lo s a b :
  spans_from lo (s ++ [(a, b)]) <-> spans_from lo s ∧ send lo s < a ∧ a < b.
Proof.
  revert lo; induction s as [|[c d] s IH]; intros lo; simpl; [unfold send; simpl; tauto|].
  rewrite send_cons, IH. tauto.
Qed.

Lemma send_ge lo s : spans_from lo s -> lo <= send lo s.
Proof.
  revert lo; induction s as [|[a b] s IH]; intros lo Hs; [unfold send; simpl; lia|].
  rewrite send_cons. simpl in Hs. destruct Hs as (? & ? & Hs). specialize (IH _ Hs). lia.
Qed.

Lemma spans_from_upper lo s x : spans_from lo s -> in_spans x s -> x < send lo s.
Proof.
  revert lo; induction s as [|[a b] s IH]; simpl; intros lo Hs; [intros []%in_spans_nil|].
  destruct Hs as (? & ? & Hs). rewrite in_spans_cons, send_cons. intros [?|?]; [|eauto].
  pose proof (send_ge _ _ Hs). lia.
Qed.

(** How many spans cover a coordinate. *)
Definition scover (s : list span) (x : Z) : nat :=
  length (filter (fun p => fst p <= x < snd p) s).

Lemma scover_app s1 s2 x : scover (s1 ++ s2) x = (scover s1 x + scover s2 x)%nat.
Proof. unfold scover. by rewrite filter_app, length_app. Qed.

Lemma scover_perm s1 s2 x : s1 ≡ₚ s2 -> scover s1 x = scover s2 x.
Proof. unfold scover. intros H. by rewrite H. Qed.

Lemma scover_one a b x : scover [(a, b)] x = if decide (a <= x < b) then 1%nat else 0%nat.
Proof. unfold scover. rewrite filter_cons, filter_nil; simpl. by case_decide. Qed.

Lemma in_spans_scover x s : in_spans x s <-> (0 < scover s x)%nat.
Proof.
  induction s as [|[a b] s IH].
  - rewrite in_spans_nil. unfold scover; simpl. lia.
  - rewrite in_spans_cons, IH. change ((a, b) :: s) with ([(a, b)] ++ s).
    rewrite scover_app, scover_one. case_decide; lia.
Qed.

Lemma in_spans_perm x s1 s2 : s1 ≡ₚ s2 -> in_spans x s1 <-> in_spans x s2.
Proof. intros H. rewrite !in_spans_scover. by rewrite (scover_perm _ _ _ H). Qed.

(** Disjoint spans cover nothing twice. *)
Lemma scover_spans_from lo s x : spans_from lo s -> (scover s x <= 1)%nat.
Proof.
  revert lo; induction s as [|[a b] s IH]; simpl; intros lo Hs; [unfold scover; simpl; lia|].
  destruct Hs as (? & ? & Hs). change ((a, b) :: s) with ([(a, b)] ++ s).
  rewrite scover_app, scover_one. specialize (IH _ Hs). case_decide; [|lia].
  assert (¬ in_spans x s) as Hn by (intros Hin; apply (spans_from_lower _ _ _ Hs) in Hin; lia).
  rewrite in_spans_scover in Hn. lia.
Qed.

Lemma spans_inhabited s : spans_ok s -> s ≠ [] -> exists x, in_spans x s.
Proof.
  destruct s as [|[a b] s]; [done|]. intros (? & _)%spans_ok_cons _.
  exists a. apply in_spans_cons. lia.
Qed.

(** ** Bands *)

(** Top, bottom and spans. *)
Abbreviation band := (Z * Z * list span)%type.

(** The boxes of a band. *)
Definition bboxes (t b : Z) (s : list span) : list Box :=
  map (fun p => mkBox (fst p) t (snd p) b) s.

Fixpoint flat (bs : list band) : list Box :=
  match bs with
  | [] => []
  | (t, b, s) :: bs => bboxes t b s ++ flat bs
  end.

Fixpoint in_bands (x y : Z) (bs : list band) : Prop :=
  match bs with
  | [] => False
  | (t, b, s) :: bs => (t <= y < b ∧ in_spans x s) ∨ in_bands x y bs
  end.

(** Bands from top to bottom below [lo].  With [c] the list is moreover
    coalesced: a band that touches the one above it (whose spans are [ps], ending
    at [lo]) has other spans. *)
Fixpoint bands_from (c : bool) (lo : Z) (ps : list span) (bs : list band) : Prop :=
  match bs with
  | [] => True
  | (t, b, s) :: bs =>
      lo <= t ∧ t < b ∧ s ≠ [] ∧ spans_ok s ∧ (c = true -> lo = t -> ps ≠ s) ∧
      bands_from c b s bs
  end.

Definition bands_ok (c : bool) (bs : list band) : Prop := exists lo, bands_from c lo [] bs.

(** Rectangle lists in banded form; [canonical] ones are also coalesced. *)
Definition banded (c : bool) (l : list Box) : Prop := exists bs, l = flat bs ∧ bands_ok c bs.
Abbreviation canonical := (banded true).

(** The bottom and the spans of the last band. *)
Definition lbot (lo : Z) (bs : list band) : Z :=
  match last bs with Some (_, b, _) => b | None => lo end.
Definition lspans (ps : list span) (bs : list band) : list span :=
  match last bs with Some (_, _, s) => s | None => ps end.

Lemma flat_app bs1 bs2 : flat (bs1 ++ bs2) = flat bs1 ++ flat bs2.
Proof. induction bs1 as [|[[t b] s] bs1 IH]; simpl; [done|]. by rewrite IH, app_assoc. Qed.

Lemma in_bands_app x y bs1 bs2 : in_bands x y (bs1 ++ bs2) <-> in_bands x y bs1 ∨ in_bands x y bs2.
Proof. induction bs1 as [|[[t b] s] bs1 IH]; simpl; [intuition|]. rewrite IH. intuition. Qed.

Lemma in_rects_bboxes t b s x y :
  in_rects (bboxes t b s) (x, y) <-> t <= y < b ∧ in_spans x s.
Proof.
  unfold in_rects, bboxes, in_spans. rewrite !Exists_exists. split.
  - intros (bx & (p & -> & Hp)%list_elem_of_fmap & Hin%in_box_spec). simpl in Hin.
    split; [lia|]. exists p. split; [done|lia].
  - intros (? & p & Hp & ?). exists (mkBox (fst p) t (snd p) b).
    split; [apply list_elem_of_fmap; by exists p|]. apply in_box_spec. simpl. lia.
Qed.

Lemma in_rects_flat bs x y : in_rects (flat bs) (x, y) <-> in_bands x y bs.
Proof.
  induction bs as [|[[t b] s] bs IH]; simpl; [apply Exists_nil|].
  by rewrite in_rects_app, in_rects_bboxes, IH.
Qed.

Lemma length_bboxes t b s : length (bboxes t b s) = length s.
Proof. apply length_map. Qed.

Lemma lbot_snoc lo bs t b s : lbot lo (bs ++ [(t, b, s)]) = b.
Proof. unfold lbot. by rewrite last_snoc. Qed.
Lemma lspans_snoc ps bs t b s : lspans ps (bs ++ [(t, b, s)]) = s.
Proof. unfold lspans. by rewrite last_snoc. Qed.
Lemma lbot_cons lo t b s bs : lbot lo ((t, b, s) :: bs) = lbot b bs.
Proof.
  destruct bs as [|bd bs]; [done|]. unfold lbot. rewrite last_cons_cons.
  by destruct (last (bd :: bs)) as [[[??]?]|] eqn:E; [|apply last_None in E].
Qed.
Lemma lspans_cons ps t b s bs : lspans ps ((t, b, s) :: bs) = lspans s bs.
Proof.
  destruct bs as [|bd bs]; [done|]. unfold lspans. rewrite last_cons_cons.
  by destruct (last (bd :: bs)) as [[[??]?]|] eqn:E; [|apply last_None in E].
Qed.

Lemma bands_from_app c lo ps bs1 bs2 :
  bands_from c lo ps (bs1 ++ bs2) <->
  bands_from c lo ps bs1 ∧ bands_from c (lbot lo bs1) (lspans ps bs1) bs2.
Proof.
  revert lo ps; induction bs1 as [|[[t b] s] bs1 IH]; intros lo ps.
  - unfold lbot, lspans; simpl. tauto.
  - rewrite lbot_cons, lspans_cons. simpl. rewrite IH. tauto.
Qed.

Lemma bands_from_lower c lo ps bs x y : bands_from c lo ps bs -> in_bands x y bs -> lo <= y.
Proof.
  revert lo ps; induction bs as [|[[t b] s] bs IH]; simpl; [done|].
  intros lo ps (? & ? & ? & ? & ? & H) [[? ?]|Hin]; [lia|].
  specialize (IH _ _ H Hin). lia.
Qed.

Lemma bands_from_upper c lo ps bs x y : bands_from c lo ps bs -> in_bands x y bs -> y < lbot lo bs.
Proof.
  revert lo ps; induction bs as [|[[t b] s] bs IH]; simpl; [done|].
  intros lo ps (? & ? & ? & ? & ? & H) Hin. rewrite lbot_cons.
  destruct Hin as [[? ?]|Hin]; [|by eapply IH].
  assert (b <= lbot b bs); [|lia]. clear -H. revert b s H.
  induction bs as [|[[t b'] s'] bs IH]; intros b s H; [unfold lbot; simpl; lia|].
  rewrite lbot_cons. simpl in H. destruct H as (? & ? & ? & ? & ? & H).
  specialize (IH _ _ H). lia.
Qed.

(** The y coordinate of the first band may be lowered (moving down), and a list
    of bands may be placed below any higher line. *)
Lemma bands_from_weaken c lo lo' ps bs :
  bands_from c lo ps bs -> lo' < lo -> bands_from c lo' ps bs.
Proof. destruct bs as [|[[t b] s] bs]; simpl; [done|]. intuition lia. Qed.

Lemma bands_from_c c lo ps bs : bands_from true lo ps bs -> bands_from c lo ps bs.
Proof.
  revert lo ps; induction bs as [|[[t b] s] bs IH]; simpl; [done|]. intuition eauto.
Qed.

Lemma bands_ok_cons c t b s bs :
  bands_ok c ((t, b, s) :: bs) <->
  t < b ∧ s ≠ [] ∧ spans_ok s ∧ bands_from c b s bs.
Proof.
  split; [intros [lo H]; simpl in H; tauto|]. intros (? & ? & ? & ?). exists t. simpl.
  split_and!; done.
Qed.

Lemma bands_from_ok c lo ps bs : bands_from c lo ps bs -> bands_ok c bs.
Proof. destruct bs as [|[[t b] s] bs]; [by exists 0|]. simpl. rewrite bands_ok_cons. tauto. Qed.

Lemma flat_nonempty c bs : bands_ok c bs -> bs ≠ [] -> flat bs ≠ [].
Proof. destruct bs as [|[[? ?] [|[? ?] ?]] ?]; try done. intros Hok. apply bands_ok_cons in Hok. tauto. Qed.
