(* ===== verification/Atom.v ===== *)
(** * Atom: interned strings (dix/atom.c, dix/initatoms.c)

    The atom table is a binary search tree of nodes ordered by a 32 bit
    fingerprint and then by [strncmp], plus the array [nodeTable] from atom
    values to nodes.  A node's string and atom never change once it is linked,
    so the array holds the string the node carries. *)

From stdpp Require Import base numbers list gmap strings.
From S2P Require Import Prelude.

(** Atom.h constants. *)
Definition XA_LAST_PREDEFINED : Z := 68.
Definition InitialTableSize : Z := 100.
Definition BAD_RESOURCE : Z := 0xe0000000.

(** ** Data *)

Inductive Node :=
  | NullNode
  | NodeRec (left right : Node) (a : Z) (fingerPrint : Z) (string : list Z).

(** The static variables of atom.c; [nodeTable] maps the initialised indices. *)
Record AtomState := mkAtomState {
  lastAtom : Z;
  atomRoot : Node;
  tableLength : Z;
  nodeTable : gmap Z (option (list Z))
}.

(** ** C string functions *)

(** The characters before the terminating NUL. *)
Fixpoint cstr (s : list Z) : list Z :=
  match s with
  | [] => []
  | c :: s' => if c =? 0 then [] else c :: cstr s'
  end.

Definition strlen (s : list Z) : Z := Z.of_nat (length (cstr s)).

Fixpoint strncmp (s1 s2 : list Z) (n : nat) : Z :=
  match n with
  | O => 0
  | S n' =>
      let c1 := default 0 (head s1) in
      let c2 := default 0 (head s2) in
      if c1 =? c2 then if c1 =? 0 then 0 else strncmp (tail s1) (tail s2) n'
      else c1 - c2
  end.

(** [strncpy(dst, s, n); dst[n] = 0]: at most n bytes, padded with NULs. *)
Definition strncpy (s : list Z) (n : nat) : list Z :=
  let c := take n (cstr s) in c ++ replicate (n - length c) 0.

(** ** MakeAtom *)

(** One round of the fingerprint loop, at index [i]. *)
Definition fp_step (string : list Z) (fp : Z) (i : nat) : Z :=
  let fp := u32 (fp * 27 + schar (default 0 (string !! i))) in
  u32 (fp * 27 + schar (default 0 (string !! (length string - 1 - i)%nat))).

Definition fingerprint (string : list Z) : Z :=
  foldl (fp_step string) 0 (seq 0 ((length string + 1) / 2)).

(** Where the search goes from a node: [Lt] left, [Gt] right, [Eq] found. *)
Definition descend (fp : Z) (string : list Z) (nfp : Z) (nstr : list Z) : comparison :=
  if fp <? nfp then Lt
  else if nfp <? fp then Gt
  else
    let comp := strncmp string nstr (length string) in
    if (comp <? 0) || ((comp =? 0) && (Z.of_nat (length string) <? strlen nstr)) then Lt
    else if 0 <? comp then Gt
    else Eq.

(** The [while] loop when it returns from inside: the atom found, if any. *)
Fixpoint search (t : Node) (fp : Z) (string : list Z) : option Z :=
  match t with
  | NullNode => None
  | NodeRec l r a nfp nstr =>
      match descend fp string nfp nstr with
      | Lt => search l fp string
      | Gt => search r fp string
      | Eq => Some a
      end
  end.

(** [*np = nd], with [np] the null link where the [while] loop stopped. *)
Fixpoint link (t : Node) (fp : Z) (string : list Z) (nd : Node) : Node :=
  match t with
  | NullNode => nd
  | NodeRec l r a nfp nstr =>
      match descend fp string nfp nstr with
      | Lt => NodeRec (link l fp string nd) r a nfp nstr
      | Gt => NodeRec l (link r fp string nd) a nfp nstr
      | Eq => t
      end
  end.

(** [realloc] of the table when the new atom does not fit. *)
Definition growTable (s : AtomState) (o : oracle) : bool * Z * oracle :=
  if tableLength s <=? u32 (lastAtom s + 1)
  then let '(ok, o) := alloc o in
       if ok then (true, u64 (tableLength s * 2), o) else (false, tableLength s, o)
  else (true, tableLength s, o).

Definition MakeAtom (s : AtomState) (string : list Z) (makeit : bool) (o : oracle)
    : Z * AtomState * oracle :=
  let fp := fingerprint string in
  match search (atomRoot s) fp string with
  | Some a => (a, s, o)
  | None =>
      if makeit then
        let '(ok, o) := alloc o in
        if negb ok then (BAD_RESOURCE, s, o) else
        let '(ok, str, o) :=
          if lastAtom s <? XA_LAST_PREDEFINED then (true, string, o)
          else let '(ok, o) := alloc o in (ok, strncpy string (length string), o) in
        if negb ok then (BAD_RESOURCE, s, o) else
        let '(ok, tlen, o) := growTable s o in
        if negb ok then (BAD_RESOURCE, s, o) else
        let a := u32 (lastAtom s + 1) in
        (a,
         mkAtomState a
           (link (atomRoot s) fp string (NodeRec NullNode NullNode a fp str))
           tlen (<[a := Some str]> (nodeTable s)), o)
      else (0, s, o)
  end.

Definition ValidAtom (s : AtomState) (atom : Z) : bool :=
  negb (atom =? 0) && (atom <=? lastAtom s).

(** NULL is [None]; an index never written reads as NULL. *)
Definition NameForAtom (s : AtomState) (atom : Z) : option (list Z) :=
  if lastAtom s <? atom then None
  else mjoin (nodeTable s !! atom).

(** ** Tear-down and start-up *)

(** The nodes [FreeAtom] releases, in order; the string of a node is released
    with it when the flag is set. *)
Fixpoint FreeAtom (patom : Node) : list (Z * bool) :=
  match patom with
  | NullNode => []
  | NodeRec l r a _ _ => FreeAtom l ++ FreeAtom r ++ [(a, XA_LAST_PREDEFINED <? a)]
  end.

(** The state after [FreeAllAtoms], and what it released. *)
Definition FreeAllAtoms (s : AtomState) : AtomState * list (Z * bool) :=
  match atomRoot s with
  | NullNode => (s, [])
  | root => (mkAtomState 0 NullNode (tableLength s) ∅, FreeAtom root)
  end.

(** The strings interned at start-up with the value each must get. *)
Definition PredeclaredAtoms : list (string * Z) :=
 [("PRIMARY", 1); ("SECONDARY", 2); ("ARC", 3); ("ATOM", 4); ("BITMAP", 5);
   ("CARDINAL", 6); ("COLORMAP", 7); ("CURSOR", 8); ("CUT_BUFFER0", 9);
   ("CUT_BUFFER1", 10); ("CUT_BUFFER2", 11); ("CUT_BUFFER3", 12); ("CUT_BUFFER4", 13);
   ("CUT_BUFFER5", 14); ("CUT_BUFFER6", 15); ("CUT_BUFFER7", 16); ("DRAWABLE", 17);
   ("FONT", 18); ("INTEGER", 19); ("PIXMAP", 20); ("POINT", 21); ("RECTANGLE", 22);
   ("RESOURCE_MANAGER", 23); ("RGB_COLOR_MAP", 24); ("RGB_BEST_MAP", 25);
   ("RGB_BLUE_MAP", 26); ("RGB_DEFAULT_MAP", 27); ("RGB_GRAY_MAP", 28);
   ("RGB_GREEN_MAP", 29); ("RGB_RED_MAP", 30); ("STRING", 31); ("VISUALID", 32);
   ("WINDOW", 33); ("WM_COMMAND", 34); ("WM_HINTS", 35); ("WM_CLIENT_MACHINE", 36);
   ("WM_ICON_NAME", 37); ("WM_ICON_SIZE", 38); ("WM_NAME", 39);
   ("WM_NORMAL_HINTS", 40); ("WM_SIZE_HINTS", 41); ("WM_ZOOM_HINTS", 42);
   ("MIN_SPACE", 43); ("NORM_SPACE", 44); ("MAX_SPACE", 45); ("END_SPACE", 46);
   ("SUPERSCRIPT_X", 47); ("SUPERSCRIPT_Y", 48); ("SUBSCRIPT_X", 49);
   ("SUBSCRIPT_Y", 50); ("UNDERLINE_POSITION", 51); ("UNDERLINE_THICKNESS", 52);
   ("STRIKEOUT_ASCENT", 53); ("STRIKEOUT_DESCENT", 54); ("ITALIC_ANGLE", 55);
   ("X_HEIGHT", 56); ("QUAD_WIDTH", 57); ("WEIGHT", 58); ("POINT_SIZE", 59);
   ("RESOLUTION", 60); ("COPYRIGHT", 61); ("NOTICE", 62); ("FONT_NAME", 63);
   ("FAMILY_NAME", 64); ("FULL_NAME", 65); ("CAP_HEIGHT", 66); ("WM_CLASS", 67);
   ("WM_TRANSIENT_FOR", 68)].

Definition bytes_of_string (s : string) : list Z :=
  map (fun c => Z.of_N (Ascii.N_of_ascii c)) (String.list_ascii_of_string s).

(** [MakePredeclaredAtoms]; [None] is [AtomError], which does not return. *)
Fixpoint MakePredeclaredAtoms (l : list (string * Z)) (s : AtomState) (o : oracle)
    : option (AtomState * oracle) :=
  match l with
  | [] => Some (s, o)
  | (name, xa) :: l =>
      let '(a, s, o) := MakeAtom s (bytes_of_string name) true o in
      if a =? xa then MakePredeclaredAtoms l s o else None
  end.

Definition InitAtoms (s : AtomState) (o : oracle) : option (AtomState * oracle) :=
  let '(s, _) := FreeAllAtoms s in
  let '(ok, o) := alloc o in
  if negb ok then None else
  let s := mkAtomState (lastAtom s) (atomRoot s) InitialTableSize {[0 := None]} in
  match MakePredeclaredAtoms PredeclaredAtoms s o with
  | None => None
  | Some (s, o) => if lastAtom s =? XA_LAST_PREDEFINED then Some (s, o) else None
  end.

(** ** The abstract dictionary *)

Abbreviation key := (Z * list Z)%type.

Definition key_of (string : list Z) : key := (fingerprint string, cstr string).

Fixpoint lexcmp (l1 l2 : list Z) : comparison :=
  match l1, l2 with
  | [], [] => Eq
  | [], _ :: _ => Lt
  | _ :: _, [] => Gt
  | c1 :: l1, c2 :: l2 => match c1 ?= c2 with Eq => lexcmp l1 l2 | c => c end
  end.

Definition keycmp (k1 k2 : key) : comparison :=
  match fst k1 ?= fst k2 with Eq => lexcmp (snd k1) (snd k2) | c => c end.

(** The dictionary a tree stands for. *)
Fixpoint tree_map (t : Node) : gmap (Z * list Z) Z :=
  match t with
  | NullNode => ∅
  | NodeRec l r a fp str => <[(fp, cstr str) := a]> (tree_map l ∪ tree_map r)
  end.

Definition dict (s : AtomState) : gmap (Z * list Z) Z := tree_map (atomRoot s).

Definition bytes_ok (s : list Z) : Prop := Forall (fun c => 0 <= c < 256) s.

(** Search tree order. *)
Fixpoint bst (t : Node) : Prop :=
  match t with
  | NullNode => True
  | NodeRec l r _ fp str =>
      bst l ∧ bst r ∧ bytes_ok str ∧
      (forall k a, tree_map l !! k = Some a -> keycmp k (fp, cstr str) = Lt) ∧
      (forall k a, tree_map r !! k = Some a -> keycmp k (fp, cstr str) = Gt)
  end.

(** Every value from 1 to [lastAtom] names exactly one entry, the table holds
    its string, and the table has room for all of them. *)
Record atoms_wf (s : AtomState) : Prop := {
  wf_bst : bst (atomRoot s);
  wf_last : 0 <= lastAtom s < 2 ^ 32;
  wf_room : lastAtom s < tableLength s;
  wf_tight : tableLength s <= 100 ∨ tableLength s <= 2 * lastAtom s;
  wf_none : nodeTable s !! 0 = Some None;
  wf_value : forall k a, dict s !! k = Some a ->
    1 <= a <= lastAtom s ∧
    exists str, nodeTable s !! a = Some (Some str) ∧ cstr str = snd k;
  wf_used : forall a, 1 <= a <= lastAtom s -> exists k, dict s !! k = Some a;
  wf_inj : forall k k' a, dict s !! k = Some a -> dict s !! k' = Some a -> k = k'
}.

(** ** Order lemmas *)

Lemma lexcmp_eq l1 l2 : lexcmp l1 l2 = Eq <-> l1 = l2.
Proof.
  revert l2; induction l1 as [|c1 l1 IH]; intros [|c2 l2]; simpl; split; try done.
  - destruct (c1 ?= c2) eqn:E; try done.
    apply Z.compare_eq in E as ->. intros ->%IH. done.
  - intros [= -> ->]. rewrite Z.compare_refl. by apply IH.
Qed.

Lemma keycmp_eq k1 k2 : keycmp k1 k2 = Eq <-> k1 = k2.
Proof.
  destruct k1 as [f1 l1], k2 as [f2 l2]; unfold keycmp; simpl. split.
  - destruct (f1 ?= f2) eqn:E; try done. apply Z.compare_eq in E as ->.
    intros ->%lexcmp_eq. done.
  - intros [= -> ->]. rewrite Z.compare_refl. by apply lexcmp_eq.
Qed.

Lemma keycmp_ne k1 k2 : keycmp k1 k2 ≠ Eq -> k2 ≠ k1.
Proof. intros H ->. by rewrite (proj2 (keycmp_eq _ _)) in H. Qed.

Lemma cstr_length s : (length (cstr s) <= length s)%nat.
Proof. induction s as [|c s IH]; simpl; [done|]. destruct (c =? 0); simpl; lia. Qed.

Lemma strncmp_lex s t :
  bytes_ok s -> bytes_ok t ->
  let comp := strncmp s t (length s) in
  lexcmp (cstr s) (cstr t) =
    if (comp <? 0) || ((comp =? 0) && (Z.of_nat (length s) <? strlen t)) then Lt
    else if 0 <? comp then Gt else Eq.
Proof.
  unfold strlen. intros Hs. revert t; induction Hs as [|c s Hc Hs IH]; intros t Ht; simpl.
  { destruct Ht as [|d t Hd Ht]; simpl; [done|]. destruct (d =? 0); simpl; done. }
  destruct Ht as [|d t Hd Ht]; simpl.
  { destruct (c =? 0) eqn:E; simpl; [done|]. zbool.
    destruct (Z.ltb_spec (c - 0) 0), (Z.eqb_spec (c - 0) 0), (Z.ltb_spec 0 (c - 0)); simpl; done || lia. }
  destruct (Z.eqb_spec c d) as [->|Hne].
  - destruct (d =? 0) eqn:E; simpl; [done|].
    rewrite Z.compare_refl, IH by done. simpl.
    replace (Z.of_nat (S (length s)) <? Z.of_nat (S (length (cstr t))))
      with (Z.of_nat (length s) <? Z.of_nat (length (cstr t))); [done|].
    destruct (Z.ltb_spec (Z.of_nat (length s)) (Z.of_nat (length (cstr t))));
      symmetry; [apply Z.ltb_lt | apply Z.ltb_ge]; lia.
  - destruct (Z.eqb_spec c 0), (Z.eqb_spec d 0); simpl;
      destruct (Z.ltb_spec (c - d) 0), (Z.eqb_spec (c - d) 0), (Z.ltb_spec 0 (c - d)),
        (Z.compare_spec c d); simpl; done || lia.
Qed.

Lemma descend_keycmp fp s nfp t :
  bytes_ok s -> bytes_ok t ->
  descend fp s nfp t = keycmp (fp, cstr s) (nfp, cstr t).
Proof.
  intros Hs Ht. unfold descend, keycmp; simpl.
  destruct (Z.ltb_spec fp nfp), (Z.ltb_spec nfp fp), (Z.compare_spec fp nfp); try done; try lia.
  symmetry. by apply strncmp_lex.
Qed.

(** ** The search tree implements the dictionary *)

Section Tree.
Context (fp : Z) (s : list Z) (Hs : bytes_ok s).

Lemma bst_left_None l k k0 :
  (forall k a, tree_map l !! k = Some a -> keycmp k k0 = Lt) ->
  keycmp k k0 ≠ Lt -> tree_map l !! k = None.
Proof. intros H Hk. destruct (tree_map l !! k) eqn:E; [|done]. by apply H in E. Qed.

Lemma bst_right_None r k k0 :
  (forall k a, tree_map r !! k = Some a -> keycmp k k0 = Gt) ->
  keycmp k k0 ≠ Gt -> tree_map r !! k = None.
Proof. intros H Hk. destruct (tree_map r !! k) eqn:E; [|done]. by apply H in E. Qed.

Lemma search_tree_map t : bst t -> search t fp s = tree_map t !! (fp, cstr s).
Proof using Hs.
  induction t as [|l IHl r IHr a nfp nstr]; simpl; [by rewrite lookup_empty|].
  intros (Hl & Hr & Hb & HL & HR). rewrite descend_keycmp by done.
  destruct (keycmp _ _) eqn:E.
  - apply keycmp_eq in E as [= -> ->]. by rewrite lookup_insert_eq.
  - assert ((nfp, cstr nstr) ≠ (fp, cstr s)) by (eapply keycmp_ne; rewrite E; done).
    rewrite lookup_insert_ne, IHl, lookup_union_l by (done || (eapply bst_right_None; [done|by rewrite E])). done.
  - assert ((nfp, cstr nstr) ≠ (fp, cstr s)) by (eapply keycmp_ne; rewrite E; done).
    rewrite lookup_insert_ne, IHr, lookup_union_r by (done || (eapply bst_left_None; [done|by rewrite E])). done.
Qed.

Context (a : Z) (str : list Z) (Hstr : cstr str = cstr s) (Hb : bytes_ok str).
Let nd := NodeRec NullNode NullNode a fp str.

Lemma tree_map_link t :
  bst t -> search t fp s = None ->
  tree_map (link t fp s nd) = <[(fp, cstr s) := a]> (tree_map t).
Proof using Hs Hstr.
  induction t as [|l IHl r IHr b nfp nstr]; simpl.
  { intros _ _. by rewrite Hstr, (left_id_L ∅ (∪)). }
  intros (Hl & Hr & Hb' & HL & HR). rewrite descend_keycmp by done.
  destruct (keycmp _ _) eqn:E; intros Hn; simpl; [done| |];
    assert ((nfp, cstr nstr) ≠ (fp, cstr s)) by (eapply keycmp_ne; rewrite E; done).
  - rewrite IHl by done. rewrite <- insert_union_l. by rewrite insert_insert_ne.
  - rewrite IHr by done. rewrite <- insert_union_r; [by rewrite insert_insert_ne|].
    eapply bst_left_None; [done|by rewrite E].
Qed.

Lemma bst_link t : bst t -> search t fp s = None -> bst (link t fp s nd).
Proof using Hs Hstr Hb.
  induction t as [|l IHl r IHr b nfp nstr]; simpl.
  { intros _ _. repeat split; try done; intros k b; rewrite lookup_empty; done. }
  intros (Hl & Hr & Hb' & HL & HR). rewrite descend_keycmp by done.
  destruct (keycmp _ _) eqn:E; intros Hn; simpl; [done| |];
    (split; [by auto|]; split; [by auto|]; split; [done|]; split; [|]; try done);
    intros k c; rewrite tree_map_link by done;
    (destruct (decide ((fp, cstr s) = k)) as [<-|Hne];
      [done | rewrite lookup_insert_ne by done; eauto]).
Qed.
End Tree.

(** ** Strings *)

Lemma cstr_nonul s : Forall (fun c => c ≠ 0) s -> cstr s = s.
Proof.
  induction 1 as [|c s Hc _ IH]; simpl; [done|].
  destruct (Z.eqb_spec c 0); [done|]. by rewrite IH.
Qed.

Lemma cstr_all_nonul s : Forall (fun c => c ≠ 0) (cstr s).
Proof.
  induction s as [|c s IH]; simpl; [done|].
  destruct (Z.eqb_spec c 0); [done|]. by constructor.
Qed.

Lemma cstr_app_zeros c n : Forall (fun c => c ≠ 0) c -> cstr (c ++ replicate n 0) = c.
Proof.
  induction 1 as [|d c Hd _ IH]; simpl; [by destruct n|].
  destruct (Z.eqb_spec d 0); [done|]. by rewrite IH.
Qed.

Lemma cstr_strncpy s : cstr (strncpy s (length s)) = cstr s.
Proof.
  unfold strncpy. rewrite take_ge by apply cstr_length.
  apply cstr_app_zeros, cstr_all_nonul.
Qed.

Lemma cstr_bytes s : bytes_ok s -> bytes_ok (cstr s).
Proof.
  unfold bytes_ok. induction 1 as [|c s Hc _ IH]; simpl; [done|].
  destruct (c =? 0); [done|]. by constructor.
Qed.

Lemma strncpy_bytes s n : bytes_ok s -> bytes_ok (strncpy s n).
Proof.
  intros H. apply Forall_app. split.
  - by apply Forall_take, cstr_bytes.
  - apply Forall_replicate. lia.
Qed.

(** ** The three ways through MakeAtom *)

Definition new_node_state (s : AtomState) (string str : list Z) (tlen : Z) : AtomState :=
  let a := u32 (lastAtom s + 1) in
  let fp := fingerprint string in
  mkAtomState a (link (atomRoot s) fp string (NodeRec NullNode NullNode a fp str))
    tlen (<[a := Some str]> (nodeTable s)).

Lemma search_dict s string :
  atoms_wf s -> bytes_ok string ->
  search (atomRoot s) (fingerprint string) string = dict s !! key_of string.
Proof. intros W Hb. exact (search_tree_map _ _ Hb _ (wf_bst s W)). Qed.

Lemma growTable_spec s o ok tlen o' :
  atoms_wf s -> lastAtom s + 1 < 2 ^ 32 -> growTable s o = (ok, tlen, o') ->
  (ok = true -> lastAtom s + 1 < tlen ∧ (tlen <= 100 ∨ tlen <= 2 * (lastAtom s + 1))) ∧
  (ok = false -> may_fail o) ∧ (all_ok o -> all_ok o') ∧ (may_fail o' -> may_fail o).
Proof.
  intros W Hmax. destruct W. unfold growTable.
  rewrite u32_small by lia. destruct (Z.leb_spec (tableLength s) (lastAtom s + 1)).
  - destruct (alloc o) as [b o1] eqn:Ea. destruct (alloc_spec _ _ _ Ea) as (A1 & A2 & A3).
    destruct b; intros [= <- <- <-]; (split_and!; try done); intros _.
    rewrite u64_small by lia. lia.
  - intros [= <- <- <-]. split; [intros; lia|done].
Qed.

Lemma MakeAtom_cases s string makeit o :
  atoms_wf s -> bytes_ok string -> lastAtom s + 1 < 2 ^ 32 ->
  match dict s !! key_of string with
  | Some a => MakeAtom s string makeit o = (a, s, o)
  | None =>
      if makeit then
        (exists o', MakeAtom s string makeit o = (BAD_RESOURCE, s, o') ∧ may_fail o) ∨
        (exists str tlen o',
           MakeAtom s string makeit o = (lastAtom s + 1, new_node_state s string str tlen, o') ∧
           (all_ok o -> all_ok o') ∧ (may_fail o' -> may_fail o) ∧
           cstr str = cstr string ∧ bytes_ok str ∧
           lastAtom s + 1 < tlen ∧ (tlen <= 100 ∨ tlen <= 2 * (lastAtom s + 1)))
      else MakeAtom s string makeit o = (0, s, o)
  end.
Proof.
  intros W Hb Hmax. unfold MakeAtom; cbv zeta.
  rewrite search_dict by done. destruct (dict s !! key_of string) as [a|]; [done|].
  destruct makeit; [|done].
  destruct (alloc o) as [ok1 o1] eqn:E1. destruct (alloc_spec _ _ _ E1) as (F1 & M1 & K1).
  destruct ok1; simpl; [|left; eauto].
  set (q := if lastAtom s <? _ then _ else _).
  assert (exists ok2 str o2, q = (ok2, str, o2) ∧ cstr str = cstr string ∧ bytes_ok str ∧
    (ok2 = false -> may_fail o1) ∧ (may_fail o2 -> may_fail o1) ∧ (all_ok o1 -> all_ok o2))
    as (ok2 & str & o2 & -> & Hstr & Hbs & F2 & M2 & K2).
  { subst q. destruct (_ <? _); [by repeat eexists|].
    destruct (alloc o1) as [ok2 o2] eqn:E2. destruct (alloc_spec _ _ _ E2) as (? & ? & ?).
    repeat eexists; eauto using cstr_strncpy, strncpy_bytes. }
  destruct ok2; simpl; [|left; eauto].
  destruct (growTable s o2) as [[ok3 tlen] o3] eqn:E3.
  destruct (growTable_spec _ _ _ _ _ W Hmax E3) as (T3 & F3 & K3 & M3).
  destruct ok3; simpl; [|left; eexists; split; [done|auto]].
  right. destruct (T3 eq_refl). destruct (wf_last s W).
  exists str, tlen, o3. unfold new_node_state. rewrite u32_small by lia. split_and!; auto.
Qed.

Section NewNode.
Context (s : AtomState) (string str : list Z) (tlen : Z).
Context (W : atoms_wf s) (Hb : bytes_ok string) (Hmax : lastAtom s + 1 < 2 ^ 32).
Context (Hnew : dict s !! key_of string = None).
Context (Hstr : cstr str = cstr string) (Hbs : bytes_ok str).
Context (Ht : lastAtom s + 1 < tlen ∧ (tlen <= 100 ∨ tlen <= 2 * (lastAtom s + 1))).
Let s' := new_node_state s string str tlen.

Lemma new_search : search (atomRoot s) (fingerprint string) string = None.
Proof using W Hb Hnew.
  by rewrite search_dict.
Qed.

Lemma new_dict : dict s' = <[key_of string := lastAtom s + 1]> (dict s).
Proof using W Hb Hmax Hnew Hstr.
  unfold s', dict, new_node_state; simpl. destruct (wf_last s W).
  rewrite u32_small by lia.
  apply tree_map_link; [done|done|apply (wf_bst s W)|apply new_search].
Qed.

Lemma new_wf : atoms_wf s'.
Proof using W Hb Hmax Hnew Hstr Hbs Ht.
  pose proof new_dict as Hd. pose proof new_search as Hns.
  destruct W as [Wb Wl Wr Wt Wn Wv Wu Wi].
  assert (Hu : u32 (lastAtom s + 1) = lastAtom s + 1) by (apply u32_small; lia).
  split; try rewrite Hd; unfold s', new_node_state; simpl; rewrite ?Hu; try lia.
  - by apply bst_link.
  - rewrite lookup_insert_ne by lia. done.
  - intros k a. destruct (decide (key_of string = k)) as [<-|Hk].
    + rewrite lookup_insert_eq. intros [= <-]. split; [lia|].
      exists str. rewrite lookup_insert_eq. done.
    + rewrite lookup_insert_ne by done. intros Ha. destruct (Wv _ _ Ha) as (Hr & st & H1 & H2).
      split; [lia|]. exists st. rewrite lookup_insert_ne by lia. done.
  - intros a Ha. destruct (decide (a = lastAtom s + 1)) as [->|Hne].
    + exists (key_of string). by rewrite lookup_insert_eq.
    + destruct (Wu a) as [k Hk]; [lia|]. exists k.
      rewrite lookup_insert_ne; [done|]. intros <-. congruence.
  - intros k k' a. destruct (decide (key_of string = k)) as [<-|Hk],
      (decide (key_of string = k')) as [<-|Hk']; rewrite ?lookup_insert_eq, ?lookup_insert_ne by done.
    + done.
    + intros [= <-] H. apply Wv in H. lia.
    + intros H [= <-]. apply Wv in H. lia.
    + apply Wi.
Qed.
End NewNode.

(** ** Main results *)

(** C7: interning refines a dictionary.  A known string gives the atom it was
    given before and changes nothing, whatever allocation does; an unknown string
    gives None when the caller only looks, and otherwise either gets the next
    unused value, which the dictionary then maps it to, or fails with BAD_RESOURCE
    leaving the table untouched, which happens only when an allocation failed. *)
Theorem MakeAtom_refines s string makeit o :
  atoms_wf s -> bytes_ok string -> lastAtom s + 1 < 2 ^ 32 ->
  let '(r, s', _) := MakeAtom s string makeit o in
  atoms_wf s' ∧
  match dict s !! key_of string with
  | Some a => r = a ∧ s' = s
  | None =>
      if makeit then
        (r = BAD_RESOURCE ∧ s' = s ∧ may_fail o) ∨
        (r = lastAtom s + 1 ∧ lastAtom s' = r ∧ dict s' = <[key_of string := r]> (dict s))
      else r = 0 ∧ s' = s
  end.
Proof.
  intros W Hb Hmax. pose proof (MakeAtom_cases s string makeit o W Hb Hmax) as H.
  destruct (dict s !! key_of string) eqn:Hk; [by rewrite H|].
  destruct makeit; [|by rewrite H].
  destruct H as [(o' & -> & ?) | (str & tlen & o' & -> & _ & _ & ? & ? & ?)]; [by auto|].
  split; [by apply new_wf|]. right. rewrite new_dict by done. destruct (wf_last s W).
  split; [done|]. split; [|done]. simpl. apply u32_small. lia.
Qed.

(** C26: a successful intern can be read back: NameForAtom of the atom returned is
    the string (up to its terminating NUL), ValidAtom accepts it, looking the
    string up again returns it, and every other atom keeps its name. *)
Theorem MakeAtom_NameForAtom s string o :
  atoms_wf s -> bytes_ok string -> lastAtom s + 1 < 2 ^ 32 -> all_ok o ->
  let '(r, s', o') := MakeAtom s string true o in
  (exists str, NameForAtom s' r = Some str ∧ cstr str = cstr string) ∧
  ValidAtom s' r = true ∧
  MakeAtom s' string false o' = (r, s', o') ∧
  (forall a, 1 <= a <= lastAtom s -> NameForAtom s' a = NameForAtom s a).
Proof.
  intros W Hb Hmax Hok. pose proof (MakeAtom_cases s string true o W Hb Hmax) as H.
  assert (Hread : forall s k a, atoms_wf s -> dict s !! k = Some a ->
    (exists str, NameForAtom s a = Some str ∧ cstr str = snd k) ∧ ValidAtom s a = true).
  { clear. intros s k a W Hk. destruct (wf_value s W _ _ Hk) as (Hr & str & Hn & Hc).
    unfold NameForAtom, ValidAtom. rewrite Hn.
    destruct (Z.ltb_spec (lastAtom s) a), (Z.eqb_spec a 0), (Z.leb_spec a (lastAtom s)); try lia.
    simpl; eauto. }
  destruct (dict s !! key_of string) as [a|] eqn:Hk.
  { rewrite H. destruct (Hread _ _ _ W Hk). unfold MakeAtom.
    by rewrite search_dict, Hk. }
  destruct H as [(o' & _ & Hf) | (str & tlen & o' & -> & _ & _ & Hc & Hbs & Ht)];
    [by destruct (may_fail_not_all_ok _ Hf)|].
  assert (W' := new_wf _ _ _ _ W Hb Hmax Hk Hc Hbs Ht).
  assert (Hd : dict (new_node_state s string str tlen) !! key_of string = Some (lastAtom s + 1))
    by (rewrite new_dict by done; apply lookup_insert_eq).
  destruct (Hread _ _ _ W' Hd). split; [done|]. split; [done|]. split.
  - unfold MakeAtom. by rewrite search_dict, Hd.
  - intros a Ha. unfold NameForAtom; simpl. rewrite u32_small by lia.
    rewrite lookup_insert_ne by lia.
    destruct (Z.ltb_spec (lastAtom s) a), (Z.ltb_spec (lastAtom s + 1) a); try done; lia.
Qed.

(** The table [InitAtoms] starts from. *)
Definition fresh_atoms : AtomState := mkAtomState 0 NullNode InitialTableSize {[0 := None]}.

Lemma fresh_atoms_wf : atoms_wf fresh_atoms.
Proof.
  split; unfold dict; simpl; try done; unfold InitialTableSize; try lia; intros *;
    rewrite ?lookup_empty; first [done | lia].
Qed.

Section Predeclared.
Abbreviation pkey p := (key_of (bytes_of_string (fst p))).

Lemma byte_string_ok s : bytes_ok (bytes_of_string s).
Proof.
  unfold bytes_ok, bytes_of_string. apply List.Forall_map, Forall_true.
  intros c. pose proof (Ascii.N_ascii_bounded c). lia.
Qed.

Lemma MakePredeclaredAtoms_spec l s o :
  atoms_wf s -> NoDup (map (fun p => pkey p) l) ->
  Forall (fun p => dict s !! pkey p = None) l ->
  map snd l = seqZ (lastAtom s + 1) (Z.of_nat (length l)) ->
  lastAtom s + Z.of_nat (length l) < BAD_RESOURCE ->
  (MakePredeclaredAtoms l s o = None ∧ may_fail o) ∨
  exists s' o', MakePredeclaredAtoms l s o = Some (s', o') ∧ atoms_wf s' ∧
    lastAtom s' = lastAtom s + Z.of_nat (length l) ∧
    Forall (fun p => dict s' !! pkey p = Some (snd p)) l ∧ dict s ⊆ dict s'.
Proof.
  revert s o; induction l as [|[name v] l IH]; intros s o W Hnd Hfree Hv Hmax; simpl.
  { right. exists s, o. split_and!; try done. lia. }
  cbn [length] in *. assert (HB : BAD_RESOURCE = 0xe0000000) by done.
  destruct (wf_last s W) as [Hl _].
  apply Forall_cons in Hfree as [Hn Hfree]. apply NoDup_cons in Hnd as [Hnin Hnd].
  rewrite seqZ_cons in Hv by lia. injection Hv as Hv Hvs.
  assert (Hb := byte_string_ok name).
  pose proof (MakeAtom_cases s _ true o W Hb ltac:(lia)) as H. simpl in Hn. rewrite Hn in H.
  destruct H as [(o' & -> & Hf) | (str & tlen & o' & -> & _ & Hmf & Hc & Hbs & Ht)].
  { left. destruct (Z.eqb_spec BAD_RESOURCE v); [lia|done]. }
  rewrite <- Hv, Z.eqb_refl.
  assert (W' := new_wf _ _ _ _ W Hb ltac:(lia) Hn Hc Hbs Ht).
  assert (Hd := new_dict _ _ str tlen W Hb ltac:(lia) Hn Hc).
  set (s1 := new_node_state s _ str tlen) in *.
  assert (Hl1 : lastAtom s1 = lastAtom s + 1) by (apply u32_small; lia).
  destruct (IH s1 o' W' Hnd) as [[IHn IHf]|(s2 & o2 & IH1 & IH2 & IH3 & IH4 & IH5)].
  - rewrite Hd. apply Forall_forall. intros p Hp. rewrite lookup_insert_ne.
    + by apply (proj1 (Forall_forall _ _) Hfree).
    + intros Heq. apply Hnin, list_elem_of_fmap. exists p. by rewrite <- Heq.
  - rewrite Hl1, Hvs. f_equal; lia.
  - lia.
  - left. auto.
  - right. exists s2, o2. split_and!; try done; [lia| |].
    + constructor; [|done]. simpl. rewrite Hv. eapply lookup_weaken; [|done].
      rewrite Hd. apply lookup_insert_eq.
    + etrans; [|done]. rewrite Hd. by apply insert_subseteq.
Qed.
End Predeclared.

(** the server starts with the predefined atoms of the protocol.  From any
    earlier table InitAtoms either stops in AtomError, which requires a failed
    allocation, or yields a well formed table of exactly 68 atoms in which every
    predeclared string is interned at its protocol value. *)
Theorem InitAtoms_spec s o :
  (atomRoot s = NullNode -> lastAtom s = 0) ->
  match InitAtoms s o with
  | None => may_fail o
  | Some (s', _) =>
      atoms_wf s' ∧ lastAtom s' = XA_LAST_PREDEFINED ∧
      Forall (fun p => dict s' !! key_of (bytes_of_string (fst p)) = Some (snd p)) PredeclaredAtoms
  end.
Proof.
  intros H0. unfold InitAtoms. destruct (alloc o) as [ok o1] eqn:Ea.
  destruct (alloc_spec _ _ _ Ea) as (F & M & _).
  assert (exists f, FreeAllAtoms s = (mkAtomState 0 NullNode (tableLength s) (nodeTable (fst (FreeAllAtoms s))), f))
    as [f ->].
  { unfold FreeAllAtoms. destruct s as [l [] t n]; simpl in *; [rewrite H0 by done|]; eauto. }
  destruct ok; cbn [negb lastAtom atomRoot]; [|by apply F].
  change (mkAtomState _ _ _ _) with fresh_atoms. set (s0 := fresh_atoms).
  destruct (MakePredeclaredAtoms_spec PredeclaredAtoms s0 o1 fresh_atoms_wf)
    as [[-> Hf]|(s' & o' & -> & W' & Hl & Hd & _)].
  - apply (bool_decide_unpack _). vm_compute. exact I.
  - apply Forall_forall. intros p _. apply lookup_empty.
  - vm_compute. reflexivity.
  - vm_compute. reflexivity.
  - by apply M.
  - assert (Hl' : lastAtom s' = XA_LAST_PREDEFINED) by (rewrite Hl; vm_compute; reflexivity).
    rewrite Hl'. simpl. done.
Qed.

Lemma mem_FreeAtom t a :
  bst t -> a ∈ map fst (FreeAtom t) <-> exists k, tree_map t !! k = Some a.
Proof.
  induction t as [|l IHl r IHr b fp str]; simpl.
  { intros _. split; [by inversion 1|]. intros [k Hk]. by rewrite lookup_empty in Hk. }
  intros (Hl & Hr & Hb & HL & HR). rewrite !map_app, !elem_of_app, IHl, IHr by done. simpl.
  rewrite list_elem_of_singleton. split.
  - intros [[k Hk]|[[k Hk]| -> ]].
    + exists k. rewrite lookup_insert_ne; [by apply lookup_union_Some_l|].
      eapply keycmp_ne. by rewrite (HL _ _ Hk).
    + exists k. rewrite lookup_insert_ne by (eapply keycmp_ne; by rewrite (HR _ _ Hk)).
      rewrite lookup_union_r; [done|]. eapply bst_left_None; [done|]. by rewrite (HR _ _ Hk).
    + exists (fp, cstr str). apply lookup_insert_eq.
  - intros [k Hk]. destruct (decide ((fp, cstr str) = k)) as [<-|Hne].
    + rewrite lookup_insert_eq in Hk. injection Hk as ->. auto.
    + rewrite lookup_insert_ne in Hk by done. apply lookup_union_Some_raw in Hk as [?|[_ ?]]; eauto.
Qed.

Lemma NoDup_FreeAtom t :
  bst t -> (forall k k' a, tree_map t !! k = Some a -> tree_map t !! k' = Some a -> k = k') ->
  NoDup (map fst (FreeAtom t)).
Proof.
  induction t as [|l IHl r IHr b fp str]; simpl; [by constructor|].
  intros (Hl & Hr & Hb & HL & HR) Hinj. rewrite !map_app; simpl.
  assert (Lift : forall k a, tree_map l !! k = Some a ->
    <[(fp, cstr str):=b]> (tree_map l ∪ tree_map r) !! k = Some a).
  { intros k a Hk. rewrite lookup_insert_ne by (eapply keycmp_ne; by rewrite (HL _ _ Hk)).
    by apply lookup_union_Some_l. }
  assert (Rift : forall k a, tree_map r !! k = Some a ->
    <[(fp, cstr str):=b]> (tree_map l ∪ tree_map r) !! k = Some a).
  { intros k a Hk. rewrite lookup_insert_ne by (eapply keycmp_ne; by rewrite (HR _ _ Hk)).
    rewrite lookup_union_r; [done|]. eapply bst_left_None; [done|]. by rewrite (HR _ _ Hk). }
  assert (Top := lookup_insert_eq (tree_map l ∪ tree_map r) (fp, cstr str) b).
  apply NoDup_app. split_and!; [eauto| |apply NoDup_app; split_and!; [eauto| |apply NoDup_singleton]].
  - intros a (k & Hk)%mem_FreeAtom Ha; [|done].
    rewrite elem_of_app, list_elem_of_singleton, mem_FreeAtom in Ha by done.
    destruct Ha as [(k' & Hk')| ->].
    + assert (k = k') as <- by eauto. by specialize (HL _ _ Hk); rewrite (HR _ _ Hk') in HL.
    + assert (k = (fp, cstr str)) as -> by eauto. apply HL in Hk.
      by rewrite (proj2 (keycmp_eq _ _)) in Hk.
  - intros a (k & Hk)%mem_FreeAtom Ha; [|done]. apply list_elem_of_singleton in Ha as ->.
    assert (k = (fp, cstr str)) as -> by eauto. apply HR in Hk.
    by rewrite (proj2 (keycmp_eq _ _)) in Hk.
Qed.

(** FreeAllAtoms releases every node once and only once, with its own copy of
    the string exactly for the atoms beyond the predefined ones, and leaves no atom
    behind. *)
Theorem FreeAllAtoms_releases_all s :
  atoms_wf s ->
  let '(s', freed) := FreeAllAtoms s in
  map fst freed ≡ₚ seqZ 1 (lastAtom s) ∧
  Forall (fun p => snd p = (XA_LAST_PREDEFINED <? fst p)) freed ∧
  lastAtom s' = 0 ∧ atomRoot s' = NullNode ∧ (forall a, 1 <= a -> ValidAtom s' a = false).
Proof.
  intros W. pose proof (wf_last s W).
  assert (Hp : map fst (FreeAtom (atomRoot s)) ≡ₚ seqZ 1 (lastAtom s)).
  { apply NoDup_Permutation; [apply NoDup_FreeAtom; [apply W|apply W]|apply NoDup_seqZ|].
    intros a. rewrite mem_FreeAtom, elem_of_seqZ by apply W. split.
    - intros [k Hk]. apply (wf_value s W) in Hk. lia.
    - intros Ha. apply (wf_used s W). lia. }
  assert (Hs : forall t, Forall (fun p => snd p = (XA_LAST_PREDEFINED <? fst p)) (FreeAtom t)).
  { induction t; simpl; [done|]. rewrite !Forall_app. auto. }
  assert (Hv : forall s' a, lastAtom s' = 0 -> 1 <= a -> ValidAtom s' a = false).
  { intros s' a Hl Ha. unfold ValidAtom. rewrite Hl. apply andb_false_iff. right. lia. }
  unfold FreeAllAtoms. destruct (atomRoot s) as [|l r a fp str] eqn:Hr; simpl in *.
  - apply Permutation_nil_l in Hp. assert (lastAtom s = 0) as Hl.
    { destruct (decide (lastAtom s = 0)); [done|]. rewrite seqZ_cons in Hp by lia. done. }
    rewrite Hl. split_and!; auto.
  - split_and!; auto. apply (Hs (NodeRec l r a fp str)).
Qed.

(** ** Witnesses *)

Definition hello : list Z := [72; 101; 108; 108; 111].

Lemma MakeAtom_refines_witness :
  let '(r, s', _) := MakeAtom fresh_atoms hello true [] in
  r = 1 ∧ atoms_wf s' ∧ dict s' = <[key_of hello := 1]> (dict fresh_atoms).
Proof.
  assert (Hb : bytes_ok hello) by (repeat constructor; lia).
  pose proof (MakeAtom_refines fresh_atoms hello true [] fresh_atoms_wf Hb ltac:(simpl; lia)) as H.
  change (dict fresh_atoms !! key_of hello) with (@None Z) in H.
  destruct (MakeAtom fresh_atoms hello true []) as [[r s'] o'] eqn:E.
  destruct H as [W [(_ & _ & Hf)|(-> & _ & Hd)]]; [by inversion Hf|].
  exact (conj eq_refl (conj W Hd)).
Defined.

Lemma MakeAtom_NameForAtom_witness :
  exists str, NameForAtom (snd (fst (MakeAtom fresh_atoms hello true []))) 1 = Some str ∧ cstr str = hello.
Proof.
  assert (Hb : bytes_ok hello) by (repeat constructor; lia).
  pose proof (MakeAtom_NameForAtom fresh_atoms hello [] fresh_atoms_wf Hb ltac:(simpl; lia) all_ok_nil) as H.
  destruct (MakeAtom fresh_atoms hello true []) as [[r s'] o'] eqn:E.
  vm_compute in E. injection E as <- <- <-. exact (proj1 H).
Defined.

Lemma InitAtoms_spec_witness :
  exists s' o', InitAtoms (mkAtomState 0 NullNode 0 ∅) [] = Some (s', o') ∧ atoms_wf s'.
Proof.
  pose proof (InitAtoms_spec (mkAtomState 0 NullNode 0 ∅) [] (fun _ => eq_refl)) as H.
  destruct (InitAtoms _ _) as [[s' o']|]; [|by inversion H].
  exists s', o'. exact (conj eq_refl (proj1 H)).
Defined.

Lemma FreeAllAtoms_releases_all_witness :
  map fst (snd (FreeAllAtoms fresh_atoms)) ≡ₚ [].
Proof. exact (proj1 (FreeAllAtoms_releases_all fresh_atoms fresh_atoms_wf)). Defined.
