(* ===== verification/Region.v ===== *)
(** * Region: the data structure of dix/region.c and regionstr.h

    A region is a bounding box ([extents]) and a [data] pointer that is NULL (the
    region is the single rectangle [extents]), one of the static empty or broken
    records, or a heap block with a capacity, a count and an array of boxes.
    This file has the structure, the accessors of regionstr.h, allocation
    ([RegionRectAlloc]), and the macros that append boxes; the lemmas say what
    each does to the list of rectangles of the region. *)

From stdpp Require Import base numbers list.
From S2P Require Import Prelude Bands.

(** ** Allocation of rectangle arrays

    [oom] is a ghost: it records that some allocation was refused. *)
Record Mem := mkMem { outcomes : oracle; oom : bool }.

(** [RegionSizeof]: bytes for [n] rectangles, 0 when that exceeds an int. *)
Definition RegionSizeof (n : nat) : Z :=
  if Z.of_nat n <? (2 ^ 31 - 1 - 16) / 8 then 16 + Z.of_nat n * 8 else 0.

(** [(rgnSize > 0) ? malloc(rgnSize) : NULL]. *)
Definition alloc_rects (n : nat) (m : Mem) : bool * Mem :=
  if 0 <? RegionSizeof n
  then let '(ok, o) := alloc (outcomes m) in (ok, mkMem o (oom m || negb ok))
  else (false, mkMem (outcomes m) true).

(** ** Regions *)

Inductive RegData :=
  | NullData
  | EmptyData
  | BrokenData
  | HeapData (size numRects : nat) (boxes : list Box).

Record Region := mkRegion { extents : Box; data : RegData }.

Definition RegionEmptyBox : Box := mkBox 0 0 0 0.
Definition RegionBrokenRegion : Region := mkRegion RegionEmptyBox BrokenData.

Definition set_data (reg : Region) (d : RegData) : Region := mkRegion (extents reg) d.
Definition set_extents (reg : Region) (b : Box) : Region := mkRegion b (data reg).

Definition RegionNar (reg : Region) : bool :=
  match data reg with BrokenData => true | _ => false end.

Definition RegionNumRects (reg : Region) : nat :=
  match data reg with NullData => 1 | HeapData _ n _ => n | _ => 0 end.

Definition RegionNil (reg : Region) : bool :=
  match data reg with NullData => false | HeapData _ n _ => (n =? 0)%nat | _ => true end.

Definition RegionSize (reg : Region) : nat :=
  match data reg with HeapData s _ _ => s | _ => 0 end.

(** The array behind [RegionBoxptr]: all of it, counted boxes first. *)
Definition RegionBoxptr (reg : Region) : list Box :=
  match data reg with HeapData _ _ b => b | _ => [] end.

(** The rectangles [RegionRects(reg)[0 .. RegionNumRects(reg) - 1]]. *)
Definition RegionRects (reg : Region) : list Box :=
  match data reg with
  | NullData => [extents reg]
  | HeapData _ n b => take n b
  | _ => []
  end.

(** [RegionEnd]: the last rectangle of a heap region. *)
Definition RegionEnd (reg : Region) : Box :=
  default RegionEmptyBox (RegionBoxptr reg !! (RegionNumRects reg - 1)%nat).

Definition RegionBreak (reg : Region) : Region := mkRegion RegionEmptyBox BrokenData.

(** [RegionInit] with a box, and with [NullBox] and a size. *)
Definition RegionInit (rect : option Box) (size : nat) (m : Mem) : Region * Mem :=
  match rect with
  | Some b => (mkRegion b NullData, m)
  | None =>
      if (1 <? size)%nat then
        let '(ok, m) := alloc_rects size m in
        (mkRegion RegionEmptyBox (if ok then HeapData size 0 [] else EmptyData), m)
      else (mkRegion RegionEmptyBox EmptyData, m)
  end.

(** [RegionCreate]: the header itself may not be allocated. *)
Definition RegionCreate (rect : option Box) (size : nat) (m : Mem) : Region * Mem :=
  let '(ok, o) := alloc (outcomes m) in
  let m := mkMem o (oom m || negb ok) in
  if ok then RegionInit rect size m else (RegionBrokenRegion, m).

(** [RegionIsValid], the check behind [good()]. *)
Fixpoint valid_steps (p : Box) (rest : list Box) (box : Box) : option Box :=
  match rest with
  | [] => Some box
  | n :: rest =>
      if (x2 n <=? x1 n) || (y2 n <=? y1 n) then None else
      let box := mkBox (Z.min (x1 box) (x1 n)) (y1 box) (Z.max (x2 box) (x2 n)) (y2 box) in
      if (y1 n <? y1 p) ||
         ((y1 n =? y1 p) && ((x1 n <? x2 p) || negb (y2 n =? y2 p))) then None
      else valid_steps n rest box
  end.

Definition RegionIsValid (reg : Region) : bool :=
  let e := extents reg in
  if (x2 e <? x1 e) || (y2 e <? y1 e) then false else
  let rects := RegionRects reg in
  match RegionNumRects reg with
  | O => (x1 e =? x2 e) && (y1 e =? y2 e) &&
         match data reg with EmptyData => true | _ => (0 <? RegionSize reg)%nat end
  | S O => match data reg with NullData => true | _ => false end
  | _ =>
      match rects with
      | [] => false
      | p :: rest =>
          match valid_steps p rest (mkBox (x1 p) (y1 p) (x2 p) (y2 (default p (last rects)))) with
          | None => false
          | Some box => (x1 box =? x1 e) && (x2 box =? x2 e) && (y1 box =? y1 e) && (y2 box =? y2 e)
          end
      end
  end.

(** ** RegionRectAlloc

    Makes room for [n] more rectangles; a refusal breaks the region. *)
Definition RegionRectAlloc (reg : Region) (n : nat) (m : Mem) : bool * Region * Mem :=
  match data reg with
  | NullData =>
      let n := S n in
      let '(ok, m) := alloc_rects n m in
      if ok then (true, set_data reg (HeapData n 1 [extents reg]), m)
      else (false, RegionBreak reg, m)
  | HeapData (S _) num boxes =>
      let n := if (n =? 1)%nat then if (500 <? num)%nat then 250%nat else num else n in
      let n := (n + num)%nat in
      let '(ok, m) := alloc_rects n m in
      if ok then (true, set_data reg (HeapData n num (take n boxes)), m)
      else (false, RegionBreak reg, m)
  | _ =>
      let '(ok, m) := alloc_rects n m in
      if ok then (true, set_data reg (HeapData n 0 []), m)
      else (false, RegionBreak reg, m)
  end.

(** [RECTALLOC]: allocate only when the room is short. *)
Definition RECTALLOC (reg : Region) (n : nat) (m : Mem) : bool * Region * Mem :=
  match data reg with
  | NullData => RegionRectAlloc reg n m
  | _ => if (RegionSize reg <? RegionNumRects reg + n)%nat then RegionRectAlloc reg n m
         else (true, reg, m)
  end.

(** Store boxes at [RegionTop] and count them. *)
Definition push_boxes (reg : Region) (bs : list Box) : Region :=
  match data reg with
  | HeapData size num boxes =>
      set_data reg (HeapData size (num + length bs)
                      (take num boxes ++ bs ++ drop (num + length bs) boxes))
  | _ => reg
  end.

(** [NEWRECT]: one box at the top, growing the array when it is full. *)
Definition NEWRECT (reg : Region) (b : Box) (m : Mem) : bool * Region * Mem :=
  let full := match data reg with
              | NullData => true
              | _ => (RegionNumRects reg =? RegionSize reg)%nat
              end in
  if full then
    let '(ok, reg, m) := RegionRectAlloc reg 1 m in
    if ok then (true, push_boxes reg [b], m) else (false, reg, m)
  else (true, push_boxes reg [b], m).

(** [DOWNSIZE]: give back a mostly unused block; a refusal is harmless. *)
Definition DOWNSIZE (reg : Region) (numRects : nat) (m : Mem) : Region * Mem :=
  match data reg with
  | HeapData size num boxes =>
      if (numRects <? size / 2)%nat && (50 <? size)%nat then
        let '(ok, m') := alloc_rects numRects m in
        if ok then (set_data reg (HeapData numRects num (take numRects boxes)), m')
        else (reg, mkMem (outcomes m') (oom m))
      else (reg, m)
  | _ => (reg, m)
  end.

(** ** What the macros do to the rectangle list *)

(** A heap block whose counted boxes are initialised and fit. *)
Definition heap_ok (reg : Region) : Prop :=
  match data reg with
  | HeapData size num boxes => (num <= length boxes <= size)%nat ∧ (0 < size)%nat
  | NullData => False
  | _ => True
  end.

Lemma alloc_rects_spec n m ok m' :
  alloc_rects n m = (ok, m') -> oom m' = false -> ok = true ∧ oom m = false.
Proof.
  unfold alloc_rects. destruct (0 <? RegionSizeof n); [|by intros [= <- <-]].
  destruct (alloc _) as [b o]. intros [= <- <-]; simpl. destruct (oom m), b; simpl; done.
Qed.

Lemma alloc_rects_true n m m' : alloc_rects n m = (true, m') -> oom m' = oom m.
Proof.
  unfold alloc_rects. destruct (0 <? RegionSizeof n); [|done].
  destruct (alloc _) as [[] o]; [|done]. intros [= <-]; simpl. by rewrite orb_false_r.
Qed.

(** A refusal is never forgotten. *)
Definition quiet (m m' : Mem) : Prop := oom m' = false -> oom m = false.

#[export] Instance quiet_preorder : PreOrder quiet.
Proof. split; [by intros m H|]. intros m1 m2 m3 H1 H2 H3. by apply H1, H2. Qed.

Lemma alloc_rects_quiet n m : quiet m (snd (alloc_rects n m)).
Proof.
  unfold quiet. intros H. destruct (alloc_rects n m) as [ok m'] eqn:Ha.
  by destruct (alloc_rects_spec _ _ _ _ Ha H).
Qed.

Lemma RegionRectAlloc_quiet reg n m : quiet m (snd (RegionRectAlloc reg n m)).
Proof.
  unfold RegionRectAlloc. destruct (data reg) as [| | |[|size] num b]; cbv zeta;
    match goal with |- context [alloc_rects ?k m] =>
      pose proof (alloc_rects_quiet k m); destruct (alloc_rects k m) as [[] ?] end; done.
Qed.

Lemma RECTALLOC_quiet reg n m : quiet m (snd (RECTALLOC reg n m)).
Proof.
  pose proof (RegionRectAlloc_quiet reg n m). unfold RECTALLOC.
  destruct (data reg); [done|..]; by destruct (_ <? _)%nat.
Qed.

Lemma NEWRECT_quiet reg b m : quiet m (snd (NEWRECT reg b m)).
Proof.
  pose proof (RegionRectAlloc_quiet reg 1 m). unfold NEWRECT. cbv zeta.
  destruct (match data reg with NullData => true | _ => _ end); [|done].
  by destruct (RegionRectAlloc reg 1 m) as [[[] ?] ?].
Qed.

Lemma RegionRectAlloc_spec reg n m ok reg' m' :
  RegionRectAlloc reg n m = (ok, reg', m') -> (0 < n)%nat -> oom m' = false ->
  (data reg = NullData ∨ heap_ok reg) ->
  (forall size num b, data reg = HeapData size num b -> n = 1%nat -> (0 < num)%nat) ->
  ok = true ∧ oom m = false ∧ heap_ok reg' ∧ RegionRects reg' = RegionRects reg ∧
  extents reg' = extents reg ∧ (RegionNumRects reg' + (if (n =? 1)%nat then 1 else n) <= RegionSize reg')%nat ∧
  exists size num b, data reg' = HeapData size num b.
Proof.
  unfold RegionRectAlloc, heap_ok, RegionRects, RegionNumRects, RegionSize.
  intros H Hn Hm Hok Hone.
  destruct reg as [e [| | |size num b]]; simpl in *; [| | |destruct size as [|size]].
  all: destruct (alloc_rects _ _) as [ok1 m1] eqn:Ha; destruct ok1; injection H as <- <- <-;
    destruct (alloc_rects_spec _ _ _ _ Ha Hm) as [? ?]; try done; simpl.
  1-4: split_and!; try done; try lia; try (by repeat eexists); try (destruct (Nat.eqb_spec n 1); lia).
  { destruct Hok as [?|[? ?]]; [done|lia]. }
  destruct Hok as [?|[Hl _]]; [done|]. specialize (Hone _ _ _ eq_refl).
  set (k := if (n =? 1)%nat then _ else n).
  assert (0 < k)%nat.
  { subst k. destruct (Nat.eqb_spec n 1); [|lia]. destruct (Nat.ltb_spec 500 num); [lia|]. by apply Hone. }
  assert (n ≠ 1%nat -> k = n) by (subst k; destruct (Nat.eqb_spec n 1); done).
  split_and!; try done; rewrite ?length_take; try lia; try (by repeat eexists).
  - rewrite take_take. f_equal. lia.
  - destruct (Nat.eqb_spec n 1); lia.
Qed.

Lemma push_boxes_spec reg bs size num b :
  data reg = HeapData size num b -> heap_ok reg -> (num + length bs <= size)%nat ->
  let reg' := push_boxes reg bs in
  heap_ok reg' ∧ RegionRects reg' = RegionRects reg ++ bs ∧ extents reg' = extents reg ∧
  (exists b', data reg' = HeapData size (num + length bs) b').
Proof.
  unfold heap_ok, push_boxes, RegionRects. intros -> [Hl Hs] Hfit; simpl.
  rewrite !length_app, length_take, length_drop.
  split_and!; try done; try lia; [|by eexists].
  rewrite app_assoc, take_app_le by (rewrite length_app, length_take; lia).
  by rewrite take_ge by (rewrite length_app, length_take; lia).
Qed.

(** A region the append macros may grow: NULL data (one rectangle) or a block. *)
Definition growable (reg : Region) : Prop := data reg = NullData ∨ heap_ok reg.

Definition is_heap (reg : Region) : Prop := exists size num b, data reg = HeapData size num b.

Lemma push_boxes_room reg bs :
  is_heap reg -> heap_ok reg -> (RegionNumRects reg + length bs <= RegionSize reg)%nat ->
  let reg' := push_boxes reg bs in
  heap_ok reg' ∧ is_heap reg' ∧ RegionRects reg' = RegionRects reg ++ bs ∧
  extents reg' = extents reg ∧ RegionSize reg' = RegionSize reg.
Proof.
  intros (size & num & b & Hd) Hok Hfit. unfold RegionNumRects, RegionSize in *. rewrite Hd in Hfit.
  destruct (push_boxes_spec reg bs _ _ _ Hd Hok Hfit) as (? & ? & ? & b' & Hd').
  split_and!; try done; [by repeat eexists|]. by rewrite Hd, Hd'.
Qed.

Lemma RECTALLOC_spec reg n m ok reg' m' :
  RECTALLOC reg n m = (ok, reg', m') -> (0 < n)%nat -> oom m' = false -> growable reg ->
  ok = true ∧ oom m = false ∧ is_heap reg' ∧ heap_ok reg' ∧ RegionRects reg' = RegionRects reg ∧
  extents reg' = extents reg ∧ (RegionNumRects reg' + n <= RegionSize reg')%nat.
Proof.
  intros H Hn Hm Hg. unfold RECTALLOC in H.
  assert (Hcase : RegionRectAlloc reg n m = (ok, reg', m') ∧
                  (forall size num b, data reg = HeapData size num b -> n = 1%nat -> (0 < num)%nat) ∨
                  (ok, reg', m') = (true, reg, m) ∧ is_heap reg ∧ heap_ok reg ∧
                  (RegionNumRects reg + n <= RegionSize reg)%nat).
  { destruct Hg as [Hnull|Hheap].
    - rewrite Hnull in H. left. split; [done|]. by rewrite Hnull.
    - unfold RegionNumRects, RegionSize, heap_ok, is_heap in *.
      destruct (data reg) as [| | |size num b] eqn:Hd; [done| | |].
      + destruct (Nat.ltb_spec 0 (0 + n)); [left; done|lia].
      + destruct (Nat.ltb_spec 0 (0 + n)); [left; done|lia].
      + destruct (Nat.ltb_spec size (num + n)).
        * left. split; [done|]. intros ? ? ? [= <- <- <-] ->. lia.
        * right. split_and!; try done; try lia; by repeat eexists. }
  destruct Hcase as [[Ha Hone]|([= -> -> ->] & ? & ? & ?)].
  - destruct (RegionRectAlloc_spec _ _ _ _ _ _ Ha Hn Hm Hg Hone) as (? & ? & ? & ? & ? & Hfit & ?).
    split_and!; try done. destruct (Nat.eqb_spec n 1); [subst|]; done.
  - split_and!; done.
Qed.

Lemma NEWRECT_spec reg b m ok reg' m' :
  NEWRECT reg b m = (ok, reg', m') -> oom m' = false -> growable reg ->
  ok = true ∧ oom m = false ∧ is_heap reg' ∧ heap_ok reg' ∧ RegionRects reg' = RegionRects reg ++ [b] ∧
  extents reg' = extents reg.
Proof.
  intros H Hm Hg. unfold NEWRECT in H. set (full := match data reg with NullData => _ | _ => _ end) in H.
  destruct full eqn:Hfull; subst full.
  - destruct (RegionRectAlloc reg 1 m) as [[ok1 reg1] m1] eqn:Ha.
    assert (m1 = m') as -> by (destruct ok1; injection H; done).
    destruct (RegionRectAlloc_spec _ _ _ _ _ _ Ha ltac:(lia) Hm Hg) as (-> & ? & Hok1 & Hr & He & Hfit & Hh).
    { intros size num bx Hd _. unfold RegionNumRects, RegionSize in Hfull. rewrite Hd in Hfull.
      destruct Hg as [Hn|Hh]; [congruence|]. unfold heap_ok in Hh. rewrite Hd in Hh.
      apply Nat.eqb_eq in Hfull. lia. }
    injection H as <- <-.
    destruct (push_boxes_room reg1 [b] Hh Hok1) as (? & ? & Hr' & He' & ?); [simpl in *; lia|].
    rewrite Hr', Hr, He'. done.
  - injection H as <- <- <-. unfold RegionNumRects, RegionSize in Hfull.
    destruct Hg as [Hn|Hh]; [by rewrite Hn in Hfull|].
    assert (is_heap reg ∧ (RegionNumRects reg + 1 <= RegionSize reg)%nat) as [Hheap Hfit].
    { unfold is_heap, RegionNumRects, RegionSize, heap_ok in *. destruct (data reg) eqn:Hd; try done.
      split; [by repeat eexists|]. apply Nat.eqb_neq in Hfull. lia. }
    destruct (push_boxes_room reg [b] Hheap Hh Hfit) as (? & ? & Hr' & He' & ?). done.
Qed.

Lemma DOWNSIZE_spec reg n m reg' m' :
  DOWNSIZE reg n m = (reg', m') -> heap_ok reg -> is_heap reg -> n = RegionNumRects reg -> (0 < n)%nat ->
  heap_ok reg' ∧ is_heap reg' ∧ RegionRects reg' = RegionRects reg ∧ extents reg' = extents reg ∧
  oom m' = oom m.
Proof.
  unfold DOWNSIZE, heap_ok, is_heap, RegionRects, RegionNumRects.
  intros H Hok (size & num & b & Hd) Hn Hpos. rewrite Hd in *.
  destruct (_ && _) eqn:Hc; [|injection H as <- <-; rewrite Hd; split_and!; try done; try lia; by repeat eexists].
  unfold alloc_rects in H. destruct (0 <? RegionSizeof n).
  - destruct (alloc (outcomes m)) as [[] o]; injection H as <- <-; simpl; rewrite ?Hd, ?length_take, ?take_take;
      split_and!; try done; try lia; try (by repeat eexists); try (by destruct (oom m)).
    f_equal. lia.
  - injection H as <- <-; simpl. rewrite Hd. split_and!; try done; try lia. by repeat eexists.
Qed.
