(* ===== verification/RegionOp.v ===== *)
(** * RegionOp: the generic band sweep of dix/region.c

    [RegionOp] walks two regions band by band, sends the parts covered by one of
    them to [RegionAppendNonO] and the common parts to an overlap procedure, and
    coalesces each new band with the previous one.  The overlap procedure is an
    interface, [OverlapProc] below, that states what the sweep needs of it;
    [RegionUnionO] is its instance. *)

From stdpp Require Import base numbers list.
From S2P Require Import Prelude Bands Region.

(** ** Coalescing *)

(** The do loop that compares two bands of [n] boxes. *)
Fixpoint coalescible (pPrevBox pCurBox : list Box) (n : nat) {struct n} : bool :=
  match n with
  | O => true
  | S n =>
      match pPrevBox, pCurBox with
      | p :: pPrevBox, c :: pCurBox =>
          if negb (x1 p =? x1 c) || negb (x2 p =? x2 c) then false
          else coalescible pPrevBox pCurBox n
      | _, _ => false
      end
  end.

Definition set_y2 (y : Z) (b : Box) : Box := mkBox (x1 b) (y1 b) (x2 b) y.

Definition RegionCoalesce (reg : Region) (prevStart curStart : nat) : Region * nat :=
  match data reg with
  | HeapData size num boxes =>
      let n := (curStart - prevStart)%nat in
      if (n =? 0)%nat then (reg, curStart) else
      match boxes !! prevStart, boxes !! curStart with
      | Some p, Some c =>
          if negb (y2 p =? y1 c) then (reg, curStart)
          else if coalescible (drop prevStart boxes) (drop curStart boxes) n then
            (set_data reg (HeapData size (num - n)
               (take prevStart boxes ++ map (set_y2 (y2 c)) (take n (drop prevStart boxes)) ++
                drop (prevStart + n) boxes)), prevStart)
          else (reg, curStart)
      | _, _ => (reg, curStart)
      end
  | _ => (reg, curStart)
  end.

(** The [Coalesce] macro: bands of different sizes are not compared. *)
Definition Coalesce (reg : Region) (prevBand curBand : nat) : Region * nat :=
  if Z.of_nat curBand - Z.of_nat prevBand =? Z.of_nat (RegionNumRects reg) - Z.of_nat curBand
  then RegionCoalesce reg prevBand curBand
  else (reg, curBand).

(** ** Appending *)

Definition RegionAppendNonO (reg : Region) (r : list Box) (y1 y2 : Z) (m : Mem)
    : bool * Region * Mem :=
  let '(ok, reg, m) := RECTALLOC reg (length r) m in
  if ok then (true, push_boxes reg (map (fun b => mkBox (x1 b) y1 (x2 b) y2) r), m)
  else (false, reg, m).

Definition AppendRegions (reg : Region) (r : list Box) (m : Mem) : bool * Region * Mem :=
  match r with
  | [] => (true, reg, m)
  | _ =>
      let '(ok, reg, m) := RECTALLOC reg (length r) m in
      if ok then (true, push_boxes reg r, m) else (false, reg, m)
  end.

(** [FindBand]: the boxes of the first band, and the rest. *)
Fixpoint take_band (ry1 : Z) (r : list Box) : list Box * list Box :=
  match r with
  | [] => ([], [])
  | b :: r' => if y1 b =? ry1 then let '(bd, rest) := take_band ry1 r' in (b :: bd, rest)
               else ([], r)
  end.

Definition FindBand (r : list Box) : list Box * list Box :=
  match r with
  | [] => ([], [])
  | b :: r' => let '(bd, rest) := take_band (y1 b) r' in (b :: bd, rest)
  end.

(** ** The sweep *)

(** [overlapFunc (pReg, r1, r1End, r2, r2End, y1, y2, pOverlap)]. *)
Abbreviation overlap_proc :=
  (Region -> list Box -> list Box -> Z -> Z -> bool -> Mem -> bool * Region * bool * Mem).

(** Runs that leave the model: a source without rectangles, a source whose only
    rectangle lies in a block about to be reused, a read of a header after the
    region it belongs to was broken, and a loop that outlives its fuel. *)
Inductive OpError :=
  | NoRects
  | SharedBlock
  | StaleHeader (m : Mem)
  | OutOfFuel.

Record OpState := mkOp {
  newReg : Region;
  prevBand : nat;
  ybot : Z;
  pOverlap : bool;
  mem : Mem
}.

Section RegionOp.
Context (overlapFunc : overlap_proc) (appendNon1 appendNon2 : bool).

(** [if (top != bot) { RegionAppendNonO(...); Coalesce(...); }]; the result of
    [RegionAppendNonO] is not looked at. *)
Definition append_band (st : OpState) (band : list Box) (top bot : Z) : OpState :=
  let curBand := RegionNumRects (newReg st) in
  let '(_, reg, m) := RegionAppendNonO (newReg st) band top bot (mem st) in
  let '(reg, prev) := Coalesce reg (prevBand st) curBand in
  mkOp reg prev (ybot st) (pOverlap st) m.

Definition nonoverlap (st : OpState) (append : bool) (band : list Box) (top bot : Z) : OpState :=
  if append && negb (top =? bot) then append_band st band top bot else st.

(** The call of the overlap procedure, whose result is not looked at either. *)
Definition overlap_band (st : OpState) (b1 b2 : list Box) (ytop ybot : Z) : OpState :=
  let curBand := RegionNumRects (newReg st) in
  let '(_, reg, ov, m) := overlapFunc (newReg st) b1 b2 ytop ybot (pOverlap st) (mem st) in
  let '(reg, prev) := Coalesce reg (prevBand st) curBand in
  mkOp reg prev ybot ov m.

Definition set_ybot (st : OpState) (y : Z) : OpState :=
  mkOp (newReg st) (prevBand st) y (pOverlap st) (mem st).

(** One round of the do loop: both [r1] and [r2] have rectangles left. *)
Definition op_step (st : OpState) (r1 r2 : list Box) : OpState * list Box * list Box :=
  let '(band1, rest1) := FindBand r1 in
  let '(band2, rest2) := FindBand r2 in
  let h1 := default RegionEmptyBox (head r1) in
  let h2 := default RegionEmptyBox (head r2) in
  let '(st, ytop) :=
    if y1 h1 <? y1 h2 then
      (nonoverlap st appendNon1 band1 (Z.max (y1 h1) (ybot st)) (Z.min (y2 h1) (y1 h2)), y1 h2)
    else if y1 h2 <? y1 h1 then
      (nonoverlap st appendNon2 band2 (Z.max (y1 h2) (ybot st)) (Z.min (y2 h2) (y1 h1)), y1 h1)
    else (st, y1 h1) in
  let yb := Z.min (y2 h1) (y2 h2) in
  let st := if ytop <? yb then overlap_band st band1 band2 ytop yb else set_ybot st yb in
  (st, if y2 h1 =? yb then rest1 else r1, if y2 h2 =? yb then rest2 else r2).

(** The do loop.  [stale] says that a source's only rectangle is stored in the
    header of the region being rebuilt: should that region break, the loop would
    read the header it just cleared. *)
Fixpoint op_loop (fuel : nat) (stale : bool) (st : OpState) (r1 r2 : list Box)
    : OpError + (OpState * list Box * list Box) :=
  match fuel with
  | O => inl OutOfFuel
  | S fuel =>
      let '(st, r1, r2) := op_step st r1 r2 in
      if stale && RegionNar (newReg st) then inl (StaleHeader (mem st)) else
      match r1, r2 with
      | [], _ | _, [] => inr (st, r1, r2)
      | _, _ => op_loop fuel stale st r1 r2
      end
  end.

(** What is left of one region goes to the result: its first band through
    [RegionAppendNonO], the other bands as they are. *)
Definition op_rest (st : OpState) (r : list Box) : bool * OpState :=
  let h := default RegionEmptyBox (head r) in
  let '(band, rest) := FindBand r in
  let st := append_band st band (Z.max (y1 h) (ybot st)) (y2 h) in
  let '(ok, reg, m) := AppendRegions (newReg st) rest (mem st) in
  (ok, mkOp reg (prevBand st) (ybot st) (pOverlap st) m).

(** The compact forms for zero and one rectangle. *)
Definition op_finish (reg : Region) (m : Mem) : Region * Mem :=
  let n := RegionNumRects reg in
  if (n =? 0)%nat then (set_data reg EmptyData, m)
  else if (n =? 1)%nat then (mkRegion (default RegionEmptyBox (head (RegionBoxptr reg))) NullData, m)
  else DOWNSIZE reg n m.

(** [newReg]'s block before the sweep: a destination that is also a source gives
    its rectangles away, any other is emptied. *)
Definition op_dest (newReg : Region) (steal : bool) : Region :=
  if steal then set_data newReg EmptyData
  else match data newReg with
       | NullData => set_data newReg EmptyData
       | HeapData size _ boxes => set_data newReg (HeapData size 0 boxes)
       | _ => newReg
       end.

(** The choice after the loop. *)
Definition op_tail (st : OpState) (r1 r2 : list Box) : bool * OpState :=
  if negb (length r1 =? 0)%nat && appendNon1 then op_rest st r1
  else if negb (length r2 =? 0)%nat && appendNon2 then op_rest st r2
  else (true, st).

(** [same1], [same2]: the destination is the first, the second source. *)
Definition RegionOp (dest reg1 reg2 : Region) (same1 same2 : bool) (ov : bool) (m : Mem)
    : OpError + (bool * Region * bool * Mem) :=
  if RegionNar reg1 || RegionNar reg2 then inr (false, RegionBreak dest, ov, m) else
  let r1 := RegionRects reg1 in
  let r2 := RegionRects reg2 in
  let n1 := RegionNumRects reg1 in
  let n2 := RegionNumRects reg2 in
  let single same reg := same && (RegionNumRects reg =? 1)%nat in
  let in_block reg := match data reg with NullData => false | _ => true end in
  if ((n1 =? 0) || (n2 =? 0))%nat then inl NoRects else
  if (single same1 reg1 && in_block reg1) || (single same2 reg2 && in_block reg2)
  then inl SharedBlock else
  let stale := single same1 reg1 || single same2 reg2 in
  let steal := (same1 && (1 <? n1)%nat) || (same2 && (1 <? n2)%nat) in
  let reg := op_dest dest steal in
  let newSize := (2 * Nat.max n1 n2)%nat in
  let '(ok, reg, m) :=
    if (RegionSize reg <? newSize)%nat then RegionRectAlloc reg newSize m else (true, reg, m) in
  if negb ok then inr (false, reg, ov, m) else
  let yb := Z.min (y1 (default RegionEmptyBox (head r1))) (y1 (default RegionEmptyBox (head r2))) in
  match op_loop (length r1 + length r2) stale (mkOp reg 0 yb ov m) r1 r2 with
  | inl e => inl e
  | inr (st, r1, r2) =>
      let '(ok, st) := op_tail st r1 r2 in
      if ok then
        let '(reg, m) := op_finish (newReg st) (mem st) in
        inr (true, reg, pOverlap st, m)
      else inr (false, newReg st, pOverlap st, mem st)
  end.

End RegionOp.

(** ** Union *)

Record UnionState := mkUnion { ux1 : Z; ux2 : Z; ureg : Region; uov : bool; umem : Mem }.

Section UnionO.
Context (y1 y2 : Z).

(** [MERGERECT(r)]; false when [NEWRECT] returned FALSE from [RegionUnionO]. *)
Definition MERGERECT (r : Box) (u : UnionState) : bool * UnionState :=
  if x1 r <=? ux2 u then
    (true, mkUnion (ux1 u) (if ux2 u <? x2 r then x2 r else ux2 u) (ureg u)
             (uov u || (x1 r <? ux2 u)) (umem u))
  else
    let '(ok, reg, m) := NEWRECT (ureg u) (mkBox (ux1 u) y1 (ux2 u) y2) (umem u) in
    if ok then (true, mkUnion (x1 r) (x2 r) reg (uov u) m)
    else (false, mkUnion (ux1 u) (ux2 u) reg (uov u) m).

(** The loops that finish one side. *)
Fixpoint merge_rest (r : list Box) (u : UnionState) : bool * UnionState :=
  match r with
  | [] => (true, u)
  | b :: r =>
      let '(ok, u) := MERGERECT b u in
      if ok then merge_rest r u else (false, u)
  end.

(** The loop over both sides, which takes the left-most box each time; it falls
    through to the loop that finishes the other side. *)
Fixpoint merge_both (r1 : list Box) : list Box -> UnionState -> bool * UnionState :=
  match r1 with
  | [] => merge_rest
  | a :: r1' =>
      fix go (r2 : list Box) (u : UnionState) :=
        match r2 with
        | [] => merge_rest (a :: r1') u
        | b :: r2' =>
            if x1 a <? x1 b then
              let '(ok, u) := MERGERECT a u in
              if ok then merge_both r1' (b :: r2') u else (false, u)
            else
              let '(ok, u) := MERGERECT b u in
              if ok then go r2' u else (false, u)
        end
  end.
End UnionO.

Definition RegionUnionO : overlap_proc := fun reg r1 r2 y1 y2 ov m =>
  match r1, r2 with
  | a :: r1', b :: r2' =>
      let '(ok, u) :=
        if x1 a <? x1 b then merge_both y1 y2 r1' r2 (mkUnion (x1 a) (x2 a) reg ov m)
        else merge_both y1 y2 r1 r2' (mkUnion (x1 b) (x2 b) reg ov m) in
      if ok then
        let '(ok, reg, m) := NEWRECT (ureg u) (mkBox (ux1 u) y1 (ux2 u) y2) (umem u) in
        (ok, reg, uov u, m)
      else (false, ureg u, uov u, umem u)
  | _, _ => (true, reg, ov, m)
  end.

(** ** RegionSetExtents *)

Definition RegionSetExtents (reg : Region) : Region :=
  match data reg with
  | NullData => reg
  | HeapData (S _) num boxes =>
      let first := default RegionEmptyBox (head boxes) in
      let last := RegionEnd reg in
      set_extents reg
        (foldl (fun e b => mkBox (Z.min (x1 e) (x1 b)) (y1 e) (Z.max (x2 e) (x2 b)) (y2 e))
               (mkBox (x1 first) (y1 first) (x2 last) (y2 last)) (take num boxes))
  | _ => set_extents reg (mkBox (x1 (extents reg)) (y1 (extents reg)) (x1 (extents reg)) (y1 (extents reg)))
  end.

(** ** Lemmas: blocks, bands and coalescing *)

(** A region whose rectangles live in a well formed block. *)
Definition blk (reg : Region) : Prop := is_heap reg ∧ heap_ok reg.

Lemma blk_growable reg : blk reg -> growable reg.
Proof. intros [_ ?]. by right. Qed.

Lemma blk_num reg : blk reg -> RegionNumRects reg = length (RegionRects reg).
Proof.
  intros [(size & num & b & Hd) Hok]. unfold heap_ok, RegionNumRects, RegionRects in *.
  rewrite Hd in *. rewrite length_take. lia.
Qed.

Lemma blk_inv reg :
  blk reg -> exists size junk, data reg = HeapData size (length (RegionRects reg)) (RegionRects reg ++ junk) ∧
    (length (RegionRects reg ++ junk) <= size)%nat ∧ (0 < size)%nat.
Proof.
  intros Hb. pose proof (blk_num _ Hb) as Hn. destruct Hb as [(size & num & b & Hd) Hok].
  unfold heap_ok, RegionNumRects, RegionRects in *. rewrite Hd in *.
  exists size, (drop num b). rewrite <- Hn, take_drop. tauto.
Qed.

Lemma blk_intro e size l junk :
  (length (l ++ junk) <= size)%nat -> (0 < size)%nat ->
  let reg := mkRegion e (HeapData size (length l) (l ++ junk)) in
  blk reg ∧ RegionRects reg = l.
Proof.
  rewrite length_app. intros. unfold blk, is_heap, heap_ok, RegionRects; simpl.
  rewrite length_app, take_app_length. split_and!; try lia; try done. by repeat eexists.
Qed.

Lemma blk_not_broken reg : blk reg -> RegionNar reg = false.
Proof. intros [(size & num & b & Hd) _]. unfold RegionNar. by rewrite Hd. Qed.

Lemma coalescible_spec t1 b1 s1 t2 b2 s2 l1 l2 :
  length s1 = length s2 ->
  coalescible (bboxes t1 b1 s1 ++ l1) (bboxes t2 b2 s2 ++ l2) (length s1) = true <-> s1 = s2.
Proof.
  revert s2; induction s1 as [|[a b] s1 IH]; intros [|[c d] s2] Hl; simpl in *; try done.
  apply eq_add_S in Hl. destruct (Z.eqb_spec a c), (Z.eqb_spec b d); simpl; subst; try (split; congruence).
  rewrite IH by done. split; congruence.
Qed.

Lemma take_band_flat c t b s bs :
  bands_from c b s bs -> t < b ->
  forall s', take_band t (bboxes t b s' ++ flat bs) = (bboxes t b s', flat bs).
Proof.
  intros Hbs Htb s'. induction s' as [|[x x'] s' IH]; simpl.
  - destruct bs as [|[[t' b'] [|[z z'] s'']] bs]; simpl in *; [done|tauto|].
    destruct (Z.eqb_spec t' t); [lia|done].
  - by rewrite Z.eqb_refl, IH.
Qed.

Lemma FindBand_flat c lo ps t b s bs :
  bands_from c lo ps ((t, b, s) :: bs) ->
  FindBand (flat ((t, b, s) :: bs)) = (bboxes t b s, flat bs).
Proof.
  intros (_ & Htb & Hs & _ & _ & Hbs). destruct s as [|[x x'] s]; [done|].
  simpl. by rewrite (take_band_flat c t b ((x, x') :: s)).
Qed.

(** Where the previous band starts: at the last band, or, when that band is out of
    reach because of a gap, at the end. *)
Definition prev_ok (obs : list band) (prev : nat) (t : Z) : Prop :=
  (exists obs0 t0 b0 s0, obs = obs0 ++ [(t0, b0, s0)] ∧ prev = length (flat obs0)) ∨
  (prev = length (flat obs) ∧ (obs = [] ∨ lbot 0 obs < t)).

Lemma prev_ok_mono obs prev t t' : prev_ok obs prev t -> t <= t' -> prev_ok obs prev t'.
Proof. intros [?|[? [?|?]]] ?; [by left|right; split; [done|]..]; [by left|right; lia]. Qed.

Lemma lbot_nonempty lo lo' obs : obs ≠ [] -> lbot lo obs = lbot lo' obs.
Proof.
  intros H. unfold lbot. destruct (last obs) as [[[??]?]|] eqn:E; [done|].
  by apply last_None in E.
Qed.

(** One more band on a coalesced list of bands, as [Coalesce] leaves it. *)
Definition add_band_post (lo : Z) (obs : list band) (t b : Z) (s : list span)
    (reg reg' : Region) (prev' : nat) : Prop :=
  blk reg' ∧ extents reg' = extents reg ∧
  exists obs', RegionRects reg' = flat obs' ∧ bands_from true lo [] obs' ∧
    (forall x y, in_bands x y obs' <-> in_bands x y obs ∨ (t <= y < b ∧ in_spans x s)) ∧
    obs' ≠ [] ∧ lbot lo obs' = b ∧ lspans [] obs' = s ∧ prev_ok obs' prev' b.

Lemma keep_band lo obs t b s reg prev' :
  blk reg -> RegionRects reg = flat (obs ++ [(t, b, s)]) -> bands_from true lo [] (obs ++ [(t, b, s)]) ->
  prev' = length (flat obs) -> add_band_post lo obs t b s reg reg prev'.
Proof.
  intros Hb Hr Hok ->. split; [done|]. split; [done|]. exists (obs ++ [(t, b, s)]).
  rewrite lbot_snoc, lspans_snoc. split_and!; try done.
  - intros x y. rewrite in_bands_app. simpl. tauto.
  - by destruct obs.
  - left. by repeat eexists.
Qed.

Lemma join_band lo obs0 t0 b0 s t b reg reg' :
  blk reg' -> extents reg' = extents reg -> RegionRects reg' = flat (obs0 ++ [(t0, b, s)]) ->
  bands_from true lo [] (obs0 ++ [(t0, b0, s)]) -> b0 = t -> t < b ->
  add_band_post lo (obs0 ++ [(t0, b0, s)]) t b s reg reg' (length (flat obs0)).
Proof.
  intros Hb He Hr Hok -> Htb. split; [done|]. split; [done|]. exists (obs0 ++ [(t0, b, s)]).
  rewrite lbot_snoc, lspans_snoc. apply bands_from_app in Hok as [Hok Hl]. simpl in Hl.
  split_and!; try done.
  - apply bands_from_app. split; [done|]. destruct Hl as (? & ? & ? & ? & ? & ?).
    simpl. split_and!; try done. lia.
  - intros x y. rewrite !in_bands_app. simpl. destruct Hl as (? & ? & _).
    assert (t0 <= y < b <-> t0 <= y < t ∨ t <= y < b) as -> by lia. tauto.
  - by destruct obs0.
  - left. by repeat eexists.
Qed.

Lemma map_set_y2_bboxes t b b' s : map (set_y2 b') (bboxes t b s) = bboxes t b' s.
Proof. unfold bboxes. rewrite map_map. done. Qed.

(** [RegionCoalesce] on two bands of the same size at the end of the list. *)
Lemma RegionCoalesce_spec reg l0 t0 b0 s0 t b s :
  blk reg -> RegionRects reg = l0 ++ bboxes t0 b0 s0 ++ bboxes t b s ->
  length s0 = length s -> s ≠ [] ->
  let '(reg', prev') := RegionCoalesce reg (length l0) (length l0 + length s) in
  (reg' = reg ∧ prev' = (length l0 + length s)%nat ∧ (b0 ≠ t ∨ s0 ≠ s)) ∨
  (b0 = t ∧ s0 = s ∧ prev' = length l0 ∧ blk reg' ∧ extents reg' = extents reg ∧
   RegionRects reg' = l0 ++ bboxes t0 b s).
Proof.
  intros Hb Hr Hlen Hs. destruct (blk_inv _ Hb) as (size & junk & Hd & Hfit & Hsz).
  rewrite Hr in Hd, Hfit. unfold RegionCoalesce. rewrite Hd.
  rewrite <- !app_assoc in Hd, Hfit |- *.
  destruct (Nat.eqb_spec (length l0 + length s - length l0) 0) as [Hz|_].
  { destruct s; [done|simpl in Hz; lia]. }
  replace (length l0 + length s - length l0)%nat with (length s) by lia.
  rewrite drop_app_length.
  assert (Hdrop : drop (length l0 + length s) (l0 ++ bboxes t0 b0 s0 ++ bboxes t b s ++ junk)
                  = bboxes t b s ++ junk).
  { rewrite app_assoc. rewrite drop_app_length'; [done|]. by rewrite length_app, length_bboxes, Hlen. }
  rewrite Hdrop.
  rewrite !(lookup_app_r l0), Nat.sub_diag by lia.
  replace (length l0 + length s - length l0)%nat with (length s) by lia.
  assert (exists p, (bboxes t0 b0 s0 ++ bboxes t b s ++ junk) !! 0%nat = Some p ∧ y2 p = b0)
    as (p & -> & Hp) by (destruct s0; [by destruct s|]; by eexists).
  assert (exists c, (bboxes t0 b0 s0 ++ bboxes t b s ++ junk) !! length s = Some c ∧ y1 c = t ∧ y2 c = b)
    as (c & -> & Hc1 & Hc2).
  { rewrite lookup_app_r, length_bboxes, Hlen, Nat.sub_diag by (rewrite length_bboxes; lia).
    destruct s; [done|]; by eexists. }
  rewrite Hp, Hc1, Hc2. destruct (Z.eqb_spec b0 t) as [->|Hne]; simpl; [|by left; auto].
  rewrite take_app_length, take_app_length' by (by rewrite length_bboxes).
  assert (Hco := coalescible_spec t0 t s0 t b s (bboxes t b s ++ junk) junk Hlen).
  rewrite Hlen in Hco. destruct (coalescible _ _ _).
  - right. rewrite (proj1 Hco eq_refl). rewrite map_set_y2_bboxes. unfold set_data.
    replace (length (l0 ++ bboxes t0 t s ++ bboxes t b s) - length s)%nat
      with (length (l0 ++ bboxes t0 b s)) by (rewrite !length_app, !length_bboxes; lia).
    rewrite (app_assoc l0).
    destruct (blk_intro (extents reg) size (l0 ++ bboxes t0 b s) (bboxes t b s ++ junk)); [|done|done].
    rewrite !length_app, !length_bboxes in *. lia.
  - left. split_and!; try done. right. intros ->. by discriminate (proj2 Hco eq_refl).
Qed.

Lemma Coalesce_spec lo obs prev t b s reg reg' prev' :
  blk reg -> RegionRects reg = flat obs ++ bboxes t b s -> bands_from true lo [] obs ->
  lbot lo obs <= t -> t < b -> s ≠ [] -> spans_ok s -> prev_ok obs prev t ->
  Coalesce reg prev (length (flat obs)) = (reg', prev') ->
  add_band_post lo obs t b s reg reg' prev'.
Proof.
  intros Hb Hr Hobs Hlt Htb Hs Hsok Hprev H.
  assert (Hkeep : (lbot lo obs = t -> lspans [] obs ≠ s) ->
    add_band_post lo obs t b s reg reg (length (flat obs))).
  { intros Hne. apply keep_band; try done.
    - rewrite Hr, flat_app. simpl. by rewrite app_nil_r.
    - apply bands_from_app. split; [done|]. simpl. split_and!; try done. }
  unfold Coalesce in H. rewrite (blk_num _ Hb), Hr, length_app, length_bboxes in H.
  assert (0 < length s)%nat by (destruct s; simpl; [done|lia]).
  destruct Hprev as [(obs0 & t0 & b0 & s0 & -> & ->)|[-> Hgap]].
  - rewrite lbot_snoc, lspans_snoc in *.
    assert (Hr' : RegionRects reg = flat obs0 ++ bboxes t0 b0 s0 ++ bboxes t b s).
    { rewrite Hr, flat_app. simpl. by rewrite app_nil_r, app_assoc. }
    rewrite flat_app, length_app in *. simpl in *. rewrite app_nil_r, length_bboxes in *.
    destruct (Z.eqb_spec (Z.of_nat (length (flat obs0) + length s0) - Z.of_nat (length (flat obs0)))
      (Z.of_nat (length (flat obs0) + length s0 + length s) - Z.of_nat (length (flat obs0) + length s0)))
      as [Heq|Hneq].
    + assert (Hlen : length s0 = length s) by lia.
      pose proof (RegionCoalesce_spec reg (flat obs0) t0 b0 s0 t b s Hb Hr' Hlen Hs) as Hc.
      rewrite <- Hlen, H in Hc.
      destruct Hc as [(-> & -> & Hne)|(-> & -> & -> & Hb' & He & Hr'')].
      * apply Hkeep. intros ->. by destruct Hne.
      * apply join_band; try done. rewrite Hr'', flat_app. simpl. by rewrite app_nil_r.
    + injection H as <- <-. apply Hkeep. intros _ ->. lia.
  - destruct (Z.eqb_spec (Z.of_nat (length (flat obs)) - Z.of_nat (length (flat obs)))
      (Z.of_nat (length (flat obs) + length s) - Z.of_nat (length (flat obs)))); [lia|].
    injection H as <- <-. apply Hkeep. destruct Hgap as [->|Hgap].
    + intros _. unfold lspans; simpl. done.
    + intros Heq. destruct (decide (obs = [])) as [->|Hn]; [unfold lspans; simpl; done|].
      rewrite (lbot_nonempty lo 0) in Heq by done. lia.
Qed.

(** ** RegionUnionO *)

(** The state of the merge after consuming the spans [c]: [base] and the finished
    spans are in the region, the current one is open. *)
Definition merge_inv (y1 y2 : Z) (base : list Box) (e0 : Box) (ov0 : bool) (c : list span)
    (u : UnionState) : Prop :=
  blk (ureg u) ∧ extents (ureg u) = e0 ∧
  exists E lo, RegionRects (ureg u) = base ++ bboxes y1 y2 E ∧
    spans_from lo (E ++ [(ux1 u, ux2 u)]) ∧
    (forall x, in_spans x (E ++ [(ux1 u, ux2 u)]) <-> in_spans x c) ∧
    (uov u = true <-> ov0 = true ∨ exists x, (2 <= scover c x)%nat).

Definition starts_after (u : UnionState) (s : list span) : Prop :=
  match s with [] => True | (a, _) :: _ => ux1 u <= a end.

Section MergeProof.
Context (y1 y2 : Z) (base : list Box) (e0 : Box) (ov0 : bool).
Abbreviation inv := (merge_inv y1 y2 base e0 ov0).

Lemma merge_inv_perm c c' u : c ≡ₚ c' -> inv c u -> inv c' u.
Proof.
  intros Hp (Hb & He & E & lo & H1 & H2 & H3 & H4). split; [done|]. split; [done|].
  exists E, lo. split_and!; try done.
  - intros x. rewrite H3. by apply in_spans_perm.
  - rewrite H4. assert (forall x, scover c x = scover c' x) by (intros; by apply scover_perm).
    by setoid_rewrite H.
Qed.

(** The current span decides whether the next box overlaps what was consumed. *)
Lemma overlap_iff E lo c p q a a' :
  spans_from lo (E ++ [(p, q)]) -> (forall x, in_spans x (E ++ [(p, q)]) <-> in_spans x c) ->
  p <= a -> a < a' ->
  ((exists x, (2 <= scover (c ++ [(a, a')]) x)%nat) <-> a < q ∨ exists x, (2 <= scover c x)%nat).
Proof.
  intros Hs Hc Hpa Haa. apply spans_from_snoc in Hs as (HE & Hep & Hpq). split.
  - intros [x Hx]. rewrite scover_app, scover_one in Hx. case_decide as Hin; [|right; exists x; lia].
    destruct (decide (a < q)); [by left|]. right. exists x.
    assert (~ in_spans x c) as Hn; [|rewrite in_spans_scover in Hn; lia].
    rewrite <- Hc, in_spans_app, in_spans_cons, in_spans_nil. intros [H|[H|[]]]; [|lia].
    apply (spans_from_upper _ _ _ HE) in H. lia.
  - intros [Hlt|[x Hx]]; [|exists x; rewrite scover_app; lia].
    exists a. rewrite scover_app, scover_one. case_decide; [|lia].
    assert (in_spans a c) as Ha; [|rewrite in_spans_scover in Ha; lia].
    rewrite <- Hc, in_spans_app, in_spans_cons. right; left; lia.
Qed.

Lemma MERGERECT_spec t b a a' c u ok u' :
  MERGERECT y1 y2 (mkBox a t a' b) u = (ok, u') -> oom (umem u') = false ->
  inv c u -> ux1 u <= a -> a < a' ->
  ok = true ∧ oom (umem u) = false ∧ inv (c ++ [(a, a')]) u' ∧ ux1 u' <= a.
Proof.
  intros H Hm (Hb & He & E & lo & Hr & Hs & Hc & Hov) Hxa Haa.
  pose proof (overlap_iff _ _ _ _ _ _ _ Hs Hc Hxa Haa) as Hiff.
  apply spans_from_snoc in Hs as (HE & Hep & Hpq).
  unfold MERGERECT in H; simpl in H. destruct (Z.leb_spec a (ux2 u)) as [Hle|Hgt].
  - injection H as <- <-; simpl in *. split_and!; try done.
    split; [done|]. split; [done|]. exists E, lo; simpl. split_and!; [done| | |].
    + apply spans_from_snoc. split_and!; [done|done|]. destruct (Z.ltb_spec (ux2 u) a'); lia.
    + intros x. rewrite (in_spans_app x c), <- Hc, !in_spans_app, !in_spans_cons, !in_spans_nil.
      destruct (Z.ltb_spec (ux2 u) a'); split; intuition lia.
    + rewrite orb_true_iff, Z.ltb_lt, Hov, Hiff. tauto.
  - destruct (NEWRECT _ _ _) as [[ok1 reg1] m1] eqn:Hn.
    assert (oom m1 = false) as Hm1 by (destruct ok1; injection H as <- <-; done).
    destruct (NEWRECT_spec _ _ _ _ _ _ Hn Hm1 (blk_growable _ Hb)) as (-> & ? & ? & ? & Hr1 & He1).
    injection H as <- <-; simpl in *. split_and!; try done; try lia.
    split; [done|]. split; [simpl; congruence|]. exists (E ++ [(ux1 u, ux2 u)]), lo; simpl.
    split_and!.
    + rewrite Hr1, Hr. unfold bboxes. by rewrite map_app, app_assoc.
    + apply spans_from_snoc. split_and!; [by apply spans_from_snoc| |done].
      unfold send. by rewrite last_snoc.
    + intros x. rewrite !(in_spans_app _ _ [(a, a')]). by rewrite Hc.
    + rewrite Hov, Hiff. assert (¬ a < ux2 u) by lia. tauto.
Qed.

Lemma MERGERECT_quiet r u : quiet (umem u) (umem (snd (MERGERECT y1 y2 r u))).
Proof.
  unfold MERGERECT. destruct (x1 r <=? ux2 u); [done|].
  pose proof (NEWRECT_quiet (ureg u) (mkBox (ux1 u) y1 (ux2 u) y2) (umem u)).
  by destruct (NEWRECT _ _ _) as [[[] ?] ?].
Qed.

Lemma merge_rest_quiet r u : quiet (umem u) (umem (snd (merge_rest y1 y2 r u))).
Proof.
  revert u; induction r as [|b r IH]; intros u; simpl; [done|].
  pose proof (MERGERECT_quiet b u) as Hq. destruct (MERGERECT _ _ b u) as [[] u1]; [|done].
  etrans; [apply Hq|apply IH].
Qed.

Lemma merge_both_quiet r1 r2 u : quiet (umem u) (umem (snd (merge_both y1 y2 r1 r2 u))).
Proof.
  revert r2 u; induction r1 as [|a r1 IH1]; [apply merge_rest_quiet|].
  intros r2; induction r2 as [|b r2 IH2]; intros u; [apply merge_rest_quiet|].
  simpl. destruct (x1 a <? x1 b).
  - pose proof (MERGERECT_quiet a u) as Hq. destruct (MERGERECT _ _ a u) as [[] u1]; [|done].
    etrans; [apply Hq|apply IH1].
  - pose proof (MERGERECT_quiet b u) as Hq. destruct (MERGERECT _ _ b u) as [[] u1]; [|done].
    etrans; [apply Hq|apply IH2].
Qed.

(** Merging a side that is left. *)
Lemma merge_rest_spec t b s c u ok u' :
  merge_rest y1 y2 (bboxes t b s) u = (ok, u') -> oom (umem u') = false ->
  inv c u -> spans_ok s -> starts_after u s ->
  ok = true ∧ inv (c ++ s) u'.
Proof.
  revert c u; induction s as [|[a a'] s IH]; intros c u; simpl.
  { intros [= <- <-]. rewrite app_nil_r. done. }
  intros H Hm Hi (Haa & Hs & Hok)%spans_ok_cons Hst.
  destruct (MERGERECT _ _ _ _) as [ok1 u1] eqn:Hmr.
  assert (Hm1 : oom (umem u1) = false).
  { destruct ok1; [|by injection H as <- <-]. apply (merge_rest_quiet (bboxes t b s) u1).
    by rewrite H. }
  destruct (MERGERECT_spec _ _ _ _ _ _ _ _ Hmr Hm1 Hi Hst Haa) as (-> & _ & Hi1 & Hx1).
  destruct (IH _ _ H Hm Hi1 Hok) as [-> Hi2].
  - destruct s as [|[p q] s]; simpl in *; [done|lia].
  - split; [done|]. by rewrite <- app_assoc in Hi2.
Qed.

Lemma merge_both_spec t1 b1 s1 t2 b2 s2 c u ok u' :
  merge_both y1 y2 (bboxes t1 b1 s1) (bboxes t2 b2 s2) u = (ok, u') -> oom (umem u') = false ->
  inv c u -> spans_ok s1 -> spans_ok s2 -> starts_after u s1 -> starts_after u s2 ->
  ok = true ∧ inv (c ++ s1 ++ s2) u'.
Proof.
  revert s2 c u; induction s1 as [|[a a'] s1 IH1].
  { intros s2 c u H Hm Hi _ ? _ ?. by eapply merge_rest_spec. }
  intros s2; induction s2 as [|[d d'] s2 IH2]; intros c u H Hm Hi Hs1 Hs2 Hst1 Hst2.
  { rewrite app_nil_r. eapply merge_rest_spec; try done; exact H. }
  destruct (spans_ok_cons _ _ _ Hs1) as (Haa & Hf1 & Hok1).
  destruct (spans_ok_cons _ _ _ Hs2) as (Hdd & Hf2 & Hok2).
  change (merge_both y1 y2 (bboxes t1 b1 ((a, a') :: s1)) (bboxes t2 b2 ((d, d') :: s2)) u) with
    (if a <? d
     then let '(ok, u) := MERGERECT y1 y2 (mkBox a t1 a' b1) u in
          if ok then merge_both y1 y2 (bboxes t1 b1 s1) (bboxes t2 b2 ((d, d') :: s2)) u else (false, u)
     else let '(ok, u) := MERGERECT y1 y2 (mkBox d t2 d' b2) u in
          if ok then merge_both y1 y2 (bboxes t1 b1 ((a, a') :: s1)) (bboxes t2 b2 s2) u else (false, u))
    in H.
  destruct (Z.ltb_spec a d) as [Hlt|Hge].
  - destruct (MERGERECT _ _ _ _) as [ok1 u1] eqn:Hmr.
    assert (Hm1 : oom (umem u1) = false).
    { destruct ok1; [|by injection H as <- <-]. eapply (merge_both_quiet _ _ u1). by rewrite H. }
    destruct (MERGERECT_spec _ _ _ _ _ _ _ _ Hmr Hm1 Hi Hst1 Haa) as (-> & _ & Hi1 & Hx1).
    destruct (IH1 _ _ _ H Hm Hi1 Hok1 Hs2) as [-> Hi2].
    + destruct s1 as [|[p q] s1]; simpl in *; [done|lia].
    + simpl. lia.
    + split; [done|]. by rewrite <- app_assoc in Hi2.
  - destruct (MERGERECT _ _ _ _) as [ok1 u1] eqn:Hmr.
    assert (Hm1 : oom (umem u1) = false).
    { destruct ok1; [|by injection H as <- <-]. eapply (merge_both_quiet _ _ u1). by rewrite H. }
    destruct (MERGERECT_spec _ _ _ _ _ _ _ _ Hmr Hm1 Hi Hst2 Hdd) as (-> & _ & Hi1 & Hx1).
    destruct (IH2 _ _ H Hm Hi1 Hs1 Hok2) as [-> Hi2].
    + simpl. lia.
    + destruct s2 as [|[p q] s2]; simpl in *; [done|lia].
    + split; [done|]. eapply merge_inv_perm; [|exact Hi2].
      rewrite <- app_assoc. apply Permutation_app_head.
      change ((d, d') :: s2) with ([(d, d')] ++ s2). rewrite !app_assoc.
      apply Permutation_app_tail, Permutation_app_comm.
Qed.
End MergeProof.

(** ** The interface of overlap procedures *)

(** The points a region operation keeps: [a1], [a2] those of one source only,
    [a12] those of both. *)
Definition region_sem (a1 a2 a12 : bool) (P Q : Prop) : Prop :=
  (a1 = true ∧ P ∧ ¬ Q) ∨ (a2 = true ∧ ¬ P ∧ Q) ∨ (a12 = true ∧ P ∧ Q).

#[export] Instance region_sem_proper a1 a2 a12 : Proper (iff ==> iff ==> iff) (region_sem a1 a2 a12).
Proof. intros P P' HP Q Q' HQ. unfold region_sem. tauto. Qed.

(** What [RegionOp] expects of the procedure it is given for two bands: it adds one
    band (possibly without boxes) with the points of the operation, and reports an
    overlap when [report] says so. *)
Class OverlapProc (f : overlap_proc) (a1 a2 a12 report : bool) : Prop := {
  overlap_quiet reg r1 r2 y1 y2 ov m : quiet m (snd (f reg r1 r2 y1 y2 ov m));
  overlap_spec reg t1 b1 s1 t2 b2 s2 y1 y2 ov m ok reg' ov' m' :
    f reg (bboxes t1 b1 s1) (bboxes t2 b2 s2) y1 y2 ov m = (ok, reg', ov', m') ->
    oom m' = false -> blk reg -> s1 ≠ [] -> s2 ≠ [] -> spans_ok s1 -> spans_ok s2 ->
    ok = true ∧ blk reg' ∧ extents reg' = extents reg ∧
    (exists s, RegionRects reg' = RegionRects reg ++ bboxes y1 y2 s ∧ spans_ok s ∧
       (forall x, in_spans x s <-> region_sem a1 a2 a12 (in_spans x s1) (in_spans x s2))) ∧
    (ov' = true <-> ov = true ∨ (report = true ∧ exists x, in_spans x s1 ∧ in_spans x s2))
}.

Lemma union_quiet reg r1 r2 y1 y2 ov m : quiet m (snd (RegionUnionO reg r1 r2 y1 y2 ov m)).
Proof.
  unfold RegionUnionO. destruct r1 as [|a r1], r2 as [|b r2]; try done.
  set (q := if x1 a <? x1 b then _ else _).
  assert (Hq : quiet m (umem (snd q)))
    by (subst q; destruct (x1 a <? x1 b); apply (merge_both_quiet _ _ _ _ (mkUnion _ _ _ _ _))).
  destruct q as [[] u]; [|done]. etrans; [apply Hq|]. simpl.
  pose proof (NEWRECT_quiet (ureg u) (mkBox (ux1 u) y1 (ux2 u) y2) (umem u)) as Hn.
  by destruct (NEWRECT _ _ _) as [[? ?] ?].
Qed.

(** The first box opens the current span. *)
Lemma merge_inv_start y1 y2 a a' reg ov m :
  blk reg -> a < a' ->
  merge_inv y1 y2 (RegionRects reg) (extents reg) ov [(a, a')] (mkUnion a a' reg ov m).
Proof.
  intros Hb Ha. split; [done|]. split; [done|]. exists [], (a - 1); simpl.
  split_and!; try done; try lia.
  - by rewrite app_nil_r.
  - split; [by left|]. intros [?|[x Hx]]; [done|].
    assert (Hone : (scover [(a, a')] x <= 1)%nat); [|lia].
    apply (scover_spans_from (a - 1)). simpl. lia.
Qed.

Lemma union_overlap_iff s1 s2 :
  spans_ok s1 -> spans_ok s2 ->
  (exists x, (2 <= scover (s1 ++ s2) x)%nat) <-> exists x, in_spans x s1 ∧ in_spans x s2.
Proof.
  intros [l1 H1] [l2 H2]. apply exist_proper. intros x.
  rewrite scover_app, !in_spans_scover.
  pose proof (scover_spans_from _ _ x H1). pose proof (scover_spans_from _ _ x H2). lia.
Qed.

(** Closing the last span of the union. *)
Lemma union_finish y1 y2 s1 s2 c reg ov u ok reg' m' :
  merge_inv y1 y2 (RegionRects reg) (extents reg) ov c u -> c ≡ₚ s1 ++ s2 ->
  spans_ok s1 -> spans_ok s2 ->
  NEWRECT (ureg u) (mkBox (ux1 u) y1 (ux2 u) y2) (umem u) = (ok, reg', m') -> oom m' = false ->
  ok = true ∧ blk reg' ∧ extents reg' = extents reg ∧
  (exists s, RegionRects reg' = RegionRects reg ++ bboxes y1 y2 s ∧ spans_ok s ∧
     (forall x, in_spans x s <-> region_sem true true true (in_spans x s1) (in_spans x s2))) ∧
  (uov u = true <-> ov = true ∨ (true = true ∧ exists x, in_spans x s1 ∧ in_spans x s2)).
Proof.
  intros Hi Hp Hs1 Hs2 Hn Hm.
  destruct (merge_inv_perm _ _ _ _ _ _ _ _ Hp Hi) as (Hb & He & E & lo & Hr & Hs & Hc & Hov).
  destruct (NEWRECT_spec _ _ _ _ _ _ Hn Hm (blk_growable _ Hb)) as (-> & _ & ? & ? & Hr' & He').
  split_and!; try done; [congruence| |].
  - exists (E ++ [(ux1 u, ux2 u)]). split_and!; [|by exists lo|].
    + rewrite Hr', Hr. unfold bboxes. by rewrite map_app, app_assoc.
    + intros x. rewrite Hc, in_spans_app. unfold region_sem.
      assert (Decision (in_spans x s1)) as [] by (apply _); assert (Decision (in_spans x s2)) as [] by (apply _);
        tauto.
  - rewrite Hov, union_overlap_iff by done. tauto.
Qed.

Lemma union_close y1 y2 s1 s2 c reg ov okm u ok reg' ov' m' :
  (if (okm : bool)
   then let '(ok, reg, m) := NEWRECT (ureg u) (mkBox (ux1 u) y1 (ux2 u) y2) (umem u) in (ok, reg, uov u, m)
   else (false, ureg u, uov u, umem u)) = (ok, reg', ov', m') ->
  oom m' = false -> spans_ok s1 -> spans_ok s2 ->
  (oom (umem u) = false -> okm = true ∧ merge_inv y1 y2 (RegionRects reg) (extents reg) ov c u) ->
  c ≡ₚ s1 ++ s2 ->
  ok = true ∧ blk reg' ∧ extents reg' = extents reg ∧
  (exists s, RegionRects reg' = RegionRects reg ++ bboxes y1 y2 s ∧ spans_ok s ∧
     (forall x, in_spans x s <-> region_sem true true true (in_spans x s1) (in_spans x s2))) ∧
  (ov' = true <-> ov = true ∨ (true = true ∧ exists x, in_spans x s1 ∧ in_spans x s2)).
Proof.
  intros Hif Hm Hs1 Hs2 Hmid Hp. destruct okm.
  - pose proof (NEWRECT_quiet (ureg u) (mkBox (ux1 u) y1 (ux2 u) y2) (umem u)) as Hq.
    destruct (NEWRECT _ _ _) as [[ok1 reg1] m1] eqn:Hn. injection Hif as <- <- <- <-.
    destruct (Hmid (Hq Hm)) as [_ Hi]. by eapply union_finish.
  - injection Hif as <- <- <- <-. by destruct Hmid.
Qed.

#[export] Instance RegionUnionO_overlap : OverlapProc RegionUnionO true true true true.
Proof.
  split; [intros; apply union_quiet|].
  intros reg t1 b1 [|[a a'] s1] t2 b2 [|[d d'] s2] y1 y2 ov m ok reg' ov' m' H Hm Hb Hn1 Hn2 Hs1 Hs2; try done.
  destruct (spans_ok_cons _ _ _ Hs1) as (Haa & Hf1 & Hok1).
  destruct (spans_ok_cons _ _ _ Hs2) as (Hdd & Hf2 & Hok2).
  change (RegionUnionO reg (bboxes t1 b1 ((a, a') :: s1)) (bboxes t2 b2 ((d, d') :: s2)) y1 y2 ov m) with
    (let '(ok, u) :=
       if a <? d
       then merge_both y1 y2 (bboxes t1 b1 s1) (bboxes t2 b2 ((d, d') :: s2)) (mkUnion a a' reg ov m)
       else merge_both y1 y2 (bboxes t1 b1 ((a, a') :: s1)) (bboxes t2 b2 s2) (mkUnion d d' reg ov m) in
     if ok then
       let '(ok, reg, m) := NEWRECT (ureg u) (mkBox (ux1 u) y1 (ux2 u) y2) (umem u) in (ok, reg, uov u, m)
     else (false, ureg u, uov u, umem u)) in H.
  destruct (Z.ltb_spec a d) as [Hlt|Hge].
  - destruct (merge_both _ _ _ _ _) as [okm u] eqn:Hmb.
    eapply (union_close _ _ _ _ ([(a, a')] ++ s1 ++ ((d, d') :: s2))); [exact H|done..| |done].
    intros Hu. eapply (merge_both_spec _ _ _ _ _ _ _ s1 t2 b2 ((d, d') :: s2)); [exact Hmb|done| |done|done| |];
      [by apply merge_inv_start| |simpl; lia].
    destruct s1 as [|[p q] s1]; simpl in *; [done|lia].
  - destruct (merge_both _ _ _ _ _) as [okm u] eqn:Hmb.
    eapply (union_close _ _ _ _ ([(d, d')] ++ ((a, a') :: s1) ++ s2)); [exact H|done..| |].
    + intros Hu. eapply (merge_both_spec _ _ _ _ _ t1 b1 ((a, a') :: s1) t2 b2 s2);
        [exact Hmb|done| |done|done| |]; [by apply merge_inv_start|simpl; lia|].
      destruct s2 as [|[p q] s2]; simpl in *; [done|lia].
    + change ((d, d') :: s2) with ([(d, d')] ++ s2). rewrite !app_assoc.
      apply Permutation_app_tail, Permutation_app_comm.
Qed.
