(* ===== verification/RegionSweep.v ===== *)
(** * RegionSweep: correctness of RegionOp

    The loop invariant of the band sweep, for any overlap procedure that meets the
    interface of RegionOp.v, and the theorems on [RegionOp]: it computes the set
    operation, keeps the result coalesced, terminates within its fuel, and what
    it does when memory runs out. *)

From stdpp Require Import base numbers list.
From S2P Require Import Prelude Bands Region RegionOp.

(** ** The sweep *)

Lemma AppendNonO_quiet reg r y1 y2 m : quiet m (snd (RegionAppendNonO reg r y1 y2 m)).
Proof.
  unfold RegionAppendNonO. pose proof (RECTALLOC_quiet reg (length r) m).
  by destruct (RECTALLOC _ _ _) as [[[] ?] ?].
Qed.

Lemma AppendRegions_quiet reg r m : quiet m (snd (AppendRegions reg r m)).
Proof.
  unfold AppendRegions. destruct r as [|b r]; [done|].
  pose proof (RECTALLOC_quiet reg (length (b :: r)) m).
  by destruct (RECTALLOC _ _ _) as [[[] ?] ?].
Qed.

Lemma clip_bboxes t b y1 y2 s :
  map (fun r => mkBox (x1 r) y1 (x2 r) y2) (bboxes t b s) = bboxes y1 y2 s.
Proof. unfold bboxes. by rewrite map_map. Qed.

Lemma RegionAppendNonO_spec reg t b s y1 y2 m ok reg' m' :
  RegionAppendNonO reg (bboxes t b s) y1 y2 m = (ok, reg', m') -> oom m' = false ->
  blk reg -> s ≠ [] ->
  ok = true ∧ blk reg' ∧ extents reg' = extents reg ∧
  RegionRects reg' = RegionRects reg ++ bboxes y1 y2 s.
Proof.
  unfold RegionAppendNonO. rewrite length_bboxes. intros H Hm Hb Hs.
  destruct (RECTALLOC _ _ _) as [[ok1 reg1] m1] eqn:Ha.
  assert (m1 = m') as -> by (destruct ok1; by injection H as <- <- <-).
  assert (0 < length s)%nat by (destruct s; simpl; [done|lia]).
  destruct (RECTALLOC_spec _ _ _ _ _ _ Ha ltac:(done) Hm (blk_growable _ Hb)) as (-> & _ & Hh & Ho & Hr & He & Hf).
  rewrite clip_bboxes in H. injection H as <- <-.
  destruct (push_boxes_room reg1 (bboxes y1 y2 s) Hh Ho) as (? & ? & Hr' & He' & _);
    [by rewrite length_bboxes|].
  split_and!; try done; [by rewrite He', He|by rewrite Hr', Hr].
Qed.

(** The output so far: coalesced bands ending above [yb] that cover exactly [P]. *)
Definition out_inv (lo : Z) (reg : Region) (prev : nat) (yb : Z) (P : Z -> Z -> Prop) : Prop :=
  blk reg ∧ exists obs, RegionRects reg = flat obs ∧ bands_from true lo [] obs ∧ lo <= yb ∧
    lbot lo obs <= yb ∧ prev_ok obs prev yb ∧ (forall x y, in_bands x y obs <-> P x y).

Lemma out_mono lo reg prev yb yb' P P' :
  out_inv lo reg prev yb P -> yb <= yb' -> (forall x y, P x y <-> P' x y) -> out_inv lo reg prev yb' P'.
Proof.
  intros (Hb & obs & ? & ? & ? & ? & ? & HP) Hle HPP. split; [done|]. exists obs.
  split_and!; try done; try lia; [by eapply prev_ok_mono|]. intros x y. by rewrite HP.
Qed.

Lemma out_add lo reg prev t b s P reg1 reg2 prev2 :
  out_inv lo reg prev t P -> blk reg1 -> RegionRects reg1 = RegionRects reg ++ bboxes t b s ->
  spans_ok s -> t < b -> Coalesce reg1 prev (RegionNumRects reg) = (reg2, prev2) ->
  out_inv lo reg2 prev2 b (fun x y => P x y ∨ (t <= y < b ∧ in_spans x s)) ∧ extents reg2 = extents reg1.
Proof.
  intros (Hb & obs & Hr & Hobs & Hlo & Hlt & Hprev & HP) Hb1 Hr1 Hs Htb H.
  rewrite (blk_num _ Hb), Hr in H. rewrite Hr in Hr1.
  destruct (decide (s = [])) as [->|Hne].
  - assert ((reg2, prev2) = (reg1, length (flat obs))) as [= -> ->].
    { rewrite <- H. simpl in Hr1. rewrite app_nil_r in Hr1. unfold Coalesce.
      rewrite (blk_num _ Hb1), Hr1. case_match eqn:Hz; [|done]. zbool.
      destruct (blk_inv _ Hb1) as (size & junk & Hd & _). unfold RegionCoalesce. rewrite Hd.
      by replace (length (flat obs) - prev)%nat with 0%nat by lia. }
    split; [|done]. split; [done|]. exists obs. simpl in Hr1. rewrite app_nil_r in Hr1.
    split_and!; try done; try lia.
    + right. split; [done|]. destruct (decide (obs = [])) as [?|Hobs0]; [by left|right].
      rewrite (lbot_nonempty 0 lo) by done. lia.
    + intros x y. rewrite HP, in_spans_nil. tauto.
  - destruct (Coalesce_spec lo obs prev t b s reg1 reg2 prev2 Hb1 Hr1 Hobs Hlt Htb Hne Hs Hprev H)
      as (Hb2 & He2 & obs' & Hr2 & Hobs' & Hin & _ & Hlb & _ & Hp2).
    split; [|done]. split; [done|]. exists obs'. split_and!; try done; try lia.
    intros x y. by rewrite Hin, HP.
Qed.

Section Sweep.
Context {f : overlap_proc} {a1 a2 a12 report : bool} {Hf : OverlapProc f a1 a2 a12 report}.
Context (lo : Z).

Lemma append_band_quiet st band top bot : quiet (mem st) (mem (append_band st band top bot)).
Proof.
  unfold append_band. pose proof (AppendNonO_quiet (newReg st) band top bot (mem st)).
  destruct (RegionAppendNonO _ _ _ _ _) as [[? ?] ?]. by destruct (Coalesce _ _ _).
Qed.

Lemma append_band_spec st t b s top bot P :
  let st' := append_band st (bboxes t b s) top bot in
  oom (mem st') = false -> out_inv lo (newReg st) (prevBand st) top P ->
  s ≠ [] -> spans_ok s -> top < bot ->
  out_inv lo (newReg st') (prevBand st') bot (fun x y => P x y ∨ (top <= y < bot ∧ in_spans x s)) ∧
  extents (newReg st') = extents (newReg st) ∧ pOverlap st' = pOverlap st ∧ ybot st' = ybot st.
Proof.
  intros st' Hm Hout Hne Hs Htb. subst st'. unfold append_band in *.
  destruct (RegionAppendNonO _ _ _ _ _) as [[ok reg1] m1] eqn:Ha.
  destruct (Coalesce _ _ _) as [reg2 prev2] eqn:Hc. simpl in *.
  destruct (RegionAppendNonO_spec _ _ _ _ _ _ _ _ _ _ Ha Hm (proj1 Hout) Hne) as (_ & Hb1 & He1 & Hr1).
  destruct (out_add _ _ _ _ _ _ _ _ _ _ Hout Hb1 Hr1 Hs Htb Hc) as [? He2].
  split; [done|]. split; [congruence|done].
Qed.

Lemma nonoverlap_quiet st ap band top bot : quiet (mem st) (mem (nonoverlap st ap band top bot)).
Proof using. unfold nonoverlap. destruct (_ && _); [apply append_band_quiet|done]. Qed.

Lemma nonoverlap_spec st ap t b s top bot yb P :
  let st' := nonoverlap st ap (bboxes t b s) top bot in
  oom (mem st') = false -> out_inv lo (newReg st) (prevBand st) yb P -> yb <= top <= bot ->
  s ≠ [] -> spans_ok s ->
  out_inv lo (newReg st') (prevBand st') bot
    (fun x y => P x y ∨ (ap = true ∧ top <= y < bot ∧ in_spans x s)) ∧
  extents (newReg st') = extents (newReg st) ∧ pOverlap st' = pOverlap st ∧ ybot st' = ybot st.
Proof.
  intros st' Hm Hout Hle Hne Hs. subst st'. unfold nonoverlap in *.
  destruct ap; simpl in *; [destruct (Z.eqb_spec top bot) as [->|Htb]; simpl in *|].
  - split; [|done]. eapply out_mono; [exact Hout|lia|]. intros x y. split; [by left|]. intros [?|?]; [done|lia].
  - destruct (append_band_spec st t b s top bot P Hm) as (Ho & ?); try done; try lia.
    { eapply out_mono; [done|lia|done]. }
    split; [|done]. eapply out_mono; [exact Ho|lia|]. intros x y. tauto.
  - split; [|done]. eapply out_mono; [exact Hout|lia|]. intros x y. split; [by left|]. by intros [?|[? _]].
Qed.

Lemma overlap_band_quiet st b1 b2 yt yb : quiet (mem st) (mem (overlap_band f st b1 b2 yt yb)).
Proof.
  unfold overlap_band. pose proof (overlap_quiet (newReg st) b1 b2 yt yb (pOverlap st) (mem st)).
  destruct (f _ _ _ _ _ _ _) as [[[? ?] ?] ?]. by destruct (Coalesce _ _ _).
Qed.

Lemma overlap_band_step st t1 b1 s1 t2 b2 s2 yt yb P :
  let st' := overlap_band f st (bboxes t1 b1 s1) (bboxes t2 b2 s2) yt yb in
  oom (mem st') = false -> out_inv lo (newReg st) (prevBand st) yt P -> yt < yb ->
  s1 ≠ [] -> s2 ≠ [] -> spans_ok s1 -> spans_ok s2 ->
  out_inv lo (newReg st') (prevBand st') yb
    (fun x y => P x y ∨ (yt <= y < yb ∧ region_sem a1 a2 a12 (in_spans x s1) (in_spans x s2))) ∧
  extents (newReg st') = extents (newReg st) ∧ ybot st' = yb ∧
  (pOverlap st' = true <-> pOverlap st = true ∨ (report = true ∧ exists x, in_spans x s1 ∧ in_spans x s2)).
Proof.
  intros st' Hm Hout Hlt Hn1 Hn2 Hs1 Hs2. subst st'. unfold overlap_band in *.
  destruct (f _ _ _ _ _ _ _) as [[[ok reg1] ov1] m1] eqn:Hfe.
  destruct (Coalesce _ _ _) as [reg2 prev2] eqn:Hc. simpl in *.
  destruct (overlap_spec _ _ _ _ _ _ _ _ _ _ _ _ _ _ _ Hfe Hm (proj1 Hout) Hn1 Hn2 Hs1 Hs2)
    as (_ & Hb1 & He1 & (s & Hr1 & Hs & Hin) & Hov).
  destruct (out_add _ _ _ _ _ _ _ _ _ _ Hout Hb1 Hr1 Hs Hlt Hc) as [Ho He2].
  split_and!; try done; [|congruence]. eapply out_mono; [exact Ho|lia|]. intros x y. specialize (Hin x). tauto.
Qed.
End Sweep.

(** What is left of a source covers the source from [yb] downwards. *)
Definition src_inv (c : bool) (R bs : list band) (yb : Z) : Prop :=
  bands_ok c bs ∧ (forall x y, yb <= y -> in_bands x y R <-> in_bands x y bs) ∧
  match bs with [] => True | (_, b, _) :: _ => yb < b end.

Lemma head_flat t b s bs :
  s ≠ [] ->
  let h := default RegionEmptyBox (head (flat ((t, b, s) :: bs))) in y1 h = t ∧ y2 h = b.
Proof. by destruct s as [|[a a'] s]. Qed.

Lemma src_advance c R t b s bs yb yb' :
  src_inv c R ((t, b, s) :: bs) yb -> yb <= yb' <= b ->
  src_inv c R (if b =? yb' then bs else (t, b, s) :: bs) yb'.
Proof.
  intros (Hok & Hin & Hb) Hle. destruct (Z.eqb_spec b yb') as [->|Hne].
  - apply bands_ok_cons in Hok as (Htb & _ & _ & Hbs). split; [by eapply bands_from_ok|]. split.
    + intros x y Hy. rewrite Hin by lia. simpl. split; [|by right]. intros [?|?]; [lia|done].
    + destruct bs as [|[[t' b'] s'] bs]; [done|]. simpl in Hbs. lia.
  - split; [done|]. split; [|lia]. intros x y Hy. apply Hin. lia.
Qed.

(** Above the end of its first band, the source is that band. *)
Lemma src_head c R t b s bs yb x y :
  src_inv c R ((t, b, s) :: bs) yb -> yb <= y < b -> in_bands x y R <-> t <= y ∧ in_spans x s.
Proof.
  intros (Hok & Hin & _) Hy. apply bands_ok_cons in Hok as (_ & _ & _ & Hbs).
  rewrite Hin by lia. simpl. split; [|intros [? ?]; left; split; [lia|done]].
  intros [[? ?]|H]; [split; [lia|done]|]. apply (bands_from_lower _ _ _ _ _ _ Hbs) in H. lia.
Qed.

Lemma FindBand_ok c t b s bs :
  bands_ok c ((t, b, s) :: bs) -> FindBand (flat ((t, b, s) :: bs)) = (bboxes t b s, flat bs).
Proof. intros [lo H]. by eapply FindBand_flat. Qed.

Section Step.
Context {f : overlap_proc} {a1 a2 a12 report : bool} {Hf : OverlapProc f a1 a2 a12 report}.
Context (lo : Z) (c : bool) (R1 R2 : list band) (ov0 : bool) (e0 : Box).

(** The points of the result, and the overlap above a line. *)
Definition sem_at (x y : Z) : Prop := region_sem a1 a2 a12 (in_bands x y R1) (in_bands x y R2).
Definition overlap_above (yb : Z) : Prop :=
  exists x y, y < yb ∧ in_bands x y R1 ∧ in_bands x y R2.

Definition step_inv (st : OpState) (bs1 bs2 : list band) : Prop :=
  out_inv lo (newReg st) (prevBand st) (ybot st) (fun x y => y < ybot st ∧ sem_at x y) ∧
  extents (newReg st) = e0 ∧
  src_inv c R1 bs1 (ybot st) ∧ src_inv c R2 bs2 (ybot st) ∧
  match bs1, bs2 with (t1, _, _) :: _, (t2, _, _) :: _ => ybot st <= t1 ∨ ybot st <= t2 | _, _ => True end ∧
  (pOverlap st = true <-> ov0 = true ∨ (report = true ∧ overlap_above (ybot st))).

(** The part of a round before the overlap: the points down to [yt]. *)
Lemma step_first t1 b1 s1 B1 t2 b2 s2 B2 st :
  step_inv st ((t1, b1, s1) :: B1) ((t2, b2, s2) :: B2) ->
  let yt := Z.max t1 t2 in
  let yb := Z.min b1 b2 in
  let '(st', yt') :=
    if t1 <? t2 then (nonoverlap st a1 (bboxes t1 b1 s1) (Z.max t1 (ybot st)) (Z.min b1 t2), t2)
    else if t2 <? t1 then (nonoverlap st a2 (bboxes t2 b2 s2) (Z.max t2 (ybot st)) (Z.min b2 t1), t1)
    else (st, t1) in
  oom (mem st') = false ->
  yt' = yt ∧ ybot st <= Z.min yt yb ∧ ybot st < yb ∧
  out_inv lo (newReg st') (prevBand st') (Z.min yt yb) (fun x y => y < Z.min yt yb ∧ sem_at x y) ∧
  extents (newReg st') = e0 ∧ pOverlap st' = pOverlap st.
Proof.
  intros (Hout & He & Hs1 & Hs2 & Htop & Hov) yt yb.
  assert (H1 := fun x y => src_head _ _ _ _ _ _ _ x y Hs1). assert (H2 := fun x y => src_head _ _ _ _ _ _ _ x y Hs2).
  destruct Hs1 as (Hok1 & _ & Hb1), Hs2 as (Hok2 & _ & Hb2).
  apply bands_ok_cons in Hok1 as (Htb1 & Hn1 & Hsp1 & _), Hok2 as (Htb2 & Hn2 & Hsp2 & _).
  destruct (Z.ltb_spec t1 t2) as [Hlt|Hge]; [|destruct (Z.ltb_spec t2 t1) as [Hlt|Hge']]; intros Hm.
  - destruct (nonoverlap_spec lo st a1 t1 b1 s1 (Z.max t1 (ybot st)) (Z.min b1 t2) _ _ Hm Hout)
      as (Ho & He' & Hov' & _); [lia|done|done|].
    split_and!; try lia; try congruence. eapply out_mono; [exact Ho|lia|]. intros x y; simpl.
    destruct (decide (y < ybot st)).
    { split; [intros [[? ?]|(? & ? & ?)]; [split; [lia|done]|lia]|intros [? ?]; by left]. }
    split.
    + intros [[? ?]|(Ha & ? & ?)]; [lia|]. split; [lia|]. left. rewrite H1, H2 by lia.
      split_and!; [done|lia|done|lia].
    + intros [? Hsem]. unfold sem_at, region_sem in Hsem. rewrite H1, H2 in Hsem by lia.
      destruct Hsem as [(Ha & [? ?] & _)|[(_ & _ & ? & _)|(_ & _ & ? & _)]]; [|lia..].
      right. split_and!; try done; lia.
  - destruct (nonoverlap_spec lo st a2 t2 b2 s2 (Z.max t2 (ybot st)) (Z.min b2 t1) _ _ Hm Hout)
      as (Ho & He' & Hov' & _); [lia|done|done|].
    split_and!; try lia; try congruence. eapply out_mono; [exact Ho|lia|]. intros x y; simpl.
    destruct (decide (y < ybot st)).
    { split; [intros [[? ?]|(? & ? & ?)]; [split; [lia|done]|lia]|intros [? ?]; by left]. }
    split.
    + intros [[? ?]|(Ha & ? & ?)]; [lia|]. split; [lia|]. right; left. rewrite H1, H2 by lia.
      split_and!; [done|lia|lia|done].
    + intros [? Hsem]. unfold sem_at, region_sem in Hsem. rewrite H1, H2 in Hsem by lia.
      destruct Hsem as [(_ & [? _] & _)|[(Ha & _ & ? & ?)|(_ & [? _] & _)]]; [lia| |lia].
      right. split_and!; try done; lia.
  - split_and!; try lia; try done. eapply out_mono; [exact Hout|lia|]. intros x y; simpl.
    split; [intros [? ?]; split; [lia|done]|]. intros [Hy Hsem]. destruct (decide (y < ybot st)); [done|].
    unfold sem_at, region_sem in Hsem. rewrite H1, H2 in Hsem by lia.
    destruct Hsem as [(_ & [? _] & _)|[(_ & _ & ? & _)|(_ & [? _] & _)]]; lia.
Qed.

(** The part after it. *)
Lemma step_second t1 b1 s1 B1 t2 b2 s2 B2 st0 st :
  step_inv st0 ((t1, b1, s1) :: B1) ((t2, b2, s2) :: B2) ->
  let yt := Z.max t1 t2 in
  let yb := Z.min b1 b2 in
  let st' := if yt <? yb then overlap_band f st (bboxes t1 b1 s1) (bboxes t2 b2 s2) yt yb
             else set_ybot st yb in
  oom (mem st') = false -> ybot st0 <= Z.min yt yb -> ybot st0 < yb ->
  out_inv lo (newReg st) (prevBand st) (Z.min yt yb) (fun x y => y < Z.min yt yb ∧ sem_at x y) ->
  extents (newReg st) = e0 -> pOverlap st = pOverlap st0 ->
  out_inv lo (newReg st') (prevBand st') yb (fun x y => y < yb ∧ sem_at x y) ∧
  extents (newReg st') = e0 ∧ ybot st' = yb ∧
  (pOverlap st' = true <-> ov0 = true ∨ (report = true ∧ overlap_above yb)).
Proof.
  intros (_ & _ & Hs1 & Hs2 & _ & Hov) yt yb st' Hm Hle Hlt Hout He Hpo.
  assert (H1 := fun x y => src_head _ _ _ _ _ _ _ x y Hs1). assert (H2 := fun x y => src_head _ _ _ _ _ _ _ x y Hs2).
  destruct Hs1 as (Hok1 & _ & Hb1), Hs2 as (Hok2 & _ & Hb2).
  apply bands_ok_cons in Hok1 as (Htb1 & Hn1 & Hsp1 & _), Hok2 as (Htb2 & Hn2 & Hsp2 & _).
  rewrite <- Hpo in Hov. subst st'. destruct (Z.ltb_spec yt yb) as [Hyt|Hyt].
  - rewrite Z.min_l in * by lia.
    destruct (overlap_band_step lo st t1 b1 s1 t2 b2 s2 yt yb _ Hm Hout Hyt Hn1 Hn2 Hsp1 Hsp2)
      as (Ho & He' & Hyb & Hov').
    split_and!; [|congruence|done|].
    + eapply out_mono; [exact Ho|lia|]. intros x y; simpl. unfold sem_at, region_sem.
      destruct (decide (y < yt)).
      { split; [intros [[? ?]|[? _]]; [split; [lia|done]|lia]|intros [? ?]; by left]. }
      destruct (decide (y < yb)); [|split; [intros [[? _]|[? _]]; lia|intros [? _]; lia]].
      rewrite H1, H2 by lia.
      assert (t1 <= y ∧ yt <= y) as [? ?] by lia. assert (t2 <= y) by lia. tauto.
    + rewrite Hov', Hov. unfold overlap_above. split.
      * intros [[?|(? & x & y & ? & ?)]|(? & x & ? & ?)]; [by left|right..]; (split; [done|]).
        -- exists x, y. split; [lia|done].
        -- exists x, yt. rewrite H1, H2 by lia. split_and!; try done; lia.
      * intros [?|(? & x & y & ? & HR1 & HR2)]; [by left; left|].
        destruct (decide (y < ybot st0)); [left; right; split; [done|]; by exists x, y|].
        right. split; [done|]. exists x. rewrite H1 in HR1 by lia. rewrite H2 in HR2 by lia. tauto.
  - rewrite Z.min_r in * by lia. simpl. split_and!; try done.
    rewrite Hov. unfold overlap_above. split; (intros [?|(? & x & y & ? & HR1 & HR2)]; [by left|right]).
    + split; [done|]. exists x, y. split; [lia|done].
    + split; [done|]. exists x, y. split_and!; try done.
      destruct (decide (y < ybot st0)); [done|]. rewrite H1 in HR1 by lia. rewrite H2 in HR2 by lia. lia.
Qed.

Lemma op_step_quiet st r1 r2 : quiet (mem st) (mem (fst (fst (op_step f a1 a2 st r1 r2)))).
Proof.
  unfold op_step. destruct (FindBand r1) as [d1 q1], (FindBand r2) as [d2 q2].
  set (h1 := default _ (head r1)). set (h2 := default _ (head r2)).
  set (p := if y1 h1 <? y1 h2 then _ else _).
  assert (quiet (mem st) (mem (fst p))) as Hp.
  { subst p. destruct (y1 h1 <? y1 h2); [apply nonoverlap_quiet|].
    destruct (y1 h2 <? y1 h1); [apply nonoverlap_quiet|done]. }
  destruct p as [st1 yt]. simpl. etrans; [exact Hp|].
  destruct (_ <? _); [|done]. eapply (overlap_band_quiet (Hf := Hf)).
Qed.

(** One round keeps the invariant and consumes rectangles. *)
Lemma op_step_spec st bs1 bs2 st' r1' r2' :
  op_step f a1 a2 st (flat bs1) (flat bs2) = (st', r1', r2') -> oom (mem st') = false ->
  bs1 ≠ [] -> bs2 ≠ [] -> step_inv st bs1 bs2 ->
  exists bs1' bs2', r1' = flat bs1' ∧ r2' = flat bs2' ∧ step_inv st' bs1' bs2' ∧
    (length r1' + length r2' < length (flat bs1) + length (flat bs2))%nat.
Proof.
  destruct bs1 as [|[[t1 b1] s1] B1], bs2 as [|[[t2 b2] s2] B2]; try done.
  intros H Hm _ _ Hi. pose proof (step_first _ _ _ _ _ _ _ _ _ Hi) as Hfirst.
  assert (Hi' := Hi). destruct Hi' as (_ & _ & Hs1 & Hs2 & _ & _).
  assert (Hok1 := proj1 Hs1). assert (Hok2 := proj1 Hs2).
  unfold op_step in H. rewrite (FindBand_ok _ _ _ _ _ Hok1), (FindBand_ok _ _ _ _ _ Hok2) in H.
  apply bands_ok_cons in Hok1 as (Htb1 & Hn1 & _), Hok2 as (Htb2 & Hn2 & _).
  destruct (head_flat t1 b1 s1 B1 Hn1) as [Ht1 Hb1], (head_flat t2 b2 s2 B2 Hn2) as [Ht2 Hb2].
  rewrite Ht1, Ht2, Hb1, Hb2 in H. cbv zeta in Hfirst.
  destruct (if t1 <? t2 then _ else _) as [st1 yt1].
  injection H as Hst Hr1 Hr2.
  assert (Hm1 : oom (mem st1) = false).
  { rewrite <- Hst in Hm. destruct (_ <? _); [|done]. by eapply (overlap_band_quiet (Hf := Hf)). }
  destruct (Hfirst Hm1) as (-> & Hle & Hlt & Hout & He & Hpo).
  pose proof (step_second _ _ _ _ _ _ _ _ _ st1 Hi) as Hsecond. cbv zeta in Hsecond.
  rewrite Hst in Hsecond. destruct (Hsecond Hm Hle Hlt Hout He Hpo) as (Ho & He' & Hyb & Hov).
  exists (if b1 =? Z.min b1 b2 then B1 else (t1, b1, s1) :: B1),
         (if b2 =? Z.min b1 b2 then B2 else (t2, b2, s2) :: B2).
  split_and!; [rewrite <- Hr1; by destruct (b1 =? Z.min b1 b2)|rewrite <- Hr2; by destruct (b2 =? Z.min b1 b2)| |].
  - split_and!; rewrite ?Hyb; try done; try (eapply src_advance; [done|lia]).
    destruct Hs1 as (Hok1 & _ & _), Hs2 as (Hok2 & _ & _). rewrite bands_ok_cons in Hok1, Hok2.
    destruct (Z.eqb_spec b1 (Z.min b1 b2)).
    + destruct B1 as [|[[??]?] ?]; [done|]. set (q := if b2 =? Z.min b1 b2 then B2 else (t2, b2, s2) :: B2). destruct q as [|[[??]?] ?]; [done|].
      simpl in Hok1. left. lia.
    + destruct (Z.eqb_spec b2 (Z.min b1 b2)); [|lia]. destruct B2 as [|[[??]?] ?]; [done|].
      simpl in Hok2. right. lia.
  - subst r1' r2'. simpl. rewrite !length_app, !length_bboxes.
    assert (0 < length s1 ∧ 0 < length s2)%nat by (destruct s1, s2; simpl; done || lia).
    destruct (Z.eqb_spec b1 (Z.min b1 b2)), (Z.eqb_spec b2 (Z.min b1 b2));
      simpl; rewrite ?length_app, ?length_bboxes; lia.
Qed.

(** *** The loop *)

Lemma FindBand_shorter b r : (length (snd (FindBand (b :: r))) <= length r)%nat.
Proof.
  simpl. generalize (y1 b) as t. intros t.
  assert (H : forall l, (length (snd (take_band t l)) <= length l)%nat).
  { induction l as [|x l IH]; simpl; [lia|]. destruct (_ =? _); simpl; [|lia].
    destruct (take_band t l); simpl in *; lia. }
  specialize (H r). by destruct (take_band t r).
Qed.

(** Any round consumes a band, whatever the lists hold. *)
Lemma op_step_shrinks st r1 r2 st' r1' r2' :
  op_step f a1 a2 st r1 r2 = (st', r1', r2') -> r1 ≠ [] -> r2 ≠ [] ->
  (length r1' + length r2' < length r1 + length r2)%nat.
Proof.
  destruct r1 as [|h1 r1], r2 as [|h2 r2]; try done. intros H _ _.
  pose proof (FindBand_shorter h1 r1). pose proof (FindBand_shorter h2 r2).
  unfold op_step in H. destruct (FindBand (h1 :: r1)) as [d1 q1], (FindBand (h2 :: r2)) as [d2 q2].
  simpl in *. destruct (if y1 h1 <? y1 h2 then _ else _) as [st1 yt]. injection H as _ <- <-.
  destruct (Z.eqb_spec (y2 h1) (Z.min (y2 h1) (y2 h2))), (Z.eqb_spec (y2 h2) (Z.min (y2 h1) (y2 h2)));
    simpl in *; lia.
Qed.

Definition loop_mem (res : OpError + (OpState * list Box * list Box)) : Mem -> Mem :=
  fun m => match res with inl (StaleHeader m') => m' | inl _ => m | inr (st, _, _) => mem st end.

Lemma op_loop_quiet fuel stale st r1 r2 :
  quiet (mem st) (loop_mem (op_loop f a1 a2 fuel stale st r1 r2) (mem st)).
Proof.
  revert st r1 r2; induction fuel as [|fuel IH]; intros st r1 r2; simpl; [done|].
  pose proof (op_step_quiet st r1 r2) as Hq. destruct (op_step _ _ _ _ _ _) as [[st1 r1'] r2']. simpl in Hq.
  destruct (stale && _); [done|]. destruct r1' as [|h1 r1'], r2' as [|h2 r2']; try done.
  specialize (IH st1 (h1 :: r1') (h2 :: r2')).
  destruct (op_loop _ _ _ _ _ _ _ _) as [[]|[[? ?] ?]]; simpl in *; try done; etrans; done.
Qed.

Lemma op_loop_total fuel stale st r1 r2 :
  r1 ≠ [] -> r2 ≠ [] -> (length r1 + length r2 <= fuel)%nat ->
  match op_loop f a1 a2 fuel stale st r1 r2 with
  | inl (StaleHeader _) | inr _ => True
  | inl _ => False
  end.
Proof.
  revert st r1 r2. induction fuel as [|fuel IH]; intros st r1 r2 H1 H2 Hl.
  - destruct r1, r2; simpl in *; done || lia.
  - simpl. destruct (op_step _ _ _ _ _ _) as [[st1 r1'] r2'] eqn:E.
    apply op_step_shrinks in E; [|done|done]. destruct (stale && _); [done|].
    destruct r1' as [|? ?], r2' as [|? ?]; try done. apply IH; done || lia.
Qed.

Lemma op_loop_oom fuel stale st r1 r2 :
  oom (mem st) = true -> r1 ≠ [] -> r2 ≠ [] -> (length r1 + length r2 <= fuel)%nat ->
  match op_loop f a1 a2 fuel stale st r1 r2 with
  | inl (StaleHeader m') => oom m' = true
  | inl _ => False
  | inr (st', _, _) => oom (mem st') = true
  end.
Proof.
  intros Hm H1 H2 Hl. pose proof (op_loop_quiet fuel stale st r1 r2) as Hq.
  pose proof (op_loop_total fuel stale st r1 r2 H1 H2 Hl) as Ht. unfold quiet in Hq. rewrite Hm in Hq.
  destruct (op_loop _ _ _ _ _ _ _ _) as [[]|[[? ?] ?]]; simpl in *; try done;
    (match goal with |- oom ?m = _ => destruct (oom m) end); try done; by specialize (Hq eq_refl).
Qed.

Lemma op_loop_spec fuel stale st bs1 bs2 :
  bs1 ≠ [] -> bs2 ≠ [] -> (length (flat bs1) + length (flat bs2) <= fuel)%nat ->
  step_inv st bs1 bs2 ->
  match op_loop f a1 a2 fuel stale st (flat bs1) (flat bs2) with
  | inl (StaleHeader m') => oom m' = true
  | inl _ => False
  | inr (st', r1', r2') => oom (mem st') = false ->
      exists bs1' bs2', r1' = flat bs1' ∧ r2' = flat bs2' ∧ step_inv st' bs1' bs2' ∧ (r1' = [] ∨ r2' = [])
  end.
Proof.
  intros Hn1 Hn2 Hfuel Hi.
  revert st bs1 bs2 Hn1 Hn2 Hfuel Hi; induction fuel as [|fuel IH]; intros st bs1 bs2 Hn1 Hn2 Hfuel Hi.
  { destruct Hi as (_ & _ & (Hok1 & _) & _). pose proof (flat_nonempty _ _ Hok1 Hn1).
    destruct (flat bs1); simpl in *; done || lia. }
  simpl. pose proof (op_step_spec st bs1 bs2) as Hstep. pose proof (op_step_shrinks st (flat bs1) (flat bs2)) as Hsh.
  destruct (op_step _ _ _ _ _ _) as [[st1 r1'] r2']. specialize (Hstep _ _ _ eq_refl).
  destruct (oom (mem st1)) eqn:Hm1.
  - destruct (stale && _); [done|]. destruct r1' as [|h1 r1'], r2' as [|h2 r2']; try (intros; congruence).
    destruct Hi as (_ & _ & (Hok1 & _) & (Hok2 & _) & _).
    specialize (Hsh _ _ _ eq_refl (flat_nonempty _ _ Hok1 Hn1) (flat_nonempty _ _ Hok2 Hn2)).
    pose proof (op_loop_oom fuel stale st1 (h1 :: r1') (h2 :: r2') Hm1 ltac:(done) ltac:(done) ltac:(lia)).
    destruct (op_loop _ _ _ _ _ _ _ _) as [[| |m'|]|[[st' ?] ?]]; simpl in *; try done; congruence.
  - destruct (Hstep eq_refl Hn1 Hn2 Hi) as (bs1' & bs2' & -> & -> & Hi1 & Hlt).
    assert (RegionNar (newReg st1) = false) as ->.
    { apply blk_not_broken. by destruct Hi1 as ((? & _) & _). }
    rewrite andb_false_r.
    destruct (decide (flat bs1' = [])) as [E1|E1]; [rewrite E1; intros _; exists bs1', bs2'; auto|].
    destruct (decide (flat bs2' = [])) as [E2|E2].
    { rewrite E2. destruct (flat bs1') eqn:E; intros _; exists bs1', bs2'; rewrite ?E; auto. }
    assert (Hb1 : bs1' ≠ []) by (by intros ->). assert (Hb2 : bs2' ≠ []) by (by intros ->).
    specialize (IH st1 bs1' bs2' Hb1 Hb2 ltac:(lia) Hi1).
    destruct (flat bs1'), (flat bs2'); done.
Qed.

(** *** After the loop *)

(** The rectangles of a region are bands (coalesced if [c]) covering exactly [P]. *)
Definition banded_as (reg : Region) (P : Z -> Z -> Prop) : Prop :=
  exists bs, RegionRects reg = flat bs ∧ bands_from c lo [] bs ∧ (forall x y, in_bands x y bs <-> P x y).

Lemma banded_as_ext reg P P' : banded_as reg P -> (forall x y, P x y <-> P' x y) -> banded_as reg P'.
Proof. intros (bs & ? & ? & HP) He. exists bs. split_and!; try done. intros x y. by rewrite HP. Qed.

Lemma AppendRegions_spec reg r m ok reg' m' :
  AppendRegions reg r m = (ok, reg', m') -> oom m' = false -> blk reg ->
  ok = true ∧ blk reg' ∧ extents reg' = extents reg ∧ RegionRects reg' = RegionRects reg ++ r.
Proof.
  unfold AppendRegions. intros H Hm Hb. destruct r as [|b r].
  { injection H as <- <- <-. by rewrite app_nil_r. }
  destruct (RECTALLOC _ _ _) as [[ok1 reg1] m1] eqn:Ha.
  assert (m1 = m') as -> by (destruct ok1; by injection H as <- <- <-).
  destruct (RECTALLOC_spec _ _ _ _ _ _ Ha ltac:(simpl; lia) Hm (blk_growable _ Hb)) as (-> & _ & Hh & Ho & Hr & He & Hfit).
  injection H as <- <-.
  destruct (push_boxes_room reg1 (b :: r) Hh Ho Hfit) as (? & ? & Hr' & He' & _).
  split_and!; try done; [by rewrite He', He|by rewrite Hr', Hr].
Qed.

Lemma op_rest_quiet st r : quiet (mem st) (mem (snd (op_rest st r))).
Proof.
  unfold op_rest. destruct (FindBand r) as [band rest].
  set (st1 := append_band _ _ _ _). etrans; [eapply append_band_quiet|]. fold st1.
  pose proof (AppendRegions_quiet (newReg st1) rest (mem st1)).
  by destruct (AppendRegions _ _ _) as [[? ?] ?].
Qed.

Lemma op_tail_quiet st r1 r2 : quiet (mem st) (mem (snd (op_tail a1 a2 st r1 r2))).
Proof.
  unfold op_tail. destruct (_ && a1); [apply op_rest_quiet|]. by destruct (_ && a2); [apply op_rest_quiet|].
Qed.

(** The rest of one source goes to the output as it is. *)
Lemma op_rest_spec st ok st' R t b s B P :
  op_rest st (flat ((t, b, s) :: B)) = (ok, st') -> oom (mem st') = false ->
  out_inv lo (newReg st) (prevBand st) (ybot st) P -> src_inv c R ((t, b, s) :: B) (ybot st) ->
  ok = true ∧ blk (newReg st') ∧ extents (newReg st') = extents (newReg st) ∧ pOverlap st' = pOverlap st ∧
  banded_as (newReg st') (fun x y => P x y ∨ (ybot st <= y ∧ in_bands x y R)).
Proof.
  intros H Hm (Hb & obs & Hr & Hobs & Hlo & Hlt & Hprev & HP) (Hok & Hin & Hyb).
  assert (Hok' := Hok). apply bands_ok_cons in Hok' as (Htb & Hne & Hs & HB).
  unfold op_rest in H. rewrite (FindBand_ok _ _ _ _ _ Hok) in H.
  destruct (head_flat t b s B Hne) as [Ht1 Ht2]. rewrite Ht1, Ht2 in H.
  unfold append_band in H.
  destruct (RegionAppendNonO _ _ _ _ _) as [[ok1 reg1] m1] eqn:Ha.
  destruct (Coalesce _ _ _) as [reg2 prev2] eqn:Hc. simpl in H.
  pose proof (AppendRegions_quiet reg2 (flat B) m1) as Hq.
  destruct (AppendRegions _ _ _) as [[ok3 reg3] m3] eqn:Hap. injection H as <- <-. simpl in *.
  destruct (RegionAppendNonO_spec _ _ _ _ _ _ _ _ _ _ Ha (Hq Hm) Hb Hne) as (_ & Hb1 & He1 & Hr1).
  rewrite Hr in Hr1. rewrite (blk_num _ Hb), Hr in Hc.
  destruct (Coalesce_spec lo obs (prevBand st) (Z.max t (ybot st)) b s reg1 reg2 prev2 Hb1 Hr1 Hobs
      ltac:(lia) ltac:(lia) Hne Hs ltac:(eapply prev_ok_mono; [done|lia]) Hc)
    as (Hb2 & He2 & obs' & Hr2 & Hobs' & Hin' & Hne' & Hlb & Hls & _).
  destruct (AppendRegions_spec _ _ _ _ _ _ Hap Hm Hb2) as (-> & Hb3 & He3 & Hr3).
  split_and!; try done; [congruence|]. exists (obs' ++ B). split_and!.
  - by rewrite Hr3, Hr2, flat_app.
  - apply bands_from_app. split; [by apply bands_from_c|]. by rewrite Hlb, Hls.
  - intros x y. rewrite in_bands_app, Hin', HP.
    destruct (decide (y < ybot st)) as [Hy|Hy].
    + split; [intros [[?|?]|HinB]|intros [?|?]]; try lia; [by left| |by left; left].
      apply (bands_from_lower _ _ _ _ _ _ HB) in HinB. lia.
    + rewrite Hin by lia. simpl. split.
      * intros [[?|[? ?]]|?]; [by left|right; split; [lia|left; split; [lia|done]]|right; split; [lia|by right]].
      * intros [?|[_ [[? ?]|?]]]; [by left; left|left; right; split; [lia|done]|by right].
Qed.

Lemma src_end R bs yb :
  src_inv c R bs yb -> flat bs = [] -> bs = [] ∧ forall x y, yb <= y -> ¬ in_bands x y R.
Proof.
  intros (Hok & Hin & _) E. destruct bs as [|b0 bs].
  - split; [done|]. intros x y Hy. rewrite Hin by done. simpl. tauto.
  - by destruct (flat_nonempty _ _ Hok).
Qed.

(** One side is left, the other is used up. *)
Lemma tail_side (append : bool) R bs st ok st' :
  (if negb (length (flat bs) =? 0)%nat && append then op_rest st (flat bs) else (true, st)) = (ok, st') ->
  oom (mem st') = false ->
  out_inv lo (newReg st) (prevBand st) (ybot st) (fun x y => y < ybot st ∧ sem_at x y) ->
  src_inv c R bs (ybot st) ->
  (forall x y, ybot st <= y -> sem_at x y <-> append = true ∧ in_bands x y R) ->
  ok = true ∧ blk (newReg st') ∧ extents (newReg st') = extents (newReg st) ∧ pOverlap st' = pOverlap st ∧
  banded_as (newReg st') sem_at.
Proof.
  intros H Hm Hout Hs Hsem. destruct (negb _ && append) eqn:Hc.
  - apply andb_true_iff in Hc as [Hl ->]. destruct bs as [|[[t b] s] B]; [done|].
    destruct (op_rest_spec _ _ _ _ _ _ _ _ _ H Hm Hout Hs) as (-> & ? & He' & Ho' & Hba).
    split_and!; try done. eapply banded_as_ext; [exact Hba|]. intros x y; simpl.
    destruct (decide (y < ybot st)); [split; [intros [[? ?]|[? _]]; [done|lia]|by left]|].
    rewrite Hsem by lia. split; [intros [[? _]|[_ ?]]; [lia|done]|]. intros [_ ?]. right. split; [lia|done].
  - injection H as <- <-. split_and!; try done; [by destruct Hout|].
    assert (Hno : forall x y, ybot st <= y -> ¬ sem_at x y).
    { intros x y Hy. rewrite Hsem by done. intros [-> HR]. rewrite andb_true_r in Hc.
      destruct (flat bs) eqn:E; [|done]. apply (src_end _ _ _ Hs) in E as [_ E]. by apply (E x y). }
    destruct Hout as (Hb & obs & Hr & Hobs & _ & _ & _ & HP).
    exists obs. split_and!; [done|by apply bands_from_c|]. intros x y. rewrite HP.
    split; [tauto|]. intros Hin. split; [|done]. destruct (decide (y < ybot st)); [done|].
    by destruct (Hno x y ltac:(lia)).
Qed.

Lemma op_tail_spec st bs1 bs2 ok st' :
  op_tail a1 a2 st (flat bs1) (flat bs2) = (ok, st') -> oom (mem st') = false ->
  step_inv st bs1 bs2 -> flat bs1 = [] ∨ flat bs2 = [] ->
  ok = true ∧ blk (newReg st') ∧ extents (newReg st') = e0 ∧
  banded_as (newReg st') sem_at ∧
  (pOverlap st' = true <-> ov0 = true ∨ (report = true ∧ exists x y, in_bands x y R1 ∧ in_bands x y R2)).
Proof.
  intros H Hm (Hout & He & Hs1 & Hs2 & _ & Hov) Hend.
  assert (Hov' : pOverlap st = true <-> ov0 = true ∨ (report = true ∧ exists x y, in_bands x y R1 ∧ in_bands x y R2)).
  { rewrite Hov. unfold overlap_above. split; (intros [?|(? & x & y & HR)]; [by left|right; split; [done|]; exists x, y]);
      [tauto|]. split; [|done]. destruct (decide (y < ybot st)); [done|].
    destruct Hend as [E|E]; [apply (src_end _ _ _ Hs1) in E|apply (src_end _ _ _ Hs2) in E];
      destruct E as [_ E]; destruct (E x y ltac:(lia)); tauto. }
  assert (Hgo : ok = true ∧ blk (newReg st') ∧ extents (newReg st') = extents (newReg st) ∧
                pOverlap st' = pOverlap st ∧ banded_as (newReg st') sem_at);
    [|by destruct Hgo as (-> & ? & -> & -> & ?)].
  unfold op_tail in H. destruct Hend as [E|E].
  - rewrite E in H. simpl in H. apply (src_end _ _ _ Hs1) in E as [_ Hno].
    apply (tail_side a2 R2 bs2 st); try done. intros x y Hy.
    unfold sem_at, region_sem. specialize (Hno x y Hy). tauto.
  - rewrite E in H. simpl in H. apply (src_end _ _ _ Hs2) in E as [_ Hno].
    apply (tail_side a1 R1 bs1 st); try done. intros x y Hy.
    unfold sem_at, region_sem. specialize (Hno x y Hy). tauto.
Qed.
End Step.

(** ** RegionOp *)

(** The representation of a finished region: one rectangle in the header, none, or a
    block of at least two. *)
Definition compact (reg : Region) : Prop :=
  match data reg with
  | NullData | EmptyData => True
  | BrokenData => False
  | HeapData _ num _ => heap_ok reg ∧ (1 < num)%nat
  end.

(** A region in y-x banded form ([c]: with bands coalesced). *)
Definition wf_region (c : bool) (reg : Region) : Prop := compact reg ∧ banded c (RegionRects reg).

(** The points of a region. *)
Definition points (reg : Region) (x y : Z) : Prop := in_rects (RegionRects reg) (x, y).

Lemma compact_num reg : compact reg -> RegionNumRects reg = length (RegionRects reg).
Proof.
  unfold compact, RegionNumRects, RegionRects, heap_ok.
  destruct (data reg); simpl; try done. rewrite length_take. lia.
Qed.

Lemma op_finish_oom reg m reg' m' : op_finish reg m = (reg', m') -> oom m' = oom m.
Proof.
  unfold op_finish. destruct (_ =? 0)%nat; [by intros [= <- <-]|]. destruct (_ =? 1)%nat; [by intros [= <- <-]|].
  unfold DOWNSIZE. destruct (data reg); try (by intros [= <- <-]).
  destruct (_ && _); [|by intros [= <- <-]]. destruct (alloc_rects _ _) as [[] ?] eqn:Ha; [|by intros [= <- <-]].
  intros [= <- <-]. by destruct (alloc_rects_true _ _ _ Ha).
Qed.

Lemma op_finish_spec reg m reg' m' :
  op_finish reg m = (reg', m') -> blk reg ->
  compact reg' ∧ RegionRects reg' = RegionRects reg ∧ oom m' = oom m ∧
  (extents reg' = extents reg ∨ RegionRects reg' = [extents reg']).
Proof.
  unfold op_finish. intros H Hb. destruct (blk_inv _ Hb) as (size & junk & Hd & _).
  rewrite (blk_num _ Hb) in H. destruct (RegionRects reg) as [|b [|b' l]] eqn:Hr; simpl in H.
  - injection H as <- <-. split_and!; try done. by left.
  - injection H as <- <-. unfold RegionBoxptr. rewrite Hd. simpl. split_and!; try done. by right.
  - assert (Hn : S (S (length l)) = RegionNumRects reg) by (by rewrite (blk_num _ Hb), Hr).
    destruct (DOWNSIZE_spec _ _ _ _ _ H (proj2 Hb) (proj1 Hb) Hn ltac:(lia)) as (Ho & Hh & Hr' & He & Hm).
    split_and!; [|by rewrite Hr', Hr|done|by left].
    unfold compact. assert (Hl := blk_num _ (conj Hh Ho)). rewrite Hr', Hr in Hl.
    destruct Hh as (sz & num & bx & Hd'). unfold RegionNumRects in Hl. rewrite Hd' in *. simpl in Hl.
    split; [done|lia].
Qed.

(** The destination before the sweep: an empty block. *)
Lemma op_start_spec dest steal newSize m ok reg m' :
  (if (RegionSize (op_dest dest steal) <? newSize)%nat
   then RegionRectAlloc (op_dest dest steal) newSize m else (true, op_dest dest steal, m)) = (ok, reg, m') ->
  oom m' = false -> growable dest -> (2 <= newSize)%nat ->
  ok = true ∧ oom m = false ∧ blk reg ∧ RegionRects reg = [] ∧ extents reg = extents dest.
Proof.
  intros H Hm Hg Hn.
  assert (Hd : heap_ok (op_dest dest steal) ∧ RegionRects (op_dest dest steal) = [] ∧
               extents (op_dest dest steal) = extents dest).
  { unfold op_dest, heap_ok, RegionRects. destruct Hg as [Hg|Hg].
    - rewrite Hg. by destruct steal.
    - unfold heap_ok in Hg. destruct steal; [done|]. destruct (data dest) eqn:E; simpl; rewrite ?E; try done.
      split_and!; try done; lia. }
  destruct Hd as (Ho & Hr & He). destruct (Nat.ltb_spec (RegionSize (op_dest dest steal)) newSize).
  - destruct (RegionRectAlloc_spec _ _ _ _ _ _ H ltac:(lia) Hm (or_intror Ho)) as (-> & ? & ? & Hr' & He' & _ & ?).
    { intros ? ? ? _ ->. lia. }
    rewrite Hr', He'. done.
  - injection H as <- <- <-. split_and!; try done.
    split; [|done]. unfold is_heap, RegionSize in *.
    destruct (data (op_dest dest steal)); try lia. by repeat eexists.
Qed.

Section Correct.
Context {f : overlap_proc} {a1 a2 a12 report : bool} {Hf : OverlapProc f a1 a2 a12 report}.

(** What [RegionOp] promises for sources with rectangles. *)
Definition op_post (c : bool) (dest reg1 reg2 : Region) (ov : bool)
    (res : OpError + (bool * Region * bool * Mem)) : Prop :=
  match res with
  | inl (StaleHeader m') => oom m' = true
  | inl _ => False
  | inr (ok, reg', ov', m') => oom m' = false ->
      ok = true ∧ wf_region c reg' ∧
      (forall x y, points reg' x y <-> region_sem a1 a2 a12 (points reg1 x y) (points reg2 x y)) ∧
      (ov' = true <-> ov = true ∨ (report = true ∧ exists x y, points reg1 x y ∧ points reg2 x y)) ∧
      (extents reg' = extents dest ∨ RegionRects reg' = [extents reg'])
  end.

Lemma step_inv_start c bs1 bs2 dest reg ov m :
  bands_ok c bs1 -> bands_ok c bs2 -> bs1 ≠ [] -> bs2 ≠ [] ->
  blk reg -> RegionRects reg = [] -> extents reg = extents dest ->
  exists lo, step_inv (a1 := a1) (a2 := a2) (a12 := a12) (report := report) lo c bs1 bs2 ov (extents dest)
    (mkOp reg 0 (Z.min (y1 (default RegionEmptyBox (head (flat bs1))))
                       (y1 (default RegionEmptyBox (head (flat bs2))))) ov m) bs1 bs2.
Proof.
  intros Hok1 Hok2 Hn1 Hn2 Hb Hr He.
  destruct bs1 as [|[[t1 b1] s1] B1], bs2 as [|[[t2 b2] s2] B2]; try done.
  assert (Hk1 := Hok1). assert (Hk2 := Hok2).
  apply bands_ok_cons in Hk1 as (? & Hs1 & _ & HB1), Hk2 as (? & Hs2 & _ & HB2).
  destruct (head_flat t1 b1 s1 B1 Hs1) as [-> _], (head_flat t2 b2 s2 B2 Hs2) as [-> _].
  assert (Hlow1 : forall x y, in_bands x y ((t1, b1, s1) :: B1) -> t1 <= y).
  { intros x y [[? ?]|Hin]; [lia|]. apply (bands_from_lower _ _ _ _ _ _ HB1) in Hin. lia. }
  assert (Hlow2 : forall x y, in_bands x y ((t2, b2, s2) :: B2) -> t2 <= y).
  { intros x y [[? ?]|Hin]; [lia|]. apply (bands_from_lower _ _ _ _ _ _ HB2) in Hin. lia. }
  exists (Z.min t1 t2). split_and!; simpl; try done; try lia.
  - split; [done|]. exists []. split_and!; simpl; try done; try (unfold lbot; simpl; lia).
    { right. split; [done|by left]. }
    intros x y. split; [done|]. intros [Hy Hsem]. unfold sem_at, region_sem in Hsem.
    assert (¬ in_bands x y ((t1, b1, s1) :: B1)) by (intros Hin%Hlow1; lia).
    assert (¬ in_bands x y ((t2, b2, s2) :: B2)) by (intros Hin%Hlow2; lia). tauto.
  - split_and!; try done; lia.
  - split_and!; try done; lia.
  - split; [by left|]. intros [?|(_ & x & y & Hy & Hi1%Hlow1 & Hi2%Hlow2)]; [done|lia].
Qed.

Lemma compact_heap reg : compact reg -> RegionNar reg = false ∧
  forall same : bool, same && (RegionNumRects reg =? 1)%nat &&
    match data reg with NullData => false | _ => true end = false.
Proof.
  unfold compact, RegionNar, RegionNumRects. intros Hc. split; [by destruct (data reg)|].
  intros same. destruct (data reg); rewrite ?andb_false_r; try done.
  destruct (Nat.eqb_spec numRects 1); [lia|by rewrite andb_false_r].
Qed.

(** The sweep from an empty block. *)
Lemma op_sweep_spec c dest reg r1 r2 bs1 bs2 ov m stale :
  r1 = flat bs1 -> r2 = flat bs2 -> bands_ok c bs1 -> bands_ok c bs2 -> r1 ≠ [] -> r2 ≠ [] ->
  (oom m = false -> blk reg ∧ RegionRects reg = [] ∧ extents reg = extents dest) ->
  match op_loop f a1 a2 (length r1 + length r2) stale
          (mkOp reg 0 (Z.min (y1 (default RegionEmptyBox (head r1)))
                             (y1 (default RegionEmptyBox (head r2)))) ov m) r1 r2 with
  | inl (StaleHeader m') => oom m' = true
  | inl _ => False
  | inr (st, r1', r2') => forall ok st', op_tail a1 a2 st r1' r2' = (ok, st') -> oom (mem st') = false ->
      ok = true ∧ blk (newReg st') ∧ extents (newReg st') = extents dest ∧
      banded c (RegionRects (newReg st')) ∧
      (forall x y, in_rects (RegionRects (newReg st')) (x, y) <->
                   region_sem a1 a2 a12 (in_bands x y bs1) (in_bands x y bs2)) ∧
      (pOverlap st' = true <-> ov = true ∨ (report = true ∧ exists x y, in_bands x y bs1 ∧ in_bands x y bs2))
  end.
Proof.
  intros -> -> Hok1 Hok2 Hne1 Hne2 Hreg.
  set (st0 := mkOp _ _ _ _ _).
  pose proof (op_loop_oom (length (flat bs1) + length (flat bs2)) stale st0 (flat bs1) (flat bs2)) as Hoom.
  destruct (oom m) eqn:Hm.
  { specialize (Hoom Hm Hne1 Hne2 ltac:(lia)).
    destruct (op_loop _ _ _ _ _ _ _ _) as [[]|[[st r1'] r2']]; try done. intros ok st' Ht Hm'.
    pose proof (op_tail_quiet (a1 := a1) (a2 := a2) st r1' r2') as Hq. rewrite Ht in Hq.
    rewrite (Hq Hm') in Hoom. done. }
  destruct (Hreg eq_refl) as (Hb & Hr & He).
  assert (Hb1 : bs1 ≠ []) by (by intros ->). assert (Hb2 : bs2 ≠ []) by (by intros ->).
  destruct (step_inv_start c bs1 bs2 dest reg ov m Hok1 Hok2 Hb1 Hb2 Hb Hr He) as [lo Hi].
  pose proof (op_loop_spec _ _ _ _ _ _ (length (flat bs1) + length (flat bs2)) stale st0 bs1 bs2 Hb1 Hb2
                ltac:(lia) Hi) as Hloop.
  destruct (op_loop _ _ _ _ _ _ _ _) as [[]|[[st r1'] r2']]; try done. intros ok st' Ht Hm'.
  pose proof (op_tail_quiet (a1 := a1) (a2 := a2) st r1' r2') as Hq. rewrite Ht in Hq.
  destruct (Hloop (Hq Hm')) as (bs1' & bs2' & -> & -> & Hi' & Hend).
  destruct (op_tail_spec _ _ _ _ _ _ _ _ _ _ _ Ht Hm' Hi' Hend) as (-> & ? & ? & (bs & Hbs & Hbok & Hin) & ?).
  split_and!; try done; [exists bs; split; [done|by eapply bands_from_ok]|].
  intros x y. rewrite Hbs, in_rects_flat. apply Hin.
Qed.

Lemma RegionOp_post c dest reg1 reg2 same1 same2 ov m :
  wf_region c reg1 -> wf_region c reg2 -> RegionRects reg1 ≠ [] -> RegionRects reg2 ≠ [] -> growable dest ->
  op_post c dest reg1 reg2 ov (RegionOp f a1 a2 dest reg1 reg2 same1 same2 ov m).
Proof.
  intros [Hc1 (bs1 & Hr1 & Hok1)] [Hc2 (bs2 & Hr2 & Hok2)] Hne1 Hne2 Hg.
  destruct (compact_heap _ Hc1) as [Hnar1 Hblk1], (compact_heap _ Hc2) as [Hnar2 Hblk2].
  unfold RegionOp. rewrite Hnar1, Hnar2, Hblk1, Hblk2. cbn [orb]. rewrite !compact_num by done.
  destruct (Nat.eqb_spec (length (RegionRects reg1)) 0) as [Hz|Hz1]; [by apply nil_length_inv in Hz|].
  destruct (Nat.eqb_spec (length (RegionRects reg2)) 0) as [Hz|Hz2]; [by apply nil_length_inv in Hz|].
  cbn [orb]. set (steal := _ || _). set (stale := _ || _). set (newSize := (2 * _)%nat).
  destruct (if (RegionSize _ <? _)%nat then _ else _) as [[ok reg] m1] eqn:Hstart.
  pose proof (fun H => op_start_spec _ _ _ _ _ _ _ Hstart H Hg ltac:(lia)) as Hs.
  destruct ok; simpl; [|intros Hm; by destruct (Hs Hm)].
  pose proof (op_sweep_spec c dest reg _ _ bs1 bs2 ov m1 stale Hr1 Hr2 Hok1 Hok2 Hne1 Hne2
                ltac:(intros Hm; by destruct (Hs Hm) as (_ & _ & ?))) as Hsw.
  destruct (op_loop _ _ _ _ _ _ _ _) as [|[[st r1'] r2']]; [exact Hsw|].
  destruct (op_tail _ _ st r1' r2') as [ok st'] eqn:Ht. specialize (Hsw _ _ eq_refl).
  destruct ok; [|simpl; intros Hm; by destruct (Hsw Hm)].
  destruct (op_finish (newReg st') (mem st')) as [reg' m'] eqn:Hfin. simpl. intros Hm.
  destruct (Hsw (eq_trans (eq_sym (op_finish_oom _ _ _ _ Hfin)) Hm)) as (_ & Hb & He & Hban & Hpts & Hov).
  destruct (op_finish_spec _ _ _ _ Hfin Hb) as (Hc' & Hr' & _ & Hext).
  assert (Hin1 : forall x y, points reg1 x y <-> in_bands x y bs1)
    by (intros; unfold points; by rewrite Hr1, in_rects_flat).
  assert (Hin2 : forall x y, points reg2 x y <-> in_bands x y bs2)
    by (intros; unfold points; by rewrite Hr2, in_rects_flat).
  split_and!; [done|split; [done|by rewrite Hr']| | |by rewrite <- He].
  - intros x y. unfold points at 1. by rewrite Hr', Hpts, Hin1, Hin2.
  - rewrite Hov. by setoid_rewrite Hin1; setoid_rewrite Hin2.
Qed.
End Correct.
