(* ===== verification/RegionSort.v ===== *)
(** * RegionSort: the in-place quicksort of dix/region.c

    [QuickSortRects] orders an array of boxes by [(y1, x1)].  A pointer into the
    array is the list of the boxes from there on, of which the first [numRects]
    are sorted; [None] is a read outside the array or a loop that outlives its
    fuel.  The theorem rules both out. *)

From stdpp Require Import base numbers list sorting.
From S2P Require Import Prelude Bands.

(** ** The code *)

(** [y1 < r->y1 || (y1 == r->y1 && x1 < r->x1)], with the corners as boxes. *)
Definition rect_lt (p r : Box) : bool :=
  (y1 p <? y1 r) || ((y1 p =? y1 r) && (x1 p <? x1 r)).

(** [ExchangeRects(a, b)]. *)
Definition ExchangeRects (a b : nat) (rects : list Box) : option (list Box) :=
  match rects !! a, rects !! b with
  | Some x, Some y => Some (<[b := x]> (<[a := y]> rects))
  | _, _ => None
  end.

(** [do { r++; i++; } while (i != numRects && *r < pivot)]; [k] is [numRects - i]. *)
Fixpoint scan_up (rects : list Box) (pivot : Box) (k i : nat) : option nat :=
  match k with
  | O => None
  | S k =>
      let i := S i in
      if (k =? 0)%nat then Some i else
      match rects !! i with
      | Some r => if rect_lt r pivot then scan_up rects pivot k i else Some i
      | None => None
      end
  end.

(** [do { r--; j--; } while (pivot < *r)]. *)
Fixpoint scan_down (rects : list Box) (pivot : Box) (j : nat) : option nat :=
  match j with
  | O => None
  | S j =>
      match rects !! j with
      | Some r => if rect_lt pivot r then scan_down rects pivot j else Some j
      | None => None
      end
  end.

(** The loop that partitions the array; its result is the array and [j]. *)
Fixpoint partition (fuel : nat) (rects : list Box) (pivot : Box) (numRects i j : nat)
    : option (list Box * nat) :=
  match fuel with
  | O => None
  | S fuel =>
      i ← scan_up rects pivot (numRects - i) i;
      j ← scan_down rects pivot j;
      if (i <? j)%nat then
        rects ← ExchangeRects i j rects;
        partition fuel rects pivot numRects i j
      else Some (rects, j)
  end.

Fixpoint QuickSortRects (fuel : nat) (rects : list Box) (numRects : nat) : option (list Box) :=
  match fuel with
  | O => None
  | S fuel =>
      if (numRects =? 2)%nat then
        match rects !! 0%nat, rects !! 1%nat with
        | Some r0, Some r1 => if rect_lt r1 r0 then ExchangeRects 0 1 rects else Some rects
        | _, _ => None
        end
      else
        rects ← ExchangeRects 0 (numRects / 2) rects;
        pivot ← rects !! 0%nat;
        '(rects, j) ← partition (S numRects) rects pivot numRects 0 numRects;
        rects ← ExchangeRects 0 j rects;
        rects ← (if (1 <? numRects - j - 1)%nat
                 then right ← QuickSortRects fuel (drop (S j) rects) (numRects - j - 1);
                      Some (take (S j) rects ++ right)
                 else Some rects);
        if (1 <? j)%nat then QuickSortRects fuel rects j else Some rects
  end.

(** ** Correctness *)

Definition rect_le (p r : Box) : Prop := rect_lt r p = false.

#[export] Instance rect_le_preorder : PreOrder rect_le.
Proof. split; [intros p|intros p q r]; unfold rect_le, rect_lt; lia. Qed.

Lemma rect_lt_le p r : rect_lt p r = true -> rect_le p r.
Proof. unfold rect_le, rect_lt. lia. Qed.

Lemma ExchangeRects_spec a b l x y :
  l !! a = Some x -> l !! b = Some y ->
  exists l', ExchangeRects a b l = Some l' ∧ l' ≡ₚ l ∧ length l' = length l ∧
    l' !! a = Some y ∧ l' !! b = Some x ∧ (forall k, k ≠ a -> k ≠ b -> l' !! k = l !! k).
Proof.
  intros Ha Hb. unfold ExchangeRects. rewrite Ha, Hb. eexists. split; [done|].
  assert (Hla := lookup_lt_Some _ _ _ Ha). assert (Hlb := lookup_lt_Some _ _ _ Hb).
  split_and!.
  - destruct (decide (a = b)) as [->|Hne].
    { rewrite Ha in Hb. injection Hb as ->. by rewrite !list_insert_id by (rewrite ?list_insert_id; done). }
    apply (Permutation_inj _ l). rewrite !length_insert. split; [done|].
    exists (fun k => if decide (k = a) then b else if decide (k = b) then a else k). split.
    + intros k1 k2. repeat case_decide; congruence.
    + intros k. destruct (decide (k = b)) as [->|Hkb].
      * rewrite list_lookup_insert_eq by (by rewrite length_insert). repeat case_decide; congruence.
      * rewrite list_lookup_insert_ne by done. destruct (decide (k = a)) as [->|Hka].
        -- rewrite list_lookup_insert_eq by done. congruence.
        -- by rewrite list_lookup_insert_ne.
  - by rewrite !length_insert.
  - destruct (decide (a = b)) as [->|Hne].
    + rewrite list_lookup_insert_eq by (by rewrite length_insert). congruence.
    + by rewrite list_lookup_insert_ne, list_lookup_insert_eq.
  - by rewrite list_lookup_insert_eq by (by rewrite length_insert).
  - intros k Hka Hkb. by rewrite !list_lookup_insert_ne.
Qed.

Lemma scan_up_spec l p k i n :
  (n <= length l)%nat -> k = (n - i)%nat -> (i < n)%nat ->
  exists i', scan_up l p k i = Some i' ∧ (i < i' <= n)%nat ∧
    (forall m r, (i < m < i')%nat -> l !! m = Some r -> rect_lt r p = true) ∧
    (i' = n ∨ exists r, l !! i' = Some r ∧ rect_le p r).
Proof.
  revert i; induction k as [|k IH]; intros i Hn Hk Hi; [lia|]. simpl.
  destruct (Nat.eqb_spec k 0) as [->|Hk0].
  { exists (S i). split; [done|]. split; [lia|]. split; [intros; lia|left; lia]. }
  destruct (l !! S i) as [r|] eqn:Hr; [|apply lookup_ge_None in Hr; lia].
  destruct (rect_lt r p) eqn:Hlt.
  - destruct (IH (S i) Hn ltac:(lia) ltac:(lia)) as (i' & -> & ? & Hb & He).
    exists i'. split_and!; try lia; try done. intros m r' Hm Hr'.
    destruct (decide (m = S i)) as [->|]; [congruence|]. apply (Hb m); [lia|done].
  - exists (S i). split; [done|]. split; [lia|]. split; [intros; lia|]. right. by exists r.
Qed.

Lemma scan_down_spec l p j q :
  (j <= length l)%nat -> (q < j)%nat -> (exists r, l !! q = Some r ∧ rect_le r p) ->
  exists j', scan_down l p j = Some j' ∧ (q <= j' < j)%nat ∧
    (forall m r, (j' < m < j)%nat -> l !! m = Some r -> rect_lt p r = true) ∧
    (exists r, l !! j' = Some r ∧ rect_le r p).
Proof.
  induction j as [|j IH]; intros Hl Hq (r0 & Hr0 & Hle0); [lia|]. simpl.
  destruct (l !! j) as [r|] eqn:Hr; [|apply lookup_ge_None in Hr; lia].
  destruct (rect_lt p r) eqn:Hlt.
  - destruct (decide (q = j)) as [->|]; [unfold rect_le in *; congruence|].
    destruct (IH ltac:(lia) ltac:(lia) ltac:(by exists r0)) as (j' & -> & ? & Hb & He).
    exists j'. split_and!; try lia; try done. intros m r' Hm Hr'.
    destruct (decide (m = j)) as [->|]; [congruence|]. apply (Hb m); [lia|done].
  - exists j. split; [done|]. split; [lia|]. split; [intros; lia|]. by exists r.
Qed.

(** The partition loop: everything up to [i] is at most the pivot, everything from
    [j] on at least. *)
Definition part_inv (l : list Box) (p : Box) (n i j : nat) : Prop :=
  (i < n <= length l)%nat ∧ (i < j <= n)%nat ∧ l !! 0%nat = Some p ∧
  (forall k r, (k <= i)%nat -> l !! k = Some r -> rect_le r p) ∧
  (forall k r, (j <= k < n)%nat -> l !! k = Some r -> rect_le p r).

Lemma partition_spec fuel l p n i j :
  part_inv l p n i j -> (j - i < fuel)%nat ->
  exists l' j', partition fuel l p n i j = Some (l', j') ∧ l' ≡ₚ l ∧ length l' = length l ∧ (j' < n)%nat ∧
    l' !! 0%nat = Some p ∧ (forall k, (n <= k)%nat -> l' !! k = l !! k) ∧
    (forall k r, (k <= j')%nat -> l' !! k = Some r -> rect_le r p) ∧
    (forall k r, (j' < k < n)%nat -> l' !! k = Some r -> rect_le p r).
Proof.
  revert l i j; induction fuel as [|fuel IH]; intros l i j (Hi & Hj & H0 & Hlo & Hhi) Hfuel; [lia|]. simpl.
  destruct (scan_up_spec l p (n - i) i n) as (i' & -> & Hi' & Hup & Hstop); [lia|done|lia|]. simpl.
  destruct (scan_down_spec l p j i) as (j' & -> & Hj' & Hdown & (rj & Hrj & Hlej)); [lia|lia| |].
  { destruct (lookup_lt_is_Some_2 l i) as [r Hr]; [lia|]. exists r. split; [done|by eapply Hlo]. }
  simpl. destruct (Nat.ltb_spec i' j') as [Hij|Hij].
  - destruct Hstop as [->|(ri & Hri & Hlei)]; [lia|].
    destruct (ExchangeRects_spec i' j' l ri rj Hri Hrj) as (l1 & -> & Hp & Hl & Ha & Hb & Hk). simpl.
    destruct (IH l1 i' j') as (l2 & j2 & -> & Hp2 & Hl2 & Hj2 & Hz & Htl & Hlow & Hhigh); [|lia|].
    + unfold part_inv. rewrite Hl. split_and!; try lia.
      * rewrite Hk by lia. done.
      * intros k r Hki Hr. destruct (decide (k = i')) as [->|]; [by replace r with rj by congruence|].
        rewrite Hk in Hr by lia. destruct (decide (k <= i)%nat); [by eapply Hlo|].
        apply rect_lt_le, (Hup k); [lia|done].
      * intros k r Hki Hr. destruct (decide (k = j')) as [->|]; [by replace r with ri by congruence|].
        rewrite Hk in Hr by lia. destruct (decide (j <= k)%nat); [by apply (Hhi k); [lia|]|].
        apply rect_lt_le, (Hdown k); [lia|done].
    + exists l2, j2. split_and!; try done; [by rewrite Hp2|by rewrite Hl2|].
      intros k Hk'. rewrite Htl, Hk by lia. done.
  - exists l, j'. split_and!; try done; [lia| |].
    + intros k r Hki Hr. destruct (decide (k <= i)%nat); [by eapply Hlo|].
      destruct (decide (k < i')%nat); [apply rect_lt_le, (Hup k); [lia|done]|].
      assert (k = j') as -> by lia. by replace r with rj by congruence.
    + intros k r Hki Hr. destruct (decide (j <= k)%nat); [by apply (Hhi k); [lia|]|].
      apply rect_lt_le, (Hdown k); [lia|done].
Qed.

(** What sorting the first [n] boxes means. *)
Definition sorts (l : list Box) (n : nat) (l' : list Box) : Prop :=
  exists seg, l' = seg ++ drop n l ∧ seg ≡ₚ take n l ∧ StronglySorted rect_le seg.

Lemma sorts_short l n : (n <= 1)%nat -> sorts l n l.
Proof.
  intros Hn. exists (take n l). split; [by rewrite take_drop|]. split; [done|].
  destruct n as [|[|n]], l as [|x l]; simpl; try lia; repeat constructor.
Qed.

(** The array before the recursive calls: everything left of [j] is at most
    the box at [j], everything right of it at least. *)
Lemma sorts_split l l3 n j p l4 l5 :
  (j < n <= length l)%nat -> length l3 = length l -> l3 ≡ₚ l -> (forall k, (n <= k)%nat -> l3 !! k = l !! k) ->
  l3 !! j = Some p ->
  (forall k r, (k < j)%nat -> l3 !! k = Some r -> rect_le r p) ->
  (forall k r, (j < k < n)%nat -> l3 !! k = Some r -> rect_le p r) ->
  sorts (drop (S j) l3) (n - j - 1) l4 -> sorts (take (S j) l3 ++ l4) j l5 -> sorts l n l5.
Proof.
  intros Hj Hlen Hperm Htl Hp Hlow Hhigh (R & -> & HR & HsR) (L & -> & HL & HsL).
  rewrite drop_drop in *. replace (S j + (n - j - 1))%nat with n in * by lia.
  assert (Hdrop : drop n l3 = drop n l).
  { apply list_eq. intros k. rewrite !lookup_drop. apply Htl. lia. }
  assert (Hsplit : take (S j) l3 = take j l3 ++ [p]) by (by apply take_S_r).
  rewrite Hsplit in *. rewrite <- app_assoc in HL |- *.
  assert (length (take j l3) = j) as Hlj by (rewrite length_take; lia).
  rewrite (take_app_le (take j l3)) in HL by lia. rewrite (take_ge (take j l3)) in HL by lia.
  rewrite drop_app_ge by lia. rewrite Hlj, Nat.sub_diag. simpl.
  exists (L ++ p :: R). split; [by rewrite <- app_assoc, Hdrop|]. split.
  - assert (take n l3 = take j l3 ++ p :: take (n - j - 1) (drop (S j) l3)) as E.
    { rewrite <- (take_drop_middle l3 j p Hp) at 1. rewrite take_app_ge by lia. rewrite Hlj.
      assert (Hnj : (n - j = S (n - j - 1))%nat) by lia. by rewrite Hnj at 1. }
    rewrite HL, HR, <- E. apply (Permutation_app_inv_r (drop n l)). rewrite <- Hdrop at 1.
    by rewrite !take_drop.
  - assert (forall r, r ∈ L -> rect_le r p) as HLp.
    { intros r [k Hk]%(list_elem_of_lookup_1). assert (r ∈ take j l3) as Hin by (rewrite <- HL; by eapply list_elem_of_lookup_2).
      apply list_elem_of_lookup_1 in Hin as [k' Hk']. apply lookup_take_Some in Hk' as [? ?]. by apply (Hlow k'). }
    assert (forall r, r ∈ R -> rect_le p r) as HRp.
    { intros r Hin. rewrite HR in Hin. apply list_elem_of_lookup_1 in Hin as [k' Hk'].
      apply lookup_take_Some in Hk' as [Hk' ?]. rewrite lookup_drop in Hk'. apply (Hhigh (S j + k')%nat); [lia|done]. }
    apply StronglySorted_app. split_and!; [|done|].
    + intros x1 x2 H1 [->|H2]%elem_of_cons; [by apply HLp|]. etrans; [by apply HLp|by apply HRp].
    + constructor; [done|]. apply Forall_forall. done.
Qed.

Lemma QuickSortRects_sorts fuel l n :
  (1 <= n <= length l)%nat -> (n <= fuel)%nat ->
  exists l', QuickSortRects fuel l n = Some l' ∧ sorts l n l'.
Proof.
  revert l n; induction fuel as [|fuel IH]; intros l n Hn Hf; [lia|]. cbn [QuickSortRects].
  destruct (Nat.eqb_spec n 2) as [->|Hn2].
  { destruct l as [|r0 [|r1 l]]; simpl in *; try lia.
    destruct (rect_lt r1 r0) eqn:Hlt.
    - exists (r1 :: r0 :: l). split; [done|]. exists [r1; r0]. split; [done|]. split; [by constructor|].
      repeat constructor. by apply rect_lt_le.
    - exists (r0 :: r1 :: l). split; [done|]. exists [r0; r1]. split; [done|]. split; [done|].
      by repeat constructor. }
  destruct (lookup_lt_is_Some_2 l 0) as [x Hx]; [lia|].
  destruct (lookup_lt_is_Some_2 l (n / 2)) as [p Hp]; [pose proof (Nat.div_lt n 2); lia|].
  destruct (ExchangeRects_spec _ _ _ _ _ Hx Hp) as (l1 & -> & Hp1 & Hl1 & H0 & _ & Hk1). cbn [mbind option_bind].
  rewrite H0. cbn [mbind option_bind].
  destruct (partition_spec (S n) l1 p n 0 n) as (l2 & j & Hpart & Hp2 & Hl2 & Hj & H02 & Hk2 & Hlow & Hhigh).
  { unfold part_inv. split_and!; try done; try lia; intros k r Hk Hr.
    assert (k = 0%nat) as -> by lia. by replace r with p by congruence. } { lia. }
  rewrite Hpart. cbn [mbind option_bind].
  destruct (lookup_lt_is_Some_2 l2 j) as [q Hq]; [lia|].
  destruct (ExchangeRects_spec _ _ _ _ _ H02 Hq) as (l3 & -> & Hp3 & Hl3 & H03 & Hj3 & Hk3). cbn [mbind option_bind].
  assert (Hright : exists l4,
    (if (1 <? n - j - 1)%nat then right ← QuickSortRects fuel (drop (S j) l3) (n - j - 1); Some (take (S j) l3 ++ right)
     else Some l3) = Some (take (S j) l3 ++ l4) ∧ sorts (drop (S j) l3) (n - j - 1) l4).
  { destruct (Nat.ltb_spec 1 (n - j - 1)).
    - destruct (IH (drop (S j) l3) (n - j - 1)%nat) as (l4 & -> & ?); [rewrite length_drop; lia|lia|]. by exists l4.
    - exists (drop (S j) l3). rewrite take_drop. split; [done|]. by apply sorts_short. }
  destruct Hright as (l4 & -> & Hs4). cbn [mbind option_bind].
  assert (Hleft : exists l5, (if (1 <? j)%nat then QuickSortRects fuel (take (S j) l3 ++ l4) j
                              else Some (take (S j) l3 ++ l4)) = Some l5 ∧ sorts (take (S j) l3 ++ l4) j l5).
  { destruct (Nat.ltb_spec 1 j); [|eexists; split; [done|by apply sorts_short]].
    apply IH; [|lia]. rewrite length_app, length_take. lia. }
  destruct Hleft as (l5 & -> & Hs5). exists l5. split; [done|].
  apply (sorts_split l l3 n j p l4); try done; [lia|lia|by rewrite Hp3, Hp2| | |].
  - intros k Hk. rewrite Hk3 by lia. rewrite Hk2 by lia. by apply Hk1; [lia|pose proof (Nat.div_lt n 2); lia].
  - intros k r Hk Hr. destruct (decide (k = 0%nat)) as [->|].
    + replace r with q by congruence. by apply (Hlow j); [lia|].
    + rewrite Hk3 in Hr by lia. by apply (Hlow k); [lia|].
  - intros k r Hk Hr. rewrite Hk3 in Hr by lia. by apply (Hhigh k); [lia|].
Qed.
