(* ===== verification/RegionValidate.v ===== *)
(** * RegionValidate: batch union of rectangles

    [RegionAppend], [RegionValidate] and [RegionFromRects] of dix/region.c: a
    random collection of boxes is sorted, scattered over as many banded regions
    as needed, and the regions are merged pairwise with [RegionOp].  The proofs
    are in RegionBatch.v. *)

From stdpp Require Import base numbers list sorting.
From S2P Require Import Prelude Bands Region RegionOp RegionSort.

(** ** RegionAppend

    [rgn] and [dstrgn] are different regions; the [memmove] that makes room in front
    and the one that copies the boxes are list concatenations. *)

(** [first] starts below [last], or in its band and to its right. *)
Definition follows (first last : Box) : bool :=
  (y2 last <? y1 first) ||
  ((y1 first =? y1 last) && (y2 first =? y2 last) && (x2 last <? x1 first)).

(** Boxes stored in front of those the block holds. *)
Definition push_front (reg : Region) (bs : list Box) : Region :=
  match data reg with
  | HeapData size num boxes =>
      set_data reg (HeapData size (num + length bs)
                      (bs ++ take num boxes ++ drop (num + length bs) boxes))
  | _ => reg
  end.

(** The extents after the append, and whether the boxes go in front. *)
Definition append_extents (dst rgn : Region) (dnumRects : nat) : Box * bool :=
  let e := extents dst in
  let r := extents rgn in
  let old := RegionRects rgn in
  let first_old := default RegionEmptyBox (head old) in
  let last_old := default RegionEmptyBox (last old) in
  let first_dst := default RegionEmptyBox (head (RegionBoxptr dst)) in
  let last_dst := default RegionEmptyBox (RegionBoxptr dst !! (dnumRects - 1)%nat) in
  if (dnumRects =? 0)%nat then (r, false)
  else if x1 e <? x2 e then
    if follows first_old last_dst then
      (mkBox (Z.min (x1 r) (x1 e)) (y1 e) (Z.max (x2 r) (x2 e)) (y2 r), false)
    else if follows first_dst last_old then
      (mkBox (Z.min (x1 r) (x1 e)) (y1 r) (Z.max (x2 r) (x2 e)) (y2 e), true)
    else (mkBox (x1 e) (y1 e) (x1 e) (y2 e), false)
  else (e, false).

Definition RegionAppend (dstrgn rgn : Region) (m : Mem) : bool * Region * Mem :=
  if RegionNar rgn then (false, RegionBreak dstrgn, m) else
  match data rgn, data dstrgn with
  | NullData, EmptyData => (true, mkRegion (extents rgn) NullData, m)
  | _, _ =>
      let numRects := RegionNumRects rgn in
      if (numRects =? 0)%nat then (true, dstrgn, m) else
      let dnumRects := RegionNumRects dstrgn in
      let size := if (dnumRects =? 0)%nat && (numRects <? 200)%nat then 200%nat else numRects in
      let '(ok, dst, m) := RECTALLOC dstrgn size m in
      if negb ok then (false, dst, m) else
      let '(e, prepend) := append_extents dst rgn dnumRects in
      let dst := set_extents dst e in
      (true, (if prepend then push_front else push_boxes) dst (RegionRects rgn), m)
  end.

(** ** RegionValidate *)

(** [RegionInfo]: a region under construction, where its previous and its current
    band start. *)
Record RegionInfo := mkRI { rreg : Region; rprev : nat; rcur : nat }.

(** Runs that leave the model: a read outside the array being sorted or scattered,
    a read of the array after it moved, a block freed twice, and an error of
    [RegionOp]. *)
Inductive ValError :=
  | OutOfArray
  | DanglingBox
  | DoubleFree (m : Mem)
  | OpFailed (e : OpError) (m : Mem).

(** [riBox->x2 = x]. *)
Definition set_end_x2 (reg : Region) (x : Z) : Region :=
  match data reg with
  | HeapData size num boxes =>
      set_data reg (HeapData size num
        (alter (fun b => mkBox (x1 b) (y1 b) x (y2 b)) (num - 1)%nat boxes))
  | _ => reg
  end.

(** [RECTALLOC_BAIL(reg, 1, bail); *RegionTop(reg) = *box; reg->data->numRects++]. *)
Definition append_box (ri : RegionInfo) (box : Box) (m : Mem) : bool * RegionInfo * Mem :=
  let '(ok, reg, m) := RECTALLOC (rreg ri) 1 m in
  (ok, mkRI (if ok then push_boxes reg [box] else reg) (rprev ri) (rcur ri), m).

(** A box offered to one region; [None] when it does not fit there. *)
Definition place1 (box : Box) (ri : RegionInfo) (ov : bool) (m : Mem)
    : option (bool * RegionInfo * bool * Mem) :=
  let reg := rreg ri in
  let riBox := RegionEnd reg in
  if (y1 box =? y1 riBox) && (y2 box =? y2 riBox) then
    if x1 box <=? x2 riBox then
      Some (true, mkRI (if x2 riBox <? x2 box then set_end_x2 reg (x2 box) else reg) (rprev ri) (rcur ri),
            ov || (x1 box <? x2 riBox), m)
    else
      let '(ok, ri, m) := append_box ri box m in Some (ok, ri, ov, m)
  else if y2 riBox <=? y1 box then
    let e := extents reg in
    let reg := set_extents reg (mkBox (Z.min (x1 e) (x1 box)) (y1 e) (Z.max (x2 e) (x2 riBox)) (y2 e)) in
    let '(reg, prevBand) := Coalesce reg (rprev ri) (rcur ri) in
    let '(ok, ri, m) := append_box (mkRI reg prevBand (RegionNumRects reg)) box m in
    Some (ok, ri, ov, m)
  else None.

(** The loop over the regions. *)
Fixpoint place (box : Box) (ris : list RegionInfo) (ov : bool) (m : Mem)
    : option (bool * list RegionInfo * bool * Mem) :=
  match ris with
  | [] => None
  | ri :: ris =>
      match place1 box ri ov m with
      | Some (ok, ri, ov, m) => Some (ok, ri :: ris, ov, m)
      | None =>
          match place box ris ov m with
          | Some (ok, ris, ov, m) => Some (ok, ri :: ris, ov, m)
          | None => None
          end
      end
  end.

(** The malloc and reallocarray of the array of [RegionInfo]. *)
Definition alloc_ri (m : Mem) : bool * Mem :=
  let '(ok, o) := alloc (outcomes m) in (ok, mkMem o (oom m || negb ok)).

(** No region was appropriate: make a new one at the end of the array. *)
Definition new_info (box : Box) (i sizeRI : nat) (ris : list RegionInfo) (m : Mem)
    : bool * list RegionInfo * nat * Mem :=
  let full := (sizeRI =? length ris)%nat in
  let '(ok, m) := if full then alloc_ri m else (true, m) in
  let sizeRI := if full then (2 * sizeRI)%nat else sizeRI in
  if negb ok then (false, ris, sizeRI, m) else
  let numRI := S (length ris) in
  let '(ok, reg, m) := RegionRectAlloc (mkRegion box NullData) ((i + numRI) / numRI) m in
  (ok, ris ++ [mkRI reg 0 0], sizeRI, m).

(** What step 2 ends with: an error, [goto bail] with the regions made so far, or
    the regions. *)
Inductive Scatter :=
  | ScError (e : ValError)
  | ScBail (ris : list RegionInfo) (ov : bool) (m : Mem)
  | ScDone (ris : list RegionInfo) (ov : bool) (m : Mem).

(** The array the boxes are read from belongs to the first region. *)
Definition box_array (ris : list RegionInfo) : list Box :=
  match ris with ri :: _ => RegionBoxptr (rreg ri) | [] => [] end.
Definition box_room (ris : list RegionInfo) : nat :=
  match ris with ri :: _ => RegionSize (rreg ri) | [] => O end.

(** [for (i = numRects; --i > 0;) { box++; ... }]: [i] boxes are left. *)
Fixpoint scatter (numRects i sizeRI : nat) (ris : list RegionInfo) (ov : bool) (m : Mem) : Scatter :=
  match i with
  | O => ScDone ris ov m
  | S i' =>
      match box_array ris !! (numRects - i)%nat with
      | None => ScError OutOfArray
      | Some box =>
          match place box ris ov m with
          | Some (ok, ris', ov, m) =>
              if negb (box_room ris' =? box_room ris)%nat then ScError DanglingBox
              else if ok then scatter numRects i' sizeRI ris' ov m
              else ScBail ris' ov m
          | None =>
              let '(ok, ris', sizeRI, m) := new_info box i sizeRI ris m in
              if ok then scatter numRects i' sizeRI ris' ov m
              else ScBail ris' ov m
          end
      end
  end.

(** The final pass of step 2. *)
Definition close_info (ri : RegionInfo) : Region :=
  let reg := rreg ri in
  let e := extents reg in
  let riBox := RegionEnd reg in
  let reg := set_extents reg (mkBox (x1 e) (y1 e) (Z.max (x2 e) (x2 riBox)) (y2 riBox)) in
  let '(reg, _) := Coalesce reg (rprev ri) (rcur ri) in
  if (RegionNumRects reg =? 1)%nat then set_data reg NullData else reg.

Definition hull (e h : Box) : Box :=
  mkBox (Z.min (x1 e) (x1 h)) (Z.min (y1 e) (y1 h)) (Z.max (x2 e) (x2 h)) (Z.max (y2 e) (y2 h)).

(** One merge of step 3. *)
Definition merge1 (reg hreg : Region) (ov : bool) (m : Mem) : ValError + (bool * Region * bool * Mem) :=
  match RegionOp RegionUnionO true true reg reg hreg true false ov m with
  | inl e => inl (OpFailed e m)
  | inr (ok, reg, ov, m) => inr (ok, set_extents reg (hull (extents reg) (extents hreg)), ov, m)
  end.

(** The for loop of step 3 over the regions of the two halves. *)
Fixpoint merge_pairs (regs hregs : list Region) (ret ov : bool) (m : Mem)
    : ValError + (bool * list Region * bool * Mem) :=
  match regs, hregs with
  | reg :: regs, hreg :: hregs =>
      match merge1 reg hreg ov m with
      | inl e => inl e
      | inr (ok, reg, ov, m) =>
          match merge_pairs regs hregs (ret && ok) ov m with
          | inl e => inl e
          | inr (ret, regs, ov, m) => inr (ret, reg :: regs, ov, m)
          end
      end
  | _, _ => inr (ret, [], ov, m)
  end.

(** [while (numRI > 1)]. *)
Fixpoint merge_all (fuel : nat) (regs : list Region) (ret ov : bool) (m : Mem)
    : ValError + (bool * list Region * bool * Mem) :=
  match fuel with
  | O => inr (ret, regs, ov, m)
  | S fuel =>
      let numRI := length regs in
      if (1 <? numRI)%nat then
        let half := (numRI / 2)%nat in
        let odd := (numRI mod 2)%nat in
        match merge_pairs (take half (drop odd regs)) (drop (half + odd) regs) ret ov m with
        | inl e => inl e
        | inr (ret, merged, ov, m) => merge_all fuel (take odd regs ++ merged) ret ov m
        end
      else inr (ret, regs, ov, m)
  end.

(** The bail exit frees the block of every region made so far, then breaks
    [badreg], whose block the first of them shares. *)
Definition bail (badreg : Region) (ris : list RegionInfo) (ov : bool) (m : Mem)
    : ValError + (bool * Region * bool * Mem) :=
  if (0 <? box_room ris)%nat then inl (DoubleFree m) else inr (false, RegionBreak badreg, ov, m).

Definition RegionValidate (badreg : Region) (m : Mem) : ValError + (bool * Region * bool * Mem) :=
  match data badreg with
  | NullData => inr (true, badreg, false, m)
  | HeapData size (S n) boxes =>
      let numRects := S n in
      if x1 (extents badreg) <? x2 (extents badreg) then
        if (numRects =? 1)%nat then inr (true, set_data badreg NullData, false, m)
        else let '(reg, m) := DOWNSIZE badreg numRects m in inr (true, reg, false, m)
      else
        match QuickSortRects numRects boxes numRects with
        | Some ((box :: _) as boxes) =>
            let '(ok, m) := alloc_ri m in
            if negb ok then inr (false, RegionBreak badreg, false, m) else
            let ri := mkRI (mkRegion box (HeapData size 1 boxes)) 0 0 in
            match scatter numRects n 4 [ri] false m with
            | ScError e => inl e
            | ScBail ris ov m => bail badreg ris ov m
            | ScDone ris ov m =>
                match merge_all (length ris) (map close_info ris) true ov m with
                | inr (ret, reg :: _, ov, m) => inr (ret, reg, ov, m)
                | inr (_, [], _, _) => inl OutOfArray
                | inl e => inl e
                end
            end
        | _ => inl OutOfArray
        end
  | _ => inr (negb (RegionNar badreg), badreg, false, m)
  end.

(** ** RegionFromRects *)

(** [xRectangle]: INT16 corner, CARD16 size. *)
Record xRectangle := mkRect { rx : Z; ry : Z; rwidth : Z; rheight : Z }.

Definition MAXSHORT : Z := 32767.

(** The box of a rectangle, or nothing when its clipped size is empty. *)
Definition rect_box (r : xRectangle) : option Box :=
  let x2 := if MAXSHORT <? rx r + rwidth r then MAXSHORT else rx r + rwidth r in
  let y2 := if MAXSHORT <? ry r + rheight r then MAXSHORT else ry r + rheight r in
  if negb (rx r =? x2) && negb (ry r =? y2) then Some (mkBox (rx r) (ry r) x2 y2) else None.

(** [banded] is [ctype == CT_YXBANDED]. *)
Definition RegionFromRects (rects : list xRectangle) (banded : bool) (m : Mem)
    : ValError + (Region * Mem) :=
  let '(pRgn, m) := RegionCreate None 0 m in
  if RegionNar pRgn then inr (pRgn, m) else
  match rects with
  | [] => inr (pRgn, m)
  | [r] => match rect_box r with
           | Some b => inr (mkRegion b NullData, m)
           | None => inr (pRgn, m)
           end
  | _ =>
      let '(ok, m) := alloc_rects (length rects) m in
      if negb ok then inr (RegionBreak pRgn, m) else
      match omap rect_box rects with
      | [] => inr (pRgn, m)
      | boxes =>
          let reg := set_data pRgn (HeapData (length rects) (length boxes) boxes) in
          if banded then inr (RegionSetExtents reg, m) else
          let e := extents reg in
          match RegionValidate (set_extents reg (mkBox 0 (y1 e) 0 (y2 e))) m with
          | inl e => inl e
          | inr (_, reg, _, m) => inr (reg, m)
          end
      end
  end.
