(* ===== verification/RegionBatch.v ===== *)
(** * RegionBatch: correctness of the batch operations of RegionValidate.v

    [RegionValidate] returns the canonical region of the points its boxes cover,
    with exact extents, and reports an overlap exactly when some point lies in two
    boxes.  The order of the boxes does not matter, because a canonical rectangle
    list is determined by its points. *)

From stdpp Require Import base numbers list sorting.
From S2P Require Import Prelude Bands Region RegionOp RegionSweep RegionSort RegionValidate.

(** ** Exact bounding boxes *)

Definition tight (e : Box) (P : Z -> Z -> Prop) : Prop :=
  (forall x y, P x y -> in_box e (x, y) = true) ∧
  (exists y, P (x1 e) y) ∧ (exists y, P (x2 e - 1) y) ∧
  (exists x, P x (y1 e)) ∧ (exists x, P x (y2 e - 1)).

Lemma tight_ext e P P' : tight e P -> (forall x y, P x y <-> P' x y) -> tight e P'.
Proof.
  intros (H & H1 & H2 & H3 & H4) He. unfold tight. setoid_rewrite <- He. done.
Qed.

Lemma tight_box b : nonempty_box b -> tight b (fun x y => in_box b (x, y) = true).
Proof.
  intros [? ?]. split; [done|].
  split; [exists (y1 b)|split; [exists (y1 b)|split; [exists (x1 b)|exists (x1 b)]]]; apply in_box_spec; lia.
Qed.

(** The exact box of a union. *)
Lemma tight_union e h P Q :
  tight e P -> tight h Q -> tight (hull e h) (fun x y => P x y ∨ Q x y).
Proof.
  intros (HP & Pl & Pr & Pt & Pb) (HQ & Ql & Qr & Qt & Qb). unfold hull. split.
  - intros x y [H%HP|H%HQ]; apply in_box_spec in H; apply in_box_spec; simpl; lia.
  - simpl. split_and!.
    + destruct (Z.min_spec (x1 e) (x1 h)) as [[_ ->]|[_ ->]]; [destruct Pl|destruct Ql]; eauto.
    + destruct (Z.max_spec (x2 e) (x2 h)) as [[_ ->]|[_ ->]]; [destruct Qr|destruct Pr]; eauto.
    + destruct (Z.min_spec (y1 e) (y1 h)) as [[_ ->]|[_ ->]]; [destruct Pt|destruct Qt]; eauto.
    + destruct (Z.max_spec (y2 e) (y2 h)) as [[_ ->]|[_ ->]]; [destruct Qb|destruct Pb]; eauto.
Qed.

Lemma tight_unique e h P : tight e P -> tight h P -> e = h.
Proof.
  intros (HP & [yl Pl] & [yr Pr] & [xt Pt] & [xb Pb]) (HQ & [yl' Ql] & [yr' Qr] & [xt' Qt] & [xb' Qb]).
  apply HQ, in_box_spec in Pl, Pr, Pt, Pb. apply HP, in_box_spec in Ql, Qr, Qt, Qb.
  destruct e, h; simpl in *. f_equal; lia.
Qed.

(** ** Canonical lists are determined by their points *)

(** The row where a list of bands may start. *)
Lemma bands_first_row c lo ps bs :
  bands_from c lo ps bs ->
  (forall x, ¬ in_bands x lo bs) ∨
  exists b s bs', bs = (lo, b, s) :: bs' ∧ (c = true -> ps ≠ s) ∧ spans_ok s ∧ s ≠ [] ∧
    forall x, in_bands x lo bs <-> in_spans x s.
Proof.
  destruct bs as [|[[t b] s] bs]; [intros _; left; by intros x []|]. intros (Hlo & Htb & Hne & Hs & Hc & Hbs).
  assert (Hrest : forall x y, y < b -> ¬ in_bands x y bs)
    by (intros x y Hy Hin; apply (bands_from_lower _ _ _ _ _ _ Hbs) in Hin; lia).
  destruct (decide (lo = t)) as [<-|].
  - right. exists b, s, bs. split_and!; try done; [by intros ->; apply Hc|]. intros x. simpl. split; [|by left; split; [lia|]].
    intros [[_ ?]|Hin]; [done|]. by apply Hrest in Hin; [|lia].
  - left. intros x [[? _]|Hin]; [lia|]. apply Hrest in Hin; [done|lia].
Qed.

(** Two bands of the same top and points, one ending above the other: the shorter
    one would have to be followed by a band it coalesces with. *)
Lemma bands_bottom lo b1 b2 s bs1 bs2 :
  bands_from true b1 s bs1 -> s ≠ [] -> spans_ok s -> lo < b1 ->
  (forall x y, in_bands x y ((lo, b1, s) :: bs1) <-> in_bands x y ((lo, b2, s) :: bs2)) ->
  bands_from true b2 s bs2 -> ¬ b1 < b2.
Proof.
  intros H1 Hne Hs Hlo Heq H2 Hlt.
  assert (Hrow : forall x, in_bands x b1 bs1 <-> in_spans x s).
  { intros x. specialize (Heq x b1). simpl in Heq. split.
    - intros Hin. destruct (proj1 Heq (or_intror Hin)) as [[_ ?]|Hin2]; [done|].
      apply (bands_from_lower _ _ _ _ _ _ H2) in Hin2. lia.
    - intros Hin. destruct (proj2 Heq) as [[? _]|]; [by left; split; [lia|]|lia|done]. }
  destruct (spans_inhabited s Hs Hne) as [x0 Hx0].
  destruct (bands_first_row _ _ _ _ H1) as [Hno|(b & s' & bs' & _ & Hc & Hs' & _ & Hin)].
  - by apply (Hno x0), Hrow.
  - apply (Hc eq_refl), spans_unique; try done. intros x. by rewrite <- Hrow.
Qed.

Lemma bands_unique bs1 bs2 lo1 lo2 ps1 ps2 :
  bands_from true lo1 ps1 bs1 -> bands_from true lo2 ps2 bs2 ->
  (forall x y, in_bands x y bs1 <-> in_bands x y bs2) -> bs1 = bs2.
Proof.
  revert bs2 lo1 lo2 ps1 ps2; induction bs1 as [|[[t1 b1] s1] bs1 IH];
    intros [|[[t2 b2] s2] bs2] lo1 lo2 ps1 ps2 H1 H2 Heq; [done| | |].
  { destruct H2 as (_ & ? & Hne & Hs & _). destruct (spans_inhabited s2 Hs Hne) as [x Hx].
    destruct (proj2 (Heq x t2)). left. split; [lia|done]. }
  { destruct H1 as (_ & ? & Hne & Hs & _). destruct (spans_inhabited s1 Hs Hne) as [x Hx].
    destruct (proj1 (Heq x t1)). left. split; [lia|done]. }
  destruct H1 as (_ & Ht1 & Hn1 & Hs1 & _ & H1), H2 as (_ & Ht2 & Hn2 & Hs2 & _ & H2).
  assert (Hlow1 := fun x y => bands_from_lower _ _ _ _ x y H1).
  assert (Hlow2 := fun x y => bands_from_lower _ _ _ _ x y H2).
  assert (t1 = t2) as <-.
  { destruct (spans_inhabited s1 Hs1 Hn1) as [x Hx], (spans_inhabited s2 Hs2 Hn2) as [x' Hx'].
    destruct (proj1 (Heq x t1)) as [[? _]|?%Hlow2]; [left; split; [lia|done]|..];
    destruct (proj2 (Heq x' t2)) as [[? _]|?%Hlow1]; try (left; split; [lia|done]); lia. }
  assert (s1 = s2) as <-.
  { apply spans_unique; try done. intros x. specialize (Heq x t1). simpl in Heq. split; intros Hx.
    - destruct (proj1 Heq) as [[_ ?]|?%Hlow2]; [left; split; [lia|done]|done|lia].
    - destruct (proj2 Heq) as [[_ ?]|?%Hlow1]; [left; split; [lia|done]|done|lia]. }
  assert (b1 = b2) as <-.
  { assert (¬ b1 < b2) by (by eapply (bands_bottom t1 b1 b2)).
    assert (¬ b2 < b1) by (eapply (bands_bottom t1 b2 b1 s1 bs2 bs1); try done; intros; by rewrite Heq). lia. }
  f_equal. eapply IH; [exact H1|exact H2|]. intros x y. specialize (Heq x y). simpl in Heq.
  split; intros Hin.
  - destruct (proj1 Heq (or_intror Hin)) as [[? _]|]; [|done]. apply Hlow1 in Hin. lia.
  - destruct (proj2 Heq (or_intror Hin)) as [[? _]|]; [|done]. apply Hlow2 in Hin. lia.
Qed.

Lemma canonical_unique l1 l2 :
  canonical l1 -> canonical l2 -> (forall p, in_rects l1 p <-> in_rects l2 p) -> l1 = l2.
Proof.
  intros (bs1 & -> & lo1 & H1) (bs2 & -> & lo2 & H2) Heq. f_equal.
  eapply bands_unique; [done|done|]. intros x y. by rewrite <- !in_rects_flat.
Qed.

(** ** Extents computed by a scan, and RegionIsValid *)

(** One step of the scans in [RegionIsValid] and [RegionSetExtents]. *)
Definition widen (e b : Box) : Box := mkBox (Z.min (x1 e) (x1 b)) (y1 e) (Z.max (x2 e) (x2 b)) (y2 e).

Lemma widen_fold l e0 :
  let e := foldl widen e0 l in
  y1 e = y1 e0 ∧ y2 e = y2 e0 ∧ x1 e <= x1 e0 ∧ x2 e0 <= x2 e ∧
  (forall b, b ∈ l -> x1 e <= x1 b ∧ x2 b <= x2 e) ∧
  (x1 e = x1 e0 ∨ exists b, b ∈ l ∧ x1 e = x1 b) ∧ (x2 e = x2 e0 ∨ exists b, b ∈ l ∧ x2 e = x2 b).
Proof.
  revert e0; induction l as [|b l IH]; intros e0; simpl.
  { split_and!; try done; try lia; by intros b ?%not_elem_of_nil. }
  destruct (IH (widen e0 b)) as (-> & -> & H1 & H2 & Hb & Hl & Hr). simpl in *.
  split_and!; try done; try lia.
  - intros b' [->|Hin]%elem_of_cons; [lia|by apply Hb].
  - destruct Hl as [Hl|(b' & ? & ?)]; [|right; exists b'; split; [by right|done]].
    rewrite Hl. destruct (Z.min_spec (x1 e0) (x1 b)) as [[_ ->]|[_ ->]]; [by left|right; exists b; split; [by left|done]].
  - destruct Hr as [Hr|(b' & ? & ?)]; [|right; exists b'; split; [by right|done]].
    rewrite Hr. destruct (Z.max_spec (x2 e0) (x2 b)) as [[_ ->]|[_ ->]]; [right; exists b; split; [by left|done]|by left].
Qed.

Lemma bboxes_nonempty t b s lo : t < b -> spans_from lo s -> Forall nonempty_box (bboxes t b s).
Proof.
  intros Htb. revert lo; induction s as [|[a a'] s IH]; simpl; intros lo; [constructor|].
  intros (? & ? & Hs). constructor; [split; simpl; lia|by eapply IH].
Qed.

Lemma banded_nonempty c l : banded c l -> Forall nonempty_box l.
Proof.
  intros (bs & -> & lo & H0). revert lo H0. generalize (@nil span) as ps.
  induction bs as [|[[t b] s] bs IH]; simpl; intros ps lo; [constructor|].
  intros (_ & Htb & _ & [lo' Hs] & _ & H). apply Forall_app. split; [by eapply bboxes_nonempty|by eapply IH].
Qed.

Lemma in_rects_elem l b x y : b ∈ l -> in_box b (x, y) = true -> in_rects l (x, y).
Proof. intros ? ?. apply Exists_exists. by exists b. Qed.

(** First box on top, last box at the bottom. *)
Lemma banded_top_bottom c p rest :
  banded c (p :: rest) ->
  forall x y, in_rects (p :: rest) (x, y) -> y1 p <= y < y2 (default p (last (p :: rest))).
Proof.
  intros (bs & Hbs & lo & H) x y. rewrite Hbs, in_rects_flat. intros Hin.
  destruct bs as [|[[t b] [|[a a'] s]] bs'] eqn:E; [done|simpl in H; tauto|]. rewrite <- E in *.
  assert (t <= y) as Hlow.
  { rewrite E in Hin, H. destruct Hin as [[? _]|Hin]; [lia|]. simpl in H.
    destruct H as (_ & ? & _ & _ & _ & H). apply (bands_from_lower _ _ _ _ _ _ H) in Hin. lia. }
  assert (y1 p = t) as -> by (rewrite E in Hbs; by injection Hbs as -> _).
  split; [done|]. apply (bands_from_upper _ _ _ _ _ _ H) in Hin. eapply Z.lt_le_trans; [exact Hin|].
  destruct (exists_last (l := bs)) as (bs0 & [[t' b'] s'] & E'); [by rewrite E|].
  rewrite E' in H |- *. rewrite lbot_snoc. apply bands_from_app in H as [_ H]. simpl in H.
  destruct (exists_last (l := s')) as (s0 & [q q'] & ->); [tauto|].
  rewrite flat_app; simpl. unfold bboxes. rewrite map_app, app_nil_r, app_assoc. simpl. by rewrite last_snoc.
Qed.

Lemma banded_tight c p rest e :
  let l := p :: rest in
  banded c l -> (forall b, b ∈ l -> x1 e <= x1 b ∧ x2 b <= x2 e) ->
  (exists b, b ∈ l ∧ x1 e = x1 b) -> (exists b, b ∈ l ∧ x2 e = x2 b) ->
  y1 e = y1 p -> y2 e = y2 (default p (last l)) -> tight e (fun x y => in_rects l (x, y)).
Proof.
  intros l Hl Hx (bl & Hbl & Hl1) (br & Hbr & Hr1) Hy1 Hy2.
  assert (Hne := banded_nonempty _ _ Hl). rewrite Forall_forall in Hne.
  pose proof (banded_top_bottom _ _ _ Hl) as Hy. fold l in Hy.
  assert (Hp : p ∈ l) by left.
  assert (Hlast : default p (last l) ∈ l).
  { destruct (last l) as [q|] eqn:E; [|done]. simpl. by apply last_Some_elem_of. }
  split_and!.
  - intros x y Hin. apply Hy in Hin as ?. apply Exists_exists in Hin as (b & Hb & Hin%in_box_spec).
    apply Hx in Hb. apply in_box_spec. lia.
  - exists (y1 bl). destruct (Hne _ Hbl). apply (in_rects_elem _ bl); [done|]. apply in_box_spec. lia.
  - exists (y1 br). destruct (Hne _ Hbr). apply (in_rects_elem _ br); [done|]. apply in_box_spec. lia.
  - exists (x1 p). destruct (Hne _ Hp). apply (in_rects_elem _ p); [done|]. apply in_box_spec. lia.
  - exists (x1 (default p (last l))). destruct (Hne _ Hlast). apply (in_rects_elem _ (default p (last l))); [done|].
    apply in_box_spec. lia.
Qed.

Lemma valid_steps_flat c s p t b bs ps box :
  y1 p = t -> y2 p = b -> t < b -> spans_from (x2 p) s -> bands_from c b ps bs ->
  valid_steps p (bboxes t b s ++ flat bs) box = Some (foldl widen box (bboxes t b s ++ flat bs)).
Proof.
  revert s p t b ps box; induction bs as [|[[t' b'] s'] bs IH].
  - intros s; induction s as [|[a a'] s IHs]; intros p t b ps box <- <- Htb Hs Hbs; [done|]. simpl in Hs |- *.
    destruct Hs as (? & ? & Hs). rewrite !Z.ltb_irrefl, !Z.eqb_refl, !(proj2 (Z.leb_gt _ _)) by lia. simpl.
    rewrite (proj2 (Z.ltb_ge _ _)) by lia. simpl. by eapply IHs.
  - intros s; induction s as [|[a a'] s IHs]; intros p t b ps box <- <- Htb Hs Hbs.
    + destruct Hbs as (? & ? & Hne & [lo Hs'] & _ & Hbs). destruct s' as [|[a a'] s']; [done|]. simpl in Hs' |- *.
      destruct Hs' as (? & ? & Hs'). rewrite !(proj2 (Z.leb_gt _ _)) by lia. simpl.
      rewrite (proj2 (Z.ltb_ge _ _)), (proj2 (Z.eqb_neq _ _)) by lia. simpl. by eapply IH.
    + simpl in Hs |- *.
      destruct Hs as (? & ? & Hs). rewrite !Z.ltb_irrefl, !Z.eqb_refl, !(proj2 (Z.leb_gt _ _)) by lia. simpl.
      rewrite (proj2 (Z.ltb_ge _ _)) by lia. simpl. by eapply IHs.
Qed.

Lemma valid_steps_banded c p rest box :
  banded c (p :: rest) -> valid_steps p rest box = Some (foldl widen box rest).
Proof.
  intros (bs & Hbs & lo & H). destruct bs as [|[[t b] [|[a a'] s]] bs]; [done|simpl in H; tauto|].
  simpl in Hbs. injection Hbs as -> ->. destruct H as (_ & ? & _ & [lo' Hs] & _ & H). simpl in Hs.
  eapply valid_steps_flat; try done. simpl. tauto.
Qed.

(** The scan over all boxes finds the exact extents. *)
Lemma scan_tight c p rest :
  let l := p :: rest in
  banded c l ->
  tight (foldl widen (mkBox (x1 p) (y1 p) (x2 p) (y2 (default p (last l)))) rest) (fun x y => in_rects l (x, y)).
Proof.
  intros l Hl. destruct (widen_fold rest (mkBox (x1 p) (y1 p) (x2 p) (y2 (default p (last l)))))
    as (Hy1 & Hy2 & Hx1 & Hx2 & Hb & Hl1 & Hr1). simpl in *.
  apply (banded_tight c); try done.
  - intros b [->|Hin]%elem_of_cons; [lia|by apply Hb].
  - destruct Hl1 as [->|(b & ? & ->)]; [exists p|exists b]; (split; [|done]); [by left|by right].
  - destruct Hr1 as [->|(b & ? & ->)]; [exists p|exists b]; (split; [|done]); [by left|by right].
Qed.

Lemma wf_valid c reg :
  wf_region c reg -> RegionRects reg ≠ [] -> tight (extents reg) (points reg) -> RegionIsValid reg = true.
Proof.
  intros [Hc Hb] Hne Ht. unfold points in Ht.
  assert (Hn := compact_num _ Hc). unfold RegionIsValid.
  destruct (RegionRects reg) as [|p rest] eqn:Hr; [done|].
  assert (Hext := tight_unique _ _ _ Ht (scan_tight _ _ _ Hb)).
  assert (Hord : x1 (extents reg) < x2 (extents reg) ∧ y1 (extents reg) < y2 (extents reg)).
  { destruct Ht as (Hin & [y Hl] & _). apply Hin, in_box_spec in Hl. lia. }
  rewrite (proj2 (Z.ltb_ge _ _)), (proj2 (Z.ltb_ge _ _)) by lia. simpl. rewrite Hn. simpl.
  destruct rest as [|q rest].
  - simpl. unfold compact in Hc. unfold RegionNumRects in Hn. destruct (data reg); simpl in *; try done. lia.
  - change (length (q :: rest)) with (S (length rest)). cbn iota beta.
    rewrite (valid_steps_banded _ _ _ _ Hb), <- Hext, !Z.eqb_refl. done.
Qed.

(** RegionSetExtents *)
Lemma RegionSetExtents_tight c reg :
  blk reg -> banded c (RegionRects reg) -> RegionRects reg ≠ [] ->
  tight (extents (RegionSetExtents reg)) (points reg) ∧ data (RegionSetExtents reg) = data reg.
Proof.
  intros Hb Hbd Hne. destruct (blk_inv _ Hb) as (size & junk & Hd & Hfit & Hsz).
  unfold points. revert Hd Hbd Hne. generalize (RegionRects reg). intros l Hd Hbd Hne.
  unfold RegionSetExtents, RegionEnd, RegionBoxptr, RegionNumRects. rewrite Hd.
  destruct size as [|size]; [lia|]. simpl. rewrite take_app_length. split; [|done].
  destruct l as [|p rest]; [done|]. set (l := p :: rest) in *.
  assert (Hl : default RegionEmptyBox ((l ++ junk) !! (length l - 1)%nat) = default p (last l)).
  { rewrite lookup_app_l by (subst l; simpl; lia). rewrite last_lookup.
    replace (pred (length l)) with (length l - 1)%nat by lia.
    destruct (lookup_lt_is_Some_2 l (length l - 1)) as [q ->]; [subst l; simpl; lia|done]. }
  rewrite Hl. simpl.
  assert (Hlast : default p (last l) ∈ l).
  { destruct (last l) as [q|] eqn:E; [|by apply last_None in E]. simpl. by apply last_Some_elem_of. }
  destruct (widen_fold l (mkBox (x1 p) (y1 p) (x2 (default p (last l))) (y2 (default p (last l)))))
    as (Hy1 & Hy2 & Hx1 & Hx2 & Hbb & Hl1 & Hr1).
  apply (banded_tight c); try done.
  - destruct Hl1 as [E|(b & ? & ?)]; [exists p; split; [by left|done]|by exists b].
  - destruct Hr1 as [E|(b & ? & ?)]; [exists (default p (last l)); done|by exists b].
Qed.
