(* ===== verification/RegionScatter.v ===== *)
(** * RegionScatter: step 2 of RegionValidate

    Each region under construction is coalesced bands with an open last band; it
    covers the boxes it was given, and an overlap is reported when a box meets
    one of them.  The array of the first region doubles as the array the boxes
    are read from: it is never overwritten ahead of the reading point, and it
    never moves. *)

From stdpp Require Import base numbers list sorting.
From S2P Require Import Prelude Bands Region RegionOp RegionSweep RegionSort RegionValidate RegionBatch.

(** ** One region under construction *)

(** [E] is the exact box of the region once its last box is accounted for. *)
Definition info_box (ri : RegionInfo) : Box :=
  let e := extents (rreg ri) in
  mkBox (x1 e) (y1 e) (Z.max (x2 e) (x2 (RegionEnd (rreg ri)))) (y2 (RegionEnd (rreg ri))).

(** The shape: coalesced bands [obs], then a band with spans [s] and [(x, x')]. *)
Definition info_shape (ri : RegionInfo) (lo : Z) (obs : list band) (t b : Z) (s : list span) (x x' : Z) : Prop :=
  blk (rreg ri) ∧ RegionRects (rreg ri) = flat obs ++ bboxes t b (s ++ [(x, x')]) ∧
  rcur ri = length (flat obs) ∧ prev_ok obs (rprev ri) t ∧
  bands_from true lo [] obs ∧ lo <= t ∧ lbot lo obs <= t ∧ t < b ∧ spans_ok (s ++ [(x, x')]).

(** A region that holds the input boxes [B], all of them before the boxes to come. *)
Definition info_ok (ri : RegionInfo) (B : list Box) : Prop :=
  exists lo obs t b s x x',
    info_shape ri lo obs t b s x x' ∧
    (forall p, in_rects (RegionRects (rreg ri)) p <-> in_rects B p) ∧
    tight (info_box ri) (fun x y => in_rects B (x, y)) ∧
    (exists bx, bx ∈ B ∧ x1 bx = x ∧ y1 bx = t).

(** Some point lies in two boxes. *)
Definition overlaps (B : list Box) : Prop := exists p, (2 <= cover B p)%nat.

Lemma overlaps_snoc B box :
  overlaps (B ++ [box]) <-> overlaps B ∨ exists p, in_rects B p ∧ in_box box p = true.
Proof.
  assert (Hone : forall p, cover [box] p = if in_box box p then 1%nat else 0%nat).
  { intros p. unfold cover. rewrite filter_cons, filter_nil. destruct (in_box box p) eqn:E; by case_decide. }
  split.
  - intros [p Hp]. rewrite cover_app, Hone in Hp. destruct (in_box box p) eqn:E.
    + destruct (decide (2 <= cover B p)%nat); [left; by exists p|right]. exists p. split; [|done].
      apply in_rects_cover. lia.
    + left. exists p. lia.
  - intros [[p Hp]|(p & Hp%in_rects_cover & E)]; exists p; rewrite cover_app, ?Hone, ?E; lia.
Qed.

Lemma RegionEnd_last reg l b :
  blk reg -> RegionRects reg = l ++ [b] -> RegionEnd reg = b.
Proof.
  intros Hb Hr. destruct (blk_inv _ Hb) as (size & junk & Hd & _). unfold RegionEnd, RegionBoxptr, RegionNumRects.
  rewrite Hd, Hr, length_app; simpl. rewrite lookup_app_l by (rewrite length_app; simpl; lia).
  replace (length l + 1 - 1)%nat with (length l) by lia. by rewrite list_lookup_middle.
Qed.

Lemma bboxes_snoc t b s x x' : bboxes t b (s ++ [(x, x')]) = bboxes t b s ++ [mkBox x t x' b].
Proof. unfold bboxes. by rewrite map_app. Qed.

Lemma info_end ri lo obs t b s x x' :
  info_shape ri lo obs t b s x x' -> RegionEnd (rreg ri) = mkBox x t x' b.
Proof.
  intros (Hb & Hr & _). apply (RegionEnd_last _ (flat obs ++ bboxes t b s) _ Hb).
  by rewrite Hr, bboxes_snoc, app_assoc.
Qed.

Lemma set_end_x2_spec reg l b v :
  blk reg -> RegionRects reg = l ++ [b] ->
  let reg' := set_end_x2 reg v in
  blk reg' ∧ RegionRects reg' = l ++ [mkBox (x1 b) (y1 b) v (y2 b)] ∧ extents reg' = extents reg.
Proof.
  intros Hb Hr. destruct (blk_inv _ Hb) as (size & junk & Hd & Hfit & Hsz).
  unfold set_end_x2. rewrite Hd, Hr. rewrite Hr in Hfit.
  set (b' := mkBox (x1 b) (y1 b) v (y2 b)).
  assert (E : alter (fun b => mkBox (x1 b) (y1 b) v (y2 b)) (length (l ++ [b]) - 1)%nat ((l ++ [b]) ++ junk)
              = (l ++ [b']) ++ junk).
  { rewrite length_app; simpl. replace (length l + 1 - 1)%nat with (length l) by lia.
    rewrite <- !app_assoc, alter_app_r_alt, Nat.sub_diag by lia. done. }
  rewrite E. assert (Hlen : length (l ++ [b]) = length (l ++ [b'])) by (by rewrite !length_app).
  rewrite Hlen. unfold set_data. simpl.
  destruct (blk_intro (extents reg) size (l ++ [b']) junk) as [? ?]; [|done|done].
  rewrite !length_app in *. simpl in *. lia.
Qed.

(** ** A box in the band of the last one *)

Definition add_ok (ri ri' : RegionInfo) (B : list Box) (box : Box) (ov ov' : bool) : Prop :=
  info_ok ri' (B ++ [box]) ∧ (ov' = true <-> ov = true ∨ exists p, in_rects B p ∧ in_box box p = true).

Lemma in_rects_snoc l b p : in_rects (l ++ [b]) p <-> in_rects l p ∨ in_box b p = true.
Proof. rewrite in_rects_app. unfold in_rects at 2. rewrite Exists_cons, Exists_nil. tauto. Qed.

Lemma tight_snoc e B box :
  tight e (fun x y => in_rects B (x, y)) -> nonempty_box box ->
  tight (hull e box) (fun x y => in_rects (B ++ [box]) (x, y)).
Proof.
  intros He Hb. eapply tight_ext; [apply (tight_union _ _ _ _ He (tight_box _ Hb))|].
  intros x y. simpl. by rewrite in_rects_snoc.
Qed.

Lemma append_box_spec ri box m ok ri' m' :
  append_box ri box m = (ok, ri', m') -> oom m' = false -> blk (rreg ri) ->
  ok = true ∧ oom m = false ∧ blk (rreg ri') ∧ RegionRects (rreg ri') = RegionRects (rreg ri) ++ [box] ∧
  extents (rreg ri') = extents (rreg ri) ∧ ri' = mkRI (rreg ri') (rprev ri) (rcur ri).
Proof.
  unfold append_box. intros H Hm Hb. destruct (RECTALLOC _ _ _) as [[ok1 reg1] m1] eqn:Ha.
  injection H as -> <- ->.
  destruct (RECTALLOC_spec _ _ _ _ _ _ Ha ltac:(lia) Hm (blk_growable _ Hb)) as (-> & ? & Hh & Ho & Hr & He & Hfit).
  destruct (push_boxes_room reg1 [box] Hh Ho Hfit) as (? & ? & Hr' & He' & _). simpl.
  rewrite Hr', Hr, He'. done.
Qed.

Section Place.
Context (ri : RegionInfo) (B : list Box) (box : Box).
Context (lo : Z) (obs : list band) (t b : Z) (s : list span) (x x' : Z).
Context (Hshape : info_shape ri lo obs t b s x x').
Context (Hpts : forall p, in_rects (RegionRects (rreg ri)) p <-> in_rects B p).
Context (Htight : tight (info_box ri) (fun x y => in_rects B (x, y))).
Context (Hkey : exists bx, bx ∈ B ∧ x1 bx = x ∧ y1 bx = t).
Context (Hbox : nonempty_box box) (Hord : Forall (fun bx => rect_le bx box) B).

Lemma place_points u v :
  in_rects B (u, v) <-> in_bands u v obs ∨ (t <= v < b ∧ (in_spans u s ∨ x <= u < x')).
Proof.
  destruct Hshape as (_ & Hr & _). rewrite <- Hpts, Hr, in_rects_app, in_rects_flat, in_rects_bboxes.
  by rewrite in_spans_app, in_spans_cons, in_spans_nil, (or_False (x <= u < x')).
Qed.

Lemma place_spans : x < x' ∧ t < b ∧ (forall u, in_spans u s -> u < x) ∧ (forall u v, in_bands u v obs -> v < t).
Proof.
  destruct Hshape as (_ & _ & _ & _ & Hobs & _ & Hlt & Htb & [l Hs]).
  apply spans_from_snoc in Hs as (Hs & Hx & Hxx). split_and!; try done.
  - intros u Hu. apply (spans_from_upper _ _ _ Hs) in Hu. lia.
  - intros u v Hu. apply (bands_from_upper _ _ _ _ _ _ Hobs) in Hu. lia.
Qed.

(** The open box lies in the exact box of the region. *)
Lemma place_corner : x1 (info_box ri) <= x ∧ y1 (info_box ri) <= t ∧ t < y2 (info_box ri).
Proof.
  destruct place_spans as (? & ? & _). destruct Htight as [Hin _].
  specialize (Hin x t). rewrite place_points, in_box_spec in Hin. lia.
Qed.

Lemma place_order : t <= y1 box ∧ (y1 box = t -> x <= x1 box).
Proof.
  destruct Hkey as (bx & Hbx & <- & <-). rewrite Forall_forall in Hord. specialize (Hord _ Hbx).
  unfold rect_le, rect_lt in Hord. lia.
Qed.

(** In the band of the last box, exactly a box that starts left of its end overlaps. *)
Lemma place_same_overlap :
  y1 box = t -> y2 box = b -> (exists p, in_rects B p ∧ in_box box p = true) <-> x1 box < x'.
Proof.
  intros Ht Hb. destruct place_spans as (? & ? & Hs & Hobs). destruct place_order as [_ Hx]. specialize (Hx Ht).
  destruct Hbox as [? ?]. split.
  - intros ([u v] & Hin & Hbx%in_box_spec). apply place_points in Hin as [Hin|[_ [Hin|Hin]]].
    + apply Hobs in Hin. lia.
    + apply Hs in Hin. lia.
    + lia.
  - intros Hlt. exists (x1 box, t). split; [|apply in_box_spec; lia]. apply place_points. right. split; [lia|right; lia].
Qed.

(** Below the last band nothing overlaps. *)
Lemma place_below_overlap : b <= y1 box -> ¬ exists p, in_rects B p ∧ in_box box p = true.
Proof.
  intros Hb ([u v] & Hin & Hbx%in_box_spec). destruct place_spans as (_ & Htb & _ & Hobs).
  apply place_points in Hin as [Hin%Hobs|[? _]]; lia.
Qed.

Lemma place_merge (Ht : y1 box = t) (Hb : y2 box = b) (Hle : x1 box <= x') :
  info_ok (mkRI (if x' <? x2 box then set_end_x2 (rreg ri) (x2 box) else rreg ri) (rprev ri) (rcur ri)) (B ++ [box]).
Proof.
  destruct Hshape as (Hblk & Hr & Hcur & Hprev & Hobs & Hlo & Hlt & Htb & [l Hs]).
  pose proof place_corner as Hcor. destruct place_order as [_ Hx]. specialize (Hx Ht).
  destruct place_spans as (Hxx & _ & Hsx & Hobst).
  set (reg' := if x' <? x2 box then _ else _).
  set (x'' := Z.max x' (x2 box)).
  assert (Hreg : blk reg' ∧ RegionRects reg' = flat obs ++ bboxes t b (s ++ [(x, x'')]) ∧
                 extents reg' = extents (rreg ri)).
  { subst reg' x''. destruct (Z.ltb_spec x' (x2 box)); [|by replace (x' `max` x2 box) with x' by lia].
    destruct (set_end_x2_spec (rreg ri) (flat obs ++ bboxes t b s) (mkBox x t x' b) (x2 box) Hblk) as (? & Hr' & ?).
    { by rewrite Hr, bboxes_snoc, app_assoc. }
    split_and!; try done. rewrite Hr', bboxes_snoc, app_assoc. simpl. by replace (x' `max` x2 box) with (x2 box) by lia. }
  destruct Hreg as (Hblk' & Hr' & He').
  assert (Hshape' : info_shape (mkRI reg' (rprev ri) (rcur ri)) lo obs t b s x x'').
  { split_and!; try done. exists l. apply spans_from_snoc in Hs as (? & ? & ?). apply spans_from_snoc.
    split_and!; try done. lia. }
  exists lo, obs, t, b, s, x, x''. split; [done|]. split_and!.
  - intros [u v]. simpl. rewrite in_rects_snoc, place_points, Hr', in_rects_app, in_rects_flat, in_rects_bboxes,
      in_spans_app, in_spans_cons, in_spans_nil, in_box_spec. destruct Hbox. subst x''.
    assert (x <= u < x' `max` x2 box <-> x <= u < x' ∨ x1 box <= u < x2 box) as -> by lia. rewrite Ht, Hb. tauto.
  - replace (info_box _) with (hull (info_box ri) box); [by apply tight_snoc|].
    unfold info_box in Hcor |- *. rewrite (info_end _ _ _ _ _ _ _ _ Hshape), (info_end _ _ _ _ _ _ _ _ Hshape') in *.
    unfold hull. simpl in *. rewrite He'. f_equal; lia.
  - destruct Hkey as (bx & ? & ? & ?). exists bx. split; [|done]. apply elem_of_app. by left.
Qed.

(** A new box after the boxes of [reg]: at the end of the open band or in a new one. *)
Lemma place_push reg prev cur lo1 obs1 s1 :
  blk reg -> RegionRects reg = flat obs1 ++ bboxes (y1 box) (y2 box) s1 ++ [box] ->
  (forall p, in_rects (flat obs1 ++ bboxes (y1 box) (y2 box) s1) p <-> in_rects B p) ->
  cur = length (flat obs1) -> prev_ok obs1 prev (y1 box) -> bands_from true lo1 [] obs1 ->
  lo1 <= y1 box -> lbot lo1 obs1 <= y1 box -> spans_ok (s1 ++ [(x1 box, x2 box)]) ->
  x1 (extents reg) = Z.min (x1 (info_box ri)) (x1 box) -> y1 (extents reg) = y1 (info_box ri) ->
  Z.max (x2 (extents reg)) (x2 box) = Z.max (x2 (info_box ri)) (x2 box) -> y2 (info_box ri) <= y2 box ->
  info_ok (mkRI reg prev cur) (B ++ [box]).
Proof.
  intros Hblk Hr Hp Hcur Hprev Hobs Hlo Hlt Hs Hx1 Hy1 Hx2 Hy2.
  assert (Hbb : mkBox (x1 box) (y1 box) (x2 box) (y2 box) = box) by (by destruct box).
  assert (Hshape' : info_shape (mkRI reg prev cur) lo1 obs1 (y1 box) (y2 box) s1 (x1 box) (x2 box)).
  { split_and!; try done; [by rewrite bboxes_snoc, Hbb|by destruct Hbox]. }
  exists lo1, obs1, (y1 box), (y2 box), s1, (x1 box), (x2 box). split; [done|]. split_and!.
  - intros p. simpl. by rewrite Hr, app_assoc, !in_rects_snoc, Hp.
  - replace (info_box _) with (hull (info_box ri) box); [by apply tight_snoc|].
    pose proof place_corner as Hcor. destruct place_order as [? _].
    revert Hx1 Hy1 Hx2 Hy2 Hcor. generalize (info_box ri) as e. intros e Hx1 Hy1 Hx2 Hy2 Hcor.
    unfold info_box. rewrite (info_end _ _ _ _ _ _ _ _ Hshape'). simpl. unfold hull.
    rewrite Hx1, Hx2, Hy1. f_equal; lia.
  - exists box. split; [|done]. apply elem_of_app. right. by left.
Qed.

Lemma place_append m ri' m' :
  append_box ri box m = (true, ri', m') -> oom m' = false ->
  y1 box = t -> y2 box = b -> x' < x1 box -> info_ok ri' (B ++ [box]).
Proof.
  intros Ha Hm Ht Hb Hgt. pose proof place_corner as Hcor. destruct place_order as [_ Hx]. specialize (Hx Ht).
  destruct place_spans as (Hxx & _ & _ & _). pose proof (info_end _ _ _ _ _ _ _ _ Hshape) as Hend.
  destruct Hshape as (Hblk & Hr & Hcur & Hprev & Hobs & Hlo & Hlt & Htb & [l Hs]).
  destruct (append_box_spec _ _ _ _ _ _ Ha Hm Hblk) as (_ & _ & Hb1 & Hr1 & He1 & ->).
  unfold info_box in Hcor. rewrite Hend in Hcor. simpl in Hcor. destruct (Hbox) as [Hbx Hby].
  eapply (place_push _ _ _ lo obs (s ++ [(x, x')])); rewrite ?Ht, ?Hb, ?He1; try done;
    try (unfold info_box; rewrite Hend; simpl; lia).
  - by rewrite Hr1, Hr, app_assoc.
  - intros p. by rewrite <- Hpts, Hr.
  - exists l. apply spans_from_snoc. split; [done|]. unfold send. rewrite last_snoc. destruct Hbox; lia.
Qed.

Lemma place_below m reg prev ri' m' :
  let e := extents (rreg ri) in
  Coalesce (set_extents (rreg ri) (mkBox (Z.min (x1 e) (x1 box)) (y1 e) (Z.max (x2 e) x') (y2 e)))
    (rprev ri) (rcur ri) = (reg, prev) ->
  append_box (mkRI reg prev (RegionNumRects reg)) box m = (true, ri', m') -> oom m' = false ->
  b <= y1 box -> info_ok ri' (B ++ [box]).
Proof.
  intros e Hc Ha Hm Hle. pose proof (info_end _ _ _ _ _ _ _ _ Hshape) as Hend.
  destruct Hshape as (Hblk & Hr & Hcur & Hprev & Hobs & Hlo & Hlt & Htb & Hs).
  set (reg0 := set_extents _ _) in Hc.
  assert (Hb0 : blk reg0) by exact Hblk. assert (Hr0 : RegionRects reg0 = flat obs ++ bboxes t b (s ++ [(x, x')])).
  { rewrite <- Hr. unfold RegionRects, reg0. simpl. destruct (proj1 Hblk) as (? & ? & ? & ->). done. }
  rewrite Hcur in Hc.
  destruct (Coalesce_spec lo obs (rprev ri) t b (s ++ [(x, x')]) reg0 reg prev Hb0 Hr0 Hobs Hlt Htb
    ltac:(by destruct s) Hs Hprev Hc) as (Hb1 & He1 & obs1 & Hr1 & Hobs1 & Hin1 & _ & Hlb & _ & Hp1).
  destruct (append_box_spec _ _ _ _ _ _ Ha Hm Hb1) as (_ & _ & Hb2 & Hr2 & He2 & ->). simpl in *.
  destruct place_order as [? _]. unfold reg0 in He1. simpl in He1. destruct (Hbox) as [Hbx Hby].
  eapply (place_push _ _ _ lo obs1 []); rewrite ?He2, ?He1; simpl; rewrite ?Hend; simpl; try done; try lia.
  - by rewrite Hr2, Hr1.
  - intros [u v]. rewrite app_nil_r, in_rects_flat, Hin1, <- Hpts, Hr, in_rects_app, in_rects_flat, in_rects_bboxes. done.
  - by rewrite (blk_num _ Hb1), Hr1.
  - eapply prev_ok_mono; [exact Hp1|lia].
  - exists (x1 box - 1). simpl. destruct Hbox. lia.
Qed.
End Place.

Lemma Coalesce_blk lo obs ri t b s x x' e reg prev :
  info_shape ri lo obs t b s x x' ->
  Coalesce (set_extents (rreg ri) e) (rprev ri) (rcur ri) = (reg, prev) -> blk reg.
Proof.
  intros (Hblk & Hr & Hcur & Hprev & Hobs & Hlo & Hlt & Htb & Hs) Hc. rewrite Hcur in Hc.
  refine (proj1 (Coalesce_spec lo obs (rprev ri) t b (s ++ [(x, x')]) _ reg prev _ _ Hobs Hlt Htb _ Hs Hprev Hc));
    [exact Hblk| |by destruct s].
  rewrite <- Hr. unfold RegionRects. simpl. by destruct (proj1 Hblk) as (? & ? & ? & ->).
Qed.

Lemma append_box_quiet ri box m : quiet m (snd (append_box ri box m)).
Proof.
  unfold append_box. pose proof (RECTALLOC_quiet (rreg ri) 1 m). by destruct (RECTALLOC _ _ _) as [[? ?] ?].
Qed.

Lemma place1_quiet box ri ov m ok ri' ov' m' :
  place1 box ri ov m = Some (ok, ri', ov', m') -> quiet m m'.
Proof.
  unfold place1. destruct (_ && _); [destruct (_ <=? _)|destruct (_ <=? _); [|done]].
  - by intros [= <- <- <- <-].
  - pose proof (append_box_quiet ri box m). destruct (append_box _ _ _) as [[? ?] ?]. by intros [= <- <- <- <-].
  - destruct (Coalesce _ _ _) as [reg prev]. match goal with |- context [append_box ?r _ _] =>
      pose proof (append_box_quiet r box m) end.
    destruct (append_box _ _ _) as [[? ?] ?]. by intros [= <- <- <- <-].
Qed.

Lemma place1_spec box ri B ov m ok ri' ov' m' :
  place1 box ri ov m = Some (ok, ri', ov', m') -> oom m' = false -> info_ok ri B ->
  nonempty_box box -> Forall (fun bx => rect_le bx box) B ->
  ok = true ∧ oom m = false ∧ add_ok ri ri' B box ov ov'.
Proof.
  intros H Hm (lo & obs & t & b & s & x & x' & Hsh & Hpts & Htight & Hkey) Hbox Hord.
  unfold place1 in H. rewrite (info_end _ _ _ _ _ _ _ _ Hsh) in H. simpl in H.
  destruct ((y1 box =? t) && (y2 box =? b)) eqn:Hsame.
  - apply andb_true_iff in Hsame as [Ht%Z.eqb_eq Hb%Z.eqb_eq].
    pose proof (place_same_overlap ri B box lo obs t b s x x' Hsh Hpts Hkey Hbox Hord Ht Hb) as Hov.
    destruct (Z.leb_spec (x1 box) x') as [Hle|Hgt].
    + injection H as <- <- <- <-. split_and!; try done. split; [|by rewrite Hov, orb_true_iff, Z.ltb_lt].
      by eapply (place_merge ri B box lo obs t b s x x').
    + destruct (append_box ri box m) as [[ok1 ri1] m1] eqn:Ha. injection H as -> -> <- ->.
      destruct (append_box_spec _ _ _ _ _ _ Ha Hm (proj1 Hsh)) as (-> & ? & _).
      split_and!; try done. split; [by eapply (place_append ri B box lo obs t b s x x')|].
      rewrite Hov. assert (¬ x1 box < x') by lia. tauto.
  - destruct (Z.leb_spec b (y1 box)) as [Hle|]; [|done].
    pose proof (place_below_overlap ri B box lo obs t b s x x' Hsh Hpts Hle) as Hov.
    destruct (Coalesce _ _ _) as [reg prev] eqn:Hc.
    destruct (append_box _ box m) as [[ok1 ri1] m1] eqn:Ha. injection H as -> -> <- ->.
    assert (Hb1 : blk reg) by (by eapply Coalesce_blk).
    destruct (append_box_spec _ _ _ _ _ _ Ha Hm Hb1) as (-> & ? & _).
    split_and!; try done. split; [by eapply (place_below ri B box lo obs t b s x x')|tauto].
Qed.

(** ** The array of the first region *)

(** With [idx] boxes consumed, the block holds at most [idx] rectangles, has room
    for all [n], and is unchanged from [idx] on. *)
Definition arr_ok (n : nat) (srt : list Box) (idx : nat) (reg : Region) (prev cur : nat) : Prop :=
  exists size num boxes, data reg = HeapData size num boxes ∧ (1 <= num <= idx)%nat ∧
    (n <= size)%nat ∧ (n <= length boxes)%nat ∧ drop idx boxes = drop idx srt ∧ (prev <= cur <= num)%nat.

Lemma drop_step {A} (l l' : list A) i : drop i l = drop i l' -> drop (S i) l = drop (S i) l'.
Proof. intros H. replace (S i) with (i + 1)%nat by lia. by rewrite <- !drop_drop, H. Qed.

Lemma arr_ok_step n srt idx reg prev cur : arr_ok n srt idx reg prev cur -> arr_ok n srt (S idx) reg prev cur.
Proof.
  intros (size & num & boxes & ? & ? & ? & ? & ? & ?). exists size, num, boxes. split_and!; try done; try lia.
  by apply drop_step.
Qed.

Lemma arr_ok_box n srt idx reg prev cur :
  arr_ok n srt idx reg prev cur -> RegionBoxptr reg !! idx = srt !! idx.
Proof.
  intros (size & num & boxes & Hd & _ & _ & _ & Hdrop & _). unfold RegionBoxptr. rewrite Hd.
  rewrite <- (Nat.add_0_r idx), <- !lookup_drop. by rewrite Hdrop.
Qed.

Lemma append_box_array n srt idx ri box m :
  arr_ok n srt idx (rreg ri) (rprev ri) (rcur ri) -> (idx < n)%nat ->
  exists ri', append_box ri box m = (true, ri', m) ∧ arr_ok n srt (S idx) (rreg ri') (rprev ri') (rcur ri') ∧
    RegionSize (rreg ri') = RegionSize (rreg ri).
Proof.
  intros (size & num & boxes & Hd & Hnum & Hsz & Hlen & Hdrop & Hcur) Hidx.
  unfold append_box, RECTALLOC, RegionSize, RegionNumRects. rewrite Hd.
  destruct (Nat.ltb_spec size (num + 1)); [lia|].
  eexists. split; [done|]. unfold push_boxes. rewrite Hd. simpl. split; [|done].
  exists size, (num + 1)%nat, (take num boxes ++ [box] ++ drop (num + 1) boxes). split_and!; try done; try lia.
  - rewrite !length_app, length_take, length_drop. simpl. lia.
  - rewrite app_assoc, drop_app_ge by (rewrite length_app, length_take; simpl; lia).
    rewrite drop_drop, length_app, length_take. simpl.
    replace (num + 1 + (S idx - (num `min` length boxes + 1)))%nat with (S idx) by lia. by apply drop_step.
Qed.

Lemma set_end_x2_array n srt idx reg prev cur v :
  arr_ok n srt idx reg prev cur -> arr_ok n srt idx (set_end_x2 reg v) prev cur ∧
  RegionSize (set_end_x2 reg v) = RegionSize reg.
Proof.
  intros (size & num & boxes & Hd & Hnum & Hsz & Hlen & Hdrop & Hcur).
  unfold set_end_x2, RegionSize. rewrite Hd. simpl. split; [|done].
  eexists size, num, _. split; [done|]. split_and!; try done; try lia; [by rewrite length_alter|].
  rewrite <- Hdrop. apply list_eq. intros k. rewrite !lookup_drop, list_lookup_alter_ne; [done|lia].
Qed.

Lemma Coalesce_array n srt idx reg prev cur reg' prev' :
  arr_ok n srt idx reg prev cur -> Coalesce reg prev cur = (reg', prev') ->
  arr_ok n srt idx reg' prev' (RegionNumRects reg') ∧ RegionSize reg' = RegionSize reg.
Proof.
  intros (size & num & boxes & Hd & Hnum & Hsz & Hlen & Hdrop & Hcur) H.
  assert (Hkeep : arr_ok n srt idx reg cur (RegionNumRects reg)).
  { exists size, num, boxes. unfold RegionNumRects. rewrite Hd. split_and!; done || lia. }
  unfold Coalesce in H. destruct (Z.eqb_spec (Z.of_nat cur - Z.of_nat prev) (Z.of_nat (RegionNumRects reg) - Z.of_nat cur))
    as [Heq|]; [|by injection H as <- <-].
  unfold RegionCoalesce in H. unfold RegionNumRects in Heq. rewrite Hd in H, Heq.
  destruct (Nat.eqb_spec (cur - prev) 0) as [Hz|Hz]; [by injection H as <- <-|].
  destruct (boxes !! prev) as [p|]; [|by injection H as <- <-].
  destruct (boxes !! cur) as [c|] eqn:Hl; [apply lookup_lt_Some in Hl|by injection H as <- <-].
  destruct (negb _); [by injection H as <- <-|]. destruct (coalescible _ _ _); [|by injection H as <- <-].
  injection H as <- <-. unfold RegionSize. rewrite Hd. simpl. split; [|done].
  eexists size, _, _. split; [done|]. split_and!; try done; try lia; unfold RegionNumRects; simpl; try lia.
  - rewrite !length_app, length_map, !length_take, !length_drop. lia.
  - rewrite <- Hdrop, app_assoc, drop_app_ge by (rewrite length_app, length_map, !length_take, length_drop; lia).
    rewrite drop_drop, length_app, length_map, !length_take, length_drop. f_equal. lia.
Qed.

Lemma place1_array n srt idx box ri ov m ok ri' ov' m' :
  place1 box ri ov m = Some (ok, ri', ov', m') -> (idx < n)%nat ->
  arr_ok n srt idx (rreg ri) (rprev ri) (rcur ri) ->
  ok = true ∧ arr_ok n srt (S idx) (rreg ri') (rprev ri') (rcur ri') ∧
  RegionSize (rreg ri') = RegionSize (rreg ri).
Proof.
  unfold place1. intros H Hidx Harr. destruct (_ && _); [destruct (_ <=? _)|destruct (_ <=? _); [|done]].
  - injection H as <- <- <- <-. split; [done|]. simpl.
    destruct (_ <? _); [|split; [by apply arr_ok_step|done]].
    destruct (set_end_x2_array _ _ _ _ _ _ (x2 box) Harr) as [? ?]. split; [by apply arr_ok_step|done].
  - destruct (append_box_array n srt idx ri box m Harr Hidx) as (ri1 & Ha & ? & ?). rewrite Ha in H.
    by injection H as <- <- <- <-.
  - destruct (Coalesce _ _ _) as [reg prev] eqn:Hc.
    destruct (Coalesce_array n srt idx (set_extents (rreg ri) _) _ _ _ _ Harr Hc) as [Harr1 Hs1].
    destruct (append_box_array n srt idx (mkRI reg prev (RegionNumRects reg)) box m Harr1 Hidx)
      as (ri1 & Ha & ? & Hs2). rewrite Ha in H. injection H as <- <- <- <-. split_and!; try done. by rewrite Hs2.
Qed.

(** ** The loops *)

Lemma place_inv box ris ov m ok ris' ov' m' :
  place box ris ov m = Some (ok, ris', ov', m') ->
  exists pre ri ri' post, ris = pre ++ ri :: post ∧ ris' = pre ++ ri' :: post ∧
    place1 box ri ov m = Some (ok, ri', ov', m').
Proof.
  revert ris'; induction ris as [|ri ris IH]; intros ris'; simpl; [done|].
  destruct (place1 box ri ov m) as [[[[ok1 ri1] ov1] m1]|] eqn:Hp.
  - intros [= <- <- <- <-]. by exists [], ri, ri1, ris.
  - destruct (place box ris ov m) as [[[[ok1 ris1] ov1] m1]|] eqn:Hq; [|done]. intros [= <- <- <- <-].
    destruct (IH _ eq_refl) as (pre & r & r' & post & -> & -> & ?). by exists (ri :: pre), r, r', post.
Qed.

(** The regions hold the boxes seen so far, and the overlap flag is exact. *)
Definition scattered (ris : list RegionInfo) (seen : list Box) (ov : bool) : Prop :=
  exists Bs, Forall2 info_ok ris Bs ∧ concat Bs ≡ₚ seen ∧ (ov = true <-> Exists overlaps Bs).

Lemma place_scattered box ris seen ov m ok ris' ov' m' :
  place box ris ov m = Some (ok, ris', ov', m') -> oom m' = false -> scattered ris seen ov ->
  nonempty_box box -> Forall (fun bx => rect_le bx box) seen ->
  ok = true ∧ scattered ris' (seen ++ [box]) ov'.
Proof.
  intros H Hm (Bs & Hall & Hp & Hov) Hbox Hord.
  destruct (place_inv _ _ _ _ _ _ _ _ H) as (pre & ri & ri' & post & -> & -> & H1).
  apply Forall2_app_inv_l in Hall as (Bpre & Bpost & Hpre & Hpost & ->).
  apply Forall2_cons_inv_l in Hpost as (B & Bpost' & HB & Hpost & ->).
  rewrite concat_app in Hp. simpl in Hp.
  assert (HordB : Forall (fun bx => rect_le bx box) B).
  { rewrite <- Hp, !Forall_app in Hord. tauto. }
  destruct (place1_spec _ _ _ _ _ _ _ _ _ H1 Hm HB Hbox HordB) as (-> & _ & HB' & Hov').
  split; [done|]. exists (Bpre ++ (B ++ [box]) :: Bpost'). split_and!.
  - apply Forall2_app; [done|]. by constructor.
  - rewrite concat_app. simpl. rewrite <- Hp. rewrite <- !app_assoc. apply Permutation_app_head, Permutation_app_head.
    apply Permutation_app_comm.
  - rewrite Hov', Hov, !Exists_app, !Exists_cons, overlaps_snoc. tauto.
Qed.

Lemma new_info_quiet box i sizeRI ris m ok ris' size' m' :
  new_info box i sizeRI ris m = (ok, ris', size', m') -> quiet m m'.
Proof.
  unfold new_info. set (full := (_ =? _)%nat). cbv zeta.
  assert (Ha : forall b m1, (if full then alloc_ri m else (true, m)) = (b, m1) -> quiet m m1).
  { intros b m1. destruct full; [|by intros [= <- <-]]. unfold alloc_ri. destruct (alloc _). intros [= <- <-].
    unfold quiet; simpl. by destruct (oom m). }
  destruct (if full then _ else _) as [ok1 m1]. specialize (Ha _ _ eq_refl).
  destruct ok1; cbn [negb]; [|by intros [= <- <- <- <-]].
  pose proof (RegionRectAlloc_quiet (mkRegion box NullData) ((i + S (length ris)) / S (length ris)) m1) as Hq.
  destruct (RegionRectAlloc _ _ _) as [[ok2 reg] m2]. intros [= <- <- <- <-]. by etrans.
Qed.

Lemma info_ok_new reg box :
  blk reg -> RegionRects reg = [box] -> extents reg = box -> nonempty_box box -> info_ok (mkRI reg 0 0) [box].
Proof.
  intros Hb Hr He [Hx Hy]. exists (y1 box), [], (y1 box), (y2 box), [], (x1 box), (x2 box).
  assert (Hbb : mkBox (x1 box) (y1 box) (x2 box) (y2 box) = box) by (by destruct box).
  assert (Hsh : info_shape (mkRI reg 0 0) (y1 box) [] (y1 box) (y2 box) [] (x1 box) (x2 box)).
  { split_and!; simpl; try done; try (unfold lbot; simpl; lia).
    - by rewrite Hr, Hbb.
    - right. split; [done|by left].
    - exists (x1 box - 1). simpl. lia. }
  split; [done|]. split_and!.
  - intros p. simpl. by rewrite Hr.
  - unfold info_box. rewrite (info_end _ _ _ _ _ _ _ _ Hsh). simpl. rewrite He, Z.max_id, Hbb.
    eapply tight_ext; [by apply tight_box|]. intros x y. unfold in_rects. rewrite Exists_cons, Exists_nil. tauto.
  - exists box. split; [by left|done].
Qed.

Lemma new_info_spec box i sizeRI ris m ok ris' size' m' :
  new_info box i sizeRI ris m = (ok, ris', size', m') ->
  (exists t, ris' = ris ++ t) ∧
  (oom m' = false -> nonempty_box box -> (0 < i)%nat ->
   ok = true ∧ exists ri, ris' = ris ++ [ri] ∧ info_ok ri [box]).
Proof.
  unfold new_info. set (full := (_ =? _)%nat). cbv zeta.
  assert (Ha : forall b m1, (if full then alloc_ri m else (true, m)) = (b, m1) -> oom m1 = false -> b = true).
  { intros b m1. destruct full; [|by intros [= <- <-]]. unfold alloc_ri. destruct (alloc _) as [ok1 o]. intros [= <- <-].
    simpl. by destruct (oom m), ok1. }
  destruct (if full then _ else _) as [ok1 m1]. specialize (Ha _ _ eq_refl).
  destruct ok1; cbn [negb]; [|intros [= <- <- <- <-]; split; [exists []; by rewrite app_nil_r|]; intros Hm; by specialize (Ha Hm)].
  set (k := ((i + S (length ris)) / S (length ris))%nat).
  destruct (RegionRectAlloc _ k m1) as [[ok2 reg] m2] eqn:Hal. intros [= <- <- <- <-].
  split; [by eexists|]. intros Hm Hbox Hi.
  assert (Hk : (0 < k)%nat) by (apply Nat.div_str_pos; lia).
  destruct (RegionRectAlloc_spec _ _ _ _ _ _ Hal Hk Hm (or_introl eq_refl)) as (-> & _ & Ho & Hr & He & _ & Hh).
  { intros ? ? ? ?. done. }
  split; [done|]. eexists. split; [done|]. apply info_ok_new; try done.
Qed.

Lemma new_scattered box ris ri seen ov :
  scattered ris seen ov -> info_ok ri [box] -> scattered (ris ++ [ri]) (seen ++ [box]) ov.
Proof.
  intros (Bs & Hall & Hp & Hov) Hri. exists (Bs ++ [[box]]). split_and!.
  - apply Forall2_app; [done|]. by constructor.
  - rewrite concat_app. simpl. by rewrite Hp.
  - rewrite Exists_app, Exists_cons, Exists_nil, Hov.
    assert (¬ overlaps [box]); [|tauto]. intros [p Hp2]. unfold cover in Hp2. rewrite filter_cons, filter_nil in Hp2.
    case_decide; simpl in Hp2; lia.
Qed.

(** The first region keeps the array. *)
Definition first_arr (n : nat) (srt : list Box) (idx : nat) (ris : list RegionInfo) : Prop :=
  exists ri rest, ris = ri :: rest ∧ arr_ok n srt idx (rreg ri) (rprev ri) (rcur ri).

Lemma place_first n srt idx box ris ov m ok ris' ov' m' :
  place box ris ov m = Some (ok, ris', ov', m') -> (idx < n)%nat -> first_arr n srt idx ris ->
  first_arr n srt (S idx) ris' ∧ box_room ris' = box_room ris.
Proof.
  intros H Hidx (r0 & rest & -> & Harr).
  destruct (place_inv _ _ _ _ _ _ _ _ H) as ([|r0' pre] & ri & ri' & post & E & -> & H1); injection E as <- ->.
  - destruct (place1_array n srt idx _ _ _ _ _ _ _ _ H1 Hidx Harr) as (_ & ? & ?). split; [by eexists _, _|done].
  - split; [|done]. eexists _, _. split; [done|]. by apply arr_ok_step.
Qed.

Lemma first_arr_room n srt idx ris : first_arr n srt idx ris -> (n <= box_room ris)%nat.
Proof.
  intros (ri & rest & -> & size & num & boxes & Hd & _ & Hs & _). simpl. unfold RegionSize. by rewrite Hd.
Qed.

Lemma sorted_before l1 b l2 : StronglySorted rect_le (l1 ++ b :: l2) -> Forall (fun bx => rect_le bx b) l1.
Proof.
  induction l1 as [|a l1 IH]; simpl; [constructor|]. intros [Hs Ha]%StronglySorted_inv. constructor; [|by apply IH].
  rewrite Forall_app, Forall_cons in Ha. tauto.
Qed.

Lemma scatter_spec seg junk i sizeRI ris ov m :
  let n := length seg in
  let idx := (n - i)%nat in
  (i < n)%nat -> StronglySorted rect_le seg -> Forall nonempty_box seg ->
  first_arr n (seg ++ junk) idx ris -> (oom m = false -> scattered ris (take idx seg) ov) ->
  match scatter n i sizeRI ris ov m with
  | ScError _ => False
  | ScBail ris' _ m' => oom m' = true ∧ (0 < box_room ris')%nat
  | ScDone ris' ov' m' => quiet m m' ∧ (oom m' = false -> scattered ris' seg ov')
  end.
Proof.
  intros n idx Hi Hs Hne. revert sizeRI ris ov m idx Hi.
  induction i as [|i IH]; intros sizeRI ris ov m idx Hi Hfirst Hsc; unfold idx in *.
  { simpl. split; [done|]. intros Hm. specialize (Hsc Hm). rewrite Nat.sub_0_r, take_ge in Hsc by done. done. }
  cbn [scatter]. destruct (lookup_lt_is_Some_2 seg (n - S i)) as [box Hbox]; [lia|].
  assert (Hread : box_array ris !! (n - S i)%nat = Some box).
  { destruct Hfirst as (ri & rest & -> & Harr). simpl. rewrite (arr_ok_box _ _ _ _ _ _ Harr). by apply lookup_app_l_Some. }
  rewrite Hread.
  assert (Hord : Forall (fun bx => rect_le bx box) (take (n - S i) seg)).
  { apply (sorted_before _ _ (drop (S (n - S i)) seg)). by rewrite take_drop_middle. }
  assert (Hbne : nonempty_box box) by (rewrite Forall_forall in Hne; eapply Hne, list_elem_of_lookup_2; done).
  assert (Hnext : (n - i)%nat = S (n - S i)) by lia.
  assert (Htake : take (n - i) seg = take (n - S i) seg ++ [box]) by (rewrite Hnext; by apply take_S_r).
  destruct (place box ris ov m) as [[[[ok ris'] ov'] m']|] eqn:Hp.
  - destruct (place_first n (seg ++ junk) (n - S i) _ _ _ _ _ _ _ _ Hp ltac:(lia) Hfirst) as [Hf' Hroom].
    rewrite Hroom, Nat.eqb_refl. cbn [negb].
    assert (Hq : quiet m m').
    { destruct (place_inv _ _ _ _ _ _ _ _ Hp) as (? & ? & ? & ? & _ & _ & H1). by eapply place1_quiet. }
    assert (Hsc' : oom m' = false -> ok = true ∧ scattered ris' (take (n - i) seg) ov').
    { intros Hm. rewrite Htake. eapply place_scattered; try done. by apply Hsc, Hq. }
    destruct ok.
    + rewrite <- Hnext in Hf'. specialize (IH sizeRI ris' ov' m' ltac:(lia) Hf' ltac:(intros Hm; by destruct (Hsc' Hm))).
      destruct (scatter _ _ _ _ _ _); try done. destruct IH as [? ?]. split; [by etrans|done].
    + split; [destruct (oom m'); [done|by destruct (Hsc' eq_refl)]|]. pose proof (first_arr_room _ _ _ _ Hf'). lia.
  - destruct (new_info box (S i) sizeRI ris m) as [[[ok ris'] size'] m'] eqn:Hn.
    destruct (new_info_spec _ _ _ _ _ _ _ _ _ Hn) as [[t ->] Hnew].
    pose proof (new_info_quiet _ _ _ _ _ _ _ _ _ Hn) as Hq.
    assert (Hf' : first_arr n (seg ++ junk) (n - i) (ris ++ t)).
    { destruct Hfirst as (ri & rest & -> & Harr). exists ri, (rest ++ t). split; [done|]. rewrite Hnext. by apply arr_ok_step. }
    assert (Hsc' : oom m' = false -> ok = true ∧ scattered (ris ++ t) (take (n - i) seg) ov).
    { intros Hm. destruct (Hnew Hm Hbne ltac:(lia)) as (-> & ri & E & Hri). split; [done|]. rewrite E, Htake.
      apply new_scattered; [by apply Hsc, Hq|done]. }
    destruct ok.
    + specialize (IH size' (ris ++ t) ov m' ltac:(lia) Hf' ltac:(intros Hm; by destruct (Hsc' Hm))).
      destruct (scatter _ _ _ _ _ _); try done. destruct IH as [? ?]. split; [by etrans|done].
    + split; [destruct (oom m'); [done|by destruct (Hsc' eq_refl)]|]. pose proof (first_arr_room _ _ _ _ Hf'). lia.
Qed.

Lemma scatter_nonempty n i sizeRI ris ov m ris' ov' m' :
  scatter n i sizeRI ris ov m = ScDone ris' ov' m' -> ris ≠ [] -> ris' ≠ [].
Proof.
  revert sizeRI ris ov m; induction i as [|i IH]; intros sizeRI ris ov m; simpl; [by intros [= <- <- <-]|].
  destruct (box_array ris !! _) as [box|]; [|done].
  destruct (place box ris ov m) as [[[[ok ris1] ov1] m1]|] eqn:Hp.
  - destruct (negb _); [done|]. destruct ok; [|done]. intros H _. eapply IH; [exact H|].
    destruct (place_inv _ _ _ _ _ _ _ _ Hp) as ([] & ? & ? & ? & _ & -> & _); done.
  - destruct (new_info _ _ _ _ _) as [[[ok ris1] size1] m1] eqn:Hn. destruct ok; [|done]. intros H Hne. eapply IH; [exact H|].
    destruct (new_info_spec _ _ _ _ _ _ _ _ _ Hn) as [[t ->] _]. by destruct ris.
Qed.
