(* ===== verification/RegionMerge.v ===== *)
(** * RegionMerge: step 3 of RegionValidate, and the batch theorems

    The regions of step 2 are closed and merged pairwise until one is left. *)

From stdpp Require Import base numbers list sorting.
From S2P Require Import Prelude Bands Region RegionOp RegionSweep RegionSort RegionValidate RegionBatch RegionScatter.

(** ** RegionOp never forgets a refusal *)

Lemma RegionOp_quiet `{Hf : OverlapProc f a1 a2 a12 report} dest reg1 reg2 s1 s2 ov m :
  match RegionOp f a1 a2 dest reg1 reg2 s1 s2 ov m with
  | inr (_, _, _, m') | inl (StaleHeader m') => quiet m m'
  | inl _ => True
  end.
Proof.
  unfold RegionOp. cbv zeta.
  do 3 (match goal with |- match (if ?b then _ else _) with _ => _ end => destruct b; [done|] end).
  set (d := op_dest dest _). set (newSize := (2 * _)%nat).
  assert (Hq : quiet m (snd (if (RegionSize d <? newSize)%nat then RegionRectAlloc d newSize m else (true, d, m))))
    by (destruct (RegionSize d <? newSize)%nat; [apply RegionRectAlloc_quiet|done]).
  destruct (if (RegionSize d <? newSize)%nat then _ else _) as [[[] reg] m1]; [|done]. cbn [negb].
  match goal with |- context [op_loop f a1 a2 ?n ?sl ?st ?r1 ?r2] =>
    pose proof (op_loop_quiet n sl st r1 r2) as Hl; destruct (op_loop f a1 a2 n sl st r1 r2) as [e|[[st' r1'] r2']] end;
    [destruct e; simpl in *; try done; by etrans|]. simpl in Hl.
  pose proof (op_tail_quiet (a1 := a1) (a2 := a2) st' r1' r2') as Ht.
  destruct (op_tail _ _ st' r1' r2') as [[] st2]; simpl in *; [|by etrans; [|etrans]].
  destruct (op_finish (newReg st2) (mem st2)) as [reg' m2] eqn:Hfin. apply op_finish_oom in Hfin.
  etrans; [exact Hq|]. etrans; [exact Hl|]. etrans; [exact Ht|]. unfold quiet. by rewrite Hfin.
Qed.

(** ** Closed regions *)

(** A finished region that covers the boxes [B], with exact extents. *)
Definition reg_ok (reg : Region) (B : list Box) : Prop :=
  wf_region true reg ∧ RegionRects reg ≠ [] ∧ (forall x y, points reg x y <-> in_rects B (x, y)) ∧
  tight (extents reg) (points reg).

(** A block of one rectangle may become the rectangle of the header. *)
Lemma compact_one reg :
  blk reg -> canonical (RegionRects reg) -> RegionRects reg ≠ [] -> tight (extents reg) (points reg) ->
  let reg' := if (RegionNumRects reg =? 1)%nat then set_data reg NullData else reg in
  wf_region true reg' ∧ RegionRects reg' = RegionRects reg ∧ extents reg' = extents reg.
Proof.
  intros Hb Hc Hne Ht. rewrite (blk_num _ Hb). destruct (Nat.eqb_spec (length (RegionRects reg)) 1) as [H1|H1].
  - unfold points in Ht. destruct (RegionRects reg) as [|b [|]] eqn:Hr; try done. simpl.
    assert (b = extents reg) as E.
    { assert (Hbne := banded_nonempty _ _ Hc). apply Forall_cons in Hbne as [Hbne _].
      apply (tight_unique b _ _ (tight_box _ Hbne)). eapply tight_ext; [exact Ht|]. intros x y.
      unfold in_rects. rewrite Exists_cons, Exists_nil. tauto. }
    rewrite E in *. repeat split; try done.
  - simpl. split_and!; try done. split; [|done]. unfold compact. pose proof (blk_num _ Hb) as Hn.
    destruct Hb as [(size & num & bx & Hd) Ho]. unfold RegionNumRects in Hn. rewrite Hd in *. split; [done|].
    destruct (RegionRects reg); [done|]. simpl in *. lia.
Qed.

Lemma close_info_ok ri B : info_ok ri B -> reg_ok (close_info ri) B.
Proof.
  intros (lo & obs & t & b & s & x & x' & Hsh & Hpts & Htight & _).
  pose proof (info_end _ _ _ _ _ _ _ _ Hsh) as Hend.
  unfold close_info. fold (info_box ri). destruct (Coalesce _ _ _) as [reg prev] eqn:Hc.
  destruct Hsh as (Hblk & Hr & Hcur & Hprev & Hobs & Hlo & Hlt & Htb & Hs). rewrite Hcur in Hc.
  set (reg0 := set_extents _ _) in Hc.
  assert (Hr0 : RegionRects reg0 = flat obs ++ bboxes t b (s ++ [(x, x')])).
  { rewrite <- Hr. unfold RegionRects, reg0. simpl. by destruct (proj1 Hblk) as (? & ? & ? & ->). }
  destruct (Coalesce_spec lo obs (rprev ri) t b (s ++ [(x, x')]) reg0 reg prev Hblk Hr0 Hobs Hlt Htb
    ltac:(by destruct s) Hs Hprev Hc) as (Hb1 & He1 & obs1 & Hr1 & Hobs1 & Hin1 & Hne1 & _).
  assert (Hp1 : forall x y, points reg x y <-> in_rects B (x, y)).
  { intros u v. unfold points. rewrite Hr1, in_rects_flat, Hin1, <- Hpts, Hr, in_rects_app, in_rects_flat, in_rects_bboxes. done. }
  assert (Hcan : canonical (RegionRects reg)) by (exists obs1; split; [done|by exists lo]).
  assert (Hne : RegionRects reg ≠ []) by (rewrite Hr1; eapply flat_nonempty; [by exists lo|done]).
  assert (Ht : tight (extents reg) (points reg)).
  { rewrite He1. unfold reg0. simpl. eapply tight_ext; [exact Htight|]. intros u v. by rewrite Hp1. }
  destruct (compact_one reg Hb1 Hcan Hne Ht) as (Hwf & Hrr & Hee).
  unfold reg_ok, points in *. rewrite Hrr, Hee. done.
Qed.

Lemma wf_growable c reg : wf_region c reg -> RegionRects reg ≠ [] -> growable reg.
Proof.
  intros [Hc _] Hne. unfold compact, RegionRects, growable, heap_ok in *.
  destruct (data reg) eqn:E; rewrite ?E; try done; [by left|right; tauto].
Qed.

(** ** Merging two regions *)

Definition common (B B' : list Box) : Prop := exists p, in_rects B p ∧ in_rects B' p.

(** Errors happen only after an allocation was refused. *)
Definition err_oom (e : ValError) : Prop :=
  match e with
  | OpFailed (StaleHeader m) _ | OpFailed _ m | DoubleFree m => oom m = true
  | _ => False
  end.

Lemma points_common reg B reg' B' :
  reg_ok reg B -> reg_ok reg' B' -> (exists x y, points reg x y ∧ points reg' x y) <-> common B B'.
Proof.
  intros (_ & _ & H & _) (_ & _ & H' & _). split.
  - intros (x & y & ?%H & ?%H'). by exists (x, y).
  - intros ([x y] & ?%H & ?%H'). by exists x, y.
Qed.

Lemma merged_ok reg hreg reg' B B' :
  reg_ok reg B -> reg_ok hreg B' -> wf_region true reg' ->
  (forall x y, points reg' x y <-> region_sem true true true (points reg x y) (points hreg x y)) ->
  (extents reg' = extents reg ∨ RegionRects reg' = [extents reg']) ->
  reg_ok (set_extents reg' (hull (extents reg') (extents hreg))) (B ++ B').
Proof.
  intros (Hwf & Hne & Hp & Ht) (Hwf' & Hne' & Hp' & Ht') Hw Hpts Hext.
  assert (Hdec : forall x y, points reg' x y <-> points reg x y ∨ points hreg x y).
  { intros x y. rewrite Hpts. unfold region_sem.
    assert (Decision (points reg x y)) as [] by (unfold points, in_rects; apply _);
    assert (Decision (points hreg x y)) as [] by (unfold points, in_rects; apply _); tauto. }
  assert (Htu := tight_union _ _ _ _ Ht Ht').
  assert (Htight : tight (hull (extents reg) (extents hreg)) (points reg'))
    by (eapply tight_ext; [exact Htu|]; intros x y; by rewrite Hdec).
  assert (He : hull (extents reg') (extents hreg) = hull (extents reg) (extents hreg) ∧
               (data reg' = NullData -> hull (extents reg') (extents hreg) = extents reg')).
  { assert (Hone : RegionRects reg' = [extents reg'] -> extents reg' = hull (extents reg) (extents hreg)).
    { intros E. assert (Hbne := banded_nonempty _ _ (proj2 Hw)). rewrite E in Hbne. apply Forall_cons in Hbne as [Hbne _].
      apply (tight_unique _ _ _ (tight_box _ Hbne)). eapply tight_ext; [exact Htight|]. intros x y.
      unfold points, in_rects. rewrite E, Exists_cons, Exists_nil. tauto. }
    assert (Hidem : forall e h, hull (hull e h) h = hull e h).
    { intros [] []. unfold hull. simpl. f_equal; lia. }
    destruct Hext as [E|E].
    - rewrite E. split; [done|]. intros Hd.
      assert (E' : RegionRects reg' = [extents reg']) by (unfold RegionRects; by rewrite Hd).
      apply Hone in E'. congruence.
    - rewrite (Hone E), Hidem. done. }
  destruct He as [He Hnull].
  set (out := set_extents reg' _).
  assert (Hrects : RegionRects out = RegionRects reg').
  { unfold out, RegionRects. simpl. destruct (data reg') eqn:E; try done. by rewrite Hnull. }
  assert (Hpo : forall x y, points out x y <-> points reg' x y) by (intros; unfold points; by rewrite Hrects).
  split_and!.
  - destruct Hw as [Hc Hb]. split; [exact Hc|by rewrite Hrects].
  - rewrite Hrects. destruct Ht as (_ & [y Hy] & _). intros E. assert (Hin : points reg' (x1 (extents reg)) y) by (apply Hdec; by left).
    unfold points in Hin. rewrite E in Hin. by apply Exists_nil in Hin.
  - intros x y. by rewrite Hpo, Hdec, in_rects_app, Hp, Hp'.
  - unfold out at 1. simpl. rewrite He. eapply tight_ext; [exact Htight|]. intros x y. by rewrite Hpo.
Qed.

Lemma merge1_spec reg hreg B B' ov m :
  (oom m = false -> reg_ok reg B ∧ reg_ok hreg B') ->
  match merge1 reg hreg ov m with
  | inl e => err_oom e
  | inr (ok, reg', ov', m') => quiet m m' ∧
      (oom m' = false -> ok = true ∧ reg_ok reg' (B ++ B') ∧ (ov' = true <-> ov = true ∨ common B B'))
  end.
Proof.
  intros Hregs. unfold merge1. pose proof (RegionOp_quiet (f := RegionUnionO) reg reg hreg true false ov m) as Hq.
  destruct (oom m) eqn:Hm.
  - unfold quiet in Hq. rewrite Hm in Hq.
    destruct (RegionOp _ _ _ _ _ _ _ _ _ _) as [[]|[[[ok reg'] ov'] m']]; simpl; try done;
      [by destruct (oom m0); [|specialize (Hq eq_refl)]|].
    unfold quiet. rewrite Hm. split; [done|]. intros E. by specialize (Hq E).
  - destruct (Hregs eq_refl) as [H1 H2]. assert (H1' := H1). assert (H2' := H2).
    destruct H1' as (Hwf & Hne & _), H2' as (Hwf' & Hne' & _).
    pose proof (RegionOp_post (f := RegionUnionO) true reg reg hreg true false ov m Hwf Hwf' Hne Hne' (wf_growable _ _ Hwf Hne)) as Hp.
    destruct (RegionOp _ _ _ _ _ _ _ _ _ _) as [[]|[[[ok reg'] ov'] m']]; simpl in *; try done.
    split; [done|]. intros Hm'. destruct (Hp Hm') as (-> & Hw & Hpts & Hov & Hext).
    split; [done|]. split; [by apply (merged_ok reg hreg)|]. rewrite Hov, (points_common _ _ _ _ H1 H2). tauto.
Qed.

(** ** The rounds *)

Lemma merge_pairs_spec regs hregs Bs Bs' ret ov m :
  length regs = length hregs -> length Bs = length Bs' -> length regs = length Bs ->
  (oom m = false -> Forall2 reg_ok regs Bs ∧ Forall2 reg_ok hregs Bs') ->
  match merge_pairs regs hregs ret ov m with
  | inl e => err_oom e
  | inr (ret', regs', ov', m') => quiet m m' ∧ length regs' = length regs ∧
      (oom m' = false -> ret' = ret ∧ Forall2 reg_ok regs' (zip_with app Bs Bs') ∧
        (ov' = true <-> ov = true ∨ Exists (fun BB => common (fst BB) (snd BB)) (zip Bs Bs')))
  end.
Proof.
  revert hregs Bs Bs' ret ov m; induction regs as [|reg regs IH];
    intros [|hreg hregs] [|B Bs] [|B' Bs'] ret ov m Hl1 Hl2 Hl3 Hok; try done.
  { simpl. split; [done|]. split; [done|]. intros _. split; [done|]. split; [constructor|]. rewrite Exists_nil. tauto. }
  simpl.
  assert (Hhd : oom m = false -> reg_ok reg B ∧ reg_ok hreg B').
  { intros Hm. destruct (Hok Hm) as [H1 H2]. by inversion H1; inversion H2. }
  pose proof (merge1_spec reg hreg B B' ov m Hhd) as H1.
  destruct (merge1 reg hreg ov m) as [e|[[[ok reg'] ov1] m1]]; [done|]. destruct H1 as [Hq1 H1].
  specialize (IH hregs Bs Bs' (ret && ok) ov1 m1 ltac:(by injection Hl1) ltac:(by injection Hl2) ltac:(by injection Hl3)).
  assert (Htl : oom m1 = false -> Forall2 reg_ok regs Bs ∧ Forall2 reg_ok hregs Bs').
  { intros Hm. destruct (Hok (Hq1 Hm)) as [H3 H4]. by inversion H3; inversion H4. }
  specialize (IH Htl). destruct (merge_pairs _ _ _ _ _) as [e|[[[ret' regs'] ov'] m']]; [done|].
  destruct IH as (Hq2 & Hl & Hend). split; [by etrans|]. split; [by rewrite <- Hl|]. intros Hm.
  destruct (Hend Hm) as (-> & Hall & Hov'). destruct (H1 (Hq2 Hm)) as (-> & Hreg & Hov).
  split; [by rewrite andb_true_r|]. split; [by constructor|]. rewrite Hov', Hov, Exists_cons. simpl. tauto.
Qed.

Lemma overlaps_app B B' : overlaps (B ++ B') <-> overlaps B ∨ overlaps B' ∨ common B B'.
Proof.
  unfold overlaps, common. split.
  - intros [p Hp]. rewrite cover_app in Hp. destruct (decide (2 <= cover B p)%nat); [left; by exists p|].
    destruct (decide (2 <= cover B' p)%nat); [right; left; by exists p|]. right; right. exists p.
    rewrite !in_rects_cover. lia.
  - intros [[p Hp]|[[p Hp]|(p & H1%in_rects_cover & H2%in_rects_cover)]]; exists p; rewrite cover_app; lia.
Qed.

Lemma zip_app_concat (Bs Bs' : list (list Box)) :
  length Bs = length Bs' -> concat (zip_with app Bs Bs') ≡ₚ concat Bs ++ concat Bs'.
Proof.
  revert Bs'; induction Bs as [|B Bs IH]; intros [|B' Bs'] Hl; try done. simpl.
  rewrite IH by (by injection Hl). rewrite <- !app_assoc. apply Permutation_app_head.
  rewrite !app_assoc. apply Permutation_app_tail, Permutation_app_comm.
Qed.

Lemma zip_overlaps Bs Bs' :
  length Bs = length Bs' ->
  Exists overlaps (zip_with app Bs Bs') <->
  Exists overlaps Bs ∨ Exists overlaps Bs' ∨ Exists (fun BB => common (fst BB) (snd BB)) (zip Bs Bs').
Proof.
  revert Bs'; induction Bs as [|B Bs IH]; intros [|B' Bs'] Hl; try done.
  { simpl. rewrite !Exists_nil. tauto. }
  simpl. rewrite !Exists_cons, overlaps_app, IH by (by injection Hl). simpl. tauto.
Qed.

(** Closed regions that hold the boxes [seen] with an exact overlap flag. *)
Definition merged (regs : list Region) (seen : list Box) (ov : bool) : Prop :=
  exists Bs, Forall2 reg_ok regs Bs ∧ concat Bs ≡ₚ seen ∧ (ov = true <-> Exists overlaps Bs).

Lemma merge_round_spec regs seen ret ov m :
  (1 < length regs)%nat -> (oom m = false -> merged regs seen ov) ->
  let half := (length regs / 2)%nat in
  let odd := (length regs mod 2)%nat in
  match merge_pairs (take half (drop odd regs)) (drop (half + odd) regs) ret ov m with
  | inl e => err_oom e
  | inr (ret', regs', ov', m') => quiet m m' ∧ length (take odd regs ++ regs') = (length regs - half)%nat ∧
      (oom m' = false -> ret' = ret ∧ merged (take odd regs ++ regs') seen ov')
  end.
Proof.
  intros Hlen Hm half odd.
  assert (Hho : (length regs = 2 * half + odd ∧ odd < 2)%nat).
  { split; [apply Nat.div_mod; lia|apply Nat.mod_upper_bound; lia]. }
  assert (Hex : exists Bs, length Bs = length regs ∧ (oom m = false ->
    Forall2 reg_ok regs Bs ∧ concat Bs ≡ₚ seen ∧ (ov = true <-> Exists overlaps Bs))).
  { destruct (oom m) eqn:E.
    - exists (replicate (length regs) []). split; [by rewrite length_replicate|done].
    - destruct (Hm eq_refl) as (Bs & HF & ?). exists Bs. split; [by rewrite (Forall2_length _ _ _ HF)|done]. }
  destruct Hex as (Bs & HlBs & HBs).
  pose proof (merge_pairs_spec (take half (drop odd regs)) (drop (half + odd) regs)
    (take half (drop odd Bs)) (drop (half + odd) Bs) ret ov m) as Hp.
  rewrite !length_take, !length_drop, HlBs in Hp. specialize (Hp ltac:(lia) ltac:(lia) ltac:(lia)).
  assert (Hparts : oom m = false -> Forall2 reg_ok (take half (drop odd regs)) (take half (drop odd Bs)) ∧
    Forall2 reg_ok (drop (half + odd) regs) (drop (half + odd) Bs)).
  { intros E. destruct (HBs E) as [HF _]. split; [by apply Forall2_take, Forall2_drop|by apply Forall2_drop]. }
  specialize (Hp Hparts).
  destruct (merge_pairs _ _ _ _ _) as [e|[[[ret' regs'] ov'] m']]; [done|]. destruct Hp as (Hq & Hl & Hend).
  split; [done|]. split; [rewrite length_app, length_take; lia|]. intros E.
  destruct (Hend E) as (-> & HF & Hov'). destruct (HBs (Hq E)) as (HF0 & Hperm & Hov). split; [done|].
  assert (Hsplit : Bs = take odd Bs ++ take half (drop odd Bs) ++ drop (half + odd) Bs).
  { rewrite <- (take_drop odd Bs) at 1. rewrite <- (take_drop half (drop odd Bs)) at 1. rewrite drop_drop.
    by rewrite (Nat.add_comm odd half). }
  set (P1 := take half (drop odd Bs)) in *. set (P2 := drop (half + odd) Bs) in *.
  assert (HP : length P1 = length P2) by (subst P1 P2; rewrite length_take, !length_drop; lia).
  exists (take odd Bs ++ zip_with app P1 P2). split_and!.
  - apply Forall2_app; [by apply Forall2_take|done].
  - rewrite concat_app, zip_app_concat by done. by rewrite <- !concat_app, <- Hsplit, Hperm.
  - assert (HE : Exists overlaps Bs <-> Exists overlaps (take odd Bs) ∨ Exists overlaps P1 ∨ Exists overlaps P2)
      by (by rewrite <- !Exists_app, <- Hsplit).
    rewrite Hov', Hov, Exists_app, zip_overlaps, HE by done. tauto.
Qed.

Lemma merge_all_spec fuel regs seen ov m :
  regs ≠ [] -> (length regs <= fuel)%nat -> (oom m = false -> merged regs seen ov) ->
  match merge_all fuel regs true ov m with
  | inl e => err_oom e
  | inr (ret', regs', ov', m') => length regs' = 1%nat ∧ quiet m m' ∧
      (oom m' = false -> ret' = true ∧ merged regs' seen ov')
  end.
Proof.
  enough (H : forall ret, regs ≠ [] -> (length regs <= fuel)%nat -> (oom m = false -> ret = true ∧ merged regs seen ov) ->
    match merge_all fuel regs ret ov m with
    | inl e => err_oom e
    | inr (ret', regs', ov', m') => length regs' = 1%nat ∧ quiet m m' ∧
        (oom m' = false -> ret' = true ∧ merged regs' seen ov')
    end) by (intros; apply H; [done|done|auto]).
  revert regs ov m; induction fuel as [|fuel IH]; intros regs ov m ret Hne Hl Hm; [destruct regs; simpl in *; done || lia|].
  cbn [merge_all]. destruct (Nat.ltb_spec 1 (length regs)) as [Hlt|Hge].
  - pose proof (merge_round_spec regs seen ret ov m Hlt ltac:(intros E; by destruct (Hm E))) as Hr. cbv zeta in Hr.
    destruct (merge_pairs _ _ _ _ _) as [e|[[[ret' regs'] ov'] m']]; [done|]. destruct Hr as (Hq & Hlen & Hend).
    assert (Hh : (1 <= length regs / 2 < length regs)%nat).
    { split; [apply Nat.div_le_lower_bound; lia|apply Nat.div_lt; lia]. }
    revert Hlen Hh. generalize (length regs / 2)%nat as half. intros half Hlen Hh.
    specialize (IH (take (length regs mod 2) regs ++ regs') ov' m' ret').
    assert (Hne' : take (length regs mod 2) regs ++ regs' ≠ []) by (intros E; rewrite E in Hlen; simpl in Hlen; lia).
    destruct (merge_all fuel _ _ _ _) as [e|[[[ret2 regs2] ov2] m2]].
    + apply IH; [done|lia|].
      intros E. destruct (Hend E) as [-> ?]. by destruct (Hm (Hq E)) as [-> _].
    + destruct IH as (? & ? & ?); [done|lia| |].
      { intros E. destruct (Hend E) as [-> ?]. by destruct (Hm (Hq E)) as [-> _]. }
      split_and!; try done. by etrans.
  - split; [destruct regs; simpl in *; done || lia|]. done.
Qed.

(** ** RegionValidate *)

(** What a batch operation promises about the boxes [l]. *)
Definition batch_ok (l : list Box) (reg : Region) : Prop :=
  wf_region true reg ∧ RegionIsValid reg = true ∧ (forall p, in_rects (RegionRects reg) p <-> in_rects l p).

Lemma merged_one reg seen ov :
  merged [reg] seen ov -> batch_ok seen reg ∧ (ov = true <-> overlaps seen).
Proof.
  intros (Bs & HF & Hp & Hov). apply Forall2_cons_inv_l in HF as (B & Bs' & Hreg & HF & ->).
  apply Forall2_nil_inv_l in HF as ->. simpl in Hp. rewrite app_nil_r in Hp.
  rewrite Exists_cons, Exists_nil in Hov.
  assert (HB : forall p, in_rects B p <-> in_rects seen p).
  { intros p. rewrite !in_rects_cover. by rewrite (cover_perm _ _ _ Hp). }
  assert (Ho : overlaps B <-> overlaps seen).
  { unfold overlaps. apply exist_proper. intros p. by rewrite (cover_perm _ _ _ Hp). }
  destruct Hreg as (Hwf & Hne & Hpts & Ht). split; [|rewrite Hov, <- Ho; tauto].
  split; [done|]. split; [by eapply wf_valid|]. intros [x y]. rewrite <- HB. apply Hpts.
Qed.

(** An unsorted collection: a block of nonempty boxes, with unset extents. *)
Definition collection (reg : Region) : Prop :=
  blk reg ∧ RegionRects reg ≠ [] ∧ Forall nonempty_box (RegionRects reg) ∧ x2 (extents reg) <= x1 (extents reg).

(** Step 2 from the first box. *)
Lemma scatter_first box seg junk size m :
  let l := box :: seg in
  StronglySorted rect_le l -> Forall nonempty_box l -> (length (l ++ junk) <= size)%nat ->
  match scatter (length l) (length seg) 4 [mkRI (mkRegion box (HeapData size 1 (l ++ junk))) 0 0] false m with
  | ScError _ => False
  | ScBail ris _ m' => oom m' = true ∧ (0 < box_room ris)%nat
  | ScDone ris ov m' => ris ≠ [] ∧ (oom m' = false -> scattered ris l ov)
  end.
Proof.
  intros l Hs Hne Hsz. set (reg := mkRegion box (HeapData size 1 (l ++ junk))).
  assert (Hlen : length l = S (length seg)) by done.
  rewrite length_app in Hsz.
  pose proof (scatter_spec l junk (length seg) 4 [mkRI reg 0 0] false m) as H. cbv zeta in H.
  replace (length l - length seg)%nat with 1%nat in H by lia.
  specialize (H ltac:(lia) Hs Hne).
  assert (Hb : blk reg) by (split; [by repeat eexists|]; unfold heap_ok; simpl; rewrite length_app; lia).
  assert (Hf : first_arr (length l) (l ++ junk) 1 [mkRI reg 0 0]).
  { exists (mkRI reg 0 0), []. split; [done|]. exists size, 1%nat, (l ++ junk). split_and!; try done; try lia;
      rewrite ?length_app; simpl in *; lia. }
  assert (Hsc : oom m = false -> scattered [mkRI reg 0 0] (take 1 l) false).
  { intros _. exists [[box]]. split_and!; [|done|].
    - constructor; [|constructor]. apply info_ok_new; try done. by apply Forall_cons in Hne as [? _].
    - split; [done|]. intros Hex. apply Exists_cons in Hex as [[p Hp]|Hex]; [|by apply Exists_nil in Hex].
      unfold cover in Hp. rewrite filter_cons, filter_nil in Hp. case_decide; simpl in Hp; lia. }
  specialize (H Hf Hsc). destruct (scatter _ _ _ _ _ _) as [| |ris ov m'] eqn:E; try done.
  destruct H as [_ H]. split; [|done]. by eapply scatter_nonempty.
Qed.

Lemma RegionValidate_post badreg m :
  collection badreg ->
  match RegionValidate badreg m with
  | inl e => err_oom e
  | inr (ok, reg, ov, m') => oom m' = false ->
      ok = true ∧ batch_ok (RegionRects badreg) reg ∧ (ov = true <-> overlaps (RegionRects badreg))
  end.
Proof.
  intros (Hb & Hne & Hnz & Hx). destruct (blk_inv _ Hb) as (size & junk & Hd & Hfit & Hsz).
  revert Hd Hfit Hne Hnz. generalize (RegionRects badreg). intros l Hd Hfit Hne Hnz.
  unfold RegionValidate. rewrite Hd. destruct l as [|b0 l0] eqn:El; [done|]. rewrite <- El in *.
  assert (Hlen : length l = S (length l0)) by (by rewrite El). rewrite Hlen.
  rewrite (proj2 (Z.ltb_ge _ _)) by lia.
  destruct (QuickSortRects_sorts (S (length l0)) (l ++ junk) (S (length l0))) as (srt & -> & seg & -> & Hperm & Hsort).
  { rewrite length_app. lia. } { lia. }
  rewrite <- Hlen, take_app_length in Hperm. rewrite <- Hlen, drop_app_length.
  destruct seg as [|box seg'] eqn:Eseg; [by apply Permutation_nil in Hperm|]. rewrite <- Eseg in *.
  assert (Hl : length seg = length l) by (by apply Permutation_length).
  replace (seg ++ junk) with (box :: seg' ++ junk) by (by rewrite Eseg). cbv iota beta.
  destruct (alloc_ri m) as [ok1 m1] eqn:Hal.
  assert (Hok1 : oom m1 = false -> ok1 = true ∧ oom m = false).
  { unfold alloc_ri in Hal. destruct (alloc _) as [b o]. injection Hal as <- <-. simpl. by destruct (oom m), b. }
  destruct ok1; cbn [negb]; [|intros Hm; by destruct (Hok1 Hm)].
  pose proof (scatter_first box seg' junk size m1) as Hsc. rewrite <- Eseg in Hsc.
  specialize (Hsc ltac:(done) ltac:(by rewrite Hperm) ltac:(rewrite length_app, Hl, <- length_app; done)).
  rewrite <- Hl. replace (length l0) with (length seg') by (rewrite Eseg in Hl; simpl in Hl; lia).
  change (box :: seg' ++ junk) with ((box :: seg') ++ junk). rewrite <- Eseg.
  destruct (scatter _ _ _ _ _ _) as [e|ris ov m2|ris ov m2]; [done|unfold bail|].
  { destruct Hsc as [Hm Hroom]. by destruct (Nat.ltb_spec 0 (box_room ris)); [|lia]. }
  destruct Hsc as (Hne2 & Hsc).
  pose proof (merge_all_spec (length ris) (map close_info ris) seg ov m2) as Hma.
  rewrite length_map in Hma. specialize (Hma ltac:(by destruct ris) ltac:(lia)).
  assert (Hcl : oom m2 = false -> merged (map close_info ris) seg ov).
  { intros Hm. destruct (Hsc Hm) as (Bs & HF & ? & ?). exists Bs. split; [|done].
    apply Forall2_fmap_l. eapply Forall2_impl; [exact HF|]. apply close_info_ok. }
  specialize (Hma Hcl).
  destruct (merge_all _ _ _ _ _) as [e|[[[ret regs] ov'] m3]]; [done|]. destruct Hma as (H1 & Hq & Hend).
  destruct regs as [|reg [|]]; try done. intros Hm. destruct (Hend Hm) as [-> Hmg]. split; [done|].
  destruct (merged_one _ _ _ Hmg) as [(Hwf & Hv & Hpts) Hov]. split.
  - split_and!; try done. intros p. rewrite Hpts, !in_rects_cover. by rewrite (cover_perm _ _ _ Hperm).
  - rewrite Hov. unfold overlaps. apply exist_proper. intros p. by rewrite (cover_perm _ _ _ Hperm).
Qed.
