(* ===== verification/RegionTheorems.v ===== *)
(** * RegionTheorems: the properties of dix/region.c

    What the generic sweep, the batch union and the constructors of regions
    promise, with runs on concrete regions. *)

From stdpp Require Import base numbers list sorting.
From S2P Require Import Prelude Bands Region RegionOp RegionSweep RegionSort RegionValidate.
From S2P Require Import RegionBatch RegionScatter RegionMerge.

(** ** RegionAppend *)

(** A region under construction by [RegionAppend]: while its extents are set it is
    banded and they are exact. *)
Definition collecting (reg : Region) : Prop :=
  match data reg with
  | NullData => nonempty_box (extents reg)
  | EmptyData => x1 (extents reg) = x2 (extents reg) ∧ y1 (extents reg) = y2 (extents reg)
  | BrokenData => False
  | HeapData _ _ _ => heap_ok reg ∧ RegionRects reg ≠ [] ∧ Forall nonempty_box (RegionRects reg) ∧
      (x1 (extents reg) < x2 (extents reg) -> banded false (RegionRects reg) ∧ tight (extents reg) (points reg))
  end.

Lemma spans_from_app lo s1 s2 :
  spans_from lo (s1 ++ s2) <-> spans_from lo s1 ∧ spans_from (send lo s1) s2.
Proof.
  revert lo; induction s1 as [|[a b] s1 IH]; intros lo; simpl; [unfold send; simpl; tauto|].
  rewrite send_cons, IH. tauto.
Qed.

Lemma bboxes_app t b s1 s2 : bboxes t b (s1 ++ s2) = bboxes t b s1 ++ bboxes t b s2.
Proof. unfold bboxes. apply map_app. Qed.

(** Two banded lists where the second follows the first are a banded list. *)
Lemma banded_app l1 l2 :
  banded false l1 -> banded false l2 -> l1 ≠ [] -> l2 ≠ [] ->
  follows (default RegionEmptyBox (head l2)) (default RegionEmptyBox (last l1)) = true ->
  banded false (l1 ++ l2).
Proof.
  intros (bs1 & -> & lo1 & H1) (bs2 & -> & lo2 & H2) Hne1 Hne2 Hf.
  destruct (exists_last (l := bs1)) as (bs & [[t b] s] & ->); [by intros ->|].
  destruct bs2 as [|[[t' b'] s'] bs2]; [done|].
  apply bands_from_app in H1 as [H1 (Hlo & Htb & Hns & Hs & _ & _)].
  destruct H2 as (Hlo2 & Htb' & Hns' & Hs' & _ & H2).
  assert (Hlast : exists s0 x x', s = s0 ++ [(x, x')] ∧ last (flat (bs ++ [(t, b, s)])) = Some (mkBox x t x' b)).
  { destruct (exists_last Hns) as (s0 & [x x'] & ->). exists s0, x, x'. split; [done|].
    rewrite flat_app. simpl. unfold bboxes. rewrite map_app, app_nil_r, app_assoc. simpl. by rewrite last_snoc. }
  destruct Hlast as (s0 & x & x' & Es & El). rewrite El in Hf. destruct s' as [|[a a'] s']; [done|]. simpl in Hf.
  unfold follows in Hf. simpl in Hf. rewrite flat_app.
  destruct (Z.ltb_spec b t') as [Hlt|Hge]; simpl in Hf.
  - exists (bs ++ (t, b, s) :: (t', b', (a, a') :: s') :: bs2). split; [rewrite flat_app; simpl; by rewrite app_nil_r, <- app_assoc|].
    exists lo1. apply bands_from_app. split; [done|]. simpl. split_and!; try done; lia.
  - apply andb_true_iff in Hf as [Hf Hx%Z.ltb_lt]. apply andb_true_iff in Hf as [Ht%Z.eqb_eq Hb%Z.eqb_eq]. subst t' b'.
    exists (bs ++ (t, b, s ++ (a, a') :: s') :: bs2). split.
    { rewrite flat_app. simpl. rewrite bboxes_app, app_nil_r, <- !app_assoc. done. }
    exists lo1. apply bands_from_app. split; [done|]. simpl. split_and!; try done; try lia.
    + by destruct s.
    + destruct Hs as [l Hs], Hs' as [l' Hs']. exists l. apply spans_from_app. split; [done|].
      rewrite Es. unfold send. rewrite last_snoc. destruct Hs' as (? & ? & ?). by split_and!.
    + destruct bs2 as [|[[? ?] ?] ?]; [done|]. simpl in *. split_and!; try done; tauto.
Qed.

Lemma banded_one b : nonempty_box b -> banded false [b].
Proof.
  intros [? ?]. exists [(y1 b, y2 b, [(x1 b, x2 b)])]. split; [by destruct b|].
  exists (y1 b). simpl. split_and!; try done; try lia. exists (x1 b - 1). simpl. lia.
Qed.

Lemma points_one reg x y : RegionRects reg = [extents reg] -> points reg x y <-> in_box (extents reg) (x, y) = true.
Proof. unfold points, in_rects. intros ->. rewrite Exists_cons, Exists_nil. tauto. Qed.

Lemma collecting_facts reg :
  collecting reg ->
  growable reg ∧ RegionNumRects reg = length (RegionRects reg) ∧ Forall nonempty_box (RegionRects reg) ∧
  (RegionRects reg = [] -> data reg = EmptyData) ∧
  (RegionRects reg ≠ [] -> x1 (extents reg) < x2 (extents reg) ->
   banded false (RegionRects reg) ∧ tight (extents reg) (points reg)).
Proof.
  intros H. destruct (data reg) as [| | |size num bx] eqn:Hd; unfold collecting in H; rewrite Hd in H.
  - assert (E : RegionRects reg = [extents reg]) by (unfold RegionRects; by rewrite Hd).
    rewrite E. split_and!; [by left|unfold RegionNumRects; by rewrite Hd|by constructor; [|constructor]|done|].
    intros _ _. split; [by apply banded_one|]. eapply tight_ext; [by apply tight_box|]. intros x y. by rewrite points_one.
  - assert (E : RegionRects reg = []) by (unfold RegionRects; by rewrite Hd).
    rewrite E. split_and!; try done; [|unfold RegionNumRects; by rewrite Hd]. right. unfold heap_ok. by rewrite Hd.
  - done.
  - destruct H as (Ho & Hne & Hnz & Ht). assert (Hb : blk reg) by (split; [by repeat eexists|done]).
    split_and!; try done; [by right|by apply blk_num].
Qed.

Lemma push_front_spec reg bs :
  blk reg -> (RegionNumRects reg + length bs <= RegionSize reg)%nat ->
  let reg' := push_front reg bs in
  blk reg' ∧ RegionRects reg' = bs ++ RegionRects reg ∧ extents reg' = extents reg.
Proof.
  intros Hb Hfit. rewrite (blk_num _ Hb) in Hfit.
  destruct (blk_inv _ Hb) as (size & junk & Hd & Hlen & Hsz).
  unfold push_front, RegionSize in *. rewrite Hd in *. rewrite take_app_length.
  set (junk' := drop _ _). unfold set_data. rewrite app_assoc, (Nat.add_comm (length (RegionRects reg))), <- length_app.
  destruct (blk_intro (extents reg) size (bs ++ RegionRects reg) junk') as [? ?]; [|done|done].
  subst junk'. rewrite !length_app, length_drop, length_app in *. lia.
Qed.

(** The second of two lists that follow each other lies lower. *)
Lemma follow_extents l1 l2 e1 e2 :
  banded false l1 -> banded false l2 -> l1 ≠ [] -> l2 ≠ [] ->
  tight e1 (fun x y => in_rects l1 (x, y)) -> tight e2 (fun x y => in_rects l2 (x, y)) ->
  follows (default RegionEmptyBox (head l2)) (default RegionEmptyBox (last l1)) = true ->
  y1 e1 <= y1 e2 ∧ y2 e1 <= y2 e2.
Proof.
  intros Hb1 Hb2 Hn1 Hn2 Ht1 Ht2 Hf.
  assert (Htop : forall l e, banded false l -> l ≠ [] -> tight e (fun x y => in_rects l (x, y)) ->
    y1 e = y1 (default RegionEmptyBox (head l)) ∧ y2 e = y2 (default RegionEmptyBox (last l)) ∧
    y1 (default RegionEmptyBox (last l)) < y2 (default RegionEmptyBox (last l)) ∧
    y1 e <= y1 (default RegionEmptyBox (last l)) ∧
    y2 (default RegionEmptyBox (head l)) <= y2 e).
  { intros [|p rest] e Hb Hne Ht; [done|]. rewrite (tight_unique _ _ _ Ht (scan_tight _ _ _ Hb)).
    destruct (widen_fold rest (mkBox (x1 p) (y1 p) (x2 p) (y2 (default p (last (p :: rest)))))) as (E1 & E2 & _).
    rewrite E1, E2. simpl (y1 (mkBox _ _ _ _)). simpl (y2 (mkBox _ _ _ _)).
    assert (Hl : default p (last (p :: rest)) = default RegionEmptyBox (last (p :: rest))).
    { destruct (last (p :: rest)) eqn:E; [done|by apply last_None in E]. }
    assert (Hin : default p (last (p :: rest)) ∈ p :: rest).
    { destruct (last (p :: rest)) as [q|] eqn:E; [|by apply last_None in E]. simpl. by apply last_Some_elem_of. }
    rewrite <- Hl. assert (Hnz := banded_nonempty _ _ Hb). rewrite Forall_forall in Hnz.
    pose proof (banded_top_bottom _ _ _ Hb) as Hy. destruct (Hnz _ Hin) as [? ?].
    destruct (Hnz p) as [? ?]; [by left|]. split_and!; try done.
    - specialize (Hy (x1 (default p (last (p :: rest)))) (y1 (default p (last (p :: rest))))).
      destruct Hy; [|lia]. eapply in_rects_elem; [exact Hin|]. apply in_box_spec. lia.
    - specialize (Hy (x1 p) (y2 p - 1)). simpl (head _). simpl (default RegionEmptyBox (Some _)).
      destruct Hy; [|lia]. eapply in_rects_elem; [by left|]. apply in_box_spec. lia. }
  destruct (Htop _ _ Hb1 Hn1 Ht1) as (? & ? & ? & ? & ?), (Htop _ _ Hb2 Hn2 Ht2) as (? & ? & ? & ? & ?).
  unfold follows in Hf. lia.
Qed.

(** The extents after an append, for banded operands. *)
Lemma append_extents_spec dst rgn d junk :
  RegionBoxptr dst = d ++ junk -> d ≠ [] -> RegionRects rgn ≠ [] ->
  banded false d -> tight (extents dst) (fun x y => in_rects d (x, y)) ->
  banded false (RegionRects rgn) -> tight (extents rgn) (points rgn) ->
  let '(e, prepend) := append_extents dst rgn (length d) in
  let l := if prepend : bool then RegionRects rgn ++ d else d ++ RegionRects rgn in
  x1 e < x2 e -> banded false l ∧ tight e (fun x y => in_rects l (x, y)).
Proof.
  intros Hbox Hd Hr Hbd Htd Hbr Htr. unfold append_extents. rewrite Hbox.
  destruct (Nat.eqb_spec (length d) 0) as [Hz|_]; [by apply nil_length_inv in Hz|].
  destruct (exists_last Hd) as (d0 & dl & Ed).
  assert (Hlast : (d ++ junk) !! (length d - 1)%nat = last d).
  { rewrite Ed, last_snoc, length_app. simpl. rewrite <- app_assoc, lookup_app_r by lia.
    by replace (length d0 + 1 - 1 - length d0)%nat with 0%nat by lia. }
  assert (Hhead : head (d ++ junk) = head d) by (by destruct d).
  rewrite Hlast, Hhead. unfold points in Htr.
  pose proof (tight_union _ _ _ _ Htd Htr) as Hu.
  assert (Hcorner : forall e P, tight e P -> x1 e < x2 e ∧ y1 e < y2 e).
  { intros e P (Hin & [y Hl] & _ & [x Ht] & _). apply Hin, in_box_spec in Hl, Ht. lia. }
  destruct (Hcorner _ _ Htd) as [Hdx Hdy], (Hcorner _ _ Htr) as [Hrx Hry].
  rewrite (proj2 (Z.ltb_lt _ _) Hdx). revert Hu Hbr Hr Htr. generalize (RegionRects rgn) as r. intros r Hu Hbr Hr Htr.
  destruct (follows _ (default RegionEmptyBox (last d))) eqn:F1; [|destruct (follows _ (default RegionEmptyBox (last r))) eqn:F2].
  - intros _. split; [by apply banded_app|].
    destruct (follow_extents _ _ _ _ Hbd Hbr Hd Hr Htd Htr F1) as [E1 E2].
    replace (mkBox _ _ _ _) with (hull (extents dst) (extents rgn)).
    + eapply tight_ext; [exact Hu|]. intros x y; simpl. by rewrite in_rects_app.
    + unfold hull. f_equal; lia.
  - intros _. split; [by apply banded_app|].
    destruct (follow_extents _ _ _ _ Hbr Hbd Hr Hd Htr Htd F2) as [E1 E2].
    replace (mkBox _ _ _ _) with (hull (extents dst) (extents rgn)).
    + eapply tight_ext; [exact Hu|]. intros x y; simpl. rewrite in_rects_app. tauto.
    + unfold hull. f_equal; lia.
  - simpl. lia.
Qed.

(** The general path of [RegionAppend]. *)
Lemma append_general dst rgn m ok dst1 m1 :
  collecting dst -> wf_region false rgn -> RegionRects rgn ≠ [] -> tight (extents rgn) (points rgn) ->
  RECTALLOC dst (let n := RegionNumRects rgn in
    if (RegionNumRects dst =? 0)%nat && (n <? 200)%nat then 200%nat else n) m = (ok, dst1, m1) ->
  oom m1 = false ->
  let '(e, prepend) := append_extents dst1 rgn (RegionNumRects dst) in
  let out := (if prepend : bool then push_front else push_boxes) (set_extents dst1 e) (RegionRects rgn) in
  ok = true ∧ collecting out ∧ RegionRects out ≡ₚ RegionRects dst ++ RegionRects rgn.
Proof.
  intros Hc [Hcr Hbr] Hr Htr Ha Hm.
  destruct (collecting_facts _ Hc) as (Hg & Hn & Hnz & _ & Ht). rewrite Hn, (compact_num _ Hcr) in Ha.
  assert (Hrl : (0 < length (RegionRects rgn))%nat) by (destruct (RegionRects rgn); simpl; [done|lia]).
  set (sz := if _ && _ then _ else _) in Ha.
  assert (Hsz : (0 < sz)%nat ∧ (length (RegionRects rgn) <= sz)%nat).
  { subst sz. destruct (_ =? _)%nat, (Nat.ltb_spec (length (RegionRects rgn)) 200); simpl; lia. }
  destruct (RECTALLOC_spec _ _ _ _ _ _ Ha ltac:(lia) Hm Hg) as (-> & _ & Hh & Ho & Hr1 & He1 & Hfit).
  assert (Hb1 : blk dst1) by done. destruct (blk_inv _ Hb1) as (size & junk & Hd1 & _).
  assert (Hbp : RegionBoxptr dst1 = RegionRects dst ++ junk) by (unfold RegionBoxptr; by rewrite Hd1, Hr1).
  assert (Hext : let '(e, prepend) := append_extents dst1 rgn (RegionNumRects dst) in
    let l := if prepend : bool then RegionRects rgn ++ RegionRects dst else RegionRects dst ++ RegionRects rgn in
    x1 e < x2 e -> banded false l ∧ tight e (fun x y => in_rects l (x, y))).
  { rewrite Hn. destruct (decide (RegionRects dst = [])) as [E|E]; [rewrite E; done|].
    destruct (Z.lt_decidable (x1 (extents dst)) (x2 (extents dst))) as [Hx|Hx].
    - destruct (Ht E Hx) as [Hbd Htd]. apply (append_extents_spec dst1 rgn _ junk); try done. by rewrite He1.
    - unfold append_extents. rewrite He1, (proj2 (Z.ltb_ge (x1 (extents dst)) _)) by lia.
      destruct (Nat.eqb_spec (length (RegionRects dst)) 0) as [Hz|_]; [by apply nil_length_inv in Hz|]. done. }
  destruct (append_extents _ _ _) as [e prepend]. cbv zeta in Hext |- *.
  set (out := (if prepend then push_front else push_boxes) _ _).
  assert (Hout : blk out ∧ RegionRects out = (if prepend then RegionRects rgn ++ RegionRects dst else RegionRects dst ++ RegionRects rgn)
                 ∧ extents out = e).
  { assert (Hrs : RegionRects (set_extents dst1 e) = RegionRects dst) by (rewrite <- Hr1; unfold RegionRects; simpl; by rewrite Hd1).
    subst out. destruct prepend.
    - destruct (push_front_spec (set_extents dst1 e) (RegionRects rgn)) as (? & Hrr & ?); [done|unfold RegionNumRects, RegionSize in *; simpl; lia|].
      by rewrite Hrr, Hrs.
    - destruct (push_boxes_room (set_extents dst1 e) (RegionRects rgn)) as (? & ? & Hrr & ? & _); try done;
        [unfold RegionNumRects, RegionSize in *; simpl; lia|]. by rewrite Hrr, Hrs. }
  destruct Hout as (Hbo & Hro & Heo). split; [done|].
  assert (Hperm : RegionRects out ≡ₚ RegionRects dst ++ RegionRects rgn) by (rewrite Hro; destruct prepend; [apply Permutation_app_comm|done]).
  split; [|done]. unfold collecting. destruct (proj1 Hbo) as (sz' & num & bx & Hdo). rewrite Hdo.
  split_and!; [by destruct Hbo|intros E; rewrite E in Hperm; apply Permutation_nil in Hperm; by destruct (RegionRects dst), (RegionRects rgn)| |].
  - rewrite Hperm. apply Forall_app. split; [done|by eapply banded_nonempty].
  - unfold points. rewrite Heo, Hro. exact Hext.
Qed.

(** ** RegionValidate on a collection *)

Lemma cover_bboxes lo t b s x y :
  spans_from lo s -> (cover (bboxes t b s) (x, y) <= 1)%nat ∧ ((0 < cover (bboxes t b s) (x, y))%nat -> t <= y < b).
Proof.
  intros Hs. split.
  - transitivity (scover s x); [|by eapply scover_spans_from]. clear Hs.
    induction s as [|[a a'] s IH]; [done|]. change (bboxes t b ((a, a') :: s)) with ([mkBox a t a' b] ++ bboxes t b s).
    change ((a, a') :: s) with ([(a, a')] ++ s). rewrite cover_app, scover_app, scover_one.
    assert (H : (cover [mkBox a t a' b] (x, y) <= if decide (a <= x < a')%Z then 1 else 0)%nat); [|lia].
    unfold cover. rewrite filter_cons, filter_nil. destruct (decide (in_box _ _ = true)) as [Hi|]; [|simpl; lia].
    apply in_box_spec in Hi. simpl in Hi. case_decide; simpl; lia.
  - intros Hc%in_rects_cover. apply in_rects_bboxes in Hc. tauto.
Qed.

Lemma banded_no_overlap c l : banded c l -> ¬ overlaps l.
Proof.
  intros (bs & -> & lo & H0) [[x y] Hp].
  enough (H : (cover (flat bs) (x, y) <= 1)%nat) by lia. clear Hp. revert lo H0. generalize (@nil span) as ps.
  induction bs as [|[[t b] s] bs IH]; intros ps lo; simpl; [unfold cover; simpl; lia|].
  intros (_ & Htb & _ & [l Hs] & _ & Hbs). rewrite cover_app. specialize (IH _ _ Hbs).
  destruct (cover_bboxes l t b s x y Hs) as [H1 H2].
  destruct (decide (0 < cover (flat bs) (x, y))%nat) as [Hpos|]; [|lia].
  apply in_rects_cover, in_rects_flat, (bands_from_lower _ _ _ _ _ _ Hbs) in Hpos. lia.
Qed.

(** What [RegionValidate] makes of the boxes [l]. *)
Definition validated (l : list Box) (reg : Region) (ov : bool) : Prop :=
  wf_region false reg ∧ RegionIsValid reg = true ∧
  (forall p, in_rects (RegionRects reg) p <-> in_rects l p) ∧ (ov = true <-> overlaps l).

Lemma wf_coarse reg : wf_region true reg -> wf_region false reg.
Proof.
  intros [Hc (bs & ? & lo & H)]. split; [done|]. exists bs. split; [done|]. exists lo. by apply bands_from_c.
Qed.

Lemma validate_banded reg m :
  blk reg -> RegionRects reg ≠ [] -> banded false (RegionRects reg) -> tight (extents reg) (points reg) ->
  x1 (extents reg) < x2 (extents reg) ->
  exists reg' m', RegionValidate reg m = inr (true, reg', false, m') ∧ validated (RegionRects reg) reg' false.
Proof.
  intros Hb Hne Hbd Ht Hx. destruct (blk_inv _ Hb) as (size & junk & Hd & _).
  assert (Hno := banded_no_overlap _ _ Hbd). unfold RegionValidate. rewrite Hd.
  destruct (length (RegionRects reg)) as [|n] eqn:Hl; [by apply nil_length_inv in Hl|]. cbv zeta. rewrite <- Hl.
  rewrite (proj2 (Z.ltb_lt _ _) Hx). destruct (Nat.eqb_spec (length (RegionRects reg)) 1) as [H1|H1].
  - destruct (RegionRects reg) as [|b [|]] eqn:Hr; try done.
    assert (b = extents reg) as E.
    { apply banded_nonempty, Forall_cons in Hbd as [Hbne _].
      apply (tight_unique b _ _ (tight_box _ Hbne)). eapply tight_ext; [exact Ht|]. intros x y.
      unfold points, in_rects. rewrite Hr, Exists_cons, Exists_nil. tauto. }
    eexists _, _. split; [done|]. rewrite E in *.
    assert (Hwf : wf_region false (set_data reg NullData)) by (split; [done|exact Hbd]).
    split_and!; try done; try tauto. eapply wf_valid; [exact Hwf|done|].
    eapply tight_ext; [exact Ht|]. intros x y. unfold points. by rewrite Hr.
  - destruct (DOWNSIZE _ _ _) as [reg' m'] eqn:Hds.
    destruct (DOWNSIZE_spec _ _ _ _ _ Hds (proj2 Hb) (proj1 Hb)) as (Ho & Hh & Hr' & He & _);
      [by rewrite (blk_num _ Hb)|lia|].
    eexists _, _. split; [done|].
    assert (Hwf : wf_region false reg').
    { split; [|by rewrite Hr']. unfold compact. pose proof (blk_num _ (conj Hh Ho)) as Hn. rewrite Hr' in Hn.
      destruct Hh as (sz & num & bx & E). unfold RegionNumRects in Hn. rewrite E in *. split; [done|lia]. }
    split_and!; [done|eapply wf_valid; [exact Hwf|by rewrite Hr'|]|by rewrite Hr'|split; [done|tauto]].
    rewrite He. eapply tight_ext; [exact Ht|]. intros x y. unfold points. by rewrite Hr'.
Qed.

Lemma validate_collecting reg m :
  collecting reg ->
  match RegionValidate reg m with
  | inl e => err_oom e
  | inr (ok, reg', ov, m') => oom m' = false -> ok = true ∧ validated (RegionRects reg) reg' ov
  end.
Proof.
  intros Hc. assert (Hc' := Hc). unfold collecting in Hc'. destruct (data reg) as [| | |size num bx] eqn:Hd; try done.
  - unfold RegionValidate. rewrite Hd. intros _. split; [done|].
    assert (E : RegionRects reg = [extents reg]) by (unfold RegionRects; by rewrite Hd).
    assert (Hwf : wf_region false reg).
    { split; [unfold compact; by rewrite Hd|rewrite E; by apply banded_one]. }
    assert (Hno : ¬ overlaps (RegionRects reg)) by (eapply banded_no_overlap, Hwf).
    split_and!; try done; try tauto. eapply wf_valid; [done|by rewrite E|].
    eapply tight_ext; [by apply tight_box|]. intros x y. by rewrite points_one.
  - unfold RegionValidate, RegionNar. rewrite Hd. intros _. split; [done|].
    assert (E : RegionRects reg = []) by (unfold RegionRects; by rewrite Hd). rewrite E.
    split_and!; [|unfold RegionIsValid, RegionNumRects; rewrite Hd|by rewrite E|].
    + split; [unfold compact; by rewrite Hd|rewrite E]. exists []. split; [done|]. by exists 0.
    + destruct Hc' as [H1 H2]. rewrite H1, H2, !Z.ltb_irrefl, !Z.eqb_refl. done.
    + split; [done|]. intros [p Hp]. unfold cover in Hp. simpl in Hp. lia.
  - destruct Hc' as (Ho & Hne & Hnz & Ht).
    assert (Hb : blk reg) by (split; [by repeat eexists|done]).
    destruct (Z.lt_decidable (x1 (extents reg)) (x2 (extents reg))) as [Hx|Hx].
    + destruct (Ht Hx) as [Hbd Htt]. destruct (validate_banded reg m Hb Hne Hbd Htt Hx) as (reg' & m' & -> & ?). done.
    + pose proof (RegionValidate_post reg m) as Hp.
      destruct (RegionValidate reg m) as [e|[[[ok reg'] ov] m']]; [apply Hp|].
      { split_and!; try done; lia. }
      intros Hm. destruct Hp as (-> & (Hwf & Hv & Hpts) & Hov); [split_and!; try done; lia|done|].
      split; [done|]. split_and!; try done. by apply wf_coarse.
Qed.

(** ** RegionFromRects *)

(** The ranges of the fields of an [xRectangle]. *)
Definition valid_rect (r : xRectangle) : Prop :=
  -32768 <= rx r <= MAXSHORT ∧ -32768 <= ry r <= MAXSHORT ∧ 0 <= rwidth r < 65536 ∧ 0 <= rheight r < 65536.

(** The points of a rectangle that a region can hold. *)
Definition in_rect (p : Z * Z) (r : xRectangle) : Prop :=
  rx r <= fst p < rx r + rwidth r ∧ ry r <= snd p < ry r + rheight r ∧ fst p < MAXSHORT ∧ snd p < MAXSHORT.

Lemma rect_box_spec r :
  valid_rect r ->
  match rect_box r with
  | Some b => nonempty_box b ∧ forall p, in_box b p = true <-> in_rect p r
  | None => forall p, ¬ in_rect p r
  end.
Proof.
  unfold valid_rect, rect_box, in_rect, nonempty_box, MAXSHORT. intros (? & ? & ? & ?).
  set (x2 := if 32767 <? rx r + rwidth r then _ else _). set (y2 := if 32767 <? ry r + rheight r then _ else _).
  assert (Hx2 : x2 = Z.min 32767 (rx r + rwidth r)) by (subst x2; destruct (Z.ltb_spec 32767 (rx r + rwidth r)); lia).
  assert (Hy2 : y2 = Z.min 32767 (ry r + rheight r)) by (subst y2; destruct (Z.ltb_spec 32767 (ry r + rheight r)); lia).
  clearbody x2 y2. destruct (Z.eqb_spec (rx r) x2), (Z.eqb_spec (ry r) y2); simpl; try (intros [x y]; simpl; lia).
  split; [lia|]. intros [x y]. rewrite in_box_spec. simpl. lia.
Qed.

Lemma omap_boxes rects :
  Forall valid_rect rects ->
  Forall nonempty_box (omap rect_box rects) ∧
  forall p, in_rects (omap rect_box rects) p <-> Exists (in_rect p) rects.
Proof.
  induction rects as [|r rects IH]; simpl; intros Hv.
  { split; [constructor|]. intros p. unfold in_rects. by rewrite !Exists_nil. }
  apply Forall_cons in Hv as [Hr Hv]. destruct (IH Hv) as [Hn Hp]. pose proof (rect_box_spec r Hr) as Hb.
  destruct (rect_box r) as [b|].
  - destruct Hb as [Hbn Hbp]. split; [by constructor|]. intros p. unfold in_rects. by rewrite !Exists_cons, Hbp, <- Hp.
  - split; [done|]. intros p. rewrite Exists_cons, Hp. specialize (Hb p). tauto.
Qed.

(** A region that is exactly the union of the rectangles. *)
Definition union_of (rects : list xRectangle) (reg : Region) : Prop :=
  wf_region true reg ∧ RegionIsValid reg = true ∧
  forall p, in_rects (RegionRects reg) p <-> Exists (in_rect p) rects.

Lemma union_of_none rects :
  (forall p, ¬ Exists (in_rect p) rects) -> union_of rects (mkRegion RegionEmptyBox EmptyData).
Proof.
  intros Hno. split; [split; [done|]; exists []; split; [done|]; by exists 0|]. split; [done|].
  intros p. split; [by intros ?%Exists_nil|]. intros H. by destruct (Hno p).
Qed.

Lemma union_of_one r b :
  valid_rect r -> rect_box r = Some b -> union_of [r] (mkRegion b NullData).
Proof.
  intros Hv Hb. pose proof (rect_box_spec r Hv) as Hs. rewrite Hb in Hs. destruct Hs as [Hn Hp].
  assert (Hwf : wf_region true (mkRegion b NullData)).
  { split; [done|]. destruct Hn. exists [(y1 b, y2 b, [(x1 b, x2 b)])]. split; [by destruct b|].
    exists (y1 b). simpl. split_and!; try done; try lia. exists (x1 b - 1). simpl. lia. }
  split; [done|]. split.
  - eapply wf_valid; [exact Hwf|done|]. eapply tight_ext; [by apply tight_box|]. intros x y. by rewrite points_one.
  - intros p. unfold RegionRects, in_rects. simpl. by rewrite !Exists_cons, !Exists_nil, Hp.
Qed.

Lemma RegionCreate_empty m reg m1 :
  RegionCreate None 0 m = (reg, m1) ->
  (reg = mkRegion RegionEmptyBox EmptyData ∧ oom m1 = oom m) ∨ (reg = RegionBrokenRegion ∧ oom m1 = true).
Proof.
  unfold RegionCreate. destruct (alloc _) as [[] o]; intros [= <- <-]; [left|right]; simpl; (split; [done|]);
    by rewrite ?orb_false_r, ?orb_true_r.
Qed.

Lemma omap_box_cons r rects :
  omap rect_box (r :: rects) =
  match rect_box r with Some b => b :: omap rect_box rects | None => omap rect_box rects end.
Proof. done. Qed.

Lemma from_rects_spec rects m :
  Forall valid_rect rects ->
  match RegionFromRects rects false m with
  | inl e => err_oom e
  | inr (reg, m') => oom m' = false -> union_of rects reg
  end.
Proof.
  intros Hv. unfold RegionFromRects. destruct (RegionCreate None 0 m) as [pRgn m1] eqn:Hc.
  destruct (RegionCreate_empty _ _ _ Hc) as [[-> _]|[-> Hm1]]; [|simpl; intros; congruence].
  cbn [RegionNar data]. destruct (omap_boxes _ Hv) as [Hn Hp].
  destruct rects as [|r [|r' rects']] eqn:Er.
  - intros _. apply union_of_none. by intros p ?%Exists_nil.
  - apply Forall_cons in Hv as [Hr _]. pose proof (rect_box_spec r Hr) as Hb. destruct (rect_box r) as [b|] eqn:E; intros _.
    + by apply union_of_one.
    + apply union_of_none. intros p Hex. apply Exists_cons in Hex as [?|Hex]; [by apply (Hb p)|by apply Exists_nil in Hex].
  - rewrite <- Er in *. destruct (alloc_rects _ m1) as [ok m2] eqn:Ha.
    destruct ok; cbn [negb]; [|intros Hm; by destruct (alloc_rects_spec _ _ _ _ Ha Hm)].
    assert (Hlen : (length (omap rect_box rects) <= length rects)%nat).
    { clear. induction rects as [|x l IH]; [done|]. rewrite omap_box_cons. destruct (rect_box x); simpl; lia. }
    destruct (omap rect_box rects) as [|b0 boxes] eqn:Eb.
    + intros _. apply union_of_none. intros p Hex%Hp. by apply Exists_nil in Hex.
    + rewrite <- Eb in *. set (reg := set_extents _ _).
      assert (Hrr : RegionRects reg = omap rect_box rects) by (unfold reg, RegionRects; simpl; by rewrite take_ge).
      assert (Hcol : collection reg).
      { split_and!; [|by rewrite Hrr, Eb|by rewrite Hrr|simpl; lia].
        split; [by repeat eexists|]. unfold heap_ok. simpl. rewrite Er in *. simpl in *. lia. }
      pose proof (RegionValidate_post reg m2 Hcol) as Hpost.
      destruct (RegionValidate reg m2) as [e|[[[ok reg'] ov] m']]; [done|]. intros Hm.
      destruct (Hpost Hm) as (_ & (Hwf & Hval & Hpts) & _). split_and!; try done.
      intros p. by rewrite Hpts, Hrr, Hp.
Qed.

(** Regions of equal points have equal rectangles and extents. *)
Lemma union_of_unique rects rects' reg reg' :
  union_of rects reg -> union_of rects' reg' ->
  (forall p, Exists (in_rect p) rects <-> Exists (in_rect p) rects') -> RegionRects reg = RegionRects reg'.
Proof.
  intros ([_ Hb] & _ & Hp) ([_ Hb'] & _ & Hp') Heq. apply canonical_unique; try done.
  intros p. by rewrite Hp, Hp', Heq.
Qed.

(** ** The properties *)

(** A run of union on two overlapping squares, and its operands. *)
Definition square (x y n : Z) : Region := mkRegion (mkBox x y (x + n) (y + n)) NullData.

Lemma square_wf x y n : 0 < n -> wf_region true (square x y n) ∧ growable (square x y n).
Proof.
  intros Hn. split; [|by left]. split; [done|].
  exists [(y, y + n, [(x, x + n)])]. split; [done|]. exists y. simpl. split_and!; try done; try lia.
  exists (x - 1). simpl. lia.
Qed.

(** C1: the generic region operation.  For any overlap procedure that meets the
    interface, on regions in banded form with rectangles, [RegionOp] terminates
    and fails only when memory was refused; otherwise the result is banded
    (coalesced if the operands are), covers exactly the points the operation
    asks for, and the overlap flag is raised exactly when asked to and the operands
    share a point.  The destination may be either operand. *)
Theorem RegionOp_correct f a1 a2 a12 report c dest reg1 reg2 same1 same2 ov m :
  OverlapProc f a1 a2 a12 report ->
  wf_region c reg1 -> wf_region c reg2 -> RegionRects reg1 ≠ [] -> RegionRects reg2 ≠ [] -> growable dest ->
  match RegionOp f a1 a2 dest reg1 reg2 same1 same2 ov m with
  | inl (StaleHeader m') => oom m' = true
  | inl _ => False
  | inr (ok, reg', ov', m') => oom m' = false ->
      ok = true ∧ wf_region c reg' ∧
      (forall x y, points reg' x y <-> region_sem a1 a2 a12 (points reg1 x y) (points reg2 x y)) ∧
      (ov' = true <-> ov = true ∨ (report = true ∧ exists x y, points reg1 x y ∧ points reg2 x y)) ∧
      (extents reg' = extents dest ∨ RegionRects reg' = [extents reg'])
  end.
Proof. intros Hf. exact (RegionOp_post (f := f) c dest reg1 reg2 same1 same2 ov m). Qed.

Lemma RegionOp_correct_witness :
  exists reg' m', RegionOp RegionUnionO true true (square 0 0 4) (square 0 0 4) (square 2 2 4) true false false (mkMem [] false)
                  = inr (true, reg', true, m') ∧ wf_region true reg' ∧
                  RegionRects reg' = [mkBox 0 0 4 2; mkBox 0 2 6 4; mkBox 2 4 6 6].
Proof.
  assert (H := RegionOp_correct RegionUnionO true true true true true (square 0 0 4) (square 0 0 4) (square 2 2 4)
    true false false (mkMem [] false) _ (proj1 (square_wf 0 0 4 ltac:(lia))) (proj1 (square_wf 2 2 4 ltac:(lia)))
    ltac:(discriminate) ltac:(discriminate) (proj2 (square_wf 0 0 4 ltac:(lia)))).
  revert H. destruct (RegionOp _ _ _ _ _ _ _ _ _ _) as [e|[[[ok reg'] ov'] m']] eqn:E; vm_compute in E; [discriminate|].
  injection E as <- <- <- <-. intros H. eexists _, _. split; [reflexivity|].
  destruct (H eq_refl) as (_ & Hwf & _). split; [exact Hwf|reflexivity].
Defined.

(** Bars of width 1 every 4 units, upright and lying. *)
Definition block_of (e : Box) (l : list Box) : Region := mkRegion e (HeapData (length l) (length l) l).
Definition upright : Region :=
  block_of (mkBox 0 0 9 9) [mkBox 0 0 1 9; mkBox 4 0 5 9; mkBox 8 0 9 9].
Definition lying : Region :=
  block_of (mkBox 0 0 9 9) [mkBox 0 1 9 2; mkBox 0 4 9 5; mkBox 0 7 9 8].

(** [RegionOp] loses an allocation failure.  Its own appends ignore the result
    of [RegionAppendNonO] and of the overlap procedure, and a broken region
    accepts further rectangles, so a run in which the second allocation is
    refused still returns TRUE, with a region that is not marked as broken and
    misses points of its operands. *)
Theorem RegionOp_loses_failure :
  exists reg' ov' m' x y,
    wf_region true upright ∧ wf_region true lying ∧
    RegionOp RegionUnionO true true (mkRegion RegionEmptyBox EmptyData) upright lying false false false
      (mkMem [true; false] false) = inr (true, reg', ov', m') ∧
    RegionNar reg' = false ∧ points upright x y ∧ ¬ points reg' x y.
Proof.
  do 3 eexists. exists 0, 0. split_and!; [| |vm_compute; reflexivity|reflexivity| |].
  - split; [split; [split; simpl; lia|simpl; lia]|].
    exists [(0, 9, [(0, 1); (4, 5); (8, 9)])]. split; [done|]. exists 0. simpl. split_and!; try done.
    exists (-1). simpl. lia.
  - split; [split; [split; simpl; lia|simpl; lia]|].
    exists [(1, 2, [(0, 9)]); (4, 5, [(0, 9)]); (7, 8, [(0, 9)])]. split; [done|]. exists 0. simpl.
    split_and!; try done; try lia; exists (-1); simpl; lia.
  - unfold points, in_rects. left. done.
  - unfold points. rewrite in_rects_cover. vm_compute. lia.
Qed.

(** Three overlapping boxes out of order, as [RegionFromRects] hands them over. *)
Definition heap_of (l : list Box) : Region := block_of (mkBox 0 0 0 0) l.
Definition pile : Region := heap_of [mkBox 3 3 8 8; mkBox 0 0 5 5; mkBox 3 0 6 9].

Lemma pile_collecting : collecting pile.
Proof.
  unfold collecting. simpl. split; [unfold heap_ok; simpl; lia|]. split; [discriminate|].
  split; [|intros H; exfalso; revert H; simpl; lia]. unfold RegionRects; simpl.
  repeat (constructor; [split; simpl; lia|]). constructor.
Qed.

(** C6: batch union.  From a collection of boxes, whether or not [RegionAppend] kept
    it banded, [RegionValidate] succeeds unless memory was refused, and then the
    region is well formed and passes [RegionIsValid] (exact extents included),
    covers exactly the points of the boxes, and the overlap flag says whether
    some point lies in two of them.  No read leaves the array, and the array the
    boxes are read from never moves. *)
Theorem RegionValidate_correct badreg m :
  collecting badreg ->
  match RegionValidate badreg m with
  | inl e => err_oom e
  | inr (ok, reg, ov, m') => oom m' = false ->
      ok = true ∧ wf_region false reg ∧ RegionIsValid reg = true ∧
      (forall p, in_rects (RegionRects reg) p <-> in_rects (RegionRects badreg) p) ∧
      (ov = true <-> exists p, (2 <= cover (RegionRects badreg) p)%nat)
  end.
Proof.
  intros Hc. pose proof (validate_collecting badreg m Hc) as H.
  destruct (RegionValidate badreg m) as [e|[[[ok reg] ov] m']]; [exact H|]. intros Hm.
  destruct (H Hm) as (-> & Hwf & Hv & Hp & Ho). done.
Qed.

Lemma RegionValidate_correct_witness :
  exists reg m', RegionValidate pile (mkMem [] false) = inr (true, reg, true, m') ∧ RegionIsValid reg = true ∧
    RegionRects reg = [mkBox 0 0 6 3; mkBox 0 3 8 5; mkBox 3 5 8 8; mkBox 3 8 6 9].
Proof.
  pose proof (RegionValidate_correct pile (mkMem [] false) pile_collecting) as H. revert H.
  destruct (RegionValidate pile _) as [e|[[[ok reg] ov] m']] eqn:E; vm_compute in E; [discriminate|].
  injection E as <- <- <- <-. intros H. eexists _, _. split; [reflexivity|].
  destruct (H eq_refl) as (_ & _ & Hv & _). split; [exact Hv|reflexivity].
Defined.

(** the bail exit of [RegionValidate] frees a block twice.  When memory is
    refused after the scattering has begun, it frees the block of every region
    under construction and then breaks [badreg], whose block is that of the first
    of them.  Every [goto bail] is such a double free, and one is reached as soon as
    the second allocation for a pile of boxes is refused. *)
Theorem RegionValidate_double_free :
  (forall box seg junk size m ris ov m' badreg,
     StronglySorted rect_le (box :: seg) -> Forall nonempty_box (box :: seg) ->
     (length ((box :: seg) ++ junk) <= size)%nat ->
     scatter (length (box :: seg)) (length seg) 4
       [mkRI (mkRegion box (HeapData size 1 ((box :: seg) ++ junk))) 0 0] false m = ScBail ris ov m' ->
     bail badreg ris ov m' = inl (DoubleFree m')) ∧
  collecting pile ∧ exists m', RegionValidate pile (mkMem [true; false] false) = inl (DoubleFree m').
Proof.
  split_and!.
  - intros box seg junk size m ris ov m' badreg Hs Hn Hsz H.
    pose proof (scatter_first box seg junk size m Hs Hn Hsz) as Hp. cbv zeta in Hp. rewrite H in Hp.
    destruct Hp as [_ Hroom]. unfold bail. by rewrite (proj2 (Nat.ltb_lt _ _) Hroom).
  - apply pile_collecting.
  - eexists. vm_compute. reflexivity.
Qed.

(** [RegionAppend] collects.  Unless memory is refused it adds exactly the
    rectangles of the second region, in front or at the end, and keeps what
    [RegionValidate] relies on: as long as the extents are set, the boxes are
    banded and the extents exact. *)
Theorem RegionAppend_correct dst rgn m ok dst' m' :
  collecting dst -> wf_region false rgn -> RegionRects rgn ≠ [] -> tight (extents rgn) (points rgn) ->
  RegionAppend dst rgn m = (ok, dst', m') -> oom m' = false ->
  ok = true ∧ collecting dst' ∧ RegionRects dst' ≡ₚ RegionRects dst ++ RegionRects rgn.
Proof.
  intros Hc Hwf Hne Ht H Hm. destruct (compact_heap _ (proj1 Hwf)) as [Hnar _].
  assert (Hn : RegionNumRects rgn ≠ 0%nat).
  { rewrite (compact_num _ (proj1 Hwf)). by intros ?%nil_length_inv. }
  unfold RegionAppend in H. rewrite Hnar in H.
  set (general := if (RegionNumRects rgn =? 0)%nat then _ else _) in H.
  assert (Hgen : general = (ok, dst', m') -> ok = true ∧ collecting dst' ∧ RegionRects dst' ≡ₚ RegionRects dst ++ RegionRects rgn).
  { clear H. subst general. rewrite (proj2 (Nat.eqb_neq _ _) Hn). intros H.
    destruct (RECTALLOC dst _ m) as [[ok1 dst1] m1] eqn:Ha.
    pose proof (append_general dst rgn m ok1 dst1 m1 Hc Hwf Hne Ht Ha) as Hg.
    destruct ok1; cbn [negb] in H; [|injection H as <- <- <-; specialize (Hg Hm); by destruct (append_extents _ _ _), Hg].
    destruct (append_extents _ _ _) as [e prepend]. injection H as <- <- <-. by apply Hg. }
  destruct (data rgn) eqn:Hr; try (by apply Hgen). destruct (data dst) eqn:Hd; try (by apply Hgen).
  injection H as <- <- <-. assert (E : RegionRects dst = []) by (unfold RegionRects; by rewrite Hd).
  assert (E' : RegionRects rgn = [extents rgn]) by (unfold RegionRects; by rewrite Hr).
  split_and!; [done| |by rewrite E, E']. unfold collecting. simpl.
  destruct Hwf as [_ Hb%banded_nonempty]. rewrite E' in Hb. by apply Forall_cons in Hb as [? _].
Qed.

Lemma RegionAppend_correct_witness :
  exists dst' m', RegionAppend (square 0 0 4) (square 0 5 4) (mkMem [] false) = (true, dst', m') ∧
    collecting dst' ∧ RegionRects dst' = [mkBox 0 0 4 4; mkBox 0 5 4 9] ∧ extents dst' = mkBox 0 0 4 9.
Proof.
  destruct (RegionAppend (square 0 0 4) (square 0 5 4) (mkMem [] false)) as [[ok dst'] m'] eqn:E.
  assert (H := RegionAppend_correct _ (square 0 5 4) _ _ _ _
    (ltac:(split; simpl; lia) : collecting (square 0 0 4)) (wf_coarse _ (proj1 (square_wf 0 5 4 ltac:(lia)))) ltac:(discriminate)
    (tight_ext _ _ _ (tight_box (mkBox 0 5 4 9) (ltac:(split; simpl; lia))) (fun x y => iff_sym (points_one (square 0 5 4) x y eq_refl))) E).
  vm_compute in E. injection E as <- <- <-. eexists _, _. split; [reflexivity|].
  destruct (H eq_refl) as (_ & Hc & _). split; [exact Hc|]. split; reflexivity.
Defined.

(** [RegionFromRects] of an unsorted list.  For rectangles in protocol range
    the region, unless memory was refused, is coalesced, passes [RegionIsValid],
    and covers exactly the points of the rectangles below 32767, where the
    coordinates of a region end. *)
Theorem RegionFromRects_correct rects m :
  Forall valid_rect rects ->
  match RegionFromRects rects false m with
  | inl e => err_oom e
  | inr (reg, m') => oom m' = false ->
      wf_region true reg ∧ RegionIsValid reg = true ∧
      forall p, in_rects (RegionRects reg) p <-> Exists (in_rect p) rects
  end.
Proof. exact (from_rects_spec rects m). Qed.

Lemma RegionFromRects_correct_witness :
  exists reg m', RegionFromRects [mkRect 32760 0 9 2; mkRect 0 1 3 3; mkRect 7 7 0 1] false (mkMem [] false) = inr (reg, m') ∧
    RegionIsValid reg = true ∧ RegionRects reg = [mkBox 32760 0 32767 1; mkBox 0 1 3 2; mkBox 32760 1 32767 2; mkBox 0 2 3 4].
Proof.
  assert (H := RegionFromRects_correct [mkRect 32760 0 9 2; mkRect 0 1 3 3; mkRect 7 7 0 1] (mkMem [] false)
    ltac:(repeat (constructor; [split_and!; simpl; unfold MAXSHORT; lia|]); constructor)).
  destruct (RegionFromRects _ _ _) as [e|[reg m']] eqn:E; vm_compute in E; [discriminate|].
  injection E as <- <-. eexists _, _. split; [reflexivity|].
  destruct (H eq_refl) as (_ & Hv & _). split; [exact Hv|reflexivity].
Defined.

(** the region does not depend on how its points are given.  Two lists of
    rectangles that cover the same points (a permutation, rectangles split or
    repeated) give the same rectangle list. *)
Theorem RegionFromRects_canonical rects rects' m1 m2 reg reg' m1' m2' :
  Forall valid_rect rects -> Forall valid_rect rects' ->
  (forall p, Exists (in_rect p) rects <-> Exists (in_rect p) rects') ->
  RegionFromRects rects false m1 = inr (reg, m1') -> RegionFromRects rects' false m2 = inr (reg', m2') ->
  oom m1' = false -> oom m2' = false ->
  RegionRects reg = RegionRects reg'.
Proof.
  intros Hv Hv' Heq H H' Hm Hm'. pose proof (from_rects_spec rects m1 Hv) as Hs. rewrite H in Hs.
  pose proof (from_rects_spec rects' m2 Hv') as Hs'. rewrite H' in Hs'.
  exact (union_of_unique _ _ _ _ (Hs Hm) (Hs' Hm') Heq).
Qed.

Lemma RegionFromRects_canonical_witness :
  exists reg reg' m m', RegionFromRects [mkRect 0 0 4 4; mkRect 4 0 4 4] false (mkMem [] false) = inr (reg, m) ∧
    RegionFromRects [mkRect 2 0 6 4; mkRect 0 0 3 4] false (mkMem [] false) = inr (reg', m') ∧
    RegionRects reg = RegionRects reg' ∧ RegionRects reg = [mkBox 0 0 8 4].
Proof.
  destruct (RegionFromRects [mkRect 0 0 4 4; mkRect 4 0 4 4] false (mkMem [] false)) as [e|[reg m]] eqn:E1;
    [vm_compute in E1; discriminate|].
  destruct (RegionFromRects [mkRect 2 0 6 4; mkRect 0 0 3 4] false (mkMem [] false)) as [e|[reg' m']] eqn:E2;
    [vm_compute in E2; discriminate|].
  assert (H := RegionFromRects_canonical [mkRect 0 0 4 4; mkRect 4 0 4 4] [mkRect 2 0 6 4; mkRect 0 0 3 4] _ _ _ _ _ _
    ltac:(repeat (constructor; [split_and!; simpl; unfold MAXSHORT; lia|]); constructor)
    ltac:(repeat (constructor; [split_and!; simpl; unfold MAXSHORT; lia|]); constructor)
    ltac:(intros [x y]; rewrite !Exists_cons, !Exists_nil; unfold in_rect, MAXSHORT; simpl; lia) E1 E2).
  vm_compute in E1, E2. injection E1 as <- <-. injection E2 as <- <-.
  eexists _, _, _, _. split; [reflexivity|]. split; [reflexivity|].
  split; [exact (H eq_refl eq_refl)|reflexivity].
Defined.

(** the quicksort of dix/region.c.  On any number of boxes from one up, and
    although a comment asks for more than one, it reads and writes inside the
    array only, ends within its fuel, leaves the rest of the array alone and
    orders the boxes by [(y1, x1)]. *)
Theorem QuickSortRects_correct rects numRects :
  (1 <= numRects <= length rects)%nat ->
  exists seg, QuickSortRects numRects rects numRects = Some (seg ++ drop numRects rects) ∧
    seg ≡ₚ take numRects rects ∧ StronglySorted rect_le seg.
Proof.
  intros Hn. destruct (QuickSortRects_sorts numRects rects numRects Hn (Nat.le_refl _)) as (l' & H & seg & -> & Hp & Hs).
  by exists seg.
Qed.

Lemma QuickSortRects_correct_witness :
  QuickSortRects 4 [mkBox 3 3 8 8; mkBox 0 0 5 5; mkBox 3 0 6 9; mkBox (-2) 3 1 4; mkBox 0 (-9) 1 1] 4 =
    Some [mkBox 0 0 5 5; mkBox 3 0 6 9; mkBox (-2) 3 1 4; mkBox 3 3 8 8; mkBox 0 (-9) 1 1] ∧
  exists seg, Some [mkBox 0 0 5 5; mkBox 3 0 6 9; mkBox (-2) 3 1 4; mkBox 3 3 8 8; mkBox 0 (-9) 1 1] =
    Some (seg ++ [mkBox 0 (-9) 1 1]) ∧ StronglySorted rect_le seg.
Proof.
  split; [vm_compute; reflexivity|].
  destruct (QuickSortRects_correct [mkBox 3 3 8 8; mkBox 0 0 5 5; mkBox 3 0 6 9; mkBox (-2) 3 1 4; mkBox 0 (-9) 1 1] 4
    ltac:(simpl; lia)) as (seg & H & _ & Hs).
  exists seg. split; [|exact Hs]. vm_compute in H. exact H.
Defined.

(** [RegionSetExtents] on a banded block sets the extents to the exact bounding
    box of the region and changes nothing else. *)
Theorem RegionSetExtents_correct c reg :
  blk reg -> banded c (RegionRects reg) -> RegionRects reg ≠ [] ->
  tight (extents (RegionSetExtents reg)) (points reg) ∧ data (RegionSetExtents reg) = data reg.
Proof. exact (RegionSetExtents_tight c reg). Qed.

Lemma RegionSetExtents_correct_witness :
  tight (extents (RegionSetExtents (set_extents upright (mkBox 1 2 3 4)))) (points upright) ∧
  extents (RegionSetExtents (set_extents upright (mkBox 1 2 3 4))) = mkBox 0 0 9 9.
Proof.
  destruct (RegionSetExtents_correct true (set_extents upright (mkBox 1 2 3 4))) as [H _].
  - split; [by repeat eexists|]. unfold heap_ok. simpl. lia.
  - exists [(0, 9, [(0, 1); (4, 5); (8, 9)])]. split; [done|]. exists 0. simpl. split_and!; try done.
    exists (-1). simpl. lia.
  - discriminate.
  - split; [exact H|reflexivity].
Defined.

(** ** Further observations *)

(** A list the client calls banded, of which one rectangle survives the clipping,
    becomes a block of one rectangle, which [RegionIsValid] rejects. *)
Lemma RegionFromRects_banded_one :
  exists reg m', RegionFromRects [mkRect 0 0 4 4; mkRect 9 0 0 4] true (mkMem [] false) = inr (reg, m') ∧
    RegionIsValid reg = false.
Proof. do 2 eexists. split; vm_compute; reflexivity. Qed.

(** Appending to the last band can make it equal to the band above, and
    [RegionValidate] does not coalesce the two. *)
Lemma RegionAppend_not_coalesced :
  exists dst m1 reg m2,
    RegionAppend (block_of (mkBox 0 0 9 9) [mkBox 0 0 2 5; mkBox 6 0 9 5; mkBox 0 5 2 9]) (mkRegion (mkBox 6 5 9 9) NullData)
      (mkMem [] false) = (true, dst, m1) ∧
    RegionValidate dst m1 = inr (true, reg, false, m2) ∧ RegionIsValid reg = true ∧
    RegionRects reg = [mkBox 0 0 2 5; mkBox 6 0 9 5; mkBox 0 5 2 9; mkBox 6 5 9 9].
Proof.
  do 4 eexists. split; [vm_compute; reflexivity|]. split; [vm_compute; reflexivity|]. split; vm_compute; reflexivity.
Qed.
