(* ===== verification/RecordSet.v ===== *)
(** * RecordSet: the set abstraction of the RECORD extension (record/set.c)

    A set of 16-bit numbers is built from intervals, as a bit vector or as a list
    of intervals, behind a table of operations.  The table is the typeclass
    [RecordSetOperations] and its contract the class [RecordSetSpec], which both
    representations meet; what a client may rely on is proved against the class. *)

From stdpp Require Import base numbers list sorting.
From S2P Require Import Prelude Bands.

(** ** The interface *)

(** Two [CARD16] bounds, both included. *)
Record RecordSetInterval := mkRSI { first : Z; last : Z }.

#[export] Instance RecordSetInterval_eq_dec : EqDecision RecordSetInterval.
Proof. solve_decision. Defined.

(** The table of operations.  An outer [None] is a read outside the set's memory.  An
    iterator is a pointer-sized value, [None] for NULL; [DestroySet] says whether
    it freed the set. *)
Class RecordSetOperations (A : Type) := {
  DestroySet : A -> bool;
  IsMemberOfSet : A -> Z -> option Z;
  IterateSet : A -> option Z -> option (option (RecordSetInterval * Z))
}.

(** ** Bit vectors *)

Definition BITS_PER_LONG : Z := 64.
Definition ones64 : Z := 2 ^ 64 - 1.

(** [ops] is the table with or without a free. *)
Record BitVectorSet := mkBVS { bv_free : bool; maxMember : Z; bitvec : list Z }.

Definition maxMemberInInterval (pIntervals : list RecordSetInterval) : Z :=
  foldl (fun m iv => if m <? last iv then last iv else m) (-1) pIntervals.

(** [pbitvec[i]]. *)
Definition bv_long (s : BitVectorSet) (i : Z) : option Z := bitvec s !! Z.to_nat i.

(** A negative [pm] becomes a huge index. *)
Definition BitVectorIsMemberOfSet (s : BitVectorSet) (pm : Z) : option Z :=
  if maxMember s <? pm then Some 0 else
  w ← bv_long s (u64 pm / BITS_PER_LONG);
  Some (Z.land w (Z.shiftl 1 (u64 pm mod BITS_PER_LONG))).

(** [while (startbit <= maxMember && *pbitvec == skipval)]. *)
Fixpoint skip_longs (fuel : nat) (s : BitVectorSet) (skipval startbit : Z) : option Z :=
  match fuel with
  | O => None
  | S fuel =>
      if startbit <=? maxMember s then
        w ← bv_long s (startbit / BITS_PER_LONG);
        if w =? skipval then skip_longs fuel s skipval (startbit + BITS_PER_LONG) else Some startbit
      else Some startbit
  end.

(** [while (walkbit < BITS_PER_LONG && !(bits & (1 << walkbit)) == bitval)]. *)
Fixpoint walk_bits (fuel : nat) (bits : Z) (bitval : bool) (walkbit : Z) : Z :=
  match fuel with
  | O => walkbit
  | S fuel =>
      if (walkbit <? BITS_PER_LONG) && Bool.eqb (Z.land bits (Z.shiftl 1 walkbit) =? 0) bitval
      then walk_bits fuel bits bitval (walkbit + 1) else walkbit
  end.

Definition BitVectorFindBit (s : BitVectorSet) (iterbit : Z) (bitval : bool) : option Z :=
  let startlong := iterbit / BITS_PER_LONG in
  let startbit := startlong * BITS_PER_LONG in
  let skipval := if bitval then 0 else ones64 in
  if maxMember s <? startbit then Some (-1) else
  bits ← bv_long s startlong;
  let usefulbits := u64 (Z.lnot (Z.shiftl 1 (iterbit - startbit) - 1)) in
  startbit ← (if Z.land bits usefulbits =? Z.land skipval usefulbits
              then skip_longs (S (length (bitvec s))) s skipval (startbit + BITS_PER_LONG)
              else Some startbit);
  if maxMember s <? startbit then Some (-1) else
  let walkbit := if startbit <? iterbit then iterbit - startbit else 0 in
  bits ← bv_long s (startbit / BITS_PER_LONG);
  Some (startbit + walk_bits 64 bits bitval walkbit).

Definition BitVectorIterateSet (s : BitVectorSet) (pIter : option Z)
    : option (option (RecordSetInterval * Z)) :=
  let iterbit := default 0 pIter in
  b ← BitVectorFindBit s iterbit true;
  if b =? -1 then Some None else
  e ← BitVectorFindBit s b false;
  let last := u16 (if e <? 0 then maxMember s else e - 1) in
  Some (Some (mkRSI (u16 b) last, last + 1)).

#[export] Instance BitVectorSetOperations : RecordSetOperations BitVectorSet := {
  DestroySet := bv_free;
  IsMemberOfSet := BitVectorIsMemberOfSet;
  IterateSet := BitVectorIterateSet
}.

(** [sizeof(BitVectorSet)] is 16: a pointer, an int and padding. *)
Definition bv_nlongs (maxMember : Z) : Z := u64 (maxMember + BITS_PER_LONG) / BITS_PER_LONG.
Definition BitVectorSetMemoryRequirements (maxMember : Z) : Z := 16 + bv_nlongs maxMember * 8.

(** [pbitvec[j/BITS_PER_LONG] |= 1 << (j % BITS_PER_LONG)]. *)
Definition set_bit (words : list Z) (j : Z) : option (list Z) :=
  w ← words !! Z.to_nat (j / BITS_PER_LONG);
  Some (<[Z.to_nat (j / BITS_PER_LONG) := Z.lor w (Z.shiftl 1 (j mod BITS_PER_LONG))]> words).

(** [for (j = first; j <= last; j++)]; [n] is the number of rounds. *)
Fixpoint set_bits (words : list Z) (j : Z) (n : nat) : option (list Z) :=
  match n with
  | O => Some words
  | S n => words ← set_bit words j; set_bits words (j + 1) n
  end.

Fixpoint set_intervals (words : list Z) (pIntervals : list RecordSetInterval) : option (list Z) :=
  match pIntervals with
  | [] => Some words
  | iv :: pIntervals =>
      words ← set_bits words (first iv) (Z.to_nat (last iv - first iv + 1));
      set_intervals words pIntervals
  end.

(** [pMem] says that the caller supplies the memory.  Outer [None]: a write outside the
    memory; inner [None]: NULL. *)
Definition BitVectorCreateSet (pIntervals : list RecordSetInterval) (pMem : bool) (memsize : Z) (o : oracle)
    : option (option BitVectorSet * oracle) :=
  let '(ok, o) := if pMem then (true, o) else alloc o in
  if negb ok then Some (None, o) else
  words ← set_intervals (replicate (Z.to_nat ((memsize - 16) / 8)) 0) pIntervals;
  Some (Some (mkBVS (negb pMem) (maxMemberInInterval pIntervals) words), o).

(** ** Lists of intervals *)

Record IntervalListSet := mkILS { il_free : bool; il_intervals : list RecordSetInterval }.

(** Binary search. *)
Fixpoint bsearch (fuel : nat) (ivs : list RecordSetInterval) (pm lo hi : Z) : option Z :=
  match fuel with
  | O => None
  | S fuel =>
      if lo <=? hi then
        let probe := (hi + lo) / 2 in
        iv ← ivs !! Z.to_nat probe;
        if (first iv <=? pm) && (pm <=? last iv) then Some 1
        else if pm <? first iv then bsearch fuel ivs pm lo (probe - 1)
        else bsearch fuel ivs pm (probe + 1) hi
      else Some 0
  end.

Definition IntervalListIsMemberOfSet (s : IntervalListSet) (pm : Z) : option Z :=
  bsearch (S (length (il_intervals s))) (il_intervals s) pm 0 (Z.of_nat (length (il_intervals s)) - 1).

(** An iterator points at the next interval; it is the index of that interval. *)
Definition IntervalListIterateSet (s : IntervalListSet) (pIter : option Z)
    : option (option (RecordSetInterval * Z)) :=
  let pInterval := default 0 pIter in
  if pInterval <? Z.of_nat (length (il_intervals s)) then
    iv ← il_intervals s !! Z.to_nat pInterval;
    Some (Some (iv, pInterval + 1))
  else Some None.

#[export] Instance IntervalListSetOperations : RecordSetOperations IntervalListSet := {
  DestroySet := il_free;
  IsMemberOfSet := IntervalListIsMemberOfSet;
  IterateSet := IntervalListIterateSet
}.

Definition IntervalListMemoryRequirements (nIntervals : Z) : Z := 16 + nIntervals * 4.

(** The insertion sort: the filled part of [stackIntervals]; [j] is where the scan for a
    larger [first] stops, and the loop over [k] makes room there. *)
Fixpoint insert_at (x : Z) (stack : list RecordSetInterval) : nat :=
  match stack with
  | [] => O
  | iv :: stack => if x <? first iv then O else S (insert_at x stack)
  end.

Definition insert_interval (stack : list RecordSetInterval) (iv : RecordSetInterval) : list RecordSetInterval :=
  let j := insert_at (first iv) stack in take j stack ++ iv :: drop j stack.

(** The loop that merges abutting and overlapping neighbours. *)
Fixpoint merge_intervals (fuel : nat) (stack : list RecordSetInterval) (i : nat) : option (list RecordSetInterval) :=
  match fuel with
  | O => None
  | S fuel =>
      if (S i <? length stack)%nat then
        a ← stack !! i;
        b ← stack !! S i;
        if last a + 1 <? first b then merge_intervals fuel stack (S i)
        else merge_intervals fuel
               (take i stack ++ mkRSI (first a) (Z.max (last a) (last b)) :: drop (S (S i)) stack) i
      else Some stack
  end.

Definition IntervalListCreateSet (pIntervals : list RecordSetInterval) (pMem : bool) (o : oracle)
    : option (option IntervalListSet * oracle) :=
  let n := length pIntervals in
  let '(ok, o) := if (0 <? n)%nat then alloc o else (true, o) in
  if negb ok then Some (None, o) else
  stack ← merge_intervals (S n) (foldl insert_interval [] pIntervals) 0;
  let '(ok, o) := if pMem then (true, o) else alloc o in
  if negb ok then Some (None, o) else Some (Some (mkILS (negb pMem) stack), o).

(** ** Sets *)

Inductive RecordSet :=
  | BitVector (s : BitVectorSet)
  | IntervalList (s : IntervalListSet).

(** The calls through [pSet->ops]. *)
#[export] Instance RecordSetDispatch : RecordSetOperations RecordSet := {
  DestroySet s := match s with BitVector s => DestroySet s | IntervalList s => DestroySet s end;
  IsMemberOfSet s := match s with BitVector s => IsMemberOfSet s | IntervalList s => IsMemberOfSet s end;
  IterateSet s := match s with BitVector s => IterateSet s | IntervalList s => IterateSet s end
}.

(** The size of the set to create, and whether it is a bit vector. *)
Definition RecordSetMemoryRequirements (pIntervals : list RecordSetInterval) : Z * bool :=
  let maxMember := maxMemberInInterval pIntervals in
  let nIntervals := Z.of_nat (length pIntervals) in
  let bmsize := BitVectorSetMemoryRequirements maxMember in
  let rlsize := IntervalListMemoryRequirements nIntervals in
  if ((1 <? nIntervals) && (maxMember <=? 255)) || (bmsize <? rlsize) then (bmsize, true) else (rlsize, false).

(** [pMem]: the address and the size of the caller's memory, if any.  The alignment is 8 for
    either kind. *)
Definition RecordCreateSet (pIntervals : list RecordSetInterval) (pMem : option (Z * Z)) (o : oracle)
    : option (option RecordSet * oracle) :=
  let '(size, bits) := RecordSetMemoryRequirements pIntervals in
  let refused := match pMem with
                 | Some (addr, memsize) => negb (Z.land addr 7 =? 0) || (memsize <? size)
                 | None => false
                 end in
  if refused then Some (None, o) else
  let mem := match pMem with Some _ => true | None => false end in
  if bits then
    match BitVectorCreateSet pIntervals mem size o with
    | Some (s, o) => Some (option_map BitVector s, o)
    | None => None
    end
  else
    match IntervalListCreateSet pIntervals mem o with
    | Some (s, o) => Some (option_map IntervalList s, o)
    | None => None
    end.

(** ** Clients *)

(** The loop [while ((pIter = RecordIterateSet(pSet, pIter, &interval)))], collecting the
    intervals (record.c uses it to install its request handlers and to report ranges). *)
Fixpoint iterate_all `{RecordSetOperations A} (fuel : nat) (s : A) (pIter : option Z)
    : option (list RecordSetInterval) :=
  match fuel with
  | O => None
  | S fuel =>
      r ← IterateSet s pIter;
      match r with
      | None => Some []
      | Some (iv, it) => l ← iterate_all fuel s (Some it); Some (iv :: l)
      end
  end.

(** [int recordit = RecordIsMemberOfSet(...)] of [RecordADeliveredEventOrError]: the
    operation returns an [unsigned long]. *)
Definition recordit `{RecordSetOperations A} (s : A) (m : Z) : option Z :=
  wrap_s 32 <$> IsMemberOfSet s m.

(** ** The contract *)

(** What a set promises: [wf] sets hold the members [mem], 16-bit numbers; membership answers
    with a value that is nonzero for members, and an iterator at position [pos] yields the next
    maximal interval of members from there on. *)
Class RecordSetSpec (A : Type) `{RecordSetOperations A} := {
  set_wf : A -> Prop;
  set_mem : A -> Z -> Prop;
  iter_ok : A -> option Z -> Prop;
  iter_pos : A -> option Z -> Z;
  set_mem_range s x : set_wf s -> set_mem s x -> 0 <= x < 65536;
  iter_start s : set_wf s -> iter_ok s None ∧ iter_pos s None = 0;
  is_member s pm : set_wf s -> 0 <= pm < 2 ^ 31 ->
    exists v, IsMemberOfSet s pm = Some v ∧ 0 <= v < 2 ^ 64 ∧ (v ≠ 0 <-> set_mem s pm);
  iterate s it : set_wf s -> iter_ok s it ->
    match IterateSet s it with
    | None => False
    | Some None => forall x, iter_pos s it <= x -> ¬ set_mem s x
    | Some (Some (iv, it')) =>
        iter_pos s it <= first iv <= last iv ∧
        (forall x, iter_pos s it <= x <= last iv -> set_mem s x <-> first iv <= x) ∧ ¬ set_mem s (last iv + 1) ∧
        iter_ok s (Some it') ∧ iter_pos s (Some it') = last iv + 1
    end
}.

(** ** Words *)

Lemma ones64_bit j : 0 <= j < 64 -> Z.testbit ones64 j = true.
Proof. intros Hj. change ones64 with (Z.ones 64). apply Z.ones_spec_low. lia. Qed.

(** The word skipped when looking for [v]: no bit of it is [v]. *)
Lemma skip_bit (v : bool) j : 0 <= j < 64 -> Z.testbit (if v then 0 else ones64) j = negb v.
Proof. intros Hj. destruct v; [apply Z.testbit_0_l|by apply ones64_bit]. Qed.

Lemma land_mask w k : 0 <= k -> Z.land w (Z.shiftl 1 k) = if Z.testbit w k then 2 ^ k else 0.
Proof.
  intros Hk. rewrite Z.shiftl_1_l. apply Z.bits_inj'. intros j Hj.
  rewrite Z.land_spec, Z.pow2_bits_eqb by lia. destruct (Z.eqb_spec k j) as [<-|Hne].
  - rewrite andb_true_r. destruct (Z.testbit w k); [by rewrite Z.pow2_bits_true by lia|by rewrite Z.testbit_0_l].
  - rewrite andb_false_r. destruct (Z.testbit w k); [by rewrite Z.pow2_bits_false by lia|by rewrite Z.testbit_0_l].
Qed.

Lemma useful_bit k j : 0 <= k < 64 -> 0 <= j -> Z.testbit (u64 (Z.lnot (Z.shiftl 1 k - 1))) j = (k <=? j) && (j <? 64).
Proof.
  intros Hk Hj. unfold u64. rewrite Z.shiftl_1_l, Z.sub_1_r, <- Z.ones_equiv.
  destruct (Z.ltb_spec j 64) as [Hlt|Hge].
  - rewrite Z.mod_pow2_bits_low, Z.lnot_spec, andb_true_r by lia.
    destruct (Z.leb_spec k j); [rewrite Z.ones_spec_high by lia|rewrite Z.ones_spec_low by lia]; done.
  - rewrite Z.mod_pow2_bits_high, andb_false_r by lia. done.
Qed.

(** The test on the first word: no bit from [k] on is [v]. *)
Lemma useful_test w v k :
  0 <= k < 64 ->
  let u := u64 (Z.lnot (Z.shiftl 1 k - 1)) in
  Z.land w u = Z.land (if v : bool then 0 else ones64) u <-> forall j, k <= j < 64 -> Z.testbit w j = negb v.
Proof.
  intros Hk u. split.
  - intros Heq j Hj. assert (H := f_equal (fun z => Z.testbit z j) Heq). simpl in H.
    rewrite !Z.land_spec in H. unfold u in H. rewrite useful_bit, skip_bit in H by lia.
    rewrite (proj2 (Z.leb_le _ _)), (proj2 (Z.ltb_lt _ _)) in H by lia. by rewrite !andb_true_r in H.
  - intros Hb. apply Z.bits_inj'. intros j Hj. rewrite !Z.land_spec. unfold u. rewrite useful_bit by lia.
    destruct (Z.leb_spec k j), (Z.ltb_spec j 64); rewrite ?andb_false_r; try done.
    rewrite Hb, skip_bit by lia. done.
Qed.

Lemma walk_bits_spec fuel bits v k :
  0 <= k <= 64 -> 64 - k <= Z.of_nat fuel ->
  let r := walk_bits fuel bits v k in
  k <= r <= 64 ∧ (forall j, k <= j < r -> Z.testbit bits j = negb v) ∧ (r < 64 -> Z.testbit bits r = v).
Proof.
  revert k; induction fuel as [|fuel IH]; intros k Hk Hf; cbv zeta; cbn [walk_bits].
  { split; [lia|]. split; intros; lia. }
  unfold BITS_PER_LONG. destruct (Z.ltb_spec k 64) as [Hlt|Hge]; [|simpl; split; [lia|]; split; intros; lia].
  cbn [andb]. rewrite land_mask by lia.
  assert (Hb : ((if Z.testbit bits k then 2 ^ k else 0) =? 0) = negb (Z.testbit bits k)).
  { destruct (Z.testbit bits k); [|done]. apply Z.eqb_neq. pose proof (Z.pow_pos_nonneg 2 k). lia. }
  rewrite Hb. destruct (Bool.eqb _ v) eqn:E.
  - apply eqb_prop in E. destruct (IH (k + 1)) as (H1 & H2 & H3); [lia|lia|].
    split; [lia|]. split; [|exact H3]. intros j Hj. destruct (decide (j = k)) as [->|]; [|apply H2; lia].
    destruct (Z.testbit bits k), v; done.
  - apply eqb_false_iff in E. split; [lia|]. split; [intros; lia|]. intros _. by destruct (Z.testbit bits k), v.
Qed.

(** ** The bit vector meets the contract *)

Definition bv_bit (s : BitVectorSet) (x : Z) : bool := Z.testbit (default 0 (bv_long s (x / 64))) (x mod 64).

(** The vector has just the words that [maxMember] needs, and no bit beyond it. *)
Definition bv_wf (s : BitVectorSet) : Prop :=
  -1 <= maxMember s < 65536 ∧ Z.of_nat (length (bitvec s)) = bv_nlongs (maxMember s) ∧
  Forall (fun w => 0 <= w < 2 ^ 64) (bitvec s) ∧
  (forall x, 0 <= x -> bv_bit s x = true -> x <= maxMember s).

(** The number of bits. *)
Definition bv_size (s : BitVectorSet) : Z := 64 * Z.of_nat (length (bitvec s)).

Lemma bv_size_max s q : bv_wf s -> 64 * q <= maxMember s <-> 64 * q < bv_size s.
Proof.
  intros (Hm & Hl & _). unfold bv_size. rewrite Hl. unfold bv_nlongs, u64, BITS_PER_LONG.
  rewrite (Z.mod_small (maxMember s + 64)) by lia.
  pose proof (Z.div_mod (maxMember s + 64) 64). pose proof (Z.mod_pos_bound (maxMember s + 64) 64). lia.
Qed.

Lemma bv_long_ok s q : bv_wf s -> 0 <= q -> 64 * q < bv_size s -> exists w, bv_long s q = Some w ∧ 0 <= w < 2 ^ 64.
Proof.
  intros (_ & _ & Hw & _) Hq Hs. unfold bv_long. destruct (lookup_lt_is_Some_2 (bitvec s) (Z.to_nat q)) as [w Hl].
  { unfold bv_size in Hs. lia. }
  exists w. split; [done|]. rewrite Forall_forall in Hw. by eapply Hw, list_elem_of_lookup_2.
Qed.

Lemma bv_bit_word s q w j : bv_long s q = Some w -> 0 <= j < 64 -> bv_bit s (64 * q + j) = Z.testbit w j.
Proof.
  intros Hw Hj. unfold bv_bit. replace ((64 * q + j) / 64) with q by (rewrite Z.mul_comm, Z.div_add_l by lia; rewrite (Z.div_small j) by lia; lia).
  rewrite Hw. simpl. f_equal. rewrite Z.add_comm, Z.mul_comm, Z.mod_add by lia. by apply Z.mod_small.
Qed.

Lemma word_skip w v : 0 <= w < 2 ^ 64 -> w = (if v : bool then 0 else ones64) <-> forall j, 0 <= j < 64 -> Z.testbit w j = negb v.
Proof.
  intros Hw. split; [intros -> j Hj; by apply skip_bit|]. intros Hb. apply Z.bits_inj'. intros j Hj.
  destruct (Z.ltb_spec j 64) as [Hlt|Hge]; [rewrite Hb, skip_bit by lia; done|].
  assert (Hhi : forall z, 0 <= z < 2 ^ 64 -> Z.testbit z j = false).
  { intros z Hz. rewrite <- (Z.mod_small z (2 ^ 64)) by lia. apply Z.mod_pow2_bits_high. lia. }
  rewrite !Hhi; [done| |lia]. destruct v; unfold ones64; lia.
Qed.

(** A stretch of the vector without [v]. *)
Definition none_in (s : BitVectorSet) (v : bool) (a b : Z) : Prop := forall x, a <= x < b -> bv_bit s x = negb v.

Lemma none_app s v a b c : none_in s v a b -> none_in s v b c -> none_in s v a c.
Proof. intros H1 H2 x Hx. destruct (Z.lt_ge_cases x b); [apply H1|apply H2]; lia. Qed.

Lemma none_word s q w v a :
  bv_long s q = Some w -> 0 <= a -> (forall j, a <= j < 64 -> Z.testbit w j = negb v) ->
  none_in s v (64 * q + a) (64 * (q + 1)).
Proof.
  intros Hw Ha Hb x Hx. replace x with (64 * q + (x - 64 * q)) by lia. rewrite (bv_bit_word s q w) by (done || lia).
  apply Hb. lia.
Qed.

Lemma skip_longs_spec fuel s v q :
  bv_wf s -> 0 <= q -> Z.of_nat (length (bitvec s)) - q < Z.of_nat fuel -> (0 < fuel)%nat ->
  exists q', skip_longs fuel s (if v : bool then 0 else ones64) (64 * q) = Some (64 * q') ∧ q <= q' ∧
    none_in s v (64 * q) (64 * q') ∧
    (64 * q' < bv_size s -> ¬ none_in s v (64 * q') (64 * (q' + 1))).
Proof.
  intros Hwf. revert q; induction fuel as [|fuel IH]; intros q Hq Hf Hpos; [lia|]. cbn [skip_longs].
  pose proof (bv_size_max s q Hwf) as Hmax.
  destruct (Z.leb_spec (64 * q) (maxMember s)) as [Hle|Hgt].
  2: { exists q. split; [done|]. split; [lia|]. split; [intros x Hx; lia|lia]. }
  destruct (bv_long_ok s q Hwf Hq) as (w & Hw & Hrange); [lia|].
  unfold BITS_PER_LONG. replace (64 * q / 64) with q by (rewrite Z.mul_comm, Z.div_mul; lia). rewrite Hw. cbn [mbind option_bind].
  pose proof (word_skip w v Hrange) as Hskip.
  destruct (Z.eqb_spec w (if v then 0 else ones64)) as [Heq|Hne].
  - assert (Hn : none_in s v (64 * q) (64 * (q + 1))).
    { rewrite <- (Z.add_0_r (64 * q)). apply (none_word s q w); [done|lia|]. apply Hskip, Heq. }
    replace (64 * q + 64) with (64 * (q + 1)) by lia.
    destruct (IH (q + 1)) as (q' & -> & Hqq & Hnone & Hstop); [lia|lia|unfold bv_size in *; lia|].
    exists q'. split; [done|]. split; [lia|]. split; [by eapply none_app|done].
  - exists q. split; [done|]. split; [lia|]. split; [intros x Hx; lia|]. intros _ Hn. apply Hne, Hskip. intros j Hj.
    rewrite <- (bv_bit_word s q w) by done. apply Hn. lia.
Qed.

(** The walk inside a word that has the value. *)
Lemma walk_word s q w v a r :
  bv_long s q = Some w -> 0 <= a < 64 -> ¬ none_in s v (64 * q + a) (64 * (q + 1)) ->
  r = 64 * q + walk_bits 64 w v a ->
  64 * q + a <= r < 64 * (q + 1) ∧ bv_bit s r = v ∧ none_in s v (64 * q + a) r.
Proof.
  intros Hw Ha Hn ->. destruct (walk_bits_spec 64 w v a) as (H1 & H2 & H3); [lia|lia|].
  set (k := walk_bits 64 w v a) in *.
  assert (k < 64).
  { destruct (Z.ltb_spec k 64); [done|]. destruct Hn. apply (none_word s q w); [done|lia|]. intros j Hj. apply H2. lia. }
  split; [lia|]. split; [rewrite (bv_bit_word s q w) by (done || lia); auto|].
  intros x Hx. replace x with (64 * q + (x - 64 * q)) by lia. rewrite (bv_bit_word s q w) by (done || lia). apply H2. lia.
Qed.

Lemma BitVectorFindBit_spec s it v :
  bv_wf s -> 0 <= it ->
  exists r, BitVectorFindBit s it v = Some r ∧
    ((r = -1 ∧ none_in s v it (bv_size s)) ∨ (it <= r < bv_size s ∧ bv_bit s r = v ∧ none_in s v it r)).
Proof.
  intros Hwf Hit. unfold BitVectorFindBit, BITS_PER_LONG. set (q := it / 64). set (k := it - q * 64).
  assert (Hk : 0 <= k < 64 ∧ it = 64 * q + k ∧ 0 <= q).
  { pose proof (Z.div_mod it 64). pose proof (Z.mod_pos_bound it 64). pose proof (Z.div_pos it 64). subst q k. lia. }
  rewrite (Z.mul_comm q 64). pose proof (bv_size_max s q Hwf) as Hmax.
  destruct (Z.ltb_spec (maxMember s) (64 * q)) as [Hgt|Hle].
  { exists (-1). split; [done|]. left. split; [done|]. intros x Hx. lia. }
  destruct (bv_long_ok s q Hwf) as (w & Hw & Hrange); [lia|lia|]. rewrite Hw. cbn [mbind option_bind].
  replace (it - 64 * q) with k by (subst k; lia).
  pose proof (useful_test w v k (proj1 Hk)) as Hu. cbv zeta in Hu.
  assert (Hmid : 64 * (q + 1) <= bv_size s) by (unfold bv_size in *; lia).
  destruct (Z.eqb_spec (Z.land w (u64 (Z.lnot (Z.shiftl 1 k - 1))))
                       (Z.land (if v then 0 else ones64) (u64 (Z.lnot (Z.shiftl 1 k - 1))))) as [Heq|Hne].
  - assert (Hn : none_in s v it (64 * (q + 1))).
    { replace it with (64 * q + k) by lia. apply (none_word s q w); [done|lia|]. by apply Hu. }
    replace (64 * q + 64) with (64 * (q + 1)) by lia.
    destruct (skip_longs_spec (S (length (bitvec s))) s v (q + 1) Hwf) as (q' & -> & Hqq & Hnone & Hstop); [lia|lia|lia|].
    cbn [mbind option_bind]. pose proof (bv_size_max s q' Hwf) as Hmax'.
    assert (Hn' : none_in s v it (64 * q')) by (by eapply none_app).
    destruct (Z.ltb_spec (maxMember s) (64 * q')) as [Hgt|Hle'].
    { exists (-1). split; [done|]. left. split; [done|]. intros x Hx. apply Hn'. lia. }
    destruct (bv_long_ok s q' Hwf) as (w' & Hw' & _); [lia|lia|].
    replace (64 * q' / 64) with q' by (rewrite Z.mul_comm, Z.div_mul; lia). rewrite Hw'. cbn [mbind option_bind].
    rewrite (proj2 (Z.ltb_ge (64 * q') it)) by lia.
    destruct (walk_word s q' w' v 0 _ Hw' ltac:(lia) ltac:(rewrite Z.add_0_r; apply Hstop; lia) eq_refl) as (H1 & H2 & H3).
    rewrite Z.add_0_r in H3. eexists. split; [done|]. right. split; [unfold bv_size in *; lia|]. split; [done|by eapply none_app].
  - cbn [mbind option_bind]. rewrite (proj2 (Z.ltb_ge (maxMember s) (64 * q))) by lia.
    replace (64 * q / 64) with q by (rewrite Z.mul_comm, Z.div_mul; lia). rewrite Hw. cbn [mbind option_bind].
    assert (Hwalk : (if 64 * q <? it then it - 64 * q else 0) = k) by (destruct (Z.ltb_spec (64 * q) it); lia). rewrite Hwalk.
    assert (Hsome : ¬ none_in s v (64 * q + k) (64 * (q + 1))).
    { intros Hn. apply Hne, Hu. intros j Hj. rewrite <- (bv_bit_word s q w) by (done || lia). apply Hn. lia. }
    destruct (walk_word s q w v k _ Hw (proj1 Hk) Hsome eq_refl) as (H1 & H2 & H3).
    eexists. split; [done|]. right. replace it with (64 * q + k) by lia. split; [unfold bv_size in *; lia|]. done.
Qed.

Lemma bv_member s pm :
  bv_wf s -> 0 <= pm < 2 ^ 31 ->
  exists v, BitVectorIsMemberOfSet s pm = Some v ∧ 0 <= v < 2 ^ 64 ∧ (v ≠ 0 <-> 0 <= pm ∧ bv_bit s pm = true).
Proof.
  intros Hwf Hpm. unfold BitVectorIsMemberOfSet, BITS_PER_LONG.
  destruct (Z.ltb_spec (maxMember s) pm) as [Hgt|Hle].
  { exists 0. split; [done|]. split; [lia|]. split; [done|]. intros [_ Hb].
    destruct Hwf as (_ & _ & _ & H). specialize (H pm ltac:(lia) Hb). lia. }
  rewrite u64_small by lia. pose proof (Z.div_mod pm 64). pose proof (Z.mod_pos_bound pm 64). pose proof (Z.div_pos pm 64).
  pose proof (bv_size_max s (pm / 64) Hwf).
  destruct (bv_long_ok s (pm / 64) Hwf) as (w & Hw & _); [lia|lia|]. rewrite Hw. cbn [mbind option_bind].
  rewrite land_mask by lia. eexists. split; [done|].
  replace (bv_bit s pm) with (Z.testbit w (pm mod 64)) by (unfold bv_bit; by rewrite Hw).
  pose proof (Z.pow_pos_nonneg 2 (pm mod 64)). pose proof (Z.pow_lt_mono_r 2 (pm mod 64) 64).
  destruct (Z.testbit w (pm mod 64)); split; try lia.
Qed.

Lemma bv_mem_le s x : bv_wf s -> 0 <= x -> bv_bit s x = true -> x <= maxMember s ∧ x < 65536 ∧ maxMember s < bv_size s.
Proof.
  intros Hwf Hx Hb. pose proof (bv_size_max s (maxMember s / 64) Hwf). pose proof (Z.div_mod (maxMember s) 64).
  pose proof (Z.mod_pos_bound (maxMember s) 64). destruct Hwf as (? & _ & _ & H'). specialize (H' x Hx Hb).
  unfold bv_size in *. lia.
Qed.

Lemma bv_iterate s it :
  bv_wf s -> 0 <= it ->
  match BitVectorIterateSet s (Some it) with
  | None => False
  | Some None => forall x, it <= x -> bv_bit s x = false
  | Some (Some (iv, it')) =>
      it <= first iv <= last iv ∧ last iv < 65536 ∧
      (forall x, it <= x <= last iv -> bv_bit s x = true <-> first iv <= x) ∧ bv_bit s (last iv + 1) = false ∧ it' = last iv + 1
  end.
Proof.
  intros Hwf Hit. unfold BitVectorIterateSet. change (default 0 (Some it)) with it. cbv zeta.
  assert (Hout : forall x, bv_size s <= x -> 0 <= x -> bv_bit s x = false).
  { intros x Hx Hx0. destruct (bv_bit s x) eqn:E; [|done]. pose proof (bv_mem_le s x Hwf Hx0 E). lia. }
  destruct (BitVectorFindBit_spec s it true Hwf Hit) as (b & -> & [[-> Hn]|(Hb & Hbit & Hn)]); cbn [mbind option_bind].
  { rewrite Z.eqb_refl. intros x Hx. destruct (Z.lt_ge_cases x (bv_size s)); [by apply Hn|apply Hout; lia]. }
  rewrite (proj2 (Z.eqb_neq b (-1))) by lia.
  destruct (bv_mem_le s b Hwf ltac:(lia) Hbit) as (Hbm & Hb16 & Hms).
  destruct (BitVectorFindBit_spec s b false Hwf ltac:(lia)) as (e & -> & He); cbn [mbind option_bind].
  set (last := if e <? 0 then maxMember s else e - 1).
  assert (Hlast : b <= last < 65536 ∧ none_in s false b (last + 1) ∧ bv_bit s (last + 1) = false).
  { subst last. destruct He as [[-> Hf]|(He & Hebit & Hf)].
    - simpl. assert (maxMember s = bv_size s - 1) as ->.
      { destruct (bv_mem_le s (bv_size s - 1) Hwf ltac:(lia)); [apply (Hf (bv_size s - 1)); lia|lia]. }
      destruct (bv_mem_le s (bv_size s - 1) Hwf ltac:(lia)); [apply (Hf (bv_size s - 1)); lia|].
      split; [lia|]. replace (bv_size s - 1 + 1) with (bv_size s) by lia. split; [done|apply Hout; lia].
    - destruct (Z.eq_dec e b) as [->|]; [congruence|]. rewrite (proj2 (Z.ltb_ge e 0)) by lia.
      destruct (bv_mem_le s (e - 1) Hwf ltac:(lia)); [apply (Hf (e - 1)); lia|].
      replace (e - 1 + 1) with e by lia. split; [lia|done]. }
  clearbody last. destruct Hlast as (Hl & Hf & Hend). unfold u16. rewrite !Z.mod_small by lia. cbn [first RecordSet.last].
  split; [lia|]. split; [lia|]. split; [|done]. intros x Hx. split.
  - intros Ht. destruct (Z.le_gt_cases b x); [done|]. rewrite (Hn x) in Ht by lia. done.
  - intros Hbx. apply (Hf x). lia.
Qed.

#[export] Instance BitVectorSet_spec : RecordSetSpec BitVectorSet.
Proof.
  refine {| set_wf := bv_wf; set_mem s x := 0 <= x ∧ bv_bit s x = true;
            iter_ok s it := 0 <= default 0 it; iter_pos s it := default 0 it |}.
  - intros s x Hwf [Hx Hb]. destruct (bv_mem_le s x Hwf Hx Hb). lia.
  - done.
  - intros s pm. apply bv_member.
  - intros s it Hwf Hit. pose proof (bv_iterate s (default 0 it) Hwf Hit) as H. cbn [IterateSet BitVectorSetOperations].
    assert (E : BitVectorIterateSet s (Some (default 0 it)) = BitVectorIterateSet s it) by done. rewrite E in H.
    destruct (BitVectorIterateSet s it) as [[[iv it']|]|]; [|by intros x Hx [_ ?]; rewrite H in *|done].
    destruct H as (H1 & H2 & H3 & H4 & ->). simpl. split_and!; try lia; [|intros [_ ?]; congruence].
    intros x Hx. rewrite H3 by done. split; [tauto|]. split; [lia|done].
Defined.

(** ** Lists of intervals meet the contract *)

(** An interval as the half-open span of Bands.v. *)
Definition span_of (iv : RecordSetInterval) : span := (first iv, last iv + 1).

Definition il_wf (s : IntervalListSet) : Prop :=
  spans_from (-1) (map span_of (il_intervals s)) ∧
  Forall (fun iv => last iv < 65536) (il_intervals s) ∧ Z.of_nat (length (il_intervals s)) < 2 ^ 31.
Definition il_mem (s : IntervalListSet) (x : Z) : Prop := in_spans x (map span_of (il_intervals s)).

Definition in_interval (x : Z) (iv : RecordSetInterval) : Prop := first iv <= x <= last iv.

Lemma in_spans_intervals x ivs : in_spans x (map span_of ivs) <-> Exists (in_interval x) ivs.
Proof.
  induction ivs as [|iv ivs IH]; [simpl; rewrite in_spans_nil, Exists_nil; done|].
  change (map span_of (iv :: ivs)) with ((first iv, last iv + 1) :: map span_of ivs).
  rewrite in_spans_cons, Exists_cons, IH. unfold in_interval. by assert (first iv <= x < last iv + 1 <-> first iv <= x <= last iv) as -> by lia.
Qed.

Lemma spans_lookup lo ivs i iv :
  spans_from lo (map span_of ivs) -> ivs !! i = Some iv -> lo < first iv <= last iv.
Proof.
  revert lo i; induction ivs as [|a ivs IH]; intros lo i; [done|]. simpl. intros (? & ? & Hs) Hi.
  destruct i as [|i]; [injection Hi as <-; lia|]. specialize (IH _ _ Hs Hi). lia.
Qed.

Lemma spans_order lo ivs i j a b :
  spans_from lo (map span_of ivs) -> ivs !! i = Some a -> ivs !! j = Some b -> (i < j)%nat -> last a + 1 < first b.
Proof.
  revert lo i j; induction ivs as [|x ivs IH]; intros lo i j; [done|]. simpl. intros (? & ? & Hs) Hi Hj Hij.
  destruct j as [|j]; [lia|]. destruct i as [|i]; [|apply (IH _ i j Hs); done || lia].
  injection Hi as ->. apply (spans_lookup _ _ _ _ Hs) in Hj. lia.
Qed.

Lemma bsearch_spec fuel ivs pm lo hi :
  spans_from (-1) (map span_of ivs) -> 0 <= lo -> hi < Z.of_nat (length ivs) -> -1 <= hi -> hi - lo + 1 < Z.of_nat fuel -> (0 < fuel)%nat ->
  (forall i iv, ivs !! i = Some iv -> Z.of_nat i < lo -> last iv < pm) ->
  (forall i iv, ivs !! i = Some iv -> hi < Z.of_nat i -> pm < first iv) ->
  exists v, bsearch fuel ivs pm lo hi = Some v ∧ 0 <= v < 2 ^ 64 ∧ (v ≠ 0 <-> Exists (in_interval pm) ivs).
Proof.
  intros Hs. revert lo hi; induction fuel as [|fuel IH]; intros lo hi Hlo Hhi Hm1 Hf Hpos Hl Hh; [lia|]. cbn [bsearch].
  destruct (Z.leb_spec lo hi) as [Hle|Hgt].
  2: { exists 0. split; [done|]. split; [lia|]. split; [done|]. intros Hex. apply Exists_exists in Hex as (iv & Hin & Hpm).
       apply list_elem_of_lookup_1 in Hin as [i Hi]. unfold in_interval in Hpm.
       destruct (Z.lt_ge_cases (Z.of_nat i) lo) as [Hc|Hc]; [specialize (Hl i iv Hi Hc)|specialize (Hh i iv Hi ltac:(lia))]; lia. }
  set (probe := (hi + lo) / 2). assert (Hp : lo <= probe <= hi).
  { pose proof (Z.div_mod (hi + lo) 2). pose proof (Z.mod_pos_bound (hi + lo) 2). subst probe. lia. }
  cbv zeta. destruct (lookup_lt_is_Some_2 ivs (Z.to_nat probe)) as [iv Hiv]; [lia|]. rewrite Hiv. cbn [mbind option_bind].
  pose proof (spans_lookup _ _ _ _ Hs Hiv) as Hb.
  destruct ((first iv <=? pm) && (pm <=? last iv)) eqn:Hin.
  { exists 1. split; [done|]. split; [lia|]. split; [intros _|done]. apply Exists_exists. exists iv.
    split; [by eapply list_elem_of_lookup_2|]. unfold in_interval. lia. }
  destruct (Z.ltb_spec pm (first iv)) as [Hlt|Hge].
  - apply IH; try lia; [exact Hl|]. intros i a Ha Hi. destruct (decide (i = Z.to_nat probe)) as [->|]; [congruence || (replace a with iv by congruence; lia)|].
    destruct (Z.lt_ge_cases hi (Z.of_nat i)) as [Hc|Hc]; [by apply (Hh i a)|].
    pose proof (spans_order _ _ _ i _ _ Hs Hiv Ha ltac:(lia)). lia.
  - apply IH; try lia; [|exact Hh]. intros i a Ha Hi. destruct (decide (i = Z.to_nat probe)) as [->|]; [replace a with iv by congruence; lia|].
    pose proof (spans_order _ _ i _ _ _ Hs Ha Hiv ltac:(lia)). pose proof (spans_lookup _ _ _ _ Hs Ha). lia.
Qed.

Definition il_pos (s : IntervalListSet) (it : option Z) : Z :=
  let k := default 0 it in
  if k <=? 0 then 0 else match il_intervals s !! Z.to_nat (k - 1) with Some iv => last iv + 1 | None => 0 end.

Lemma il_iterate s k :
  il_wf s -> 0 <= k <= Z.of_nat (length (il_intervals s)) ->
  match IntervalListIterateSet s (Some k) with
  | None => False
  | Some None => forall x, il_pos s (Some k) <= x -> ¬ il_mem s x
  | Some (Some (iv, it')) =>
      il_pos s (Some k) <= first iv <= last iv ∧
      (forall x, il_pos s (Some k) <= x <= last iv -> il_mem s x <-> first iv <= x) ∧ ¬ il_mem s (last iv + 1) ∧
      0 <= it' <= Z.of_nat (length (il_intervals s)) ∧ il_pos s (Some it') = last iv + 1
  end.
Proof.
  intros (Hs & _ & _) Hk. unfold IntervalListIterateSet, il_pos, il_mem. change (default 0 (Some k)) with k. cbv zeta.
  revert Hs Hk. generalize (il_intervals s) as ivs. intros ivs Hs Hk.
  set (pos := if k <=? 0 then 0 else match ivs !! Z.to_nat (k - 1) with Some iv => last iv + 1 | None => 0 end).
  assert (Hpos : 0 <= pos ∧ forall i iv, ivs !! i = Some iv -> (Z.of_nat i < k -> last iv < pos) ∧ (k <= Z.of_nat i -> pos <= first iv)).
  { subst pos. destruct (Z.leb_spec k 0) as [Hk0|Hk0].
    - split; [lia|]. intros i iv Hi. pose proof (spans_lookup _ _ _ _ Hs Hi). lia.
    - destruct (lookup_lt_is_Some_2 ivs (Z.to_nat (k - 1))) as [p Hp]; [lia|]. rewrite Hp.
      pose proof (spans_lookup _ _ _ _ Hs Hp). split; [lia|]. intros i iv Hi. split; intros Hik.
      + destruct (decide (i = Z.to_nat (k - 1))) as [->|]; [replace iv with p by congruence; lia|].
        pose proof (spans_order _ _ i _ _ _ Hs Hi Hp ltac:(lia)). lia.
      + pose proof (spans_order _ _ _ i _ _ Hs Hp Hi ltac:(lia)). lia. }
  clearbody pos. destruct Hpos as [Hpos Hsplit].
  destruct (Z.ltb_spec k (Z.of_nat (length ivs))) as [Hlt|Hge].
  - destruct (lookup_lt_is_Some_2 ivs (Z.to_nat k)) as [iv Hiv]; [lia|]. rewrite Hiv. cbn [mbind option_bind].
    pose proof (spans_lookup _ _ _ _ Hs Hiv) as Hb. destruct (Hsplit _ _ Hiv) as [_ Hfirst].
    split; [lia|]. split; [|split; [|split; [lia|]]].
    + intros x Hx. rewrite in_spans_intervals, Exists_exists. split.
      * intros (a & Hin & Ha). apply list_elem_of_lookup_1 in Hin as [i Hi]. unfold in_interval in Ha. destruct (Hsplit i a Hi) as [H1 H2].
        destruct (Z.lt_ge_cases (Z.of_nat i) k) as [Hc|Hc]; [lia|].
        destruct (decide (i = Z.to_nat k)) as [->|]; [replace iv with a by congruence; lia|].
        pose proof (spans_order _ _ _ i _ _ Hs Hiv Hi ltac:(lia)). lia.
      * intros Hx1. exists iv. split; [by eapply list_elem_of_lookup_2|]. unfold in_interval. lia.
    + rewrite in_spans_intervals, Exists_exists. intros (a & Hin & Ha). apply list_elem_of_lookup_1 in Hin as [i Hi].
      unfold in_interval in Ha. destruct (lt_eq_lt_dec i (Z.to_nat k)) as [[Hc|Hc]|Hc].
      * pose proof (spans_order _ _ i _ _ _ Hs Hi Hiv Hc). lia.
      * subst i. assert (a = iv) as -> by congruence. lia.
      * pose proof (spans_order _ _ _ i _ _ Hs Hiv Hi Hc). lia.
    + change (default 0 (Some (k + 1))) with (k + 1). rewrite (proj2 (Z.leb_gt _ _)) by lia.
      replace (k + 1 - 1) with k by lia. by rewrite Hiv.
  - intros x Hx. rewrite in_spans_intervals, Exists_exists. intros (a & Hin & Ha). apply list_elem_of_lookup_1 in Hin as [i Hi].
    unfold in_interval in Ha. assert (i < length ivs)%nat by (by eapply lookup_lt_Some). destruct (Hsplit i a Hi). lia.
Qed.

#[export] Instance IntervalListSet_spec : RecordSetSpec IntervalListSet.
Proof.
  refine {| set_wf := il_wf; set_mem := il_mem;
            iter_ok s it := 0 <= default 0 it <= Z.of_nat (length (il_intervals s)); iter_pos := il_pos |}.
  - intros s x (Hs & Hl & _) Hm. apply in_spans_intervals, Exists_exists in Hm as (iv & Hin & Hx). unfold in_interval in Hx.
    rewrite Forall_forall in Hl. specialize (Hl _ Hin). apply list_elem_of_lookup_1 in Hin as [i Hi].
    pose proof (spans_lookup _ _ _ _ Hs Hi). lia.
  - intros s _. split; [simpl; lia|done].
  - intros s pm (Hs & _ & _) Hpm. set (ivs := il_intervals s).
    destruct (bsearch_spec (S (length ivs)) ivs pm 0 (Z.of_nat (length ivs) - 1)) as (v & Hv & ? & ?); try done; try lia.
    { intros i iv Hi Hc. apply lookup_lt_Some in Hi. lia. }
    exists v. split; [exact Hv|]. split; [done|]. unfold il_mem. rewrite in_spans_intervals. done.
  - intros s it Hwf Hit. pose proof (il_iterate s (default 0 it) Hwf Hit) as H. cbn [IterateSet IntervalListSetOperations].
    assert (E1 : IntervalListIterateSet s (Some (default 0 it)) = IntervalListIterateSet s it) by done.
    assert (E2 : il_pos s (Some (default 0 it)) = il_pos s it) by done. rewrite E1, E2 in H.
    destruct (IntervalListIterateSet s it) as [[[iv it']|]|]; exact H.
Defined.

#[export] Instance RecordSet_spec : RecordSetSpec RecordSet.
Proof.
  refine {| set_wf s := match s with BitVector s => set_wf s | IntervalList s => set_wf s end;
            set_mem s := match s with BitVector s => set_mem s | IntervalList s => set_mem s end;
            iter_ok s := match s with BitVector s => iter_ok s | IntervalList s => iter_ok s end;
            iter_pos s := match s with BitVector s => iter_pos s | IntervalList s => iter_pos s end |}.
  - intros [s|s] x; [apply (set_mem_range (A := BitVectorSet))|apply (set_mem_range (A := IntervalListSet))].
  - intros [s|s]; [apply (iter_start (A := BitVectorSet))|apply (iter_start (A := IntervalListSet))].
  - intros [s|s] pm; [apply (is_member (A := BitVectorSet))|apply (is_member (A := IntervalListSet))].
  - intros [s|s] it; [apply (iterate (A := BitVectorSet))|apply (iterate (A := IntervalListSet))].
Defined.

(** ** Filling a bit vector *)

Definition valid_interval (iv : RecordSetInterval) : Prop := 0 <= first iv <= last iv ∧ last iv < 65536.

Definition wbit (words : list Z) (x : Z) : bool := Z.testbit (default 0 (words !! Z.to_nat (x / 64))) (x mod 64).
Definition words_ok (words : list Z) : Prop := Forall (fun w => 0 <= w < 2 ^ 64) words.

Lemma set_bit_spec words j :
  words_ok words -> 0 <= j < 64 * Z.of_nat (length words) ->
  exists words', set_bit words j = Some words' ∧ words_ok words' ∧ length words' = length words ∧
    forall x, 0 <= x -> wbit words' x = wbit words x || (x =? j).
Proof.
  intros Hok Hj. unfold set_bit, BITS_PER_LONG.
  pose proof (Z.div_mod j 64). pose proof (Z.mod_pos_bound j 64). pose proof (Z.div_pos j 64).
  destruct (lookup_lt_is_Some_2 words (Z.to_nat (j / 64))) as [w Hw]; [lia|]. rewrite Hw. cbn [mbind option_bind].
  eexists. split; [done|]. split; [|split; [apply length_insert|]].
  - apply Forall_insert; [done|]. unfold words_ok in Hok. rewrite Forall_forall in Hok.
    assert (Hr := Hok w ltac:(by eapply list_elem_of_lookup_2)). split; [apply Z.lor_nonneg; split; [lia|apply Z.shiftl_nonneg; lia]|].
    destruct (Z.eq_dec (Z.lor w (Z.shiftl 1 (j mod 64))) 0) as [->|Hnz]; [lia|].
    apply Z.log2_lt_pow2; [assert (0 <= Z.lor w (Z.shiftl 1 (j mod 64))) by (apply Z.lor_nonneg; split; [lia|apply Z.shiftl_nonneg; lia]); lia|].
    rewrite Z.log2_lor by (try apply Z.shiftl_nonneg; lia). rewrite Z.shiftl_1_l, Z.log2_pow2 by lia.
    apply Z.max_lub_lt; [|lia]. destruct (Z.eq_dec w 0) as [->|]; [simpl; lia|]. apply Z.log2_lt_pow2; lia.
  - intros x Hx. unfold wbit. pose proof (Z.div_mod x 64). pose proof (Z.mod_pos_bound x 64). pose proof (Z.div_pos x 64).
    destruct (Z.eq_dec (x / 64) (j / 64)) as [Hq|Hq].
    + rewrite Hq, list_lookup_insert_eq, Hw by (by eapply lookup_lt_Some). cbn [default from_option id].
      rewrite Z.lor_spec, Z.shiftl_1_l, Z.pow2_bits_eqb by lia. simpl. f_equal.
      destruct (Z.eqb_spec (j mod 64) (x mod 64)), (Z.eqb_spec x j); lia.
    + rewrite list_lookup_insert_ne by lia. rewrite (proj2 (Z.eqb_neq x j)) by congruence. by rewrite orb_false_r.
Qed.

Lemma set_bits_spec n words j :
  words_ok words -> 0 <= j -> j + Z.of_nat n <= 64 * Z.of_nat (length words) ->
  exists words', set_bits words j n = Some words' ∧ words_ok words' ∧ length words' = length words ∧
    forall x, 0 <= x -> wbit words' x = true <-> wbit words x = true ∨ j <= x < j + Z.of_nat n.
Proof.
  revert words j; induction n as [|n IH]; intros words j Hok Hj Hn; cbn [set_bits].
  { exists words. split_and!; try done. intros x Hx. split; [by left|]. intros [?|?]; [done|lia]. }
  destruct (set_bit_spec words j Hok) as (w1 & -> & Hok1 & Hl1 & Hb1); [lia|]. cbn [mbind option_bind].
  destruct (IH w1 (j + 1) Hok1) as (w2 & -> & Hok2 & Hl2 & Hb2); [lia|rewrite Hl1; lia|].
  exists w2. split_and!; try done; [congruence|]. intros x Hx. rewrite Hb2, Hb1, orb_true_iff, Z.eqb_eq by done.
  assert (j <= x < j + Z.of_nat (S n) <-> x = j ∨ j + 1 <= x < j + 1 + Z.of_nat n) as -> by lia. tauto.
Qed.

Lemma set_intervals_spec ivs words :
  words_ok words -> Forall valid_interval ivs -> Forall (fun iv => last iv < 64 * Z.of_nat (length words)) ivs ->
  exists words', set_intervals words ivs = Some words' ∧ words_ok words' ∧ length words' = length words ∧
    forall x, 0 <= x -> wbit words' x = true <-> wbit words x = true ∨ Exists (in_interval x) ivs.
Proof.
  revert words; induction ivs as [|iv ivs IH]; intros words Hok Hv Hl; cbn [set_intervals].
  { exists words. split_and!; try done. intros x Hx. rewrite Exists_nil. tauto. }
  apply Forall_cons in Hv as [[Hv Hv16] Hvs], Hl as [Hl Hls].
  destruct (set_bits_spec (Z.to_nat (last iv - first iv + 1)) words (first iv) Hok) as (w1 & -> & Hok1 & Hl1 & Hb1); [lia|lia|].
  cbn [mbind option_bind]. destruct (IH w1 Hok1 Hvs) as (w2 & -> & Hok2 & Hl2 & Hb2); [by rewrite Hl1|].
  exists w2. split_and!; try done; [congruence|]. intros x Hx. rewrite Hb2, Hb1, Exists_cons by done.
  unfold in_interval at 2. rewrite Z2Nat.id by lia.
  assert (first iv <= x < first iv + (last iv - first iv + 1) <-> first iv <= x <= last iv) as -> by lia. tauto.
Qed.

Lemma maxMember_spec ivs :
  -1 <= maxMemberInInterval ivs ∧ (forall iv, iv ∈ ivs -> last iv <= maxMemberInInterval ivs) ∧
  (Forall valid_interval ivs -> maxMemberInInterval ivs < 65536).
Proof.
  unfold maxMemberInInterval. enough (H : forall m, let r := foldl (fun m iv => if m <? last iv then last iv else m) m ivs in
    m <= r ∧ (forall iv, iv ∈ ivs -> last iv <= r) ∧ (m < 65536 -> Forall valid_interval ivs -> r < 65536)).
  { destruct (H (-1)) as (? & ? & ?). split_and!; try done. intros Hv. apply H2; [lia|done]. }
  induction ivs as [|iv ivs IH]; intros m; cbn [foldl].
  { split_and!; try done; try lia. by intros iv ?%not_elem_of_nil. }
  destruct (IH (if m <? last iv then last iv else m)) as (H1 & H2 & H3).
  assert (m <= (if m <? last iv then last iv else m) ∧ last iv <= (if m <? last iv then last iv else m)) by (destruct (Z.ltb_spec m (last iv)); lia).
  split_and!; [lia| |].
  - intros a [->|Ha]%elem_of_cons; [lia|by apply H2].
  - intros Hm [[_ Hv] Hvs]%Forall_cons. apply H3; [destruct (Z.ltb_spec m (last iv)); lia|done].
Qed.

Lemma nlongs_fit m : -1 <= m < 65536 -> m < 64 * bv_nlongs m ∧ 0 <= bv_nlongs m.
Proof.
  intros Hm. unfold bv_nlongs, u64, BITS_PER_LONG. rewrite (Z.mod_small (m + 64)) by lia.
  pose proof (Z.div_mod (m + 64) 64). pose proof (Z.mod_pos_bound (m + 64) 64). lia.
Qed.

Lemma BitVectorCreateSet_spec ivs pMem o :
  Forall valid_interval ivs ->
  exists r o', BitVectorCreateSet ivs pMem (BitVectorSetMemoryRequirements (maxMemberInInterval ivs)) o = Some (r, o') ∧
    match r with
    | None => pMem = false ∧ may_fail o
    | Some s => bv_free s = negb pMem ∧ bv_wf s ∧ forall x, 0 <= x -> bv_bit s x = true <-> Exists (in_interval x) ivs
    end.
Proof.
  intros Hv. unfold BitVectorCreateSet. destruct (maxMember_spec ivs) as (Hm & Hmax & H16). specialize (H16 Hv).
  destruct (if pMem then (true, o) else alloc o) as [ok o'] eqn:Ha.
  assert (Hok : ok = false -> pMem = false ∧ may_fail o).
  { destruct pMem; [by injection Ha as <- <-|]. intros ->. apply alloc_spec in Ha as [Ha _]. split; [done|by apply Ha]. }
  destruct ok; cbn [negb]; [|exists None, o'; split; [done|by apply Hok]].
  destruct (nlongs_fit (maxMemberInInterval ivs)) as [Hfit Hn]; [lia|].
  unfold BitVectorSetMemoryRequirements. replace ((16 + bv_nlongs (maxMemberInInterval ivs) * 8 - 16) / 8) with (bv_nlongs (maxMemberInInterval ivs))
    by (replace (16 + bv_nlongs (maxMemberInInterval ivs) * 8 - 16) with (bv_nlongs (maxMemberInInterval ivs) * 8) by lia; rewrite Z.div_mul; lia).
  set (zeros := replicate _ 0).
  assert (Hz : forall x, wbit zeros x = false).
  { intros x. unfold wbit, zeros. destruct (replicate _ 0 !! _) as [w|] eqn:E; [apply lookup_replicate in E as [-> _]|]; apply Z.testbit_0_l. }
  assert (Hlen : Z.of_nat (length zeros) = bv_nlongs (maxMemberInInterval ivs)) by (unfold zeros; rewrite length_replicate; lia).
  destruct (set_intervals_spec ivs zeros) as (words & -> & Hokw & Hl & Hb).
  { unfold zeros, words_ok. apply Forall_replicate. lia. }
  { done. }
  { apply Forall_forall. intros iv Hiv. rewrite Hlen. specialize (Hmax _ Hiv). lia. }
  cbn [mbind option_bind]. eexists _, _. split; [done|]. split; [done|].
  assert (Hbit : forall x, 0 <= x -> wbit words x = true <-> Exists (in_interval x) ivs).
  { intros x Hx. rewrite Hb, Hz by done. split; [intros [?|?]; done|by right]. }
  split; [|exact Hbit]. split; [simpl; lia|]. split; [simpl; by rewrite Hl, Hlen|]. split; [exact Hokw|].
  intros x Hx Hbx. apply Hbit, Exists_exists in Hbx as (iv & Hin & Hi); [|done]. specialize (Hmax _ Hin). unfold in_interval in Hi. simpl. lia.
Qed.

(** ** Sorting and merging intervals *)

Definition first_le (a b : RecordSetInterval) : Prop := first a <= first b.

Lemma insert_interval_spec stack iv :
  StronglySorted first_le stack ->
  StronglySorted first_le (insert_interval stack iv) ∧ insert_interval stack iv ≡ₚ iv :: stack.
Proof.
  intros Hs. unfold insert_interval. cbv zeta. split; [|by rewrite <- Permutation_middle, take_drop].
  induction stack as [|a stack IH]; simpl; [repeat constructor|].
  apply StronglySorted_inv in Hs as [Hs Ha]. destruct (Z.ltb_spec (first iv) (first a)) as [Hlt|Hge]; simpl.
  - constructor; [by constructor|]. constructor; [unfold first_le; lia|].
    eapply Forall_impl; [exact Ha|]. unfold first_le. intros; lia.
  - constructor; [by apply IH|]. rewrite <- Permutation_middle, take_drop. constructor; [done|exact Ha].
Qed.

Lemma insertion_sort_spec ivs stack :
  StronglySorted first_le stack ->
  StronglySorted first_le (foldl insert_interval stack ivs) ∧ foldl insert_interval stack ivs ≡ₚ ivs ++ stack.
Proof.
  revert stack; induction ivs as [|iv ivs IH]; intros stack Hs; simpl; [done|].
  destruct (insert_interval_spec stack iv Hs) as [Hs1 Hp1]. destruct (IH _ Hs1) as [Hs2 Hp2].
  split; [done|]. rewrite Hp2, Hp1. by rewrite Permutation_middle.
Qed.

Lemma spans_snoc_iv lo l iv :
  spans_from lo (map span_of (l ++ [iv])) <-> spans_from lo (map span_of l) ∧ send lo (map span_of l) < first iv <= last iv.
Proof. rewrite map_app. simpl. unfold span_of at 2. rewrite spans_from_snoc. intuition lia. Qed.

Lemma send_snoc_iv lo l iv : send lo (map span_of (l ++ [iv])) = last iv + 1.
Proof. rewrite map_app. unfold send. simpl. by rewrite last_snoc. Qed.

Lemma merge_intervals_spec fuel pre a rest :
  (length rest < fuel)%nat -> StronglySorted first_le (a :: rest) -> Forall valid_interval (a :: rest) ->
  spans_from (-1) (map span_of (pre ++ [a])) ->
  exists l, merge_intervals fuel (pre ++ a :: rest) (length pre) = Some l ∧ (length l <= length (pre ++ a :: rest))%nat ∧
    spans_from (-1) (map span_of l) ∧ (forall x, Exists (in_interval x) l <-> Exists (in_interval x) (pre ++ a :: rest)) ∧
    (forall b, b ∈ l -> b ∈ pre ∨ last b < 65536).
Proof.
  revert pre a rest; induction fuel as [|fuel IH]; intros pre a rest Hf Hs Hv Hd; [lia|]. cbn [merge_intervals].
  rewrite length_app. simpl (length (a :: rest)).
  destruct rest as [|b rest].
  { rewrite (proj2 (Nat.ltb_ge _ _)) by (simpl; lia). exists (pre ++ [a]). rewrite length_app. split_and!; try done.
    intros c [?|Hc]%elem_of_app; [by left|]. apply list_elem_of_singleton in Hc as ->. right. apply Forall_cons in Hv as [[_ ?] _]. done. }
  rewrite (proj2 (Nat.ltb_lt _ _)) by (simpl; lia).
  rewrite (list_lookup_middle pre (b :: rest) a _ eq_refl). cbn [mbind option_bind].
  assert (Hb : (pre ++ a :: b :: rest) !! S (length pre) = Some b).
  { rewrite lookup_app_r by lia. by replace (S (length pre) - length pre)%nat with 1%nat by lia. }
  rewrite Hb. cbn [mbind option_bind].
  apply StronglySorted_inv in Hs as [Hs Ha]. assert (Hab : first a <= first b) by (by apply Forall_cons in Ha as [? _]).
  apply Forall_cons in Hv as [[Hva Ha16] Hv]. assert (Hvb := Hv). apply Forall_cons in Hvb as [[Hvb Hb16] Hvr].
  destruct (Z.ltb_spec (last a + 1) (first b)) as [Hlt|Hge].
  - replace (S (length pre)) with (length (pre ++ [a])) by (rewrite length_app; simpl; lia).
    replace (pre ++ a :: b :: rest) with ((pre ++ [a]) ++ b :: rest) by (by rewrite <- app_assoc).
    destruct (IH (pre ++ [a]) b rest) as (l & -> & Hl & Hsp & Hx & H16); [simpl in Hf; lia|done|done| |].
    { apply spans_snoc_iv. rewrite send_snoc_iv. split; [done|lia]. }
    exists l. split_and!; try done; [rewrite !length_app in Hl; simpl in *; lia|].
    intros c Hc. destruct (H16 c Hc) as [[?|Hca]%elem_of_app|?]; [by left| |by right].
    apply list_elem_of_singleton in Hca as ->. by right.
  - set (ab := mkRSI (first a) (Z.max (last a) (last b))).
    assert (Hnew : take (length pre) (pre ++ a :: b :: rest) ++ ab :: drop (S (S (length pre))) (pre ++ a :: b :: rest) = pre ++ ab :: rest).
    { rewrite take_app_length, drop_app_ge by lia. by replace (S (S (length pre)) - length pre)%nat with 2%nat by lia. }
    rewrite Hnew. apply StronglySorted_inv in Hs as [Hs Hbr].
    destruct (IH pre ab rest) as (l & -> & Hl & Hsp & Hx & H16); [simpl in Hf; lia| | | |].
    + constructor; [done|]. apply Forall_cons in Ha as [_ Ha]. exact Ha.
    + constructor; [split; simpl; lia|done].
    + apply spans_snoc_iv. apply spans_snoc_iv in Hd as [? ?]. simpl. split; [done|lia].
    + exists l. split_and!; try done; [rewrite length_app in Hl; simpl in *; lia|].
      intros x. rewrite Hx, !Exists_app, !Exists_cons. unfold in_interval, ab; simpl. 
      assert (first a <= x <= last a `max` last b <-> first a <= x <= last a ∨ first b <= x <= last b) as -> by lia. tauto.
Qed.

Lemma IntervalListCreateSet_spec ivs pMem o :
  Forall valid_interval ivs -> Z.of_nat (length ivs) < 2 ^ 31 ->
  exists r o', IntervalListCreateSet ivs pMem o = Some (r, o') ∧
    match r with
    | None => may_fail o
    | Some s => il_free s = negb pMem ∧ il_wf s ∧ (length (il_intervals s) <= length ivs)%nat ∧
        forall x, il_mem s x <-> Exists (in_interval x) ivs
    end.
Proof.
  intros Hv Hn. unfold IntervalListCreateSet. cbv zeta.
  destruct (if (0 <? length ivs)%nat then alloc o else (true, o)) as [ok o1] eqn:Ha.
  assert (Ho1 : (ok = false -> may_fail o) ∧ (may_fail o1 -> may_fail o)).
  { destruct (0 <? length ivs)%nat; [apply alloc_spec in Ha; tauto|by injection Ha as <- <-]. }
  destruct ok; cbn [negb]; [|exists None, o1; split; [done|apply (proj1 Ho1); reflexivity]].
  assert (Hstack : exists l, merge_intervals (S (length ivs)) (foldl insert_interval [] ivs) 0 = Some l ∧
    (length l <= length ivs)%nat ∧ spans_from (-1) (map span_of l) ∧ Forall (fun iv => last iv < 65536) l ∧
    forall x, Exists (in_interval x) l <-> Exists (in_interval x) ivs).
  { destruct (insertion_sort_spec ivs [] ltac:(constructor)) as [Hs Hp]. rewrite app_nil_r in Hp.
    destruct (foldl insert_interval [] ivs) as [|a rest].
    - exists []. apply Permutation_nil in Hp as ->. done.
    - assert (Hv' : Forall valid_interval (a :: rest)) by (by rewrite Hp).
      assert (Hlen : length (a :: rest) = length ivs) by (by rewrite Hp).
      assert (Hva := Hv'). apply Forall_cons in Hva as [[Hva _] _].
      destruct (merge_intervals_spec (S (length ivs)) [] a rest) as (l & Hl & Hle & Hsp & Hx & H16);
        [simpl in Hlen; lia|done|done|simpl; lia|].
      exists l. split; [exact Hl|]. simpl in Hle, Hlen. split; [lia|]. split; [done|]. split.
      + apply Forall_forall. intros b Hb. by destruct (H16 b Hb) as [?%not_elem_of_nil|?].
      + intros x. by rewrite Hx, Hp. }
  destruct Hstack as (l & -> & Hle & Hsp & H16 & Hx). cbn [mbind option_bind].
  destruct (if pMem then (true, o1) else alloc o1) as [ok o2] eqn:Hb.
  destruct ok; cbn [negb].
  - eexists _, _. split; [done|]. split; [done|]. split; [split; [done|split; [done|simpl; lia]]|]. split; [done|].
    intros x. unfold il_mem. rewrite in_spans_intervals. apply Hx.
  - exists None, o2. split; [done|]. apply Ho1. destruct pMem; [done|]. apply alloc_spec in Hb as [Hb _]. by apply Hb.
Qed.

(** ** Clients *)

(** Rounds enough for any set: one per 16-bit number and one to see the end. *)
Definition iter_fuel : nat := Z.to_nat 65537.

Section Client.
Context `{RecordSetSpec A}.

Lemma iterate_all_from fuel s it :
  set_wf s -> iter_ok s it -> 0 <= iter_pos s it -> 65536 - iter_pos s it < Z.of_nat fuel -> (0 < fuel)%nat ->
  exists l, iterate_all fuel s it = Some l ∧
    (forall lo, (lo < iter_pos s it \/ (lo = iter_pos s it /\ ¬ set_mem s lo)) -> spans_from lo (map span_of l)) ∧
    (forall x, iter_pos s it <= x -> set_mem s x <-> in_spans x (map span_of l)).
Proof.
  intros Hwf. revert it; induction fuel as [|fuel IH]; intros it Hok Hpos Hf Hf0; [lia|]. cbn [iterate_all].
  pose proof (iterate s it Hwf Hok) as Hit.
  destruct (IterateSet s it) as [[[iv it']|]|]; [| |done]; cbn [mbind option_bind].
  - destruct Hit as (Hb & Hm & Hend & Hok' & Hpos').
    assert (Hlast : last iv < 65536).
    { apply (set_mem_range s (last iv) Hwf). apply Hm; lia. }
    destruct (IH (Some it') Hok') as (l & -> & Hsp & Hx); [lia|lia|lia|]. cbn [mbind option_bind].
    eexists. split; [done|]. split.
    + intros lo Hlo. simpl. split_and!; [|lia|].
      * destruct Hlo as [?|[-> Hlo]]; [lia|]. destruct (Z.eq_dec (iter_pos s it) (first iv)) as [E|]; [|lia].
        destruct Hlo. apply Hm; lia.
      * apply Hsp. right. rewrite Hpos'. done.
    + intros x Hx0. change (map span_of (iv :: l)) with ((first iv, last iv + 1) :: map span_of l). rewrite in_spans_cons.
      destruct (Z.le_gt_cases x (last iv)) as [Hle|Hgt].
      * rewrite Hm by lia. split; [lia|]. intros [?|Hin]; [lia|]. apply (spans_from_lower (last iv)) in Hin; [lia|].
        apply Hsp. left. lia.
      * rewrite Hx by lia. split; [by right|]. intros [?|?]; [lia|done].
  - exists []. split; [done|]. split; [done|]. intros x Hx. simpl. rewrite in_spans_nil. split; [|done]. apply Hit. lia.
Qed.

Lemma iterate_all_members s :
  set_wf s -> exists l, iterate_all iter_fuel s None = Some l ∧ spans_from (-1) (map span_of l) ∧
    forall x, 0 <= x -> set_mem s x <-> in_spans x (map span_of l).
Proof.
  intros Hwf. destruct (iter_start s Hwf) as [Hok Hpos].
  destruct (iterate_all_from iter_fuel s None Hwf Hok) as (l & Hl & Hsp & Hx); rewrite ?Hpos; try (unfold iter_fuel; lia).
  exists l. split; [done|]. split; [apply Hsp; left; rewrite Hpos; lia|]. intros x Hx0. apply Hx. by rewrite Hpos.
Qed.
End Client.

(** ** The properties *)

(** Why [RecordCreateSet] may return NULL. *)
Definition create_refused (pIntervals : list RecordSetInterval) (pMem : option (Z * Z)) (o : oracle) : Prop :=
  may_fail o ∨ exists addr memsize, pMem = Some (addr, memsize) ∧
    (Z.land addr 7 ≠ 0 ∨ memsize < fst (RecordSetMemoryRequirements pIntervals)).

Lemma RecordCreateSet_spec ivs pMem o :
  Forall valid_interval ivs -> Z.of_nat (length ivs) < 2 ^ 31 ->
  exists r o', RecordCreateSet ivs pMem o = Some (r, o') ∧
    match r with
    | None => create_refused ivs pMem o
    | Some s => set_wf s ∧ DestroySet s = match pMem with Some _ => false | None => true end ∧
        forall x, 0 <= x -> set_mem s x <-> Exists (in_interval x) ivs
    end.
Proof.
  intros Hv Hn. unfold RecordCreateSet, create_refused.
  destruct (RecordSetMemoryRequirements ivs) as [size bits] eqn:Hreq.
  set (refused := match pMem with Some _ => _ | None => _ end).
  assert (Hr : refused = true -> exists addr memsize, pMem = Some (addr, memsize) ∧ (Z.land addr 7 ≠ 0 ∨ memsize < size)).
  { subst refused. destruct pMem as [[addr memsize]|]; [|done]. rewrite orb_true_iff, negb_true_iff, Z.eqb_neq, Z.ltb_lt.
    intros Hc. by exists addr, memsize. }
  destruct refused; [exists None, o; split; [done|]; right; simpl; by apply Hr|]. cbv zeta.
  set (mem := match pMem with Some _ => true | None => false end).
  assert (Hmem : negb mem = match pMem with Some _ => false | None => true end) by (by destruct pMem).
  unfold RecordSetMemoryRequirements in Hreq. cbv zeta in Hreq.
  destruct bits.
  - assert (size = BitVectorSetMemoryRequirements (maxMemberInInterval ivs)) as -> by (by destruct (_ || _); injection Hreq).
    destruct (BitVectorCreateSet_spec ivs mem o Hv) as (r & o' & -> & Hspec).
    eexists _, _. split; [done|]. destruct r as [s|]; simpl; [|left; tauto].
    destruct Hspec as (Hf & Hwf & Hx). rewrite Hf. split; [exact Hwf|]. split; [done|]. intros x Hx0. rewrite Hx by done. tauto.
  - destruct (IntervalListCreateSet_spec ivs mem o Hv Hn) as (r & o' & -> & Hspec).
    eexists _, _. split; [done|]. destruct r as [s|]; simpl; [|by left].
    destruct Hspec as (Hf & Hwf & _ & Hx). rewrite Hf. split; [exact Hwf|]. split; [done|]. intros x _. apply Hx.
Qed.

(** C17: [RecordCreateSet] builds the set its intervals describe, whichever
    representation it picks.  For intervals of 16-bit numbers with [first <= last] it
    returns NULL only when memory was refused, or the caller's memory is misaligned
    or too small; it never writes outside the set's memory; membership answers
    for every nonnegative int, without a read outside the set, whether some
    interval contains it; and [DestroySet] frees exactly the sets that own their memory. *)
Theorem RecordCreateSet_correct ivs pMem o :
  Forall valid_interval ivs -> Z.of_nat (length ivs) < 2 ^ 31 ->
  exists r o', RecordCreateSet ivs pMem o = Some (r, o') ∧
    match r with
    | None => create_refused ivs pMem o
    | Some s => DestroySet s = match pMem with Some _ => false | None => true end ∧
        forall pm, 0 <= pm < 2 ^ 31 ->
          exists v, IsMemberOfSet s pm = Some v ∧ (v ≠ 0 <-> Exists (fun iv => first iv <= pm <= last iv) ivs)
    end.
Proof.
  intros Hv Hn. destruct (RecordCreateSet_spec ivs pMem o Hv Hn) as (r & o' & H & Hr). exists r, o'. split; [done|].
  destruct r as [s|]; [|done]. destruct Hr as (Hwf & Hd & Hm). split; [done|]. intros pm Hpm.
  destruct (is_member s pm Hwf Hpm) as (v & Hv' & _ & Hiff). exists v. split; [done|]. rewrite Hiff. apply Hm. lia.
Qed.

Lemma RecordCreateSet_correct_witness :
  exists s o', RecordCreateSet [mkRSI 30 40; mkRSI 7 9; mkRSI 38 70] None [] = Some (Some s, o') ∧ DestroySet s = true ∧
    IsMemberOfSet s 65 = Some 2 ∧ IsMemberOfSet s 10 = Some 0.
Proof.
  destruct (RecordCreateSet_correct [mkRSI 30 40; mkRSI 7 9; mkRSI 38 70] None []) as (r & o' & H & Hr).
  - repeat (constructor; [split; simpl; lia|]). constructor.
  - simpl. lia.
  - vm_compute in H. injection H as <- <-. destruct Hr as [Hd _]. eexists _, _. split; [reflexivity|].
    split; [exact Hd|]. split; reflexivity.
Defined.

(** iteration yields the members of a set as its maximal intervals, in
    increasing order and with a gap between any two, and ends.  It holds for every
    implementation of the interface. *)
Theorem RecordIterateSet_intervals A (ops : RecordSetOperations A) (spec : RecordSetSpec A) (s : A) :
  set_wf s ->
  exists l, iterate_all iter_fuel s None = Some l ∧ spans_from (-1) (map span_of l) ∧
    forall x, 0 <= x -> set_mem s x <-> Exists (fun iv => first iv <= x <= last iv) l.
Proof.
  intros Hwf. destruct (iterate_all_members s Hwf) as (l & Hl & Hs & Hx). exists l. split; [done|]. split; [done|].
  intros x Hx0. by rewrite Hx, in_spans_intervals.
Qed.

Definition sample_list : IntervalListSet := mkILS true [mkRSI 3 5; mkRSI 9 9].

Lemma sample_list_wf : il_wf sample_list.
Proof. split; [simpl; lia|]. split; [|simpl; lia]. repeat (constructor; [simpl; lia|]). constructor. Qed.

Lemma RecordIterateSet_intervals_witness :
  iterate_all iter_fuel sample_list None = Some [mkRSI 3 5; mkRSI 9 9] ∧
  exists l, Some l = Some [mkRSI 3 5; mkRSI 9 9] ∧ spans_from (-1) (map span_of l).
Proof.
  destruct (RecordIterateSet_intervals _ _ IntervalListSet_spec sample_list sample_list_wf) as (l & Hl & Hs & _).
  split; [reflexivity|]. exists l. split; [|exact Hs]. rewrite <- Hl. reflexivity.
Defined.

Lemma span_of_inj l l' : map span_of l = map span_of l' -> l = l'.
Proof.
  revert l'; induction l as [|[a b] l IH]; intros [|[c d] l'] Hl; try done. simpl in Hl. injection Hl as -> Hb Hl.
  f_equal; [f_equal; lia|by apply IH].
Qed.

(** the representation does not show.  Two sets with the same members,
    whatever their implementations, are iterated in the same way and agree on
    membership. *)
Theorem RecordSet_representations A B (opsA : RecordSetOperations A) (specA : RecordSetSpec A)
    (opsB : RecordSetOperations B) (specB : RecordSetSpec B) (s : A) (s' : B) :
  set_wf s -> set_wf s' -> (forall x, 0 <= x -> set_mem s x <-> set_mem s' x) ->
  iterate_all iter_fuel s None = iterate_all iter_fuel s' None ∧
  forall pm, 0 <= pm < 2 ^ 31 -> exists v v', IsMemberOfSet s pm = Some v ∧ IsMemberOfSet s' pm = Some v' ∧ (v = 0 <-> v' = 0).
Proof.
  intros Hwf Hwf' Heq. split.
  - destruct (iterate_all_members s Hwf) as (l & -> & Hs & Hx), (iterate_all_members s' Hwf') as (l' & -> & Hs' & Hx').
    f_equal. assert (Hl : map span_of l = map span_of l').
    { apply (spans_from_unique _ _ _ _ Hs Hs'). intros x. destruct (Z.lt_ge_cases x 0) as [Hn|Hn].
      - split; intros Hin; [apply (spans_from_lower _ _ _ Hs) in Hin|apply (spans_from_lower _ _ _ Hs') in Hin]; lia.
      - by rewrite <- Hx, <- Hx', Heq. }
    by apply span_of_inj.
  - intros pm Hpm. destruct (is_member s pm Hwf Hpm) as (v & -> & _ & Hv), (is_member s' pm Hwf' Hpm) as (v' & -> & _ & Hv').
    exists v, v'. split; [done|]. split; [done|]. rewrite <- (Heq pm) in Hv' by lia.
    destruct (Z.eq_dec v 0), (Z.eq_dec v' 0); tauto.
Qed.

Definition sample_vector : BitVectorSet := mkBVS true 9 [0x238].

Lemma sample_vector_wf : bv_wf sample_vector.
Proof.
  split; [simpl; lia|]. split; [reflexivity|]. split; [constructor; [simpl; lia|constructor]|]. intros x Hx Hb. simpl.
  destruct (Z.le_gt_cases x 9); [done|]. destruct (Z.lt_ge_cases x 64) as [Hlt|Hge].
  - exfalso. unfold bv_bit in Hb. rewrite (Z.div_small x 64), (Z.mod_small x 64) in Hb by lia. simpl in Hb.
    rewrite Z.bits_above_log2 in Hb; [done|lia|]. change (Z.log2 568) with 9. lia.
  - exfalso. unfold bv_bit, bv_long in Hb. pose proof (Z.div_le_lower_bound x 64 1 ltac:(lia) ltac:(lia)).
    destruct (Z.to_nat (x / 64)) as [|n] eqn:E; [lia|]. simpl in Hb. by rewrite Z.testbit_0_l in Hb.
Qed.

Lemma RecordSet_representations_witness :
  iterate_all iter_fuel sample_list None = iterate_all iter_fuel sample_vector None.
Proof.
  refine (proj1 (RecordSet_representations _ _ _ IntervalListSet_spec _ BitVectorSet_spec sample_list sample_vector sample_list_wf sample_vector_wf _)).
  intros x Hx. simpl. unfold il_mem, sample_list. rewrite in_spans_intervals. cbn [il_intervals].
  rewrite !Exists_cons, Exists_nil. unfold in_interval. cbn [first last].
  destruct (Z.le_gt_cases x 9) as [Hle|Hgt].
  - assert (Hc : x = 0 ∨ x = 1 ∨ x = 2 ∨ x = 3 ∨ x = 4 ∨ x = 5 ∨ x = 6 ∨ x = 7 ∨ x = 8 ∨ x = 9) by lia.
    repeat (destruct Hc as [->|Hc]; [vm_compute; intuition (try discriminate; try congruence)|]).
    subst x. vm_compute. intuition (try discriminate; try congruence).
  - split; [lia|]. intros [_ Hb]. destruct sample_vector_wf as (_ & _ & _ & H). specialize (H x Hx Hb). simpl in H. lia.
Defined.

(** [RecordADeliveredEventOrError] stores the [unsigned long] answer of a
    membership test in an [int].  For bit vectors the answer is the bit itself, so
    members whose position in their word is 32 or more are seen as absent: exactly
    they are lost. *)
Theorem recordit_truncates (s : BitVectorSet) (m : Z) :
  set_wf s -> 0 <= m < 2 ^ 31 -> set_mem s m -> recordit s m = Some 0 <-> 32 <= m mod 64.
Proof.
  intros Hwf Hm [_ Hb]. destruct (bv_mem_le s m Hwf ltac:(lia) Hb) as (Hle & _ & _).
  unfold recordit. cbn [IsMemberOfSet BitVectorSetOperations]. unfold BitVectorIsMemberOfSet, BITS_PER_LONG.
  rewrite (proj2 (Z.ltb_ge _ _)) by lia. rewrite u64_small by lia.
  unfold bv_bit in Hb. destruct (bv_long s (m / 64)) as [w|]; [|by rewrite Z.testbit_0_l in Hb].
  cbn [default from_option id mbind option_bind] in Hb |- *. pose proof (Z.mod_pos_bound m 64 ltac:(lia)) as Hk.
  rewrite land_mask, Hb by lia. simpl. unfold wrap_s. cbv zeta.
  set (k := m mod 64) in *. clearbody k.
  destruct (Z.lt_ge_cases k 32) as [Hlt|Hge].
  - assert (Hp : 0 < 2 ^ k < 2 ^ 32) by (split; [apply Z.pow_pos_nonneg|apply Z.pow_lt_mono_r]; lia).
    rewrite Z.mod_small by lia. split; [|lia]. intros [= Hz]. destruct (2 ^ k <? _) in Hz; lia.
  - assert (2 ^ k mod 2 ^ 32 = 0) as ->.
    { replace k with (k - 32 + 32) by lia. rewrite Z.pow_add_r by lia. apply Z.mod_mul. lia. }
    simpl. split; [lia|done].
Qed.

Lemma recordit_truncates_witness :
  let s := mkBVS true 34 [0x400000008] in recordit s 34 = Some 0 ∧ recordit s 3 = Some 8.
Proof.
  assert (Hwf : bv_wf (mkBVS true 34 [0x400000008])).
  { split; [simpl; lia|]. split; [reflexivity|]. split; [constructor; [lia|constructor]|]. intros x Hx Hb. simpl.
    destruct (Z.le_gt_cases x 34); [done|]. exfalso. unfold bv_bit, bv_long in Hb. destruct (Z.lt_ge_cases x 64) as [Hlt|Hge].
    - rewrite (Z.div_small x 64), (Z.mod_small x 64) in Hb by lia. simpl in Hb.
      rewrite Z.bits_above_log2 in Hb; [done|lia|]. change (Z.log2 17179869192) with 34. lia.
    - pose proof (Z.div_le_lower_bound x 64 1 ltac:(lia) ltac:(lia)).
      destruct (Z.to_nat (x / 64)) as [|n] eqn:E; [lia|]. simpl in Hb. by rewrite Z.testbit_0_l in Hb. }
  split; [|reflexivity]. apply (recordit_truncates _ 34 Hwf); [lia|split; [lia|reflexivity]|vm_compute; discriminate].
Defined.
