(* ===== verification/ResourceDB.v ===== *)
(** * ResourceDB: the resource database of dix/resource.c - data, types, identifiers, insertion, lookup

    Each client has a hash table of resources; resource types are registered with
    the procedure that deletes them.  This file holds the tables, the registry of
    types, the choice of identifiers, insertion with rehashing, and lookup.  The
    deletion of resources is in ResourceFree, the theorems are in the files
    ResourceProofs and ResourceTheorems. *)

From S2P Require Import Prelude.

(** ** Data *)

Abbreviation XID := Z.
Abbreviation RESTYPE := Z.
Abbreviation pointer := Z.

(** What can go wrong: a read or write through freed memory, an index outside an
    array, a call of [FatalError], a loop that needs more rounds than given, a link that
    breaks a list. *)
Inductive fault := Dangling | OutOfBounds | FatalError | OutOfFuel | Corrupted.

Inductive result (A : Type) := Ok (a : A) | Err (f : fault).
Arguments Ok {A} a.
Arguments Err {A} f.

#[export] Instance result_ret : MRet result := @Ok.
#[export] Instance result_bind : MBind result :=
  fun A B f m => match m with Ok a => f a | Err e => Err e end.

Definition of_option {A} (f : fault) (m : option A) : result A :=
  match m with Some a => Ok a | None => Err f end.

(** The address of a node is its identity. *)
Record ResourceRec := mkRes { r_addr : nat; r_id : XID; r_type : RESTYPE; r_value : pointer }.

(** [array] is the identity of the memory behind [resources]; a chain is the list
    of its nodes.  [buckets] is 0 and [resources] empty for a client not in use. *)
Record ClientResourceRec := mkCRR {
  array : nat;
  resources : list (list ResourceRec);
  elements : Z;
  buckets : Z;
  hashsize : Z;
  fakeID : XID;
  endFakeID : XID;
  expectID : XID
}.

(** The deletion procedures of the core types, and those that extensions register. *)
Inductive DeleteType :=
  | NoopDDA | DeleteWindow | dixDestroyPixmap | FreeGC | CloseFont | FreeCursor
  | FreeColormap | FreeClientPixels | OtherClientGone | DeletePassiveGrab
  | ExtensionDelete (n : nat).

#[export] Instance DeleteType_eq_dec : EqDecision DeleteType.
Proof. solve_decision. Defined.

Record TypeRegistry := mkTR {
  lastResourceType : RESTYPE;
  lastResourceClass : RESTYPE;
  TypeMask : RESTYPE;
  DeleteFuncs : list DeleteType
}.

(** The fields of a client that this code uses. *)
Record ClientRec := mkClient {
  index : Z; clientAsMask : Z; lastDrawable : pointer; lastDrawableID : XID;
  lastGC : pointer; lastGCID : XID
}.

(** What the code does besides changing its tables. *)
Inductive Event :=
  | Flush (id : XID)
  | Delete (f : DeleteType) (value : pointer) (id : XID)
  | Free (addr : nat)
  | FreeArray (addr : nat)
  | Found (value : pointer) (id : XID)
  | ErrorF (id : XID)
  | ClientException (client : Z).

#[export] Instance Event_eq_dec : EqDecision Event.
Proof. solve_decision. Defined.

(** [WindowTable0] is the first root window and the id of its drawable; [fresh] is
    the next address the allocator hands out, [mem] whether it succeeds. *)
Record World := mkWorld {
  clientTable : list ClientResourceRec;
  registry : TypeRegistry;
  clients : list (option ClientRec);
  WindowTable0 : pointer * XID;
  fresh : nat;
  mem : oracle;
  log : list Event
}.

Definition set_table (s : World) t := mkWorld t (registry s) (clients s) (WindowTable0 s) (fresh s) (mem s) (log s).
Definition set_registry (s : World) g := mkWorld (clientTable s) g (clients s) (WindowTable0 s) (fresh s) (mem s) (log s).
Definition set_clients (s : World) c := mkWorld (clientTable s) (registry s) c (WindowTable0 s) (fresh s) (mem s) (log s).
Definition emit (s : World) (e : Event) :=
  mkWorld (clientTable s) (registry s) (clients s) (WindowTable0 s) (fresh s) (mem s) (log s ++ [e]).

(** An allocation: its outcome and, on success, a new address. *)
Definition xalloc (s : World) : option nat * World :=
  let '(ok, o) := alloc (mem s) in
  if ok then (Some (fresh s), mkWorld (clientTable s) (registry s) (clients s) (WindowTable0 s) (S (fresh s)) o (log s))
  else (None, mkWorld (clientTable s) (registry s) (clients s) (WindowTable0 s) (fresh s) o (log s)).

(** ** Constants of resource.h and resource.c *)

Definition MAXCLIENTS : Z := 256.
Definition RESOURCE_CLIENT_BITS : Z := 8.
Definition CLIENTOFFSET : Z := 29 - RESOURCE_CLIENT_BITS.
Definition RESOURCE_ID_MASK : Z := Z.shiftl 1 CLIENTOFFSET - 1.
Definition RESOURCE_CLIENT_MASK : Z := Z.shiftl (Z.shiftl 1 RESOURCE_CLIENT_BITS - 1) CLIENTOFFSET.
Definition CLIENT_BITS (id : XID) : Z := Z.land id RESOURCE_CLIENT_MASK.
Definition CLIENT_ID (id : XID) : Z := Z.shiftr (CLIENT_BITS id) CLIENTOFFSET.
Definition SERVER_BIT : Z := 0x40000000.
Definition SERVER_MINID : Z := 32.
Definition INITBUCKETS : Z := 64.
Definition INITHASHSIZE : Z := 6.
Definition MAXHASHSIZE : Z := 11.
Definition RC_CACHED : RESTYPE := Z.shiftl 1 31.
Definition RC_DRAWABLE : RESTYPE := Z.shiftl 1 30.
Definition RC_NEVERRETAIN : RESTYPE := Z.shiftl 1 29.
Definition RC_LASTPREDEF : RESTYPE := RC_NEVERRETAIN.
Definition RC_ANY : RESTYPE := 2 ^ 64 - 1.
Definition RT_LASTPREDEF : RESTYPE := 9.

(** A class bit is set in a type. *)
Definition has (t bits : Z) : bool := negb (Z.land t bits =? 0).

(** ** The registry of types and classes *)

(** The result is 0 on failure. *)
Definition CreateNewResourceType (g : TypeRegistry) (o : oracle) (deleteFunc : DeleteType)
    : RESTYPE * TypeRegistry * oracle :=
  let next := lastResourceType g + 1 in
  if has next (lastResourceClass g) then (0, g, o) else
  let '(ok, o) := alloc o in
  if negb ok then (0, g, o) else
  (next, mkTR next (lastResourceClass g) (TypeMask g) (DeleteFuncs g ++ [deleteFunc]), o).

Definition CreateNewResourceClass (g : TypeRegistry) : RESTYPE * TypeRegistry :=
  let next := Z.shiftr (lastResourceClass g) 1 in
  if has next (lastResourceType g) then (0, g) else
  (next, mkTR (lastResourceType g) next (next - 1) (DeleteFuncs g)).

(** The registry as the server client's initialisation leaves it. *)
Definition initial_DeleteFuncs : list DeleteType :=
  [NoopDDA; DeleteWindow; dixDestroyPixmap; FreeGC; CloseFont; FreeCursor;
   FreeColormap; FreeClientPixels; OtherClientGone; DeletePassiveGrab].
Definition init_registry (funcs : list DeleteType) : TypeRegistry :=
  mkTR RT_LASTPREDEF RC_LASTPREDEF (RC_LASTPREDEF - 1) funcs.

(** ** Client tables *)

Definition no_client : ClientResourceRec := mkCRR 0 [] 0 0 0 0 0 0.
Definition rrec (s : World) (client : Z) : ClientResourceRec :=
  default no_client (clientTable s !! Z.to_nat client).
Definition set_rrec (s : World) (client : Z) (r : ClientResourceRec) : World :=
  set_table s (<[Z.to_nat client := r]> (clientTable s)).

Definition InitClientResources (s : World) (client : ClientRec) : bool * World :=
  let '(ok, s) :=
    if index client =? 0 then
      match xalloc s with
      | (Some _, s) => (true, set_registry s (init_registry initial_DeleteFuncs))
      | (None, s) => (false, set_registry s (init_registry []))
      end
    else (true, s) in
  if negb ok then (false, s) else
  let i := index client in
  let r := rrec s i in
  match xalloc s with
  | (None, s) => (false, set_rrec s i (mkCRR 0 [] (elements r) (buckets r) (hashsize r) (fakeID r) (endFakeID r) (expectID r)))
  | (Some a, s) =>
      let fake := Z.lor (clientAsMask client) (if i =? 0 then SERVER_MINID else SERVER_BIT) in
      (true, set_rrec s i (mkCRR a (replicate (Z.to_nat INITBUCKETS) []) 0 INITBUCKETS INITHASHSIZE
        fake (u32 (Z.lor fake RESOURCE_ID_MASK + 1)) (clientAsMask client)))
  end.

(** The bucket of an identifier. *)
Definition Hash (r : ClientResourceRec) (id : XID) : Z :=
  let id := Z.land id RESOURCE_ID_MASK in
  if hashsize r =? 6 then Z.land 0x3F (Z.lxor (Z.lxor id (Z.shiftr id 6)) (Z.shiftr id 12))
  else if hashsize r =? 7 then Z.land 0x7F (Z.lxor (Z.lxor id (Z.shiftr id 7)) (Z.shiftr id 13))
  else if hashsize r =? 8 then Z.land 0xFF (Z.lxor (Z.lxor id (Z.shiftr id 8)) (Z.shiftr id 16))
  else if hashsize r =? 9 then Z.land 0x1FF (Z.lxor id (Z.shiftr id 9))
  else if hashsize r =? 10 then Z.land 0x3FF (Z.lxor id (Z.shiftr id 10))
  else if hashsize r =? 11 then Z.land 0x7FF (Z.lxor id (Z.shiftr id 11))
  else -1.

(** [resources[i]]. *)
Definition bucket (r : ClientResourceRec) (i : Z) : result (list ResourceRec) :=
  if i <? 0 then Err OutOfBounds else of_option OutOfBounds (resources r !! Z.to_nat i).

(** ** Identifiers *)

(** [for (; id <= maxid; id++)]; [n] is the number of rounds. *)
Fixpoint available_from (n : nat) (r : ClientResourceRec) (id : XID) : result XID :=
  match n with
  | O => Ok 0
  | S n =>
      chain ← bucket r (Hash r id);
      if existsb (fun res => r_id res =? id) chain then available_from n r (id + 1) else Ok id
  end.

Definition AvailableID (r : ClientResourceRec) (id maxid goodid : XID) : result XID :=
  if (id <=? goodid) && (goodid <=? maxid) then Ok goodid
  else available_from (Z.to_nat (maxid - id + 1)) r id.

(** One node of the scan: the range [id..maxid] shrinks to the side that still has
    an unused identifier. *)
Definition narrow (r : ClientResourceRec) (rid : XID) (st : XID * XID * XID) : result (XID * XID * XID) :=
  let '(id, maxid, goodid) := st in
  if (rid <? id) || (maxid <? rid) then Ok st else
  if maxid - rid <=? rid - id then
    goodid ← AvailableID r id (u32 (rid - 1)) goodid;
    if negb (goodid =? 0) then Ok (id, u32 (rid - 1), goodid) else Ok (u32 (rid + 1), maxid, goodid)
  else
    goodid ← AvailableID r (u32 (rid + 1)) maxid goodid;
    if goodid =? 0 then Ok (id, u32 (rid - 1), goodid) else Ok (u32 (rid + 1), maxid, goodid).

Fixpoint narrow_all (r : ClientResourceRec) (nodes : list ResourceRec) (st : XID * XID * XID)
    : result (XID * XID * XID) :=
  match nodes with
  | [] => Ok st
  | res :: nodes => st ← narrow r (r_id res) st; narrow_all r nodes st
  end.

(** The chains are scanned in bucket order; the result is the pair of [minp] and [maxp]. *)
Definition GetXIDRange (s : World) (client : Z) (server : bool) : result (XID * XID) :=
  let id := u32 (Z.shiftl client CLIENTOFFSET) in
  let id := if server then Z.lor id (if client =? 0 then SERVER_MINID else SERVER_BIT) else id in
  let maxid := Z.lor id RESOURCE_ID_MASK in
  '(id, maxid, _) ← narrow_all (rrec s client) (concat (resources (rrec s client))) (id, maxid, 0);
  if maxid <? id then Ok (0, 0) else Ok (id, maxid).

Definition set_fake (r : ClientResourceRec) fake endFake :=
  mkCRR (array r) (resources r) (elements r) (buckets r) (hashsize r) fake endFake (expectID r).

Definition FakeClientID (s : World) (client : Z) : result (XID * World) :=
  let r := rrec s client in
  let id := fakeID r in
  let r := set_fake r (u32 (id + 1)) (endFakeID r) in
  let s := set_rrec s client r in
  if negb (id =? endFakeID r) then Ok (id, s) else
  '(id, maxid) ← GetXIDRange s client true;
  if (id =? 0) && (client =? 0) then Err FatalError else
  let '(id, maxid, s) :=
    if id =? 0 then
      let id := Z.lor (u32 (Z.shiftl client CLIENTOFFSET)) (u32 (SERVER_BIT * 3)) in
      (id, Z.lor id RESOURCE_ID_MASK, emit s (ClientException client))
    else (id, maxid, s) in
  Ok (id, set_rrec s client (set_fake (rrec s client) (u32 (id + 1)) (u32 (maxid + 1)))).

(** ** Lookup *)

(** The first node of the chain with this identifier that satisfies the test; [None]
    also when the client is not in use. *)
Definition lookup_first (s : World) (id : XID) (test : ResourceRec -> bool) : result (option ResourceRec) :=
  let cid := CLIENT_ID id in
  if (cid <? MAXCLIENTS) && negb (buckets (rrec s cid) =? 0) then
    chain ← bucket (rrec s cid) (Hash (rrec s cid) id);
    Ok (List.find (fun res => (r_id res =? id) && test res) chain)
  else Ok None.

Section Security.
(** [XaceHook(XACE_RESOURCE_ACCESS, client, id, type, mode, value)]: the answer of
    the security modules (Xext/xace.c). *)
Context (XaceHook : Z -> XID -> RESTYPE -> Z -> pointer -> bool).

(** [retval] may be NULL; the client is [None] for NullClient. *)
Definition access (client : option Z) (mode : Z) (res : option ResourceRec) : pointer :=
  match res with
  | None => 0
  | Some res =>
      match client with
      | Some c =>
          if negb (r_value res =? 0) && negb (XaceHook c (r_id res) (r_type res) mode (r_value res))
          then 0 else r_value res
      | None => r_value res
      end
  end.

Definition SecurityLookupIDByType (s : World) (client : option Z) (id : XID) (rtype : RESTYPE) (mode : Z)
    : result pointer :=
  res ← lookup_first s id (fun res => r_type res =? rtype);
  Ok (access client mode res).

Definition SecurityLookupIDByClass (s : World) (client : option Z) (id : XID) (classes : RESTYPE) (mode : Z)
    : result pointer :=
  res ← lookup_first s id (fun res => has (r_type res) classes);
  Ok (access client mode res).

Definition DixUnknownAccess : Z := 0.
Definition LookupIDByType (s : World) (id : XID) (rtype : RESTYPE) : result pointer :=
  SecurityLookupIDByType s None id rtype DixUnknownAccess.
Definition LookupIDByClass (s : World) (id : XID) (classes : RESTYPE) : result pointer :=
  SecurityLookupIDByClass s None id classes DixUnknownAccess.

Definition LegalNewID (s : World) (id : XID) (client : ClientRec) : result bool :=
  if negb (clientAsMask client =? Z.land id (Z.lnot RESOURCE_ID_MASK)) then Ok false else
  if expectID (rrec s (index client)) <=? id then Ok true else
  v ← LookupIDByClass s id RC_ANY;
  Ok (v =? 0).

(** [while ((found < count) && (id <= maxid))]; [n] bounds the identifiers left. *)
Fixpoint xid_list (n : nat) (s : World) (count : nat) (id : XID) : result (list XID) :=
  match n, count with
  | S n, S count' =>
      v ← LookupIDByClass s id RC_ANY;
      if v =? 0 then pids ← xid_list n s count' (id + 1); Ok (id :: pids) else xid_list n s count (id + 1)
  | _, _ => Ok []
  end.

(** The identifiers stored in [pids]; the result of the code is their number. *)
Definition GetXIDList (s : World) (client : ClientRec) (count : Z) : result (list XID) :=
  let id := clientAsMask client in
  xid_list (Z.to_nat (Z.lor id RESOURCE_ID_MASK - id + 1)) s (Z.to_nat count) id.

End Security.

(** ** Insertion *)

(** Each node goes to the tail of its new chain. *)
Fixpoint rehash_chain (r : ClientResourceRec) (new : list (list ResourceRec)) (chain : list ResourceRec)
    : result (list (list ResourceRec)) :=
  match chain with
  | [] => Ok new
  | res :: chain =>
      let h := Hash r (r_id res) in
      if h <? 0 then Err OutOfBounds else
      l ← of_option OutOfBounds (new !! Z.to_nat h);
      rehash_chain r (<[Z.to_nat h := l ++ [res]]> new) chain
  end.

Fixpoint rehash_table (r : ClientResourceRec) (new old : list (list ResourceRec))
    : result (list (list ResourceRec)) :=
  match old with
  | [] => Ok new
  | chain :: old => new ← rehash_chain r new chain; rehash_table r new old
  end.

(** Two allocations: the array of tails and the new array. *)
Definition RebuildTable (s : World) (client : Z) : result World :=
  let r := rrec s client in
  let j := 2 * buckets r in
  match xalloc s with
  | (None, s) => Ok s
  | (Some tails, s) =>
      match xalloc s with
      | (None, s) => Ok (emit s (FreeArray tails))
      | (Some a, s) =>
          let r' := mkCRR a [] (elements r) j (hashsize r + 1) (fakeID r) (endFakeID r) (expectID r) in
          new ← rehash_table r' (replicate (Z.to_nat j) []) (resources r);
          Ok (emit (emit (set_rrec s client
                (mkCRR a new (elements r) j (hashsize r + 1) (fakeID r) (endFakeID r) (expectID r)))
                (FreeArray tails)) (FreeArray (array r)))
      end
  end.

Section Add.
(** The code of the deletion procedures. *)
Context (run : DeleteType -> pointer -> XID -> World -> result World).

(** [( *DeleteFuncs[type & TypeMask])(value, id)]. *)
Definition call_delete (s : World) (rtype : RESTYPE) (value : pointer) (id : XID) : result World :=
  f ← of_option OutOfBounds (DeleteFuncs (registry s) !! Z.to_nat (Z.land rtype (TypeMask (registry s))));
  run f value id (emit s (Delete f value id)).

Definition add_head (r : ClientResourceRec) (h : Z) (res : ResourceRec) : ClientResourceRec :=
  let id := r_id res in
  mkCRR (array r) (alter (cons res) (Z.to_nat h) (resources r)) (elements r + 1) (buckets r) (hashsize r)
    (fakeID r) (endFakeID r)
    (if (Z.land id SERVER_BIT =? 0) && (expectID r <=? id) then u32 (id + 1) else expectID r).

Definition AddResource (s : World) (id : XID) (type : RESTYPE) (value : pointer) : result (bool * World) :=
  let client := CLIENT_ID id in
  let r := rrec s client in
  if buckets r =? 0 then Err FatalError else
  s ← (if (4 * buckets r <=? elements r) && (hashsize r <? MAXHASHSIZE) then RebuildTable s client else Ok s);
  let r := rrec s client in
  let h := Hash r id in
  _ ← bucket r h;
  match xalloc s with
  | (None, s) => s ← call_delete s type value id; Ok (false, s)
  | (Some a, s) => Ok (true, set_rrec s client (add_head r h (mkRes a id type value)))
  end.

End Add.
