(* ===== verification/ResourceProofs.v ===== *)
(** * ResourceProofs: the invariant of the resource tables, and insertion

    The invariant [world_ok], the abstraction [contents] (the resources with a
    given identifier, newest first, whatever the hashing), and the lemmas on
    hashing, rehashing and insertion. *)

From S2P Require Import Prelude ResourceDB.

(** ** Lists of chains *)

Section Chains.
Context {A : Type}.
Implicit Types (ls : list (list A)) (P : A -> Prop).

Lemma concat_split ls i l :
  ls !! i = Some l -> concat ls = concat (take i ls) ++ l ++ concat (drop (S i) ls).
Proof.
  intros H. rewrite <- (take_drop_middle ls i l H) at 1.
  by rewrite concat_app.
Qed.

Lemma concat_insert ls i l l' :
  ls !! i = Some l -> concat (<[i := l']> ls) = concat (take i ls) ++ l' ++ concat (drop (S i) ls).
Proof.
  intros H. rewrite insert_take_drop by (by eapply lookup_lt_Some).
  by rewrite concat_app.
Qed.

Lemma elem_of_concat ls x : x ∈ concat ls <-> ∃ i l, ls !! i = Some l ∧ x ∈ l.
Proof.
  split.
  - intros H. apply list_elem_of_In in H. apply in_concat in H as (l & Hl & Hx).
    apply list_elem_of_In in Hl, Hx. apply list_elem_of_lookup in Hl as [i Hi]. eauto.
  - intros (i & l & Hi & Hx). rewrite (concat_split _ _ _ Hi). set_solver.
Qed.

Lemma filter_none P `{!∀ x, Decision (P x)} (l : list A) :
  (∀ x, x ∈ l -> ¬ P x) -> filter P l = [].
Proof.
  induction l as [|x l IH]; [done|]. intros HP. rewrite filter_cons_False by (apply HP; left).
  apply IH. intros y Hy. apply HP. by right.
Qed.

(** When only chain [i] has elements that satisfy [P], filtering that chain is enough. *)
Lemma filter_concat P `{!∀ x, Decision (P x)} ls i l :
  ls !! i = Some l ->
  (∀ j l' x, ls !! j = Some l' -> x ∈ l' -> P x -> j = i) ->
  filter P (concat ls) = filter P l.
Proof.
  intros Hi Honly. rewrite (concat_split _ _ _ Hi), !filter_app.
  rewrite (filter_none P (concat (take i ls))), (filter_none P (concat (drop (S i) ls))).
  - by rewrite app_nil_r.
  - intros x Hx HP. apply elem_of_concat in Hx as (j & l' & Hj & Hx).
    rewrite lookup_drop in Hj. specialize (Honly _ _ _ Hj Hx HP). lia.
  - intros x Hx HP. apply elem_of_concat in Hx as (j & l' & Hj & Hx).
    apply lookup_take_Some in Hj as [Hj Hlt]. specialize (Honly _ _ _ Hj Hx HP). lia.
Qed.

Lemma find_filter P `{!∀ x, Decision (P x)} (f g : A -> bool) l :
  (∀ x, f x = bool_decide (P x)) ->
  List.find (fun x => f x && g x) l = List.find g (filter P l).
Proof.
  intros Hf. induction l as [|x l IH]; [done|]. simpl. rewrite Hf.
  case_bool_decide.
  - rewrite filter_cons_True by done. simpl. by destruct (g x).
  - rewrite filter_cons_False by done. simpl. apply IH.
Qed.

End Chains.

(** ** Identifiers and buckets *)

Lemma CLIENT_ID_div id : CLIENT_ID id = (id / 2 ^ 21) mod 256.
Proof.
  unfold CLIENT_ID, CLIENT_BITS. rewrite Z.shiftr_land.
  change (Z.shiftr RESOURCE_CLIENT_MASK CLIENTOFFSET) with (Z.ones 8).
  rewrite Z.land_ones by lia. by rewrite Z.shiftr_div_pow2 by done.
Qed.

Lemma CLIENT_ID_range id : 0 <= CLIENT_ID id < 256.
Proof. rewrite CLIENT_ID_div. apply Z.mod_pos_bound. lia. Qed.

Lemma land_ones_l n z : 0 <= n -> 0 <= Z.land (Z.ones n) z < 2 ^ n.
Proof. intros. rewrite Z.land_comm, Z.land_ones by done. apply Z.mod_pos_bound. lia. Qed.

Lemma Hash_range r id : 6 <= hashsize r <= 11 -> 0 <= Hash r id < 2 ^ hashsize r.
Proof.
  intros Hh. unfold Hash.
  assert (hashsize r = 6 ∨ hashsize r = 7 ∨ hashsize r = 8 ∨ hashsize r = 9 ∨ hashsize r = 10 ∨ hashsize r = 11)
    as [E|[E|[E|[E|[E|E]]]]] by lia; rewrite E; cbn [Z.eqb Pos.eqb];
    (eapply (land_ones_l 6) || eapply (land_ones_l 7) || eapply (land_ones_l 8) || eapply (land_ones_l 9)
     || eapply (land_ones_l 10) || eapply (land_ones_l 11)); lia.
Qed.

#[global] Arguments Hash : simpl never.
#[global] Arguments CLIENT_ID : simpl never.
#[global] Arguments rrec : simpl never.
#[global] Arguments set_rrec : simpl never.

(** ** The invariant *)

Definition nodes (r : ClientResourceRec) : list ResourceRec := concat (resources r).

(** A table in use: every node is in the bucket of its identifier, no two nodes
    share an address, [elements] is at least the number of nodes, and identifiers
    from [expectID] on were never used. *)
Record live_ok (c : Z) (r : ClientResourceRec) : Prop := {
  lo_size : 6 <= hashsize r <= 11;
  lo_buckets : buckets r = 2 ^ hashsize r;
  lo_len : Z.of_nat (length (resources r)) = buckets r;
  lo_place i chain res : resources r !! i = Some chain -> res ∈ chain ->
    CLIENT_ID (r_id res) = c ∧ Hash r (r_id res) = Z.of_nat i ∧ 0 <= r_id res < 2 ^ 32;
  lo_addr : NoDup (r_addr <$> nodes r);
  lo_count : Z.of_nat (length (nodes r)) <= elements r;
  lo_expect res : res ∈ nodes r -> Z.land (r_id res) SERVER_BIT = 0 -> r_id res < expectID r
}.

Definition table_ok (c : Z) (r : ClientResourceRec) : Prop :=
  (buckets r = 0 ∧ resources r = []) ∨ live_ok c r.

Record world_ok (s : World) : Prop := {
  wo_len : length (clientTable s) = 256%nat;
  wo_table c : 0 <= c < 256 -> table_ok c (rrec s c);
  wo_fresh c res : 0 <= c < 256 -> res ∈ nodes (rrec s c) -> (r_addr res < fresh s)%nat
}.

(** The abstraction: the resources with identifier [id], newest first. *)
Definition contents (s : World) (id : XID) : list ResourceRec :=
  filter (fun res => r_id res = id) (nodes (rrec s (CLIENT_ID id))).

Definition in_use (s : World) (id : XID) : Prop := buckets (rrec s (CLIENT_ID id)) <> 0.

Lemma in_use_live s id : world_ok s -> in_use s id -> live_ok (CLIENT_ID id) (rrec s (CLIENT_ID id)).
Proof.
  intros Hs Hu. destruct (wo_table s Hs (CLIENT_ID id) (CLIENT_ID_range id)) as [[? ?]|?]; [|done].
  by destruct Hu.
Qed.

Lemma rrec_set s c r c' :
  world_ok s -> 0 <= c < 256 -> 0 <= c' -> rrec (set_rrec s c r) c' = if c' =? c then r else rrec s c'.
Proof.
  intros Hs Hc Hc'. unfold rrec, set_rrec. simpl. destruct (Z.eqb_spec c' c) as [->|].
  - rewrite list_lookup_insert_eq; [done|]. rewrite (wo_len s Hs). lia.
  - rewrite list_lookup_insert_ne by lia. done.
Qed.

(** Replacing one table. *)
Lemma world_ok_set s c r :
  world_ok s -> 0 <= c < 256 -> table_ok c r ->
  (∀ res, res ∈ nodes r -> (r_addr res < fresh s)%nat) ->
  world_ok (set_rrec s c r).
Proof.
  intros Hs Hc Hr Hf. split.
  - simpl. rewrite length_insert. apply Hs.
  - intros c' Hc'. rewrite rrec_set by (done || lia). destruct (Z.eqb_spec c' c) as [->|]; [done|by apply Hs].
  - intros c' res Hc'. rewrite rrec_set by (done || lia). simpl.
    destruct (Z.eqb_spec c' c) as [->|]; [apply Hf|by apply Hs].
Qed.

(** Only the tables and the address counter matter. *)
Lemma world_ok_frame s s' :
  clientTable s' = clientTable s -> (fresh s <= fresh s')%nat -> world_ok s -> world_ok s'.
Proof.
  intros Ht Hf Hs.
  assert (Hr : ∀ c, rrec s' c = rrec s c) by (intros; unfold rrec; by rewrite Ht).
  split; [rewrite Ht; apply Hs| |]; intros c; rewrite Hr; [apply Hs|].
  intros res Hc Hres. specialize (wo_fresh s Hs c res Hc Hres). lia.
Qed.

Lemma contents_frame s s' id : clientTable s' = clientTable s -> contents s' id = contents s id.
Proof. intros Ht. unfold contents, rrec. by rewrite Ht. Qed.

Lemma xalloc_spec s o s' :
  xalloc s = (o, s') ->
  clientTable s' = clientTable s ∧ registry s' = registry s ∧ clients s' = clients s ∧ log s' = log s ∧
  WindowTable0 s' = WindowTable0 s ∧
  match o with
  | Some a => a = fresh s ∧ fresh s' = S (fresh s)
  | None => fresh s' = fresh s ∧ may_fail (mem s)
  end.
Proof.
  unfold xalloc. destruct (alloc (mem s)) as [ok o0] eqn:E. apply alloc_spec in E as (E & _ & _).
  destruct ok; intros [= <- <-]; simpl; auto 10.
Qed.

(** The bucket of an identifier of the client. *)
Lemma live_bucket c r id :
  live_ok c r -> ∃ chain, Hash r id = Z.of_nat (Z.to_nat (Hash r id)) ∧
    resources r !! Z.to_nat (Hash r id) = Some chain ∧ bucket r (Hash r id) = Ok chain.
Proof.
  intros Hr. pose proof (Hash_range r id (lo_size _ _ Hr)) as Hh.
  destruct (resources r !! Z.to_nat (Hash r id)) as [chain|] eqn:E.
  - exists chain. split_and!; [lia|done|]. unfold bucket. rewrite E.
    destruct (Z.ltb_spec (Hash r id) 0); [lia|done].
  - apply lookup_ge_None in E. pose proof (lo_len _ _ Hr). pose proof (lo_buckets _ _ Hr). lia.
Qed.

Lemma live_filter c r id chain :
  live_ok c r -> resources r !! Z.to_nat (Hash r id) = Some chain ->
  filter (fun res => r_id res = id) (nodes r) = filter (fun res => r_id res = id) chain.
Proof.
  intros Hr Hc. apply (filter_concat _ _ (Z.to_nat (Hash r id))); [done|].
  intros j l' x Hj Hx <-. destruct (lo_place _ _ Hr _ _ _ Hj Hx) as (_ & -> & _). lia.
Qed.

(** Both together, for a client in use. *)
Lemma contents_bucket s id :
  world_ok s -> in_use s id ->
  ∃ chain, bucket (rrec s (CLIENT_ID id)) (Hash (rrec s (CLIENT_ID id)) id) = Ok chain ∧
    resources (rrec s (CLIENT_ID id)) !! Z.to_nat (Hash (rrec s (CLIENT_ID id)) id) = Some chain ∧
    contents s id = filter (fun res => r_id res = id) chain.
Proof.
  intros Hs Hu. pose proof (in_use_live s id Hs Hu) as Hr.
  destruct (live_bucket _ _ id Hr) as (chain & _ & Hl & Hb).
  exists chain. split_and!; [done|done|]. by apply (live_filter (CLIENT_ID id)).
Qed.

Lemma contents_unused s id : world_ok s -> ¬ in_use s id -> contents s id = [].
Proof.
  intros Hs Hu. unfold in_use in Hu.
  destruct (wo_table s Hs (CLIENT_ID id) (CLIENT_ID_range id)) as [[_ Hr]|Hr].
  - unfold contents, nodes. by rewrite Hr.
  - exfalso. pose proof (lo_buckets _ _ Hr). pose proof (lo_size _ _ Hr).
    assert (0 < 2 ^ hashsize (rrec s (CLIENT_ID id))) by (apply Z.pow_pos_nonneg; lia). lia.
Qed.

Lemma in_use_dec s id : in_use s id ∨ ¬ in_use s id.
Proof. unfold in_use. lia. Qed.

(** The guard of the operations. *)
Lemma guard_in_use s id :
  in_use s id -> (CLIENT_ID id <? MAXCLIENTS) && negb (buckets (rrec s (CLIENT_ID id)) =? 0) = true.
Proof.
  intros Hu. pose proof (CLIENT_ID_range id). unfold in_use, MAXCLIENTS in *.
  destruct (Z.ltb_spec (CLIENT_ID id) 256); [|lia]. by destruct (Z.eqb_spec (buckets (rrec s (CLIENT_ID id))) 0).
Qed.

Lemma guard_unused s id :
  ¬ in_use s id -> (CLIENT_ID id <? MAXCLIENTS) && negb (buckets (rrec s (CLIENT_ID id)) =? 0) = false.
Proof.
  intros Hu. unfold in_use in Hu. destruct (Z.eqb_spec (buckets (rrec s (CLIENT_ID id))) 0); [|lia].
  apply andb_false_r.
Qed.

(** ** Lookup *)

Lemma lookup_first_ok s id test :
  world_ok s -> lookup_first s id test = Ok (List.find test (contents s id)).
Proof.
  intros Hs. unfold lookup_first. destruct (in_use_dec s id) as [Hu|Hu].
  - rewrite guard_in_use by done.
    destruct (contents_bucket s id Hs Hu) as (chain & -> & _ & ->). simpl. f_equal. apply find_filter. intros x.
    destruct (Z.eqb_spec (r_id x) id); case_bool_decide; done.
  - by rewrite guard_unused, contents_unused.
Qed.

#[global] Arguments lookup_first : simpl never.

(** ** Rehashing *)

(** [new'] is [new] with every node of [moved] at the tail of its chain. *)
Definition rehashed (r : ClientResourceRec) (new new' : list (list ResourceRec)) (moved : list ResourceRec) : Prop :=
  length new' = length new ∧
  (∀ h l, new !! h = Some l ->
     new' !! h = Some (l ++ filter (fun res => Hash r (r_id res) = Z.of_nat h) moved)) ∧
  concat new' ≡ₚ concat new ++ moved.

Lemma rehashed_nil r new : rehashed r new new [].
Proof. split_and!; [done|intros; by rewrite app_nil_r|by rewrite app_nil_r]. Qed.

Lemma rehashed_trans r a b c m1 m2 :
  rehashed r a b m1 -> rehashed r b c m2 -> rehashed r a c (m1 ++ m2).
Proof.
  intros (L1 & S1 & P1) (L2 & S2 & P2). split_and!.
  - by rewrite L2.
  - intros h l Hl. rewrite (S2 _ _ (S1 _ _ Hl)), filter_app. by rewrite (assoc_L (++)).
  - rewrite P2, P1. by rewrite (assoc_L (++)).
Qed.

Lemma rehashed_one r new res l :
  0 <= Hash r (r_id res) -> new !! Z.to_nat (Hash r (r_id res)) = Some l ->
  rehashed r new (<[Z.to_nat (Hash r (r_id res)) := l ++ [res]]> new) [res].
Proof.
  intros Hpos Hl. split_and!.
  - apply length_insert.
  - intros h l' Hl'. destruct (decide (h = Z.to_nat (Hash r (r_id res)))) as [->|Hne].
    + rewrite list_lookup_insert_eq by (by eapply lookup_lt_Some).
      rewrite filter_cons_True by lia. rewrite Hl in Hl'. by injection Hl' as ->.
    + rewrite list_lookup_insert_ne by done. rewrite filter_cons_False by lia.
      by rewrite filter_nil, app_nil_r.
  - rewrite (concat_insert _ _ _ _ Hl), (concat_split _ _ _ Hl).
    rewrite <- !(assoc_L (++)). apply Permutation_app_head, Permutation_app_head.
    rewrite Permutation_app_comm. done.
Qed.

Lemma rehash_chain_ok r new chain :
  6 <= hashsize r <= 11 -> Z.of_nat (length new) = 2 ^ hashsize r ->
  ∃ new', rehash_chain r new chain = Ok new' ∧ rehashed r new new' chain.
Proof.
  intros Hh. revert new. induction chain as [|res chain IH]; intros new Hlen; simpl.
  - eauto using rehashed_nil.
  - pose proof (Hash_range r (r_id res) Hh) as Hr.
    destruct (Z.ltb_spec (Hash r (r_id res)) 0); [lia|].
    destruct (new !! Z.to_nat (Hash r (r_id res))) as [l|] eqn:El;
      [|apply lookup_ge_None in El; lia].
    pose proof (rehashed_one r new res l ltac:(lia) El) as H1. simpl.
    destruct (IH (<[Z.to_nat (Hash r (r_id res)) := l ++ [res]]> new)) as (new' & -> & H2).
    { by rewrite length_insert. }
    exists new'. split; [done|]. exact (rehashed_trans _ _ _ _ _ _ H1 H2).
Qed.

Lemma rehash_table_ok r new old :
  6 <= hashsize r <= 11 -> Z.of_nat (length new) = 2 ^ hashsize r ->
  ∃ new', rehash_table r new old = Ok new' ∧ rehashed r new new' (concat old).
Proof.
  intros Hh. revert new. induction old as [|chain old IH]; intros new Hlen; simpl.
  - eauto using rehashed_nil.
  - destruct (rehash_chain_ok r new chain Hh Hlen) as (n1 & -> & H1). simpl.
    destruct (IH n1) as (n2 & -> & H2). { destruct H1 as [-> _]. done. }
    exists n2. split; [done|]. exact (rehashed_trans _ _ _ _ _ _ H1 H2).
Qed.

(** From an empty table: chain [h] holds the nodes that hash to [h], in order. *)
Lemma rehash_empty r old :
  6 <= hashsize r <= 11 ->
  ∃ new, rehash_table r (replicate (Z.to_nat (2 ^ hashsize r)) []) old = Ok new ∧
    Z.of_nat (length new) = 2 ^ hashsize r ∧ concat new ≡ₚ concat old ∧
    ∀ h chain, new !! h = Some chain ->
      chain = filter (fun res => Hash r (r_id res) = Z.of_nat h) (concat old).
Proof.
  intros Hh. assert (0 < 2 ^ hashsize r) by (apply Z.pow_pos_nonneg; lia).
  destruct (rehash_table_ok r (replicate (Z.to_nat (2 ^ hashsize r)) []) old Hh) as (new & -> & Hl & Hc & Hp).
  { rewrite length_replicate. lia. }
  rewrite length_replicate in Hl. exists new. split_and!; [done|lia| |].
  - rewrite Hp. by rewrite concat_replicate_nil.
  - intros h chain Hch. pose proof (lookup_lt_Some _ _ _ Hch) as Hlt.
    rewrite (Hc h []) in Hch by (apply lookup_replicate; split; [done|lia]). by injection Hch as <-.
Qed.

(** Hashing again does not change the contents. *)
Lemma rehash_live c r new a h :
  live_ok c r -> h = hashsize r + 1 -> h <= 11 ->
  rehash_table (mkCRR a [] (elements r) (2 * buckets r) h (fakeID r) (endFakeID r) (expectID r))
    (replicate (Z.to_nat (2 * buckets r)) []) (resources r) = Ok new ->
  let r' := mkCRR a new (elements r) (2 * buckets r) h (fakeID r) (endFakeID r) (expectID r) in
  live_ok c r' ∧ nodes r' ≡ₚ nodes r ∧
  ∀ id, filter (fun res => r_id res = id) (nodes r') = filter (fun res => r_id res = id) (nodes r).
Proof.
  intros Hr -> Hh Hnew r'. destruct Hr as [Hs Hb Hlen Hp Ha Hc He].
  set (r0 := mkCRR a [] _ _ _ _ _ _) in Hnew.
  assert (Hpow : 2 * buckets r = 2 ^ hashsize r0).
  { simpl. rewrite Z.pow_add_r, Hb by lia. lia. }
  rewrite Hpow in Hnew at 1.
  destruct (rehash_empty r0 (resources r)) as (new' & E & Hl & Hperm & Hch). { simpl. lia. }
  rewrite Hnew in E. injection E as <-.
  assert (Hnodes : nodes r' ≡ₚ nodes r) by exact Hperm.
  assert (Hplace : ∀ i chain res, new !! i = Some chain -> res ∈ chain ->
    CLIENT_ID (r_id res) = c ∧ Hash r' (r_id res) = Z.of_nat i ∧ 0 <= r_id res < 2 ^ 32).
  { intros i chain res Hi Hin. rewrite (Hch _ _ Hi) in Hin.
    apply list_elem_of_filter in Hin as [Hh' Hin].
    apply elem_of_concat in Hin as (j & l & Hj & Hin). destruct (Hp _ _ _ Hj Hin) as (? & _ & ?).
    done. }
  assert (Hlive : live_ok c r').
  { split; simpl; try done; try lia.
    - by rewrite Hnodes.
    - by rewrite Hnodes.
    - intros res. rewrite Hnodes. apply He. }
  split_and!; [done|done|]. intros id.
  destruct (live_bucket c r' id Hlive) as (chain & _ & Hl' & _).
  rewrite (live_filter c r' id chain Hlive Hl'). rewrite (Hch _ _ Hl').
  rewrite list_filter_filter. apply list_filter_iff. intros res.
  split; [tauto|]. intros <-. split; [done|]. change (Hash r0 (r_id res)) with (Hash r' (r_id res)).
  pose proof (Hash_range r' (r_id res) (lo_size _ _ Hlive)). lia.
Qed.

(** ** Equivalent databases

    Two worlds that differ only in how the tables are laid out in memory. *)

Record db_equiv (s s' : World) : Prop := {
  eq_contents id : contents s' id = contents s id;
  eq_in_use id : in_use s' id <-> in_use s id;
  eq_elements c : 0 <= c < 256 -> elements (rrec s' c) = elements (rrec s c);
  eq_expect c : 0 <= c < 256 -> expectID (rrec s' c) = expectID (rrec s c);
  eq_fake c : 0 <= c < 256 -> fakeID (rrec s' c) = fakeID (rrec s c);
  eq_endFake c : 0 <= c < 256 -> endFakeID (rrec s' c) = endFakeID (rrec s c);
  eq_registry : registry s' = registry s;
  eq_clients : clients s' = clients s
}.

#[export] Instance World_equiv : Equiv World := db_equiv.

#[export] Instance db_equiv_equivalence : Equivalence (≡@{World}).
Proof.
  split.
  - intros s. by split.
  - intros s s' []. split; intros; symmetry; auto.
  - intros s1 s2 s3 H1 H2. split; intros.
    + by rewrite (eq_contents _ _ H2), (eq_contents _ _ H1).
    + by rewrite (eq_in_use _ _ H2), (eq_in_use _ _ H1).
    + by rewrite (eq_elements _ _ H2), (eq_elements _ _ H1).
    + by rewrite (eq_expect _ _ H2), (eq_expect _ _ H1).
    + by rewrite (eq_fake _ _ H2), (eq_fake _ _ H1).
    + by rewrite (eq_endFake _ _ H2), (eq_endFake _ _ H1).
    + by rewrite (eq_registry _ _ H2), (eq_registry _ _ H1).
    + by rewrite (eq_clients _ _ H2), (eq_clients _ _ H1).
Qed.

#[export] Instance contents_proper : Proper ((≡) ==> eq ==> eq) contents.
Proof. intros s s' H id ? <-. symmetry. apply (eq_contents _ _ H). Qed.

#[export] Instance in_use_proper : Proper ((≡) ==> eq ==> iff) in_use.
Proof. intros s s' H id ? <-. symmetry. apply (eq_in_use _ _ H). Qed.

(** Fields other than the tables, the registry and the clients are free. *)
Lemma db_equiv_frame s s' :
  clientTable s' = clientTable s -> registry s' = registry s -> clients s' = clients s -> s ≡ s'.
Proof.
  intros Ht Hg Hc. assert (Hr : ∀ c, rrec s' c = rrec s c) by (intros; unfold rrec; by rewrite Ht).
  split; intros; try done; unfold contents, in_use; by rewrite Hr.
Qed.

(** One table is replaced by another with the same contents. *)
Lemma db_equiv_set s c r :
  world_ok s -> 0 <= c < 256 ->
  (∀ id, filter (fun res => r_id res = id) (nodes r) = filter (fun res => r_id res = id) (nodes (rrec s c))) ->
  (buckets r = 0 <-> buckets (rrec s c) = 0) ->
  elements r = elements (rrec s c) -> expectID r = expectID (rrec s c) ->
  fakeID r = fakeID (rrec s c) -> endFakeID r = endFakeID (rrec s c) ->
  s ≡ set_rrec s c r.
Proof.
  intros Hs Hc Hn Hb He Hx Hf Hef.
  split; try done; unfold contents, in_use.
  - intros id. pose proof (CLIENT_ID_range id). rewrite rrec_set by (done || lia).
    destruct (Z.eqb_spec (CLIENT_ID id) c) as [->|]; auto.
  - intros id. pose proof (CLIENT_ID_range id). rewrite rrec_set by (done || lia).
    destruct (Z.eqb_spec (CLIENT_ID id) c) as [->|]; [by rewrite Hb|done].
  - intros c' ?. rewrite rrec_set by (done || lia). by destruct (Z.eqb_spec c' c) as [->|].
  - intros c' ?. rewrite rrec_set by (done || lia). by destruct (Z.eqb_spec c' c) as [->|].
  - intros c' ?. rewrite rrec_set by (done || lia). by destruct (Z.eqb_spec c' c) as [->|].
  - intros c' ?. rewrite rrec_set by (done || lia). by destruct (Z.eqb_spec c' c) as [->|].
Qed.

(** ** Rebuilding a table *)

Lemma xalloc_frame s o s' : xalloc s = (o, s') -> world_ok s -> world_ok s' ∧ s ≡ s'.
Proof.
  intros E Hs. apply xalloc_spec in E as (Ht & Hg & Hc & _ & _ & Ho).
  split; [|by apply db_equiv_frame].
  apply (world_ok_frame s); [done| |done]. destruct o; [destruct Ho as [_ ->]|destruct Ho as [-> _]]; lia.
Qed.

Lemma rrec_frame s s' c : clientTable s' = clientTable s -> rrec s' c = rrec s c.
Proof. intros Ht. unfold rrec. by rewrite Ht. Qed.

Lemma RebuildTable_ok s c :
  world_ok s -> 0 <= c < 256 -> live_ok c (rrec s c) -> hashsize (rrec s c) < MAXHASHSIZE ->
  ∃ s', RebuildTable s c = Ok s' ∧ world_ok s' ∧ s ≡ s'.
Proof.
  intros Hs Hc Hr Hsize. unfold RebuildTable.
  destruct (xalloc s) as [[tails|] s1] eqn:E1;
    destruct (xalloc_frame _ _ _ E1 Hs) as [Hs1 He1]; [|by eauto].
  destruct (xalloc s1) as [[a|] s2] eqn:E2;
    destruct (xalloc_frame _ _ _ E2 Hs1) as [Hs2 He2].
  2: { eexists. split; [done|]. split; [by apply (world_ok_frame s2)|].
       etrans; [exact He1|]. etrans; [exact He2|]. by apply db_equiv_frame. }
  pose proof (rrec_frame s s1 c (proj1 (xalloc_spec _ _ _ E1))) as R1.
  pose proof (rrec_frame s1 s2 c (proj1 (xalloc_spec _ _ _ E2))) as R2.
  rewrite R1 in R2. unfold MAXHASHSIZE in Hsize.
  pose proof (lo_size _ _ Hr) as Hsz. pose proof (lo_buckets _ _ Hr) as Hb.
  assert (Hp : 0 < 2 ^ hashsize (rrec s c)) by (apply Z.pow_pos_nonneg; lia).
  destruct (rehash_empty (mkCRR a [] (elements (rrec s c)) (2 * buckets (rrec s c)) (hashsize (rrec s c) + 1)
    (fakeID (rrec s c)) (endFakeID (rrec s c)) (expectID (rrec s c))) (resources (rrec s c)))
    as (new & Enew & _). { simpl. lia. }
  assert (Hpow : 2 ^ (hashsize (rrec s c) + 1) = 2 * buckets (rrec s c))
    by (rewrite Z.pow_add_r, Hb by lia; lia).
  cbn [hashsize] in Enew. rewrite Hpow in Enew. rewrite Enew. simpl.
  destruct (rehash_live c _ new a _ Hr eq_refl ltac:(lia) Enew) as (Hlive & Hperm & Hcont).
  eexists. split; [done|].
  set (r' := mkCRR a new _ _ _ _ _ _) in *.
  assert (Hset : world_ok (set_rrec s2 c r')).
  { apply world_ok_set; [done|done|by right|]. intros res. rewrite Hperm, <- R2. by apply Hs2. }
  split; [by apply (world_ok_frame (set_rrec s2 c r'))|].
  etrans; [exact He1|]. etrans; [exact He2|].
  etrans; [|by apply (db_equiv_frame (set_rrec s2 c r'))].
  apply db_equiv_set; rewrite ?R2; try done. simpl. lia.
Qed.

(** ** Insertion *)

Lemma add_head_live c r a id type value :
  live_ok c r -> CLIENT_ID id = c -> 0 <= id < 2 ^ 32 ->
  (∀ res, res ∈ nodes r -> (r_addr res < a)%nat) ->
  let res := mkRes a id type value in
  let r' := add_head r (Hash r id) res in
  live_ok c r' ∧ nodes r' ≡ₚ res :: nodes r ∧
  ∀ id', filter (fun res => r_id res = id') (nodes r') =
    (if decide (id' = id) then [res] else []) ++ filter (fun res => r_id res = id') (nodes r).
Proof.
  intros Hr Hid Hrange Hfresh res r'.
  destruct (live_bucket c r id Hr) as (chain & Hh & Hl & _).
  assert (Hres : resources r' = <[Z.to_nat (Hash r id) := res :: chain]> (resources r)).
  { simpl. apply list_eq. intros j. destruct (decide (j = Z.to_nat (Hash r id))) as [->|].
    - rewrite list_lookup_alter_eq, Hl. rewrite list_lookup_insert_eq by (by eapply lookup_lt_Some). done.
    - rewrite list_lookup_alter_ne, list_lookup_insert_ne by done. done. }
  assert (Hperm : nodes r' ≡ₚ res :: nodes r).
  { unfold nodes. rewrite Hres, (concat_insert _ _ _ _ Hl), (concat_split _ _ _ Hl).
    simpl. by rewrite <- Permutation_middle. }
  assert (Hlive : live_ok c r').
  { destruct Hr as [Hs Hb Hlen Hp Ha Hc He]. split; simpl; try done.
    - by rewrite length_alter.
    - intros i ch x Hi Hin. change (alter _ _ _) with (resources r') in Hi. rewrite Hres in Hi.
      apply list_lookup_insert_Some in Hi as [(<- & <- & _)|[_ Hi]].
      + apply elem_of_cons in Hin as [->|Hin]; [done|]. by apply (Hp _ _ _ Hl).
      + by apply (Hp _ _ _ Hi).
    - rewrite Hperm. simpl. constructor; [|done].
      intros Hin. apply list_elem_of_fmap in Hin as (x & Ex & Hx). apply Hfresh in Hx. lia.
    - rewrite Hperm. simpl. lia.
    - intros x. rewrite Hperm. intros [->|Hx]%elem_of_cons Hsb.
      + simpl in *. rewrite Hsb. simpl. destruct (Z.leb_spec (expectID r) id); [|lia].
        assert (id <> 2 ^ 32 - 1) by (intros ->; by vm_compute in Hsb).
        rewrite u32_small; lia.
      + specialize (He _ Hx Hsb). destruct (Z.eqb_spec (Z.land id SERVER_BIT) 0) as [Hz|]; simpl; [|done].
        destruct (Z.leb_spec (expectID r) id); simpl; [|done].
        assert (id <> 2 ^ 32 - 1) by (intros ->; by vm_compute in Hz).
        rewrite u32_small; lia. }
  split_and!; [done|done|]. intros id'.
  unfold nodes. rewrite Hres, (concat_insert _ _ _ _ Hl), (concat_split _ _ _ Hl), !filter_app.
  case_decide as Hd.
  - subst id'. rewrite filter_cons_True by done.
    rewrite (filter_none _ (concat (take _ _))); [done|].
    intros x Hx Ex. apply elem_of_concat in Hx as (j & l & Hj & Hx).
    apply lookup_take_Some in Hj as [Hj Hlt].
    destruct (lo_place _ _ Hr _ _ _ Hj Hx) as (_ & Hxh & _). rewrite Ex in Hxh. lia.
  - rewrite filter_cons_False by (simpl; congruence). done.
Qed.

(** What [AddResource] does, in terms of the contents. *)
Definition added (s s' : World) (res : ResourceRec) : Prop :=
  world_ok s' ∧
  (∀ id, contents s' id = (if decide (id = r_id res) then [res] else []) ++ contents s id) ∧
  registry s' = registry s ∧ clients s' = clients s ∧
  elements (rrec s' (CLIENT_ID (r_id res))) = elements (rrec s (CLIENT_ID (r_id res))) + 1.

Lemma add_head_ok s id a type value :
  world_ok s -> in_use s id -> 0 <= id < 2 ^ 32 -> fresh s = S a ->
  (∀ res, res ∈ nodes (rrec s (CLIENT_ID id)) -> (r_addr res < a)%nat) ->
  let r := rrec s (CLIENT_ID id) in
  let res := mkRes a id type value in
  added s (set_rrec s (CLIENT_ID id) (add_head r (Hash r id) res)) res.
Proof.
  intros Hs Hu Hid Hf Hlt r res. pose proof (CLIENT_ID_range id) as Hc.
  pose proof (in_use_live s id Hs Hu) as Hr.
  destruct (add_head_live _ r a id type value Hr eq_refl Hid Hlt) as (Hlive & Hperm & Hcont).
  fold res in Hlive, Hperm, Hcont.
  split_and!; try done.
  - apply world_ok_set; [done|done|by right|]. intros x. rewrite Hperm.
    intros [->|Hx]%elem_of_cons; [simpl; lia|]. specialize (Hlt _ Hx). lia.
  - intros id'. unfold contents. rewrite rrec_set by (done || apply CLIENT_ID_range).
    destruct (Z.eqb_spec (CLIENT_ID id') (CLIENT_ID id)) as [E|Hne].
    + rewrite Hcont, E. done.
    + rewrite decide_False by (simpl; congruence). done.
  - change (r_id res) with id. rewrite rrec_set, Z.eqb_refl by (done || apply Hc). done.
Qed.

Lemma AddResource_unfold run s id type value :
  world_ok s -> in_use s id -> 0 <= id < 2 ^ 32 ->
  ∃ s1, world_ok s1 ∧ s ≡ s1 ∧
    ((∃ s' a, AddResource run s id type value = Ok (true, s') ∧ added s1 s' (mkRes a id type value)) ∨
     AddResource run s id type value = (s' ← call_delete run s1 type value id; Ok (false, s'))).
Proof.
  intros Hs Hu Hid. pose proof (CLIENT_ID_range id) as Hc.
  pose proof (in_use_live s id Hs Hu) as Hr.
  unfold AddResource. destruct (Z.eqb_spec (buckets (rrec s (CLIENT_ID id))) 0); [done|].
  assert (∃ s1, (if (4 * buckets (rrec s (CLIENT_ID id)) <=? elements (rrec s (CLIENT_ID id)))
      && (hashsize (rrec s (CLIENT_ID id)) <? MAXHASHSIZE)
      then RebuildTable s (CLIENT_ID id) else Ok s) = Ok s1 ∧ world_ok s1 ∧ s ≡ s1)
    as (s1 & -> & Hs1 & He1).
  { destruct (_ && _) eqn:E; [|by eauto]. zbool. by apply RebuildTable_ok. }
  simpl. assert (Hu1 : in_use s1 id) by (by rewrite <- He1).
  destruct (contents_bucket s1 id Hs1 Hu1) as (chain & -> & _). simpl.
  destruct (xalloc s1) as [o s2] eqn:E2. destruct (xalloc_frame _ _ _ E2 Hs1) as [Hs2 He2].
  exists s2. split; [done|]. split; [by etrans|].
  rewrite <- (rrec_frame s1 s2 (CLIENT_ID id) (proj1 (xalloc_spec _ _ _ E2))).
  destruct o as [a|]; [|by right]. left. do 2 eexists. split; [done|].
  destruct (xalloc_spec _ _ _ E2) as (Ht & _ & _ & _ & _ & -> & Hfr).
  apply add_head_ok; [done|by rewrite <- He2|done|done|].
  intros res. rewrite (rrec_frame s1 s2 _ Ht). by apply Hs1.
Qed.
