(* ===== verification/ResourceFree.v ===== *)
(** * ResourceFree: deletion and enumeration of resources (dix/resource.c)

    The deletion procedures and the procedures passed to the enumerations are
    arbitrary code that may call the resource functions again, so the loops are
    written with the pointers of the source: [prev], [this] and [next] are
    addresses of nodes, [head] and [resources] the identity of the array, and a
    read through one that was freed meanwhile is [Dangling]. *)

From S2P Require Import Prelude ResourceDB.

(** ** Pointers into the chains *)

(** The node at an address and the node after it. *)
Fixpoint node_in (a : nat) (chain : list ResourceRec) : option (ResourceRec * option ResourceRec) :=
  match chain with
  | [] => None
  | res :: chain => if decide (r_addr res = a) then Some (res, head chain) else node_in a chain
  end.

Fixpoint node_at (a : nat) (table : list (list ResourceRec)) : option (ResourceRec * option ResourceRec) :=
  match table with
  | [] => None
  | chain :: table => match node_in a chain with Some n => Some n | None => node_at a table end
  end.

(** [resources[i]] through a pointer to the array. *)
Definition load_head (r : ClientResourceRec) (arr : nat) (i : Z) : result (option ResourceRec) :=
  if decide (array r = arr) then chain ← bucket r i; Ok (head chain) else Err Dangling.

(** [*prev]: [None] points to the head of bucket [i], [Some a] into the node at [a]. *)
Definition load (r : ClientResourceRec) (arr : nat) (i : Z) (prev : option nat) : result (option ResourceRec) :=
  match prev with
  | None => load_head r arr i
  | Some a => n ← of_option Dangling (node_at a (resources r)); Ok n.2
  end.

(** [*prev = res->next]. *)
Fixpoint unlink_in (a : nat) (chain : list ResourceRec) : list ResourceRec :=
  match chain with
  | [] => []
  | res :: chain => if decide (r_addr res = a) then chain else res :: unlink_in a chain
  end.

Definition set_resources (r : ClientResourceRec) (table : list (list ResourceRec)) (elts : Z) : ClientResourceRec :=
  mkCRR (array r) table elts (buckets r) (hashsize r) (fakeID r) (endFakeID r) (expectID r).

Definition unlink (s : World) (cid : Z) (res : ResourceRec) (elts : Z) : World :=
  set_rrec s cid (set_resources (rrec s cid) (map (unlink_in (r_addr res)) (resources (rrec s cid))) elts).

(** [clients[cid]->lastDrawable] goes back to the root window. *)
Definition forget_drawable (s : World) (cid : Z) (id : XID) : World :=
  match clients s !! Z.to_nat cid with
  | Some (Some cl) =>
      if id =? lastDrawableID cl
      then set_clients s (<[Z.to_nat cid :=
             Some (mkClient (index cl) (clientAsMask cl) (WindowTable0 s).1 (WindowTable0 s).2 (lastGC cl) (lastGCID cl))]> (clients s))
      else s
  | _ => s
  end.

Section Delete.
Context (run : DeleteType -> pointer -> XID -> World -> result World).

(** Flush the caches, call the deletion procedure if asked to, free the node. *)
Definition dispose (s : World) (res : ResourceRec) (call : bool) : result World :=
  let s := if has (r_type res) RC_CACHED then emit s (Flush (r_id res)) else s in
  s ← (if call then call_delete run s (r_type res) (r_value res) (r_id res) else Ok s);
  Ok (emit s (Free (r_addr res))).

(** ** FreeResource *)

Fixpoint free_loop (fuel : nat) (s : World) (cid : Z) (arr : nat) (i : Z) (id : XID) (skip : RESTYPE)
    (prev : option nat) (gotOne : bool) : result (bool * World) :=
  match fuel with
  | O => Err OutOfFuel
  | S fuel =>
      res ← load (rrec s cid) arr i prev;
      match res with
      | None => Ok (gotOne, s)
      | Some res =>
          if r_id res =? id then
            let s := unlink s cid res (elements (rrec s cid) - 1) in
            let elts := elements (rrec s cid) in
            s ← dispose s res (negb (r_type res =? skip));
            free_loop fuel s cid arr i id skip (if elements (rrec s cid) =? elts then prev else None) true
          else free_loop fuel s cid arr i id skip (Some (r_addr res)) gotOne
      end
  end.

(** Rounds enough for [n] nodes, whatever the deletion procedures remove. *)
Definition rounds (n : nat) : nat := n * (n + 1) + n + 1.

Definition table_size (s : World) (cid : Z) : nat := length (concat (resources (rrec s cid))).

Definition FreeResource (s : World) (id : XID) (skipDeleteFuncType : RESTYPE) : result World :=
  let cid := CLIENT_ID id in
  if (cid <? MAXCLIENTS) && negb (buckets (rrec s cid) =? 0) then
    '(gotOne, s) ← free_loop (rounds (table_size s cid)) s cid (array (rrec s cid)) (Hash (rrec s cid) id) id
                     skipDeleteFuncType None false;
    let s := forget_drawable s cid id in
    Ok (if gotOne : bool then s else emit s (ErrorF id))
  else Ok (emit s (ErrorF id)).

(** ** FreeResourceByType and ChangeResourceValue *)

Definition FreeResourceByType (s : World) (id : XID) (type : RESTYPE) (skipFree : bool) : result World :=
  let cid := CLIENT_ID id in
  if (cid <? MAXCLIENTS) && negb (buckets (rrec s cid) =? 0) then
    res ← lookup_first s id (fun res => r_type res =? type);
    s ← match res with
        | Some res => dispose (unlink s cid res (elements (rrec s cid))) res (negb skipFree)
        | None => Ok s
        end;
    Ok (forget_drawable s cid id)
  else Ok s.

Fixpoint set_value_in (a : nat) (value : pointer) (chain : list ResourceRec) : list ResourceRec :=
  match chain with
  | [] => []
  | res :: chain =>
      if decide (r_addr res = a) then mkRes a (r_id res) (r_type res) value :: chain
      else res :: set_value_in a value chain
  end.

Definition ChangeResourceValue (s : World) (id : XID) (rtype : RESTYPE) (value : pointer)
    : result (bool * World) :=
  let cid := CLIENT_ID id in
  res ← lookup_first s id (fun res => r_type res =? rtype);
  match res with
  | Some res =>
      let s := if has rtype RC_CACHED then emit s (Flush (r_id res)) else s in
      let r := rrec s cid in
      Ok (true, set_rrec s cid (set_resources r (map (set_value_in (r_addr res) value) (resources r)) (elements r)))
  | None => Ok (false, s)
  end.

(** ** When a client goes away *)

Fixpoint never_loop (fuel : nat) (s : World) (cid : Z) (arr : nat) (j : Z) (prev : option nat) : result World :=
  match fuel with
  | O => Err OutOfFuel
  | S fuel =>
      res ← load (rrec s cid) arr j prev;
      match res with
      | None => Ok s
      | Some res =>
          if has (r_type res) RC_NEVERRETAIN then
            s ← dispose (unlink s cid res (elements (rrec s cid))) res true;
            never_loop fuel s cid arr j prev
          else never_loop fuel s cid arr j (Some (r_addr res))
      end
  end.

(** [for (j = 0; j < buckets; j++)], the bound read in every round. *)
Fixpoint each_bucket (n : nat) (body : World -> Z -> result World) (s : World) (cid : Z) (j : Z) : result World :=
  match n with
  | O => Err OutOfFuel
  | S n =>
      if j <? buckets (rrec s cid) then s ← body s j; each_bucket n body s cid (j + 1) else Ok s
  end.

Definition all_buckets (s : World) (cid : Z) (body : World -> Z -> result World) : result World :=
  each_bucket (S (Z.to_nat (buckets (rrec s cid)))) body s cid 0.

Definition FreeClientNeverRetainResources (s : World) (client : option ClientRec) : result World :=
  match client with
  | None => Ok s
  | Some client =>
      let cid := index client in
      let arr := array (rrec s cid) in
      all_buckets s cid (fun s j => never_loop (rounds (table_size s cid)) s cid arr j None)
  end.

(** [for (this = *head; this; this = *head)]. *)
Fixpoint drain_loop (fuel : nat) (s : World) (cid : Z) (arr : nat) (j : Z) : result World :=
  match fuel with
  | O => Err OutOfFuel
  | S fuel =>
      this ← load_head (rrec s cid) arr j;
      match this with
      | None => Ok s
      | Some this =>
          s ← dispose (unlink s cid this (elements (rrec s cid))) this true;
          drain_loop fuel s cid arr j
      end
  end.

(** [HandleSaveSet] of dix/dixutils.c. *)
Context (HandleSaveSet : Z -> World -> result World).

Definition FreeClientResources (s : World) (client : option ClientRec) : result World :=
  match client with
  | None => Ok s
  | Some client =>
      let cid := index client in
      s ← HandleSaveSet cid s;
      let arr := array (rrec s cid) in
      s ← all_buckets s cid (fun s j => drain_loop (S (table_size s cid)) s cid arr j);
      let r := rrec s cid in
      Ok (emit (set_rrec s cid (mkCRR 0 [] (elements r) 0 (hashsize r) (fakeID r) (endFakeID r) (expectID r)))
            (FreeArray (array r)))
  end.

(** [for (i = currentMaxClients; --i >= 0; )]. *)
Fixpoint FreeAllResources (s : World) (currentMaxClients : nat) : result World :=
  match currentMaxClients with
  | O => Ok s
  | S i =>
      s ← (if negb (buckets (rrec s (Z.of_nat i)) =? 0)
           then FreeClientResources s (mjoin (clients s !! i)) else Ok s);
      FreeAllResources s i
  end.

End Delete.

(** ** Enumeration *)

Section Find.
(** The procedure called for each resource that is wanted. *)
Context (func : ResourceRec -> World -> result World) (want : ResourceRec -> bool).

Definition addr_of (res : option ResourceRec) : option nat := r_addr <$> res.

Fixpoint find_loop (fuel : nat) (s : World) (cid : Z) (arr : nat) (i : Z) (this : option nat) : result World :=
  match fuel with
  | O => Err OutOfFuel
  | S fuel =>
      match this with
      | None => Ok s
      | Some a =>
          n ← of_option Dangling (node_at a (resources (rrec s cid)));
          let '(res, next) := n in
          let next := addr_of next in
          if want res then
            let elts := elements (rrec s cid) in
            s ← func res (emit s (Found (r_value res) (r_id res)));
            next ← (if elements (rrec s cid) =? elts then Ok next
                    else n ← load_head (rrec s cid) arr i; Ok (addr_of n));
            find_loop fuel s cid arr i next
          else find_loop fuel s cid arr i next
      end
  end.

Definition find_all (s : World) (cid : Z) : result World :=
  let arr := array (rrec s cid) in
  all_buckets s cid (fun s i =>
    this ← load_head (rrec s cid) arr i;
    find_loop (rounds (table_size s cid)) s cid arr i (addr_of this)).

End Find.

(** A NULL client stands for the server client, whose index is 0. *)
Definition client_index (client : option ClientRec) : Z := from_option index 0 client.

Definition FindClientResourcesByType (s : World) (client : option ClientRec) (type : RESTYPE)
    (func : pointer -> XID -> World -> result World) : result World :=
  find_all (fun res => func (r_value res) (r_id res)) (fun res => (type =? 0) || (r_type res =? type))
    s (client_index client).

Definition FindAllClientResources (s : World) (client : option ClientRec)
    (func : pointer -> XID -> RESTYPE -> World -> result World) : result World :=
  find_all (fun res => func (r_value res) (r_id res) (r_type res)) (fun _ => true) s (client_index client).

(** The first value that [func] accepts; nothing guards [this] against [func]. *)
Section Complex.
Context (func : pointer -> XID -> World -> result (bool * World)) (type : RESTYPE).

Fixpoint complex_loop (fuel : nat) (s : World) (cid : Z) (this : option nat) : result (option pointer * World) :=
  match fuel with
  | O => Err OutOfFuel
  | S fuel =>
      match this with
      | None => Ok (None, s)
      | Some a =>
          n ← of_option Dangling (node_at a (resources (rrec s cid)));
          let res := n.1 in
          '(found, s) ← (if (type =? 0) || (r_type res =? type) then func (r_value res) (r_id res) s else Ok (false, s));
          n ← of_option Dangling (node_at a (resources (rrec s cid)));
          if found : bool then Ok (Some (r_value n.1), s)
          else complex_loop fuel s cid (addr_of n.2)
      end
  end.

Fixpoint complex_buckets (n : nat) (s : World) (cid : Z) (arr : nat) (i : Z) : result (option pointer * World) :=
  match n with
  | O => Err OutOfFuel
  | S n =>
      if i <? buckets (rrec s cid) then
        this ← load_head (rrec s cid) arr i;
        '(v, s) ← complex_loop (rounds (table_size s cid)) s cid (addr_of this);
        match v with Some v => Ok (Some v, s) | None => complex_buckets n s cid arr (i + 1) end
      else Ok (None, s)
  end.

(** NULL is [None]. *)
Definition LookupClientResourceComplex (s : World) (client : option ClientRec) : result (option pointer * World) :=
  let cid := client_index client in
  complex_buckets (S (Z.to_nat (buckets (rrec s cid)))) s cid (array (rrec s cid)) 0.

End Complex.
