(* ===== verification/ResourceFreeProofs.v ===== *)
(** * ResourceFreeProofs: pointers into the chains, and what a deletion may change

    Lemmas for ResourceTheorems: reading and unlinking through node addresses, the
    order on worlds in which resources only disappear, and the contract
    [SafeDelete] between the deletion functions of the database and the deletion
    procedures of its clients. *)

From S2P Require Import Prelude ResourceDB ResourceProofs ResourceFree.

(** ** Reading and unlinking *)

Section Pointers.
Implicit Types (pre post chain : list ResourceRec) (table : list (list ResourceRec)).

Abbreviation addrs l := (r_addr <$> l).

Lemma NoDup_middle pre x post y :
  NoDup (addrs (pre ++ x :: post)) -> y ∈ pre ++ post -> r_addr y <> r_addr x.
Proof.
  rewrite fmap_app, fmap_cons. intros H%NoDup_app Hy E. destruct H as (_ & Hd & Hx%NoDup_cons).
  apply elem_of_app in Hy as [Hy|Hy].
  - apply (Hd (r_addr y)); [by apply list_elem_of_fmap_2|]. rewrite E. left.
  - apply (proj1 Hx). rewrite <- E. by apply list_elem_of_fmap_2.
Qed.

Lemma node_in_middle pre x post :
  NoDup (addrs (pre ++ x :: post)) -> node_in (r_addr x) (pre ++ x :: post) = Some (x, head post).
Proof.
  induction pre as [|y pre IH]; intros Hn; simpl.
  - by rewrite decide_True.
  - rewrite decide_False; [apply IH; by inversion Hn|].
    apply (NoDup_middle (y :: pre) x post); [done|left].
Qed.

Lemma node_in_none a chain : (∀ x, x ∈ chain -> r_addr x <> a) -> node_in a chain = None.
Proof.
  induction chain as [|x chain IH]; intros H; simpl; [done|].
  rewrite decide_False by (apply H; left). apply IH. intros y Hy. apply H. by right.
Qed.

Lemma unlink_in_middle pre x post :
  NoDup (addrs (pre ++ x :: post)) -> unlink_in (r_addr x) (pre ++ x :: post) = pre ++ post.
Proof.
  induction pre as [|y pre IH]; intros Hn; simpl.
  - by rewrite decide_True.
  - rewrite decide_False; [f_equal; apply IH; by inversion Hn|].
    apply (NoDup_middle (y :: pre) x post); [done|left].
Qed.

Lemma unlink_in_none a chain : (∀ x, x ∈ chain -> r_addr x <> a) -> unlink_in a chain = chain.
Proof.
  induction chain as [|x chain IH]; intros H; simpl; [done|].
  rewrite decide_False by (apply H; left). f_equal. apply IH. intros y Hy. apply H. by right.
Qed.

(** The chain of a node in a table with distinct addresses. *)
Lemma NoDup_chain table i chain :
  NoDup (addrs (concat table)) -> table !! i = Some chain -> NoDup (addrs chain).
Proof.
  intros Hn Hi. rewrite (concat_split _ _ _ Hi), !fmap_app in Hn.
  apply NoDup_app in Hn as (_ & _ & Hn). by apply NoDup_app in Hn as (Hn & _).
Qed.

Lemma NoDup_others table i pre x post j chain y :
  NoDup (addrs (concat table)) -> table !! i = Some (pre ++ x :: post) ->
  table !! j = Some chain -> j <> i -> y ∈ chain -> r_addr y <> r_addr x.
Proof.
  intros Hn Hi Hj Hne Hy. rewrite (concat_split _ _ _ Hi) in Hn.
  rewrite <- (assoc_L (++) pre), (assoc_L (++)) in Hn. apply (NoDup_middle _ _ _ _ Hn).
  assert (y ∈ concat (take i table) ∨ y ∈ concat (drop (S i) table)) as Hin; [|rewrite !elem_of_app; tauto].
  destruct (decide (j < i)%nat).
  - left. apply elem_of_concat. exists j, chain. split; [|done]. by rewrite lookup_take_lt by done.
  - right. apply elem_of_concat. exists (j - S i)%nat, chain. split; [|done].
    rewrite lookup_drop. rewrite <- Hj. f_equal. lia.
Qed.

Lemma node_at_middle table i pre x post :
  NoDup (addrs (concat table)) -> table !! i = Some (pre ++ x :: post) ->
  node_at (r_addr x) table = Some (x, head post).
Proof.
  revert i. induction table as [|chain table IH]; intros i Hn Hi; [done|]. simpl.
  destruct i as [|i].
  - injection Hi as ->. rewrite node_in_middle; [done|].
    by apply (NoDup_chain ((pre ++ x :: post) :: table) 0).
  - rewrite node_in_none; [apply (IH i); [|done]|].
    + simpl in Hn. rewrite fmap_app in Hn. by apply NoDup_app in Hn as (_ & _ & ?).
    + intros y Hy. by apply (NoDup_others _ _ _ _ _ 0%nat chain y Hn Hi).
Qed.

Lemma unlink_table table i pre x post :
  NoDup (addrs (concat table)) -> table !! i = Some (pre ++ x :: post) ->
  map (unlink_in (r_addr x)) table = <[i := pre ++ post]> table.
Proof.
  intros Hn Hi. apply list_eq. intros j. rewrite list_lookup_fmap.
  destruct (decide (j = i)) as [->|Hne].
  - rewrite list_lookup_insert_eq by (by eapply lookup_lt_Some). rewrite Hi. simpl.
    rewrite unlink_in_middle; [done|]. by apply (NoDup_chain table i).
  - rewrite list_lookup_insert_ne by done. destruct (table !! j) as [chain|] eqn:Ej; [|done].
    simpl. rewrite unlink_in_none; [done|]. intros y Hy.
    by apply (NoDup_others _ _ _ _ _ _ _ _ Hn Hi Ej).
Qed.

End Pointers.

(** [*prev] when [prev] is at the end of the part of the chain already seen. *)
Lemma load_ok c r i pre post :
  live_ok c r -> resources r !! i = Some (pre ++ post) ->
  load r (array r) (Z.of_nat i) (r_addr <$> last pre) = Ok (head post).
Proof.
  intros Hr Hi. destruct pre as [|x pre _] using rev_ind.
  - simpl. unfold load_head. rewrite decide_True by done. unfold bucket.
    destruct (Z.ltb_spec (Z.of_nat i) 0); [lia|]. rewrite Nat2Z.id, Hi. done.
  - rewrite last_snoc. simpl. rewrite <- (assoc_L (++)) in Hi. simpl in Hi.
    rewrite (node_at_middle _ i pre x post) by (apply Hr || done). done.
Qed.

(** ** Resources only disappear *)

(** The memory is the same, and chains only lose nodes. *)
Record sub_rec (r r' : ClientResourceRec) : Prop := {
  sub_array : array r' = array r;
  sub_buckets : buckets r' = buckets r;
  sub_hashsize : hashsize r' = hashsize r;
  sub_expect : expectID r' = expectID r;
  sub_nodes : Forall2 sublist (resources r') (resources r)
}.

(** Moreover [elements] counts the nodes that are gone. *)
Definition counted (r r' : ClientResourceRec) : Prop :=
  elements r - elements r' = Z.of_nat (length (nodes r)) - Z.of_nat (length (nodes r')).

Record shrinks (strict : bool) (s s' : World) : Prop := {
  sh_rec c : 0 <= c < 256 -> sub_rec (rrec s c) (rrec s' c);
  sh_count c : strict = true -> 0 <= c < 256 -> counted (rrec s c) (rrec s' c);
  sh_registry : registry s' = registry s;
  sh_log : log s `prefix_of` log s'
}.

#[export] Instance sub_rec_preorder : PreOrder sub_rec.
Proof.
  split; [split; done|]. intros x y z [] []. split; try congruence. by etrans.
Qed.

#[export] Instance shrinks_preorder b : PreOrder (shrinks b).
Proof.
  split; [intros s; split; try done; intros; unfold counted; lia|].
  intros x y z [R1 C1 G1 L1] [R2 C2 G2 L2]. split.
  - intros c Hc. etrans; auto.
  - intros c Hb Hc. specialize (C1 c Hb Hc). specialize (C2 c Hb Hc). unfold counted in *. lia.
  - congruence.
  - by etrans.
Qed.

Lemma shrinks_weaken b s s' : shrinks b s s' -> shrinks false s s'.
Proof. intros []. by split. Qed.

Lemma shrinks_frame b s s' :
  clientTable s' = clientTable s -> registry s' = registry s -> log s `prefix_of` log s' -> shrinks b s s'.
Proof.
  intros Ht Hg Hl. assert (Hr : ∀ c, rrec s' c = rrec s c) by (intros; unfold rrec; by rewrite Ht).
  split; try done; intros; rewrite Hr; [done|]. unfold counted. lia.
Qed.

Lemma sublist_concat {A} (t t' : list (list A)) :
  Forall2 sublist t' t -> concat t' `sublist_of` concat t.
Proof. induction 1; simpl; [done|by apply sublist_app]. Qed.

Lemma sublist_same {A} (l l' : list A) : l' `sublist_of` l -> length l' = length l -> l' = l.
Proof.
  induction 1 as [|x l1 l2 H IH|x l1 l2 H IH]; simpl; intros Hl; [done| |].
  - f_equal. apply IH. lia.
  - apply sublist_length in H. lia.
Qed.

(** When no node is gone the chains are the same. *)
Lemma sub_same_size {A} (t t' : list (list A)) :
  Forall2 sublist t' t -> length (concat t') = length (concat t) -> t' = t.
Proof.
  induction 1 as [|l' l t' t Hl Ht IH]; [done|]. simpl. rewrite !length_app. intros Hlen.
  pose proof (sublist_length _ _ Hl). pose proof (sublist_length _ _ (sublist_concat _ _ Ht)).
  f_equal; [apply sublist_same; [done|lia]|apply IH; lia].
Qed.

Lemma sub_size r r' : sub_rec r r' -> (length (nodes r') <= length (nodes r))%nat.
Proof. intros [_ _ _ _ H]. by apply sublist_length, sublist_concat. Qed.

Lemma sub_elem r r' x : sub_rec r r' -> x ∈ nodes r' -> x ∈ nodes r.
Proof. intros [_ _ _ _ H] Hx. by eapply elem_of_sublist, sublist_concat. Qed.

Lemma sub_filter {A} (P : A -> Prop) `{!∀ x, Decision (P x)} (l l' : list A) :
  l' `sublist_of` l -> filter P l' `sublist_of` filter P l.
Proof.
  induction 1 as [|x l1 l2 Hs IH|x l1 l2 Hs IH]; [done| |].
  - rewrite !filter_cons. destruct (decide (P x)); [by apply sublist_skip|done].
  - rewrite (filter_cons _ x). destruct (decide (P x)); [by apply sublist_cons|done].
Qed.

Lemma shrinks_contents b s s' id : shrinks b s s' -> contents s' id `sublist_of` contents s id.
Proof.
  intros H. apply sub_filter, sublist_concat, (sh_rec _ _ _ H). apply CLIENT_ID_range.
Qed.

(** Every node's type has a deletion procedure. *)
Definition type_ok (g : TypeRegistry) (rtype : RESTYPE) : Prop :=
  (Z.to_nat (Z.land rtype (TypeMask g)) < length (DeleteFuncs g))%nat.

Definition typed (s : World) : Prop :=
  ∀ c res, 0 <= c < 256 -> res ∈ nodes (rrec s c) -> type_ok (registry s) (r_type res).

Lemma typed_shrinks b s s' : shrinks b s s' -> typed s -> typed s'.
Proof.
  intros H Ht c res Hc Hres. rewrite (sh_registry _ _ _ H). apply (Ht c); [done|].
  by apply (sub_elem _ _ _ (sh_rec _ _ _ H c Hc)).
Qed.

(** A table that lost nodes is still well formed. *)
Lemma live_sub c r r' :
  live_ok c r -> sub_rec r r' -> Z.of_nat (length (nodes r')) <= elements r' -> live_ok c r'.
Proof.
  intros Hr [Ea Eb Eh Ex Hn] Hcount.
  pose proof (sublist_concat _ _ Hn) as Hc.
  split; rewrite ?Eh, ?Eb, ?Ex; try apply Hr; try done.
  - rewrite (Forall2_length _ _ _ Hn). apply Hr.
  - intros i chain res Hi Hin.
    destruct (Forall2_lookup_l _ _ _ _ _ Hn Hi) as (chain0 & Hi0 & Hsl).
    assert (Hash r' (r_id res) = Hash r (r_id res)) as -> by (unfold Hash; by rewrite Eh).
    apply (lo_place _ _ Hr _ _ _ Hi0). by eapply elem_of_sublist.
  - eapply sublist_NoDup; [apply (lo_addr _ _ Hr)|]. by apply fmap_sublist.
  - intros res Hres. apply (lo_expect _ _ Hr). by eapply elem_of_sublist.
Qed.

Lemma concat_middle_length {A} (table : list (list A)) i pre x post :
  table !! i = Some (pre ++ x :: post) ->
  S (length (concat (<[i := pre ++ post]> table))) = length (concat table).
Proof.
  intros Hi. rewrite (concat_insert _ _ _ _ Hi), (concat_split _ _ _ Hi), !length_app. simpl. lia.
Qed.

Lemma sub_rec_unlink r i pre x post elts :
  resources r !! i = Some (pre ++ x :: post) ->
  sub_rec r (set_resources r (<[i := pre ++ post]> (resources r)) elts).
Proof.
  intros Hi. split; try done. simpl.
  rewrite <- (list_insert_id (resources r) i (pre ++ x :: post)) at 2 by done.
  apply Forall2_insert; [by apply Forall_Forall2_diag, Forall_true|].
  apply sublist_app; [done|]. by apply sublist_cons.
Qed.

(** Removing the node after [prev]. *)
Lemma unlink_ok b s cid i pre x post elts :
  world_ok s -> 0 <= cid < 256 -> live_ok cid (rrec s cid) ->
  resources (rrec s cid) !! i = Some (pre ++ x :: post) ->
  Z.of_nat (length (nodes (rrec s cid))) - 1 <= elts ->
  (b = true -> elts = elements (rrec s cid) - 1) ->
  let s' := unlink s cid x elts in
  rrec s' cid = set_resources (rrec s cid) (<[i := pre ++ post]> (resources (rrec s cid))) elts ∧
  world_ok s' ∧ live_ok cid (rrec s' cid) ∧ shrinks b s s' ∧
  S (length (nodes (rrec s' cid))) = length (nodes (rrec s cid)).
Proof.
  intros Hs Hc Hr Hi Hn Hb s'.
  assert (Hr' : rrec s' cid = set_resources (rrec s cid) (<[i := pre ++ post]> (resources (rrec s cid))) elts).
  { unfold s', unlink. rewrite rrec_set by (done || lia). rewrite Z.eqb_refl.
    by rewrite (unlink_table _ i pre x post) by (apply Hr || done). }
  pose proof (sub_rec_unlink _ i pre x post elts Hi) as Hsub. rewrite <- Hr' in Hsub.
  assert (Hlen : S (length (nodes (rrec s' cid))) = length (nodes (rrec s cid))).
  { rewrite Hr'. by apply concat_middle_length with (x := x). }
  assert (Hlive : live_ok cid (rrec s' cid)).
  { apply (live_sub _ _ _ Hr Hsub). rewrite Hr' at 2. simpl. lia. }
  assert (Hother : ∀ c, 0 <= c < 256 -> c <> cid -> rrec s' c = rrec s c).
  { intros c Hc' Hne. unfold s', unlink. rewrite rrec_set by (done || lia).
    by destruct (Z.eqb_spec c cid). }
  split_and!; [done| |done| |done].
  - rewrite Hr' in Hlive, Hsub. unfold s', unlink. rewrite (unlink_table _ i pre x post) by (apply Hr || done).
    apply world_ok_set; [done|done|by right|].
    intros res Hres. apply (wo_fresh s Hs cid); [done|]. by apply (sub_elem _ _ _ Hsub).
  - split; [| |done|done]; intros c.
    + intros Hc'. destruct (decide (c = cid)) as [->|Hne]; [done|by rewrite Hother].
    + intros -> Hc'. unfold counted. destruct (decide (c = cid)) as [->|Hne]; [|rewrite Hother by done; lia].
      rewrite Hr' at 1. simpl. specialize (Hb eq_refl). lia.
Qed.

(** ** The contract of deletion procedures

    A deletion procedure may look resources up and free other resources with
    [FreeResource], but not add any, nor remove them behind the counter. *)

Class SafeDelete (run : DeleteType -> pointer -> XID -> World -> result World) : Prop :=
  safe_delete f value id s : world_ok s -> typed s ->
    ∃ s', run f value id s = Ok s' ∧ world_ok s' ∧ shrinks true s s'.

(** One that does not touch the database at all. *)
Class LeafDelete (run : DeleteType -> pointer -> XID -> World -> result World) : Prop :=
  leaf_delete f value id s : ∃ s', run f value id s = Ok s' ∧
    clientTable s' = clientTable s ∧ registry s' = registry s ∧ clients s' = clients s ∧
    log s' = log s ∧ (fresh s <= fresh s')%nat ∧ WindowTable0 s' = WindowTable0 s.

#[export] Instance leaf_safe run `{!LeafDelete run} : SafeDelete run.
Proof.
  intros f value id s Hs _. destruct (leaf_delete f value id s) as (s' & E & Ht & Hg & _ & Hl & Hf & _).
  exists s'. split_and!; [done|by apply (world_ok_frame s)|]. apply shrinks_frame; [done..|by rewrite Hl].
Qed.

Lemma shrinks_emit b s e : shrinks b s (emit s e).
Proof. apply shrinks_frame; [done..|]. simpl. by apply prefix_app_r. Qed.

Lemma world_ok_emit s e : world_ok s -> world_ok (emit s e).
Proof. by apply world_ok_frame. Qed.

Lemma typed_frame s s' : clientTable s' = clientTable s -> registry s' = registry s -> typed s -> typed s'.
Proof. intros Ht Hg H c res. rewrite Hg. unfold rrec. rewrite Ht. apply H. Qed.

Section Contract.
Context (run : DeleteType -> pointer -> XID -> World -> result World) `{!SafeDelete run}.

Lemma call_delete_safe s rtype value id :
  world_ok s -> typed s -> type_ok (registry s) rtype ->
  ∃ s', call_delete run s rtype value id = Ok s' ∧ world_ok s' ∧ shrinks true s s'.
Proof.
  intros Hs Ht Hty. unfold call_delete.
  destruct (lookup_lt_is_Some_2 _ _ Hty) as [f ->]. simpl.
  destruct (safe_delete f value id (emit s (Delete f value id))) as (s' & -> & Hs' & Hsh).
  - by apply world_ok_emit.
  - by apply (typed_frame s).
  - exists s'. split_and!; [done|done|]. etrans; [apply shrinks_emit|done].
Qed.

Lemma dispose_safe s res call :
  world_ok s -> typed s -> type_ok (registry s) (r_type res) ->
  ∃ s', dispose run s res call = Ok s' ∧ world_ok s' ∧ shrinks true s s'.
Proof.
  intros Hs Ht Hty. unfold dispose.
  set (s1 := if has (r_type res) RC_CACHED then _ else s).
  assert (world_ok s1 ∧ typed s1 ∧ type_ok (registry s1) (r_type res) ∧ shrinks true s s1) as (Hs1 & Ht1 & Hty1 & Hsh).
  { unfold s1. destruct (has _ _); [|done]. split_and!; [by apply world_ok_emit|by apply (typed_frame s)|done|].
    apply shrinks_emit. }
  clearbody s1. destruct call.
  - destruct (call_delete_safe s1 (r_type res) (r_value res) (r_id res)) as (s2 & -> & Hs2 & Hsh2); [done..|].
    eexists. split; [done|]. split; [by apply world_ok_emit|]. etrans; [done|]. etrans; [done|]. apply shrinks_emit.
  - eexists. split; [done|]. split; [by apply world_ok_emit|]. etrans; [done|]. apply shrinks_emit.
Qed.

(** ** FreeResource, whatever its deletion procedures free *)

Lemma rounds_step t t' k : (t' < t)%nat -> (k <= t')%nat -> (t' * (t' + 1) + k + 1 <= t * (t + 1))%nat.
Proof. nia. Qed.

Lemma chain_size r i (chain : list ResourceRec) :
  resources r !! i = Some chain -> (length chain <= length (nodes r))%nat.
Proof. intros Hi. unfold nodes. rewrite (concat_split _ _ _ Hi), !length_app. lia. Qed.

Lemma live_shrinks s s' c b :
  world_ok s' -> 0 <= c < 256 -> live_ok c (rrec s c) -> shrinks b s s' -> live_ok c (rrec s' c).
Proof.
  intros Hs' Hc Hr H. destruct (wo_table s' Hs' c Hc) as [[Hb _]|]; [|done].
  rewrite (sub_buckets _ _ (sh_rec _ _ _ H c Hc)) in Hb.
  pose proof (lo_buckets _ _ Hr). pose proof (lo_size _ _ Hr).
  assert (0 < 2 ^ hashsize (rrec s c)) by (apply Z.pow_pos_nonneg; lia). lia.
Qed.

(** After a deletion procedure returned: [prev] still stands where it stood if the counter
    is unchanged, and otherwise the scan restarts at the head. *)
Lemma resume_prev r r' i pre post id :
  sub_rec r r' -> counted r r' -> (∀ y, y ∈ pre -> r_id y <> id) -> resources r !! i = Some (pre ++ post) ->
  ∃ pre' post', resources r' !! i = Some (pre' ++ post') ∧ (∀ y, y ∈ pre' -> r_id y <> id) ∧
    (if elements r' =? elements r then r_addr <$> last pre else None) = r_addr <$> last pre'.
Proof.
  intros Hsub Hcnt Hpre Hi. destruct (Z.eqb_spec (elements r') (elements r)) as [Ee|_].
  - exists pre, post. split_and!; [|done|done].
    rewrite (sub_same_size _ _ (sub_nodes _ _ Hsub)) by (unfold counted, nodes in Hcnt; lia). done.
  - destruct (lookup_lt_is_Some_2 (resources r') i) as [chain Hch].
    { rewrite (Forall2_length _ _ _ (sub_nodes _ _ Hsub)). by eapply lookup_lt_Some. }
    exists [], chain. split_and!; [done| |done]. by intros y ?%elem_of_nil.
Qed.

Lemma free_loop_safe fuel s cid arr i id skip pre post got :
  world_ok s -> typed s -> 0 <= cid < 256 -> live_ok cid (rrec s cid) ->
  array (rrec s cid) = arr -> resources (rrec s cid) !! i = Some (pre ++ post) ->
  (∀ x, x ∈ pre -> r_id x <> id) ->
  let t := length (nodes (rrec s cid)) in
  (t * (t + 1) + length post + 1 <= fuel)%nat ->
  ∃ s' chain, free_loop run fuel s cid arr (Z.of_nat i) id skip (r_addr <$> last pre) got
      = Ok (got || existsb (fun x => r_id x =? id) post, s') ∧
    world_ok s' ∧ shrinks true s s' ∧
    resources (rrec s' cid) !! i = Some chain ∧ (∀ x, x ∈ chain -> r_id x <> id).
Proof.
  revert s pre post got. induction fuel as [|fuel IH]; intros s pre post got Hs Ht Hc Hr Harr Hi Hpre t Hfuel; [lia|].
  simpl. subst arr. rewrite (load_ok cid _ i pre post Hr Hi). simpl.
  destruct post as [|x post]; simpl.
  { exists s, pre. rewrite app_nil_r in Hi. split_and!; [by rewrite orb_false_r|done..]. }
  destruct (Z.eqb_spec (r_id x) id) as [Hx|Hx].
  2: { pose proof Hi as Hi'. rewrite cons_middle, (assoc_L (++)) in Hi'.
       destruct (IH s (pre ++ [x]) post got) as (s' & chain & E & H); try done.
       { intros y [Hy|Hy%list_elem_of_singleton]%elem_of_app; [by apply Hpre|by subst]. }
       { simpl in Hfuel. unfold t in *. lia. }
       rewrite last_snoc in E. simpl in E. by exists s', chain. }
  simpl. rewrite orb_true_r.
  pose proof (lo_count _ _ Hr) as Hcount.
  destruct (unlink_ok true s cid i pre x post (elements (rrec s cid) - 1)) as (Hr1 & Hs1 & Hl1 & Hsh1 & Hlen1);
    [done..|lia|done|].
  set (s1 := unlink s cid x _) in *.
  assert (Ht1 : typed s1) by (by eapply typed_shrinks).
  destruct (dispose_safe s1 x (negb (r_type x =? skip)) Hs1 Ht1) as (s2 & -> & Hs2 & Hsh2).
  { rewrite (sh_registry _ _ _ Hsh1). apply (Ht cid); [done|]. apply elem_of_concat. exists i, (pre ++ x :: post).
    split; [done|]. apply elem_of_app. right. left. }
  simpl. pose proof (sh_rec _ _ _ Hsh2 cid Hc) as Hsub. pose proof (sh_count _ _ _ Hsh2 cid eq_refl Hc) as Hcnt.
  pose proof (live_shrinks _ _ _ _ Hs2 Hc Hl1 Hsh2) as Hl2. pose proof (sub_size _ _ Hsub) as Hsize.
  assert (Ht2 : typed s2) by (by eapply typed_shrinks).
  assert (Harr2 : array (rrec s2 cid) = array (rrec s cid)) by (rewrite (sub_array _ _ Hsub), Hr1; done).
  destruct (resume_prev (rrec s1 cid) (rrec s2 cid) i pre post id) as (pre2 & post2 & Hi2 & Hpre2 & ->); [done..| |].
  { rewrite Hr1. simpl. apply list_lookup_insert_eq. by eapply lookup_lt_Some. }
  pose proof (chain_size _ _ _ Hi2) as Hsz. rewrite length_app in Hsz.
  destruct (IH s2 pre2 post2 true Hs2 Ht2 Hc Hl2 Harr2 Hi2 Hpre2) as (s' & chain & -> & Hs' & Hsh' & H').
  { pose proof (rounds_step t (length (nodes (rrec s2 cid))) (length post2)) as Hstep. simpl in Hfuel.
    unfold t in *. lia. }
  exists s', chain. split_and!; [done|done| |apply H'..]. etrans; [exact Hsh1|]. by etrans.
Qed.

End Contract.

(** ** Deletion procedures that leave the database alone *)

(** What happens to a node that goes. *)
Definition disposal (g : TypeRegistry) (call : bool) (res : ResourceRec) : list Event :=
  (if has (r_type res) RC_CACHED then [Flush (r_id res)] else []) ++
  (if call then
     match DeleteFuncs g !! Z.to_nat (Z.land (r_type res) (TypeMask g)) with
     | Some f => [Delete f (r_value res) (r_id res)]
     | None => []
     end
   else []) ++ [Free (r_addr res)].

(** Everything but the log is the same. *)
Record same_but_log (s s' : World) (evs : list Event) : Prop := {
  sl_table : clientTable s' = clientTable s;
  sl_registry : registry s' = registry s;
  sl_clients : clients s' = clients s;
  sl_root : WindowTable0 s' = WindowTable0 s;
  sl_fresh : (fresh s <= fresh s')%nat;
  sl_log : log s' = log s ++ evs
}.

Lemma same_emit s e : same_but_log s (emit s e) [e].
Proof. by split. Qed.

Lemma same_refl s : same_but_log s s [].
Proof. split; try done. by rewrite app_nil_r. Qed.

Lemma same_trans s1 s2 s3 e1 e2 :
  same_but_log s1 s2 e1 -> same_but_log s2 s3 e2 -> same_but_log s1 s3 (e1 ++ e2).
Proof. intros [] []. split; try congruence; [lia|]. rewrite (assoc_L (++)). congruence. Qed.

Section Leaf.
Context (run : DeleteType -> pointer -> XID -> World -> result World) `{!LeafDelete run}.

Lemma dispose_leaf s res call :
  type_ok (registry s) (r_type res) ->
  ∃ s', dispose run s res call = Ok s' ∧ same_but_log s s' (disposal (registry s) call res).
Proof.
  intros Hty. unfold dispose.
  set (s1 := if has (r_type res) RC_CACHED then _ else s).
  assert (same_but_log s s1 (if has (r_type res) RC_CACHED then [Flush (r_id res)] else [])) as H1.
  { unfold s1. destruct (has _ _); [apply same_emit|apply same_refl]. }
  clearbody s1. unfold disposal. destruct call.
  - unfold call_delete. rewrite (sl_registry _ _ _ H1). destruct (lookup_lt_is_Some_2 _ _ Hty) as [f ->]. simpl.
    destruct (leaf_delete f (r_value res) (r_id res) (emit s1 (Delete f (r_value res) (r_id res))))
      as (s2 & -> & Ht & Hg & Hc & Hl & Hf & Hw). simpl. eexists. split; [done|].
    apply (same_trans _ _ _ _ _ H1).
    apply (same_trans _ s2 _ [_] [_]); [|apply same_emit].
    split; try done.
  - eexists. split; [done|]. apply (same_trans _ _ _ _ _ H1). apply same_emit.
Qed.

(** The effect of removing the nodes [gone] of one table. *)
Record removed (s s' : World) (cid : Z) (table : list (list ResourceRec)) (elts : Z) (evs : list Event) : Prop := {
  rm_rrec : rrec s' cid = set_resources (rrec s cid) table elts;
  rm_other c : 0 <= c < 256 -> c <> cid -> rrec s' c = rrec s c;
  rm_registry : registry s' = registry s;
  rm_clients : clients s' = clients s;
  rm_root : WindowTable0 s' = WindowTable0 s;
  rm_log : log s' = log s ++ evs;
  rm_ok : world_ok s'
}.

Lemma set_resources_twice r t1 e1 t2 e2 : set_resources (set_resources r t1 e1) t2 e2 = set_resources r t2 e2.
Proof. done. Qed.

Lemma set_resources_id r : set_resources r (resources r) (elements r) = r.
Proof. by destruct r. Qed.

Lemma removed_trans s1 s2 s3 cid t1 e1 v1 t2 e2 v2 :
  removed s1 s2 cid t1 e1 v1 -> removed s2 s3 cid t2 e2 v2 -> removed s1 s3 cid t2 e2 (v1 ++ v2).
Proof.
  intros [R1 O1 G1 C1 W1 L1 K1] [R2 O2 G2 C2 W2 L2 K2]. split; try congruence.
  - by rewrite R2, R1.
  - intros c Hc Hne. by rewrite O2, O1.
  - rewrite L2, L1. by rewrite (assoc_L (++)).
Qed.

Lemma removed_refl s cid : world_ok s -> removed s s cid (resources (rrec s cid)) (elements (rrec s cid)) [].
Proof. intros Hs. split; try done; [by rewrite set_resources_id|by rewrite app_nil_r]. Qed.

(** One node, with or without its count. *)
Lemma unlink_dispose s cid i pre x post elts call :
  world_ok s -> 0 <= cid < 256 -> live_ok cid (rrec s cid) -> type_ok (registry s) (r_type x) ->
  resources (rrec s cid) !! i = Some (pre ++ x :: post) ->
  Z.of_nat (length (nodes (rrec s cid))) - 1 <= elts ->
  ∃ s', dispose run (unlink s cid x elts) x call = Ok s' ∧
    removed s s' cid (<[i := pre ++ post]> (resources (rrec s cid))) elts (disposal (registry s) call x) ∧
    live_ok cid (rrec s' cid).
Proof.
  intros Hs Hc Hr Hty Hi Hn.
  destruct (unlink_ok false s cid i pre x post elts Hs Hc Hr Hi Hn) as (Hr1 & Hs1 & Hl1 & _ & _); [done|].
  destruct (dispose_leaf (unlink s cid x elts) x call Hty) as (s' & -> & [Ht Hg Hcl Hw Hf Hl]).
  assert (Hrr : ∀ c, rrec s' c = rrec (unlink s cid x elts) c) by (intros; unfold rrec; by rewrite Ht).
  exists s'. split; [done|]. rewrite Hrr. split; [|done]. split; try done.
  - by rewrite Hrr.
  - intros c Hc' Hne. rewrite Hrr. unfold unlink. rewrite rrec_set by (done || lia). by destruct (Z.eqb_spec c cid).
  - by apply (world_ok_frame (unlink s cid x elts)).
Qed.

(** The loop of [FreeResource] removes the nodes of the identifier in chain order. *)
Lemma free_loop_leaf fuel s cid arr i id skip pre post got :
  world_ok s -> typed s -> 0 <= cid < 256 -> live_ok cid (rrec s cid) ->
  array (rrec s cid) = arr -> resources (rrec s cid) !! i = Some (pre ++ post) ->
  (length post < fuel)%nat ->
  ∃ s', free_loop run fuel s cid arr (Z.of_nat i) id skip (r_addr <$> last pre) got
      = Ok (got || existsb (fun x => r_id x =? id) post, s') ∧
    removed s s' cid (<[i := pre ++ filter (fun x => r_id x <> id) post]> (resources (rrec s cid)))
      (elements (rrec s cid) - Z.of_nat (length (filter (fun x => r_id x = id) post)))
      (concat (map (fun x => disposal (registry s) (negb (r_type x =? skip)) x) (filter (fun x => r_id x = id) post))).
Proof.
  revert s pre post got. induction fuel as [|fuel IH]; intros s pre post got Hs Ht Hc Hr Harr Hi Hfuel; [lia|].
  simpl. subst arr. rewrite (load_ok cid _ i pre post Hr Hi). simpl.
  destruct post as [|x post]; simpl.
  { exists s. rewrite orb_false_r. split; [done|]. rewrite filter_nil. simpl. rewrite Z.sub_0_r.
    rewrite list_insert_id by done. by apply removed_refl. }
  simpl in Hfuel. destruct (Z.eqb_spec (r_id x) id) as [Hx|Hx].
  2: { pose proof Hi as Hi'. rewrite cons_middle, (assoc_L (++)) in Hi'.
       destruct (IH s (pre ++ [x]) post got) as (s' & E & H); try done; [lia|].
       rewrite last_snoc in E. simpl in E. exists s'. split; [done|].
       rewrite filter_cons_True, filter_cons_False by done. by rewrite <- (assoc_L (++)) in H. }
  simpl. rewrite orb_true_r, filter_cons_False, filter_cons_True by (done || auto).
  pose proof (lo_count _ _ Hr) as Hcount.
  destruct (unlink_dispose s cid i pre x post (elements (rrec s cid) - 1) (negb (r_type x =? skip)))
    as (s1 & -> & Hrm & Hl1); [done..| |done|lia|].
  { apply (Ht cid); [done|]. apply elem_of_concat. exists i, (pre ++ x :: post). split; [done|].
    apply elem_of_app. right. left. }
  simpl. destruct Hrm as [R1 O1 G1 C1 W1 L1 K1] eqn:Erm; clear Erm.
  assert (rrec (unlink s cid x (elements (rrec s cid) - 1)) cid = rrec s1 cid) as ->.
  { rewrite R1. by destruct (unlink_ok true s cid i pre x post (elements (rrec s cid) - 1) Hs Hc Hr Hi ltac:(lia) ltac:(done)) as (-> & _). }
  rewrite Z.eqb_refl.
  destruct (IH s1 pre post true) as (s2 & E & Hrm2); try done.
  { intros c res Hc' Hres. rewrite G1. apply (Ht c); [done|]. destruct (decide (c = cid)) as [->|Hne].
    - rewrite R1 in Hres. by apply (sub_elem _ _ _ (sub_rec_unlink _ i pre x post _ Hi)) in Hres.
    - by rewrite O1 in Hres. }
  { by rewrite R1. }
  { rewrite R1. simpl. apply list_lookup_insert_eq. by eapply lookup_lt_Some. }
  { lia. }
  exists s2. simpl in E. split; [done|].
  rewrite R1, G1 in Hrm2. simpl in Hrm2. rewrite list_insert_insert_eq in Hrm2.
  replace (elements (rrec s cid) - Z.of_nat _) with (elements (rrec s cid) - 1 - Z.of_nat (length (filter (fun x => r_id x = id) post)))
    by (simpl; lia).
  apply (removed_trans s s1 s2 cid (<[i:=pre ++ post]> (resources (rrec s cid))) (elements (rrec s cid) - 1)); [by split|done].
Qed.

End Leaf.

(** ** The first node that passes a test *)

Lemma find_split {A} (f : A -> bool) l x :
  List.find f l = Some x ->
  ∃ pre post, l = pre ++ x :: post ∧ f x = true ∧ ∀ y, y ∈ pre -> f y = false.
Proof.
  induction l as [|y l IH]; [done|]. simpl. destruct (f y) eqn:Ey.
  - intros [= ->]. exists [], l. split_and!; [done|done|]. by intros z ?%elem_of_nil.
  - intros (pre & post & -> & Hx & Hpre)%IH. exists (y :: pre), post. split_and!; [done|done|].
    by intros z [->|Hz]%elem_of_cons; [|apply Hpre].
Qed.

Lemma find_none_iff {A} (f : A -> bool) l : List.find f l = None -> ∀ y, y ∈ l -> f y = false.
Proof. intros H y Hy. apply (List.find_none _ _ H). by apply list_elem_of_In. Qed.

Lemma lookup_first_chain s id test :
  world_ok s -> in_use s id ->
  ∃ chain, resources (rrec s (CLIENT_ID id)) !! Z.to_nat (Hash (rrec s (CLIENT_ID id)) id) = Some chain ∧
    contents s id = filter (fun x => r_id x = id) chain ∧
    lookup_first s id test = Ok (List.find (fun x => (r_id x =? id) && test x) chain).
Proof.
  intros Hs Hu. destruct (contents_bucket s id Hs Hu) as (chain & Hb & Hch & Hc).
  exists chain. split_and!; [done|done|]. rewrite lookup_first_ok, Hc by done. f_equal. symmetry.
  apply find_filter. intros x. destruct (Z.eqb_spec (r_id x) id); case_bool_decide; done.
Qed.

(** ** Changing a value in place *)

Lemma set_value_in_none a v chain : (∀ x, x ∈ chain -> r_addr x <> a) -> set_value_in a v chain = chain.
Proof.
  induction chain as [|x chain IH]; intros H; simpl; [done|].
  rewrite decide_False by (apply H; left). f_equal. apply IH. intros y Hy. apply H. by right.
Qed.

Definition with_value (x : ResourceRec) (v : pointer) : ResourceRec := mkRes (r_addr x) (r_id x) (r_type x) v.

Lemma set_value_in_middle pre x post v :
  NoDup (r_addr <$> pre ++ x :: post) ->
  set_value_in (r_addr x) v (pre ++ x :: post) = pre ++ with_value x v :: post.
Proof.
  induction pre as [|y pre IH]; intros Hn; simpl.
  - by rewrite decide_True.
  - rewrite decide_False; [f_equal; apply IH; by inversion Hn|].
    apply (NoDup_middle (y :: pre) x post); [done|left].
Qed.

Lemma set_value_table table i pre x post v :
  NoDup (r_addr <$> concat table) -> table !! i = Some (pre ++ x :: post) ->
  map (set_value_in (r_addr x) v) table = <[i := pre ++ with_value x v :: post]> table.
Proof.
  intros Hn Hi. apply list_eq. intros j. rewrite list_lookup_fmap.
  destruct (decide (j = i)) as [->|Hne].
  - rewrite list_lookup_insert_eq by (by eapply lookup_lt_Some). rewrite Hi. simpl.
    rewrite set_value_in_middle; [done|]. by apply (NoDup_chain table i).
  - rewrite list_lookup_insert_ne by done. destruct (table !! j) as [chain|] eqn:Ej; [|done].
    simpl. rewrite set_value_in_none; [done|]. intros y Hy.
    by apply (NoDup_others _ _ _ _ _ _ _ _ Hn Hi Ej).
Qed.

Lemma live_set_value c r i pre x post v :
  live_ok c r -> resources r !! i = Some (pre ++ x :: post) ->
  live_ok c (set_resources r (<[i := pre ++ with_value x v :: post]> (resources r)) (elements r)).
Proof.
  intros Hr Hi. set (t := <[i := _]> _).
  assert (Hmap : ∀ B (f : ResourceRec -> B), f (with_value x v) = f x -> f <$> concat t = f <$> nodes r).
  { intros B f Hf. unfold t, nodes. rewrite (concat_insert _ _ _ _ Hi), (concat_split _ _ _ Hi), !fmap_app.
    rewrite !fmap_cons. by rewrite Hf. }
  assert (Hin : ∀ y, y ∈ concat t -> ∃ y', y' ∈ nodes r ∧ r_id y' = r_id y).
  { intros y Hy. apply (list_elem_of_fmap_2 r_id) in Hy. rewrite (Hmap _ r_id) in Hy by done.
    apply list_elem_of_fmap in Hy as (y' & ? & ?). by exists y'. }
  split; unfold nodes; cbn [hashsize buckets elements expectID resources set_resources]; try apply Hr.
  - unfold t. rewrite length_insert. apply Hr.
  - intros j chain y Hj Hy. change (Hash (set_resources r t (elements r)) (r_id y)) with (Hash r (r_id y)).
    apply list_lookup_insert_Some in Hj as [(<- & <- & _)|[_ Hj]]; [|by apply (lo_place _ _ Hr _ _ _ Hj)].
    apply elem_of_app in Hy as [Hy|[->|Hy]%elem_of_cons].
    + apply (lo_place _ _ Hr _ _ _ Hi). apply elem_of_app. by left.
    + apply (lo_place _ _ Hr _ _ x Hi). apply elem_of_app. right. left.
    + apply (lo_place _ _ Hr _ _ _ Hi). apply elem_of_app. right. by right.
  - rewrite Hmap by done. apply Hr.
  - rewrite <- (length_fmap r_addr), Hmap, length_fmap by done. apply Hr.
  - intros y Hy Hsb. destruct (Hin y Hy) as (y' & Hy' & E). rewrite <- E. apply (lo_expect _ _ Hr); [done|by rewrite E].
Qed.
