(* ===== verification/ResourceInit.v ===== *)
(** * ResourceInit: initialisation of a client's resources, and a concrete database

    [InitClientResources] establishes the invariant; the database built here from
    it is the one the witnesses use. *)

From S2P Require Import Prelude ResourceDB ResourceProofs ResourceFree ResourceFreeProofs.

(** ** A concrete database for the witnesses *)

(** Deletion procedures that leave the database alone. *)
Definition quiet (f : DeleteType) (value : pointer) (id : XID) (s : World) : result World := Ok s.

#[export] Instance quiet_leaf : LeafDelete quiet.
Proof. intros f value id s. exists s. split_and!; (done || lia). Defined.

Definition blank : World :=
  mkWorld (replicate 256 no_client) (init_registry initial_DeleteFuncs) (replicate 256 None) (7, 32) 1 [] [].

Definition client1 : ClientRec := mkClient 1 (Z.shiftl 1 21) 0 0 0 0.
Definition demo0 : World := (InitClientResources blank client1).2.

(** Resources [(id, type, value)] added one after the other. *)
Fixpoint add_all (s : World) (l : list (XID * RESTYPE * pointer)) : World :=
  match l with
  | [] => s
  | (id, type, value) :: l =>
      match AddResource quiet s id type value with Ok (_, s) => add_all s l | Err _ => s end
  end.

Lemma blank_ok : world_ok blank.
Proof.
  assert (H : ∀ c, rrec blank c = no_client).
  { intros c. unfold rrec. cbn [clientTable blank]. destruct (replicate 256 no_client !! Z.to_nat c) eqn:E; [|done].
    by apply lookup_replicate in E as [-> _]. }
  split; [done| |]; intros c; rewrite H; [intros _; by left|]. by intros res _ ?%elem_of_nil.
Qed.

(** ** Initialisation *)

Lemma InitClientResources_table_live c a fake endfake expect :
  0 <= c < 256 ->
  live_ok c (mkCRR a (replicate (Z.to_nat INITBUCKETS) []) 0 INITBUCKETS INITHASHSIZE fake endfake expect).
Proof.
  intros Hc. split; unfold nodes; cbn [resources hashsize buckets elements expectID];
    rewrite ?concat_replicate_nil; try done.
  - intros i chain res Hi Hin. apply lookup_replicate in Hi as [-> _]. by apply elem_of_nil in Hin.
  - constructor.
  - by intros res ?%elem_of_nil.
Qed.

Lemma InitClientResources_ok s client b s' :
  world_ok s -> 0 <= index client < 256 -> buckets (rrec s (index client)) = 0 ->
  InitClientResources s client = (b, s') -> world_ok s'.
Proof.
  intros Hs Hc Hb. unfold InitClientResources.
  assert (Hreg : ∀ s1 g, world_ok s1 -> world_ok (set_registry s1 g)) by (intros; by apply (world_ok_frame s1)).
  set (init := if index client =? 0 then _ else _).
  assert (world_ok init.2 ∧ buckets (rrec init.2 (index client)) = 0) as [Hi Hbi].
  { unfold init. destruct (index client =? 0); [|done]. destruct (xalloc s) as [o s1] eqn:E.
    pose proof (proj1 (xalloc_spec _ _ _ E)) as Ht. apply xalloc_frame in E as [Hs1 _]; [|done].
    destruct o; simpl; (split; [by apply Hreg|]); unfold rrec in *; simpl; by rewrite Ht. }
  clearbody init. destruct init as [ok s1]. simpl in Hi, Hbi. destruct ok; simpl; [|by intros [= <- <-]].
  destruct (xalloc s1) as [[a|] s2] eqn:E; destruct (xalloc_frame _ _ _ E Hi) as [Hs2 _]; intros [= <- <-].
  - apply world_ok_set; [done..|right; by apply InitClientResources_table_live|].
    intros res. cbn. by intros ?%elem_of_nil.
  - apply world_ok_set; [done..|left; by split|]. by intros res ?%elem_of_nil.
Qed.

Lemma add_all_ok s l :
  world_ok s -> Forall (fun x => 0 <= x.1.1 < 2 ^ 32) l -> world_ok (add_all s l).
Proof.
  intros Hs Hl. revert s Hs. induction Hl as [|[[id type] value] l Hid Hl IH]; intros s Hs; [done|]. simpl.
  destruct (in_use_dec s id) as [Hu|Hu].
  - destruct (AddResource_unfold quiet s id type value Hs Hu Hid) as (s1 & Hs1 & _ & [(s' & a & -> & Hadd)| ->]).
    + apply IH, Hadd.
    + destruct (call_delete quiet s1 type value id) as [s2|] eqn:E; simpl; [|done]. apply IH.
      unfold call_delete in E. destruct (of_option _ _) eqn:Ef; [|done]. injection E as <-. by apply world_ok_emit.
  - unfold AddResource. unfold in_use in Hu. destruct (Z.eqb_spec (buckets (rrec s (CLIENT_ID id))) 0); [done|lia].
Qed.

Lemma demo0_ok : world_ok demo0.
Proof.
  destruct (InitClientResources blank client1) as [b s] eqn:E.
  pose proof (InitClientResources_ok blank client1 b s blank_ok) as H. unfold demo0. rewrite E. simpl.
  apply H; [by vm_compute|by vm_compute|done].
Qed.

(** Identifier [n] of client 1. *)
Definition id1 (n : Z) : XID := Z.shiftl 1 21 + n.

(** Types are checked by evaluation. *)
Definition typedb (s : World) : bool :=
  forallb (fun r => forallb (fun res => Z.to_nat (Z.land (r_type res) (TypeMask (registry s))) <? length (DeleteFuncs (registry s)))%nat
    (nodes r)) (clientTable s).

Lemma typedb_sound s : typedb s = true -> typed s.
Proof.
  intros H c res Hc Hres. unfold rrec in Hres. destruct (clientTable s !! Z.to_nat c) as [r|] eqn:E.
  - unfold typedb in H. rewrite forallb_forall in H.
    specialize (H r (proj1 (list_elem_of_In _ _) (list_elem_of_lookup_2 _ _ _ E))).
    rewrite forallb_forall in H. specialize (H res (proj1 (list_elem_of_In _ _) Hres)).
    by apply Nat.ltb_lt in H.
  - by apply elem_of_nil in Hres.
Qed.

(** Three resources in one bucket. *)
Definition demo3 : World := add_all demo0 [(id1 0x44, 3, 70); (id1 5, 4, 50); (id1 0x87, 4, 30)].

Lemma demo3_ok : world_ok demo3.
Proof.
  apply add_all_ok; [apply demo0_ok|]. repeat constructor; simpl; vm_compute; discriminate.
Qed.
