(* ===== verification/ResourceTheorems.v ===== *)
(** * ResourceTheorems: what the resource database guarantees

    The functional correctness of each operation in terms of the contents of the
    database, the safety of deletion under procedures that delete more, and the
    behaviour of the identifier allocator. *)

From S2P Require Import Prelude ResourceDB ResourceProofs ResourceFree ResourceFreeProofs ResourceInit.

(** ** Insertion *)

(** C4: [AddResource] on a client in use never leaves its tables and never loses a
    resource, whether or not it rehashes: on success the new resource is the newest
    with its identifier and every other identifier keeps its resources; when the node
    cannot be allocated it returns FALSE after exactly one call of the deletion
    procedure of the type, on a database equivalent to the old one. *)
Theorem AddResource_correct run s id type value :
  world_ok s -> in_use s id -> 0 <= id < 2 ^ 32 ->
  ∃ s1, world_ok s1 ∧ s ≡ s1 ∧
    ((∃ s' res, AddResource run s id type value = Ok (true, s') ∧ world_ok s' ∧
        r_id res = id ∧ r_type res = type ∧ r_value res = value ∧
        contents s' id = res :: contents s id ∧
        (∀ id', id' <> id -> contents s' id' = contents s id') ∧
        elements (rrec s' (CLIENT_ID id)) = elements (rrec s (CLIENT_ID id)) + 1) ∨
     AddResource run s id type value = (s' ← call_delete run s1 type value id; Ok (false, s'))).
Proof.
  intros Hs Hu Hid. destruct (AddResource_unfold run s id type value Hs Hu Hid) as (s1 & Hs1 & He & H).
  exists s1. split; [done|]. split; [done|]. destruct H as [(s' & a & E & Hs' & Hc & _ & _ & Hel)|]; [|by right].
  left. exists s', (mkRes a id type value). simpl in *. split_and!; try done.
  - rewrite Hc, decide_True by done. simpl. by rewrite He.
  - intros id' Hne. rewrite Hc, decide_False by done. by rewrite He.
  - rewrite Hel. f_equal. apply (eq_elements _ _ He), CLIENT_ID_range.
Qed.

Lemma AddResource_correct_witness :
  ∃ s1, world_ok s1 ∧ demo0 ≡ s1 ∧
    ((∃ s' res, AddResource quiet demo0 (id1 5) 3 77 = Ok (true, s') ∧ world_ok s' ∧
        r_id res = id1 5 ∧ r_type res = 3 ∧ r_value res = 77 ∧
        contents s' (id1 5) = res :: contents demo0 (id1 5) ∧
        (∀ id', id' <> id1 5 -> contents s' id' = contents demo0 id') ∧
        elements (rrec s' (CLIENT_ID (id1 5))) = elements (rrec demo0 (CLIENT_ID (id1 5))) + 1) ∨
     AddResource quiet demo0 (id1 5) 3 77 = (s' ← call_delete quiet s1 3 77 (id1 5); Ok (false, s'))).
Proof.
  apply (AddResource_correct quiet demo0 (id1 5) 3 77 demo0_ok).
  - intros H. vm_compute in H. discriminate.
  - split; [|split]; vm_compute; (discriminate || reflexivity).
Defined.

(** ** Deletion *)

Lemma forget_drawable_frame s cid id :
  clientTable (forget_drawable s cid id) = clientTable s ∧ registry (forget_drawable s cid id) = registry s ∧
  log (forget_drawable s cid id) = log s ∧ fresh (forget_drawable s cid id) = fresh s.
Proof. unfold forget_drawable. repeat case_match; done. Qed.

Lemma FreeResource_safe run s id skip `{!SafeDelete run} :
  world_ok s -> typed s ->
  ∃ s', FreeResource run s id skip = Ok s' ∧ world_ok s' ∧ shrinks true s s' ∧ contents s' id = [].
Proof.
  intros Hs Ht. unfold FreeResource. pose proof (CLIENT_ID_range id) as Hc.
  destruct (in_use_dec s id) as [Hu|Hu].
  2: { rewrite guard_unused by done. eexists.
       split_and!; [done|by apply world_ok_emit|apply shrinks_emit|].
       rewrite (contents_frame s) by done. by apply contents_unused. }
  rewrite guard_in_use by done. pose proof (in_use_live s id Hs Hu) as Hr.
  destruct (live_bucket _ _ id Hr) as (chain & Hh & Hch & _). rewrite Hh.
  destruct (free_loop_safe run (rounds (table_size s (CLIENT_ID id))) s (CLIENT_ID id) _ _ id skip [] chain false
    Hs Ht Hc Hr eq_refl Hch) as (s' & chain' & E & Hs' & Hsh & Hch' & Hno).
  { by intros x ?%elem_of_nil. }
  { unfold rounds, table_size. pose proof (chain_size _ _ _ Hch). unfold nodes in *. lia. }
  simpl in E. rewrite E. simpl.
  destruct (forget_drawable_frame s' (CLIENT_ID id) id) as (Ft & Fg & Fl & Ff).
  set (s'' := forget_drawable s' _ _) in *.
  assert (world_ok s'' ∧ shrinks true s s'' ∧ contents s'' id = []) as (Hs'' & Hsh'' & Hcont).
  { split_and!.
    - apply (world_ok_frame s'); [done|lia|done].
    - etrans; [done|]. apply shrinks_frame; [done..|]. by rewrite Fl.
    - rewrite (contents_frame s') by done. unfold contents.
      pose proof (live_shrinks s s' _ true Hs' Hc Hr Hsh) as Hr'.
      assert (Hash (rrec s' (CLIENT_ID id)) id = Hash (rrec s (CLIENT_ID id)) id) as EH.
      { unfold Hash. by rewrite (sub_hashsize _ _ (sh_rec _ _ _ Hsh _ Hc)). }
      rewrite (live_filter _ _ id chain' Hr') by (by rewrite EH).
      apply filter_none. intros x Hx. by apply Hno. }
  destruct (existsb _ chain); eexists; (split; [done|]); [done|].
  split_and!; [by apply world_ok_emit|etrans; [done|apply shrinks_emit]|by rewrite (contents_frame s'')].
Qed.

(** Deletion procedures that free another resource, which may free another, and so on:
    [child] says which one. *)
Fixpoint nested (run : DeleteType -> pointer -> XID -> World -> result World)
    (child : DeleteType -> pointer -> XID -> XID) (depth : nat)
    : DeleteType -> pointer -> XID -> World -> result World :=
  match depth with
  | O => run
  | S depth => fun f value id s => FreeResource (nested run child depth) s (child f value id) 0
  end.

#[export] Instance nested_safe run child depth `{!SafeDelete run} : SafeDelete (nested run child depth).
Proof.
  induction depth as [|depth IH]; [done|]. intros f value id s Hs Ht. simpl.
  destruct (FreeResource_safe (nested run child depth) s (child f value id) 0 Hs Ht) as (s' & ? & ? & ? & _).
  by exists s'.
Defined.

(** C2: [FreeResource] stays safe when the deletion procedures it calls free other
    resources with [FreeResource], to any depth of nesting, even the node its [prev]
    points into: it never follows a dangling pointer, terminates, keeps the tables well
    formed, adds no resource, counts every one that goes, and leaves none with the
    identifier. *)
Theorem FreeResource_reentrant run child depth s id skip `{!SafeDelete run} :
  world_ok s -> typed s ->
  ∃ s', FreeResource (nested run child depth) s id skip = Ok s' ∧
    world_ok s' ∧ shrinks true s s' ∧ contents s' id = [].
Proof. intros Hs Ht. by apply FreeResource_safe; try apply _. Qed.

Lemma FreeResource_reentrant_witness :
  ∃ s', FreeResource (nested quiet (fun _ _ id => if id =? id1 0x44 then id1 5 else id1 0x87) 3) demo3 (id1 0x44) 0 = Ok s' ∧
    world_ok s' ∧ shrinks true demo3 s' ∧ contents s' (id1 0x44) = [].
Proof.
  apply (FreeResource_reentrant quiet _ 3 demo3 (id1 0x44) 0 demo3_ok). apply typedb_sound. by vm_compute.
Defined.

(** ** Deletion, exactly *)

Lemma filter_chain_change {A} (P : A -> Prop) `{!∀ x, Decision (P x)} (t : list (list A)) i l l' :
  t !! i = Some l -> filter P l' = filter P l -> filter P (concat (<[i := l']> t)) = filter P (concat t).
Proof.
  intros Hi Hl. rewrite (concat_insert _ _ _ _ Hi), (concat_split _ _ _ Hi), !filter_app. by rewrite Hl.
Qed.

Lemma removed_contents s s' cid table elts evs id :
  removed s s' cid table elts evs ->
  contents s' id = if decide (CLIENT_ID id = cid) then filter (fun res => r_id res = id) (concat table) else contents s id.
Proof.
  intros [R O _ _ _ _ _]. unfold contents. case_decide as Hd.
  - by rewrite Hd, R.
  - by rewrite O by (done || apply CLIENT_ID_range).
Qed.

Lemma existsb_filter id (chain : list ResourceRec) :
  existsb (fun x => r_id x =? id) chain = negb (bool_decide (filter (fun x => r_id x = id) chain = [])).
Proof.
  induction chain as [|x chain IH]; [done|]. simpl. rewrite filter_cons.
  destruct (Z.eqb_spec (r_id x) id), (decide (r_id x = id)); done.
Qed.

(** Everything a caller can see of the database but [lastDrawable]. *)
Record freed (s s' : World) (id : XID) (rest : list ResourceRec) (elts : Z) (evs : list Event) : Prop := {
  fr_ok : world_ok s';
  fr_contents : contents s' id = rest;
  fr_others id' : id' <> id -> contents s' id' = contents s id';
  fr_elements : elements (rrec s' (CLIENT_ID id)) = elts;
  fr_log : log s' = log s ++ evs
}.

Lemma freed_forget s s' id rest elts evs cid :
  freed s s' id rest elts evs -> freed s (forget_drawable s' cid id) id rest elts evs.
Proof.
  intros [K C O E L]. destruct (forget_drawable_frame s' cid id) as (Ft & _ & Fl & Ff). split.
  - apply (world_ok_frame s'); [done|lia|done].
  - by rewrite (contents_frame s').
  - intros. rewrite (contents_frame s') by done. auto.
  - by rewrite (rrec_frame s').
  - by rewrite Fl.
Qed.

Lemma freed_emit s s' id rest elts evs e :
  freed s s' id rest elts evs -> freed s (emit s' e) id rest elts (evs ++ [e]).
Proof. intros [K C O E L]. split; try done; [by apply world_ok_emit|]. simpl. by rewrite L, (assoc_L (++)). Qed.

(** Changing one chain so that only [id] is affected. *)
Lemma removed_freed s s' id i chain chain' elts evs :
  world_ok s -> in_use s id ->
  resources (rrec s (CLIENT_ID id)) !! i = Some chain -> Z.to_nat (Hash (rrec s (CLIENT_ID id)) id) = i ->
  removed s s' (CLIENT_ID id) (<[i := chain']> (resources (rrec s (CLIENT_ID id)))) elts evs ->
  (∀ id', id' <> id -> filter (fun x => r_id x = id') chain' = filter (fun x => r_id x = id') chain) ->
  freed s s' id (filter (fun x => r_id x = id) chain') elts evs.
Proof.
  intros Hs Hu Hi Hh Hrm Hother. pose proof (in_use_live s id Hs Hu) as Hr.
  split; try apply Hrm.
  - rewrite (removed_contents _ _ _ _ _ _ _ Hrm), decide_True by done.
    apply (filter_concat _ _ i).
    + apply list_lookup_insert_eq. by eapply lookup_lt_Some.
    + intros j l x Hj Hx Hxid. destruct (decide (j = i)) as [|Hne]; [done|].
      rewrite list_lookup_insert_ne in Hj by done.
      destruct (lo_place _ _ Hr _ _ _ Hj Hx) as (_ & Hxh & _). rewrite Hxid in Hxh. lia.
  - intros id' Hne. rewrite (removed_contents _ _ _ _ _ _ _ Hrm). case_decide as Hd; [|done].
    rewrite (filter_chain_change _ _ _ chain chain' Hi (Hother id' Hne)). unfold contents. by rewrite Hd.
  - by rewrite (rm_rrec _ _ _ _ _ _ Hrm).
Qed.

(** C27: [FreeResource], with deletion procedures that leave the database alone, removes
    exactly the resources with the identifier, newest first: for each it flushes the caches
    if its type is cached, calls the deletion procedure of its type once unless that is the
    type to skip, and frees the node; [elements] goes down by their number, every other
    identifier keeps its resources, and the error message appears iff there was none. *)
Theorem FreeResource_correct run s id skip `{!LeafDelete run} :
  world_ok s -> typed s -> in_use s id ->
  ∃ s', FreeResource run s id skip = Ok s' ∧
    freed s s' id [] (elements (rrec s (CLIENT_ID id)) - Z.of_nat (length (contents s id)))
      (concat (map (fun x => disposal (registry s) (negb (r_type x =? skip)) x) (contents s id)) ++
       (if decide (contents s id = []) then [ErrorF id] else [])).
Proof.
  intros Hs Ht Hu. unfold FreeResource. pose proof (CLIENT_ID_range id) as Hc.
  pose proof (in_use_live s id Hs Hu) as Hr. rewrite guard_in_use by done.
  destruct (live_bucket _ _ id Hr) as (chain & Hh & Hch & _).
  assert (Hcont : contents s id = filter (fun x => r_id x = id) chain) by (by apply (live_filter (CLIENT_ID id))).
  rewrite Hh. destruct (free_loop_leaf run (rounds (table_size s (CLIENT_ID id))) s (CLIENT_ID id) _ _ id skip [] chain false
    Hs Ht Hc Hr eq_refl Hch) as (s' & E & Hrm).
  { unfold rounds, table_size. pose proof (chain_size _ _ _ Hch). unfold nodes in *. lia. }
  simpl in E, Hrm. rewrite E. simpl. rewrite existsb_filter, <- Hcont. rewrite <- Hcont in Hrm.
  assert (Hnone : filter (fun x => r_id x = id) (filter (fun x => r_id x <> id) chain) = []).
  { apply filter_none. intros x Hx. by apply list_elem_of_filter in Hx as [? _]. }
  apply (removed_freed s s' id _ chain _ _ _ Hs Hu Hch eq_refl) in Hrm.
  2: { intros id' Hne. rewrite list_filter_filter. apply list_filter_iff. intros x. split; [tauto|].
       intros <-. done. }
  rewrite Hnone in Hrm. apply (freed_forget _ _ _ _ _ _ (CLIENT_ID id)) in Hrm.
  case_bool_decide as Hd; simpl; (eexists; split; [done|]).
  - rewrite decide_True by done. by apply freed_emit.
  - rewrite decide_False, app_nil_r by done. done.
Qed.

Lemma FreeResource_correct_witness :
  ∃ s', FreeResource quiet demo3 (id1 5) 3 = Ok s' ∧
    freed demo3 s' (id1 5) [] (elements (rrec demo3 (CLIENT_ID (id1 5))) - Z.of_nat (length (contents demo3 (id1 5))))
      (concat (map (fun x => disposal (registry demo3) (negb (r_type x =? 3)) x) (contents demo3 (id1 5))) ++
       (if decide (contents demo3 (id1 5) = []) then [ErrorF (id1 5)] else [])).
Proof.
  apply (FreeResource_correct quiet demo3 (id1 5) 3 demo3_ok).
  - apply typedb_sound. by vm_compute.
  - intros H. vm_compute in H. discriminate.
Defined.

(** [FreeResourceByType] removes only the newest resource with the identifier and the
    type, disposes of it (calling its deletion procedure unless asked not to) and keeps
    every other resource in its order; when there is none it changes nothing.  In both cases
    [elements] keeps its value: a removal is not counted. *)
Theorem FreeResourceByType_correct run s id type skipFree `{!LeafDelete run} :
  world_ok s -> typed s -> in_use s id ->
  ∃ s', FreeResourceByType run s id type skipFree = Ok s' ∧
    ((∃ newer x older, contents s id = newer ++ x :: older ∧ r_type x = type ∧
        (∀ y, y ∈ newer -> r_type y <> type) ∧
        freed s s' id (newer ++ older) (elements (rrec s (CLIENT_ID id)))
          (disposal (registry s) (negb skipFree) x)) ∨
     ((∀ y, y ∈ contents s id -> r_type y <> type) ∧
        freed s s' id (contents s id) (elements (rrec s (CLIENT_ID id))) [])).
Proof.
  intros Hs Ht Hu. unfold FreeResourceByType. pose proof (CLIENT_ID_range id) as Hc.
  pose proof (in_use_live s id Hs Hu) as Hr. rewrite guard_in_use by done.
  destruct (lookup_first_chain s id (fun res => r_type res =? type) Hs Hu) as (chain & Hch & Hcont & ->). simpl.
  destruct (List.find _ chain) as [x|] eqn:Ef.
  - apply find_split in Ef as (pre & post & -> & Hx & Hpre). zbool. pose proof (lo_count _ _ Hr).
    destruct (unlink_dispose run s (CLIENT_ID id) (Z.to_nat (Hash (rrec s (CLIENT_ID id)) id)) pre x post
      (elements (rrec s (CLIENT_ID id))) (negb skipFree))
      as (s' & -> & Hrm & _); [done..| |done|lia|].
    { apply (Ht (CLIENT_ID id)); [done|]. apply elem_of_concat. do 2 eexists. split; [done|].
      apply elem_of_app. right. left. }
    simpl. eexists. split; [done|]. left.
    apply (removed_freed s s' id _ _ _ _ _ Hs Hu Hch eq_refl) in Hrm.
    2: { intros id' Hne. rewrite !filter_app, (filter_cons_False _ x) by congruence. done. }
    rewrite filter_app in Hrm. rewrite Hcont, filter_app, filter_cons_True by done.
    do 3 eexists. split_and!; [done|done| |by apply freed_forget].
    intros y [Hyid Hy]%list_elem_of_filter E. specialize (Hpre y Hy). rewrite Hyid, E, !Z.eqb_refl in Hpre. done.
  - pose proof (find_none_iff _ _ Ef) as Hnone. simpl. eexists. split; [done|]. right. split.
    + rewrite Hcont. intros y [Hyid Hy]%list_elem_of_filter E. specialize (Hnone y Hy).
      simpl in Hnone. by rewrite Hyid, E, !Z.eqb_refl in Hnone.
    + apply freed_forget. split; try done. by rewrite app_nil_r.
Qed.

Lemma FreeResourceByType_correct_witness :
  ∃ s', FreeResourceByType quiet demo3 (id1 5) 4 false = Ok s' ∧
    ((∃ newer x older, contents demo3 (id1 5) = newer ++ x :: older ∧ r_type x = 4 ∧
        (∀ y, y ∈ newer -> r_type y <> 4) ∧
        freed demo3 s' (id1 5) (newer ++ older) (elements (rrec demo3 (CLIENT_ID (id1 5))))
          (disposal (registry demo3) (negb false) x)) ∨
     ((∀ y, y ∈ contents demo3 (id1 5) -> r_type y <> 4) ∧
        freed demo3 s' (id1 5) (contents demo3 (id1 5)) (elements (rrec demo3 (CLIENT_ID (id1 5)))) [])).
Proof.
  apply (FreeResourceByType_correct quiet demo3 (id1 5) 4 false demo3_ok).
  - apply typedb_sound. by vm_compute.
  - intros H. vm_compute in H. discriminate.
Defined.

(** A deletion procedure that drops a second resource through [FreeResourceByType], the
    way DRI2DrawableGone does (hw/xfree86/dri2/dri2.c). *)
Definition drop_other (f : DeleteType) (value : pointer) (id : XID) (s : World) : result World :=
  if id =? id1 0x44 then FreeResourceByType quiet s (id1 5) 4 true else Ok s.

(** because [FreeResourceByType] does not count what it removes, [FreeResource] cannot
    see that a deletion procedure removed the node its [prev] points into: with two
    resources next to each other in a bucket, freeing one whose procedure drops the other
    by type makes it read freed memory, where dropping it with [FreeResource] is safe. *)
Theorem FreeResource_use_after_free :
  FreeResource drop_other demo3 (id1 0x44) 0 = Err Dangling ∧
  (∃ s', FreeResource (nested quiet (fun _ _ _ => id1 5) 1) demo3 (id1 0x44) 0 = Ok s').
Proof. split; [by vm_compute|]. eexists. vm_compute. reflexivity. Qed.

(** ** Values *)

Lemma nodes_set_value_in r i pre x post v y elts :
  resources r !! i = Some (pre ++ x :: post) ->
  y ∈ nodes (set_resources r (<[i := pre ++ with_value x v :: post]> (resources r)) elts) ->
  ∃ z, z ∈ nodes r ∧ r_addr z = r_addr y.
Proof.
  intros Hi Hy. apply elem_of_concat in Hy as (j & chain & Hj & Hy). simpl in Hj.
  apply list_lookup_insert_Some in Hj as [(<- & <- & _)|[_ Hj]].
  - assert (∃ z, z ∈ pre ++ x :: post ∧ r_addr z = r_addr y) as (z & Hz & Ez).
    { apply elem_of_app in Hy as [Hy|[->|Hy]%elem_of_cons]; [exists y|exists x|exists y];
        (split; [|done]); apply elem_of_app; [by left|right; left|right; by right]. }
    exists z. split; [|done]. apply elem_of_concat. eauto.
  - exists y. split; [|done]. apply elem_of_concat. eauto.
Qed.

Lemma ChangeResourceValue_contents s id rtype value :
  world_ok s -> in_use s id ->
  (∃ s' newer x older, ChangeResourceValue s id rtype value = Ok (true, s') ∧ world_ok s' ∧
     contents s id = newer ++ x :: older ∧ r_type x = rtype ∧ (∀ y, y ∈ newer -> r_type y <> rtype) ∧
     contents s' id = newer ++ with_value x value :: older ∧
     (∀ id', id' <> id -> contents s' id' = contents s id')) ∨
  (ChangeResourceValue s id rtype value = Ok (false, s) ∧ ∀ y, y ∈ contents s id -> r_type y <> rtype).
Proof.
  intros Hs Hu. unfold ChangeResourceValue. pose proof (CLIENT_ID_range id) as Hc.
  pose proof (in_use_live s id Hs Hu) as Hr.
  destruct (lookup_first_chain s id (fun res => r_type res =? rtype) Hs Hu) as (chain & Hch & Hcont & ->). simpl.
  destruct (List.find _ chain) as [x|] eqn:Ef.
  2: { right. split; [done|]. intros y. rewrite Hcont. intros [Hid Hy]%list_elem_of_filter E.
       pose proof (find_none_iff _ _ Ef y Hy) as Hn. simpl in Hn. by rewrite Hid, E, !Z.eqb_refl in Hn. }
  left. apply find_split in Ef as (pre & post & -> & Hx & Hpre). zbool. subst id rtype.
  set (s1 := if has (r_type x) RC_CACHED then _ else s).
  assert (Ht1 : clientTable s1 = clientTable s) by (unfold s1; by destruct (has _ _)).
  assert (Hf1 : fresh s1 = fresh s) by (unfold s1; by destruct (has _ _)).
  assert (Hs1 : world_ok s1) by (apply (world_ok_frame s); [done|lia|done]). clearbody s1.
  rewrite (rrec_frame s s1 _ Ht1), (set_value_table _ _ pre x post) by (apply Hr || done).
  pose proof (live_set_value _ _ _ pre x post value Hr Hch) as Hlive.
  set (r' := set_resources _ _ _) in *.
  do 4 eexists. split_and!; [done| |rewrite Hcont, filter_app, filter_cons_True by done; done|done| | |].
  - apply world_ok_set; [done|done|by right|]. intros y Hy. rewrite Hf1.
    destruct (nodes_set_value_in _ _ _ _ _ _ _ _ Hch Hy) as (z & Hz & <-).
    by apply (wo_fresh s Hs (CLIENT_ID (r_id x))).
  - intros y [Hyid Hy]%list_elem_of_filter E. specialize (Hpre y Hy). by rewrite Hyid, E, !Z.eqb_refl in Hpre.
  - unfold contents. rewrite rrec_set, Z.eqb_refl by (done || lia).
    rewrite (live_filter _ r' (r_id x) (pre ++ with_value x value :: post) Hlive).
    + by rewrite filter_app, filter_cons_True.
    + apply list_lookup_insert_eq. by eapply lookup_lt_Some.
  - intros id' Hne. unfold contents. rewrite rrec_set by (done || apply CLIENT_ID_range).
    destruct (Z.eqb_spec (CLIENT_ID id') (CLIENT_ID (r_id x))) as [E|_]; [|by rewrite (rrec_frame s s1)].
    rewrite E. unfold r', nodes. simpl. apply (filter_chain_change _ _ _ _ _ Hch).
    rewrite !filter_app, (filter_cons_False _ (with_value x value)), (filter_cons_False _ x) by (simpl; congruence). done.
Qed.

Lemma find_app_skip {A} (f : A -> bool) l l' :
  (∀ y, y ∈ l -> f y = false) -> List.find f (l ++ l') = List.find f l'.
Proof.
  induction l as [|x l IH]; [done|]. intros H. simpl. rewrite (H x) by left. apply IH. intros y Hy. apply H. by right.
Qed.

(** Changing a value is invisible to a search for another type. *)
Lemma find_with_value t newer x older v :
  r_type x <> t ->
  List.find (fun res => r_type res =? t) (newer ++ with_value x v :: older) =
  List.find (fun res => r_type res =? t) (newer ++ x :: older).
Proof.
  intros Hne. induction newer as [|y newer IH]; simpl.
  - by destruct (Z.eqb_spec (r_type x) t).
  - by rewrite IH.
Qed.

Section Values.
Context (XaceHook : Z -> XID -> RESTYPE -> Z -> pointer -> bool).

(** [ChangeResourceValue] keeps the database well formed; it succeeds exactly when there
    is a resource with the identifier and the type, and then a lookup by that identifier and
    type yields the new value, while every other lookup by type yields what it did before. *)
Theorem ChangeResourceValue_correct s id rtype value :
  world_ok s ->
  ∃ b s', ChangeResourceValue s id rtype value = Ok (b, s') ∧ world_ok s' ∧
    (b = true <-> ∃ x, x ∈ contents s id ∧ r_type x = rtype) ∧
    ∀ id' t, LookupIDByType XaceHook s' id' t =
      if b && (id' =? id) && (t =? rtype) then Ok value else LookupIDByType XaceHook s id' t.
Proof.
  intros Hs. destruct (in_use_dec s id) as [Hu|Hu].
  2: { unfold ChangeResourceValue. rewrite lookup_first_ok, contents_unused by done. simpl.
       eexists _, _. split_and!; [done..| |done]. split; [done|]. by intros (x & ?%elem_of_nil & _). }
  destruct (ChangeResourceValue_contents s id rtype value Hs Hu)
    as [(s' & newer & x & older & E & Hs' & Hold & Hx & Hnewer & Hnew & Hother)|[E Hnone]].
  2: { exists false, s. split_and!; [done..| |done]. split; [done|]. intros (x & Hx & Ex). by destruct (Hnone x). }
  exists true, s'. split_and!; [done|done| |].
  { split; [|done]. intros _. exists x. split; [|done]. rewrite Hold. apply elem_of_app. right. left. }
  intros id' t. unfold LookupIDByType, SecurityLookupIDByType. rewrite !lookup_first_ok by done. simpl.
  destruct (Z.eqb_spec id' id) as [->|Hne]; simpl; [|by rewrite Hother].
  rewrite Hnew, Hold. destruct (Z.eqb_spec t rtype) as [->|Hne]; simpl.
  - rewrite find_app_skip; [|intros y Hy; by apply Z.eqb_neq, Hnewer].
    simpl. rewrite Hx, Z.eqb_refl. done.
  - rewrite find_with_value by congruence. done.
Qed.

End Values.

Lemma ChangeResourceValue_correct_witness :
  ∃ b s', ChangeResourceValue demo3 (id1 5) 4 51 = Ok (b, s') ∧ world_ok s' ∧
    (b = true <-> ∃ x, x ∈ contents demo3 (id1 5) ∧ r_type x = 4) ∧
    ∀ id' t, LookupIDByType (fun _ _ _ _ _ => true) s' id' t =
      if b && (id' =? id1 5) && (t =? 4) then Ok 51 else LookupIDByType (fun _ _ _ _ _ => true) demo3 id' t.
Proof. apply (ChangeResourceValue_correct _ demo3 (id1 5) 4 51 demo3_ok). Defined.
