(* ===== verification/ResourceIds.v ===== *)
(** * ResourceIds: which identifiers the server hands out and accepts (dix/resource.c)

    [GetXIDRange], [FakeClientID], [GetXIDList] and [LegalNewID], against the
    contents of the database. *)

From S2P Require Import Prelude ResourceDB ResourceProofs ResourceInit.

(** ** Ranges of identifiers *)

Definition used (r : ClientResourceRec) (id : XID) : Prop := ∃ x, x ∈ nodes r ∧ r_id x = id.

Lemma used_contents s id : used (rrec s (CLIENT_ID id)) id <-> contents s id <> [].
Proof.
  unfold contents. split.
  - intros (x & Hx & <-) E. assert (x ∈ filter (fun res => r_id res = r_id x) (nodes (rrec s (CLIENT_ID (r_id x)))))
      as Hin by (by apply list_elem_of_filter). rewrite E in Hin. by apply elem_of_nil in Hin.
  - destruct (filter _ _) as [|x l] eqn:E; [done|]. intros _.
    assert (x ∈ filter (fun res => r_id res = id) (nodes (rrec s (CLIENT_ID id)))) as Hin by (rewrite E; left).
    apply list_elem_of_filter in Hin as [? ?]. by exists x.
Qed.

Lemma existsb_used c r id chain :
  live_ok c r -> resources r !! Z.to_nat (Hash r id) = Some chain ->
  existsb (fun res => r_id res =? id) chain = true <-> used r id.
Proof.
  intros Hr Hch. rewrite existsb_exists. split.
  - intros (x & Hx & E). zbool. exists x. split; [|done]. apply elem_of_concat.
    do 2 eexists. split; [done|]. by apply list_elem_of_In.
  - intros (x & Hx & E). apply elem_of_concat in Hx as (j & l & Hj & Hx). exists x. split; [|lia].
    destruct (lo_place _ _ Hr _ _ _ Hj Hx) as (_ & Hh & _). rewrite E in Hh. rewrite Hh, Nat2Z.id in Hch.
    apply list_elem_of_In. congruence.
Qed.

(** The first unused identifier, 0 when there is none. *)
Lemma available_from_ok c r n id :
  live_ok c r -> 0 < id ->
  ∃ g, available_from n r id = Ok g ∧
    ((g = 0 ∧ ∀ j, id <= j < id + Z.of_nat n -> used r j) ∨ (id <= g < id + Z.of_nat n ∧ ¬ used r g)).
Proof.
  intros Hr. revert id. induction n as [|n IH]; intros id Hid.
  - exists 0. split; [done|]. left. split; [done|]. lia.
  - cbn [available_from]. destruct (live_bucket c r id Hr) as (chain & _ & Hch & ->). simpl.
    pose proof (existsb_used c r id chain Hr Hch) as Hu. destruct (existsb _ chain).
    + destruct (IH (id + 1)) as (g & -> & Hg); [lia|]. exists g. split; [done|].
      destruct Hg as [[-> Hall]|[Hg Hfree]]; [left|right; split; [lia|done]].
      split; [done|]. intros j Hj. destruct (decide (j = id)) as [->|]; [by apply Hu|apply Hall; lia].
    + exists id. split; [done|]. right. split; [lia|]. intros H. by apply Hu in H.
Qed.

Lemma AvailableID_ok c r id maxid goodid :
  live_ok c r -> 0 < id -> (goodid = 0 ∨ ¬ used r goodid) ->
  ∃ g, AvailableID r id maxid goodid = Ok g ∧
    ((g = 0 ∧ ∀ j, id <= j <= maxid -> used r j) ∨ (id <= g <= maxid ∧ ¬ used r g)).
Proof.
  intros Hr Hid Hgood. unfold AvailableID.
  destruct ((id <=? goodid) && (goodid <=? maxid)) eqn:E.
  - zbool. exists goodid. split; [done|]. right. split; [lia|]. destruct Hgood; [lia|done].
  - destruct (available_from_ok c r (Z.to_nat (maxid - id + 1)) id Hr Hid) as (g & -> & Hg).
    exists g. split; [done|]. destruct Hg as [[-> Hall]|[Hg Hfree]]; [left|right; split; [lia|done]].
    split; [done|]. intros j Hj. apply Hall. lia.
Qed.

(** What the scan keeps: the range lies in [lo..hi], excludes the identifiers of the
    nodes seen, and has an unused identifier if there was one. *)
Record narrowed (r : ClientResourceRec) (lo hi : Z) (seen : list ResourceRec) (st : XID * XID * XID) : Prop := {
  nw_lo : lo <= st.1.1;
  nw_hi : st.1.2 <= hi;
  nw_good : st.2 = 0 ∨ ¬ used r st.2;
  nw_seen x : x ∈ seen -> ¬ (st.1.1 <= r_id x <= st.1.2);
  nw_free j : lo <= j <= hi -> ¬ used r j -> ∃ k, st.1.1 <= k <= st.1.2 ∧ ¬ used r k
}.

Lemma narrowed_lower r lo hi seen x id maxid good g :
  narrowed r lo hi seen (id, maxid, good) -> id <= r_id x <= maxid ->
  (g = 0 ∨ ¬ used r g) ->
  ((∃ k, id <= k <= r_id x - 1 ∧ ¬ used r k) ∨ ∀ j, r_id x <= j <= maxid -> used r j) ->
  narrowed r lo hi (x :: seen) (id, r_id x - 1, g).
Proof.
  intros [H1 H2 H3 H4 H5] Hx Hg Hk. simpl in *. split; simpl; try done; [lia| |].
  - intros y [->|Hy]%elem_of_cons; [lia|]. specialize (H4 y Hy). lia.
  - intros j Hj Hf. destruct Hk as [Hk|Hup]; [done|]. destruct (H5 j Hj Hf) as (k & Hk & Hkf).
    exists k. split; [|done]. destruct (decide (r_id x <= k)); [|lia]. exfalso. apply Hkf, Hup. lia.
Qed.

Lemma narrowed_upper r lo hi seen x id maxid good g :
  narrowed r lo hi seen (id, maxid, good) -> id <= r_id x <= maxid ->
  (g = 0 ∨ ¬ used r g) ->
  ((∃ k, r_id x + 1 <= k <= maxid ∧ ¬ used r k) ∨ ∀ j, id <= j <= r_id x -> used r j) ->
  narrowed r lo hi (x :: seen) (r_id x + 1, maxid, g).
Proof.
  intros [H1 H2 H3 H4 H5] Hx Hg Hk. simpl in *. split; simpl; try done; [lia| |].
  - intros y [->|Hy]%elem_of_cons; [lia|]. specialize (H4 y Hy). lia.
  - intros j Hj Hf. destruct Hk as [Hk|Hup]; [done|]. destruct (H5 j Hj Hf) as (k & Hk & Hkf).
    exists k. split; [|done]. destruct (decide (k <= r_id x)); [|lia]. exfalso. apply Hkf, Hup. lia.
Qed.

Lemma narrow_ok c r lo hi seen x st :
  live_ok c r -> 0 < lo -> hi < 2 ^ 32 - 1 -> x ∈ nodes r -> narrowed r lo hi seen st ->
  ∃ st', narrow r (r_id x) st = Ok st' ∧ narrowed r lo hi (x :: seen) st'.
Proof.
  intros Hr Hlo Hhi Hx Hst. destruct st as [[id maxid] good]. unfold narrow.
  destruct ((r_id x <? id) || (maxid <? r_id x)) eqn:Eout.
  { exists (id, maxid, good). split; [done|]. destruct Hst as [H1 H2 H3 H4 H5]. split; try done.
    intros y [->|Hy]%elem_of_cons; [|by apply H4]. simpl. apply orb_true_iff in Eout as [?|?]; zbool; lia. }
  zbool. pose proof (nw_lo _ _ _ _ _ Hst) as Hlo'. pose proof (nw_hi _ _ _ _ _ Hst) as Hhi'. simpl in Hlo', Hhi'.
  rewrite !u32_small by lia. pose proof (nw_good _ _ _ _ _ Hst) as Hgood. simpl in Hgood.
  assert (Hused : used r (r_id x)) by (by exists x).
  destruct (Z.leb_spec (maxid - r_id x) (r_id x - id)).
  - destruct (AvailableID_ok c r id (r_id x - 1) good Hr ltac:(lia) Hgood) as (g & -> & [[-> Hall]|[Hg Hfree]]); simpl.
    + eexists. split; [done|]. apply (narrowed_upper _ _ _ _ _ _ _ _ 0 Hst); [lia|by left|right].
      intros j Hj. destruct (decide (j = r_id x)) as [->|]; [done|]. apply Hall. lia.
    + destruct (Z.eqb_spec g 0); [lia|]. eexists. split; [done|].
      apply (narrowed_lower _ _ _ _ _ _ _ _ _ Hst); [lia|by right|left; by exists g].
  - destruct (AvailableID_ok c r (r_id x + 1) maxid good Hr ltac:(lia) Hgood) as (g & -> & [[-> Hall]|[Hg Hfree]]); simpl.
    + eexists. split; [done|]. apply (narrowed_lower _ _ _ _ _ _ _ _ 0 Hst); [lia|by left|right].
      intros j Hj. destruct (decide (j = r_id x)) as [->|]; [done|]. apply Hall. lia.
    + destruct (Z.eqb_spec g 0); [lia|]. eexists. split; [done|].
      apply (narrowed_upper _ _ _ _ _ _ _ _ _ Hst); [lia|by right|left; by exists g].
Qed.

Lemma narrow_all_ok c r lo hi seen todo st :
  live_ok c r -> 0 < lo -> hi < 2 ^ 32 - 1 -> (∀ x, x ∈ todo -> x ∈ nodes r) -> narrowed r lo hi seen st ->
  ∃ st', narrow_all r todo st = Ok st' ∧ narrowed r lo hi (rev_append todo seen) st'.
Proof.
  intros Hr Hlo Hhi. revert seen st. induction todo as [|x todo IH]; intros seen st Htodo Hst; simpl; [by eauto|].
  destruct (narrow_ok c r lo hi seen x st) as (st1 & -> & H1); [done..|apply Htodo; left|done|]. simpl.
  apply IH; [|done]. intros y Hy. apply Htodo. by right.
Qed.

Definition range_lo (client : Z) (server : bool) : XID :=
  let id := u32 (Z.shiftl client CLIENTOFFSET) in
  if server then Z.lor id (if client =? 0 then SERVER_MINID else SERVER_BIT) else id.
Definition range_hi (client : Z) (server : bool) : XID := Z.lor (range_lo client server) RESOURCE_ID_MASK.

#[global] Arguments range_lo : simpl never.
#[global] Arguments range_hi : simpl never.
#[global] Arguments GetXIDRange : simpl never.
#[global] Arguments set_fake : simpl never.

(** The result is the empty range exactly when every identifier is used. *)
Lemma GetXIDRange_ok s client server :
  live_ok client (rrec s client) -> 0 < range_lo client server -> range_hi client server < 2 ^ 32 - 1 ->
  ∃ id maxid, GetXIDRange s client server = Ok (id, maxid) ∧
    ((id = 0 ∧ maxid = 0 ∧ ∀ j, range_lo client server <= j <= range_hi client server -> used (rrec s client) j) ∨
     (range_lo client server <= id ∧ id <= maxid ∧ maxid <= range_hi client server ∧
      ∀ j, id <= j <= maxid -> ¬ used (rrec s client) j)).
Proof.
  intros Hr Hlo Hhi. unfold GetXIDRange. fold (range_lo client server). fold (range_hi client server).
  destruct (narrow_all_ok client (rrec s client) (range_lo client server) (range_hi client server) []
    (concat (resources (rrec s client))) (range_lo client server, range_hi client server, 0))
    as ([[id maxid] good] & -> & H); [done..| |].
  { split; simpl; try lia; [by intros x ?%elem_of_nil|]. intros j Hj Hf. by exists j. }
  destruct H as [H1 H2 _ H4 H5]. simpl in *. destruct (Z.ltb_spec maxid id).
  - exists 0, 0. split; [done|]. left. split_and!; [done..|]. intros j Hj.
    destruct (existsb (fun x => r_id x =? j) (nodes (rrec s client))) eqn:Ej.
    + apply existsb_exists in Ej as (x & Hx & E). zbool. exists x. split; [by apply list_elem_of_In|lia].
    + exfalso. destruct (H5 j Hj) as (k & Hk & _); [|lia]. intros (x & Hx & E).
      apply not_true_iff_false in Ej. apply Ej, existsb_exists. exists x. split; [by apply list_elem_of_In|lia].
  - exists id, maxid. split; [done|]. right. split_and!; [done..|]. intros j Hj (x & Hx & E).
    apply (H4 x); [|lia]. rewrite rev_append_rev, elem_of_app. left. apply list_elem_of_In, in_rev.
    rewrite rev_involutive. by apply list_elem_of_In.
Qed.

(** The bounds of the ranges, checked for each of the 256 clients. *)
Definition range_check (c : Z) : bool :=
  (range_lo c true =? c * 2 ^ 21 + (if c =? 0 then 32 else 2 ^ 30)) &&
  (range_hi c true =? c * 2 ^ 21 + 2 ^ 21 - 1 + (if c =? 0 then 0 else 2 ^ 30)) &&
  (Z.lor (u32 (Z.shiftl c CLIENTOFFSET)) (u32 (SERVER_BIT * 3)) =? c * 2 ^ 21 + 3 * 2 ^ 30) &&
  (Z.lor (c * 2 ^ 21) RESOURCE_ID_MASK =? c * 2 ^ 21 + 2 ^ 21 - 1).

Lemma range_bounds c :
  0 <= c < 256 ->
  range_lo c true = c * 2 ^ 21 + (if c =? 0 then 32 else 2 ^ 30) ∧
  range_hi c true = c * 2 ^ 21 + 2 ^ 21 - 1 + (if c =? 0 then 0 else 2 ^ 30) ∧
  Z.lor (u32 (Z.shiftl c CLIENTOFFSET)) (u32 (SERVER_BIT * 3)) = c * 2 ^ 21 + 3 * 2 ^ 30 ∧
  Z.lor (c * 2 ^ 21) RESOURCE_ID_MASK = c * 2 ^ 21 + 2 ^ 21 - 1.
Proof.
  intros Hc. assert (forallb (fun n => range_check (Z.of_nat n)) (seq 0 256) = true) as H by by vm_compute.
  rewrite forallb_forall in H. specialize (H (Z.to_nat c)). rewrite Z2Nat.id in H by lia.
  specialize (H ltac:(apply in_seq; lia)). unfold range_check in H. zbool. done.
Qed.

Lemma CLIENT_ID_in c j k : 0 <= c < 256 -> 0 <= k < 2 ^ 21 -> CLIENT_ID (c * 2 ^ 21 + k + j * 2 ^ 29) = c.
Proof.
  intros Hc Hk. rewrite CLIENT_ID_div.
  replace (c * 2 ^ 21 + k + j * 2 ^ 29) with (k + (c + j * 256) * 2 ^ 21) by lia.
  rewrite Z.div_add, (Z.div_small k) by lia. rewrite Z.add_0_l, Z.mod_add by lia. apply Z.mod_small. lia.
Qed.

Lemma CLIENT_ID_range_lo c id : 0 <= c < 256 -> range_lo c true <= id <= range_hi c true -> CLIENT_ID id = c.
Proof.
  intros Hc. destruct (range_bounds c Hc) as (-> & -> & _).
  intros Hid. destruct (Z.eqb_spec c 0) as [->|].
  - rewrite <- (CLIENT_ID_in 0 0 id) by lia. f_equal. lia.
  - rewrite <- (CLIENT_ID_in c 2 (id - c * 2 ^ 21 - 2 ^ 30)) by lia. f_equal. lia.
Qed.

(** ** Server-side identifiers *)

(** The identifiers that [FakeClientID] still has in store are unused. *)
Record fakes_ok (s : World) (c : Z) : Prop := {
  fk_lo : range_lo c true <= fakeID (rrec s c);
  fk_end : fakeID (rrec s c) <= endFakeID (rrec s c) <= range_hi c true + 1;
  fk_free j : fakeID (rrec s c) <= j < endFakeID (rrec s c) -> contents s j = []
}.

Lemma live_set_fake c r f e : live_ok c r -> live_ok c (set_fake r f e).
Proof. intros [Hs Hb Hl Hp Ha Hc He]. by split. Qed.

Lemma set_fake_world s c f e :
  world_ok s -> 0 <= c < 256 -> live_ok c (rrec s c) ->
  let s' := set_rrec s c (set_fake (rrec s c) f e) in
  world_ok s' ∧ rrec s' c = set_fake (rrec s c) f e ∧ ∀ id, contents s' id = contents s id.
Proof.
  intros Hs Hc Hr s'. split_and!.
  - apply world_ok_set; [done|done|right; by apply live_set_fake|]. by intros res; apply (wo_fresh s Hs c).
  - unfold s'. rewrite rrec_set by (done || lia). by rewrite Z.eqb_refl.
  - intros id. unfold contents, s'. rewrite rrec_set by (done || apply CLIENT_ID_range).
    by destruct (Z.eqb_spec (CLIENT_ID id) c) as [->|].
Qed.

Lemma unused_contents s c j : CLIENT_ID j = c -> ¬ used (rrec s c) j -> contents s j = [].
Proof.
  intros <- Hu. destruct (contents s j) as [|x l] eqn:E; [done|].
  exfalso. apply Hu, used_contents. by rewrite E.
Qed.

(** [FakeClientID] yields an identifier of the client's server-side range that no
    resource has, and never the same one twice in a row, without changing the database;
    when the stored range is used up it finds another one as long as any identifier of the
    range is unused, and only otherwise marks the client for exception with an identifier
    outside the protocol's range, or stops the server if the client is the server. *)
Theorem FakeClientID_correct s c :
  world_ok s -> 0 <= c < 256 -> live_ok c (rrec s c) -> fakes_ok s c ->
  (∃ id s', FakeClientID s c = Ok (id, s') ∧ world_ok s' ∧ (∀ j, contents s' j = contents s j) ∧
     CLIENT_ID id = c ∧ range_lo c true <= id <= range_hi c true ∧ contents s id = [] ∧
     fakes_ok s' c ∧ id < fakeID (rrec s' c)) ∨
  ((∀ j, range_lo c true <= j <= range_hi c true -> contents s j <> []) ∧
   (c = 0 -> FakeClientID s c = Err FatalError) ∧
   (c <> 0 -> ∃ s', FakeClientID s c = Ok (c * 2 ^ 21 + 3 * 2 ^ 30, s') ∧ log s' = log s ++ [ClientException c])).
Proof.
  intros Hs Hc Hr [Flo Fend Ffree]. pose proof (range_bounds c Hc) as (Elo & Ehi & Eem & _).
  assert (Hlohi : 0 < range_lo c true ∧ range_hi c true < 2 ^ 31).
  { rewrite Elo, Ehi. destruct (Z.eqb_spec c 0); lia. }
  unfold FakeClientID. cbn zeta. set (u := u32 (fakeID (rrec s c) + 1)).
  change (endFakeID (set_fake (rrec s c) u (endFakeID (rrec s c)))) with (endFakeID (rrec s c)).
  destruct (set_fake_world s c u (endFakeID (rrec s c)) Hs Hc Hr) as (Hs1 & Hr1 & Hc1).
  set (s1 := set_rrec s c _) in *.
  destruct (Z.eqb_spec (fakeID (rrec s c)) (endFakeID (rrec s c))) as [Ee|Hne]; simpl.
  2: { left. do 2 eexists. split_and!; [done|done|done| |lia|lia|apply Ffree; lia| |].
       - apply CLIENT_ID_range_lo; [done|lia].
       - unfold u in *. split; rewrite Hr1; unfold set_fake; cbn [fakeID endFakeID]; rewrite ?u32_small by lia; try lia.
         intros j Hj. rewrite Hc1. apply Ffree. lia.
       - rewrite Hr1. unfold set_fake. cbn [fakeID]. unfold u. rewrite u32_small by lia. lia. }
  assert (Hl1 : live_ok c (rrec s1 c)) by (rewrite Hr1; by apply live_set_fake).
  assert (Hused : ∀ j, used (rrec s1 c) j <-> used (rrec s c) j) by (intros; rewrite Hr1; done).
  destruct (GetXIDRange_ok s1 c true Hl1) as (id & maxid & -> & Hrange); [lia..|]. simpl.
  destruct Hrange as [(-> & -> & Hall)|(H1 & H2 & H3 & Hfree)]; simpl.
  - right. split_and!.
    + intros j Hj. pose proof (CLIENT_ID_range_lo c j Hc Hj) as Hid. apply used_contents. rewrite Hid. by apply Hused, Hall.
    + by intros ->.
    + intros Hne. destruct (Z.eqb_spec c 0); [done|]. rewrite Eem. eexists. split; [done|]. done.
  - left. destruct (Z.eqb_spec id 0); [lia|]. simpl.
    destruct (set_fake_world s1 c (u32 (id + 1)) (u32 (maxid + 1)) Hs1 Hc Hl1) as (Hs2 & Hr2 & Hc2).
    assert (Hfree' : ∀ j, id <= j <= maxid -> contents s j = []).
    { intros j Hj. apply (unused_contents s c); [apply CLIENT_ID_range_lo; [done|lia]|].
      intros Hu. by apply (Hfree j Hj), Hused. }
    set (s2 := set_rrec s1 c _) in *.
    exists id, s2. split_and!; [done|done| | |lia|lia|apply Hfree'; lia| |].
    + intros j. by rewrite Hc2.
    + apply CLIENT_ID_range_lo; [done|lia].
    + split; rewrite Hr2; unfold set_fake; cbn [fakeID endFakeID]; rewrite ?u32_small by lia; try lia.
      intros j Hj. rewrite Hc2, Hc1. apply Hfree'. lia.
    + rewrite Hr2. unfold set_fake. cbn [fakeID]. rewrite u32_small by lia. lia.
Qed.

(** [InitClientResources] puts the whole range in store. *)
Lemma InitClientResources_fakes s client s' :
  world_ok s -> 0 <= index client < 256 -> clientAsMask client = Z.shiftl (index client) CLIENTOFFSET ->
  InitClientResources s client = (true, s') ->
  fakes_ok s' (index client) ∧ live_ok (index client) (rrec s' (index client)).
Proof.
  intros Hs Hc Hm. unfold InitClientResources.
  set (init := if index client =? 0 then _ else _).
  assert (Hlen : length (clientTable init.2) = 256%nat).
  { unfold init. destruct (index client =? 0); [|apply Hs]. destruct (xalloc s) as [o s1] eqn:E.
    pose proof (proj1 (xalloc_spec _ _ _ E)) as Ht. destruct o; simpl; rewrite Ht; apply Hs. }
  clearbody init. destruct init as [ok s1]. simpl in Hlen. destruct ok; cbn [negb]; [|done].
  destruct (xalloc s1) as [[a|] s2] eqn:E; [|done]. pose proof (proj1 (xalloc_spec _ _ _ E)) as Ht.
  set (fake := Z.lor (clientAsMask client) _). intros [= <-].
  assert (Efake : fake = range_lo (index client) true).
  { unfold fake, range_lo. rewrite Hm, u32_small; [done|]. rewrite Z.shiftl_mul_pow2 by done.
    change (2 ^ CLIENTOFFSET) with (2 ^ 21). lia. }
  pose proof (range_bounds _ Hc) as (Elo & Ehi & _).
  set (r' := mkCRR _ _ _ _ _ _ _ _).
  assert (Hr : rrec (set_rrec s2 (index client) r') (index client) = r').
  { unfold rrec, set_rrec. cbn [set_table clientTable]. rewrite list_lookup_insert_eq; [done|]. rewrite Ht, Hlen. lia. }
  assert (Hend : endFakeID r' = range_hi (index client) true + 1).
  { unfold r'. cbn [endFakeID]. rewrite Efake. fold (range_hi (index client) true). rewrite u32_small; [done|].
    rewrite Ehi. destruct (index client =? 0); lia. }
  split; [split; rewrite Hr|rewrite Hr; by apply (InitClientResources_table_live (index client))].
  - unfold r'. cbn [fakeID]. lia.
  - rewrite Hend. unfold r'. cbn [fakeID]. rewrite Efake, Elo, Ehi. destruct (index client =? 0); lia.
  - rewrite Hend. unfold r' at 1. cbn [fakeID]. intros j Hj.
    unfold contents. rewrite (CLIENT_ID_range_lo (index client)), Hr by lia. done.
Qed.

Lemma demo0_fakes : fakes_ok demo0 1 ∧ live_ok 1 (rrec demo0 1).
Proof.
  destruct (InitClientResources blank client1) as [b s] eqn:E.
  assert (b = true) as -> by (by vm_compute in E; injection E).
  pose proof (InitClientResources_fakes blank client1 s blank_ok) as H. unfold demo0. rewrite E. simpl.
  apply H; [by vm_compute|done|done].
Qed.

Lemma FakeClientID_correct_witness :
  (∃ id s', FakeClientID demo0 1 = Ok (id, s') ∧ world_ok s' ∧ (∀ j, contents s' j = contents demo0 j) ∧
     CLIENT_ID id = 1 ∧ range_lo 1 true <= id <= range_hi 1 true ∧ contents demo0 id = [] ∧
     fakes_ok s' 1 ∧ id < fakeID (rrec s' 1)) ∨
  ((∀ j, range_lo 1 true <= j <= range_hi 1 true -> contents demo0 j <> []) ∧
   (1 = 0 -> FakeClientID demo0 1 = Err FatalError) ∧
   (1 <> 0 -> ∃ s', FakeClientID demo0 1 = Ok (1 * 2 ^ 21 + 3 * 2 ^ 30, s') ∧ log s' = log demo0 ++ [ClientException 1])).
Proof. apply (FakeClientID_correct demo0 1 demo0_ok); [lia|apply demo0_fakes..]. Defined.

(** ** Identifiers that clients choose *)

Section Lookup.
Context (XaceHook : Z -> XID -> RESTYPE -> Z -> pointer -> bool).

(** What [LookupIDByClass(id, RC_ANY)] returns: the value of the newest resource
    with a type other than 0. *)
Definition value_of (s : World) (id : XID) : pointer :=
  from_option r_value 0 (List.find (fun res => has (r_type res) RC_ANY) (contents s id)).

Lemma LookupIDByClass_any s id : world_ok s -> LookupIDByClass XaceHook s id RC_ANY = Ok (value_of s id).
Proof.
  intros Hs. unfold LookupIDByClass, SecurityLookupIDByClass. rewrite lookup_first_ok by done. simpl.
  unfold value_of. by destruct (List.find _ _).
Qed.

Lemma land_lnot_mask id : Z.land id (Z.lnot RESOURCE_ID_MASK) = id / 2 ^ 21 * 2 ^ 21.
Proof.
  change RESOURCE_ID_MASK with (Z.ones 21). rewrite <- Z.ldiff_land, Z.ldiff_ones_r by lia.
  by rewrite Z.shiftl_mul_pow2, Z.shiftr_div_pow2 by lia.
Qed.

Lemma client_id_no_server id c : 0 <= c < 256 -> id / 2 ^ 21 = c -> 0 <= id -> Z.land id SERVER_BIT = 0.
Proof.
  intros Hc Hid Hpos.
  assert (id < 2 ^ 29).
  { pose proof (Z.div_mod id (2 ^ 21)). pose proof (Z.mod_pos_bound id (2 ^ 21)). lia. }
  change SERVER_BIT with (2 ^ 30). apply Z.bits_inj'. intros n Hn. rewrite Z.land_spec, Z.bits_0, Z.pow2_bits_eqb by lia.
  destruct (Z.eqb_spec 30 n) as [<-|]; [|by rewrite andb_false_r]. rewrite andb_true_r.
  destruct (Z.eq_dec id 0) as [->|]; [apply Z.bits_0|].
  apply Z.bits_above_log2; [lia|]. apply Z.log2_lt_pow2; lia.
Qed.

(** [LegalNewID] accepts exactly the identifiers of the client's own range under
    which a lookup finds no value; comparing with [expectID] first never changes the
    answer. *)
Theorem LegalNewID_correct s id client :
  world_ok s -> 0 <= id < 2 ^ 32 -> 0 <= index client < 256 -> clientAsMask client = Z.shiftl (index client) CLIENTOFFSET ->
  live_ok (index client) (rrec s (index client)) ->
  ∃ b, LegalNewID XaceHook s id client = Ok b ∧
    (b = true <-> index client * 2 ^ 21 <= id < (index client + 1) * 2 ^ 21 ∧ value_of s id = 0).
Proof.
  intros Hs Hid Hi Hm Hr. unfold LegalNewID. rewrite land_lnot_mask, Hm, Z.shiftl_mul_pow2 by done.
  change (2 ^ CLIENTOFFSET) with (2 ^ 21).
  destruct (Z.eqb_spec (index client * 2 ^ 21) (id / 2 ^ 21 * 2 ^ 21)) as [E|Hne]; cbn [negb].
  2: { exists false. split; [done|]. split; [done|]. intros [Hrange _]. exfalso. apply Hne.
       f_equal. apply (Z.div_unique_pos _ _ _ (id - index client * 2 ^ 21)); lia. }
  assert (Ediv : id / 2 ^ 21 = index client) by lia.
  assert (Hrange : index client * 2 ^ 21 <= id < (index client + 1) * 2 ^ 21).
  { pose proof (Z.div_mod id (2 ^ 21)). pose proof (Z.mod_pos_bound id (2 ^ 21)). lia. }
  destruct (Z.leb_spec (expectID (rrec s (index client))) id) as [Hexp|].
  - exists true. split; [done|]. split; [|done]. intros _. split; [done|].
    unfold value_of. assert (CLIENT_ID id = index client) as Hc by (rewrite CLIENT_ID_div, Ediv; apply Z.mod_small; lia).
    destruct (contents s id) as [|x l] eqn:Ex; [done|]. exfalso.
    assert (used (rrec s (index client)) id) as (y & Hy & Hyid) by (rewrite <- Hc; apply used_contents; by rewrite Ex).
    pose proof (lo_expect _ _ Hr y Hy) as Hlt. rewrite Hyid in Hlt.
    specialize (Hlt (client_id_no_server id _ Hi Ediv ltac:(lia))). lia.
  - rewrite LookupIDByClass_any by done. simpl. exists (value_of s id =? 0). split; [done|].
    rewrite Z.eqb_eq. tauto.
Qed.

Lemma xid_list_ok s n k id :
  world_ok s ->
  xid_list XaceHook n s k id = Ok (take k (filter (fun id => value_of s id = 0) (seqZ id (Z.of_nat n)))).
Proof.
  intros Hs. revert k id. induction n as [|n IH]; intros k id.
  { rewrite seqZ_nil, filter_nil, take_nil by done. done. }
  rewrite Nat2Z.inj_succ, seqZ_cons, Z.pred_succ by lia.
  destruct k as [|k]; [done|]. cbn [xid_list]. rewrite LookupIDByClass_any by done. simpl.
  change (Z.succ id) with (id + 1). rewrite filter_cons.
  destruct (Z.eqb_spec (value_of s id) 0); [rewrite decide_True by done|rewrite decide_False by done].
  - by rewrite (IH k (id + 1)).
  - apply (IH (S k) (id + 1)).
Qed.

(** [GetXIDList] returns the first [count] identifiers of the client's range under which
    a lookup finds no value, in increasing order. *)
Lemma GetXIDList_ok s client count :
  world_ok s -> 0 <= index client < 256 -> clientAsMask client = index client * 2 ^ 21 ->
  GetXIDList XaceHook s client count =
    Ok (take (Z.to_nat count) (filter (fun id => value_of s id = 0) (seqZ (index client * 2 ^ 21) (2 ^ 21)))).
Proof.
  intros Hs Hi Hm. unfold GetXIDList. rewrite Hm. destruct (range_bounds _ Hi) as (_ & _ & _ & ->).
  rewrite xid_list_ok by done. do 4 f_equal. lia.
Qed.

End Lookup.

Lemma LegalNewID_correct_witness :
  ∃ b, LegalNewID (fun _ _ _ _ _ => true) demo0 (id1 9) client1 = Ok b ∧
    (b = true <-> index client1 * 2 ^ 21 <= id1 9 < (index client1 + 1) * 2 ^ 21 ∧ value_of demo0 (id1 9) = 0).
Proof.
  apply (LegalNewID_correct _ demo0 (id1 9) client1 demo0_ok);
    [by vm_compute|by vm_compute|done|apply demo0_fakes].
Defined.
