(* ===== verification/ResourceClient.v ===== *)
(** * ResourceClient: operations on all resources of a client (dix/resource.c)

    [FreeClientResources] and [FreeClientNeverRetainResources], which run when a
    client goes away, and the enumerations. *)

From S2P Require Import Prelude ResourceDB ResourceProofs ResourceFree ResourceFreeProofs ResourceInit ResourceTheorems.

(** ** Loops over the buckets *)

Section Buckets.
Context (cid : Z) (b : Z) (body : World -> Z -> result World) (I : nat -> World -> Prop).
Hypothesis I_buckets : ∀ j s, I j s -> buckets (rrec s cid) = b.
Hypothesis I_step : ∀ j s, I j s -> Z.of_nat j < b -> ∃ s', body s (Z.of_nat j) = Ok s' ∧ I (S j) s'.

Lemma each_bucket_ok n j s :
  I j s -> Z.of_nat j <= b -> (Z.to_nat b - j < n)%nat ->
  ∃ s', each_bucket n body s cid (Z.of_nat j) = Ok s' ∧ I (Z.to_nat b) s'.
Proof.
  revert j s. induction n as [|n IH]; intros j s HI Hj Hn; [lia|]. cbn [each_bucket].
  rewrite (I_buckets _ _ HI). destruct (Z.ltb_spec (Z.of_nat j) b).
  - destruct (I_step j s HI) as (s1 & -> & H1); [done|]. simpl.
    replace (Z.of_nat j + 1) with (Z.of_nat (S j)) by lia. apply IH; [done|lia..].
  - exists s. split; [done|]. by replace (Z.to_nat b) with j by lia.
Qed.

Lemma all_buckets_ok s :
  I 0 s -> 0 <= b -> ∃ s', all_buckets s cid body = Ok s' ∧ I (Z.to_nat b) s'.
Proof.
  intros HI Hb. unfold all_buckets. rewrite (I_buckets _ _ HI).
  apply (each_bucket_ok _ 0%nat); [done|lia..].
Qed.

End Buckets.

(** ** FreeClientResources *)

(** The chains before [j] are empty. *)
Definition drained (r : ClientResourceRec) (j : nat) : Prop :=
  ∀ i chain, (i < j)%nat -> resources r !! i = Some chain -> chain = [].

Lemma drained_sub r r' j : sub_rec r r' -> drained r j -> drained r' j.
Proof.
  intros Hsub Hd i chain Hi Hch. destruct (Forall2_lookup_l _ _ _ _ _ (sub_nodes _ _ Hsub) Hch) as (l & Hl & Hs).
  rewrite (Hd i l Hi Hl) in Hs. by apply sublist_nil_r in Hs.
Qed.

Section Safe.
Context (run : DeleteType -> pointer -> XID -> World -> result World) `{!SafeDelete run}.

Lemma chain_after s s' cid i chain :
  shrinks false s s' -> 0 <= cid < 256 -> resources (rrec s cid) !! i = Some chain ->
  ∃ chain', resources (rrec s' cid) !! i = Some chain' ∧ chain' `sublist_of` chain.
Proof.
  intros Hsh Hc Hi. apply (Forall2_lookup_r _ _ _ _ _ (sub_nodes _ _ (sh_rec _ _ _ Hsh cid Hc)) Hi).
Qed.

(** Draining one chain: whatever the deletion procedures remove, it ends, and empty. *)
Lemma drain_loop_safe fuel s cid arr i chain :
  world_ok s -> typed s -> 0 <= cid < 256 -> live_ok cid (rrec s cid) -> array (rrec s cid) = arr ->
  resources (rrec s cid) !! i = Some chain -> (length chain < fuel)%nat ->
  ∃ s', drain_loop run fuel s cid arr (Z.of_nat i) = Ok s' ∧ world_ok s' ∧ shrinks false s s' ∧
    resources (rrec s' cid) !! i = Some [].
Proof.
  revert s chain. induction fuel as [|fuel IH]; intros s chain Hs Ht Hc Hr Harr Hi Hfuel; [lia|].
  cbn [drain_loop]. pose proof (load_ok cid (rrec s cid) i [] chain Hr Hi) as Hload. simpl in Hload.
  subst arr. rewrite Hload. destruct chain as [|x chain]; simpl.
  { exists s. by split_and!. }
  pose proof (lo_count _ _ Hr).
  destruct (unlink_ok false s cid i [] x chain (elements (rrec s cid))) as (Hr1 & Hs1 & Hl1 & Hsh1 & _); [done..|lia|done|].
  destruct (dispose_safe run (unlink s cid x (elements (rrec s cid))) x true Hs1) as (s2 & -> & Hs2 & Hsh2).
  { by eapply typed_shrinks. }
  { rewrite (sh_registry _ _ _ Hsh1). apply (Ht cid); [done|]. apply elem_of_concat. exists i, (x :: chain).
    split; [done|left]. }
  simpl. apply shrinks_weaken in Hsh2.
  destruct (chain_after _ _ cid i chain Hsh2 Hc) as (chain2 & Hch2 & Hlen%sublist_length).
  { rewrite Hr1. simpl. apply list_lookup_insert_eq. by eapply lookup_lt_Some. }
  assert (Hsh : shrinks false s s2) by (by etrans).
  destruct (IH s2 chain2 Hs2) as (s' & E & Hs' & Hsh' & Hi'); try done.
  - by eapply typed_shrinks.
  - by eapply live_shrinks.
  - by rewrite (sub_array _ _ (sh_rec _ _ _ Hsh cid Hc)).
  - simpl in Hfuel. lia.
  - exists s'. split_and!; [|done|by etrans|done].
    exact E.
Qed.

(** [HandleSaveSet] may free resources too. *)
Context (HandleSaveSet : Z -> World -> result World).
Hypothesis HandleSaveSet_safe : ∀ c s, world_ok s -> typed s ->
  ∃ s', HandleSaveSet c s = Ok s' ∧ world_ok s' ∧ shrinks true s s'.

(** C20: when a client goes away [FreeClientResources] removes every resource it owns,
    whatever other resources the deletion procedures free with [FreeResource] on the way: it terminates,
    follows no dangling pointer, leaves the client's table released and not in use, never
    adds a resource to another client, and keeps the tables well formed. The deletion
    procedures must satisfy [SafeDelete] and [HandleSaveSet] the same contract (the hypothesis
    [HandleSaveSet_safe]): each call returns, keeps the tables well formed, adds no resource,
    registers no type, and takes a resource away only in the way of [FreeResource], which lowers the
    counter [elements] with each. Procedures that use [FreeResourceByType], as
    [DRI2DrawableGone] does, take nodes away without lowering the counter and do not satisfy it. *)
Theorem FreeClientResources_safe s client :
  world_ok s -> typed s -> 0 <= index client < 256 -> live_ok (index client) (rrec s (index client)) ->
  ∃ s', FreeClientResources run HandleSaveSet s (Some client) = Ok s' ∧ world_ok s' ∧
    (∀ id, CLIENT_ID id = index client -> contents s' id = [] ∧ ¬ in_use s' id) ∧
    (∀ id, CLIENT_ID id <> index client -> contents s' id `sublist_of` contents s id).
Proof.
  intros Hs Ht Hc Hr. cbn [FreeClientResources]. set (cid := index client) in *.
  destruct (HandleSaveSet_safe cid s Hs Ht) as (s1 & -> & Hs1 & Hsh1). cbn [mbind result_bind].
  apply shrinks_weaken in Hsh1.
  pose proof (live_shrinks _ _ _ _ Hs1 Hc Hr Hsh1) as Hr1.
  pose (I := fun (j : nat) (s2 : World) => world_ok s2 ∧ shrinks false s1 s2 ∧ drained (rrec s2 cid) j).
  destruct (all_buckets_ok cid (buckets (rrec s1 cid))
    (fun s j => drain_loop run (S (table_size s cid)) s cid (array (rrec s1 cid)) j) I) with (s := s1) as (s2 & -> & HI).
  - intros j s2 (_ & Hsh & _). apply (sub_buckets _ _ (sh_rec _ _ _ Hsh cid Hc)).
  - intros j s2 (Hs2 & Hsh2 & Hd) Hj. pose proof (live_shrinks _ _ _ _ Hs2 Hc Hr1 Hsh2) as Hr2.
    destruct (lookup_lt_is_Some_2 (resources (rrec s2 cid)) j) as [chain Hch].
    { pose proof (lo_len _ _ Hr2). rewrite (sub_buckets _ _ (sh_rec _ _ _ Hsh2 cid Hc)) in *. lia. }
    destruct (drain_loop_safe (S (table_size s2 cid)) s2 cid (array (rrec s1 cid)) j chain) as (s3 & E & Hs3 & Hsh3 & Hj3); try done.
    + eapply typed_shrinks; [exact Hsh2|]. by eapply typed_shrinks.
    + apply (sub_array _ _ (sh_rec _ _ _ Hsh2 cid Hc)).
    + pose proof (chain_size _ _ _ Hch). unfold table_size, nodes in *. lia.
    + exists s3. split; [done|]. split_and!; [done|by etrans|]. intros i l Hi Hl.
      destruct (decide (i = j)) as [->|]; [congruence|].
      apply (drained_sub _ _ _ (sh_rec _ _ _ Hsh3 cid Hc) Hd i l); [lia|done].
  - split_and!; [done|done|]. intros i l Hi. lia.
  - pose proof (lo_len _ _ Hr1). lia.
  - cbn [mbind result_bind]. destruct HI as (Hs2 & Hsh2 & Hd). set (r' := mkCRR 0 [] _ 0 _ _ _ _).
    assert (Hw : world_ok (set_rrec s2 cid r')).
    { apply world_ok_set; [done|done|by left|]. by intros res ?%elem_of_nil. }
    assert (Hrec : ∀ id, rrec (set_rrec s2 cid r') (CLIENT_ID id) = if CLIENT_ID id =? cid then r' else rrec s2 (CLIENT_ID id)).
    { intros id. apply rrec_set; [done|done|]. apply CLIENT_ID_range. }
    eexists. split; [done|]. split_and!; [by apply world_ok_emit| |]; intros id Hid.
    + rewrite (contents_frame (set_rrec s2 cid r')) by done. unfold contents, in_use.
      rewrite (rrec_frame (set_rrec s2 cid r') (emit _ _)), Hrec, Hid, Z.eqb_refl by done. split; [done|]. by intros H.
    + rewrite (contents_frame (set_rrec s2 cid r')) by done.
      assert (contents (set_rrec s2 cid r') id = contents s2 id) as ->.
      { unfold contents. rewrite Hrec. by destruct (Z.eqb_spec (CLIENT_ID id) cid). }
      transitivity (contents s1 id); by apply shrinks_contents with (b := false).
Qed.

End Safe.

(** ** One pass over the buckets, with deletion procedures that leave the database alone *)

Section Pass.
Context (run : DeleteType -> pointer -> XID -> World -> result World) `{!LeafDelete run}.
Context (N : ResourceRec -> bool).

Definition keep (chain : list ResourceRec) : list ResourceRec := filter (fun x => N x = false) chain.
Definition gone (chain : list ResourceRec) : list ResourceRec := filter (fun x => N x = true) chain.
Definition disposals (g : TypeRegistry) (l : list ResourceRec) : list Event := concat (map (disposal g true) l).

Lemma disposals_app g l l' : disposals g (l ++ l') = disposals g l ++ disposals g l'.
Proof. unfold disposals. by rewrite map_app, concat_app. Qed.

Lemma gone_app l l' : gone (l ++ l') = gone l ++ gone l'.
Proof. apply filter_app. Qed.

Lemma keep_sublist (t : list (list ResourceRec)) : Forall2 sublist (map keep t) t.
Proof. induction t; simpl; constructor; [apply sublist_filter|done]. Qed.

(** The table when the first [j] chains have been treated. *)
Definition passed (t : list (list ResourceRec)) (j : nat) : list (list ResourceRec) :=
  map keep (take j t) ++ drop j t.

Lemma passed_sub t j : Forall2 sublist (passed t j) t.
Proof.
  unfold passed. rewrite <- (take_drop j t) at 3. apply Forall2_app; [apply keep_sublist|].
  by apply Forall_Forall2_diag, Forall_true.
Qed.

Lemma passed_step t j chain :
  t !! j = Some chain -> passed t j !! j = Some chain ∧ <[j := keep chain]> (passed t j) = passed t (S j).
Proof.
  intros Hj. pose proof (lookup_lt_Some _ _ _ Hj) as Hlt. unfold passed.
  assert (Hlen : length (map keep (take j t)) = j) by (rewrite length_map, length_take; lia).
  rewrite (drop_S t chain j) by done. split.
  - rewrite lookup_app_r by lia. by rewrite Hlen, Nat.sub_diag.
  - rewrite insert_app_r_alt by lia. rewrite Hlen, Nat.sub_diag. simpl.
    rewrite (take_S_r t j chain) by done. rewrite map_app, <- (assoc_L (++)). done.
Qed.

Context (s0 : World) (cid : Z) (body : World -> Z -> result World).
Hypothesis s0_ok : world_ok s0.
Hypothesis s0_typed : typed s0.
Hypothesis cid_range : 0 <= cid < 256.
Hypothesis cid_live : live_ok cid (rrec s0 cid).

(** The body treats one chain. *)
Hypothesis body_ok : ∀ s i chain,
  world_ok s -> typed s -> live_ok cid (rrec s cid) -> array (rrec s cid) = array (rrec s0 cid) ->
  resources (rrec s cid) !! i = Some chain ->
  ∃ s', body s (Z.of_nat i) = Ok s' ∧
    removed s s' cid (<[i := keep chain]> (resources (rrec s cid))) (elements (rrec s cid))
      (disposals (registry s) (gone chain)).

Lemma removed_sub s s' table elts evs :
  removed s s' cid table elts evs -> Forall2 sublist table (resources (rrec s cid)) -> sub_rec (rrec s cid) (rrec s' cid).
Proof. intros [-> _ _ _ _ _ _] Hsub. by split. Qed.

Lemma removed_typed s s' table elts evs :
  removed s s' cid table elts evs -> Forall2 sublist table (resources (rrec s cid)) -> typed s -> typed s'.
Proof.
  intros Hrm Hsub Ht c res Hc Hres. rewrite (rm_registry _ _ _ _ _ _ Hrm).
  destruct (decide (c = cid)) as [->|Hne].
  - apply (Ht cid); [done|]. by apply (sub_elem _ _ _ (removed_sub _ _ _ _ _ Hrm Hsub)).
  - apply (Ht c); [done|]. by rewrite (rm_other _ _ _ _ _ _ Hrm c Hc Hne) in Hres.
Qed.

Lemma removed_live s s' table elts evs :
  removed s s' cid table elts evs -> live_ok cid (rrec s cid) -> live_ok cid (rrec s' cid).
Proof.
  intros Hrm Hr. destruct (wo_table s' (rm_ok _ _ _ _ _ _ Hrm) cid cid_range) as [[Hb _]|]; [|done].
  rewrite (rm_rrec _ _ _ _ _ _ Hrm) in Hb. simpl in Hb. pose proof (lo_buckets _ _ Hr). pose proof (lo_size _ _ Hr).
  assert (0 < 2 ^ hashsize (rrec s cid)) by (apply Z.pow_pos_nonneg; lia). lia.
Qed.

Lemma pass_ok :
  ∃ s', all_buckets s0 cid body = Ok s' ∧
    removed s0 s' cid (map keep (resources (rrec s0 cid))) (elements (rrec s0 cid))
      (disposals (registry s0) (gone (nodes (rrec s0 cid)))).
Proof.
  set (t := resources (rrec s0 cid)).
  pose (I := fun (j : nat) (s : World) =>
    removed s0 s cid (passed t j) (elements (rrec s0 cid)) (disposals (registry s0) (gone (concat (take j t))))).
  destruct (all_buckets_ok cid (buckets (rrec s0 cid)) body I) with (s := s0) as (s' & E & HI).
  - intros j s HI. by rewrite (rm_rrec _ _ _ _ _ _ HI).
  - intros j s HI Hj. pose proof (lo_len _ _ cid_live).
    destruct (lookup_lt_is_Some_2 t j) as [chain Hch]; [unfold t; lia|].
    destruct (passed_step t j chain Hch) as [Hpj Hpi].
    pose proof (rm_rrec _ _ _ _ _ _ HI) as Hrr.
    destruct (body_ok s j chain) as (s' & E & Hrm); try done.
    + apply HI.
    + by apply (removed_typed _ _ _ _ _ HI (passed_sub t j)).
    + by apply (removed_live _ _ _ _ _ HI).
    + by rewrite Hrr.
    + by rewrite Hrr.
    + exists s'. split; [done|]. rewrite Hrr in Hrm. simpl in Hrm. rewrite Hpi in Hrm.
      rewrite (rm_registry _ _ _ _ _ _ HI) in Hrm. unfold I.
      rewrite (take_S_r t j chain), concat_app, gone_app, disposals_app by done. simpl. rewrite app_nil_r.
      by apply (removed_trans s0 s s' cid (passed t j) (elements (rrec s0 cid))).
  - unfold I, passed. rewrite take_0, drop_0. by apply removed_refl.
  - pose proof (lo_len _ _ cid_live). lia.
  - exists s'. split; [done|]. unfold I, passed in HI.
    pose proof (lo_len _ _ cid_live). replace (Z.to_nat (buckets (rrec s0 cid))) with (length t) in HI by (unfold t; lia).
    rewrite firstn_all, drop_all, app_nil_r in HI. done.
Qed.

End Pass.

Section LeafClient.
Context (run : DeleteType -> pointer -> XID -> World -> result World) `{!LeafDelete run}.

Definition never_retain (x : ResourceRec) : bool := has (r_type x) RC_NEVERRETAIN.

(** The two loops treat one chain as [pass_ok] asks. *)
Lemma never_loop_leaf fuel s cid arr i pre post :
  world_ok s -> typed s -> 0 <= cid < 256 -> live_ok cid (rrec s cid) -> array (rrec s cid) = arr ->
  resources (rrec s cid) !! i = Some (pre ++ post) -> (length post < fuel)%nat ->
  ∃ s', never_loop run fuel s cid arr (Z.of_nat i) (r_addr <$> last pre) = Ok s' ∧
    removed s s' cid (<[i := pre ++ keep never_retain post]> (resources (rrec s cid))) (elements (rrec s cid))
      (disposals (registry s) (gone never_retain post)).
Proof.
  revert s pre post. induction fuel as [|fuel IH]; intros s pre post Hs Ht Hc Hr Harr Hi Hfuel; [lia|].
  cbn [never_loop]. subst arr. rewrite (load_ok cid _ i pre post Hr Hi). cbn [mbind result_bind].
  destruct post as [|x post]; cbn [head].
  { exists s. split; [done|]. rewrite list_insert_id by done. by apply removed_refl. }
  simpl in Hfuel. unfold keep, gone. fold (never_retain x). destruct (never_retain x) eqn:Hx.
  2: { pose proof Hi as Hi'. rewrite cons_middle, (assoc_L (++)) in Hi'.
       destruct (IH s (pre ++ [x]) post) as (s' & E & H); try done; [lia|].
       rewrite last_snoc in E. simpl in E. exists s'. split; [done|].
       rewrite filter_cons_True, filter_cons_False by (rewrite Hx; done).
       by rewrite <- (assoc_L (++)) in H. }
  rewrite filter_cons_False, filter_cons_True by (rewrite Hx; done).
  pose proof (lo_count _ _ Hr) as Hcount.
  destruct (unlink_dispose run s cid i pre x post (elements (rrec s cid)) true) as (s1 & -> & Hrm & Hl1);
    [done..| |done|lia|].
  { apply (Ht cid); [done|]. apply elem_of_concat. exists i, (pre ++ x :: post). split; [done|].
    apply elem_of_app. right. left. }
  cbn [mbind result_bind]. pose proof (rm_rrec _ _ _ _ _ _ Hrm) as R1.
  destruct (IH s1 pre post) as (s2 & -> & Hrm2); try done.
  - apply Hrm.
  - apply (removed_typed cid s s1 _ _ _ Hrm); [|done].
    apply (sub_nodes _ _ (sub_rec_unlink (rrec s cid) i pre x post 0 Hi)).
  - by rewrite R1.
  - rewrite R1. simpl. apply list_lookup_insert_eq. by eapply lookup_lt_Some.
  - lia.
  - exists s2. split; [done|]. rewrite R1, (rm_registry _ _ _ _ _ _ Hrm) in Hrm2.
    cbn [set_resources resources elements] in Hrm2. rewrite list_insert_insert_eq in Hrm2.
    by apply (removed_trans s s1 s2 cid (<[i:=pre ++ post]> (resources (rrec s cid))) (elements (rrec s cid))).
Qed.

Lemma drain_loop_leaf fuel s cid arr i chain :
  world_ok s -> typed s -> 0 <= cid < 256 -> live_ok cid (rrec s cid) -> array (rrec s cid) = arr ->
  resources (rrec s cid) !! i = Some chain -> (length chain < fuel)%nat ->
  ∃ s', drain_loop run fuel s cid arr (Z.of_nat i) = Ok s' ∧
    removed s s' cid (<[i := []]> (resources (rrec s cid))) (elements (rrec s cid)) (disposals (registry s) chain).
Proof.
  revert s chain. induction fuel as [|fuel IH]; intros s chain Hs Ht Hc Hr Harr Hi Hfuel; [lia|].
  cbn [drain_loop]. pose proof (load_ok cid (rrec s cid) i [] chain Hr Hi) as Hload. simpl in Hload.
  subst arr. rewrite Hload. cbn [mbind result_bind]. destruct chain as [|x chain]; cbn [head].
  { exists s. split; [done|]. rewrite list_insert_id by done. by apply removed_refl. }
  simpl in Hfuel. pose proof (lo_count _ _ Hr) as Hcount.
  destruct (unlink_dispose run s cid i [] x chain (elements (rrec s cid)) true) as (s1 & -> & Hrm & Hl1);
    [done..| |done|lia|].
  { apply (Ht cid); [done|]. apply elem_of_concat. exists i, (x :: chain). split; [done|left]. }
  cbn [mbind result_bind]. pose proof (rm_rrec _ _ _ _ _ _ Hrm) as R1.
  destruct (IH s1 chain) as (s2 & -> & Hrm2); try done.
  - apply Hrm.
  - apply (removed_typed cid s s1 _ _ _ Hrm); [|done].
    apply (sub_nodes _ _ (sub_rec_unlink (rrec s cid) i [] x chain 0 Hi)).
  - by rewrite R1.
  - rewrite R1. simpl. apply list_lookup_insert_eq. by eapply lookup_lt_Some.
  - lia.
  - exists s2. split; [done|]. rewrite R1, (rm_registry _ _ _ _ _ _ Hrm) in Hrm2.
    cbn [set_resources resources elements] in Hrm2. rewrite list_insert_insert_eq in Hrm2.
    by apply (removed_trans s s1 s2 cid (<[i:=chain]> (resources (rrec s cid))) (elements (rrec s cid))).
Qed.

End LeafClient.

Lemma keep_concat N t : concat (map (keep N) t) = keep N (concat t).
Proof. induction t as [|l t IH]; [done|]. simpl. unfold keep in *. by rewrite filter_app, IH. Qed.

Lemma keep_everything chain : keep (fun _ => true) chain = [].
Proof. by apply filter_none. Qed.

Lemma gone_everything chain : gone (fun _ => true) chain = chain.
Proof. by apply list_filter_all. Qed.

Lemma rounds_gt s cid i chain :
  resources (rrec s cid) !! i = Some chain -> (length chain < rounds (table_size s cid))%nat.
Proof. intros Hi. pose proof (chain_size _ _ _ Hi). unfold rounds, table_size, nodes in *. lia. Qed.

(** with deletion procedures that leave the database alone, [FreeClientResources]
    disposes of each resource of the client exactly once, bucket by bucket and newest
    first within a bucket - cache flush, deletion procedure of its type, free - and then
    frees the array. *)
Theorem FreeClientResources_order run HandleSaveSet s s1 client `{!LeafDelete run} :
  HandleSaveSet (index client) s = Ok s1 -> world_ok s1 -> typed s1 -> 0 <= index client < 256 ->
  live_ok (index client) (rrec s1 (index client)) ->
  ∃ s', FreeClientResources run HandleSaveSet s (Some client) = Ok s' ∧
    log s' = log s1 ++ disposals (registry s1) (nodes (rrec s1 (index client))) ++
             [FreeArray (array (rrec s1 (index client)))].
Proof.
  intros HS Hs Ht Hc Hr. cbn [FreeClientResources]. rewrite HS. cbn [mbind result_bind].
  set (cid := index client) in *.
  destruct (pass_ok (fun _ => true) s1 cid
    (fun s j => drain_loop run (S (table_size s cid)) s cid (array (rrec s1 cid)) j) Hs Ht Hc Hr) as (s2 & -> & Hrm).
  - intros s2 i chain Hs2 Ht2 Hr2 Ha Hch. rewrite keep_everything, gone_everything.
    apply drain_loop_leaf; try done. pose proof (chain_size _ _ _ Hch). unfold table_size, nodes in *. lia.
  - cbn [mbind result_bind]. eexists. split; [done|]. rewrite gone_everything in Hrm.
    unfold set_rrec. cbn [log emit set_table]. rewrite (rm_log _ _ _ _ _ _ Hrm), <- (assoc_L (++)).
    rewrite (rm_rrec _ _ _ _ _ _ Hrm). done.
Qed.

Lemma FreeClientResources_order_witness :
  ∃ s', FreeClientResources quiet (fun _ s => Ok s) demo3 (Some client1) = Ok s' ∧
    log s' = log demo3 ++ disposals (registry demo3) (nodes (rrec demo3 (index client1))) ++
             [FreeArray (array (rrec demo3 (index client1)))].
Proof.
  apply (FreeClientResources_order quiet (fun _ s => Ok s) demo3 demo3 client1 eq_refl demo3_ok).
  - apply typedb_sound. by vm_compute.
  - by vm_compute.
  - apply (in_use_live demo3 (id1 5) demo3_ok). intros H. vm_compute in H. discriminate.
Defined.

Lemma FreeClientResources_safe_witness :
  ∃ s', FreeClientResources (nested quiet (fun _ _ id => if id =? id1 0x44 then id1 5 else id1 0x87) 2)
          (fun _ s => Ok s) demo3 (Some client1) = Ok s' ∧ world_ok s' ∧
    (∀ id, CLIENT_ID id = index client1 -> contents s' id = [] ∧ ¬ in_use s' id) ∧
    (∀ id, CLIENT_ID id <> index client1 -> contents s' id `sublist_of` contents demo3 id).
Proof.
  apply (FreeClientResources_safe _ (fun _ s => Ok s)).
  - intros c s Hs _. by exists s.
  - apply demo3_ok.
  - apply typedb_sound. by vm_compute.
  - by vm_compute.
  - apply (in_use_live demo3 (id1 5) demo3_ok). intros H. vm_compute in H. discriminate.
Defined.

(** [FreeClientNeverRetainResources] removes exactly the client's resources whose type
    has the never-retain bit, disposing of each once, and keeps all others in their order;
    the counter [elements] is not lowered. *)
Theorem FreeClientNeverRetainResources_correct run s client `{!LeafDelete run} :
  world_ok s -> typed s -> 0 <= index client < 256 -> live_ok (index client) (rrec s (index client)) ->
  ∃ s', FreeClientNeverRetainResources run s (Some client) = Ok s' ∧ world_ok s' ∧
    (∀ id, contents s' id =
       if decide (CLIENT_ID id = index client) then keep never_retain (contents s id) else contents s id) ∧
    elements (rrec s' (index client)) = elements (rrec s (index client)) ∧
    log s' = log s ++ disposals (registry s) (gone never_retain (nodes (rrec s (index client)))).
Proof.
  intros Hs Ht Hc Hr. cbn [FreeClientNeverRetainResources]. set (cid := index client) in *.
  destruct (pass_ok never_retain s cid
    (fun s0 j => never_loop run (rounds (table_size s0 cid)) s0 cid (array (rrec s cid)) j None) Hs Ht Hc Hr) as (s' & -> & Hrm).
  - intros s2 i chain Hs2 Ht2 Hr2 Ha Hch. rewrite <- Ha.
    apply (never_loop_leaf run _ s2 cid _ i [] chain Hs2 Ht2 Hc Hr2 eq_refl Hch). by eapply rounds_gt.
  - exists s'. split; [done|]. destruct Hrm as [R1 O1 G1 C1 W1 L1 K1]. split_and!; [done| |by rewrite R1|done].
    intros id. unfold contents. case_decide as Hid.
    + rewrite Hid, R1. unfold nodes, set_resources. cbn [resources]. rewrite keep_concat. unfold keep.
      rewrite !list_filter_filter. apply list_filter_iff. tauto.
    + by rewrite O1 by (done || apply CLIENT_ID_range).
Qed.

Lemma FreeClientNeverRetainResources_correct_witness :
  let s := add_all demo0 [(id1 7, 8 + RC_NEVERRETAIN, 1); (id1 7, 4, 2)] in
  ∃ s', FreeClientNeverRetainResources quiet s (Some client1) = Ok s' ∧ world_ok s' ∧
    (∀ id, contents s' id =
       if decide (CLIENT_ID id = index client1) then keep never_retain (contents s id) else contents s id) ∧
    elements (rrec s' (index client1)) = elements (rrec s (index client1)) ∧
    log s' = log s ++ disposals (registry s) (gone never_retain (nodes (rrec s (index client1)))).
Proof.
  intros s. assert (Hs : world_ok s).
  { apply add_all_ok; [apply demo0_ok|]. repeat constructor; vm_compute; discriminate. }
  apply (FreeClientNeverRetainResources_correct quiet s client1 Hs).
  - apply typedb_sound. by vm_compute.
  - by vm_compute.
  - apply (in_use_live s (id1 7) Hs). intros H. vm_compute in H. discriminate.
Defined.

(** ** Enumeration *)

Section Enumerate.
Context (func : ResourceRec -> World -> result World) (want : ResourceRec -> bool).

(** The procedure may free resources, but not add any. *)
Hypothesis func_safe : ∀ res s, world_ok s -> typed s ->
  ∃ s', func res s = Ok s' ∧ world_ok s' ∧ shrinks true s s'.

(** The resources that were wanted have been passed to the procedure. *)
Definition visited (s : World) (l : list ResourceRec) : Prop :=
  ∀ x, x ∈ l -> want x = true -> Found (r_value x) (r_id x) ∈ log s.

Lemma visited_shrinks b s s' l l' : shrinks b s s' -> (∀ x, x ∈ l' -> x ∈ l) -> visited s l -> visited s' l'.
Proof.
  intros Hsh Hsub Hv x Hx Hw. destruct (sh_log _ _ _ Hsh) as [k ->]. apply elem_of_app. left.
  apply Hv; auto.
Qed.

Lemma find_loop_safe fuel s cid arr i pre post :
  world_ok s -> typed s -> 0 <= cid < 256 -> live_ok cid (rrec s cid) -> array (rrec s cid) = arr ->
  resources (rrec s cid) !! i = Some (pre ++ post) -> visited s pre ->
  let t := length (nodes (rrec s cid)) in
  (t * (t + 1) + length post + 1 <= fuel)%nat ->
  ∃ s' chain, find_loop func want fuel s cid arr (Z.of_nat i) (addr_of (head post)) = Ok s' ∧
    world_ok s' ∧ shrinks true s s' ∧ resources (rrec s' cid) !! i = Some chain ∧ visited s' chain.
Proof.
  revert s pre post. induction fuel as [|fuel IH]; intros s pre post Hs Ht Hc Hr Harr Hi Hpre t Hfuel; [lia|].
  cbn [find_loop]. destruct post as [|x post]; cbn [head addr_of fmap option_fmap option_map].
  { exists s, pre. rewrite app_nil_r in Hi. by split_and!. }
  rewrite (node_at_middle _ i pre x post) by (apply Hr || done). cbn [of_option mbind result_bind].
  pose proof Hi as Hi'. rewrite cons_middle, (assoc_L (++)) in Hi'. simpl in Hfuel.
  destruct (want x) eqn:Hw.
  2: { apply (IH s (pre ++ [x]) post); try done; [|unfold t in *; lia].
       intros y [Hy|Hy%list_elem_of_singleton]%elem_of_app Hwy; [by apply Hpre|congruence]. }
  set (s1 := emit s (Found (r_value x) (r_id x))).
  destruct (func_safe x s1) as (s2 & -> & Hs2 & Hsh2); [by apply world_ok_emit|by apply (typed_frame s)|].
  cbn [mbind result_bind]. pose proof (sh_rec _ _ _ Hsh2 cid Hc) as Hsub.
  pose proof (sh_count _ _ _ Hsh2 cid eq_refl Hc) as Hcnt. change (rrec s1 cid) with (rrec s cid) in *.
  assert (Hsh : shrinks true s s2) by (etrans; [apply shrinks_emit|done]).
  pose proof (live_shrinks _ _ _ _ Hs2 Hc Hr Hsh) as Hl2. pose proof (sub_size _ _ Hsub) as Hsize.
  assert (Ht2 : typed s2) by (by eapply typed_shrinks).
  assert (Hlog : Found (r_value x) (r_id x) ∈ log s2).
  { destruct (sh_log _ _ _ Hsh2) as [k ->]. simpl. rewrite !elem_of_app. left. right. left. }
  destruct (Z.eqb_spec (elements (rrec s2 cid)) (elements (rrec s cid))) as [Ee|Ene]; cbn [mbind result_bind].
  - pose proof (sub_same_size _ _ (sub_nodes _ _ Hsub)) as Hsame.
    rewrite <- Hsame in Hi' by (unfold counted, nodes in Hcnt; lia).
    destruct (IH s2 (pre ++ [x]) post) as (s' & chain & -> & Hs' & Hsh' & H'); try done.
    + by rewrite (sub_array _ _ Hsub).
    + intros y [Hy|Hy%list_elem_of_singleton]%elem_of_app Hwy; [|by subst].
      by apply (visited_shrinks _ _ _ pre pre Hsh).
    + unfold t in *. unfold counted in Hcnt. replace (length (nodes (rrec s2 cid))) with (length (nodes (rrec s cid))) by lia. lia.
    + exists s', chain. split_and!; [done|done|by etrans|apply H'..].
  - destruct (Forall2_lookup_r _ _ _ _ _ (sub_nodes _ _ Hsub) Hi) as (chain & Hch & _).
    pose proof (load_ok cid (rrec s2 cid) i [] chain Hl2 Hch) as Hload. simpl in Hload.
    rewrite (sub_array _ _ Hsub) in Hload. rewrite <- Harr, Hload. cbn [mbind result_bind].
    destruct (IH s2 [] chain Hs2 Ht2 Hc Hl2) as (s' & chain' & E & Hs' & Hsh' & H'); try done.
    + by rewrite (sub_array _ _ Hsub).
    + by intros y ?%elem_of_nil.
    + pose proof (chain_size _ _ _ Hch). pose proof (rounds_step t (length (nodes (rrec s2 cid))) (length chain)) as Hstep.
      unfold counted in Hcnt. unfold t in *. lia.
    + rewrite Harr. exists s', chain'. split_and!; [done|done|by etrans|apply H'..].
Qed.

(** Over all buckets. *)
Lemma find_all_safe s cid :
  world_ok s -> typed s -> 0 <= cid < 256 -> live_ok cid (rrec s cid) ->
  ∃ s', find_all func want s cid = Ok s' ∧ world_ok s' ∧ shrinks true s s' ∧ visited s' (nodes (rrec s' cid)).
Proof.
  intros Hs Ht Hc Hr. unfold find_all.
  pose (I := fun (j : nat) (s2 : World) => world_ok s2 ∧ shrinks true s s2 ∧
    ∀ i chain, (i < j)%nat -> resources (rrec s2 cid) !! i = Some chain -> visited s2 chain).
  destruct (all_buckets_ok cid (buckets (rrec s cid)) (fun s0 i =>
    this ← load_head (rrec s0 cid) (array (rrec s cid)) i;
    find_loop func want (rounds (table_size s0 cid)) s0 cid (array (rrec s cid)) i (addr_of this)) I) with (s := s) as (s' & E & HI).
  - intros j s2 (_ & Hsh & _). apply (sub_buckets _ _ (sh_rec _ _ _ Hsh cid Hc)).
  - intros j s2 (Hs2 & Hsh2 & Hv) Hj. pose proof (live_shrinks _ _ _ _ Hs2 Hc Hr Hsh2) as Hr2.
    pose proof (sub_array _ _ (sh_rec _ _ _ Hsh2 cid Hc)) as Harr.
    destruct (lookup_lt_is_Some_2 (resources (rrec s2 cid)) j) as [chain Hch].
    { pose proof (lo_len _ _ Hr2). rewrite (sub_buckets _ _ (sh_rec _ _ _ Hsh2 cid Hc)) in *. lia. }
    pose proof (load_ok cid (rrec s2 cid) j [] chain Hr2 Hch) as Hload. simpl in Hload.
    rewrite <- Harr, Hload. cbn [mbind result_bind].
    destruct (find_loop_safe (rounds (table_size s2 cid)) s2 cid (array (rrec s2 cid)) j [] chain Hs2) as (s3 & chain3 & -> & Hs3 & Hsh3 & Hch3 & Hv3);
      try done.
    + by eapply typed_shrinks.
    + by intros y ?%elem_of_nil.
    + unfold rounds, table_size. pose proof (chain_size _ _ _ Hch). unfold nodes in *. lia.
    + exists s3. split; [done|]. split_and!; [done|by etrans|]. intros i l Hi Hl.
      destruct (decide (i = j)) as [->|]; [by simplify_eq|].
      destruct (Forall2_lookup_l _ _ _ _ _ (sub_nodes _ _ (sh_rec _ _ _ Hsh3 cid Hc)) Hl) as (l2 & Hl2 & Hsl).
      apply (visited_shrinks _ _ _ l2 l Hsh3); [intros y Hy; by eapply elem_of_sublist|apply (Hv i); [lia|done]].
  - split_and!; [done|done|]. intros i l Hi. lia.
  - pose proof (lo_len _ _ Hr). lia.
  - exists s'. destruct HI as (Hs' & Hsh' & Hv). split_and!; [done|done|done|].
    intros x Hx. apply elem_of_concat in Hx as (i & l & Hi & Hx). apply (Hv i l); [|done|done].
    apply lookup_lt_Some in Hi. rewrite (Forall2_length _ _ _ (sub_nodes _ _ (sh_rec _ _ _ Hsh' cid Hc))) in Hi.
    pose proof (lo_len _ _ Hr). lia.
Qed.

End Enumerate.

(** [FindClientResourcesByType] terminates and follows no dangling pointer even when the
    procedure it calls frees resources of the client, including the one it was called for
    or the next one; when it is done, every resource of the type (of any type, when asked
    for type 0) that the client still has was passed to the procedure. *)
Theorem FindClientResourcesByType_complete func s client type :
  (∀ value id s, world_ok s -> typed s -> ∃ s', func value id s = Ok s' ∧ world_ok s' ∧ shrinks true s s') ->
  world_ok s -> typed s -> 0 <= client_index client < 256 ->
  live_ok (client_index client) (rrec s (client_index client)) ->
  ∃ s', FindClientResourcesByType s client type func = Ok s' ∧ world_ok s' ∧ shrinks true s s' ∧
    ∀ x, x ∈ nodes (rrec s' (client_index client)) -> type = 0 ∨ r_type x = type ->
      Found (r_value x) (r_id x) ∈ log s'.
Proof.
  intros Hf Hs Ht Hc Hr. unfold FindClientResourcesByType.
  destruct (find_all_safe (fun res => func (r_value res) (r_id res)) (fun res => (type =? 0) || (r_type res =? type)))
    with (s := s) (cid := client_index client) as (s' & E & Hs' & Hsh & Hv); try done.
  - intros res s0. apply Hf.
  - exists s'. split_and!; [done..|]. intros x Hx Hw. apply Hv; [done|].
    apply orb_true_iff. rewrite !Z.eqb_eq. done.
Qed.

Lemma FindClientResourcesByType_complete_witness :
  ∃ s', FindClientResourcesByType demo3 (Some client1) 4 (fun _ id s => FreeResource quiet s id 0) = Ok s' ∧
    world_ok s' ∧ shrinks true demo3 s' ∧
    ∀ x, x ∈ nodes (rrec s' (client_index (Some client1))) -> 4 = 0 ∨ r_type x = 4 ->
      Found (r_value x) (r_id x) ∈ log s'.
Proof.
  apply (FindClientResourcesByType_complete (fun _ id s => FreeResource quiet s id 0) demo3 (Some client1) 4).
  - intros value id s Hs Ht. destruct (FreeResource_safe quiet s id 0 Hs Ht) as (s' & ? & ? & ? & _). by exists s'.
  - apply demo3_ok.
  - apply typedb_sound. by vm_compute.
  - by vm_compute.
  - apply (in_use_live demo3 (id1 5) demo3_ok). intros H. vm_compute in H. discriminate.
Defined.
