(* ===== verification/ResourceTypes.v ===== *)
(** * ResourceTypes: the registry of resource types and classes (dix/resource.c)

    Types are small numbers counted up, classes are single bits counted down; both
    share one word, and the procedure that deletes a resource is found by masking
    its type. *)

From S2P Require Import Prelude ResourceDB ResourceFreeProofs.

(** ** Single bits *)

Lemma land_pow2 z k : 0 <= k -> Z.land z (2 ^ k) = if Z.testbit z k then 2 ^ k else 0.
Proof.
  intros Hk. apply Z.bits_inj'. intros n Hn. rewrite Z.land_spec, Z.pow2_bits_eqb by done.
  destruct (Z.eqb_spec k n) as [<-|Hne].
  - rewrite andb_true_r. destruct (Z.testbit z k); [|by rewrite Z.bits_0].
    by rewrite Z.pow2_bits_eqb, Z.eqb_refl.
  - rewrite andb_false_r. destruct (Z.testbit z k); [|by rewrite Z.bits_0].
    rewrite Z.pow2_bits_eqb by done. symmetry. by apply Z.eqb_neq.
Qed.

Lemma has_pow2 z k : 0 <= k -> has z (2 ^ k) = Z.testbit z k.
Proof.
  intros Hk. unfold has. rewrite land_pow2 by done. destruct (Z.testbit z k); [|done].
  pose proof (Z.pow_pos_nonneg 2 k ltac:(lia) Hk). by destruct (Z.eqb_spec (2 ^ k) 0); [lia|].
Qed.

Lemma testbit_small z k : 0 <= k -> 0 <= z < 2 ^ (k + 1) -> Z.testbit z k = (2 ^ k <=? z).
Proof.
  intros Hk Hz. rewrite Z.pow_add_r in Hz by lia. rewrite Z.testbit_eqb by done.
  pose proof (Z.pow_pos_nonneg 2 k ltac:(lia) Hk). destruct (Z.leb_spec (2 ^ k) z).
  - rewrite <- (Z.div_unique z (2 ^ k) 1 (z - 2 ^ k)) by lia. done.
  - by rewrite Z.div_small by lia.
Qed.

(** ** The invariant *)

Record registry_ok (g : TypeRegistry) : Prop := {
  rg_type : 9 <= lastResourceType g < lastResourceClass g;
  rg_class : ∃ k, 0 <= k <= 29 ∧ lastResourceClass g = 2 ^ k;
  rg_mask : TypeMask g = lastResourceClass g - 1;
  rg_funcs : Z.of_nat (length (DeleteFuncs g)) = lastResourceType g + 1
}.

(** Registrations only add. *)
Record registry_le (g g' : TypeRegistry) : Prop := {
  rl_funcs : DeleteFuncs g `prefix_of` DeleteFuncs g';
  rl_type : lastResourceType g <= lastResourceType g';
  rl_class : lastResourceClass g' <= lastResourceClass g
}.

#[export] Instance registry_le_preorder : PreOrder registry_le.
Proof.
  split; [split; (done || lia)|]. intros x y z [] []. split; [by etrans|lia..].
Qed.

Lemma init_registry_ok : registry_ok (init_registry initial_DeleteFuncs).
Proof. split; [done| |done|done]. by exists 29. Qed.

Lemma CreateNewResourceType_ok g o f t g' o' :
  registry_ok g -> CreateNewResourceType g o f = (t, g', o') ->
  registry_ok g' ∧ registry_le g g' ∧
  (t <> 0 -> DeleteFuncs g' !! Z.to_nat t = Some f ∧ lastResourceType g < t <= lastResourceType g').
Proof.
  intros [Ht (k & Hk & Ec) Hm Hf]. unfold CreateNewResourceType. rewrite Ec at 1.
  rewrite has_pow2, testbit_small by (rewrite ?Z.pow_add_r; lia).
  destruct (Z.leb_spec (2 ^ k) (lastResourceType g + 1)).
  { intros [= <- <- <-]. split_and!; [by split; eauto|done|done]. }
  destruct (alloc o) as [ok o1]. destruct ok; cbn [negb]; intros [= <- <- <-].
  2: { split_and!; [by split; eauto|done|done]. }
  split_and!.
  - split; simpl; [lia|eauto|done|]. rewrite length_app. simpl. lia.
  - split; simpl; [by apply prefix_app_r|lia..].
  - intros _. simpl. split; [|lia]. rewrite lookup_app_r by lia.
    by replace (Z.to_nat _ - _)%nat with 0%nat by lia.
Qed.

Lemma CreateNewResourceClass_ok g c g' :
  registry_ok g -> CreateNewResourceClass g = (c, g') ->
  registry_ok g' ∧ registry_le g g' ∧ (c <> 0 -> c = lastResourceClass g' ∧ c < lastResourceClass g).
Proof.
  intros [Ht (k & Hk & Ec) Hm Hf]. unfold CreateNewResourceClass.
  assert (Hk0 : k <> 0) by (intros ->; lia).
  assert (Hp : 2 ^ k = 2 * 2 ^ (k - 1)) by (rewrite <- Z.pow_succ_r by lia; f_equal; lia).
  assert (Es : Z.shiftr (lastResourceClass g) 1 = 2 ^ (k - 1)).
  { rewrite Z.shiftr_div_pow2, Ec, Hp by lia. change (2 ^ 1) with 2. rewrite Z.mul_comm. by apply Z.div_mul. }
  rewrite Es. unfold has. rewrite Z.land_comm. fold (has (lastResourceType g) (2 ^ (k - 1))).
  rewrite has_pow2, testbit_small by (try lia; replace (k - 1 + 1) with k by lia; lia).
  destruct (Z.leb_spec (2 ^ (k - 1)) (lastResourceType g)); intros [= <- <-].
  { split_and!; [by split; eauto|done|done]. }
  split_and!.
  - split; simpl; [lia|exists (k - 1); split; [lia|done]|done|done].
  - split; simpl; [done|lia..].
  - intros _. simpl. lia.
Qed.

(** The mask of a well formed registry keeps a registered type and removes class bits. *)
Lemma registry_mask g t bits :
  registry_ok g -> 0 <= t <= lastResourceType g -> Z.land bits (TypeMask g) = 0 ->
  Z.land (Z.lor t bits) (TypeMask g) = t.
Proof.
  intros [Ht (k & Hk & Ec) Hm Hf] Htr Hb. rewrite Z.land_lor_distr_l, Hb, Z.lor_0_r, Hm, Ec.
  replace (2 ^ k - 1) with (Z.ones k) by (rewrite Z.ones_equiv; lia).
  rewrite Z.land_ones by lia. apply Z.mod_small. lia.
Qed.

(** ** Sequences of registrations *)

Inductive registration := NewType (f : DeleteType) | NewClass.

Fixpoint register (g : TypeRegistry) (o : oracle) (ops : list registration) : list RESTYPE * TypeRegistry :=
  match ops with
  | [] => ([], g)
  | NewType f :: ops =>
      let '(t, g, o) := CreateNewResourceType g o f in
      let '(ts, g) := register g o ops in (t :: ts, g)
  | NewClass :: ops =>
      let '(c, g) := CreateNewResourceClass g in
      let '(ts, g) := register g o ops in (c :: ts, g)
  end.

Lemma register_ok ops : ∀ g o ts g',
  registry_ok g -> register g o ops = (ts, g') ->
  registry_ok g' ∧ registry_le g g' ∧
  (∀ i f t, ops !! i = Some (NewType f) -> ts !! i = Some t -> t <> 0 ->
     DeleteFuncs g' !! Z.to_nat t = Some f ∧ 0 <= t <= lastResourceType g') ∧
  (∀ i c, ops !! i = Some NewClass -> ts !! i = Some c -> c <> 0 ->
     lastResourceClass g' <= c ∧ ∃ k, 0 <= k ∧ c = 2 ^ k).
Proof.
  induction ops as [|[f|] ops IH]; intros g o ts g' Hg; simpl.
  - intros [= <- <-]. by split_and!.
  - destruct (CreateNewResourceType g o f) as [[t g1] o1] eqn:E1.
    destruct (register g1 o1 ops) as [ts1 g2] eqn:E2. intros [= <- <-].
    destruct (CreateNewResourceType_ok _ _ _ _ _ _ Hg E1) as (Hg1 & Hle1 & Ht).
    destruct (IH _ _ _ _ Hg1 E2) as (Hg2 & Hle2 & Htypes & Hclasses).
    split_and!; [done|by etrans| |].
    + intros [|i] f' t'; simpl; [|apply Htypes]. intros [= <-] [= <-] Hne. destruct (Ht Hne) as [Hl Hr].
      split; [by eapply prefix_lookup_Some, rl_funcs|]. pose proof (rl_type _ _ Hle2). pose proof (rg_type _ Hg). lia.
    + intros [|i] c; simpl; [done|apply Hclasses].
  - destruct (CreateNewResourceClass g) as [c g1] eqn:E1.
    destruct (register g1 o ops) as [ts1 g2] eqn:E2. intros [= <- <-].
    destruct (CreateNewResourceClass_ok _ _ _ Hg E1) as (Hg1 & Hle1 & Hc).
    destruct (IH _ _ _ _ Hg1 E2) as (Hg2 & Hle2 & Htypes & Hclasses).
    split_and!; [done|by etrans| |].
    + intros [|i] f t; simpl; [done|apply Htypes].
    + intros [|i] c'; simpl; [|apply Hclasses]. intros _ [= <-] Hne. destruct (Hc Hne) as [-> _].
      split; [apply Hle2|]. destruct (rg_class _ Hg1) as (k & ? & ->). exists k. split; [lia|done].
Qed.

(** C25: whatever types and classes are registered after initialisation, in any order and
    with any failures, the registry stays well formed, and masking a registered type - even
    after later class registrations narrowed the mask, and with any class bits added to it -
    selects in [DeleteFuncs] the procedure it was registered with. *)
Theorem register_DeleteFuncs ops o ts g :
  register (init_registry initial_DeleteFuncs) o ops = (ts, g) ->
  registry_ok g ∧
  (∀ i f t bits, ops !! i = Some (NewType f) -> ts !! i = Some t -> t <> 0 -> Z.land bits (TypeMask g) = 0 ->
     DeleteFuncs g !! Z.to_nat (Z.land (Z.lor t bits) (TypeMask g)) = Some f ∧ type_ok g (Z.lor t bits)) ∧
  (∀ i c, ops !! i = Some NewClass -> ts !! i = Some c -> c <> 0 -> Z.land c (TypeMask g) = 0).
Proof.
  intros E. destruct (register_ok _ _ _ _ _ init_registry_ok E) as (Hg & _ & Htypes & Hclasses).
  split_and!; [done| |].
  - intros i f t bits Hi Ht Hne Hb. destruct (Htypes i f t Hi Ht Hne) as [Hl Hr]. unfold type_ok.
    rewrite registry_mask by done. split; [done|]. by eapply lookup_lt_Some.
  - intros i c Hi Hc Hne. destruct (Hclasses i c Hi Hc Hne) as [Hle (k & Hk & ->)].
    destruct (rg_class _ Hg) as (m & Hm & Em). rewrite (rg_mask _ Hg), Em.
    replace (2 ^ m - 1) with (Z.ones m) by (rewrite Z.ones_equiv; lia).
    rewrite Em in Hle. apply Z.pow_le_mono_r_iff in Hle; [|lia..].
    rewrite Z.land_ones by lia. replace k with (m + (k - m)) by lia.
    rewrite Z.pow_add_r, Z.mul_comm by lia. apply Z.mod_mul. lia.
Qed.

Lemma register_DeleteFuncs_witness :
  let ops := [NewType (ExtensionDelete 1); NewClass; NewType (ExtensionDelete 2)] in
  let '(ts, g) := register (init_registry initial_DeleteFuncs) [true; false] ops in
  registry_ok g ∧
  (∀ i f t bits, ops !! i = Some (NewType f) -> ts !! i = Some t -> t <> 0 -> Z.land bits (TypeMask g) = 0 ->
     DeleteFuncs g !! Z.to_nat (Z.land (Z.lor t bits) (TypeMask g)) = Some f ∧ type_ok g (Z.lor t bits)) ∧
  (∀ i c, ops !! i = Some NewClass -> ts !! i = Some c -> c <> 0 -> Z.land c (TypeMask g) = 0).
Proof.
  intros ops. destruct (register (init_registry initial_DeleteFuncs) [true; false] ops) as [ts g] eqn:E.
  apply (register_DeleteFuncs ops [true; false] ts g E).
Defined.
