(* ===== verification/Window.v ===== *)
(** * Window: windows and their optional records (dix/window.c)

    Rarely used attributes of a window live in an optional record, which a window
    without special attributes does not have; the attributes are then inherited from
    the closest ancestor that has one. *)

From stdpp Require Import base numbers list gmap.
From S2P Require Import Prelude Atom ResourceDB.

(** ** Data (include/propertyst.h, include/windowstr.h) *)

(** [size] counts units of [format / 8] bytes; [data] are the bytes. *)
Record PropertyRec := mkProp {
  propertyName : Z; ptype : Z; format : Z; size : Z; data : list Z
}.

(** [deviceCursors] lists the cursors of the nodes. *)
Record WindowOpt := mkOpt {
  visual : Z; cursor : pointer; colormap : Z; dontPropagateMask : Z; otherEventMasks : Z;
  otherClients : pointer; passiveGrabs : pointer; userProps : list PropertyRec;
  backingBitPlanes : Z; backingPixel : Z;
  boundingShape : pointer; clipShape : pointer; inputShape : pointer; inputMasks : pointer;
  deviceCursors : list pointer
}.

Inductive CursorCall := RefCursor (c : pointer) | FreeCursor (c : pointer).

(** A drawable; pixmaps have no parent and no optional record.  [cursor_calls] are the
    calls into dix/cursor.c made for the window, in order. *)
Record WindowRec := mkWindow {
  drawable_id : XID; drawable_type : Z; parent : pointer; dontPropagate : Z; cursorIsNone : bool;
  cursor_calls : list CursorCall; optional : option WindowOpt
}.

(** The drawables by address, and the table of masks that [dontPropagate] indexes. *)
Record Windows := mkWindows { tree : gmap pointer WindowRec; DontPropagateMasks : list Z }.

#[export] Instance PropertyRec_eq_dec : EqDecision PropertyRec.
Proof. solve_decision. Defined.

(** [wUseDefault(w, userProps, NULL)]. *)
Definition wUserProps (w : WindowRec) : list PropertyRec := from_option userProps [] (optional w).

Definition set_optional (w : WindowRec) (none : bool) (calls : list CursorCall) (opt : option WindowOpt) : WindowRec :=
  mkWindow (drawable_id w) (drawable_type w) (parent w) (dontPropagate w) none (cursor_calls w ++ calls) opt.

Definition set_userProps (opt : WindowOpt) (props : list PropertyRec) : WindowOpt :=
  mkOpt (visual opt) (cursor opt) (colormap opt) (dontPropagateMask opt) (otherEventMasks opt)
    (otherClients opt) (passiveGrabs opt) props (backingBitPlanes opt) (backingPixel opt)
    (boundingShape opt) (clipShape opt) (inputShape opt) (inputMasks opt) (deviceCursors opt).

(** [pWin->optional->userProps = props], for a window with an optional record. *)
Definition set_props (w : WindowRec) (props : list PropertyRec) : WindowRec :=
  set_optional w (cursorIsNone w) [] ((fun opt => set_userProps opt props) <$> optional w).

(** ** The optional record *)

(** The loop of [FindWindowWithOptional], from the window [p] on; a tree is never deeper
    than the number of its windows. *)
Fixpoint find_optional (fuel : nat) (ds : gmap pointer WindowRec) (p : pointer) : result (WindowRec * WindowOpt) :=
  match fuel with
  | O => Err OutOfFuel
  | S fuel =>
      w ← of_option Dangling (ds !! p);
      match optional w with Some opt => Ok (w, opt) | None => find_optional fuel ds (parent w) end
  end.

Definition FindWindowWithOptional (ws : Windows) (w : WindowRec) : result (WindowRec * WindowOpt) :=
  find_optional (base.size (tree ws)) (tree ws) (parent w).

Definition DisposeWindowOptional (w : WindowRec) : WindowRec :=
  match optional w with
  | None => w
  | Some opt =>
      let own := if cursor opt =? 0 then [] else [FreeCursor (cursor opt)] in
      let devices := map FreeCursor (List.filter (fun c => negb (c =? 0)) (deviceCursors opt)) in
      set_optional w (cursor opt =? 0) (own ++ devices) None
  end.

Definition dont_propagate_mask (ws : Windows) (w : WindowRec) : result Z :=
  of_option OutOfBounds (DontPropagateMasks ws !! Z.to_nat (dontPropagate w)).

(** [~0L] and [(CARD32)~0L]. *)
Definition all_planes : Z := 2 ^ 64 - 1.
Definition all_planes32 : Z := 2 ^ 32 - 1.

(** The fields that do not depend on the ancestors have their default. *)
Definition own_defaults (mask : Z) (opt : WindowOpt) : bool :=
  (dontPropagateMask opt =? mask) && (otherEventMasks opt =? 0) && (otherClients opt =? 0) &&
  (passiveGrabs opt =? 0) && bool_decide (userProps opt = []) && (backingBitPlanes opt =? all_planes32) &&
  (backingPixel opt =? 0) && (boundingShape opt =? 0) && (clipShape opt =? 0) && (inputShape opt =? 0) &&
  (inputMasks opt =? 0) && forallb (fun c => c =? 0) (deviceCursors opt).

Definition CheckWindowOptionalNeed (ws : Windows) (w : WindowRec) : result WindowRec :=
  match optional w with
  | None => Ok w
  | Some opt =>
      if parent w =? 0 then Ok w else
      mask ← dont_propagate_mask ws w;
      if negb (own_defaults mask opt) then Ok w else
      '(_, up) ← FindWindowWithOptional ws w;
      if negb (visual opt =? visual up) then Ok w else
      pw ← of_option Dangling (tree ws !! parent w);
      if negb (cursor opt =? 0) && (negb (cursor opt =? cursor up) || cursorIsNone pw) then Ok w else
      if negb (colormap opt =? colormap up) then Ok w else
      Ok (DisposeWindowOptional w)
  end.

Definition MakeWindowOptional (ws : Windows) (w : WindowRec) (o : oracle) : result (bool * WindowRec * oracle) :=
  match optional w with
  | Some _ => Ok (true, w, o)
  | None =>
      let '(ok, o) := alloc o in
      if negb ok then Ok (false, w, o) else
      mask ← dont_propagate_mask ws w;
      '(_, up) ← FindWindowWithOptional ws w;
      let inherit := negb (cursorIsNone w) in
      Ok (true, set_optional w (cursorIsNone w) (if inherit then [RefCursor (cursor up)] else [])
            (Some (mkOpt (visual up) (if inherit then cursor up else 0) (colormap up) mask 0 0 0 [] all_planes 0 0 0 0 0 [])), o)
  end.
