(* ===== verification/WindowProofs.v ===== *)
(** * WindowProofs: optional records are inherited from an ancestor (dix/window.c)

    The invariant of the window tree, and that [FindWindowWithOptional],
    [MakeWindowOptional] and [CheckWindowOptionalNeed] stay within it. *)

From S2P Require Import Prelude Atom ResourceDB Window.

(** ** Paths to the root *)

(** At most [n] steps lead from [p] to a root window, which always has an optional record. *)
Inductive rooted (ds : gmap pointer WindowRec) : nat -> pointer -> Prop :=
  | rooted_root n p w : ds !! p = Some w -> parent w = 0 -> is_Some (optional w) -> rooted ds (S n) p
  | rooted_child n p w : ds !! p = Some w -> rooted ds n (parent w) -> rooted ds (S n) p.

Record window_ok (ws : Windows) (w : WindowRec) : Prop := {
  wk_mask : is_Some (DontPropagateMasks ws !! Z.to_nat (dontPropagate w));
  wk_root : parent w = 0 ∧ is_Some (optional w) ∨
            parent w <> 0 ∧ rooted (tree ws) (base.size (tree ws)) (parent w)
}.

(** What no operation on optional records changes. *)
Record same_place (w w' : WindowRec) : Prop := {
  sp_id : drawable_id w' = drawable_id w;
  sp_type : drawable_type w' = drawable_type w;
  sp_parent : parent w' = parent w;
  sp_mask : dontPropagate w' = dontPropagate w;
  sp_root : parent w = 0 -> is_Some (optional w) -> is_Some (optional w')
}.

Lemma same_place_refl w : same_place w w.
Proof. by split. Qed.

Lemma same_place_trans w1 w2 w3 : same_place w1 w2 -> same_place w2 w3 -> same_place w1 w3.
Proof. intros [? ? E ? H1] [? ? ? ? H2]. split; try congruence. intros H0 Hopt. apply H2; [congruence|auto]. Qed.

#[export] Hint Resolve same_place_refl : ssx.

Lemma rooted_insert ds n p w w' q :
  ds !! p = Some w -> same_place w w' -> rooted ds n q -> rooted (<[p := w']> ds) n q.
Proof.
  intros Hp [_ _ Epar _ Hroot] Hq. induction Hq as [n q x Hx H0 Hopt|n q x Hx _ IH].
  - destruct (decide (p = q)) as [->|Hne].
    + simplify_eq. eapply rooted_root; [apply lookup_insert_eq|congruence|auto].
    + eapply rooted_root; [by rewrite lookup_insert_ne|done..].
  - destruct (decide (p = q)) as [->|Hne].
    + simplify_eq. eapply rooted_child; [apply lookup_insert_eq|by rewrite Epar].
    + eapply rooted_child; [by rewrite lookup_insert_ne|done].
Qed.

(** A window stays well placed when another one, or itself, gains or loses its record. *)
Lemma window_ok_insert ws p w w' q x :
  tree ws !! p = Some w -> same_place w w' -> <[p := w']> (tree ws) !! q = Some x ->
  (∀ y, tree ws !! q = Some y -> window_ok ws y) -> window_ok (mkWindows (<[p := w']> (tree ws)) (DontPropagateMasks ws)) x.
Proof.
  intros Hp Hsame Hq Hok.
  assert (Hsize : base.size (<[p := w']> (tree ws)) = base.size (tree ws)) by (rewrite map_size_insert, Hp; done).
  assert (∃ y, tree ws !! q = Some y ∧ same_place y x) as (y & Hy & [_ _ Epar Emask Hroot]).
  { apply lookup_insert_Some in Hq as [[<- <-]|[_ Hq]]; [by exists w|exists x; auto with ssx]. }
  destruct (Hok y Hy) as [Hm [[H0 Hopt]|[H0 Hr]]]; split; cbn [tree DontPropagateMasks]; rewrite ?Emask, ?Epar, ?Hsize; auto.
  right. split; [done|]. by apply (rooted_insert _ _ _ w).
Qed.

(** ** The operations *)

Lemma find_optional_ok ds n p : rooted ds n p -> ∃ w opt, find_optional n ds p = Ok (w, opt) ∧ optional w = Some opt.
Proof.
  induction 1 as [n p w Hp _ [opt Hopt]|n p w Hp _ IH]; simpl; rewrite Hp; cbn [of_option mbind result_bind].
  - rewrite Hopt. by do 2 eexists.
  - destruct (optional w) as [opt|] eqn:E; [by do 2 eexists|done].
Qed.

Lemma FindWindowWithOptional_ok ws w :
  window_ok ws w -> parent w <> 0 ->
  ∃ up opt, FindWindowWithOptional ws w = Ok (up, opt) ∧ optional up = Some opt ∧ is_Some (tree ws !! parent w).
Proof.
  intros [_ [[? _]|[_ Hr]]] Hp; [done|]. destruct (find_optional_ok _ _ _ Hr) as (up & opt & E & Eo).
  exists up, opt. split_and!; [done|done|]. inversion Hr; eauto.
Qed.

Lemma own_defaults_props mask opt : own_defaults mask opt = true -> userProps opt = [].
Proof. unfold own_defaults. intros H. zbool. by case_bool_decide. Qed.

(** [MakeWindowOptional] fails only for lack of memory, and adds an empty record. *)
Lemma MakeWindowOptional_ok ws w o :
  window_ok ws w ->
  ∃ ok w' o', MakeWindowOptional ws w o = Ok (ok, w', o') ∧ wUserProps w' = wUserProps w ∧ same_place w w' ∧
    (ok = true -> is_Some (optional w')) ∧ (ok = false -> may_fail o) ∧ (may_fail o' -> may_fail o).
Proof.
  intros Hw. unfold MakeWindowOptional, wUserProps. destruct (optional w) as [opt|] eqn:Eo.
  { do 3 eexists. split; [done|]. rewrite Eo. split_and!; auto with ssx; intros; eauto; done. }
  destruct (alloc o) as [ok o1] eqn:Ea. destruct (alloc_spec _ _ _ Ea) as (H1 & H2 & _). destruct ok; cbn [negb].
  2: { do 3 eexists. split; [done|]. rewrite Eo. split_and!; auto with ssx; done. }
  unfold dont_propagate_mask. destruct (wk_mask _ _ Hw) as [mask ->]. cbn [of_option mbind result_bind].
  assert (Hp : parent w <> 0).
  { destruct (wk_root _ _ Hw) as [[_ [? Hs]]|[? _]]; [congruence|done]. }
  destruct (FindWindowWithOptional_ok ws w Hw Hp) as (up & opt & -> & _ & _). cbn [mbind result_bind].
  do 3 eexists. split; [done|]. by split_and!.
Qed.

(** [CheckWindowOptionalNeed] drops the record of a window without properties at most. *)
Lemma CheckWindowOptionalNeed_ok ws w :
  window_ok ws w ->
  ∃ w', CheckWindowOptionalNeed ws w = Ok w' ∧ wUserProps w' = wUserProps w ∧ same_place w w'.
Proof.
  intros Hw. unfold CheckWindowOptionalNeed. destruct (optional w) as [opt|] eqn:Eo; [|by eexists; auto with ssx].
  destruct (Z.eqb_spec (parent w) 0) as [|Hp]; [by eexists; auto with ssx|].
  unfold dont_propagate_mask. destruct (wk_mask _ _ Hw) as [mask ->]. cbn [of_option mbind result_bind].
  destruct (own_defaults mask opt) eqn:Ed; cbn [negb]; [|by eexists; auto with ssx].
  apply own_defaults_props in Ed.
  destruct (FindWindowWithOptional_ok ws w Hw Hp) as (up & opt' & -> & _ & [pw ->]). cbn [of_option mbind result_bind].
  do 3 (case_match; [by eexists; auto with ssx|]).
  eexists. split; [done|]. unfold DisposeWindowOptional, wUserProps. rewrite Eo. simpl. split; [done|]. by split.
Qed.

Lemma window_ok_same ws w w' : window_ok ws w -> same_place w w' -> window_ok ws w'.
Proof.
  intros [Hm [[H0 Hopt]|[H0 Hr]]] [_ _ Ep Em Hroot]; split; rewrite ?Em, ?Ep; auto.
Qed.

(** [MakeWindowOptional] sets all 64 bits of [backingBitPlanes], [CheckWindowOptionalNeed]
    compares with 32 of them: a record once made is not dropped again. *)
Lemma CheckWindowOptionalNeed_keeps ws w o w1 o1 ws' :
  optional w = None -> MakeWindowOptional ws w o = Ok (true, w1, o1) -> window_ok ws' w1 ->
  CheckWindowOptionalNeed ws' w1 = Ok w1.
Proof.
  intros Eo H [[mask Hm] _]. unfold MakeWindowOptional in H. rewrite Eo in H.
  destruct (alloc o) as [[|] o2]; cbn [negb] in H; [|done].
  destruct (dont_propagate_mask ws w) as [m|]; cbn [mbind result_bind] in H; [|done].
  destruct (FindWindowWithOptional ws w) as [[u up]|]; cbn [mbind result_bind] in H; [|done]. injection H as <- <-.
  unfold CheckWindowOptionalNeed. cbn [optional set_optional]. destruct (parent _ =? 0); [done|].
  unfold dont_propagate_mask. rewrite Hm. cbn [of_option mbind result_bind].
  set (x := mkOpt _ _ _ _ _ _ _ _ _ _ _ _ _ _ _). assert (own_defaults mask x = false) as ->; [|done].
  unfold own_defaults. subst x. cbn [dontPropagateMask otherEventMasks otherClients passiveGrabs userProps backingBitPlanes].
  change (all_planes =? all_planes32) with false. by rewrite andb_false_r.
Qed.
