(* ===== verification/Property.v ===== *)
(** * Property: window properties (dix/property.c) and window lookup (dix/dixutils.c)

    A window's properties are a list below its optional record.  The request
    handlers look the window up in the resource database, check atoms against the
    atom table, and work on that list; a property's data is the list of its bytes. The
    fixed part of a request can be read only if it is as long as that ([struct_at]). *)

From stdpp Require Import base numbers list gmap.
From S2P Require Import Prelude Atom ResourceDB Window.

(** ** Data *)

Inductive notify_state := PropertyNewValue | PropertyDelete.

(** [PropertyNotify] events, in the order of delivery. *)
Record PropertyEvent := mkPE { ev_window : XID; ev_state : notify_state; ev_atom : Z }.

Inductive prop_mode := PropModeReplace | PropModePrepend | PropModeAppend.

Definition mode_of (z : Z) : option prop_mode :=
  if z =? 0 then Some PropModeReplace else if z =? 1 then Some PropModePrepend
  else if z =? 2 then Some PropModeAppend else None.

(** What the security modules answer. *)
Inductive xace := XaceErrorOperation | XaceAllowOperation | XaceIgnoreOperation.

#[export] Instance notify_state_eq_dec : EqDecision notify_state.
Proof. solve_decision. Defined.
#[export] Instance PropertyEvent_eq_dec : EqDecision PropertyEvent.
Proof. solve_decision. Defined.
#[export] Instance prop_mode_eq_dec : EqDecision prop_mode.
Proof. solve_decision. Defined.

(** ** The list of properties *)

(** The search loop: the properties before the one named, it, and those after. *)
Fixpoint find_prop (name : Z) (props : list PropertyRec) : option (list PropertyRec * PropertyRec * list PropertyRec) :=
  match props with
  | [] => None
  | p :: props =>
      if propertyName p =? name then Some ([], p, props)
      else '(before, q, after) ← find_prop name props; Some (p :: before, q, after)
  end.

Definition notify (w : WindowRec) (state : notify_state) (atom : Z) : PropertyEvent :=
  mkPE (drawable_id w) state atom.

(** ** ChangeWindowProperty *)

(** [n] elements from the start of an array: a negative number (which [memmove] takes for a
    huge one) or a read past the end is a fault. *)
Definition read_request (value : list Z) (n : Z) : result (list Z) :=
  if (n <? 0) || (Z.of_nat (length value) <? n) then Err OutOfBounds else Ok (take (Z.to_nat n) value).

(** The new property record, or the failure, when the property exists. *)
Definition change_existing (p : PropertyRec) (type format' : Z) (mode : prop_mode) (len totalSize : Z)
    (value : list Z) (o : oracle) : result (Status * PropertyRec * oracle) :=
  let sizeInBytes := Z.shiftr format' 3 in
  let replace := bool_decide (mode = PropModeReplace) in
  if negb (format' =? format p) && negb replace then Ok (BadMatch, p, o) else
  if negb (ptype p =? type) && negb replace then Ok (BadMatch, p, o) else
  match mode with
  | PropModeReplace =>
      let '(ok, o) := if negb (totalSize =? size p * Z.shiftr (format p) 3) then alloc o else (true, o) in
      if negb ok && negb (len =? 0) then Ok (BadAlloc, p, o) else
      bytes ← (if len =? 0 then Ok [] else read_request value totalSize);
      Ok (Success, mkProp (propertyName p) type format' len bytes, o)
  | PropModeAppend =>
      if len =? 0 then Ok (Success, p, o) else
      let '(ok, o) := alloc o in
      if negb ok then Ok (BadAlloc, p, o) else
      bytes ← read_request value totalSize;
      Ok (Success, mkProp (propertyName p) (ptype p) (format p) (size p + len)
                     (take (Z.to_nat (size p * sizeInBytes)) (data p) ++ bytes), o)
  | PropModePrepend =>
      if len =? 0 then Ok (Success, p, o) else
      let '(ok, o) := alloc o in
      if negb ok then Ok (BadAlloc, p, o) else
      old ← read_request (data p) (wrap_s 32 (size p * sizeInBytes));
      bytes ← read_request value totalSize;
      Ok (Success, mkProp (propertyName p) (ptype p) (format p) (size p + len) (bytes ++ old), o)
  end.

(** [totalSize] is an int. *)
Definition ChangeWindowProperty (ws : Windows) (w : WindowRec) (property type format' : Z) (mode : prop_mode) (len : Z)
    (value : list Z) (sendevent : bool) (o : oracle)
    : result (Status * WindowRec * list PropertyEvent * oracle) :=
  let sizeInBytes := Z.shiftr format' 3 in
  let totalSize := wrap_s 32 (len * sizeInBytes) in
  let evs := if sendevent then [notify w PropertyNewValue property] else [] in
  match find_prop property (wUserProps w) with
  | None =>
      '(ok, w, o) ← MakeWindowOptional ws w o;
      if negb ok then Ok (BadAlloc, w, [], o) else
      let '(ok, o) := alloc o in
      if negb ok then Ok (BadAlloc, w, [], o) else
      let '(ok, o) := alloc o in
      if negb ok && negb (len =? 0) then Ok (BadAlloc, w, [], o) else
      bytes ← (if len =? 0 then Ok [] else read_request value totalSize);
      Ok (Success, set_props w (mkProp property type format' len bytes :: wUserProps w), evs, o)
  | Some (before, p, after) =>
      '(rc, p, o) ← change_existing p type format' mode len totalSize value o;
      match rc with
      | Success => Ok (Success, set_props w (before ++ p :: after), evs, o)
      | _ => Ok (rc, w, [], o)
      end
  end.

(** ** Deletion *)

(** [pWin->optional->userProps = pProp->next] at the head, [prevProp->next = ...] elsewhere. *)
Definition unlink_prop (ws : Windows) (w : WindowRec) (before after : list PropertyRec) : result WindowRec :=
  let w := set_props w (before ++ after) in
  match before, after with [], [] => CheckWindowOptionalNeed ws w | _, _ => Ok w end.

Definition DeleteProperty (ws : Windows) (w : WindowRec) (propName : Z) : result (WindowRec * list PropertyEvent) :=
  match find_prop propName (wUserProps w) with
  | None => Ok (w, [])
  | Some (before, p, after) =>
      w' ← unlink_prop ws w before after;
      Ok (w', [notify w PropertyDelete (propertyName p)])
  end.

(** Every property is freed; the head pointer is left alone. *)
Definition DeleteAllWindowProperties (w : WindowRec) : list PropertyEvent :=
  map (fun p => notify w PropertyDelete (propertyName p)) (wUserProps w).

(** ** The server state the handlers work on *)

(** A client's fields that the handlers use. *)
Record Requestor := mkRequestor {
  rq_index : Z; errorValue : Z; noClientException : Status; req_len : Z
}.

Definition set_error (c : Requestor) (v : Z) : Requestor :=
  mkRequestor (rq_index c) v (noClientException c) (req_len c).

(** A reply with the data that follows it, in units of [reply_format] bits. *)
Inductive Reply :=
  | GetPropertyReply (reply_format length propertyType bytesAfter nItems : Z) (payload : list Z)
  | ListPropertiesReply (length nProperties : Z) (atoms : list Z).

Record Server := mkServer {
  db : World; atoms : AtomState; windows : Windows;
  events : list PropertyEvent; replies : list Reply; smem : oracle
}.

Definition drawables (s : Server) : gmap pointer WindowRec := tree (windows s).

Definition set_db (s : Server) d := mkServer d (atoms s) (windows s) (events s) (replies s) (smem s).
Definition set_drawable (s : Server) p w :=
  mkServer (db s) (atoms s) (mkWindows (<[p := w]> (drawables s)) (DontPropagateMasks (windows s)))
    (events s) (replies s) (smem s).
Definition add_events (s : Server) l := mkServer (db s) (atoms s) (windows s) (events s ++ l) (replies s) (smem s).
Definition set_smem (s : Server) o := mkServer (db s) (atoms s) (windows s) (events s) (replies s) o.
Definition reply (s : Server) r := mkServer (db s) (atoms s) (windows s) (events s) (replies s ++ [r]) (smem s).

(** ** Looking a window up (dix/dixutils.c) *)

Definition M_DRAWABLE_WINDOW : Z := 1.
Definition M_UNDRAWABLE_WINDOW : Z := 4.
Definition M_WINDOW : Z := Z.lor M_DRAWABLE_WINDOW M_UNDRAWABLE_WINDOW.
Definition M_DRAWABLE : Z := Z.lor M_DRAWABLE_WINDOW (Z.lor 2 8).
Definition RT_WINDOW : RESTYPE := Z.lor 1 (Z.lor RC_CACHED RC_DRAWABLE).
Definition RT_PIXMAP : RESTYPE := Z.lor 2 (Z.lor RC_CACHED RC_DRAWABLE).
Definition DixReadAccess : Z := 1.
Definition DixWriteAccess : Z := 2.
Definition DixDestroyAccess : Z := 4.

Section Handlers.
(** The answers of the security modules about resources and about properties. *)
Context (XaceHook : Z -> XID -> RESTYPE -> Z -> pointer -> bool).
Context (XacePropertyHook : Z -> pointer -> Z -> Z -> xace).

(** [BadDrawable], [BadMatch] or [Success] with the drawable. *)
Definition dixLookupDrawable (s : Server) (c : Requestor) (id : XID) (type access : Z)
    : result (Status * pointer * Server * Requestor) :=
  let c := set_error c id in
  if id =? 0 then Ok (BadDrawable, 0, s, c) else
  cl ← of_option Dangling (mjoin (clients (db s) !! Z.to_nat (rq_index c)));
  pTmp ← (if id =? lastDrawableID cl then
            let rtype := if negb (Z.land type M_WINDOW =? 0) then RT_WINDOW else RT_PIXMAP in
            Ok (if XaceHook (rq_index c) id rtype access (lastDrawable cl) then lastDrawable cl else 0)
          else SecurityLookupIDByClass XaceHook (db s) (Some (rq_index c)) id RC_DRAWABLE access);
  if pTmp =? 0 then Ok (BadDrawable, 0, s, c) else
  w ← of_option Dangling (drawables s !! pTmp);
  if Z.land (Z.shiftl 1 (drawable_type w)) (if type =? 0 then M_DRAWABLE else type) =? 0 then Ok (BadMatch, 0, s, c) else
  let s := if negb (Z.land type M_DRAWABLE =? 0)
           then set_db s (set_clients (db s) (<[Z.to_nat (rq_index c) :=
                  Some (mkClient (index cl) (clientAsMask cl) pTmp id 0 0)]> (clients (db s))))
           else s in
  Ok (Success, pTmp, s, c).

Definition dixLookupWindow (s : Server) (c : Requestor) (id : XID) (access : Z)
    : result (Status * pointer * Server * Requestor) :=
  '(rc, p, s, c) ← dixLookupDrawable s c id M_WINDOW access;
  Ok (match rc with BadDrawable => BadWindow | _ => rc end, p, s, c).

(** ** Request lengths (include/dix.h) *)

Definition REQUEST_SIZE_MATCH (sz req_len : Z) : bool := Z.shiftr sz 2 =? req_len.
Definition REQUEST_AT_LEAST_SIZE (sz req_len : Z) : bool := Z.shiftr sz 2 <=? req_len.

(** [n] is an int, [req_len] an unsigned 32 bit number.  The macro's first comparison comes
    before [n] is computed, which may itself read the request. *)
Definition REQUEST_FIXED_SIZE (sz : Z) (n : result Z) (req_len : Z) : result bool :=
  if req_len <? Z.shiftr sz 2 then Ok false else
  n ← n;
  Ok (negb ((req_len <=? u32 (Z.shiftr n 2)) || negb (Z.shiftr (u64 (u64 (sz + u64 n) + 3)) 2 =? req_len))).

(** The structure [*stuff] of [sz] bytes at the start of the request buffer: its fields lie
    within the request of [req_len] words, or reading them is a fault. *)
Definition struct_at {A} (sz req_len : Z) (stuff : A) : result A :=
  if 4 * req_len <? sz then Err OutOfBounds else Ok stuff.

(** ** ChangeProperty *)

(** The fixed part of the request, and the bytes after it. *)
Record xChangePropertyReq := mkCPReq {
  cp_mode : Z; cp_window : XID; cp_property : Z; cp_type : Z; cp_format : Z; cp_nUnits : Z;
  cp_bytes : list Z
}.
Definition sz_xChangePropertyReq : Z := 24.

(** What a handler leaves: its result, the state, and the client. *)
Abbreviation outcome := (result (Status * Server * Requestor)).

Definition ProcChangeProperty (s : Server) (c : Requestor) (stuff : xChangePropertyReq) : outcome :=
  if negb (REQUEST_AT_LEAST_SIZE sz_xChangePropertyReq (req_len c)) then Ok (BadLength, s, c) else
  stuff ← struct_at sz_xChangePropertyReq (req_len c) stuff;
  let format := schar (cp_format stuff) in
  let mode := schar (cp_mode stuff) in
  match mode_of mode with
  | None => Ok (BadValue, s, set_error c (u32 mode))
  | Some mode =>
      if negb ((format =? 8) || (format =? 16) || (format =? 32)) then Ok (BadValue, s, set_error c (u32 format)) else
      let len := cp_nUnits stuff in
      if Z.shiftr (0xffffffff - sz_xChangePropertyReq) 2 <? len then Ok (BadLength, s, c) else
      let totalSize := wrap_s 32 (len * Z.shiftr format 3) in
      fits ← REQUEST_FIXED_SIZE sz_xChangePropertyReq (Ok totalSize) (req_len c);
      if negb fits then Ok (BadLength, s, c) else
      '(err, pWin, s, c) ← dixLookupWindow s c (cp_window stuff) DixWriteAccess;
      match err with
      | Success =>
          if negb (ValidAtom (atoms s) (cp_property stuff)) then Ok (BadAtom, s, set_error c (cp_property stuff)) else
          if negb (ValidAtom (atoms s) (cp_type stuff)) then Ok (BadAtom, s, set_error c (cp_type stuff)) else
          match XacePropertyHook (rq_index c) pWin (cp_property stuff) DixWriteAccess with
          | XaceErrorOperation => Ok (BadAtom, s, set_error c (cp_property stuff))
          | XaceIgnoreOperation => Ok (Success, s, c)
          | XaceAllowOperation =>
              w ← of_option Dangling (drawables s !! pWin);
              '(err, w, evs, o) ← ChangeWindowProperty (windows s) w (cp_property stuff) (cp_type stuff) format mode len
                                    (cp_bytes stuff) true (smem s);
              let s := add_events (set_drawable (set_smem s o) pWin w) evs in
              match err with Success => Ok (noClientException c, s, c) | _ => Ok (err, s, c) end
          end
      | _ => Ok (err, s, c)
      end
  end.

(** ** RotateProperties *)

Record xRotatePropertiesReq := mkRPReq {
  rp_window : XID; rp_nAtoms : Z; rp_nPositions : Z; rp_atoms : list Z
}.
Definition sz_xRotatePropertiesReq : Z := 12.

(** The checks of one atom of the list, in the order of the code; [None] is found. *)
Inductive rotate_stop := RotateError (rc : Status) (error : option Z) | RotateIgnore.

(** The index of the named property in the list: the pointer [props[i]]. *)
Definition prop_index (props : list PropertyRec) (name : Z) : option nat :=
  fst <$> list_find (fun p => propertyName p = name) props.

Fixpoint collect (s : Server) (c : Requestor) (pWin : pointer) (props : list PropertyRec) (todo : list Z)
    : rotate_stop + list nat :=
  match todo with
  | [] => inr []
  | atom :: todo =>
      let action := XacePropertyHook (rq_index c) pWin atom (Z.lor DixReadAccess DixWriteAccess) in
      match ValidAtom (atoms s) atom, action with
      | false, _ | _, XaceErrorOperation => inl (RotateError BadAtom (Some atom))
      | _, XaceIgnoreOperation => inl RotateIgnore
      | _, _ =>
          if existsb (fun a => a =? atom) todo then inl (RotateError BadMatch None) else
          match prop_index props atom with
          | None => inl (RotateError BadMatch None)
          | Some k => match collect s c pWin props todo with inl e => inl e | inr ks => inr (k :: ks) end
          end
      end
  end.

(** [while (delta < 0) delta += nAtoms]. *)
Fixpoint add_until (fuel : nat) (delta n : Z) : Z :=
  match fuel with
  | O => delta
  | S fuel => if delta <? 0 then add_until fuel (delta + n) n else delta
  end.

Definition rename (name : Z) (p : PropertyRec) : PropertyRec := mkProp name (ptype p) (format p) (size p) (data p).

(** [for (i = 0; i < nAtoms; i++)]: event and renaming of [props[i]], through the pointer. *)
Fixpoint rotate_loop (props : list PropertyRec) (names : list Z) (delta : Z) (i : Z) (ks : list nat)
    : list PropertyRec * list Z :=
  match ks with
  | [] => (props, [])
  | k :: ks =>
      let old := from_option propertyName 0 (props !! k) in
      let new := default 0 (names !! Z.to_nat ((i + delta) mod Z.of_nat (length names))) in
      let '(props, evs) := rotate_loop (alter (rename new) k props) names delta (i + 1) ks in
      (props, old :: evs)
  end.

Definition ProcRotateProperties (s : Server) (c : Requestor) (stuff : xRotatePropertiesReq) : outcome :=
  let nAtoms := stuff ← struct_at sz_xRotatePropertiesReq (req_len c) stuff; Ok (rp_nAtoms stuff) in
  fits ← REQUEST_FIXED_SIZE sz_xRotatePropertiesReq (n ← nAtoms; Ok (Z.shiftl n 2)) (req_len c);
  if negb fits then Ok (BadLength, s, c) else
  stuff ← struct_at sz_xRotatePropertiesReq (req_len c) stuff;
  '(rc, pWin, s, c) ← dixLookupWindow s c (rp_window stuff) DixWriteAccess;
  match rc with
  | Success =>
      if rp_nAtoms stuff =? 0 then Ok (Success, s, c) else
      let '(ok, o) := alloc (smem s) in
      let s := set_smem s o in
      if negb ok then Ok (BadAlloc, s, c) else
      names ← read_request (rp_atoms stuff) (rp_nAtoms stuff);
      w ← of_option Dangling (drawables s !! pWin);
      match collect s c pWin (wUserProps w) names with
      | inl (RotateError rc e) => Ok (rc, s, from_option (set_error c) c e)
      | inl RotateIgnore => Ok (Success, s, c)
      | inr ks =>
          let delta := rp_nPositions stuff in
          if Z.abs delta mod rp_nAtoms stuff =? 0 then Ok (Success, s, c) else
          let delta := add_until (Z.to_nat (Z.abs delta)) delta (rp_nAtoms stuff) in
          let '(props, evs) := rotate_loop (wUserProps w) names delta 0 ks in
          Ok (Success, add_events (set_drawable s pWin (set_props w props)) (map (notify w PropertyNewValue) evs), c)
      end
  | _ => Ok (rc, s, c)
  end.

(** ** GetProperty *)

Record xGetPropertyReq := mkGPReq {
  gp_delete : Z; gp_window : XID; gp_property : Z; gp_type : Z; gp_longOffset : Z; gp_longLength : Z
}.
Definition sz_xGetPropertyReq : Z := 24.
Definition AnyPropertyType : Z := 0.

Definition NullPropertyReply (propertyType format : Z) : Reply := GetPropertyReply format 0 propertyType 0 0 [].

Definition ProcGetProperty (s : Server) (c : Requestor) (stuff : xGetPropertyReq) : outcome :=
  if negb (REQUEST_SIZE_MATCH sz_xGetPropertyReq (req_len c)) then Ok (BadLength, s, c) else
  stuff ← struct_at sz_xGetPropertyReq (req_len c) stuff;
  '(rc, pWin, s, c) ← dixLookupWindow s c (gp_window stuff) DixReadAccess;
  match rc with
  | Success =>
      if negb (ValidAtom (atoms s) (gp_property stuff)) then Ok (BadAtom, s, set_error c (gp_property stuff)) else
      if negb ((gp_delete stuff =? 1) || (gp_delete stuff =? 0)) then Ok (BadValue, s, set_error c (gp_delete stuff)) else
      if negb (gp_type stuff =? AnyPropertyType) && negb (ValidAtom (atoms s) (gp_type stuff))
      then Ok (BadAtom, s, set_error c (gp_type stuff)) else
      w ← of_option Dangling (drawables s !! pWin);
      match find_prop (gp_property stuff) (wUserProps w) with
      | None => Ok (noClientException c, reply s (NullPropertyReply 0 0), c)
      | Some (before, p, after) =>
          let delete := negb (gp_delete stuff =? 0) in
          let access_mode := if delete then Z.lor DixReadAccess DixDestroyAccess else DixReadAccess in
          match XacePropertyHook (rq_index c) pWin (gp_property stuff) access_mode with
          | XaceErrorOperation => Ok (BadAtom, s, set_error c (gp_property stuff))
          | XaceIgnoreOperation => Ok (noClientException c, reply s (NullPropertyReply (ptype p) (format p)), c)
          | XaceAllowOperation =>
              if negb (gp_type stuff =? ptype p) && negb (gp_type stuff =? AnyPropertyType)
              then Ok (Success, reply s (GetPropertyReply (format p) 0 (ptype p) (u32 (size p)) 0 []), c) else
              let n := format p / 8 * size p in
              let ind := u32 (Z.shiftl (gp_longOffset stuff) 2) in
              if n <? ind then Ok (BadValue, s, set_error c (gp_longOffset stuff)) else
              let len := Z.min (n - ind) (u32 (4 * gp_longLength stuff)) in
              let bytesAfter := u32 (n - (ind + len)) in
              payload ← (if len =? 0 then Ok [] else read_request (drop (Z.to_nat ind) (data p)) len);
              let gone := delete && (bytesAfter =? 0) in
              let s := if gone then add_events s [notify w PropertyDelete (propertyName p)] else s in
              let s := reply s (GetPropertyReply (format p) (u32 (Z.shiftr (len + 3) 2)) (ptype p) bytesAfter
                                  (u32 (len / (format p / 8))) payload) in
              if gone then
                w' ← unlink_prop (windows s) w before after;
                Ok (noClientException c, set_drawable s pWin w', c)
              else Ok (noClientException c, s, c)
          end
      end
  | _ => Ok (rc, s, c)
  end.

(** ** ListProperties and DeleteProperty *)

Definition sz_xResourceReq : Z := 8.

Definition ProcListProperties (s : Server) (c : Requestor) (id : XID) : outcome :=
  if negb (REQUEST_SIZE_MATCH sz_xResourceReq (req_len c)) then Ok (BadLength, s, c) else
  id ← struct_at sz_xResourceReq (req_len c) id;
  '(rc, pWin, s, c) ← dixLookupWindow s c id DixReadAccess;
  match rc with
  | Success =>
      w ← of_option Dangling (drawables s !! pWin);
      let names := map propertyName (wUserProps w) in
      let numProps := Z.of_nat (length names) in
      let '(ok, o) := if numProps =? 0 then (true, smem s) else alloc (smem s) in
      let s := set_smem s o in
      if negb ok then Ok (BadAlloc, s, c) else
      Ok (noClientException c,
          reply s (ListPropertiesReply (u32 (Z.shiftr (numProps * 4) 2)) (u16 numProps) names), c)
  | _ => Ok (rc, s, c)
  end.

Record xDeletePropertyReq := mkDPReq { dp_window : XID; dp_property : Z }.
Definition sz_xDeletePropertyReq : Z := 12.

Definition ProcDeleteProperty (s : Server) (c : Requestor) (stuff : xDeletePropertyReq) : outcome :=
  if negb (REQUEST_SIZE_MATCH sz_xDeletePropertyReq (req_len c)) then Ok (BadLength, s, c) else
  stuff ← struct_at sz_xDeletePropertyReq (req_len c) stuff;
  '(rc, pWin, s, c) ← dixLookupWindow s c (dp_window stuff) DixWriteAccess;
  match rc with
  | Success =>
      if negb (ValidAtom (atoms s) (dp_property stuff)) then Ok (BadAtom, s, set_error c (dp_property stuff)) else
      match XacePropertyHook (rq_index c) pWin (dp_property stuff) DixDestroyAccess with
      | XaceErrorOperation => Ok (BadAtom, s, set_error c (dp_property stuff))
      | XaceIgnoreOperation => Ok (Success, s, c)
      | XaceAllowOperation =>
          w ← of_option Dangling (drawables s !! pWin);
          '(w, evs) ← DeleteProperty (windows s) w (dp_property stuff);
          let s := add_events (set_drawable s pWin w) evs in
          match noClientException c with Success => Ok (Success, s, c) | e => Ok (e, s, c) end
      end
  | _ => Ok (rc, s, c)
  end.

End Handlers.
