(* ===== verification/PropertyProofs.v ===== *)
(** * PropertyProofs: properties of a window as a map (dix/property.c)

    What the requests promise, over the map from property names to type, format
    and bytes: [ChangeWindowProperty] against its specification, deletion, reading
    by slices, and rotation. *)

From S2P Require Import Prelude Atom ResourceDB ResourceProofs Window WindowProofs Property.

(** ** The search loop *)

Lemma find_prop_Some name props b p a :
  find_prop name props = Some (b, p, a) ->
  props = b ++ p :: a ∧ propertyName p = name ∧ name ∉ map propertyName b.
Proof.
  revert b. induction props as [|q props IH]; intros b; simpl; [done|].
  destruct (Z.eqb_spec (propertyName q) name).
  - intros [= <- <- <-]. split_and!; [done|done|]. by intros ?%elem_of_nil.
  - destruct (find_prop name props) as [[[b' q'] a']|]; simpl; [|done]. intros [= <- -> ->].
    destruct (IH b' eq_refl) as (-> & <- & Hn). split_and!; [done|done|]. simpl. rewrite elem_of_cons. intros [?|?]; auto.
Qed.

Lemma find_prop_None name props : find_prop name props = None -> name ∉ map propertyName props.
Proof.
  induction props as [|q props IH]; simpl; [by intros _ ?%elem_of_nil|].
  destruct (Z.eqb_spec (propertyName q) name); [done|].
  destruct (find_prop name props) as [[[b' q'] a']|]; simpl; [done|]. intros _. rewrite elem_of_cons.
  intros [?|?]; [done|]. by apply IH.
Qed.

Lemma find_prop_app name b p a :
  name ∉ map propertyName b -> propertyName p = name -> find_prop name (b ++ p :: a) = Some (b, p, a).
Proof.
  intros Hb Hp. induction b as [|q b IH]; simpl in *.
  - by rewrite Hp, Z.eqb_refl.
  - rewrite elem_of_cons in Hb. destruct (Z.eqb_spec (propertyName q) name) as [E|]; [exfalso; auto|].
    rewrite IH by auto. done.
Qed.

Lemma find_prop_skip name b a :
  name ∉ map propertyName b -> find_prop name (b ++ a) = '(b', p, a') ← find_prop name a; Some (b ++ b', p, a').
Proof.
  intros Hb. induction b as [|q b IH]; simpl in *.
  - by destruct (find_prop name a) as [[[? ?] ?]|].
  - rewrite elem_of_cons in Hb. destruct (Z.eqb_spec (propertyName q) name) as [E|]; [exfalso; auto|].
    rewrite IH by auto. by destruct (find_prop name a) as [[[? ?] ?]|].
Qed.

(** ** Well-formed windows, and their properties as a map *)

Definition format_ok (f : Z) : Prop := f = 8 ∨ f = 16 ∨ f = 32.

Record prop_ok (p : PropertyRec) : Prop := {
  po_format : format_ok (format p);
  po_size : 0 <= size p;
  po_data : Z.of_nat (length (data p)) = size p * (format p / 8)
}.

Definition props_ok (props : list PropertyRec) : Prop :=
  NoDup (map propertyName props) ∧ Forall prop_ok props.

Definition value : Type := (Z * Z * list Z)%type.
Definition val_of (p : PropertyRec) : value := (ptype p, format p, data p).

(** The value of a property, as a client can read it. *)
Definition prop_val (props : list PropertyRec) (name : Z) : option value :=
  '(_, p, _) ← find_prop name props; Some (val_of p).

Lemma format_shift f : format_ok f -> Z.shiftr f 3 = f / 8 ∧ 1 <= f / 8 <= 4.
Proof. intros [->|[-> | ->]]; done. Qed.

Lemma props_ok_middle b p a : props_ok (b ++ p :: a) -> prop_ok p ∧ propertyName p ∉ map propertyName (b ++ a).
Proof.
  intros [Hn Hf]. apply Forall_app in Hf as [_ Hf]. inversion Hf; subst. split; [done|].
  rewrite map_app in *. simpl in Hn. apply NoDup_app in Hn as (_ & Hd & Hn). apply NoDup_cons in Hn as [Hn _].
  rewrite elem_of_app. intros [H|H]; [|done]. apply (Hd _ H). left.
Qed.

(** Replacing a property by one with the same name. *)
Lemma props_ok_replace b p a p' :
  props_ok (b ++ p :: a) -> propertyName p' = propertyName p -> prop_ok p' -> props_ok (b ++ p' :: a).
Proof.
  intros [Hn Hf] E Hp. split.
  - rewrite map_app in *. simpl in *. by rewrite E.
  - apply Forall_app in Hf as [Hb Hf]. inversion Hf; subst. apply Forall_app. by split; [|constructor].
Qed.

Lemma props_ok_remove b p a : props_ok (b ++ p :: a) -> props_ok (b ++ a).
Proof.
  intros [Hn Hf]. split.
  - rewrite map_app in *. simpl in *. apply NoDup_app in Hn as (Hb & Hd & Hn). apply NoDup_cons in Hn as [_ Hn].
    apply NoDup_app. split_and!; [done| |done]. intros x Hx Hx'. apply (Hd x Hx). by right.
  - apply Forall_app in Hf as [Hb Hf]. inversion Hf; subst. by apply Forall_app.
Qed.

Lemma prop_val_middle b p a name :
  props_ok (b ++ p :: a) -> prop_val (b ++ p :: a) name =
    if decide (name = propertyName p) then Some (val_of p) else prop_val (b ++ a) name.
Proof.
  intros Hok. unfold prop_val. apply props_ok_middle in Hok as [_ Hn]. rewrite map_app, elem_of_app in Hn.
  case_decide as E.
  - subst name. rewrite find_prop_app by tauto. done.
  - destruct (decide (name ∈ map propertyName b)) as [Hb|Hb].
    + apply list_elem_of_In, in_map_iff in Hb as (q & Hq & Hin). apply list_elem_of_In in Hin.
      clear Hn. induction b as [|r b IH]; [by apply elem_of_nil in Hin|]. simpl.
      destruct (Z.eqb_spec (propertyName r) name); [done|].
      apply elem_of_cons in Hin as [->|Hin]; [done|]. specialize (IH Hin).
      destruct (find_prop name (b ++ p :: a)) as [[[? ?] ?]|], (find_prop name (b ++ a)) as [[[? ?] ?]|]; done.
    + rewrite !find_prop_skip by done. simpl. destruct (Z.eqb_spec (propertyName p) name); [done|].
      by destruct (find_prop name a) as [[[? ?] ?]|].
Qed.

Lemma prop_val_cons p props name :
  prop_val (p :: props) name = if decide (name = propertyName p) then Some (val_of p) else prop_val props name.
Proof.
  unfold prop_val. simpl. destruct (Z.eqb_spec (propertyName p) name), (decide (name = propertyName p)); try congruence.
  - done.
  - by destruct (find_prop name props) as [[[? ?] ?]|].
Qed.

Lemma prop_val_notin props name : name ∉ map propertyName props -> prop_val props name = None.
Proof.
  intros Hn. unfold prop_val. destruct (find_prop name props) as [[[b p] a]|] eqn:E; [|done].
  apply find_prop_Some in E as (-> & <- & _). exfalso. apply Hn. rewrite map_app. apply elem_of_app. right. left.
Qed.

(** ** ChangeWindowProperty against its specification *)

(** The new value of a property, [None] when type or format do not match. *)
Definition change_spec (old : option value) (mode : prop_mode) (new : value) : option value :=
  match old, mode with
  | None, _ | _, PropModeReplace => Some new
  | Some (t, f, d), PropModeAppend =>
      if decide ((t, f) = (new.1.1, new.1.2)) then Some (t, f, d ++ new.2) else None
  | Some (t, f, d), PropModePrepend =>
      if decide ((t, f) = (new.1.1, new.1.2)) then Some (t, f, new.2 ++ d) else None
  end.

(** ** The fixed part of a request *)

(** The macros keep the fixed part of a request readable. *)
Lemma struct_at_ok {A} sz len (stuff : A) : sz <= 4 * len -> struct_at sz len stuff = Ok stuff.
Proof. intros H. unfold struct_at. destruct (Z.ltb_spec (4 * len) sz); [lia|done]. Qed.

Lemma shiftr2_le sz len : sz mod 4 = 0 -> Z.shiftr sz 2 <= len -> sz <= 4 * len.
Proof. intros Hm H. rewrite Z.shiftr_div_pow2 in H by done. change (2 ^ 2) with 4 in H. Z.to_euclidean_division_equations; lia. Qed.

Lemma REQUEST_SIZE_MATCH_ok sz len : sz mod 4 = 0 -> REQUEST_SIZE_MATCH sz len = true -> sz <= 4 * len.
Proof. unfold REQUEST_SIZE_MATCH. intros Hm H. apply Z.eqb_eq in H. apply shiftr2_le; [done|lia]. Qed.

Lemma REQUEST_AT_LEAST_SIZE_ok sz len : sz mod 4 = 0 -> REQUEST_AT_LEAST_SIZE sz len = true -> sz <= 4 * len.
Proof. unfold REQUEST_AT_LEAST_SIZE. intros Hm H. apply Z.leb_le in H. by apply shiftr2_le. Qed.

Lemma REQUEST_FIXED_SIZE_total sz n len e : REQUEST_FIXED_SIZE sz (Ok n) len = Err e -> False.
Proof. unfold REQUEST_FIXED_SIZE. by case_match. Qed.

Lemma REQUEST_FIXED_SIZE_least sz n len : sz mod 4 = 0 -> REQUEST_FIXED_SIZE sz n len = Ok true -> sz <= 4 * len.
Proof. unfold REQUEST_FIXED_SIZE. intros Hm H. destruct (Z.ltb_spec len (Z.shiftr sz 2)); [done|]. by apply shiftr2_le. Qed.

(** The length that the macro computes from the request is read after the first comparison. *)
Lemma REQUEST_FIXED_SIZE_struct {A} sz len (stuff : A) (f : A -> Z) (g : Z -> Z) :
  sz mod 4 = 0 ->
  REQUEST_FIXED_SIZE sz (n ← (stuff ← struct_at sz len stuff; Ok (f stuff)); Ok (g n)) len =
  REQUEST_FIXED_SIZE sz (Ok (g (f stuff))) len.
Proof.
  intros Hm. unfold REQUEST_FIXED_SIZE. destruct (Z.ltb_spec len (Z.shiftr sz 2)); [done|].
  by rewrite struct_at_ok by (by apply shiftr2_le).
Qed.

Lemma read_request_ok (l : list Z) n :
  0 <= n <= Z.of_nat (length l) -> read_request l n = Ok (take (Z.to_nat n) l).
Proof.
  intros H. unfold read_request. destruct (Z.ltb_spec n 0); [lia|]. destruct (Z.ltb_spec (Z.of_nat (length l)) n); [lia|done].
Qed.

Lemma wrap_s_small w z : 0 < w -> - 2 ^ (w - 1) <= z < 2 ^ (w - 1) -> wrap_s w z = z.
Proof.
  intros Hw Hz. assert (2 ^ w = 2 * 2 ^ (w - 1)) as Hp by (rewrite <- Z.pow_succ_r by lia; f_equal; lia).
  unfold wrap_s. destruct (Z.ltb_spec (z mod 2 ^ w) (2 ^ (w - 1))) as [Hlt|Hge].
  - destruct (Z.ltb_spec z 0).
    + rewrite <- (Z.mod_unique z (2 ^ w) (-1) (z + 2 ^ w)) in Hlt by lia. lia.
    + rewrite Z.mod_small in * by lia. done.
  - destruct (Z.ltb_spec z 0).
    + rewrite <- (Z.mod_unique z (2 ^ w) (-1) (z + 2 ^ w)) by lia. lia.
    + rewrite Z.mod_small in Hge by lia. lia.
Qed.

(** A request for [len] units that fits in its value and in an int. *)
Record change_ok (f len : Z) (value : list Z) : Prop := {
  ch_format : format_ok f;
  ch_len : 0 <= len;
  ch_int : len * (f / 8) < 2 ^ 31;
  ch_value : len * (f / 8) <= Z.of_nat (length value)
}.

(** The bytes the request carries. *)
Definition request_bytes (f len : Z) (value : list Z) : list Z := take (Z.to_nat (len * (f / 8))) value.

Lemma request_bytes_length f len value :
  change_ok f len value -> Z.of_nat (length (request_bytes f len value)) = len * (f / 8).
Proof.
  intros [Hf Hl Hi Hv]. destruct (format_shift f Hf) as [_ H8]. unfold request_bytes. rewrite length_take. nia.
Qed.

Lemma read_bytes_ok f len value :
  change_ok f len value ->
  wrap_s 32 (len * Z.shiftr f 3) = len * (f / 8) ∧
  read_request value (len * (f / 8)) = Ok (request_bytes f len value) ∧
  (if len =? 0 then Ok [] else read_request value (len * (f / 8))) = Ok (request_bytes f len value).
Proof.
  intros [Hf Hl Hi Hv]. destruct (format_shift f Hf) as [-> H8].
  assert (0 <= len * (f / 8)) by nia.
  split; [apply wrap_s_small; lia|]. rewrite read_request_ok by lia. split; [done|].
  destruct (Z.eqb_spec len 0) as [->|]; done.
Qed.

Lemma alloc_fail o o' : alloc o = (false, o') -> may_fail o.
Proof. intros E. by apply (proj1 (alloc_spec _ _ _ E)). Qed.

Lemma alloc_may_fail o ok o' : alloc o = (ok, o') -> may_fail o' -> may_fail o.
Proof. intros E. apply (proj1 (proj2 (alloc_spec _ _ _ E))). Qed.

(** What becomes of an existing property. *)
Lemma change_existing_ok p type f mode len value o :
  prop_ok p -> change_ok f len value ->
  (mode = PropModePrepend -> Z.of_nat (length (data p)) < 2 ^ 31) ->
  ∃ rc p' o', change_existing p type f mode len (len * (f / 8)) value o = Ok (rc, p', o') ∧
    match rc with
    | Success => prop_ok p' ∧ propertyName p' = propertyName p ∧
        change_spec (Some (val_of p)) mode (type, f, request_bytes f len value) = Some (val_of p')
    | BadMatch => change_spec (Some (val_of p)) mode (type, f, request_bytes f len value) = None
    | BadAlloc => may_fail o
    | _ => False
    end.
Proof.
  intros [Pf Ps Pd] Hch Hpre. destruct (format_shift f (ch_format _ _ _ Hch)) as [Hsh H8].
  destruct (read_bytes_ok f len value Hch) as (_ & Hread & Hread0).
  pose proof (request_bytes_length f len value Hch) as Hlen. pose proof (ch_len _ _ _ Hch).
  unfold change_existing. rewrite Hsh, Hread0, Hread.
  set (bytes := request_bytes f len value) in *.
  destruct (bool_decide_reflect (mode = PropModeReplace)) as [->|Hmode]; cbn [negb]; rewrite ?andb_false_r, ?andb_true_r.
  { destruct (if negb (len * (f / 8) =? size p * Z.shiftr (format p) 3) then alloc o else (true, o)) as [ok o1] eqn:Eo.
    destruct (negb ok && negb (len =? 0)) eqn:Efail.
    - exists BadAlloc, p, o1. split; [done|]. zbool. subst ok. destruct (negb _) in Eo; [by apply alloc_fail in Eo|done].
    - simpl. do 3 eexists. split; [done|]. split_and!; [by split; [apply Hch|done..]|done|done]. }
  destruct (Z.eqb_spec f (format p)) as [Ef|Ef]; cbn [negb].
  2: { exists BadMatch, p, o. split; [done|]. unfold val_of. destruct mode; simpl; [done|..];
       rewrite decide_False by congruence; done. }
  destruct (Z.eqb_spec (ptype p) type) as [Et|Et]; cbn [negb].
  2: { exists BadMatch, p, o. split; [done|]. unfold val_of. destruct mode; simpl; [done|..];
       rewrite decide_False by congruence; done. }
  assert (Hspec : (ptype p, format p) = (type, f)) by congruence.
  destruct (Z.eqb_spec len 0) as [E0|Hne].
  { assert (bytes = []) as -> by (apply nil_length_inv; lia).
    destruct mode; [done|..]; do 3 eexists; (split; [done|]); (split_and!; [by split|done|]);
      unfold val_of; simpl; rewrite decide_True by done; by rewrite ?app_nil_r. }
  destruct mode; [done|..]; destruct (alloc o) as [ok o1] eqn:Eo; (destruct ok; cbn [negb];
    [|exists BadAlloc, p, o1; split; [done|]; by apply alloc_fail in Eo]).
  - rewrite wrap_s_small; [|done|rewrite Ef, <- Pd; specialize (Hpre eq_refl); lia].
    rewrite read_request_ok, take_ge by (rewrite Ef, <- Pd; lia). simpl.
    do 3 eexists. split; [done|]. split_and!; [|done|unfold val_of; simpl; by rewrite decide_True].
    split; simpl; [by rewrite <- Ef; apply Hch|lia|]. rewrite length_app. rewrite Ef in Hlen. lia.
  - simpl. rewrite take_ge by (rewrite Ef, <- Pd; lia).
    do 3 eexists. split; [done|]. split_and!; [|done|unfold val_of; simpl; by rewrite decide_True].
    split; simpl; [by rewrite <- Ef; apply Hch|lia|]. rewrite length_app. rewrite Ef in Hlen. lia.
Qed.

Lemma set_props_place w props : same_place w (set_props w props).
Proof. split; try done. simpl. intros _ [opt ->]. by eexists. Qed.

Lemma set_props_same w : set_props w (wUserProps w) = w.
Proof. unfold set_props, set_optional. rewrite app_nil_r. by destruct w as [? ? ? ? ? ? [[]|]]. Qed.

Lemma wUserProps_set_props w props opt :
  optional w = Some opt -> wUserProps (set_props w props) = props.
Proof. intros E. unfold wUserProps, set_props. by rewrite E. Qed.

(** Adding a property to the head of the list. *)
Lemma props_ok_cons p props :
  props_ok props -> prop_ok p -> propertyName p ∉ map propertyName props -> props_ok (p :: props).
Proof. intros [Hn Hf] Hp Hnin. split; simpl; [by constructor|by constructor]. Qed.

Lemma find_prop_optional w name x : find_prop name (wUserProps w) = Some x -> is_Some (optional w).
Proof. unfold wUserProps. destruct (optional w); [eauto|done]. Qed.

(** The outcome of a change, as its client sees it. *)
Definition changed (w w' : WindowRec) (property : Z) (mode : prop_mode) (new : value) (sendevent : bool)
    (o : oracle) (rc : Status) (evs : list PropertyEvent) : Prop :=
  props_ok (wUserProps w') ∧ same_place w w' ∧
  match rc with
  | Success =>
      (∃ v, change_spec (prop_val (wUserProps w) property) mode new = Some v ∧
        prop_val (wUserProps w') property = Some v) ∧
      (∀ other, other <> property -> prop_val (wUserProps w') other = prop_val (wUserProps w) other) ∧
      evs = (if sendevent then [notify w PropertyNewValue property] else [])
  | BadMatch => change_spec (prop_val (wUserProps w) property) mode new = None ∧ w' = w ∧ evs = []
  | BadAlloc => may_fail o ∧ wUserProps w' = wUserProps w ∧ evs = []
  | _ => False
  end.

Lemma ChangeWindowProperty_new ws w property type f mode len value sendevent o :
  window_ok ws w -> props_ok (wUserProps w) -> change_ok f len value -> find_prop property (wUserProps w) = None ->
  ∃ rc w' evs o', ChangeWindowProperty ws w property type f mode len value sendevent o = Ok (rc, w', evs, o') ∧
    changed w w' property mode (type, f, request_bytes f len value) sendevent o rc evs.
Proof.
  intros Hwin Hw Hch Hfind. pose proof (find_prop_None _ _ Hfind) as Hnin.
  destruct (read_bytes_ok f len value Hch) as (Hwrap & Hread & Hread0).
  unfold ChangeWindowProperty. rewrite Hwrap, Hfind, Hread0.
  destruct (MakeWindowOptional_ok ws w o Hwin) as (ok & w1 & o1 & -> & Hu & Hsame & Hopt & Hfail & Hmono).
  cbn [mbind result_bind].
  destruct ok; cbn [negb]. 2: { do 4 eexists. split; [done|]. unfold changed. rewrite Hu. by split_and!; auto. }
  destruct (alloc o1) as [ok2 o2] eqn:E2. destruct ok2; cbn [negb].
  2: { do 4 eexists. split; [done|]. unfold changed. rewrite Hu. split_and!; eauto using alloc_fail. }
  destruct (alloc o2) as [ok3 o3] eqn:E3. destruct (negb ok3 && negb (len =? 0)) eqn:Ef.
  { zbool. subst ok3. do 4 eexists. split; [done|]. unfold changed. rewrite Hu.
    split_and!; eauto using alloc_fail, alloc_may_fail. }
  simpl. do 4 eexists. split; [done|]. destruct (Hopt eq_refl) as [opt Eopt]. unfold changed.
  rewrite (wUserProps_set_props _ _ _ Eopt), Hu.
  assert (Hp : prop_ok (mkProp property type f len (request_bytes f len value))).
  { split; simpl; [apply Hch|apply Hch|by apply request_bytes_length]. }
  assert (Hok : props_ok (mkProp property type f len (request_bytes f len value) :: wUserProps w)).
  { by apply props_ok_cons. }
  split_and!; [done|exact (same_place_trans _ _ _ Hsame (set_props_place _ _))| | |done].
  - exists (type, f, request_bytes f len value). rewrite (prop_val_notin _ _ Hnin). split; [done|].
    by rewrite prop_val_cons, decide_True.
  - intros other Hne. by rewrite prop_val_cons, decide_False.
Qed.

Lemma ChangeWindowProperty_changed ws w property type f mode len value sendevent o :
  window_ok ws w -> props_ok (wUserProps w) -> change_ok f len value ->
  (mode = PropModePrepend -> Forall (fun p => Z.of_nat (length (data p)) < 2 ^ 31) (wUserProps w)) ->
  ∃ rc w' evs o', ChangeWindowProperty ws w property type f mode len value sendevent o = Ok (rc, w', evs, o') ∧
    changed w w' property mode (type, f, request_bytes f len value) sendevent o rc evs.
Proof.
  intros Hwin Hw Hch Hbig. destruct (find_prop property (wUserProps w)) as [[[b p] a]|] eqn:Ef;
    [|by apply ChangeWindowProperty_new].
  destruct (find_prop_optional _ _ _ Ef) as [opt Eopt].
  pose proof (find_prop_Some _ _ _ _ _ Ef) as (Ew & En & Hb).
  destruct (read_bytes_ok f len value Hch) as (Hwrap & _).
  rewrite Ew in Hw, Hbig. destruct (props_ok_middle _ _ _ Hw) as [Hp _].
  unfold ChangeWindowProperty. rewrite Hwrap, Ef.
  destruct (change_existing_ok p type f mode len value o Hp Hch) as (rc & p' & o' & -> & Hrc).
  { intros Em. specialize (Hbig Em). apply Forall_app in Hbig as [_ Hbig]. by inversion Hbig. }
  simpl. assert (Hold : prop_val (wUserProps w) property = Some (val_of p)).
  { rewrite Ew, (prop_val_middle _ _ _ _ Hw), decide_True by done. done. }
  destruct rc; try done; do 4 eexists; (split; [done|]); unfold changed; rewrite ?Hold.
  - destruct Hrc as (Hp' & Hn' & Hspec). rewrite (wUserProps_set_props _ _ _ Eopt), Ew.
    pose proof (props_ok_replace _ _ _ _ Hw Hn' Hp') as Hok.
    split_and!; [done|apply set_props_place| | |done].
    + eexists. split; [done|]. rewrite (prop_val_middle _ _ _ _ Hok), decide_True by congruence. done.
    + intros other Hne. rewrite (prop_val_middle _ _ _ _ Hok), (prop_val_middle _ _ _ _ Hw), !decide_False by congruence.
      done.
  - rewrite Ew. by split_and!.
  - rewrite Ew. by split_and!.
Qed.

(** C5: [ChangeWindowProperty] implements its specification on the map from property names
    to (type, format, bytes): it creates, replaces, appends or prepends exactly the bytes of
    the request, refuses a mismatch of type or format with BadMatch, fails with BadAlloc only
    if memory was refused, changes no other property, keeps the list well formed, and sends
    one event exactly when it succeeds and is asked to. *)
Theorem ChangeWindowProperty_correct ws w property type f mode len value sendevent o :
  window_ok ws w -> props_ok (wUserProps w) -> change_ok f len value ->
  (mode = PropModePrepend -> Forall (fun p => Z.of_nat (length (data p)) < 2 ^ 31) (wUserProps w)) ->
  ∃ rc w' evs o', ChangeWindowProperty ws w property type f mode len value sendevent o = Ok (rc, w', evs, o') ∧
    changed w w' property mode (type, f, request_bytes f len value) sendevent o rc evs.
Proof. apply ChangeWindowProperty_changed. Qed.

(** A child of the root window with one property. *)
Definition demo_optional (props : list PropertyRec) : WindowOpt :=
  mkOpt 33 0 32 0 0 0 0 props all_planes 0 0 0 0 0 [].
Definition demo_root : WindowRec := mkWindow 50 0 0 0 true [] (Some (demo_optional [])).
Definition demo_child (props : list PropertyRec) : WindowRec :=
  mkWindow 100 0 800 0 true [] (Some (demo_optional props)).
Definition demo_tree (props : list PropertyRec) : Windows :=
  mkWindows (<[900 := demo_child props]> {[ 800 := demo_root ]}) [0].
Definition demo_props : list PropertyRec := [mkProp 39 31 16 2 [1; 2; 3; 4]].
Definition demo_window : WindowRec := demo_child demo_props.

Lemma demo_window_ok : props_ok (wUserProps demo_window).
Proof. split; repeat constructor; simpl; try (by intros ?%elem_of_nil); try lia; by right; left. Qed.

Lemma demo_tree_ok props q w : tree (demo_tree props) !! q = Some w -> window_ok (demo_tree props) w.
Proof.
  assert (Hroot : rooted (tree (demo_tree props)) 2 800).
  { by eapply rooted_root; [reflexivity|..|eexists]. }
  unfold demo_tree at 1. cbn [tree]. intros [[_ <-]|[_ [_ <-]%lookup_singleton_Some]]%lookup_insert_Some; (split; [by eexists|]).
  - right. split; [done|]. exact Hroot.
  - left. split; [done|]. by eexists.
Qed.

Lemma ChangeWindowProperty_correct_witness :
  ∃ rc w' evs o', ChangeWindowProperty (demo_tree demo_props) demo_window 39 31 16 PropModePrepend 1 [7; 8; 9] true []
      = Ok (rc, w', evs, o') ∧
    changed demo_window w' 39 PropModePrepend (31, 16, request_bytes 16 1 [7; 8; 9]) true [] rc evs.
Proof.
  apply (ChangeWindowProperty_correct (demo_tree demo_props) demo_window 39 31 16 PropModePrepend 1 [7; 8; 9] true []).
  - by apply (demo_tree_ok demo_props 900).
  - apply demo_window_ok.
  - split; [by right; left|lia|by vm_compute|by vm_compute].
  - intros _. by repeat constructor.
Defined.
