(* ===== verification/PropertyRead.v ===== *)
(** * PropertyRead: reading and deleting properties (dix/property.c)

    [ProcGetProperty] against the bytes of the property, the arithmetic of its offset
    and length, and deletion. *)

From S2P Require Import Prelude Atom ResourceDB ResourceProofs ResourceInit.
From S2P Require Import Window WindowProofs Property PropertyProofs.

(** ** Deletion *)

Lemma unlink_prop_props ws w b p a :
  window_ok ws w -> wUserProps w = b ++ p :: a ->
  ∃ w', unlink_prop ws w b a = Ok w' ∧ wUserProps w' = b ++ a ∧ same_place w w'.
Proof.
  intros Hwin E. assert (is_Some (optional w)) as [opt Eo].
  { unfold wUserProps in E. destruct (optional w); [eauto|]. by destruct b. }
  unfold unlink_prop. pose proof (wUserProps_set_props w (b ++ a) opt Eo) as Hset.
  pose proof (set_props_place w (b ++ a)) as Hplace.
  destruct b, a; try (by eexists).
  destruct (CheckWindowOptionalNeed_ok ws _ (window_ok_same _ _ _ Hwin Hplace)) as (w' & -> & Hu & Hs).
  exists w'. split_and!; [done|by rewrite Hu|by eapply same_place_trans].
Qed.

(** The map without one name. *)
Definition removed_prop (w w' : WindowRec) (name : Z) : Prop :=
  props_ok (wUserProps w') ∧ same_place w w' ∧
  ∀ other, prop_val (wUserProps w') other = if decide (other = name) then None else prop_val (wUserProps w) other.

Lemma unlink_prop_ok ws w b p a :
  window_ok ws w -> props_ok (wUserProps w) -> wUserProps w = b ++ p :: a ->
  ∃ w', unlink_prop ws w b a = Ok w' ∧ removed_prop w w' (propertyName p).
Proof.
  intros Hwin Hw E. destruct (unlink_prop_props ws w b p a Hwin E) as (w' & -> & Eu & Hs). exists w'. split; [done|].
  unfold removed_prop. rewrite Eu. rewrite E in *.
  split; [by eapply props_ok_remove|]. split; [done|]. intros other. rewrite (prop_val_middle _ _ _ _ Hw).
  case_decide as Ed; [|done]. subst. apply prop_val_notin, props_ok_middle, Hw.
Qed.

(** [DeleteProperty] removes the name from the map, with one event if it was there. *)
Lemma DeleteProperty_ok ws w name :
  window_ok ws w -> props_ok (wUserProps w) ->
  ∃ w' evs, DeleteProperty ws w name = Ok (w', evs) ∧ removed_prop w w' name ∧
  evs = match prop_val (wUserProps w) name with Some _ => [notify w PropertyDelete name] | None => [] end.
Proof.
  intros Hwin Hw. unfold DeleteProperty, prop_val. destruct (find_prop name (wUserProps w)) as [[[b p] a]|] eqn:Ef.
  - pose proof (find_prop_Some _ _ _ _ _ Ef) as (E & En & _).
    destruct (unlink_prop_ok ws w b p a Hwin Hw E) as (w' & -> & Hr). simpl. do 2 eexists. split; [done|]. by rewrite <- En.
  - do 2 eexists. split; [done|]. split; [|done]. split; [done|]. split; [apply same_place_refl|].
    intros other. case_decide as Ed; [|done]. subst. unfold prop_val. by rewrite Ef.
Qed.

Lemma take_take_length {A} k (l : list A) : take (length (take k l)) l = take k l.
Proof.
  rewrite length_take. destruct (decide (k <= length l)%nat); [by rewrite Nat.min_l|].
  by rewrite Nat.min_r, !take_ge by lia.
Qed.

(** ** GetProperty *)

Section Get.
Context (XaceHook : Z -> XID -> RESTYPE -> Z -> pointer -> bool).
Context (XacePropertyHook : Z -> pointer -> Z -> Z -> xace).

(** The part of the data from 32-bit word [off] on, at most [len] words. *)
Definition slice (d : list Z) (off len : Z) : list Z := take (Z.to_nat (4 * len)) (drop (Z.to_nat (4 * off)) d).

Lemma slice_length d off len :
  0 <= off -> 0 <= len -> 4 * off <= Z.of_nat (length d) ->
  Z.of_nat (length (slice d off len)) = Z.min (Z.of_nat (length d) - 4 * off) (4 * len).
Proof. intros. unfold slice. rewrite length_take, length_drop. lia. Qed.

(** A request for a property that is there and that the client may read. *)
Record get_ok (s s1 : Server) (c c1 : Requestor) (stuff : xGetPropertyReq) (pWin : pointer) (w : WindowRec)
    (b : list PropertyRec) (p : PropertyRec) (a : list PropertyRec) : Prop := {
  go_len : req_len c = 6;
  go_window : dixLookupWindow XaceHook s c (gp_window stuff) DixReadAccess = Ok (Success, pWin, s1, c1);
  go_drawable : drawables s1 !! pWin = Some w;
  go_window_ok : window_ok (windows s1) w;
  go_props : props_ok (wUserProps w);
  go_find : find_prop (gp_property stuff) (wUserProps w) = Some (b, p, a);
  go_atom : ValidAtom (atoms s1) (gp_property stuff) = true;
  go_delete : gp_delete stuff = 0 ∨ gp_delete stuff = 1;
  go_type : gp_type stuff = AnyPropertyType ∨ gp_type stuff = ptype p;
  go_type_atom : gp_type stuff = AnyPropertyType ∨ ValidAtom (atoms s1) (gp_type stuff) = true;
  go_access m : XacePropertyHook (rq_index c1) pWin (gp_property stuff) m = XaceAllowOperation
}.

Lemma multiple_of (k x : Z) : 1 <= k <= 4 -> k <> 3 -> 4 * x = 4 / k * x * k.
Proof.
  intros Hk H3. assert (k = 1 ∨ k = 2 ∨ k = 4) as [->|[-> | ->]] by lia; [change (4 / 1) with 4|change (4 / 2) with 2|change (4 / 4) with 1]; lia.
Qed.

(** The number of units in a slice. *)
Lemma slice_units p off len :
  prop_ok p -> 0 <= off -> 0 <= len -> 4 * off <= Z.of_nat (length (data p)) ->
  Z.of_nat (length (slice (data p) off len)) / (format p / 8) * (format p / 8) = Z.of_nat (length (slice (data p) off len)).
Proof.
  intros [Pf Ps Pd] Ho Hl Hle. rewrite slice_length by done. rewrite Pd.
  destruct (format_shift _ Pf) as [_ H8]. assert (H3 : format p / 8 <> 3) by (destruct Pf as [->|[-> | ->]]; done).
  set (k := format p / 8) in *. pose proof (multiple_of k off H8 H3) as E1. pose proof (multiple_of k len H8 H3) as E2.
  assert (∃ m, Z.min (size p * k - 4 * off) (4 * len) = m * k) as [m ->].
  { destruct (Z.min_spec (size p * k - 4 * off) (4 * len)) as [[_ ->]|[_ ->]].
    - exists (size p - 4 / k * off). lia.
    - exists (4 / k * len). lia. }
  rewrite Z.div_mul by lia. done.
Qed.

(** What the reply says, and what is left of the property. *)
Record got (s1 s' : Server) (stuff : xGetPropertyReq) (pWin : pointer) (w : WindowRec) (p : PropertyRec) : Prop := {
  got_reply : ∃ words items bytesAfter,
    replies s' = replies s1 ++ [GetPropertyReply (format p) words (ptype p) bytesAfter items
                                  (slice (data p) (gp_longOffset stuff) (gp_longLength stuff))] ∧
    items * (format p / 8) = Z.of_nat (length (slice (data p) (gp_longOffset stuff) (gp_longLength stuff))) ∧
    0 <= 4 * words - Z.of_nat (length (slice (data p) (gp_longOffset stuff) (gp_longLength stuff))) < 4 ∧
    bytesAfter = Z.of_nat (length (data p)) - 4 * gp_longOffset stuff
                 - Z.of_nat (length (slice (data p) (gp_longOffset stuff) (gp_longLength stuff))) ∧
    if decide (gp_delete stuff = 1 ∧ bytesAfter = 0) then
      events s' = events s1 ++ [notify w PropertyDelete (gp_property stuff)] ∧
      ∃ w', drawables s' = <[pWin := w']> (drawables s1) ∧ removed_prop w w' (gp_property stuff)
    else events s' = events s1 ∧ drawables s' = drawables s1
}.

(** C28: [ProcGetProperty], for a property the client may read and an offset within it,
    answers with exactly the requested slice of its bytes: the reply's length covers the
    slice, its item count times the unit size is the slice's length, [bytesAfter] is what
    remains behind it; and it deletes the property, with one event, exactly when asked to
    and nothing remains.  (For lengths below 2^30 words, see [ProcGetProperty_wraps].) *)
Theorem ProcGetProperty_slice s s1 c c1 stuff pWin w b p a :
  get_ok s s1 c c1 stuff pWin w b p a ->
  0 <= gp_longOffset stuff -> 4 * gp_longOffset stuff <= Z.of_nat (length (data p)) ->
  Z.of_nat (length (data p)) < 2 ^ 32 - 4 -> 0 <= gp_longLength stuff < 2 ^ 30 ->
  ∃ s', ProcGetProperty XaceHook XacePropertyHook s c stuff = Ok (noClientException c1, s', c1) ∧
    got s1 s' stuff pWin w p.
Proof.
  intros [Hlen Hwin Hw Hwok Hok Hfind Hatom Hdel Hty Htya Hacc] Ho Hoff Hbig Hll.
  pose proof (find_prop_Some _ _ _ _ _ Hfind) as (Ew & En & _).
  assert (Hp : prop_ok p) by (rewrite Ew in Hok; by apply props_ok_middle in Hok as [? _]).
  pose proof (slice_length (data p) (gp_longOffset stuff) (gp_longLength stuff) Ho ltac:(lia) Hoff) as Hsl.
  pose proof (slice_units p (gp_longOffset stuff) (gp_longLength stuff) Hp Ho ltac:(lia) Hoff) as Hunits.
  destruct (format_shift _ (po_format _ Hp)) as [_ H8].
  unfold ProcGetProperty. rewrite Hlen. cbn [REQUEST_SIZE_MATCH negb]. rewrite struct_at_ok by done. cbn [mbind result_bind]. rewrite Hwin. cbn [mbind result_bind].
  rewrite Hatom. destruct (negb ((gp_delete stuff =? 1) || (gp_delete stuff =? 0))) eqn:Ed; [zbool; lia|].
  destruct (negb (gp_type stuff =? AnyPropertyType) && negb (ValidAtom (atoms s1) (gp_type stuff))) eqn:Et.
  { zbool. destruct Htya; congruence. }
  rewrite Hw. cbn [of_option mbind result_bind negb]. rewrite Hfind, Hacc.
  destruct (negb (gp_type stuff =? ptype p) && negb (gp_type stuff =? AnyPropertyType)) eqn:Em.
  { zbool. destruct Hty; congruence. }
  rewrite (Z.mul_comm (format p / 8)), <- (po_data _ Hp).
  rewrite (Z.shiftl_mul_pow2 _ 2), (Z.mul_comm _ (2 ^ 2)) by lia. change (2 ^ 2) with 4.
  rewrite (u32_small (4 * gp_longOffset stuff)), (u32_small (4 * gp_longLength stuff)) by lia.
  destruct (Z.ltb_spec (Z.of_nat (length (data p))) (4 * gp_longOffset stuff)); [lia|].
  rewrite <- Hsl. set (sl := slice _ _ _) in *. set (n := Z.of_nat (length (data p))) in *.
  assert (Hread : (if Z.of_nat (length sl) =? 0 then Ok []
            else read_request (drop (Z.to_nat (4 * gp_longOffset stuff)) (data p)) (Z.of_nat (length sl))) = Ok sl).
  { destruct (Z.eqb_spec (Z.of_nat (length sl)) 0); [f_equal; symmetry; apply nil_length_inv; lia|].
    rewrite read_request_ok by (rewrite length_drop; lia). f_equal. rewrite Nat2Z.id. apply take_take_length. }
  rewrite Hread. cbn [mbind result_bind].
  assert (Hl0 : 0 <= Z.of_nat (length sl) <= n - 4 * gp_longOffset stuff) by lia.
  rewrite (u32_small (n - _)), (u32_small (Z.of_nat (length sl) / _)), (u32_small (Z.shiftr _ 2)); try lia.
  2: { rewrite Z.shiftr_div_pow2 by done. change (2 ^ 2) with 4. split; [apply Z.div_pos; lia|apply Z.div_lt_upper_bound; lia]. }
  set (after := n - (4 * gp_longOffset stuff + Z.of_nat (length sl))).
  assert (Hgone : negb (gp_delete stuff =? 0) && (after =? 0) = bool_decide (gp_delete stuff = 1 ∧ after = 0)).
  { destruct Hdel as [-> | ->], (Z.eqb_spec after 0); case_bool_decide; (done || lia). }
  rewrite Hgone. destruct (unlink_prop_ok (windows s1) w b p a Hwok Hok Ew) as (w' & Hw' & Hrem).
  set (q := GetPropertyReply _ _ _ _ _ _).
  assert (Hq : 0 <= 4 * Z.shiftr (Z.of_nat (length sl) + 3) 2 - Z.of_nat (length sl) < 4).
  { rewrite Z.shiftr_div_pow2 by done. change (2 ^ 2) with 4. Z.to_euclidean_division_equations; lia. }
  assert (Hafter : after = n - 4 * gp_longOffset stuff - Z.of_nat (length sl)) by (unfold after; lia).
  case_bool_decide as Hd; cbn [windows reply add_events]; rewrite ?Hw'; cbn [mbind result_bind];
    (eexists; split; [done|]); split; do 3 eexists; fold sl; (split; [done|]);
    (split; [exact Hunits|]); (split; [exact Hq|]); (split; [exact Hafter|]).
  - rewrite decide_True by done. rewrite En. split; [done|]. exists w'. split; [done|]. by rewrite <- En.
  - by rewrite decide_False.
Qed.

(** The same request with other offset and length. *)
Definition with_range (stuff : xGetPropertyReq) (off len : Z) : xGetPropertyReq :=
  mkGPReq (gp_delete stuff) (gp_window stuff) (gp_property stuff) (gp_type stuff) off len.

(** A result without the client's error value. *)
Definition visible (r : result (Status * Server * Requestor)) : result (Status * Server) :=
  '(rc, s, _) ← r; Ok (rc, s).

Lemma u32_shift_wrap x : u32 (Z.shiftl (x + 2 ^ 30) 2) = u32 (Z.shiftl x 2).
Proof.
  rewrite !Z.shiftl_mul_pow2 by done. change (2 ^ 2) with 4. unfold u32.
  replace ((x + 2 ^ 30) * 4) with (x * 4 + 1 * 2 ^ 32) by lia. by rewrite Z.mod_add.
Qed.

Lemma u32_mul_wrap x : u32 (4 * (x + 2 ^ 30)) = u32 (4 * x).
Proof. unfold u32. replace (4 * (x + 2 ^ 30)) with (4 * x + 1 * 2 ^ 32) by lia. by rewrite Z.mod_add. Qed.

(** Case analysis on a pointer that may dangle. *)
Ltac case_bind :=
  match goal with |- context [of_option ?e ?m] => destruct m; cbn [of_option mbind result_bind] end.

(** offset and length of [GetProperty] are scaled from words to bytes in 32 bits, so
    both are taken modulo 2^30: a length of 2^30 words reads nothing although everything
    was asked for, and an offset of 2^30 words, far outside any property, is not a value
    error but reads from the start. *)
Theorem ProcGetProperty_wraps s c stuff off len :
  visible (ProcGetProperty XaceHook XacePropertyHook s c (with_range stuff (off + 2 ^ 30) len)) =
    visible (ProcGetProperty XaceHook XacePropertyHook s c (with_range stuff off len)) ∧
  ProcGetProperty XaceHook XacePropertyHook s c (with_range stuff off (len + 2 ^ 30)) =
    ProcGetProperty XaceHook XacePropertyHook s c (with_range stuff off len).
Proof.
  unfold ProcGetProperty, with_range.
  destruct (negb (REQUEST_SIZE_MATCH _ _)); [done|]. unfold struct_at. case_match; [done|]. cbn [mbind result_bind].
  cbn [gp_delete gp_window gp_property gp_type gp_longOffset gp_longLength].
  rewrite u32_shift_wrap, u32_mul_wrap. split; [|done].
  destruct (dixLookupWindow _ _ _ _ _) as [[[[rc pWin] s1] c1]|]; [|done]. cbn [mbind result_bind].
  destruct rc; try done. repeat first [done | case_bind | case_goal].
Qed.

(** On a mismatch of types the reply gives the size in units of the format, although
    the field is called [bytesAfter] and counts bytes in every other reply. *)
Lemma ProcGetProperty_mismatch s s1 c c1 stuff pWin w b p a :
  req_len c = 6 -> dixLookupWindow XaceHook s c (gp_window stuff) DixReadAccess = Ok (Success, pWin, s1, c1) ->
  drawables s1 !! pWin = Some w -> find_prop (gp_property stuff) (wUserProps w) = Some (b, p, a) ->
  ValidAtom (atoms s1) (gp_property stuff) = true -> gp_delete stuff = 0 ->
  gp_type stuff <> AnyPropertyType -> gp_type stuff <> ptype p -> ValidAtom (atoms s1) (gp_type stuff) = true ->
  (∀ m, XacePropertyHook (rq_index c1) pWin (gp_property stuff) m = XaceAllowOperation) ->
  ProcGetProperty XaceHook XacePropertyHook s c stuff =
    Ok (Success, reply s1 (GetPropertyReply (format p) 0 (ptype p) (u32 (size p)) 0 []), c1).
Proof.
  intros Hl Hw Hd Hf Ha Hdel Hany Hne Hta Hacc. unfold ProcGetProperty. rewrite Hl.
  cbn [REQUEST_SIZE_MATCH negb]. rewrite struct_at_ok by done. cbn [mbind result_bind]. rewrite Hw. cbn [mbind result_bind]. rewrite Ha, Hdel, Hta, Hd. cbn [of_option mbind result_bind].
  rewrite Hf, Hacc, andb_false_r. simpl.
  destruct (Z.eqb_spec (gp_type stuff) (ptype p)); [done|].
  destruct (Z.eqb_spec (gp_type stuff) AnyPropertyType); done.
Qed.

End Get.

(** ** A concrete server *)

Definition allow_all : Z -> XID -> RESTYPE -> Z -> pointer -> bool := fun _ _ _ _ _ => true.
Definition allow_props : Z -> pointer -> Z -> Z -> xace := fun _ _ _ _ => XaceAllowOperation.

(** Client 1 has a window, with the properties of [demo_window]. *)
Definition demo_db : World :=
  set_clients (add_all demo0 [(id1 5, RT_WINDOW, 900)]) [None; Some (mkClient 1 (Z.shiftl 1 21) 0 7 0 0)].
Definition demo_server : Server :=
  mkServer demo_db (mkAtomState 68 NullNode 100 ∅) (demo_tree demo_props) [] [] [].
Definition demo_client (req_len : Z) : Requestor := mkRequestor 1 0 Success req_len.

(** The state after the window was looked up. *)
Definition after_lookup (c : Requestor) (access : Z) : Server :=
  match dixLookupWindow allow_all demo_server c (id1 5) access with Ok (_, _, s, _) => s | Err _ => demo_server end.

Lemma ProcGetProperty_slice_witness :
  let stuff := mkGPReq 1 (id1 5) 39 0 0 1 in
  ∃ s', ProcGetProperty allow_all allow_props demo_server (demo_client 6) stuff =
      Ok (noClientException (set_error (demo_client 6) (id1 5)), s', set_error (demo_client 6) (id1 5)) ∧
    got (after_lookup (demo_client 6) DixReadAccess) s' stuff 900 demo_window (mkProp 39 31 16 2 [1; 2; 3; 4]).
Proof.
  intros stuff.
  apply (ProcGetProperty_slice allow_all allow_props demo_server (after_lookup (demo_client 6) DixReadAccess)
    (demo_client 6) (set_error (demo_client 6) (id1 5)) stuff 900 demo_window [] (mkProp 39 31 16 2 [1; 2; 3; 4]) []);
    [|by vm_compute..].
  split; [done|by vm_compute|by vm_compute|by apply (demo_tree_ok demo_props 900)|apply demo_window_ok|done|by vm_compute|by right|by left|by left|done].
Defined.
