(* ===== verification/PropertyRotate.v ===== *)
(** * PropertyRotate: RotateProperties as a permutation (dix/property.c)

    The handler renames the property records in place, through an array of pointers;
    on the map of properties this is a rotation of the values among the names. *)

From S2P Require Import Prelude Atom ResourceDB ResourceProofs ResourceInit.
From S2P Require Import Window WindowProofs Property PropertyProofs PropertyRead.

(** ** The map, through positions in the list *)

Lemma find_prop_position name props b p a :
  find_prop name props = Some (b, p, a) -> props !! length b = Some p.
Proof. intros E. apply find_prop_Some in E as (-> & _ & _). by rewrite list_lookup_middle. Qed.

Lemma names_position props k p : props !! k = Some p -> map propertyName props !! k = Some (propertyName p).
Proof. intros H. by rewrite list_lookup_fmap, H. Qed.

Lemma names_inj props i j p q :
  NoDup (map propertyName props) -> props !! i = Some p -> props !! j = Some q -> propertyName p = propertyName q -> i = j.
Proof.
  intros Hn Hi Hj E. apply (NoDup_lookup _ i j (propertyName p) Hn); [by apply names_position|].
  rewrite E. by apply names_position.
Qed.

Lemma prop_val_position props k p :
  NoDup (map propertyName props) -> props !! k = Some p -> prop_val props (propertyName p) = Some (val_of p).
Proof.
  intros Hn Hk. unfold prop_val. destruct (find_prop (propertyName p) props) as [[[b q] a]|] eqn:E.
  - pose proof (find_prop_position _ _ _ _ _ E) as Hq. apply find_prop_Some in E as (_ & En & _).
    pose proof (names_inj _ _ _ _ _ Hn Hq Hk En) as Ek. simpl. rewrite <- Ek in Hk. congruence.
  - exfalso. apply find_prop_None in E. apply E. eapply list_elem_of_lookup_2, names_position. exact Hk.
Qed.

Lemma prop_val_none props name :
  (∀ k p, props !! k = Some p -> propertyName p <> name) -> prop_val props name = None.
Proof.
  intros H. apply prop_val_notin. intros Hin. apply list_elem_of_In, in_map_iff in Hin as (p & <- & Hp).
  apply list_elem_of_In, list_elem_of_lookup in Hp as [k Hk]. by apply (H k p).
Qed.

(** ** The renaming loop *)

Definition new_name (names : list Z) (delta i : Z) : Z :=
  default 0 (names !! Z.to_nat ((i + delta) mod Z.of_nat (length names))).

Lemma rotate_loop_fst_cons props names delta i k ks :
  (rotate_loop props names delta i (k :: ks)).1 =
  (rotate_loop (alter (rename (new_name names delta i)) k props) names delta (i + 1) ks).1.
Proof. simpl. unfold new_name. by destruct (rotate_loop _ _ _ _ _). Qed.

(** A property outside the list of pointers keeps its record. *)
Lemma rotate_loop_other names delta ks : ∀ props i k,
  k ∉ ks -> (rotate_loop props names delta i ks).1 !! k = props !! k.
Proof.
  induction ks as [|k' ks IH]; intros props i k Hk; [done|]. rewrite rotate_loop_fst_cons.
  apply not_elem_of_cons in Hk as [Hne Hk]. rewrite IH by done. by apply list_lookup_alter_ne.
Qed.

(** The property that [props[j]] points to gets the name [delta] further. *)
Lemma rotate_loop_at names delta ks : ∀ props i j k,
  NoDup ks -> ks !! j = Some k ->
  (rotate_loop props names delta i ks).1 !! k = rename (new_name names delta (i + Z.of_nat j)) <$> props !! k.
Proof.
  induction ks as [|k' ks IH]; intros props i j k Hn Hj; [done|]. rewrite rotate_loop_fst_cons.
  apply NoDup_cons in Hn as [Hk' Hn]. destruct j as [|j]; simpl in Hj.
  - injection Hj as ->. rewrite rotate_loop_other by done. rewrite list_lookup_alter_eq.
    by rewrite Z.add_0_r.
  - rewrite (IH _ _ j k Hn Hj). rewrite list_lookup_alter_ne.
    + by replace (i + 1 + Z.of_nat j) with (i + Z.of_nat (S j)) by lia.
    + intros ->. apply Hk'. by eapply list_elem_of_lookup_2.
Qed.

(** The events carry the old names, in the order of the request. *)
Lemma rotate_loop_events names delta ks : ∀ props i,
  NoDup ks -> (rotate_loop props names delta i ks).2 = map (fun k => from_option propertyName 0 (props !! k)) ks.
Proof.
  induction ks as [|k ks IH]; intros props i Hn; [done|]. apply NoDup_cons in Hn as [Hk Hn]. simpl.
  destruct (rotate_loop _ _ _ _ ks) as [props' evs] eqn:E. simpl. f_equal.
  change evs with (props', evs).2. rewrite <- E, IH by done. apply map_ext_in. intros k' Hk'.
  rewrite list_lookup_alter_ne; [done|]. intros ->. apply Hk. by apply list_elem_of_In.
Qed.

(** ** The pointers the handler collects *)

(** [ks] points to the properties [names], all different. *)
Record points (props : list PropertyRec) (names : list Z) (ks : list nat) : Prop := {
  pt_names : NoDup names;
  pt_at : Forall2 (fun name k => ∃ p, props !! k = Some p ∧ propertyName p = name) names ks
}.

Lemma points_NoDup props names ks : points props names ks -> NoDup ks.
Proof.
  intros [Hn Hat]. apply NoDup_alt. intros i j k Hi Hj.
  destruct (Forall2_lookup_r _ _ _ _ _ Hat Hi) as (n1 & H1 & p & Hp & E1).
  destruct (Forall2_lookup_r _ _ _ _ _ Hat Hj) as (n2 & H2 & q & Hq & E2).
  apply (NoDup_lookup names i j n1); [done|done|]. congruence.
Qed.

Lemma prop_index_Some props name k :
  prop_index props name = Some k -> ∃ p, props !! k = Some p ∧ propertyName p = name.
Proof.
  unfold prop_index. intros H. apply fmap_Some in H as ([k' p] & Hf & ->).
  apply list_find_Some in Hf as (Hk & E & _). by exists p.
Qed.

Lemma collect_points (XP : Z -> pointer -> Z -> Z -> xace) s c pWin props todo ks :
  collect XP s c pWin props todo = inr ks -> points props todo ks.
Proof.
  revert ks. induction todo as [|atom todo IH]; intros ks; simpl.
  - intros [= <-]. split; constructor.
  - destruct (ValidAtom (atoms s) atom); [|done].
    destruct (XP (rq_index c) pWin atom _); try done.
    destruct (existsb (fun a => a =? atom) todo) eqn:Ex; [done|].
    destruct (prop_index props atom) as [k|] eqn:Ek; [|done].
    destruct (collect XP s c pWin props todo) as [e|ks'] eqn:Ec; [done|]. intros [= <-].
    destruct (IH ks' eq_refl) as [Hn Hat]. split; constructor; try done; [|by apply prop_index_Some].
    intros Hin. apply not_true_iff_false in Ex. apply Ex, existsb_exists. exists atom.
    split; [by apply list_elem_of_In|apply Z.eqb_refl].
Qed.

(** ** The rotation of the map *)

Definition rotated (props props' : list PropertyRec) (names : list Z) (delta : Z) : Prop :=
  props_ok props' ∧
  (∀ j name, names !! j = Some name ->
     prop_val props' (new_name names delta (Z.of_nat j)) = prop_val props name) ∧
  (∀ other, other ∉ names -> prop_val props' other = prop_val props other).

Lemma new_name_in names delta i :
  names <> [] -> names !! Z.to_nat ((i + delta) mod Z.of_nat (length names)) = Some (new_name names delta i).
Proof.
  intros Hne. unfold new_name.
  assert (0 < Z.of_nat (length names)) by (destruct names; [done|simpl; lia]).
  pose proof (Z.mod_pos_bound (i + delta) (Z.of_nat (length names))).
  destruct (names !! Z.to_nat _) eqn:E; [done|]. apply lookup_ge_None in E. lia.
Qed.

Lemma new_name_inj names delta i j :
  NoDup names -> 0 <= i < Z.of_nat (length names) -> 0 <= j < Z.of_nat (length names) ->
  new_name names delta i = new_name names delta j -> i = j.
Proof.
  intros Hn Hi Hj E. assert (Hne : names <> []) by (intros ->; simpl in *; lia).
  pose proof (new_name_in names delta i Hne) as H1. pose proof (new_name_in names delta j Hne) as H2. rewrite <- E in H2.
  pose proof (NoDup_lookup _ _ _ _ Hn H1 H2) as Em.
  assert (Hl : 0 < Z.of_nat (length names)) by lia.
  pose proof (Z.mod_pos_bound (i + delta) _ Hl). pose proof (Z.mod_pos_bound (j + delta) _ Hl).
  apply Z2Nat.inj in Em; [|lia..].
  pose proof (Z.div_mod (i + delta) (Z.of_nat (length names)) ltac:(lia)).
  pose proof (Z.div_mod (j + delta) (Z.of_nat (length names)) ltac:(lia)).
  assert ((i + delta) / Z.of_nat (length names) = (j + delta) / Z.of_nat (length names)) by nia. nia.
Qed.

Lemma rename_ok name p : prop_ok p -> prop_ok (rename name p) ∧ val_of (rename name p) = val_of p.
Proof. by intros []. Qed.

Section Rotation.
Context (props : list PropertyRec) (names : list Z) (ks : list nat) (delta : Z).
Hypothesis props_wf : props_ok props.
Hypothesis ks_points : points props names ks.

Let props' := (rotate_loop props names delta 0 ks).1.

(** Where each record of the new list comes from. *)
Lemma rotated_position k p' :
  props' !! k = Some p' ->
  ∃ p, props !! k = Some p ∧ val_of p' = val_of p ∧ prop_ok p' ∧
    (((k ∉ ks) ∧ p' = p ∧ (propertyName p ∉ names)) ∨
     (∃ j, ks !! j = Some k ∧ names !! j = Some (propertyName p) ∧ propertyName p' = new_name names delta (Z.of_nat j))).
Proof.
  intros Hk. destruct props_wf as [Hn Hf]. destruct ks_points as [Hnames Hat].
  pose proof (points_NoDup _ _ _ ks_points) as Hks. unfold props' in Hk.
  destruct (decide (k ∈ ks)) as [Hin|Hin].
  - apply list_elem_of_lookup in Hin as [j Hj]. rewrite (rotate_loop_at _ _ _ _ _ j k Hks Hj) in Hk.
    apply fmap_Some in Hk as (p & Hp & ->). exists p.
    destruct (rename_ok (new_name names delta (0 + Z.of_nat j)) p) as [Hok Hv].
    { by apply (Forall_lookup_1 _ _ k p Hf). }
    split_and!; [done|done|done|]. right. exists j. split_and!; [done| |done].
    destruct (Forall2_lookup_r _ _ _ _ _ Hat Hj) as (name & Hname & q & Hq & Eq). congruence.
  - rewrite rotate_loop_other in Hk by done. exists p'. split_and!; [done|done|by apply (Forall_lookup_1 _ _ k p' Hf)|].
    left. split_and!; [done|done|]. intros Hname. apply list_elem_of_lookup in Hname as [j Hj].
    destruct (Forall2_lookup_l _ _ _ _ _ Hat Hj) as (k2 & Hk2 & q & Hq & Eq).
    pose proof (names_inj _ _ _ _ _ Hn Hk Hq (eq_sym Eq)) as ->. apply Hin. by eapply list_elem_of_lookup_2.
Qed.

Lemma names_lookup_lt (j : nat) x : names !! j = Some x -> 0 <= Z.of_nat j < Z.of_nat (length names).
Proof. intros H. apply lookup_lt_Some in H. lia. Qed.

Lemma rotated_names_NoDup : NoDup (map propertyName props').
Proof.
  destruct ks_points as [Hnames Hat]. apply NoDup_alt. intros k1 k2 x H1 H2.
  rewrite list_lookup_fmap in H1, H2. apply fmap_Some in H1 as (p1 & H1 & ->). apply fmap_Some in H2 as (p2 & H2 & E).
  destruct (rotated_position _ _ H1) as (q1 & Hq1 & _ & _ & C1), (rotated_position _ _ H2) as (q2 & Hq2 & _ & _ & C2).
  assert (Hin : ∀ i, names <> [] -> new_name names delta i ∈ names).
  { intros i Hne. eapply list_elem_of_lookup_2. by apply new_name_in. }
  destruct C1 as [(N1 & -> & X1)|(j1 & J1 & E1 & R1)], C2 as [(N2 & -> & X2)|(j2 & J2 & E2 & R2)].
  - by apply (names_inj props k1 k2 q1 q2 (proj1 props_wf)).
  - exfalso. apply X1. rewrite E, R2. apply Hin. by intros ->.
  - exfalso. apply X2. rewrite <- E, R1. apply Hin. by intros ->.
  - rewrite R1, R2 in E. apply new_name_inj in E; [|done|by eapply names_lookup_lt..].
    apply Nat2Z.inj in E. congruence.
Qed.

Lemma rotate_loop_rotated : rotated props props' names delta.
Proof.
  destruct ks_points as [Hnames Hat]. pose proof rotated_names_NoDup as Hn'. split_and!.
  - split; [done|]. apply Forall_lookup. intros k p' Hk. by destruct (rotated_position k p' Hk) as (p & _ & _ & ? & _).
  - intros j name Hj. destruct (Forall2_lookup_l _ _ _ _ _ Hat Hj) as (k & Hk & p & Hp & <-).
    rewrite (prop_val_position props k p (proj1 props_wf) Hp).
    pose proof (rotate_loop_at names delta ks props 0 j k (points_NoDup _ _ _ ks_points) Hk) as Hk'. rewrite Hp in Hk'.
    pose proof (prop_val_position props' k _ Hn' Hk') as Hv. exact Hv.
  - intros other Hnin. destruct (prop_val props other) as [v|] eqn:Ev.
    + unfold prop_val in Ev. destruct (find_prop other props) as [[[b p] a]|] eqn:Ef; [|done]. injection Ev as <-.
      pose proof (find_prop_position _ _ _ _ _ Ef) as Hp. apply find_prop_Some in Ef as (_ & <- & _).
      assert (Hk : props' !! length b = Some p).
      { unfold props'. rewrite rotate_loop_other; [done|]. intros Hin. apply Hnin.
        apply list_elem_of_lookup in Hin as [j Hj].
        destruct (Forall2_lookup_r _ _ _ _ _ Hat Hj) as (name & Hname & q & Hq & <-).
        rewrite Hp in Hq. injection Hq as ->. by eapply list_elem_of_lookup_2. }
      exact (prop_val_position _ _ _ Hn' Hk).
    + apply prop_val_none. intros k p' Hk E. destruct (rotated_position k p' Hk) as (p & Hp & _ & _ & [(_ & -> & _)|(j & _ & Hj & R)]).
      * rewrite <- E, (prop_val_position _ _ _ (proj1 props_wf) Hp) in Ev. done.
      * apply Hnin. rewrite <- E, R. eapply list_elem_of_lookup_2, new_name_in.
        intros Hnil. by rewrite Hnil in Hj.
Qed.

End Rotation.

(** ** The handler *)

Lemma add_until_ok n : 0 < n -> ∀ fuel delta, (Z.to_nat (- delta) <= fuel)%nat ->
  0 <= add_until fuel delta n ∧ add_until fuel delta n mod n = delta mod n ∨ (delta >= 0 ∧ add_until fuel delta n = delta).
Proof.
  intros Hn. induction fuel as [|fuel IH]; intros delta Hf; simpl.
  - right. lia.
  - destruct (Z.ltb_spec delta 0); [|right; lia]. left.
    assert (Em : (delta + n) mod n = delta mod n) by (rewrite <- (Z.mul_1_l n) at 1; apply Z.mod_add; lia).
    destruct (IH (delta + n)) as [[H1 H2]|[H1 H2]]; [lia| |].
    + split; [done|]. by rewrite H2.
    + rewrite H2. split; [lia|done].
Qed.

Lemma new_name_mod names d d' i :
  d mod Z.of_nat (length names) = d' mod Z.of_nat (length names) -> new_name names d i = new_name names d' i.
Proof. intros E. unfold new_name. by rewrite <- (Zplus_mod_idemp_r d), E, Zplus_mod_idemp_r. Qed.

Lemma abs_mod_zero a n : n <> 0 -> (Z.abs a mod n =? 0) = (a mod n =? 0).
Proof.
  intros Hn. apply eq_bool_prop_intro. rewrite !Is_true_true, !Z.eqb_eq, !Z.mod_divide by done.
  apply Z.divide_abs_r.
Qed.

(** No rotation at all. *)
Lemma rotated_none props names d :
  props_ok props -> d mod Z.of_nat (length names) = 0 -> rotated props props names d.
Proof.
  intros Hok Hd. split_and!; [done| |done]. intros j name Hj. unfold new_name.
  rewrite <- Zplus_mod_idemp_r, Hd, Z.add_0_r. pose proof (lookup_lt_Some _ _ _ Hj).
  rewrite Z.mod_small, Nat2Z.id, Hj by lia. done.
Qed.

Lemma rotated_mod props props' names d d' :
  d mod Z.of_nat (length names) = d' mod Z.of_nat (length names) ->
  rotated props props' names d -> rotated props props' names d'.
Proof.
  intros E (H1 & H2 & H3). split_and!; [done| |done]. intros j name Hj.
  rewrite <- (new_name_mod names d d') by done. by apply H2.
Qed.

Lemma points_events props names ks :
  points props names ks -> map (fun k => from_option propertyName 0 (props !! k)) ks = names.
Proof.
  intros [_ Hat]. induction Hat as [|name k names ks (p & Hp & E) _ IH]; [done|]. simpl. rewrite Hp, IH. simpl. by rewrite E.
Qed.

(** ** The checks of the atoms *)

Section Checks.
Context (XacePropertyHook : Z -> pointer -> Z -> Z -> xace).
Context (s : Server) (c : Requestor) (pWin : pointer) (props : list PropertyRec).

(** What the security modules say about reading and writing a property. *)
Definition rotate_access (name : Z) : xace := XacePropertyHook (rq_index c) pWin name (Z.lor DixReadAccess DixWriteAccess).

(** An atom in use that the client may access. *)
Definition permitted (name : Z) : Prop := ValidAtom (atoms s) name = true ∧ rotate_access name = XaceAllowOperation.

(** A list that is rotated: atoms in use that the client may access, all different, and each
    the name of a property. *)
Definition acceptable (names : list Z) : Prop :=
  NoDup names ∧ ∀ name, name ∈ names -> permitted name ∧ name ∈ map propertyName props.

(** Nothing is wrong with the name at an index, seen from left to right. *)
Definition passes (names : list Z) (i : nat) (name : Z) : Prop :=
  permitted name ∧ (name ∉ drop (S i) names) ∧ name ∈ map propertyName props.

(** The first name with something wrong, at index [i]. *)
Definition first_bad (names : list Z) (i : nat) (name : Z) : Prop :=
  names !! i = Some name ∧ ¬ passes names i name ∧
  ∀ j name', (j < i)%nat -> names !! j = Some name' -> passes names j name'.

(** The answer to it. *)
Definition refusal (name : Z) : rotate_stop :=
  if negb (ValidAtom (atoms s) name) then RotateError BadAtom (Some name) else
  match rotate_access name with
  | XaceErrorOperation => RotateError BadAtom (Some name)
  | XaceIgnoreOperation => RotateIgnore
  | XaceAllowOperation => RotateError BadMatch None
  end.

Lemma prop_index_None name : prop_index props name = None ↔ name ∉ map propertyName props.
Proof.
  unfold prop_index. rewrite fmap_None, list_find_None, Forall_forall. split.
  - intros H Hin. apply list_elem_of_fmap in Hin as (p & -> & Hp). by apply (H p).
  - intros H p Hp E. apply H. apply list_elem_of_fmap. by exists p.
Qed.

Lemma existsb_later name todo : existsb (fun a => a =? name) todo = bool_decide (name ∈ todo).
Proof.
  apply eq_bool_prop_intro. rewrite !Is_true_true, bool_decide_eq_true, existsb_exists. split.
  - intros (x & Hx & E). apply Z.eqb_eq in E as ->. by apply list_elem_of_In.
  - intros H. exists name. split; [by apply list_elem_of_In|apply Z.eqb_refl].
Qed.

(** One step of the loop. *)
Lemma collect_cons name todo :
  (passes (name :: todo) 0 name ∧ ∃ k, prop_index props name = Some k ∧
     collect XacePropertyHook s c pWin props (name :: todo) =
     match collect XacePropertyHook s c pWin props todo with inl e => inl e | inr ks => inr (k :: ks) end) ∨
  (¬ passes (name :: todo) 0 name ∧ collect XacePropertyHook s c pWin props (name :: todo) = inl (refusal name)).
Proof.
  unfold passes, permitted, refusal. simpl collect. fold (rotate_access name).
  cbn [drop]. rewrite existsb_later.
  destruct (ValidAtom (atoms s) name); [|right; split; [by intros [[? _] _]|done]].
  destruct (rotate_access name); try (right; split; [by intros [[_ ?] _]|done]).
  case_bool_decide as Hd; [right; split; [by intros (_ & ? & _)|done]|].
  destruct (prop_index props name) as [k|] eqn:Ek.
  - left. split; [|by exists k]. split; [done|]. split; [by rewrite drop_0|].
    destruct (decide (name ∈ map propertyName props)) as [|Hn]; [done|]. apply prop_index_None in Hn. congruence.
  - right. split; [|done]. apply prop_index_None in Ek. by intros (_ & _ & ?).
Qed.

(** The loop stops at the first name with something wrong. *)
Lemma collect_bad names : ∀ i name,
  first_bad names i name -> collect XacePropertyHook s c pWin props names = inl (refusal name).
Proof.
  induction names as [|a names IH]; intros i name (Hi & Hbad & Hbefore); [done|].
  destruct i as [|i].
  - injection Hi as ->. destruct (collect_cons name names) as [[? _]|[_ E]]; done.
  - destruct (collect_cons a names) as [[_ (k & _ & ->)]|[Hno _]].
    + rewrite (IH i name); [done|]. split; [done|]. split; [done|].
      intros j name' Hj Hl. apply (Hbefore (S j) name'); [lia|done].
    + exfalso. apply Hno, (Hbefore 0%nat); [lia|done].
Qed.

Lemma collect_good names : acceptable names -> ∃ ks, collect XacePropertyHook s c pWin props names = inr ks.
Proof.
  induction names as [|a names IH]; intros [Hn Hall]; [by exists []|].
  apply NoDup_cons in Hn as [Ha Hn]. destruct IH as [ks Hks].
  { split; [done|]. intros name Hin. apply Hall. by right. }
  destruct (collect_cons a names) as [[_ (k & _ & ->)]|[Hno _]]; [rewrite Hks; by eexists|].
  exfalso. apply Hno. destruct (Hall a ltac:(by left)) as [Hp Hin]. by rewrite <- (drop_0 names) in Ha.
Qed.

(** Every list is one or the other. *)
Lemma acceptable_or_bad names : acceptable names ∨ ∃ i name, first_bad names i name.
Proof.
  induction names as [|a names [[Hn Hall]|(i & name & Hi & Hbad & Hbefore)]].
  - left. split; [constructor|]. intros name Hin. by apply elem_of_nil in Hin.
  - destruct (collect_cons a names) as [[Hp _]|[Hno _]].
    + left. destruct Hp as (Hp & Hd & Hin). simpl in Hd. rewrite drop_0 in Hd. split; [by constructor|].
      intros name [->|H]%elem_of_cons; [done|by apply Hall].
    + right. exists 0%nat, a. split; [done|]. split; [done|]. intros j ? Hj. lia.
  - destruct (collect_cons a names) as [[Hp _]|[Hno _]].
    + right. exists (S i), name. split; [done|]. split; [done|]. intros [|j] name' Hj Hl; [by injection Hl as <-|].
      apply (Hbefore j name'); [lia|done].
    + right. exists 0%nat, a. split; [done|]. split; [done|]. intros j ? Hj. lia.
Qed.

End Checks.

(** Only the atom table matters. *)
Lemma collect_frame (XP : Z -> pointer -> Z -> Z -> xace) s s' c pWin props todo :
  atoms s = atoms s' -> collect XP s c pWin props todo = collect XP s' c pWin props todo.
Proof. intros E. induction todo as [|a todo IH]; [done|]. simpl. by rewrite E, IH. Qed.


Section Handler.
Context (XaceHook : Z -> XID -> RESTYPE -> Z -> pointer -> bool).
Context (XacePropertyHook : Z -> pointer -> Z -> Z -> xace).

(** The window was found, the request has the length of its atoms, and there is memory. *)
Record rotate_ok (s s1 : Server) (c c1 : Requestor) (stuff : xRotatePropertiesReq) (pWin : pointer) (w : WindowRec)
    (names : list Z) : Prop := {
  ro_len : REQUEST_FIXED_SIZE sz_xRotatePropertiesReq (Ok (Z.shiftl (rp_nAtoms stuff) 2)) (req_len c) = Ok true;
  ro_window : dixLookupWindow XaceHook s c (rp_window stuff) DixWriteAccess = Ok (Success, pWin, s1, c1);
  ro_drawable : drawables s1 !! pWin = Some w;
  ro_props : props_ok (wUserProps w);
  ro_atoms : 0 < rp_nAtoms stuff;
  ro_names : rp_atoms stuff = names ∧ Z.of_nat (length names) = rp_nAtoms stuff;
  ro_mem : all_ok (smem s1)
}.

(** The handler, in terms of the pointers collected. *)
Lemma ProcRotateProperties_collect s s1 c c1 stuff pWin w names :
  rotate_ok s s1 c c1 stuff pWin w names ->
  ∃ rc s' c', ProcRotateProperties XaceHook XacePropertyHook s c stuff = Ok (rc, s', c') ∧
    match collect XacePropertyHook s1 c1 pWin (wUserProps w) names with
    | inr _ => rc = Success ∧ c' = c1 ∧ ∃ w', drawables s' = <[pWin := w']> (drawables s1) ∧
        w' = set_props w (wUserProps w') ∧
        rotated (wUserProps w) (wUserProps w') names (rp_nPositions stuff) ∧
        events s' = events s1 ++ (if decide (rp_nPositions stuff mod rp_nAtoms stuff = 0) then []
                                  else map (notify w PropertyNewValue) names)
    | inl (RotateError rc' e) => drawables s' = drawables s1 ∧ events s' = events s1 ∧ rc = rc' ∧ c' = from_option (set_error c1) c1 e
    | inl RotateIgnore => drawables s' = drawables s1 ∧ events s' = events s1 ∧ rc = Success ∧ c' = c1
    end.
Proof.
  intros [Hlen Hwin Hw Hok Hn [Hnames Hcount] Hmem]. unfold ProcRotateProperties.
  rewrite REQUEST_FIXED_SIZE_struct by done. rewrite Hlen. cbn [negb mbind result_bind].
  rewrite struct_at_ok by (by eapply REQUEST_FIXED_SIZE_least). cbn [mbind result_bind]. rewrite Hwin.
  cbn [negb mbind result_bind]. destruct (Z.eqb_spec (rp_nAtoms stuff) 0); [lia|].
  assert (Ha : alloc (smem s1) = (true, (alloc (smem s1)).2)) by (destruct (smem s1); [done|by inversion Hmem; subst]).
  rewrite Ha. cbn [negb snd]. set (s2 := set_smem s1 _).
  rewrite Hnames, read_request_ok by lia. rewrite take_ge by lia. cbn [mbind result_bind].
  change (drawables s2) with (drawables s1). rewrite Hw. cbn [of_option mbind result_bind].
  rewrite (collect_frame XacePropertyHook s2 s1) by done.
  destruct (collect XacePropertyHook s1 c1 pWin (wUserProps w) names) as [[rc e|]|ks] eqn:Ec.
  - do 3 eexists. by split.
  - do 3 eexists. by split.
  - pose proof (collect_points _ _ _ _ _ _ _ Ec) as Hpts. rewrite abs_mod_zero by lia.
    destruct (Z.eqb_spec (rp_nPositions stuff mod rp_nAtoms stuff) 0) as [Hz|Hz].
    { do 3 eexists. split; [done|]. split; [done|]. split; [done|]. exists w. change (drawables s2) with (drawables s1).
      rewrite insert_id by done. split_and!; [done|by rewrite set_props_same|apply rotated_none; [done|by rewrite Hcount]|].
      rewrite decide_True by done. by rewrite app_nil_r. }
    set (d := add_until _ _ _).
    assert (Hd : d mod Z.of_nat (length names) = rp_nPositions stuff mod Z.of_nat (length names)).
    { rewrite Hcount. destruct (add_until_ok (rp_nAtoms stuff) Hn (Z.to_nat (Z.abs (rp_nPositions stuff))) (rp_nPositions stuff))
        as [[_ H]|[_ H]]; [lia|done|]. unfold d. by rewrite H. }
    destruct (rotate_loop (wUserProps w) names d 0 ks) as [props' evs] eqn:El.
    pose proof (rotate_loop_rotated (wUserProps w) names ks d Hok Hpts) as Hrot. rewrite El in Hrot.
    pose proof (rotate_loop_events names d ks (wUserProps w) 0 (points_NoDup _ _ _ Hpts)) as Hev. rewrite El in Hev.
    simpl in Hrot, Hev. rewrite (points_events _ _ _ Hpts) in Hev. subst evs.
    do 3 eexists. split; [done|]. split; [done|]. split; [done|]. exists (set_props w props').
    assert (is_Some (optional w)) as [opt Eopt].
    { unfold wUserProps in Hpts. destruct (optional w); [eauto|]. destruct Hpts as [_ Hat].
      destruct names; [simpl in *; lia|]. inversion Hat as [|? ? ? ? (p & Hp & _)]; subst. done. }
    rewrite (wUserProps_set_props w props' opt Eopt). split_and!; [done|done|by apply (rotated_mod _ _ _ d)|].
    by rewrite decide_False.
Qed.

(** C23: [RotateProperties] is a rotation of the values among the names of the request.  Take
    a request of the right length with at least one atom, whose window was found, and enough
    memory for the array of pointers.  When all its atoms are in use, allowed by the security
    modules, pairwise different and names of properties of the window, the answer is
    [Success]: the value of the [j]-th name is afterwards that of name [j + nPositions], taken
    modulo the number of names also for negative [nPositions]; all other properties keep
    theirs, the list stays well formed, nothing else of the window changes, and each name gets
    one event, in the order of the request, unless the rotation is complete.  Otherwise
    nothing changes, and the first name with something wrong decides: an atom not in use or
    refused by the modules gives [BadAtom] with the atom as error value, one they ignore gives
    [Success], one that is repeated later or names no property gives [BadMatch]. *)
Theorem ProcRotateProperties_rotation s s1 c c1 stuff pWin w names :
  rotate_ok s s1 c c1 stuff pWin w names ->
  ∃ rc s' c', ProcRotateProperties XaceHook XacePropertyHook s c stuff = Ok (rc, s', c') ∧
    (acceptable XacePropertyHook s1 c1 pWin (wUserProps w) names ->
       rc = Success ∧ c' = c1 ∧ ∃ w', drawables s' = <[pWin := w']> (drawables s1) ∧
         w' = set_props w (wUserProps w') ∧
         rotated (wUserProps w) (wUserProps w') names (rp_nPositions stuff) ∧
         events s' = events s1 ++ (if decide (rp_nPositions stuff mod rp_nAtoms stuff = 0) then []
                                   else map (notify w PropertyNewValue) names)) ∧
    (∀ i name, first_bad XacePropertyHook s1 c1 pWin (wUserProps w) names i name ->
       drawables s' = drawables s1 ∧ events s' = events s1 ∧
       (ValidAtom (atoms s1) name = false ∨ rotate_access XacePropertyHook c1 pWin name = XaceErrorOperation ->
          rc = BadAtom ∧ c' = set_error c1 name) ∧
       (ValidAtom (atoms s1) name = true ∧ rotate_access XacePropertyHook c1 pWin name = XaceIgnoreOperation ->
          rc = Success ∧ c' = c1) ∧
       (permitted XacePropertyHook s1 c1 pWin name -> rc = BadMatch ∧ c' = c1)) ∧
    (acceptable XacePropertyHook s1 c1 pWin (wUserProps w) names ∨
     ∃ i name, first_bad XacePropertyHook s1 c1 pWin (wUserProps w) names i name).
Proof.
  intros Hro. pose proof (acceptable_or_bad XacePropertyHook s1 c1 pWin (wUserProps w) names) as Hcase.
  destruct (ProcRotateProperties_collect _ _ _ _ _ _ _ _ Hro) as (rc & s' & c' & E & H).
  exists rc, s', c'. split; [done|]. split; [|split; [|done]].
  - intros Hacc. destruct (collect_good _ _ _ _ _ _ Hacc) as [ks Hks]. by rewrite Hks in H.
  - intros i name Hbad. rewrite (collect_bad _ _ _ _ _ _ _ _ Hbad) in H. unfold refusal in H.
    unfold permitted, rotate_access in *. destruct (ValidAtom _ _); cbn [negb] in H.
    + destruct (XacePropertyHook _ _ _ _); destruct H as (? & ? & -> & ->); (split; [done|]); (split; [done|]); naive_solver.
    + destruct H as (? & ? & -> & ->). split; [done|]. split; [done|]. naive_solver.
Qed.

End Handler.

(** Three properties, rotated by two places backwards. *)
Definition demo_props3 : list PropertyRec := [mkProp 39 31 8 1 [1]; mkProp 40 31 8 1 [2]; mkProp 41 31 8 1 [3]].
Definition demo_window3 : WindowRec := demo_child demo_props3.
Definition demo_server3 : Server :=
  mkServer demo_db (mkAtomState 68 NullNode 100 ∅) (demo_tree demo_props3) [] [] [].
Definition after_lookup3 : Server :=
  match dixLookupWindow allow_all demo_server3 (demo_client 6) (id1 5) DixWriteAccess with
  | Ok (_, _, s, _) => s | Err _ => demo_server3 end.

Lemma ProcRotateProperties_rotation_witness :
  let stuff := mkRPReq (id1 5) 3 (-2) [41; 39; 40] in
  let c1 := set_error (demo_client 6) (id1 5) in
  ∃ rc s' c', ProcRotateProperties allow_all allow_props demo_server3 (demo_client 6) stuff = Ok (rc, s', c') ∧
    (acceptable allow_props after_lookup3 c1 900 (wUserProps demo_window3) [41; 39; 40] ->
       rc = Success ∧ c' = c1 ∧ ∃ w', drawables s' = <[900 := w']> (drawables after_lookup3) ∧
         w' = set_props demo_window3 (wUserProps w') ∧
         rotated (wUserProps demo_window3) (wUserProps w') [41; 39; 40] (-2) ∧
         events s' = events after_lookup3 ++ (if decide ((-2) mod 3 = 0) then []
                                   else map (notify demo_window3 PropertyNewValue) [41; 39; 40])) ∧
    (∀ i name, first_bad allow_props after_lookup3 c1 900 (wUserProps demo_window3) [41; 39; 40] i name ->
       drawables s' = drawables after_lookup3 ∧ events s' = events after_lookup3 ∧
       (ValidAtom (atoms after_lookup3) name = false ∨ rotate_access allow_props c1 900 name = XaceErrorOperation ->
          rc = BadAtom ∧ c' = set_error c1 name) ∧
       (ValidAtom (atoms after_lookup3) name = true ∧ rotate_access allow_props c1 900 name = XaceIgnoreOperation ->
          rc = Success ∧ c' = c1) ∧
       (permitted allow_props after_lookup3 c1 900 name -> rc = BadMatch ∧ c' = c1)) ∧
    (acceptable allow_props after_lookup3 c1 900 (wUserProps demo_window3) [41; 39; 40] ∨
     ∃ i name, first_bad allow_props after_lookup3 c1 900 (wUserProps demo_window3) [41; 39; 40] i name).
Proof.
  intros stuff c1.
  apply (ProcRotateProperties_rotation allow_all allow_props demo_server3 after_lookup3 (demo_client 6)
    c1 stuff 900 demo_window3 [41; 39; 40]).
  split; [by vm_compute|by vm_compute|by vm_compute| |by vm_compute|by vm_compute|by vm_compute].
  split; [by apply (bool_decide_unpack (NoDup [39; 40; 41]))|]. repeat constructor; simpl; (lia || by left).
Defined.

(** The list of that request is acceptable; with an atom named twice, or one that names no
    property, it is not. *)
Example acceptable_evaluates :
  let c1 := set_error (demo_client 6) (id1 5) in
  acceptable allow_props after_lookup3 c1 900 (wUserProps demo_window3) [41; 39; 40] ∧
  first_bad allow_props after_lookup3 c1 900 (wUserProps demo_window3) [41; 39; 41] 0 41 ∧
  first_bad allow_props after_lookup3 c1 900 (wUserProps demo_window3) [41; 38] 1 38.
Proof.
  intros c1. split; [|split].
  - split; [by apply (bool_decide_unpack (NoDup [41; 39; 40]))|].
    intros name H. apply list_elem_of_In in H. destruct H as [<-|[<-|[<-|[]]]];
      (split; [by split; vm_compute|]; by apply (bool_decide_unpack (_ ∈ [39; 40; 41]))).
  - split; [done|]. split; [|by intros [] ? ?; lia].
    intros (_ & H & _). by apply H, (bool_decide_unpack (41 ∈ [39; 41])).
  - split; [done|]. split; [|].
    + intros (_ & _ & H). by apply (bool_decide_unpack (38 ∉ [39; 40; 41])) in H.
    + intros [|j] name' Hj Hl; [|lia]. injection Hl as <-. split; [by split; vm_compute|].
      split; [by apply (bool_decide_unpack (41 ∉ [38]))|by apply (bool_decide_unpack (41 ∈ [39; 40; 41]))].
Qed.
