(* ===== verification/PropertySafety.v ===== *)
(** * PropertySafety: no property request leaves its memory (dix/property.c)

    The invariant of the state the request handlers share, and that every request
    whose length the transport reported truthfully is handled within its buffer and
    preserves it. *)

From S2P Require Import Prelude Atom ResourceDB ResourceProofs ResourceInit.
From S2P Require Import Window WindowProofs Property PropertyProofs PropertyRead PropertyRotate.

(** ** The shared invariant *)

(** Drawable resources and the clients' caches point to live drawables. *)
Record server_ok (s : Server) (c : Requestor) : Prop := {
  so_db : world_ok (db s);
  so_client : is_Some (mjoin (clients (db s) !! Z.to_nat (rq_index c)));
  so_values id x : x ∈ contents (db s) id -> has (r_type x) RC_DRAWABLE = true ->
    r_value x = 0 ∨ is_Some (drawables s !! r_value x);
  so_cache i cl : clients (db s) !! i = Some (Some cl) -> lastDrawable cl = 0 ∨ is_Some (drawables s !! lastDrawable cl);
  so_windows p w : drawables s !! p = Some w -> window_ok (windows s) w;
  so_props p w : drawables s !! p = Some w -> props_ok (wUserProps w)
}.

(** One window replaced by another in the same place, with well-formed properties. *)
Lemma server_ok_drawable s c s' c' p w w' :
  server_ok s c -> drawables s !! p = Some w -> same_place w w' -> props_ok (wUserProps w') ->
  db s' = db s -> windows s' = windows (set_drawable s p w') -> rq_index c' = rq_index c -> server_ok s' c'.
Proof.
  intros [H1 H2 H3 H4 Hk H5] Hp Hplace Hw Edb Ew Ec.
  assert (Edr : drawables s' = <[p := w']> (drawables s)) by (unfold drawables at 1; by rewrite Ew).
  assert (Hkeep : ∀ q, is_Some (drawables s !! q) -> is_Some (drawables s' !! q)).
  { intros q Hq. rewrite Edr. apply lookup_insert_is_Some'. by right. }
  split; rewrite ?Edb, ?Ec; try done.
  - intros id x Hx Ht. destruct (H3 id x Hx Ht) as [?|?]; [by left|right; auto].
  - intros i cl Hi. destruct (H4 i cl Hi) as [?|?]; [by left|right; auto].
  - intros q x Hq. rewrite Ew. rewrite Edr in Hq. apply (window_ok_insert (windows s) p w w' q x Hp Hplace Hq).
    intros y. apply Hk.
  - intros q x. rewrite Edr. intros [[<- <-]|[_ Hq]]%lookup_insert_Some; [done|by apply (H5 q)].
Qed.

Lemma server_ok_same s c s' c' :
  server_ok s c -> db s' = db s -> windows s' = windows s -> rq_index c' = rq_index c -> server_ok s' c'.
Proof.
  intros [H1 H2 H3 H4 Hk H5] Edb Ew Ec. assert (Edr : drawables s' = drawables s) by (unfold drawables; by rewrite Ew).
  split; rewrite ?Edb, ?Edr, ?Ec, ?Ew; done.
Qed.

Section Safety.
Context (XaceHook : Z -> XID -> RESTYPE -> Z -> pointer -> bool).
Context (XacePropertyHook : Z -> pointer -> Z -> Z -> xace).

(** ** Lookup *)

Lemma SecurityLookupIDByClass_ok s c id access_mode cl :
  server_ok s c ->
  ∃ v, SecurityLookupIDByClass XaceHook (db s) cl id RC_DRAWABLE access_mode = Ok v ∧
    (v = 0 ∨ is_Some (drawables s !! v)).
Proof.
  intros H. unfold SecurityLookupIDByClass. rewrite (lookup_first_ok _ _ _ (so_db _ _ H)).
  cbn [mbind result_bind]. eexists. split; [done|].
  destruct (List.find _ (contents (db s) id)) as [x|] eqn:Ef; [|by left]. simpl.
  apply List.find_some in Ef as [Hx Ht]. apply list_elem_of_In in Hx.
  destruct cl; [case_match|]; try (by left); by apply (so_values _ _ H id x).
Qed.

Lemma dixLookupWindow_ok s c id access_mode :
  server_ok s c ->
  ∃ rc p s' c', dixLookupWindow XaceHook s c id access_mode = Ok (rc, p, s', c') ∧ server_ok s' c' ∧
    windows s' = windows s ∧ atoms s' = atoms s ∧ smem s' = smem s ∧ rq_index c' = rq_index c ∧
    (rc = Success -> is_Some (drawables s' !! p)).
Proof.
  intros H. unfold dixLookupWindow, dixLookupDrawable. set (c1 := set_error c id).
  assert (H1 : server_ok s c1) by (by apply (server_ok_same s c)).
  destruct (id =? 0); [by do 4 eexists; split; [done|]; split_and!|].
  destruct (so_client _ _ H) as [cl Hcl]. change (rq_index c1) with (rq_index c). rewrite Hcl.
  cbn [of_option mbind result_bind].
  assert (Hc : clients (db s) !! Z.to_nat (rq_index c) = Some (Some cl)).
  { destruct (clients (db s) !! Z.to_nat (rq_index c)) as [[?|]|]; simplify_eq/=; done. }
  assert (∃ v, (if id =? lastDrawableID cl then
        Ok (if XaceHook (rq_index c) id (if negb (Z.land M_WINDOW M_WINDOW =? 0) then RT_WINDOW else RT_PIXMAP) access_mode (lastDrawable cl)
            then lastDrawable cl else 0)
      else SecurityLookupIDByClass XaceHook (db s) (Some (rq_index c)) id RC_DRAWABLE access_mode) = Ok v ∧
      (v = 0 ∨ is_Some (drawables s !! v))) as (v & -> & Hv).
  { destruct (id =? lastDrawableID cl); [|by apply (SecurityLookupIDByClass_ok s c)].
    eexists. split; [done|]. case_match; [|by left]. by apply (so_cache _ _ H _ _ Hc). }
  cbn [mbind result_bind]. destruct (Z.eqb_spec v 0); [by do 4 eexists; split; [done|]; split_and!|].
  destruct Hv as [?|[w Hw]]; [done|]. rewrite Hw. cbn [of_option mbind result_bind].
  case_match; [by do 4 eexists; split; [done|]; split_and!|].
  change (negb (Z.land M_WINDOW M_DRAWABLE =? 0)) with true. cbn iota. cbn [mbind result_bind].
  do 4 eexists. split; [done|]. split_and!; [|done..|by eauto].
  destruct H1 as [K1 K2 K3 K4 K5 K6]. split; simpl; try done.
  - by apply (world_ok_frame (db s)).
  - rewrite list_lookup_insert_eq by (by eapply lookup_lt_Some). by eexists.
  - intros i cl' Hi. apply list_lookup_insert_Some in Hi as [(_ & [= <-] & _)|[_ Hi]]; [|by apply (K4 i)].
    right. simpl. by exists w.
Qed.

(** ** Request lengths *)

Lemma div4_negative n : - 2 ^ 31 <= n < 0 -> (n / 4) mod 2 ^ 32 = n / 4 + 2 ^ 32.
Proof.
  intros. symmetry. apply (Z.mod_unique_pos _ _ (-1)); [|lia]. Z.to_euclidean_division_equations; lia.
Qed.

(** A negative size never passes. *)
Lemma size_negative sz n len :
  0 <= sz < 100 -> sz mod 4 = 0 -> 0 <= len < 2 ^ 32 -> - 2 ^ 31 <= n < 0 -> (n / 4) mod 2 ^ 32 < len ->
  (((sz + n mod 2 ^ 64) mod 2 ^ 64 + 3) mod 2 ^ 64) / 4 = len -> False.
Proof.
  intros Hsz H4 Hl Hn H1 H0. pose proof (div4_negative n Hn) as E1.
  assert (E2 : n mod 2 ^ 64 = n + 2 ^ 64) by (symmetry; apply (Z.mod_unique_pos _ _ (-1)); lia).
  rewrite Zplus_mod_idemp_l, E2 in H0.
  assert ((sz + (n + 2 ^ 64) + 3) mod 2 ^ 64 = sz + n + 2 ^ 64 + 3 ∨
          (sz + (n + 2 ^ 64) + 3) mod 2 ^ 64 = sz + n + 3 ∧ 0 <= sz + n + 3) as [E|[E ?]].
  { destruct (Z.ltb_spec (sz + n + 3) 0).
    - left. rewrite Z.mod_small; lia.
    - right. split; [|lia]. symmetry. apply (Z.mod_unique_pos _ _ 1); lia. }
  - rewrite E in H0. Z.to_euclidean_division_equations; lia.
  - rewrite E in H0. Z.to_euclidean_division_equations; lia.
Qed.

(** A request of [req_len] words has [4 * req_len] bytes: the fixed part and [n] more fit. *)
Lemma REQUEST_FIXED_SIZE_ok sz n len :
  0 <= sz < 100 -> sz mod 4 = 0 -> 0 <= len < 2 ^ 32 -> - 2 ^ 31 <= n < 2 ^ 31 ->
  REQUEST_FIXED_SIZE sz (Ok n) len = Ok true -> 0 <= n ∧ sz + n <= 4 * len.
Proof.
  intros Hsz Hs4 Hlen Hn H. unfold REQUEST_FIXED_SIZE in H.
  destruct (Z.ltb_spec len (Z.shiftr sz 2)); [done|]. cbn [mbind result_bind] in H. injection H as H. zbool.
  rewrite !Z.shiftr_div_pow2 in * by done. change (2 ^ 2) with 4 in *.
  destruct (Z.ltb_spec n 0) as [Hneg|].
  - exfalso. unfold u32, u64 in *. apply (size_negative sz n len); (assumption || lia).
  - split; [done|]. rewrite (u64_small n), (u64_small (sz + n)), u64_small in * by lia.
    Z.to_euclidean_division_equations; lia.
Qed.

(** ** Requests *)

Inductive PropertyRequest :=
  | ChangeProperty (r : xChangePropertyReq)
  | RotateProperties (r : xRotatePropertiesReq)
  | GetProperty (r : xGetPropertyReq)
  | ListProperties (id : XID)
  | DeletePropertyRequest (r : xDeletePropertyReq).

(** The entries of the request table (dix/tables.c). *)
Definition dispatch (s : Server) (c : Requestor) (req : PropertyRequest) : result (Status * Server * Requestor) :=
  match req with
  | ChangeProperty r => ProcChangeProperty XaceHook XacePropertyHook s c r
  | RotateProperties r => ProcRotateProperties XaceHook XacePropertyHook s c r
  | GetProperty r => ProcGetProperty XaceHook XacePropertyHook s c r
  | ListProperties id => ProcListProperties XaceHook s c id
  | DeletePropertyRequest r => ProcDeleteProperty XaceHook XacePropertyHook s c r
  end.

(** What the transport guarantees: numbers of their width, and [req_len] words of request,
    however few: what follows the fixed part is the rest, if any. *)
Definition request_ok (c : Requestor) (req : PropertyRequest) : Prop :=
  0 <= req_len c < 2 ^ 32 ∧
  match req with
  | ChangeProperty r => 0 <= cp_nUnits r < 2 ^ 32 ∧ Z.of_nat (length (cp_bytes r)) = Z.max 0 (4 * req_len c - sz_xChangePropertyReq)
  | RotateProperties r => 0 <= rp_nAtoms r < 2 ^ 16 ∧ 4 * Z.of_nat (length (rp_atoms r)) = Z.max 0 (4 * req_len c - sz_xRotatePropertiesReq)
  | GetProperty r => 0 <= gp_longOffset r < 2 ^ 32 ∧ 0 <= gp_longLength r < 2 ^ 32
  | _ => True
  end.

(** No property has 2 GiB of data. *)
Definition moderate (s : Server) : Prop :=
  ∀ p w, drawables s !! p = Some w -> Forall (fun q => Z.of_nat (length (data q)) < 2 ^ 31) (wUserProps w).

Definition safe (r : result (Status * Server * Requestor)) : Prop :=
  ∃ rc s' c', r = Ok (rc, s', c') ∧ server_ok s' c'.

Lemma ProcChangeProperty_safe s c r :
  server_ok s c -> moderate s -> request_ok c (ChangeProperty r) ->
  safe (ProcChangeProperty XaceHook XacePropertyHook s c r).
Proof.
  intros H Hmod (Hlen & Hunits & Hbytes). unfold ProcChangeProperty.
  assert (Hdone : ∀ rc (e : Z), safe (Ok (rc, s, set_error c e))).
  { intros rc e. do 3 eexists. split; [done|]. by apply (server_ok_same s c). }
  destruct (REQUEST_AT_LEAST_SIZE _ _) eqn:Hal; cbn [negb]; [|by do 3 eexists].
  apply REQUEST_AT_LEAST_SIZE_ok in Hal; [|done]. rewrite struct_at_ok by done. cbn [mbind result_bind].
  destruct (mode_of _) as [mode|]; [|apply Hdone].
  set (f := schar (cp_format r)). destruct (negb ((f =? 8) || (f =? 16) || (f =? 32))) eqn:Ef; [apply Hdone|].
  assert (Hf : format_ok f).
  { apply negb_false_iff, orb_true_iff in Ef as [[?|?]%orb_true_iff|?]; zbool; unfold format_ok; auto. }
  destruct (format_shift f Hf) as [Hsh H8].
  destruct (Z.ltb_spec (Z.shiftr (0xffffffff - sz_xChangePropertyReq) 2) (cp_nUnits r)); [by do 3 eexists|].
  change (Z.shiftr (0xffffffff - sz_xChangePropertyReq) 2) with 1073741817 in *. rewrite Hsh.
  destruct (REQUEST_FIXED_SIZE _ _ _) as [[]|] eqn:Efix; cbn [negb mbind result_bind];
    [|by do 3 eexists|by apply REQUEST_FIXED_SIZE_total in Efix as []].
  assert (Hch : change_ok f (cp_nUnits r) (cp_bytes r)).
  { assert (Hw : - 2 ^ 31 <= wrap_s 32 (cp_nUnits r * (f / 8)) < 2 ^ 31).
    { unfold wrap_s. pose proof (Z.mod_pos_bound (cp_nUnits r * (f / 8)) (2 ^ 32) ltac:(lia)).
      change (2 ^ (32 - 1)) with (2 ^ 31). destruct (Z.ltb_spec ((cp_nUnits r * (f / 8)) mod 2 ^ 32) (2 ^ 31)); lia. }
    destruct (REQUEST_FIXED_SIZE_ok sz_xChangePropertyReq _ _ ltac:(done) eq_refl Hlen Hw Efix) as [Hpos Hfit].
    assert (Hint : cp_nUnits r * (f / 8) < 2 ^ 32) by nia.
    assert (cp_nUnits r * (f / 8) < 2 ^ 31 ∧ wrap_s 32 (cp_nUnits r * (f / 8)) = cp_nUnits r * (f / 8)) as [Hlt Ew].
    { unfold wrap_s in *. rewrite Z.mod_small in * by nia. change (2 ^ (32 - 1)) with (2 ^ 31) in *.
      pose proof (wrap_s_small 32 (cp_nUnits r * (f / 8))).
      destruct (Z.ltb_spec (cp_nUnits r * (f / 8)) (2 ^ 31)); lia. }
    rewrite Ew in *. split; [done|lia|done|]. rewrite Hbytes. lia. }
  destruct (dixLookupWindow_ok s c (cp_window r) DixWriteAccess H)
    as (rc & p & s1 & c1 & -> & H1 & Hdr & _ & _ & _ & Hp). cbn [mbind result_bind].
  destruct rc; try (by do 3 eexists).
  assert (Hdone1 : ∀ rc (e : Z), safe (Ok (rc, s1, set_error c1 e))).
  { intros rc e. do 3 eexists. split; [done|]. by apply (server_ok_same s1 c1). }
  destruct (ValidAtom (atoms s1) (cp_property r)); cbn [negb]; [|apply Hdone1].
  destruct (ValidAtom (atoms s1) (cp_type r)); cbn [negb]; [|apply Hdone1].
  destruct (XacePropertyHook _ _ _ _); [apply Hdone1| |by do 3 eexists].
  destruct (Hp eq_refl) as [w Hw]. rewrite Hw. cbn [of_option mbind result_bind].
  destruct (ChangeWindowProperty_changed (windows s1) w (cp_property r) (cp_type r) f mode (cp_nUnits r) (cp_bytes r) true (smem s1))
    as (rc & w' & evs & o & -> & Hw' & Hplace & _).
  - by apply (so_windows _ _ H1 p).
  - by apply (so_props _ _ H1 p).
  - done.
  - intros _. unfold drawables in Hw. rewrite Hdr in Hw. by apply (Hmod p).
  - cbn [mbind result_bind]. destruct rc; do 3 eexists; (split; [done|]);
      by apply (server_ok_drawable s1 c1 _ c1 p w w').
Qed.

Lemma ProcRotateProperties_safe s c r :
  server_ok s c -> request_ok c (RotateProperties r) -> safe (ProcRotateProperties XaceHook XacePropertyHook s c r).
Proof.
  intros H (Hlen & Hn & Hatoms). unfold ProcRotateProperties.
  rewrite REQUEST_FIXED_SIZE_struct by done.
  destruct (REQUEST_FIXED_SIZE _ _ _) as [[]|] eqn:Efix; cbn [negb mbind result_bind];
    [|by do 3 eexists|by apply REQUEST_FIXED_SIZE_total in Efix as []].
  assert (Hs : Z.shiftl (rp_nAtoms r) 2 = 4 * rp_nAtoms r) by (rewrite Z.shiftl_mul_pow2 by done; lia).
  rewrite Hs in Efix.
  destruct (REQUEST_FIXED_SIZE_ok sz_xRotatePropertiesReq (4 * rp_nAtoms r) _ ltac:(done) eq_refl Hlen ltac:(lia) Efix) as [_ Hfit].
  rewrite struct_at_ok by lia. cbn [mbind result_bind].
  destruct (dixLookupWindow_ok s c (rp_window r) DixWriteAccess H)
    as (rc & p & s1 & c1 & -> & H1 & _ & _ & _ & _ & Hp). cbn [mbind result_bind].
  destruct rc; try (by do 3 eexists). destruct (Hp eq_refl) as [w Hw].
  destruct (Z.eqb_spec (rp_nAtoms r) 0); [by do 3 eexists|].
  destruct (alloc (smem s1)) as [ok o]. set (s2 := set_smem s1 o).
  assert (H2 : server_ok s2 c1) by (by apply (server_ok_same s1 c1)).
  destruct ok; cbn [negb]; [|by do 3 eexists].
  rewrite read_request_ok by lia. cbn [mbind result_bind]. set (names := take _ _).
  change (drawables s2) with (drawables s1). rewrite Hw. cbn [of_option mbind result_bind].
  destruct (collect XacePropertyHook s2 c1 p (wUserProps w) names) as [[rc e|]|ks] eqn:Ec.
  - do 3 eexists. split; [done|]. destruct e; by apply (server_ok_same s2 c1).
  - by do 3 eexists.
  - case_match; [by do 3 eexists|]. set (d := add_until _ _ _).
    destruct (rotate_loop (wUserProps w) names d 0 ks) as [props evs] eqn:El.
    do 3 eexists. split; [done|].
    apply (server_ok_drawable s2 c1 _ c1 p w (set_props w props)); try done; [apply set_props_place|].
    pose proof (rotate_loop_rotated (wUserProps w) names ks d (so_props _ _ H1 _ _ Hw) (collect_points _ _ _ _ _ _ _ Ec))
      as (Hok & _). rewrite El in Hok. unfold set_props, wUserProps. simpl.
    destruct (optional w); simpl; [done|]. split; constructor.
Qed.

Lemma ProcGetProperty_safe s c r :
  server_ok s c -> request_ok c (GetProperty r) -> safe (ProcGetProperty XaceHook XacePropertyHook s c r).
Proof.
  intros H (Hlen & Ho & Hl). unfold ProcGetProperty.
  destruct (REQUEST_SIZE_MATCH _ _) eqn:Hsz; cbn [negb]; [|by do 3 eexists].
  apply REQUEST_SIZE_MATCH_ok in Hsz; [|done]. rewrite struct_at_ok by done. cbn [mbind result_bind].
  destruct (dixLookupWindow_ok s c (gp_window r) DixReadAccess H)
    as (rc & pw & s1 & c1 & -> & H1 & _ & _ & _ & _ & Hp). cbn [mbind result_bind].
  destruct rc; try (by do 3 eexists). destruct (Hp eq_refl) as [w Hw].
  assert (Hdone : ∀ rc (e : Z), safe (Ok (rc, s1, set_error c1 e))).
  { intros rc e. do 3 eexists. split; [done|]. by apply (server_ok_same s1 c1). }
  assert (Hreply : ∀ rc q, safe (Ok (rc, reply s1 q, c1))).
  { intros rc q. do 3 eexists. split; [done|]. by apply (server_ok_same s1 c1). }
  do 3 (case_match; [apply Hdone|]). rewrite Hw. cbn [of_option mbind result_bind].
  pose proof (so_props _ _ H1 _ _ Hw) as Hok.
  destruct (find_prop _ _) as [[[b p] a]|] eqn:Ef; [|apply Hreply].
  destruct (XacePropertyHook _ _ _ _); [apply Hdone| |apply Hreply].
  case_match; [apply Hreply|]. set (n := format p / 8 * size p). set (ind := u32 _).
  destruct (Z.ltb_spec n ind); [apply Hdone|]. set (len := Z.min _ _).
  apply find_prop_Some in Ef as (Ew & _). pose proof Hok as Hok'. rewrite Ew in Hok'. apply props_ok_middle in Hok' as [Hpok _].
  assert (Hn : Z.of_nat (length (data p)) = n) by (rewrite (po_data _ Hpok); apply Z.mul_comm).
  pose proof (u32_range (Z.shiftl (gp_longOffset r) 2)). pose proof (u32_range (4 * gp_longLength r)).
  assert (∃ l, (if len =? 0 then Ok [] else read_request (drop (Z.to_nat ind) (data p)) len) = Ok l) as [l ->].
  { destruct (len =? 0); [by eexists|]. rewrite read_request_ok; [by eexists|]. rewrite length_drop. lia. }
  cbn [mbind result_bind]. case_match; [|by do 3 eexists; split; [done|]; apply (server_ok_same s1 c1)].
  destruct (unlink_prop_ok (windows s1) w b p a (so_windows _ _ H1 _ _ Hw) Hok Ew) as (w' & Hw' & Hp' & Hplace & _).
  cbn [windows reply add_events]. rewrite Hw'. cbn [mbind result_bind]. do 3 eexists. split; [done|].
  by apply (server_ok_drawable s1 c1 _ c1 pw w w').
Qed.

Lemma ProcListProperties_safe s c id : server_ok s c -> safe (ProcListProperties XaceHook s c id).
Proof.
  intros H. unfold ProcListProperties. destruct (REQUEST_SIZE_MATCH _ _) eqn:Hsz; cbn [negb]; [|by do 3 eexists].
  apply REQUEST_SIZE_MATCH_ok in Hsz; [|done]. rewrite struct_at_ok by done. cbn [mbind result_bind].
  destruct (dixLookupWindow_ok s c id DixReadAccess H)
    as (rc & pw & s1 & c1 & -> & H1 & _ & _ & _ & _ & Hp). cbn [mbind result_bind].
  destruct rc; try (by do 3 eexists). destruct (Hp eq_refl) as [w Hw]. rewrite Hw. cbn [of_option mbind result_bind].
  destruct (if _ : bool then _ else _) as [ok o]. destruct ok; cbn [negb];
    do 3 eexists; (split; [done|]); by apply (server_ok_same s1 c1).
Qed.

Lemma ProcDeleteProperty_safe s c r : server_ok s c -> safe (ProcDeleteProperty XaceHook XacePropertyHook s c r).
Proof.
  intros H. unfold ProcDeleteProperty. destruct (REQUEST_SIZE_MATCH _ _) eqn:Hsz; cbn [negb]; [|by do 3 eexists].
  apply REQUEST_SIZE_MATCH_ok in Hsz; [|done]. rewrite struct_at_ok by done. cbn [mbind result_bind].
  destruct (dixLookupWindow_ok s c (dp_window r) DixWriteAccess H)
    as (rc & pw & s1 & c1 & -> & H1 & _ & _ & _ & _ & Hp). cbn [mbind result_bind].
  destruct rc; try (by do 3 eexists). destruct (Hp eq_refl) as [w Hw].
  assert (Hdone : ∀ rc (e : Z), safe (Ok (rc, s1, set_error c1 e))).
  { intros rc e. do 3 eexists. split; [done|]. by apply (server_ok_same s1 c1). }
  case_match; [apply Hdone|]. destruct (XacePropertyHook _ _ _ _); [apply Hdone| |by do 3 eexists].
  rewrite Hw. cbn [of_option mbind result_bind].
  destruct (DeleteProperty_ok (windows s1) w (dp_property r) (so_windows _ _ H1 _ _ Hw) (so_props _ _ H1 _ _ Hw))
    as (w' & evs & -> & (Hw' & Hplace & _) & _). cbn [mbind result_bind].
  destruct (noClientException c1); do 3 eexists; (split; [done|]);
    by apply (server_ok_drawable s1 c1 _ c1 pw w w').
Qed.

(** C3: no property request leaves its memory: in a well-formed server in which no property
    has 2 GiB of data or more, every request whose length is what the transport delivered,
    however short, and whatever its other fields, is answered without reading outside the
    request, its fixed part included, or outside a property's data, and without following a
    dead pointer, and leaves the server well formed. *)
Theorem requests_safe s c req :
  server_ok s c -> moderate s -> request_ok c req -> safe (dispatch s c req).
Proof.
  intros Hs Hm Hr. destruct req.
  - by apply ProcChangeProperty_safe.
  - by apply ProcRotateProperties_safe.
  - by apply ProcGetProperty_safe.
  - by apply ProcListProperties_safe.
  - by apply ProcDeleteProperty_safe.
Qed.

End Safety.

(** ** A concrete server *)

(** Values of drawable resources are checked by evaluation. *)
Definition valuesb (s : World) (ok : pointer -> bool) : bool :=
  forallb (fun r => forallb (fun res => negb (has (r_type res) RC_DRAWABLE) || ok (r_value res)) (nodes r)) (clientTable s).

Lemma valuesb_sound s ok id x :
  valuesb s ok = true -> x ∈ contents s id -> has (r_type x) RC_DRAWABLE = true -> ok (r_value x) = true.
Proof.
  intros H Hx Ht. unfold contents in Hx. apply list_elem_of_filter in Hx as [_ Hx]. unfold rrec in Hx.
  destruct (clientTable s !! Z.to_nat (CLIENT_ID id)) as [r|] eqn:E; [|by apply elem_of_nil in Hx].
  unfold valuesb in H. rewrite forallb_forall in H.
  specialize (H r (proj1 (list_elem_of_In _ _) (list_elem_of_lookup_2 _ _ _ E))).
  rewrite forallb_forall in H. specialize (H x (proj1 (list_elem_of_In _ _) Hx)). by rewrite Ht in H.
Qed.

Lemma demo_server_ok n : server_ok demo_server (demo_client n).
Proof.
  split.
  - apply (world_ok_frame (add_all demo0 [(id1 5, RT_WINDOW, 900)])); [done|done|].
    apply add_all_ok; [apply demo0_ok|]. repeat constructor; vm_compute; discriminate.
  - by eexists.
  - intros id x Hx Ht. right.
    apply (valuesb_sound _ (fun v => bool_decide (v = 900))) in Hx; [|by vm_compute|done].
    apply bool_decide_eq_true in Hx. rewrite Hx. unfold demo_server, drawables, demo_tree. cbn [windows tree].
    rewrite lookup_insert_eq. by eexists.
  - intros [|[|i]] cl; simpl; try done. intros [= <-]. by left.
  - apply demo_tree_ok.
  - intros p w. unfold demo_server, drawables, demo_tree. cbn [windows tree].
    intros [[_ <-]|[_ [_ <-]%lookup_singleton_Some]]%lookup_insert_Some; [apply demo_window_ok|]. split; constructor.
Qed.

Lemma requests_safe_witness :
  let req := ChangeProperty (mkCPReq 2 (id1 5) 39 31 16 1 [7; 8; 0; 0]) in
  safe (dispatch allow_all allow_props demo_server (demo_client 7) req).
Proof.
  intros req. apply (requests_safe allow_all allow_props demo_server (demo_client 7) req).
  - apply demo_server_ok.
  - intros p w. unfold demo_server, drawables, demo_tree. cbn [windows tree].
    intros [[_ <-]|[_ [_ <-]%lookup_singleton_Some]]%lookup_insert_Some; repeat constructor.
  - split; [by vm_compute|]. split; [by vm_compute|done].
Defined.

(** The request succeeds there: the property grows by one unit. *)
Example requests_safe_evaluates :
  match dispatch allow_all allow_props demo_server (demo_client 7)
          (ChangeProperty (mkCPReq 2 (id1 5) 39 31 16 1 [7; 8; 0; 0])) with
  | Ok (rc, s, _) => rc = Success ∧ (wUserProps <$> drawables s !! 900) = Some [mkProp 39 31 16 3 [1; 2; 3; 4; 7; 8]]
  | Err _ => False
  end.
Proof. by vm_compute. Qed.

(** A request that is too short for its fixed part is refused before it is read. *)
Example short_request_refused :
  let c := mkRequestor 1 0 Success 1 in
  Forall (fun req => match dispatch allow_all allow_props demo_server c req with
                     | Ok (rc, _, _) => rc = BadLength | Err _ => False end)
    [ChangeProperty (mkCPReq 2 (id1 5) 39 31 16 1 []); RotateProperties (mkRPReq (id1 5) 0 0 []);
     GetProperty (mkGPReq 0 (id1 5) 39 31 0 1); ListProperties (id1 5);
     DeletePropertyRequest (mkDPReq (id1 5) 39)].
Proof. repeat constructor. Qed.
