(* ===== verification/Timestamp.v ===== *)
(** * Timestamp: server time and the time stamps of clients (dix/dixutils.c, dix/dispatch.c)

    The server counts milliseconds in 32 bits and the wraps of that counter in another 32;
    clients send the lower half only. *)

From S2P Require Import Prelude.

Record TimeStamp := mkTime { months : Z; milliseconds : Z }.

#[export] Instance TimeStamp_eq_dec : EqDecision TimeStamp.
Proof. solve_decision. Defined.

Inductive time_order := EARLIER | SAMETIME | LATER.

#[export] Instance time_order_eq_dec : EqDecision time_order.
Proof. solve_decision. Defined.

Definition CompareTimeStamps (a b : TimeStamp) : time_order :=
  if months a <? months b then EARLIER else
  if months b <? months a then LATER else
  if milliseconds a <? milliseconds b then EARLIER else
  if milliseconds b <? milliseconds a then LATER else SAMETIME.

(** [CurrentTime], the time stamp that stands for now. *)
Definition CurrentTime : Z := 0.
Definition HALFMONTH : Z := 2 ^ 31.

Definition ClientTimeToServerTime (currentTime : TimeStamp) (c : Z) : TimeStamp :=
  if c =? CurrentTime then currentTime else
  let ms := milliseconds currentTime in
  if ms <? c then
    mkTime (if HALFMONTH <? c - ms then u32 (months currentTime - 1) else months currentTime) c
  else if c <? ms then
    mkTime (if HALFMONTH <? ms - c then u32 (months currentTime + 1) else months currentTime) c
  else mkTime (months currentTime) c.

(** [UpdateCurrentTimeIf], for the clock [now]. *)
Definition UpdateCurrentTimeIf (now : Z) (currentTime : TimeStamp) : TimeStamp :=
  let systime := mkTime (if now <? milliseconds currentTime then u32 (months currentTime + 1) else months currentTime) now in
  match CompareTimeStamps systime currentTime with LATER => systime | _ => currentTime end.

(** ** Time as one number *)

Definition abs_time (t : TimeStamp) : Z := months t * 2 ^ 32 + milliseconds t.

Record time_ok (t : TimeStamp) : Prop := {
  tk_months : 0 <= months t < 2 ^ 32;
  tk_ms : 0 <= milliseconds t < 2 ^ 32
}.

Lemma CompareTimeStamps_ok a b :
  time_ok a -> time_ok b ->
  match CompareTimeStamps a b with
  | EARLIER => abs_time a < abs_time b
  | SAMETIME => a = b
  | LATER => abs_time b < abs_time a
  end.
Proof.
  intros [A1 A2] [B1 B2]. unfold CompareTimeStamps, abs_time.
  destruct (Z.ltb_spec (months a) (months b)), (Z.ltb_spec (months b) (months a)); try lia.
  destruct (Z.ltb_spec (milliseconds a) (milliseconds b)), (Z.ltb_spec (milliseconds b) (milliseconds a)); try lia.
  destruct a, b; simpl in *. f_equal; lia.
Qed.

Lemma abs_time_inj a b : time_ok a -> time_ok b -> abs_time a = abs_time b -> a = b.
Proof.
  intros Ha Hb E. pose proof (CompareTimeStamps_ok a b Ha Hb) as H. destruct (CompareTimeStamps a b); lia || done.
Qed.

Lemma ClientTimeToServerTime_ok cur c :
  time_ok cur -> 0 <= c < 2 ^ 32 -> time_ok (ClientTimeToServerTime cur c).
Proof.
  intros [Hm Hs] Hc. unfold ClientTimeToServerTime. cbv zeta.
  pose proof (u32_range (months cur - 1)). pose proof (u32_range (months cur + 1)).
  repeat case_match; split; simpl; lia.
Qed.

(** C31: away from the two ends of the server's time, [ClientTimeToServerTime] extends the
    32 bits of a client to the full time stamp closest to now: it has the client's lower
    half and lies within half a wrap of the current time, and it is the only such one
    except for the two at exactly half a wrap.  Comparing it with the current time tells the past
    from the future. *)
Theorem ClientTimeToServerTime_closest cur c :
  time_ok cur -> 1 <= months cur < 2 ^ 32 - 1 -> 0 < c < 2 ^ 32 ->
  let ts := ClientTimeToServerTime cur c in
  time_ok ts ∧ milliseconds ts = c ∧ Z.abs (abs_time ts - abs_time cur) <= HALFMONTH ∧
  (∀ ts', time_ok ts' -> milliseconds ts' = c -> Z.abs (abs_time ts' - abs_time cur) < HALFMONTH -> ts' = ts) ∧
  (CompareTimeStamps ts cur = LATER <-> abs_time cur < abs_time ts).
Proof.
  intros Hcur Hm Hc ts. pose proof (ClientTimeToServerTime_ok cur c Hcur ltac:(lia)) as Hts. fold ts in Hts.
  assert (Hms : milliseconds ts = c ∧ Z.abs (abs_time ts - abs_time cur) <= HALFMONTH).
  { unfold ts, ClientTimeToServerTime, abs_time, HALFMONTH. cbv zeta. destruct Hcur as [_ Hs].
    rewrite !u32_small by lia.
    destruct (Z.eqb_spec c CurrentTime) as [E|]; [unfold CurrentTime in E; lia|].
    repeat case_match; zbool; simpl; lia. }
  destruct Hms as [Hms Habs]. split_and!; [done|done|done| |].
  - intros ts' Hts' E Hlt. apply abs_time_inj; [done|done|]. unfold abs_time, HALFMONTH in *. rewrite Hms, E in *. lia.
  - pose proof (CompareTimeStamps_ok ts cur Hts Hcur) as H. destruct (CompareTimeStamps ts cur); split; try done.
    + lia.
    + rewrite H. lia.
Qed.

Lemma ClientTimeToServerTime_closest_witness :
  let cur := mkTime 3 100 in let ts := ClientTimeToServerTime cur (2 ^ 32 - 1) in
  time_ok ts ∧ milliseconds ts = 2 ^ 32 - 1 ∧ Z.abs (abs_time ts - abs_time cur) <= HALFMONTH ∧
  (∀ ts', time_ok ts' -> milliseconds ts' = 2 ^ 32 - 1 -> Z.abs (abs_time ts' - abs_time cur) < HALFMONTH -> ts' = ts) ∧
  (CompareTimeStamps ts cur = LATER <-> abs_time cur < abs_time ts).
Proof. apply (ClientTimeToServerTime_closest (mkTime 3 100) (2 ^ 32 - 1)); [by split|simpl; lia|lia]. Defined.

(** In the first wrap a time stamp from before the start is taken for one in the far future. *)
Lemma ClientTimeToServerTime_first_month c ms :
  0 <= ms -> ms + HALFMONTH < c < 2 ^ 32 ->
  CompareTimeStamps (ClientTimeToServerTime (mkTime 0 ms) c) (mkTime 0 ms) = LATER.
Proof.
  intros Hms Hc. unfold HALFMONTH in *. unfold ClientTimeToServerTime, CurrentTime, HALFMONTH. simpl.
  destruct (Z.eqb_spec c 0); [lia|]. destruct (Z.ltb_spec ms c); [|lia]. destruct (Z.ltb_spec (2 ^ 31) (c - ms)); [|lia].
  done.
Qed.

(** The clock never makes the server's time go back, and is taken over. *)
Lemma UpdateCurrentTimeIf_advances now cur :
  time_ok cur -> months cur < 2 ^ 32 - 1 -> 0 <= now < 2 ^ 32 ->
  let t := UpdateCurrentTimeIf now cur in
  time_ok t ∧ milliseconds t = now ∧ abs_time cur <= abs_time t < abs_time cur + 2 ^ 32.
Proof.
  intros Hcur Hm Hn. unfold UpdateCurrentTimeIf. set (t := mkTime _ now).
  assert (Ht : time_ok t ∧ abs_time cur <= abs_time t < abs_time cur + 2 ^ 32).
  { destruct Hcur as [H1 H2]. unfold t, abs_time. rewrite !u32_small by lia.
    destruct (Z.ltb_spec now (milliseconds cur)); (split; [split|]; simpl; lia). }
  destruct Ht as [Ht Hb]. pose proof (CompareTimeStamps_ok t cur Ht Hcur) as H.
  destruct (CompareTimeStamps t cur); [lia| |done]. rewrite <- H. split_and!; try done; simpl; lia.
Qed.
