(* ===== verification/Selection.v ===== *)
(** * Selection: ownership of selections (dix/selection.c)

    A selection is a named token that a window of a client may own.  The list of
    selections is global; entries are never removed, only disowned. *)

From S2P Require Import Prelude Atom ResourceDB Window Property Timestamp.

(** ** Data (include/selection.h) *)

(** [client] is the index of a client, [None] for the null pointer. *)
Record Selection := mkSel {
  selection : Z; lastTimeChanged : TimeStamp; window : XID; pWin : pointer; client : option Z
}.

Inductive SelectionCallbackKind := SelectionSetOwner | SelectionWindowDestroy | SelectionClientClose.

Inductive SelectionEvent :=
  | SelectionClear (time : Z) (window : XID) (atom : Z)
  | SelectionRequest (owner : XID) (time : Z) (requestor : XID) (selection target property : Z)
  | SelectionNotify (time : Z) (requestor : XID) (selection target property : Z).

(** What clients and callbacks see, in order. *)
Inductive SelectionEffect :=
  | WriteEventsToClient (to : Z) (e : SelectionEvent)
  | SelectionCallback (sel : Selection) (by_client : option Z) (kind : SelectionCallbackKind)
  | GetSelectionOwnerReply (owner : XID).

(** [gone]: the clients whose [clientGone] is set. *)
Record SelectionServer := mkSS {
  sv : Server; CurrentSelections : list Selection; currentTime : TimeStamp; gone : list Z;
  effects : list SelectionEffect
}.

Definition set_sv (s : SelectionServer) v := mkSS v (CurrentSelections s) (currentTime s) (gone s) (effects s).
Definition set_selections (s : SelectionServer) l := mkSS (sv s) l (currentTime s) (gone s) (effects s).
Definition set_time (s : SelectionServer) t := mkSS (sv s) (CurrentSelections s) t (gone s) (effects s).
Definition emit_effects (s : SelectionServer) l :=
  mkSS (sv s) (CurrentSelections s) (currentTime s) (gone s) (effects s ++ l).

(** [TryClientEvents] for these events, which cannot be filtered, and without a grab: whether
    the event is written. *)
Definition TryClientEvents (s : SelectionServer) (to : option Z) (e : SelectionEvent) : bool * SelectionServer :=
  match to with
  | None => (false, s)
  | Some c =>
      if (c =? 0) || existsb (fun g => g =? c) (gone s) then (false, s)
      else (true, emit_effects s [WriteEventsToClient c e])
  end.

(** ** The list *)

Definition InitSelections (s : SelectionServer) : SelectionServer := set_selections s [].

Definition CallSelectionCallback (sel : Selection) (c : option Z) (kind : SelectionCallbackKind) : SelectionEffect :=
  SelectionCallback sel c kind.

Definition disown (sel : Selection) : Selection := mkSel (selection sel) (lastTimeChanged sel) 0 0 None.

(** The loop of the two functions below. *)
Fixpoint delete_matching (test : Selection -> bool) (kind : SelectionCallbackKind) (l : list Selection)
    : list Selection * list SelectionEffect :=
  match l with
  | [] => ([], [])
  | sel :: l =>
      let '(l, effs) := delete_matching test kind l in
      if test sel then (disown sel :: l, CallSelectionCallback sel None kind :: effs) else (sel :: l, effs)
  end.

Definition DeleteWindowFromAnySelections (s : SelectionServer) (w : pointer) : SelectionServer :=
  let '(l, effs) := delete_matching (fun sel => pWin sel =? w) SelectionWindowDestroy (CurrentSelections s) in
  emit_effects (set_selections s l) effs.

Definition DeleteClientFromAnySelections (s : SelectionServer) (c : Z) : SelectionServer :=
  let '(l, effs) := delete_matching (fun sel => bool_decide (client sel = Some c)) SelectionClientClose (CurrentSelections s) in
  emit_effects (set_selections s l) effs.

(** The first selection with the name: a pointer into the list is a position in it. *)
Definition find_selection (l : list Selection) (name : Z) : option nat :=
  fst <$> list_find (fun sel => selection sel = name) l.

(** ** Requests *)

Record xSetSelectionOwnerReq := mkSSOReq { so_window : XID; so_selection : Z; so_time : Z }.
Definition sz_xSetSelectionOwnerReq : Z := 16.
Record xConvertSelectionReq := mkCSReq {
  cs_requestor : XID; cs_selection : Z; cs_target : Z; cs_property : Z; cs_time : Z
}.
Definition sz_xConvertSelectionReq : Z := 24.

Definition DixCreateAccess : Z := 8.
Definition DixGetAttrAccess : Z := 16.
Definition DixSetAttrAccess : Z := 32.

Section Requests.
(** The answers of the security modules about resources and about selections.  The second
    hook gets the address of a pointer to a selection, from which it can follow the list, and
    may leave it pointing to a later one (Xext/xselinux_hooks.c: a selection can have
    several instances): it answers with a status and the number of selections to move on. *)
Context (XaceHook : Z -> XID -> RESTYPE -> Z -> pointer -> bool).
Context (XaceHookSelectionAccess : Z -> list Selection -> Z -> Status * nat).
(** The clock, and the processing of pending input (mi/mieq.c). *)
Context (GetTimeInMillis : Z) (InputCheckPending : bool) (ProcessInputEvents : SelectionServer -> SelectionServer).

Definition UpdateCurrentTime (s : SelectionServer) : SelectionServer :=
  let systime := mkTime (if GetTimeInMillis <? milliseconds (currentTime s) then u32 (months (currentTime s) + 1)
                         else months (currentTime s)) GetTimeInMillis in
  let s := if InputCheckPending then ProcessInputEvents s else s in
  match CompareTimeStamps systime (currentTime s) with LATER => set_time s systime | _ => s end.

Definition dixLookupSelection (s : SelectionServer) (c : Requestor) (name mode : Z) : Status * option nat * Requestor :=
  let c := set_error c name in
  match find_selection (CurrentSelections s) name with
  | None => (BadMatch, None, c)
  | Some i =>
      let '(rc, k) := XaceHookSelectionAccess (rq_index c) (drop i (CurrentSelections s)) mode in
      (rc, Some (i + k)%nat, c)
  end.

(** [*pSel]. *)
Definition deref (l : list Selection) (pSel : option nat) : result Selection :=
  of_option Dangling (i ← pSel; l !! i).

Definition lookup_window (s : SelectionServer) (c : Requestor) (id : XID) (mode : Z)
    : result (Status * pointer * SelectionServer * Requestor) :=
  '(rc, p, v, c) ← dixLookupWindow XaceHook (sv s) c id mode;
  Ok (rc, p, set_sv s v, c).

Abbreviation outcome := (result (Status * SelectionServer * Requestor)).

(** The last part of [ProcSetSelectionOwner], where [pSel] points to [sel]. *)
Definition take_ownership (s : SelectionServer) (c : Requestor) (stuff : xSetSelectionOwnerReq) (w : pointer)
    (time : TimeStamp) (pSel : option nat) (sel : Selection) : outcome :=
  let new := mkSel (selection sel) time (so_window stuff) w (if w =? 0 then None else Some (rq_index c)) in
  let s := set_selections s (from_option (fun i => <[i := new]> (CurrentSelections s)) (CurrentSelections s) pSel) in
  Ok (noClientException c, emit_effects s [CallSelectionCallback new (Some (rq_index c)) SelectionSetOwner], c).

(** [ProcSetSelectionOwner] once the window is known.  The hook about a new selection gets it
    alone: its [next] is not set yet. *)
Definition claim (s : SelectionServer) (c : Requestor) (stuff : xSetSelectionOwnerReq) (w : pointer) (time : TimeStamp)
    : outcome :=
  if negb (ValidAtom (atoms (sv s)) (so_selection stuff))
  then Ok (BadAtom, s, set_error c (so_selection stuff)) else
  let '(rc, pSel, c) := dixLookupSelection s c (so_selection stuff) DixSetAttrAccess in
  match rc with
  | Success =>
      sel ← deref (CurrentSelections s) pSel;
      match CompareTimeStamps time (lastTimeChanged sel) with
      | EARLIER => Ok (Success, s, c)
      | _ =>
          let s :=
            if negb (bool_decide (client sel = None)) && ((w =? 0) || negb (bool_decide (client sel = Some (rq_index c))))
            then (TryClientEvents s (client sel) (SelectionClear (milliseconds time) (window sel) (selection sel))).2
            else s in
          take_ownership s c stuff w time pSel sel
      end
  | BadMatch =>
      let '(ok, o) := alloc (smem (sv s)) in
      let s := set_sv s (set_smem (sv s) o) in
      if negb ok then Ok (BadAlloc, s, c) else
      let blank := mkSel (so_selection stuff) (mkTime 0 0) 0 0 None in
      match XaceHookSelectionAccess (rq_index c) [blank] (Z.lor DixCreateAccess DixSetAttrAccess) with
      | (Success, k) =>
          sel ← deref [blank] (Some k);
          take_ownership (set_selections s (sel :: CurrentSelections s)) c stuff w time (Some 0%nat) sel
      | (rc, _) => Ok (rc, s, c)
      end
  | _ => Ok (rc, s, c)
  end.

Definition ProcSetSelectionOwner (s : SelectionServer) (c : Requestor) (stuff : xSetSelectionOwnerReq) : outcome :=
  if negb (REQUEST_SIZE_MATCH sz_xSetSelectionOwnerReq (req_len c)) then Ok (BadLength, s, c) else
  stuff ← struct_at sz_xSetSelectionOwnerReq (req_len c) stuff;
  let s := UpdateCurrentTime s in
  let time := ClientTimeToServerTime (currentTime s) (so_time stuff) in
  if bool_decide (CompareTimeStamps time (currentTime s) = LATER) then Ok (Success, s, c) else
  '(rc, w, s, c) ← (if so_window stuff =? 0 then Ok (Success, 0, s, c)
                    else lookup_window s c (so_window stuff) DixSetAttrAccess);
  match rc with
  | Success => claim s c stuff w time
  | _ => Ok (rc, s, c)
  end.

Definition ProcGetSelectionOwner (s : SelectionServer) (c : Requestor) (id : Z) : outcome :=
  if negb (REQUEST_SIZE_MATCH sz_xResourceReq (req_len c)) then Ok (BadLength, s, c) else
  id ← struct_at sz_xResourceReq (req_len c) id;
  if negb (ValidAtom (atoms (sv s)) id) then Ok (BadAtom, s, set_error c id) else
  let '(rc, pSel, c) := dixLookupSelection s c id DixGetAttrAccess in
  match rc with
  | Success =>
      sel ← deref (CurrentSelections s) pSel;
      Ok (noClientException c, emit_effects s [GetSelectionOwnerReply (window sel)], c)
  | BadMatch => Ok (noClientException c, emit_effects s [GetSelectionOwnerReply 0], c)
  | _ => Ok (rc, s, c)
  end.

Definition ProcConvertSelection (s : SelectionServer) (c : Requestor) (stuff : xConvertSelectionReq) : outcome :=
  if negb (REQUEST_SIZE_MATCH sz_xConvertSelectionReq (req_len c)) then Ok (BadLength, s, c) else
  stuff ← struct_at sz_xConvertSelectionReq (req_len c) stuff;
  '(rc, _, s, c) ← lookup_window s c (cs_requestor stuff) DixSetAttrAccess;
  match rc with
  | Success =>
      let valid := ValidAtom (atoms (sv s)) in
      if negb (valid (cs_selection stuff) && valid (cs_target stuff) && ((cs_property stuff =? 0) || valid (cs_property stuff)))
      then Ok (BadAtom, s, set_error c (cs_property stuff)) else
      let '(rc, pSel, c) := dixLookupSelection s c (cs_selection stuff) DixReadAccess in
      match rc with
      | Success | BadMatch =>
          '(delivered, s) ←
            (match rc with
             | Success =>
                 sel ← deref (CurrentSelections s) pSel;
                 if window sel =? 0 then Ok (false, s) else
                 Ok (TryClientEvents s (client sel)
                   (SelectionRequest (window sel) (cs_time stuff) (cs_requestor stuff) (cs_selection stuff)
                      (cs_target stuff) (cs_property stuff)))
             | _ => Ok (false, s)
             end);
          if delivered : bool then Ok (noClientException c, s, c) else
          Ok (noClientException c,
              (TryClientEvents s (Some (rq_index c))
                 (SelectionNotify (cs_time stuff) (cs_requestor stuff) (cs_selection stuff) (cs_target stuff) 0)).2, c)
      | _ => Ok (rc, s, c)
      end
  | _ => Ok (rc, s, c)
  end.

End Requests.
