(* ===== verification/SelectionProofs.v ===== *)
(** * SelectionProofs: ownership of selections (dix/selection.c)

    The invariant of the list of selections, the requests against the ownership they
    establish, and the cleanup when windows and clients go away. *)

From S2P Require Import Prelude Atom ResourceDB ResourceProofs ResourceInit.
From S2P Require Import Window WindowProofs Property PropertyProofs PropertyRead PropertySafety Timestamp Selection.

(** ** The invariant *)

(** Owned with window and client, or not owned at all. *)
Definition selection_ok (sel : Selection) : Prop :=
  (client sel = None ∧ window sel = 0 ∧ pWin sel = 0) ∨ (is_Some (client sel) ∧ window sel <> 0 ∧ pWin sel <> 0).

(** A name may appear several times: the security modules tell its instances apart. *)
Abbreviation selections_ok := (Forall selection_ok).

(** Without modules that do so, every name appears once. *)
Definition single (l : list Selection) : Prop := NoDup (map selection l).

Lemma find_selection_Some l name i :
  find_selection l name = Some i ->
  ∃ sel, l !! i = Some sel ∧ selection sel = name ∧ name ∉ map selection (take i l).
Proof.
  unfold find_selection. intros H. apply fmap_Some in H as ([j sel] & H & ->).
  apply list_find_Some in H as (Hl & Hn & Hbefore). exists sel. split; [done|]. split; [done|].
  intros Hin. apply list_elem_of_fmap in Hin as (sel' & -> & Hin).
  apply list_elem_of_lookup in Hin as [k Hk]. apply lookup_take_Some in Hk as [Hk Hlt]. by apply (Hbefore k sel').
Qed.

Lemma find_selection_None l name : find_selection l name = None -> name ∉ map selection l.
Proof.
  unfold find_selection. rewrite fmap_None, list_find_None, Forall_forall. intros H Hin.
  apply list_elem_of_fmap in Hin as (sel & -> & Hin). by apply (H sel).
Qed.

Lemma insert_names l i sel new :
  l !! i = Some sel -> selection new = selection sel -> map selection (<[i := new]> l) = map selection l.
Proof. intros Hl Hn. rewrite list_fmap_insert, Hn, list_insert_id; [done|]. by rewrite list_lookup_fmap, Hl. Qed.

(** ** Windows and clients that go away *)

Lemma delete_matching_ok test kind l :
  (delete_matching test kind l).1 = map (fun sel => if test sel then disown sel else sel) l ∧
  (delete_matching test kind l).2 = map (fun sel => SelectionCallback sel None kind) (List.filter test l).
Proof.
  induction l as [|sel l [IH1 IH2]]; simpl; [done|]. destruct (delete_matching test kind l) as [l' effs]. simpl in *.
  subst. by destruct (test sel).
Qed.

(** What becomes of one selection: without owner, but with its name and the time of its last
    change, if it was lost; the same otherwise. *)
Definition left_as (lost : Prop) (sel sel' : Selection) : Prop :=
  selection sel' = selection sel ∧ lastTimeChanged sel' = lastTimeChanged sel ∧
  (lost -> window sel' = 0 ∧ pWin sel' = 0 ∧ client sel' = None) ∧ (¬ lost -> sel' = sel).

(** The list after the selections with [lost] have lost their owner: position by position
    the same selections, and one callback for each that was lost, in the order of the list,
    about the selection as it was. *)
Record owners_lost (lost : Selection -> Prop) `{!∀ sel, Decision (lost sel)} (kind : SelectionCallbackKind)
    (s s' : SelectionServer) : Prop := {
  ol_ok : selections_ok (CurrentSelections s');
  ol_list : Forall2 (fun sel sel' => left_as (lost sel) sel sel') (CurrentSelections s) (CurrentSelections s');
  ol_effects : effects s' = effects s ++ map (fun sel => SelectionCallback sel None kind) (filter lost (CurrentSelections s));
  ol_gone : Forall (fun sel => ¬ lost sel) (CurrentSelections s');
  ol_rest : sv s' = sv s ∧ currentTime s' = currentTime s ∧ gone s' = gone s
}.

Lemma filter_bool (lost : Selection -> Prop) `{!∀ sel, Decision (lost sel)} (test : Selection -> bool) l :
  (∀ sel, test sel = true ↔ lost sel) -> List.filter test l = filter lost l.
Proof.
  intros Ht. induction l as [|sel l IH]; [done|]. rewrite filter_cons. cbn [List.filter]. rewrite IH.
  specialize (Ht sel). destruct (decide (lost sel)) as [Hl|Hl], (test sel); try done; exfalso; [by apply Ht in Hl|by apply Hl, Ht].
Qed.

Lemma owners_lost_intro (lost : Selection -> Prop) `{!∀ sel, Decision (lost sel)} (test : Selection -> bool) kind s :
  (∀ sel, test sel = true ↔ lost sel) -> (∀ sel, ¬ lost (disown sel)) -> selections_ok (CurrentSelections s) ->
  let '(l, effs) := delete_matching test kind (CurrentSelections s) in
  owners_lost lost kind s (emit_effects (set_selections s l) effs).
Proof.
  intros Ht Hd Hok. destruct (delete_matching_ok test kind (CurrentSelections s)) as [E1 E2].
  destruct (delete_matching test kind (CurrentSelections s)) as [l effs]. simpl in E1, E2. subst l effs.
  split; simpl.
  - apply Forall_map. eapply Forall_impl; [exact Hok|]. intros sel Hsel. simpl. destruct (test sel); [by left|done].
  - apply Forall2_fmap_r, Forall_Forall2_diag, Forall_forall. intros sel _. simpl. specialize (Ht sel).
    unfold left_as. destruct (test sel); simpl; split_and!; try done; intros Hl; exfalso;
      first [by apply Hl, Ht | by apply Ht in Hl].
  - by rewrite (filter_bool lost).
  - apply Forall_map, Forall_forall. intros sel _. simpl. specialize (Ht sel). destruct (test sel); [apply Hd|].
    intros Hl. by apply Ht in Hl.
  - done.
Qed.

(** C30: when a window is destroyed or a client goes away, exactly its selections lose their
    owner: each keeps its place in the list, its name and the time of its last change, so
    that old requests are still refused, and has neither window nor client any more; every
    other selection and the rest of the server are untouched; the callbacks are told about each of
    them once, with its last owner, and no selection refers to the window or client any more. *)
Theorem selections_disowned s w c :
  selections_ok (CurrentSelections s) -> w <> 0 ->
  owners_lost (fun sel => pWin sel = w) SelectionWindowDestroy s (DeleteWindowFromAnySelections s w) ∧
  owners_lost (fun sel => client sel = Some c) SelectionClientClose s (DeleteClientFromAnySelections s c).
Proof.
  intros Hok Hw. unfold DeleteWindowFromAnySelections, DeleteClientFromAnySelections. split.
  - pose proof (owners_lost_intro (fun sel => pWin sel = w) (fun sel => pWin sel =? w) SelectionWindowDestroy s) as H.
    destruct (delete_matching _ _ _). apply H; [intros sel; apply Z.eqb_eq|by intros sel E; destruct Hw|done].
  - pose proof (owners_lost_intro (fun sel => client sel = Some c) (fun sel => bool_decide (client sel = Some c))
                  SelectionClientClose s) as H.
    destruct (delete_matching _ _ _). apply H; [intros sel; apply bool_decide_eq_true|done|done].
Qed.

Lemma selections_disowned_witness :
  let sel := mkSel 1 (mkTime 0 5) 100 900 (Some 1) in
  let s := mkSS demo_server [sel; mkSel 2 (mkTime 0 6) 0 0 None] (mkTime 0 9) [] [] in
  owners_lost (fun sel => pWin sel = 900) SelectionWindowDestroy s (DeleteWindowFromAnySelections s 900) ∧
  owners_lost (fun sel => client sel = Some 1) SelectionClientClose s (DeleteClientFromAnySelections s 1).
Proof.
  intros sel s. apply (selections_disowned s 900 1); [|done].
  constructor; [right; by split_and!; [eexists|..]|]. constructor; [by left|constructor].
Defined.

(** ** Requests *)

Lemma emit_nil s : emit_effects s [] = s.
Proof. unfold emit_effects. rewrite app_nil_r. by destruct s. Qed.

(** An event reaches every live client but the server's own. *)
Lemma TryClientEvents_spec s c e :
  TryClientEvents s (Some c) e =
    if decide (c <> 0 ∧ (c ∉ gone s)) then (true, emit_effects s [WriteEventsToClient c e]) else (false, s).
Proof.
  unfold TryClientEvents. destruct (Z.eqb_spec c 0) as [->|Hc]; cbn [orb]; [by rewrite decide_False by tauto|].
  destruct (existsb (fun g => g =? c) (gone s)) eqn:E.
  - apply existsb_exists in E as (x & Hx & ->%Z.eqb_eq). rewrite decide_False; [done|].
    intros [_ H]. apply H. by apply list_elem_of_In.
  - rewrite decide_True; [done|]. split; [done|]. intros Hin. apply not_true_iff_false in E. apply E, existsb_exists.
    exists c. split; [by apply list_elem_of_In|apply Z.eqb_refl].
Qed.

(** ** What the security modules promise *)

(** When they let a client have a selection, the pointer they leave is in the list, at a
    selection with the same name.  They may refuse, with any error: [BadMatch] says that the
    client has no instance of the selection yet. *)
Class SelectionModules (hook : Z -> list Selection -> Z -> Status * nat) : Prop :=
  hook_stays : ∀ c l first mode k, head l = Some first -> hook c l mode = (Success, k) ->
    ∃ sel, l !! k = Some sel ∧ selection sel = selection first.

Section Requests.
Context (XaceHook : Z -> XID -> RESTYPE -> Z -> pointer -> bool).
Context (XaceHookSelectionAccess : Z -> list Selection -> Z -> Status * nat) `{!SelectionModules XaceHookSelectionAccess}.
Context (GetTimeInMillis : Z) (InputCheckPending : bool) (ProcessInputEvents : SelectionServer -> SelectionServer).

Lemma dixLookupWindow_found s c id mode rc p s' c' :
  dixLookupWindow XaceHook s c id mode = Ok (rc, p, s', c') ->
  noClientException c' = noClientException c ∧ (rc = Success -> p <> 0 ∧ id <> 0).
Proof.
  unfold dixLookupWindow, dixLookupDrawable. destruct (Z.eqb_spec id 0) as [|Hid]; [by intros [= <- <- <- <-]|].
  destruct (mjoin _) as [cl|]; cbn [of_option mbind result_bind]; [|done].
  destruct (if id =? lastDrawableID cl then _ else _) as [v|]; cbn [mbind result_bind]; [|done].
  destruct (Z.eqb_spec v 0); [by intros [= <- <- <- <-]|].
  destruct (drawables s !! v); cbn [of_option mbind result_bind]; [|done].
  destruct (_ =? 0); cbn [mbind result_bind]; by intros [= <- <- <- <-].
Qed.

Lemma lookup_window_ok s c id mode :
  server_ok (sv s) c ->
  ∃ rc p v c', lookup_window XaceHook s c id mode = Ok (rc, p, set_sv s v, c') ∧ server_ok v c' ∧
    atoms v = atoms (sv s) ∧ smem v = smem (sv s) ∧
    rq_index c' = rq_index c ∧ noClientException c' = noClientException c ∧ (rc = Success -> p <> 0 ∧ id <> 0).
Proof.
  intros H. unfold lookup_window.
  destruct (dixLookupWindow_ok XaceHook (sv s) c id mode H) as (rc & p & v & c' & E & Hv & _ & Ha & Hm & Hi & _).
  destruct (dixLookupWindow_found _ _ _ _ _ _ _ _ E) as [Hn Hp].
  rewrite E. cbn [mbind result_bind]. by do 4 eexists.
Qed.

(** ** Looking a selection up *)

(** The answer about a name: there is no selection with it; or the modules decide about the first
    one, and may lead on to a later one. *)
Inductive looked_up (l : list Selection) (c name mode : Z) : Status -> option nat -> Prop :=
  | looked_absent : (name ∉ map selection l) -> looked_up l c name mode BadMatch None
  | looked_first i first rc k :
      l !! i = Some first -> selection first = name -> (name ∉ map selection (take i l)) ->
      XaceHookSelectionAccess c (drop i l) mode = (rc, k) -> looked_up l c name mode rc (Some (i + k)%nat).

Lemma dixLookupSelection_ok s c name mode rc pSel c' :
  dixLookupSelection XaceHookSelectionAccess s c name mode = (rc, pSel, c') ->
  c' = set_error c name ∧ looked_up (CurrentSelections s) (rq_index c) name mode rc pSel.
Proof.
  unfold dixLookupSelection. destruct (find_selection _ _) as [i|] eqn:E.
  - destruct (XaceHookSelectionAccess _ _ _) as [rc' k] eqn:Eh. intros [= <- <- <-]. split; [done|].
    apply find_selection_Some in E as (sel & Hl & Hn & Hb). by eapply looked_first.
  - intros [= <- <- <-]. split; [done|]. constructor. by apply find_selection_None.
Qed.

Lemma looked_up_Success l c name mode pSel :
  looked_up l c name mode Success pSel -> ∃ i sel, pSel = Some i ∧ l !! i = Some sel ∧ selection sel = name.
Proof.
  inversion 1 as [|i first rc k Hl Hn Hb Hh]; subst.
  destruct (hook_stays (rq_index (mkRequestor c 0 Success 0)) (drop i l) first mode k) as (sel & Hs & En); [|done|].
  - by rewrite head_lookup, lookup_drop, Nat.add_0_r.
  - rewrite lookup_drop in Hs. by exists (i + k)%nat, sel.
Qed.

(** ** SetSelectionOwner *)

Section Outcome.
(** The state when the request starts, after pending input was processed. *)
Context (s1 : SelectionServer) (c : Requestor) (stuff : xSetSelectionOwnerReq).

(** The time of the request. *)
Definition request_time : TimeStamp := ClientTimeToServerTime (currentTime s1) (so_time stuff).

Definition selection_seen : Status -> option nat -> Prop :=
  looked_up (CurrentSelections s1) (rq_index c) (so_selection stuff) DixSetAttrAccess.

(** A selection of that name before anything is known about it. *)
Definition blank_selection : Selection := mkSel (so_selection stuff) (mkTime 0 0) 0 0 None.

(** The window of the request, as an address; 0 to give the selection up. *)
Definition window_is (w : pointer) : Prop :=
  (so_window stuff = 0 ∧ w = 0) ∨
  (so_window stuff <> 0 ∧ w <> 0 ∧
   ∃ v c', lookup_window XaceHook s1 c (so_window stuff) DixSetAttrAccess = Ok (Success, w, set_sv s1 v, c')).

(** The selection as the request leaves it. *)
Definition taken_over (w : pointer) : Selection :=
  mkSel (so_selection stuff) request_time (so_window stuff) w (if w =? 0 then None else Some (rq_index c)).

(** The event for the previous owner: if the server can write to it, and it is another client
    or is not replaced. *)
Definition clear_event (sel : Selection) : list SelectionEffect :=
  match client sel with
  | Some old =>
      if decide ((so_window stuff = 0 ∨ old <> rq_index c) ∧ old <> 0 ∧ (old ∉ gone s1))
      then [WriteEventsToClient old (SelectionClear (milliseconds request_time) (window sel) (selection sel))] else []
  | None => []
  end.

(** Why a request changes nothing, with its answer. *)
Inductive refused : Status -> Prop :=
  | refused_future : CompareTimeStamps request_time (currentTime s1) = LATER -> refused Success
  | refused_past i sel : selection_seen Success (Some i) -> CurrentSelections s1 !! i = Some sel ->
      CompareTimeStamps request_time (lastTimeChanged sel) = EARLIER -> refused Success
  | refused_window rc w s c' : so_window stuff <> 0 -> rc <> Success ->
      lookup_window XaceHook s1 c (so_window stuff) DixSetAttrAccess = Ok (rc, w, s, c') -> refused rc
  | refused_atom : ValidAtom (atoms (sv s1)) (so_selection stuff) = false -> refused BadAtom
  | refused_modules rc pSel : selection_seen rc pSel -> rc <> Success -> rc <> BadMatch -> refused rc
  | refused_memory pSel : selection_seen BadMatch pSel -> (alloc (smem (sv s1))).1 = false -> refused BadAlloc
  | refused_creation rc pSel k : selection_seen BadMatch pSel -> rc <> Success ->
      XaceHookSelectionAccess (rq_index c) [blank_selection] (Z.lor DixCreateAccess DixSetAttrAccess) = (rc, k) ->
      refused rc.

(** How the list and what was sent differ afterwards. *)
Inductive set_outcome (s' : SelectionServer) (rc : Status) : Prop :=
  | outcome_taken i sel w :
      CompareTimeStamps request_time (currentTime s1) <> LATER ->
      ValidAtom (atoms (sv s1)) (so_selection stuff) = true ->
      selection_seen Success (Some i) -> CurrentSelections s1 !! i = Some sel -> selection sel = so_selection stuff ->
      CompareTimeStamps request_time (lastTimeChanged sel) <> EARLIER ->
      window_is w -> rc = noClientException c ->
      CurrentSelections s' = <[i := taken_over w]> (CurrentSelections s1) ->
      effects s' = effects s1 ++ clear_event sel ++ [SelectionCallback (taken_over w) (Some (rq_index c)) SelectionSetOwner] ->
      set_outcome s' rc
  | outcome_new w pSel k :
      CompareTimeStamps request_time (currentTime s1) <> LATER ->
      ValidAtom (atoms (sv s1)) (so_selection stuff) = true ->
      selection_seen BadMatch pSel ->
      XaceHookSelectionAccess (rq_index c) [blank_selection] (Z.lor DixCreateAccess DixSetAttrAccess) = (Success, k) ->
      window_is w -> rc = noClientException c ->
      CurrentSelections s' = taken_over w :: CurrentSelections s1 ->
      effects s' = effects s1 ++ [SelectionCallback (taken_over w) (Some (rq_index c)) SelectionSetOwner] ->
      set_outcome s' rc
  | outcome_refused :
      refused rc -> CurrentSelections s' = CurrentSelections s1 -> effects s' = effects s1 -> set_outcome s' rc.

Lemma taken_over_ok w : window_is w -> selection_ok (taken_over w).
Proof.
  intros [[E ->]|(E & Hw & _)]; unfold selection_ok, taken_over; simpl; [by left|]. right.
  destruct (Z.eqb_spec w 0); [done|]. split_and!; [by eexists|done|done].
Qed.

(** What the outcome means for the invariants. *)
Lemma set_outcome_ok s' rc :
  set_outcome s' rc -> selections_ok (CurrentSelections s1) -> selections_ok (CurrentSelections s').
Proof.
  intros H Hok. destruct H as [i sel w ? ? ? ? ? ? Hw ? -> _|w pSel k ? ? ? ? Hw ? -> _|? -> _]; [| |done].
  - apply Forall_insert; [done|by apply taken_over_ok].
  - constructor; [by apply taken_over_ok|done].
Qed.

Lemma set_outcome_single s' rc :
  set_outcome s' rc -> (∀ i, ¬ selection_seen BadMatch (Some i)) ->
  single (CurrentSelections s1) -> single (CurrentSelections s').
Proof.
  intros H Hno Hn. destruct H as [i sel w ? ? ? Hl Hs ? ? ? -> _|w pSel k ? ? Hseen ? ? ? -> _|? -> _]; [| |done]; unfold single.
  - by rewrite (insert_names _ _ sel).
  - destruct pSel as [i|]; [by apply Hno in Hseen|]. inversion Hseen; subst. by constructor.
Qed.

(** The event for the previous owner, as the code writes it. *)
Lemma clear_ok s w sel :
  gone s = gone s1 -> window_is w ->
  (if negb (bool_decide (client sel = None)) && ((w =? 0) || negb (bool_decide (client sel = Some (rq_index c))))
   then (TryClientEvents s (client sel) (SelectionClear (milliseconds request_time) (window sel) (selection sel))).2
   else s) = emit_effects s (clear_event sel).
Proof.
  intros Hg Hw. unfold clear_event. destruct sel as [name last win p [old|]]; cbn [client window selection].
  2: { by rewrite emit_nil. }
  rewrite bool_decide_false by done. rewrite TryClientEvents_spec, Hg. cbn [negb andb].
  assert (Hc : ((w =? 0) || negb (bool_decide (Some old = Some (rq_index c)))) =
               bool_decide (so_window stuff = 0 ∨ old <> rq_index c)).
  { apply eq_bool_prop_intro. rewrite !Is_true_true, bool_decide_eq_true, orb_true_iff, negb_true_iff, bool_decide_eq_false.
    destruct Hw as [[E ->]|(E & Hw & _)]; [by split; left|].
    rewrite (proj2 (Z.eqb_neq w 0) Hw). split; (intros [?|?]; [done|right; congruence]). }
  rewrite Hc. destruct (bool_decide_reflect (so_window stuff = 0 ∨ old <> rq_index c)) as [Ho|Ho];
    [destruct (decide (old <> 0 ∧ (old ∉ gone s1)))|]; cbn [snd].
  - by rewrite decide_True by tauto.
  - by rewrite decide_False, emit_nil by tauto.
  - by rewrite decide_False, emit_nil by tauto.
Qed.

(** The outcome of every branch of the request. *)
Definition settled (r : result (Status * SelectionServer * Requestor)) : Prop :=
  ∃ rc s' c', r = Ok (rc, s', c') ∧ server_ok (sv s') c' ∧ set_outcome s' rc.

Lemma settled_refused rc s c' :
  server_ok (sv s) c' -> CurrentSelections s = CurrentSelections s1 -> effects s = effects s1 -> refused rc ->
  settled (Ok (rc, s, c')).
Proof. intros Hs El Ee Hr. do 3 eexists. split; [done|]. split; [done|]. by apply outcome_refused. Qed.

(** The state differs from [s1] in the server's part only. *)
Record beside (s : SelectionServer) : Prop := {
  be_list : CurrentSelections s = CurrentSelections s1;
  be_gone : gone s = gone s1;
  be_effects : effects s = effects s1
}.

Lemma claim_settled s c2 w :
  beside s -> server_ok (sv s) c2 -> atoms (sv s) = atoms (sv s1) -> smem (sv s) = smem (sv s1) ->
  rq_index c2 = rq_index c -> noClientException c2 = noClientException c -> window_is w ->
  CompareTimeStamps request_time (currentTime s1) <> LATER ->
  settled (claim XaceHookSelectionAccess s c2 stuff w request_time).
Proof.
  intros [El Eg Ee] Hs Ea Em Ei En Hw Ht. unfold claim. rewrite Ea.
  assert (Herr : ∀ x, server_ok (sv s) (set_error c2 x)) by (intros x; by apply (server_ok_same (sv s) c2)).
  destruct (ValidAtom _ _) eqn:Hatom; cbn [negb]; [|by apply settled_refused; [..|apply refused_atom]].
  destruct (dixLookupSelection _ _ _ _ _) as [[rc pSel] c3] eqn:Elook.
  apply dixLookupSelection_ok in Elook as [-> Hseen]. rewrite El, Ei in Hseen.
  destruct rc; try (by apply settled_refused; [..|by eapply refused_modules]).
  - destruct (looked_up_Success _ _ _ _ _ Hseen) as (i & sel & -> & Hl & Hn).
    rewrite El. unfold deref. cbn [mbind option_bind]. rewrite Hl. cbn [of_option mbind result_bind set_error rq_index].
    rewrite Ei, (clear_ok s w sel) by done.
    assert (Htake : CompareTimeStamps request_time (lastTimeChanged sel) <> EARLIER ->
      settled (take_ownership (emit_effects s (clear_event sel)) (set_error c2 (so_selection stuff)) stuff w request_time (Some i) sel)).
    { intros Hle. do 3 eexists. split; [done|]. split; [by apply Herr|].
      apply (outcome_taken _ _ i sel w); try done; simpl; rewrite ?El, ?Ee, ?Ei, Hn; [done|by rewrite <- app_assoc]. }
    destruct (CompareTimeStamps request_time (lastTimeChanged sel)) eqn:Ec; try by apply Htake.
    apply settled_refused; try done. by eapply refused_past.
  - rewrite Em. destruct (alloc (smem (sv s1))) as [ok o] eqn:Eo. set (s2 := set_sv s _).
    assert (H2 : server_ok (sv s2) (set_error c2 (so_selection stuff))) by (by apply (server_ok_same (sv s) c2)).
    destruct ok; cbn [negb]; [|by apply settled_refused; try done; eapply refused_memory; [done|by rewrite Eo]].
    cbn [set_error rq_index]. rewrite Ei.
    destruct (XaceHookSelectionAccess _ _ _) as [rc k] eqn:Eh.
    destruct rc; try (by apply settled_refused; try done; eapply refused_creation).
    destruct (hook_stays (rq_index c) [blank_selection] blank_selection _ k eq_refl Eh) as (sel & Hsel & Hname).
    unfold deref. cbn [mbind option_bind]. fold blank_selection. rewrite Hsel. cbn [of_option mbind result_bind].
    do 3 eexists. split; [done|]. split; [done|].
    apply (outcome_new _ _ w pSel k); try done; simpl; rewrite ?El, ?Ee, ?Ei, Hname; done.
Qed.

End Outcome.

Lemma ProcSetSelectionOwner_settled s c stuff :
  let s1 := UpdateCurrentTime GetTimeInMillis InputCheckPending ProcessInputEvents s in
  server_ok (sv s1) c -> req_len c = 4 ->
  settled s1 c stuff (ProcSetSelectionOwner XaceHook XaceHookSelectionAccess GetTimeInMillis InputCheckPending
                        ProcessInputEvents s c stuff).
Proof.
  intros s1 Hsv Hlen. unfold ProcSetSelectionOwner. rewrite Hlen. cbn [REQUEST_SIZE_MATCH negb].
  rewrite struct_at_ok by done. cbn [mbind result_bind]. fold s1. fold (request_time s1 stuff).
  case_bool_decide as Hle; [by apply settled_refused; try done; apply refused_future|].
  destruct (Z.eqb_spec (so_window stuff) 0) as [E|E]; cbn [mbind result_bind].
  { apply (claim_settled s1 c stuff s1 c 0); try done. by left. }
  destruct (lookup_window_ok s1 c (so_window stuff) DixSetAttrAccess Hsv)
    as (rc & w & v & c2 & Elook & Hv & Ha & Hm & Ei & En & Hw).
  rewrite Elook. cbn [mbind result_bind].
  destruct rc; try (by apply settled_refused; try done; eapply refused_window).
  apply (claim_settled s1 c stuff (set_sv s1 v) c2 w); try done. destruct (Hw eq_refl). right.
  split_and!; [done|done|by exists v, c2].
Qed.

(** C29: what [SetSelectionOwner] does, for a request of the right length, in the state in
    which pending input has been processed.  It takes effect exactly when the request comes neither
    from the future nor from before the last change of the selection, the atom is in use, the
    window is found or None, and the security modules agree; they are asked about the first
    selection of the name and may lead to another of its instances.  Then that selection belongs
    to the window, or to nobody, from the time of the request on, every other selection is
    untouched, and the previous owner, if it is another client or is not replaced, gets one
    [SelectionClear] before the callbacks run.  When there is no selection of the name, or the
    modules answer [BadMatch] because the client has no instance of it, a new one is put at the
    head of the list.  Otherwise no selection changes and nobody is told, and the answer is
    [Success] for an untimely request and the error of the failing check, or [BadAlloc], for
    the others.  An owned selection has client and window, and as long as the modules
    never answer [BadMatch] about an existing selection no name appears twice. *)
Theorem ProcSetSelectionOwner_correct s c stuff :
  let s1 := UpdateCurrentTime GetTimeInMillis InputCheckPending ProcessInputEvents s in
  server_ok (sv s1) c -> selections_ok (CurrentSelections s1) -> req_len c = 4 ->
  ∃ rc s' c', ProcSetSelectionOwner XaceHook XaceHookSelectionAccess GetTimeInMillis InputCheckPending
                ProcessInputEvents s c stuff = Ok (rc, s', c') ∧
    server_ok (sv s') c' ∧ set_outcome s1 c stuff s' rc ∧ selections_ok (CurrentSelections s') ∧
    ((∀ i, ¬ selection_seen s1 c stuff BadMatch (Some i)) -> single (CurrentSelections s1) -> single (CurrentSelections s')).
Proof.
  intros s1 Hsv Hok Hlen. destruct (ProcSetSelectionOwner_settled s c stuff Hsv Hlen) as (rc & s' & c' & E & Hs & Hout).
  exists rc, s', c'. split; [done|]. split; [done|]. split; [done|]. split; [by eapply set_outcome_ok|].
  intros Hno Hn. by eapply set_outcome_single.
Qed.

(** ** GetSelectionOwner and ConvertSelection *)

(** The selection that a client gets to see. *)
Definition visible_selection (l : list Selection) (rc : Status) (pSel : option nat) : option Selection :=
  match rc with Success => i ← pSel; l !! i | _ => None end.

Lemma ProcGetSelectionOwner_ok s c id :
  req_len c = 2 ->
  ∃ rc s' c', ProcGetSelectionOwner XaceHookSelectionAccess s c id = Ok (rc, s', c') ∧
    CurrentSelections s' = CurrentSelections s ∧
    ((rc = noClientException c ∧ ∃ st pSel, looked_up (CurrentSelections s) (rq_index c) id DixGetAttrAccess st pSel ∧
      effects s' = effects s ++
        [GetSelectionOwnerReply (from_option window 0 (visible_selection (CurrentSelections s) st pSel))]) ∨
     (rc <> Success ∧ effects s' = effects s)).
Proof.
  intros Hlen. unfold ProcGetSelectionOwner. rewrite Hlen. cbn [REQUEST_SIZE_MATCH negb].
  rewrite struct_at_ok by done. cbn [mbind result_bind].
  destruct (ValidAtom _ _); cbn [negb]; [|do 3 eexists; split; [done|]; split; [done|]; by right].
  destruct (dixLookupSelection _ _ _ _ _) as [[rc pSel] c2] eqn:E. apply dixLookupSelection_ok in E as [-> Hseen].
  destruct rc; try (do 3 eexists; split; [done|]; split; [done|]; by right).
  - destruct (looked_up_Success _ _ _ _ _ Hseen) as (i & sel & -> & Hl & _). unfold deref. cbn [mbind option_bind].
    rewrite Hl. cbn [of_option mbind result_bind]. do 3 eexists. split; [done|]. split; [done|]. left.
    split; [done|]. do 2 eexists. split; [done|]. simpl. by rewrite Hl.
  - do 3 eexists. split; [done|]. split; [done|]. left. split; [done|]. by do 2 eexists.
Qed.

(** The one event of a conversion: a request to the owner, or a refusal to the requestor. *)
Definition convert_event (s : SelectionServer) (c : Z) (stuff : xConvertSelectionReq) (seen : option Selection) : SelectionEffect :=
  let refusal := WriteEventsToClient c
    (SelectionNotify (cs_time stuff) (cs_requestor stuff) (cs_selection stuff) (cs_target stuff) 0) in
  match seen with
  | Some (mkSel _ _ owner _ (Some oc)) =>
      if decide (oc <> 0 ∧ (oc ∉ gone s)) then
        WriteEventsToClient oc (SelectionRequest owner (cs_time stuff) (cs_requestor stuff) (cs_selection stuff)
                                  (cs_target stuff) (cs_property stuff))
      else refusal
  | _ => refusal
  end.

(** [ConvertSelection], from a live client, changes no selection and ends in exactly one event
    unless it is an error: the request to the owner's client if the selection has a live owner, and
    otherwise the refusal, with property None, to the requestor. *)
Theorem ProcConvertSelection_correct s c stuff :
  server_ok (sv s) c -> selections_ok (CurrentSelections s) -> req_len c = 6 -> rq_index c <> 0 -> rq_index c ∉ gone s ->
  ∃ rc s' c', ProcConvertSelection XaceHook XaceHookSelectionAccess s c stuff = Ok (rc, s', c') ∧
    server_ok (sv s') c' ∧ CurrentSelections s' = CurrentSelections s ∧
    ((rc = noClientException c ∧ ∃ st pSel,
      looked_up (CurrentSelections s) (rq_index c) (cs_selection stuff) DixReadAccess st pSel ∧
      effects s' = effects s ++ [convert_event s (rq_index c) stuff (visible_selection (CurrentSelections s) st pSel)]) ∨
     (rc <> Success ∧ effects s' = effects s)).
Proof.
  intros Hsv Hok Hlen Hc Hgone. unfold ProcConvertSelection. rewrite Hlen. cbn [REQUEST_SIZE_MATCH negb].
  rewrite struct_at_ok by done. cbn [mbind result_bind].
  destruct (lookup_window_ok s c (cs_requestor stuff) DixSetAttrAccess Hsv) as (rc & w & v & c2 & -> & Hv & _ & _ & Ei & En & _).
  cbn [mbind result_bind]. set (s2 := set_sv s v).
  destruct rc; try (by do 3 eexists; split; [done|]; split_and!; [..|right]).
  assert (Hset : ∀ a, server_ok v (set_error c2 a)) by (intros; by apply (server_ok_same v c2)).
  destruct (negb (ValidAtom _ _ && _ && _)); [by do 3 eexists; split; [done|]; split_and!; [apply Hset|done|right]|].
  destruct (dixLookupSelection _ _ _ _ _) as [[st pSel] c3] eqn:E. apply dixLookupSelection_ok in E as [-> Hseen].
  change (CurrentSelections s2) with (CurrentSelections s) in *. rewrite Ei in Hseen.
  assert (Hnone : ∀ e : SelectionEvent, TryClientEvents s2 (Some (rq_index c)) e = (true, emit_effects s2 [WriteEventsToClient (rq_index c) e])).
  { intros e. rewrite TryClientEvents_spec, decide_True; done. }
  cbn [set_error rq_index noClientException]. rewrite Ei, En.
  assert (Hend : ∀ s3 ev, s3 = emit_effects s2 [ev] ->
    ev = convert_event s (rq_index c) stuff (visible_selection (CurrentSelections s) st pSel) ->
    ∃ rc s' c', Ok (noClientException c, s3, set_error c2 (cs_selection stuff)) = Ok (rc, s', c') ∧
      server_ok (sv s') c' ∧ CurrentSelections s' = CurrentSelections s ∧
      ((rc = noClientException c ∧ ∃ st pSel,
        looked_up (CurrentSelections s) (rq_index c) (cs_selection stuff) DixReadAccess st pSel ∧
        effects s' = effects s ++ [convert_event s (rq_index c) stuff (visible_selection (CurrentSelections s) st pSel)]) ∨
       (rc <> Success ∧ effects s' = effects s))).
  { intros s3 ev -> Hev. do 3 eexists. split; [done|]. split; [apply Hset|]. split; [done|]. left. split; [done|].
    exists st, pSel. split; [done|]. by rewrite <- Hev. }
  destruct st; try (by do 3 eexists; split; [done|]; split_and!; [apply Hset|done|right]).
  - destruct (looked_up_Success _ _ _ _ _ Hseen) as (i & sel & -> & Hl & _). unfold deref. cbn [mbind option_bind].
    assert (Hvis : visible_selection (CurrentSelections s) Success (Some i) = Some sel) by exact Hl.
    rewrite Hvis in Hend. rewrite Hl. cbn [of_option mbind result_bind].
    pose proof (Forall_lookup_1 _ _ _ _ Hok Hl) as Hsel. destruct sel as [name last win p oc]. simpl in Hsel.
    destruct Hsel as [(E1 & E2 & _)|([o E1] & Hwin & _)]; cbn [window client] in *; subst.
    + rewrite Z.eqb_refl. cbn [mbind result_bind]. rewrite Hnone. by apply (Hend _ _ eq_refl).
    + destruct (Z.eqb_spec win 0); [done|]. rewrite TryClientEvents_spec. change (gone s2) with (gone s).
      unfold convert_event in Hend. destruct (decide (o <> 0 ∧ (o ∉ gone s))); cbn [mbind result_bind]; rewrite ?Hnone; by apply (Hend _ _ eq_refl).
  - cbn [mbind result_bind]. rewrite Hnone. by apply (Hend _ _ eq_refl).
Qed.

End Requests.

(** ** A concrete selection *)

(** Client 2 owns selection 1, and client 1 asks for it. *)
Definition demo_selections : SelectionServer :=
  mkSS demo_server [mkSel 1 (mkTime 0 5) 100 900 (Some 2)] (mkTime 0 9) [] [].
Definition grant : Z -> list Selection -> Z -> Status * nat := fun _ _ _ => (Success, 0%nat).

#[export] Instance grant_modules : SelectionModules grant.
Proof. intros c l first mode k Hl [= <-]. exists first. split; [|done]. by rewrite <- head_lookup. Qed.

(** Modules that keep one instance of every selection per client: a client sees the first
    selection of the name that it owns, and has no instance if there is none. *)
Definition instances : Z -> list Selection -> Z -> Status * nat := fun c l mode =>
  match head l with
  | None => (BadAccess, 0%nat)
  | Some first =>
      if negb (Z.land mode DixCreateAccess =? 0) then (Success, 0%nat) else
      match list_find (fun sel => selection sel = selection first ∧ client sel = Some c) l with
      | Some (k, _) => (Success, k)
      | None => (BadMatch, 0%nat)
      end
  end.

#[export] Instance instances_modules : SelectionModules instances.
Proof.
  intros c l first mode k Hl. unfold instances. rewrite Hl. case_match.
  - intros [= <-]. exists first. split; [|done]. by rewrite <- head_lookup.
  - destruct (list_find _ l) as [[i sel]|] eqn:E; [|done]. intros [= <-].
    apply list_find_Some in E as (Hs & [Hn _] & _). by exists sel.
Qed.

Lemma demo_selections_ok : selections_ok (CurrentSelections demo_selections).
Proof. constructor; [|constructor]. right. by split_and!; [eexists|..]. Qed.

Lemma ProcSetSelectionOwner_correct_witness :
  let stuff := mkSSOReq (id1 5) 1 8 in let s1 := UpdateCurrentTime 20 false (fun s => s) demo_selections in
  ∃ rc s' c', ProcSetSelectionOwner allow_all instances 20 false (fun s => s) demo_selections (demo_client 4) stuff = Ok (rc, s', c') ∧
    server_ok (sv s') c' ∧ set_outcome allow_all instances s1 (demo_client 4) stuff s' rc ∧
    selections_ok (CurrentSelections s') ∧
    ((∀ i, ¬ selection_seen instances s1 (demo_client 4) stuff BadMatch (Some i)) ->
     single (CurrentSelections s1) -> single (CurrentSelections s')).
Proof.
  intros stuff s1. apply (ProcSetSelectionOwner_correct allow_all instances 20 false (fun s => s)).
  - apply demo_server_ok.
  - apply demo_selections_ok.
  - done.
Defined.

(** With modules that allow everything the window takes over and client 2 is told; with an
    instance per client, client 1 gets its own, and the name appears twice. *)
Example ProcSetSelectionOwner_evaluates :
  let run hook := ProcSetSelectionOwner allow_all hook 20 false (fun s => s) demo_selections (demo_client 4) (mkSSOReq (id1 5) 1 8) in
  let new := mkSel 1 (mkTime 0 8) (id1 5) 900 (Some 1) in
  match run grant, run instances with
  | Ok (rc, s, _), Ok (rc', s', _) =>
      rc = Success ∧ CurrentSelections s = [new] ∧
      effects s = [WriteEventsToClient 2 (SelectionClear 8 100 1); SelectionCallback new (Some 1) SelectionSetOwner] ∧
      rc' = Success ∧ CurrentSelections s' = new :: CurrentSelections demo_selections ∧
      effects s' = [SelectionCallback new (Some 1) SelectionSetOwner]
  | _, _ => False
  end.
Proof. by vm_compute. Qed.

(** Client 1 asks client 2 for the selection. *)
Example ProcConvertSelection_evaluates :
  let stuff := mkCSReq (id1 5) 1 31 0 0 in
  match ProcConvertSelection allow_all grant demo_selections (demo_client 6) stuff with
  | Ok (rc, s, _) => rc = Success ∧ effects s = [WriteEventsToClient 2 (SelectionRequest 100 0 (id1 5) 1 31 0)]
  | Err _ => False
  end.
Proof. by vm_compute. Qed.
