(* ===== verification/XorgList.v ===== *)
(** * XorgList: intrusive circular lists (include/list.h)

    The links live inside the objects, so a list is a shape of the heap: the operations
    are sequences of stores to the [next] and [prev] fields of nodes, and the theorems say
    which list the heap holds before and after, and that other lists are not touched. *)

From S2P Require Import Prelude Atom ResourceDB.

#[local] Set Warnings "-clear-no-such-hyp".

(** ** The heap *)

Record xorg_list := mkNode { next : pointer; prev : pointer }.
Abbreviation heap := (gmap pointer xorg_list).

Definition load_next (h : heap) (a : pointer) : result pointer := n ← of_option Dangling (h !! a); Ok (next n).
Definition load_prev (h : heap) (a : pointer) : result pointer := n ← of_option Dangling (h !! a); Ok (prev n).

Definition store_next (h : heap) (a v : pointer) : result heap :=
  n ← of_option Dangling (h !! a); Ok (<[a := mkNode v (prev n)]> h).
Definition store_prev (h : heap) (a v : pointer) : result heap :=
  n ← of_option Dangling (h !! a); Ok (<[a := mkNode (next n) v]> h).

(** ** The operations *)

(** [list->next = list->prev = list]. *)
Definition xorg_list_init (h : heap) (list : pointer) : result heap :=
  h ← store_prev h list list; store_next h list list.

Definition __xorg_list_add (h : heap) (entry prev next : pointer) : result heap :=
  h ← store_prev h next entry;
  h ← store_next h entry next;
  h ← store_prev h entry prev;
  store_next h prev entry.

Definition xorg_list_add (h : heap) (entry head : pointer) : result heap :=
  n ← load_next h head; __xorg_list_add h entry head n.

Definition xorg_list_append (h : heap) (entry head : pointer) : result heap :=
  p ← load_prev h head; __xorg_list_add h entry p head.

Definition __xorg_list_del (h : heap) (prev next : pointer) : result heap :=
  h ← store_prev h next prev; store_next h prev next.

Definition xorg_list_del (h : heap) (entry : pointer) : result heap :=
  p ← load_prev h entry;
  n ← load_next h entry;
  h ← __xorg_list_del h p n;
  xorg_list_init h entry.

Definition xorg_list_is_empty (h : heap) (head : pointer) : result bool :=
  n ← load_next h head; Ok (n =? head).

(** [xorg_list_for_each_entry] with a body that only looks: the entries, in order. *)
Fixpoint for_each_entry (fuel : nat) (h : heap) (head pos : pointer) : result (list pointer) :=
  if pos =? head then Ok [] else
  match fuel with
  | O => Err OutOfFuel
  | S fuel =>
      n ← load_next h pos;
      l ← for_each_entry fuel h head n;
      Ok (pos :: l)
  end.

Definition xorg_list_for_each_entry (fuel : nat) (h : heap) (head : pointer) : result (list pointer) :=
  n ← load_next h head; for_each_entry fuel h head n.

(** [xorg_list_for_each_entry_safe]: [tmp] is read before the body runs on [pos]. *)
Fixpoint for_each_entry_safe {S} (body : S -> heap -> pointer -> result (S * heap)) (fuel : nat) (s : S) (h : heap)
    (head pos tmp : pointer) : result (S * heap) :=
  if pos =? head then Ok (s, h) else
  match fuel with
  | O => Err OutOfFuel
  | Datatypes.S fuel =>
      '(s, h) ← body s h pos;
      n ← load_next h tmp;
      for_each_entry_safe body fuel s h head tmp n
  end.

Definition xorg_list_for_each_entry_safe {S} (body : S -> heap -> pointer -> result (S * heap)) (fuel : nat) (s : S)
    (h : heap) (head : pointer) : result (S * heap) :=
  pos ← load_next h head;
  tmp ← load_next h pos;
  for_each_entry_safe body fuel s h head pos tmp.

(** ** Reading fields after stores *)

Definition nx (h : heap) (a : pointer) : option pointer := next <$> h !! a.
Definition pv (h : heap) (a : pointer) : option pointer := prev <$> h !! a.

Lemma load_next_ok h a b : nx h a = Some b -> load_next h a = Ok b.
Proof. unfold nx, load_next. destruct (h !! a); simpl; [by intros [= <-]|done]. Qed.

Lemma load_prev_ok h a b : pv h a = Some b -> load_prev h a = Ok b.
Proof. unfold pv, load_prev. destruct (h !! a); simpl; [by intros [= <-]|done]. Qed.

Definition same_nodes (h h' : heap) : Prop := ∀ a, is_Some (h' !! a) <-> is_Some (h !! a).

(** What a store does to all fields. *)
Record stored (h h' : heap) (fn fp : pointer -> option pointer) : Prop := {
  st_next x : nx h' x = fn x;
  st_prev x : pv h' x = fp x;
  st_nodes : same_nodes h h'
}.

Lemma store_next_ok h a v :
  is_Some (h !! a) ->
  ∃ h', store_next h a v = Ok h' ∧ stored h h' (fun x => if decide (x = a) then Some v else nx h x) (pv h).
Proof.
  intros [n Hn]. unfold store_next. rewrite Hn. simpl. eexists. split; [done|]. split.
  - intros x. unfold nx. case_decide as E; [subst; by rewrite lookup_insert_eq|by rewrite lookup_insert_ne].
  - intros x. unfold pv. destruct (decide (x = a)) as [->|E]; [by rewrite lookup_insert_eq, Hn|by rewrite lookup_insert_ne].
  - intros x. rewrite lookup_insert_is_Some. destruct (decide (a = x)) as [->|]; [|tauto]. split; [by eexists|by left].
Qed.

Lemma store_prev_ok h a v :
  is_Some (h !! a) ->
  ∃ h', store_prev h a v = Ok h' ∧ stored h h' (nx h) (fun x => if decide (x = a) then Some v else pv h x).
Proof.
  intros [n Hn]. unfold store_prev. rewrite Hn. simpl. eexists. split; [done|]. split.
  - intros x. unfold nx. destruct (decide (x = a)) as [->|E]; [by rewrite lookup_insert_eq, Hn|by rewrite lookup_insert_ne].
  - intros x. unfold pv. case_decide as E; [subst; by rewrite lookup_insert_eq|by rewrite lookup_insert_ne].
  - intros x. rewrite lookup_insert_is_Some. destruct (decide (a = x)) as [->|]; [|tauto]. split; [by eexists|by left].
Qed.

Lemma xorg_list_init_ok h a :
  is_Some (h !! a) ->
  ∃ h', xorg_list_init h a = Ok h' ∧
    stored h h' (fun x => if decide (x = a) then Some a else nx h x) (fun x => if decide (x = a) then Some a else pv h x).
Proof.
  intros Ha. unfold xorg_list_init. destruct (store_prev_ok h a a Ha) as (h1 & -> & [N1 P1 S1]). cbn [mbind result_bind].
  destruct (store_next_ok h1 a a) as (h2 & -> & [N2 P2 S2]); [by apply S1|]. exists h2. split; [done|]. split.
  - intros x. rewrite N2. by rewrite N1.
  - intros x. by rewrite P2, P1.
  - intros x. by rewrite (S2 x), (S1 x).
Qed.

Lemma add_between h entry p n :
  is_Some (h !! entry) -> is_Some (h !! p) -> is_Some (h !! n) -> entry <> p -> entry <> n ->
  ∃ h', __xorg_list_add h entry p n = Ok h' ∧
    stored h h' (fun x => if decide (x = p) then Some entry else if decide (x = entry) then Some n else nx h x)
                (fun x => if decide (x = n) then Some entry else if decide (x = entry) then Some p else pv h x).
Proof.
  intros He Hp Hn Hep Hen. unfold __xorg_list_add.
  destruct (store_prev_ok h n entry Hn) as (h1 & -> & [N1 P1 S1]). cbn [mbind result_bind].
  destruct (store_next_ok h1 entry n) as (h2 & -> & [N2 P2 S2]); [by apply S1|]. cbn [mbind result_bind].
  destruct (store_prev_ok h2 entry p) as (h3 & -> & [N3 P3 S3]); [by apply S2, S1|]. cbn [mbind result_bind].
  destruct (store_next_ok h3 p entry) as (h4 & -> & [N4 P4 S4]); [by apply S3, S2, S1|]. exists h4. split; [done|]. split.
  - intros x. rewrite N4, N3, N2, N1. done.
  - intros x. rewrite P4, P3, P2, P1. repeat case_decide; congruence.
  - intros x. by rewrite (S4 x), (S3 x), (S2 x), (S1 x).
Qed.

Lemma del_between h entry p n :
  nx h entry = Some n -> pv h entry = Some p -> is_Some (h !! p) -> is_Some (h !! n) ->
  ∃ h', xorg_list_del h entry = Ok h' ∧
    stored h h' (fun x => if decide (x = entry) then Some entry else if decide (x = p) then Some n else nx h x)
                (fun x => if decide (x = entry) then Some entry else if decide (x = n) then Some p else pv h x).
Proof.
  intros Hn Hp Hps Hns. unfold xorg_list_del. rewrite (load_prev_ok _ _ _ Hp), (load_next_ok _ _ _ Hn). cbn [mbind result_bind].
  unfold __xorg_list_del.
  destruct (store_prev_ok h n p Hns) as (h1 & -> & [N1 P1 S1]). cbn [mbind result_bind].
  destruct (store_next_ok h1 p n) as (h2 & -> & [N2 P2 S2]); [by apply S1|]. cbn [mbind result_bind].
  destruct (xorg_list_init_ok h2 entry) as (h3 & -> & [N3 P3 S3]).
  { apply S2, S1. unfold nx in Hn. destruct (h !! entry); [eauto|done]. }
  exists h3. split; [done|]. split.
  - intros x. by rewrite N3, N2, N1.
  - intros x. by rewrite P3, P2, P1.
  - intros x. by rewrite (S3 x), (S2 x), (S1 x).
Qed.

(** ** Lists in the heap *)

(** From node [a], the nodes [l] follow, and then [z]. *)
Fixpoint linked (h : heap) (a : pointer) (l : list pointer) (z : pointer) : Prop :=
  match l with
  | [] => nx h a = Some z ∧ pv h z = Some a
  | b :: l => nx h a = Some b ∧ pv h b = Some a ∧ linked h b l z
  end.

Definition is_list (h : heap) (head : pointer) (l : list pointer) : Prop := NoDup (head :: l) ∧ linked h head l head.

Lemma linked_app h a l1 b l2 z : linked h a (l1 ++ b :: l2) z <-> linked h a l1 b ∧ linked h b l2 z.
Proof. revert a. induction l1 as [|c l1 IH]; intros a; simpl; [tauto|]. rewrite IH. tauto. Qed.

Lemma linked_frame h h' a l z :
  linked h a l z -> (∀ x, x = a ∨ x ∈ l -> nx h' x = nx h x) -> (∀ x, x = z ∨ x ∈ l -> pv h' x = pv h x) ->
  linked h' a l z.
Proof.
  revert a. induction l as [|b l IH]; intros a; simpl.
  - intros [Hn Hp] Fn Fp. rewrite Fn, Fp by auto. done.
  - intros (Hn & Hp & Hl) Fn Fp. setoid_rewrite elem_of_cons in Fn. setoid_rewrite elem_of_cons in Fp.
    rewrite Fn, Fp by auto. split_and!; [done|done|]. apply IH; [done|intros x [?|?]; auto..].
Qed.

Lemma nx_node h a b : nx h a = Some b -> is_Some (h !! a).
Proof. unfold nx. destruct (h !! a); [eauto|done]. Qed.

Lemma pv_node h a b : pv h a = Some b -> is_Some (h !! a).
Proof. unfold pv. destruct (h !! a); [eauto|done]. Qed.

(** The neighbours at the place between [l1] and [l2]. *)
Lemma linked_place h a l1 l2 z :
  linked h a (l1 ++ l2) z ->
  nx h (List.last l1 a) = Some (hd z l2) ∧ pv h (hd z l2) = Some (List.last l1 a).
Proof.
  destruct (decide (l1 = [])) as [->|Hne].
  - destruct l2; simpl; tauto.
  - rewrite (app_removelast_last a Hne). set (p := List.last l1 a). rewrite <- app_assoc. intros [_ H]%linked_app.
    rewrite List.last_last. destruct l2; simpl in H; tauto.
Qed.

Ltac stored_tac H :=
  intros; rewrite ?(st_next _ _ _ _ H), ?(st_prev _ _ _ _ H); repeat rewrite decide_False by set_solver; try done.

(** *** Insertion *)

Section Insert.
Context (h h' : heap) (entry : pointer).

Lemma linked_insert_front a l z :
  linked h a l z -> NoDup (a :: l) -> entry ∉ a :: l -> entry <> z -> z ∉ l ->
  stored h h' (fun x => if decide (x = a) then Some entry else if decide (x = entry) then Some (hd z l) else nx h x)
              (fun x => if decide (x = hd z l) then Some entry else if decide (x = entry) then Some a else pv h x) ->
  linked h' a (entry :: l) z.
Proof.
  intros Hl Hd He Hz Hzl Hs. apply NoDup_cons in Hd as [Ha Hd]. simpl.
  assert (hd z l <> entry) by (destruct l; set_solver).
  split; [by rewrite (st_next _ _ _ _ Hs), decide_True|].
  split; [by rewrite (st_prev _ _ _ _ Hs), decide_False, decide_True by done|].
  destruct l as [|b l]; simpl in *.
  - split.
    + rewrite (st_next _ _ _ _ Hs), decide_False, decide_True by set_solver. done.
    + by rewrite (st_prev _ _ _ _ Hs), decide_True.
  - apply NoDup_cons in Hd as [Hb Hd]. destruct Hl as (_ & _ & Hl). split_and!.
    + rewrite (st_next _ _ _ _ Hs), decide_False, decide_True by set_solver. done.
    + by rewrite (st_prev _ _ _ _ Hs), decide_True.
    + apply (linked_frame h); [done| |]; stored_tac Hs.
Qed.

Lemma linked_insert a l1 l2 z :
  linked h a (l1 ++ l2) z -> NoDup (a :: l1 ++ l2) -> entry ∉ a :: l1 ++ l2 -> entry <> z -> z ∉ l1 ++ l2 ->
  stored h h'
    (fun x => if decide (x = List.last l1 a) then Some entry else if decide (x = entry) then Some (hd z l2) else nx h x)
    (fun x => if decide (x = hd z l2) then Some entry else if decide (x = entry) then Some (List.last l1 a) else pv h x) ->
  linked h' a (l1 ++ entry :: l2) z.
Proof.
  intros Hl Hd He Hz Hzl Hs. destruct (decide (l1 = [])) as [->|Hne]; [by apply linked_insert_front|].
  pose proof (app_removelast_last a Hne) as E. set (p := List.last l1 a) in *. set (l := removelast l1) in *.
  clearbody p l. subst l1. rewrite <- app_assoc in *. simpl in *. apply linked_app in Hl as [H1 H2]. apply linked_app.
  apply NoDup_cons in Hd as [Ha Hd]. apply NoDup_app in Hd as (Hd1 & Hdis & Hd2).
  split; [|apply linked_insert_front; try done; set_solver].
  assert (hd z l2 <> p ∧ hd z l2 ∉ l) as [? ?].
  { apply NoDup_cons in Hd2 as [Hp _]. destruct l2; simpl; [set_solver|]. split; [set_solver|]. intros Hin. apply (Hdis _ Hin). set_solver. }
  assert (p ∉ l) by (intros Hin; apply (Hdis _ Hin); set_solver).
  apply (linked_frame h); [done| |]; stored_tac Hs.
Qed.

End Insert.

(** *** Removal *)

Section Remove.
Context (h h' : heap) (entry : pointer).

Lemma linked_remove_front a l z :
  linked h a (entry :: l) z -> NoDup (a :: entry :: l) -> entry <> z -> z ∉ l ->
  stored h h' (fun x => if decide (x = entry) then Some entry else if decide (x = a) then Some (hd z l) else nx h x)
              (fun x => if decide (x = entry) then Some entry else if decide (x = hd z l) then Some a else pv h x) ->
  linked h' a l z.
Proof.
  intros (_ & _ & Hl) Hd Hz Hzl Hs. apply NoDup_cons in Hd as [Ha Hd]. apply NoDup_cons in Hd as [He Hd].
  destruct l as [|b l]; simpl in *.
  - split.
    + rewrite (st_next _ _ _ _ Hs), decide_False, decide_True by set_solver. done.
    + rewrite (st_prev _ _ _ _ Hs), decide_False, decide_True by done. done.
  - apply NoDup_cons in Hd as [Hb Hd]. destruct Hl as (_ & _ & Hl). split_and!.
    + rewrite (st_next _ _ _ _ Hs), decide_False, decide_True by set_solver. done.
    + rewrite (st_prev _ _ _ _ Hs), decide_False, decide_True by set_solver. done.
    + apply (linked_frame h); [done| |]; stored_tac Hs.
Qed.

Lemma linked_remove a l1 l2 z :
  linked h a (l1 ++ entry :: l2) z -> NoDup (a :: l1 ++ entry :: l2) -> z ∉ l1 ++ entry :: l2 ->
  stored h h'
    (fun x => if decide (x = entry) then Some entry else if decide (x = List.last l1 a) then Some (hd z l2) else nx h x)
    (fun x => if decide (x = entry) then Some entry else if decide (x = hd z l2) then Some (List.last l1 a) else pv h x) ->
  linked h' a (l1 ++ l2) z.
Proof.
  intros Hl Hd Hzl Hs.
  destruct (decide (l1 = [])) as [->|Hne]; [apply linked_remove_front; try done; set_solver|].
  pose proof (app_removelast_last a Hne) as E. set (p := List.last l1 a) in *. set (l := removelast l1) in *.
  clearbody p l. subst l1. rewrite <- app_assoc in *. simpl in *. apply linked_app in Hl as [H1 H2]. apply linked_app.
  apply NoDup_cons in Hd as [Ha Hd]. apply NoDup_app in Hd as (Hd1 & Hdis & Hd2).
  split; [|apply linked_remove_front; try done; set_solver].
  assert (hd z l2 <> p ∧ hd z l2 ∉ l) as [? ?].
  { apply NoDup_cons in Hd2 as [Hp _]. destruct l2; simpl; [set_solver|]. split; [set_solver|]. intros Hin. apply (Hdis _ Hin). set_solver. }
  assert (p ∉ l ∧ entry ∉ l) as [? ?] by (split; intros Hin; apply (Hdis _ Hin); set_solver).
  assert (p <> entry) by (apply NoDup_cons in Hd2 as [Hp _]; set_solver).
  apply (linked_frame h); [done| |]; stored_tac Hs.
Qed.

End Remove.

(** ** The operations on lists *)

(** Nothing outside [nodes] changed. *)
Definition only (nodes : list pointer) (h h' : heap) : Prop := ∀ x, x ∉ nodes -> h' !! x = h !! x.

Lemma stored_only h h' fn fp nodes :
  stored h h' fn fp -> (∀ x, x ∉ nodes -> fn x = nx h x) -> (∀ x, x ∉ nodes -> fp x = pv h x) -> only nodes h h'.
Proof.
  intros [Hn Hp Hs] Fn Fp x Hx. specialize (Hn x). specialize (Hp x). specialize (Hs x). rewrite Fn in Hn by done.
  rewrite Fp in Hp by done. unfold nx, pv in *. destruct (h' !! x) as [[n' p']|], (h !! x) as [[n p]|]; simpl in *; congruence.
Qed.

(** A list with other nodes does not notice. *)
Lemma is_list_only h h' nodes head l :
  is_list h head l -> only nodes h h' -> (∀ x, x ∈ head :: l -> x ∉ nodes) -> is_list h' head l.
Proof.
  intros [Hd Hl] Ho Hdis. split; [done|]. apply (linked_frame h); [done| |].
  - intros x Hx. unfold nx. rewrite Ho; [done|]. apply Hdis. set_solver.
  - intros x Hx. unfold pv. rewrite Ho; [done|]. apply Hdis. set_solver.
Qed.

Lemma last_in (a : pointer) l : List.last l a ∈ a :: l.
Proof.
  destruct (decide (l = [])) as [->|Hne]; [left|]. rewrite (app_removelast_last a Hne) at 2. set_solver.
Qed.

Lemma hd_in (z : pointer) l : hd z l ∈ z :: l.
Proof. destruct l; set_solver. Qed.

Lemma insert_at h head l1 l2 entry :
  is_list h head (l1 ++ l2) -> is_Some (h !! entry) -> entry ∉ head :: l1 ++ l2 ->
  ∃ h', __xorg_list_add h entry (List.last l1 head) (hd head l2) = Ok h' ∧ is_list h' head (l1 ++ entry :: l2) ∧
    only (head :: l1 ++ entry :: l2) h h'.
Proof.
  intros [Hd Hl] He Hne. destruct (linked_place _ _ _ _ _ Hl) as [Hn Hp].
  pose proof (last_in head l1) as Hlast. pose proof (hd_in head l2) as Hhd.
  destruct (add_between h entry (List.last l1 head) (hd head l2)) as (h' & -> & Hs);
    [done|by eapply nx_node|by eapply pv_node|set_solver|set_solver|]. exists h'. split; [done|]. split.
  - split; [|apply (linked_insert h); try done; [set_solver|by apply NoDup_cons in Hd as [? _]]].
    apply NoDup_cons in Hd as [Hh Hd]. apply NoDup_cons. split; [set_solver|].
    rewrite <- Permutation_middle. apply NoDup_cons. split; [set_solver|done].
  - apply (stored_only _ _ _ _ _ Hs); intros x Hx; repeat rewrite decide_False by set_solver; done.
Qed.

Lemma xorg_list_add_ok h head l entry :
  is_list h head l -> is_Some (h !! entry) -> entry ∉ head :: l ->
  ∃ h', xorg_list_add h entry head = Ok h' ∧ is_list h' head (entry :: l) ∧ only (head :: entry :: l) h h'.
Proof.
  intros Hl He Hne. unfold xorg_list_add. destruct (linked_place h head [] l head (proj2 Hl)) as [Hn _]. simpl in Hn.
  rewrite (load_next_ok _ _ _ Hn). cbn [mbind result_bind]. by apply (insert_at h head [] l).
Qed.

Lemma xorg_list_append_ok h head l entry :
  is_list h head l -> is_Some (h !! entry) -> entry ∉ head :: l ->
  ∃ h', xorg_list_append h entry head = Ok h' ∧ is_list h' head (l ++ [entry]) ∧ only (head :: l ++ [entry]) h h'.
Proof.
  intros Hl He Hne. unfold xorg_list_append. rewrite <- (app_nil_r l) in Hl, Hne.
  destruct (linked_place h head l [] head (proj2 Hl)) as [_ Hp]. simpl in Hp.
  rewrite (load_prev_ok _ _ _ Hp). cbn [mbind result_bind]. by apply (insert_at h head l []).
Qed.

Lemma xorg_list_del_ok h head l1 entry l2 :
  is_list h head (l1 ++ entry :: l2) ->
  ∃ h', xorg_list_del h entry = Ok h' ∧ is_list h' head (l1 ++ l2) ∧ is_list h' entry [] ∧
    only (head :: l1 ++ entry :: l2) h h'.
Proof.
  intros [Hd Hl]. pose proof (proj1 (linked_app _ _ _ _ _ _) Hl) as [H1 H2].
  rewrite <- (app_nil_r l1) in H1. destruct (linked_place _ _ _ _ _ H1) as [Hn1 Hp1].
  destruct (linked_place h entry [] l2 head H2) as [Hn2 Hp2]. simpl in *.
  pose proof (last_in head l1) as Hlast. pose proof (hd_in head l2) as Hhd.
  destruct (del_between h entry (List.last l1 head) (hd head l2)) as (h' & -> & Hs);
    [done|done|by eapply nx_node|by eapply pv_node|]. exists h'. split; [done|].
  pose proof (proj1 (NoDup_cons _ _) Hd) as [Hh Hd']. split_and!.
  - split; [|by apply (linked_remove h h' entry)]. apply NoDup_cons. split; [set_solver|].
    rewrite <- Permutation_middle in Hd'. by apply NoDup_cons in Hd' as [_ Hd'].
  - split; [apply NoDup_singleton|]. split.
    + by rewrite (st_next _ _ _ _ Hs), decide_True.
    + by rewrite (st_prev _ _ _ _ Hs), decide_True.
  - apply (stored_only _ _ _ _ _ Hs); intros x Hx; repeat rewrite decide_False by set_solver; done.
Qed.

Lemma xorg_list_is_empty_ok h head l :
  is_list h head l -> xorg_list_is_empty h head = Ok (bool_decide (l = [])).
Proof.
  intros [Hd Hl]. unfold xorg_list_is_empty. destruct (linked_place h head [] l head Hl) as [Hn _]. simpl in Hn.
  rewrite (load_next_ok _ _ _ Hn). cbn [mbind result_bind]. destruct l as [|b l]; simpl; [by rewrite Z.eqb_refl|].
  apply NoDup_cons in Hd as [Hh _]. destruct (Z.eqb_spec b head); [set_solver|done].
Qed.

Lemma for_each_entry_ok h head l : ∀ a fuel,
  linked h a l head -> head ∉ l -> (length l <= fuel)%nat ->
  (n ← load_next h a; for_each_entry fuel h head n) = Ok l.
Proof.
  induction l as [|b l IH]; intros a fuel; simpl.
  - intros [Hn _] _ _. rewrite (load_next_ok _ _ _ Hn). cbn [mbind result_bind]. destruct fuel; simpl; by rewrite Z.eqb_refl.
  - intros (Hn & _ & Hl) Hh Hf. rewrite (load_next_ok _ _ _ Hn). cbn [mbind result_bind].
    destruct fuel as [|fuel]; [lia|]. simpl. destruct (Z.eqb_spec b head); [set_solver|].
    specialize (IH b fuel Hl ltac:(set_solver) ltac:(lia)). destruct (load_next h b); [|done].
    cbn [mbind result_bind] in *. by rewrite IH.
Qed.

(** C32: on a heap that holds a list at [head], the operations of list.h are those of a
    sequence: insertion at the front and at the end, removal anywhere, the test for
    emptiness, and the loop, which visits the elements in order and ends; a removed element is an empty
    list of its own, and memory outside the list and the new element, so every other list, is
    not touched.  No operation follows a pointer to unallocated memory. *)
Theorem xorg_list_correct h head l :
  is_list h head l ->
  (∀ entry, is_Some (h !! entry) -> entry ∉ head :: l ->
    (∃ h', xorg_list_add h entry head = Ok h' ∧ is_list h' head (entry :: l) ∧ only (head :: entry :: l) h h') ∧
    (∃ h', xorg_list_append h entry head = Ok h' ∧ is_list h' head (l ++ [entry]) ∧ only (head :: l ++ [entry]) h h')) ∧
  (∀ l1 entry l2, l = l1 ++ entry :: l2 ->
    ∃ h', xorg_list_del h entry = Ok h' ∧ is_list h' head (l1 ++ l2) ∧ is_list h' entry [] ∧ only (head :: l) h h') ∧
  xorg_list_is_empty h head = Ok (bool_decide (l = [])) ∧
  (∀ fuel, (length l <= fuel)%nat -> xorg_list_for_each_entry fuel h head = Ok l).
Proof.
  intros Hl. split_and!.
  - intros entry He Hne. split; [by apply xorg_list_add_ok|by apply xorg_list_append_ok].
  - intros l1 entry l2 ->. by apply xorg_list_del_ok.
  - by apply xorg_list_is_empty_ok.
  - intros fuel Hf. destruct Hl as [Hd Hl]. apply NoDup_cons in Hd as [Hh _]. by apply for_each_entry_ok.
Qed.

(** Three elements 10, 20, 30 of the list at 1, and a free node. *)
Definition demo_heap : heap :=
  <[1 := mkNode 10 30]> (<[10 := mkNode 20 1]> (<[20 := mkNode 30 10]> (<[30 := mkNode 1 20]> {[ 40 := mkNode 0 0 ]}))).

Lemma xorg_list_correct_witness :
  is_list demo_heap 1 [10; 20; 30] ∧
  (∃ h', xorg_list_del demo_heap 20 = Ok h' ∧ is_list h' 1 [10; 30] ∧ is_list h' 20 [] ∧ only [1; 10; 20; 30] demo_heap h').
Proof.
  assert (H : is_list demo_heap 1 [10; 20; 30]).
  { split; [by apply (bool_decide_unpack (NoDup [1; 10; 20; 30]))|]. by vm_compute. }
  split; [done|]. destruct (xorg_list_correct demo_heap 1 [10; 20; 30] H) as (_ & Hdel & _).
  exact (Hdel [10] 20 [30] eq_refl).
Defined.

(** ** The loop that allows removal *)

Section Safe.
Context {S : Type} (body : S -> heap -> pointer -> result (S * heap)) (I : S -> heap -> list pointer -> Prop) (head : pointer).

(** The invariant holds a list at [head], and the body takes out its first element. *)
Hypothesis I_list : ∀ s h l, I s h l -> is_list h head l.
Hypothesis body_removes : ∀ s h pos l, I s h (pos :: l) -> ∃ s' h', body s h pos = Ok (s', h') ∧ I s' h' l.

Lemma for_each_entry_safe_ok l : ∀ fuel s h,
  I s h l -> (length l <= fuel)%nat ->
  ∃ s' h', xorg_list_for_each_entry_safe body fuel s h head = Ok (s', h') ∧ I s' h' [].
Proof.
  unfold xorg_list_for_each_entry_safe.
  assert (Hfirst : ∀ s h l, I s h l -> load_next h head = Ok (hd head l) ∧ (l <> [] -> ∃ n, load_next h (hd head l) = Ok n ∧ n = hd head (tl l))).
  { intros s h k Hk. apply I_list in Hk as [_ Hk]. destruct (linked_place h head [] k head Hk) as [Hn _].
    split; [by apply load_next_ok|]. intros Hne. destruct k as [|b k]; [done|]. destruct Hk as (_ & _ & Hk).
    destruct (linked_place h b [] k head Hk) as [Hn' _]. simpl. eexists. split; [by apply load_next_ok|done]. }
  assert (Hloop : ∀ l fuel s h tmp, I s h l -> (length l <= fuel)%nat -> load_next h (hd head l) = Ok tmp ->
    ∃ s' h', for_each_entry_safe body fuel s h head (hd head l) tmp = Ok (s', h') ∧ I s' h' []).
  { clear l. induction l as [|b l IH]; intros fuel s h tmp HI Hf Htmp; simpl in *.
    - exists s, h. destruct fuel; simpl; by rewrite Z.eqb_refl.
    - pose proof (I_list _ _ _ HI) as [Hd _]. apply NoDup_cons in Hd as [Hh _].
      destruct fuel as [|fuel]; [lia|]. simpl. destruct (Z.eqb_spec b head); [set_solver|].
      destruct (Hfirst _ _ _ HI) as [_ Hnext]. destruct (Hnext ltac:(done)) as (n' & Hn & ->). simpl in Hn. rewrite Hn in Htmp.
      injection Htmp as <-. destruct (body_removes _ _ _ _ HI) as (s' & h' & -> & HI'). cbn [mbind result_bind].
      destruct (Hfirst _ _ _ HI') as [Hhead Hn'].
      assert (∃ n2, load_next h' (hd head l) = Ok n2) as [n2 E2].
      { destruct l; [by eexists|]. destruct (Hn' ltac:(done)) as (? & ? & _). by eexists. }
      rewrite E2. cbn [mbind result_bind]. apply IH; [done|lia|done]. }
  intros fuel s h HI Hf. destruct (Hfirst _ _ _ HI) as [-> Hn]. cbn [mbind result_bind].
  assert (∃ n2, load_next h (hd head l) = Ok n2) as [n2 E2].
  { destruct l; [simpl; destruct (Hfirst _ _ _ HI) as [-> _]; by eexists|]. destruct (Hn ltac:(done)) as (? & ? & _). by eexists. }
  rewrite E2. cbn [mbind result_bind]. by apply Hloop.
Qed.

End Safe.

(** Emptying a list, as [ht_destroy] does with each bucket: the elements come out in order. *)
Definition drain_body (seen : list pointer) (h : heap) (pos : pointer) : result (list pointer * heap) :=
  h ← xorg_list_del h pos; Ok (seen ++ [pos], h).

Lemma drain_ok h head l fuel :
  is_list h head l -> (length l <= fuel)%nat ->
  ∃ h', xorg_list_for_each_entry_safe drain_body fuel [] h head = Ok (l, h') ∧ is_list h' head [].
Proof.
  intros Hl Hf.
  destruct (for_each_entry_safe_ok drain_body (fun seen h k => l = seen ++ k ∧ is_list h head k) head) with (l := l) (fuel := fuel)
    (s := @nil pointer) (h := h) as (s' & h' & E & -> & Hl'); [by intros ??? [_ ?]| |done|done|].
  - intros s h1 pos k [-> Hk]. unfold drain_body. destruct (xorg_list_del_ok h1 head [] pos k Hk) as (h2 & -> & H2 & _).
    cbn [mbind result_bind]. do 2 eexists. split; [done|]. by rewrite <- app_assoc.
  - exists h'. by rewrite app_nil_r.
Qed.
