(* ===== verification/HashTable.v ===== *)
(** * HashTable: a generic hash table (Xext/hashtable.c)

    Keys are strings of bytes, values are blocks of memory that the table allocates and
    the caller fills.  Buckets are the circular lists of XorgList, here as sequences:
    insertion is at the front, and the loops run from front to back.  The memory state
    knows which blocks are allocated, so leaks and double frees are visible. *)

From S2P Require Import Prelude Atom ResourceDB.

(** ** Memory *)

Record Mem := mkMem { moracle : oracle; live : gset nat; fresh_block : nat }.

Definition malloc (m : Mem) : option nat * Mem :=
  let '(ok, o) := alloc (moracle m) in
  if ok then (Some (fresh_block m), mkMem o ({[ fresh_block m ]} ∪ live m) (S (fresh_block m)))
  else (None, mkMem o (live m) (fresh_block m)).

(** [free(NULL)] does nothing; freeing a block twice is a fault. *)
Definition free (m : Mem) (p : option nat) : result Mem :=
  match p with
  | None => Ok m
  | Some a => if decide (a ∈ live m) then Ok (mkMem (moracle m) (live m ∖ {[ a ]}) (fresh_block m)) else Err Dangling
  end.

(** ** Hash functions *)

Abbreviation key := (list Z).

(** What a table expects of the functions it is created with. *)
Class HashFunc (hash : key -> Z -> Z) (compare : key -> key -> Z) (valid : key -> Prop) : Prop := {
  hash_range k bits : 0 <= bits < 32 -> 0 <= hash k bits < 2 ^ bits;
  compare_eq a b : valid a -> valid b -> compare a b = 0 <-> a = b
}.

(** A round of [one_at_a_time_hash], and the function; [char] is signed. *)
Definition hash_round (hash b : Z) : Z :=
  let hash := u32 (hash + u32 (schar b)) in
  let hash := u32 (hash + u32 (Z.shiftl hash 10)) in
  Z.lxor hash (Z.shiftr hash 6).

Definition one_at_a_time_hash (data : key) : Z :=
  let hash := foldl hash_round 0 data in
  let hash := u32 (hash + u32 (Z.shiftl hash 3)) in
  let hash := Z.lxor hash (Z.shiftr hash 11) in
  u32 (hash + u32 (Z.shiftl hash 15)).

Definition ht_generic_hash (keySize : nat) (ptr : key) (numBits : Z) : Z :=
  Z.land (one_at_a_time_hash (take keySize ptr)) (u32 (Z.lnot (Z.shiftl (-1) numBits))).

Fixpoint memcmp (l r : list Z) : Z :=
  match l, r with
  | a :: l, b :: r => if a =? b then memcmp l r else a - b
  | _, _ => 0
  end.

Definition ht_generic_compare (keySize : nat) (l r : key) : Z := memcmp (take keySize l) (take keySize r).

(** Identifiers as keys of four bytes, little end first. *)
Definition xid_of (k : key) : Z := foldr (fun b z => b + 256 * z) 0 k.

(** [HashResourceID] is not part of the tree. *)
Definition ht_resourceid_hash (HashResourceID : Z -> Z -> Z) (data : key) (numBits : Z) : Z :=
  HashResourceID (Z.land (xid_of data) RESOURCE_ID_MASK) numBits.

Definition ht_resourceid_compare (a b : key) : Z :=
  if xid_of a <? xid_of b then -1 else if xid_of b <? xid_of a then 1 else 0.

(** ** The table *)

Definition INITHASHSIZE : Z := 6.
Definition MAXHASHSIZE : Z := 11.

Record BucketRec := mkBucket { self : nat; bkey : key; key_block : nat; data_block : option nat }.

Record HashTableRec := mkHT {
  ht_self : nat; keySize : nat; dataSize : Z; elements : Z; bucketBits : Z;
  buckets_block : nat; buckets : list (list BucketRec)
}.

Definition set_contents (ht : HashTableRec) (n : Z) (b : list (list BucketRec)) : HashTableRec :=
  mkHT (ht_self ht) (keySize ht) (dataSize ht) n (bucketBits ht) (buckets_block ht) b.

(** A value: the data block, or the end of the key when there is none. *)
Inductive HtPtr := DataPtr (block : nat) | KeyEnd (block : nat).

Definition value_ptr (e : BucketRec) : HtPtr :=
  match data_block e with Some d => DataPtr d | None => KeyEnd (key_block e) end.

Section Table.
Context (hash : key -> Z -> Z) (compare : key -> key -> Z).

Definition ht_create (keySize : nat) (dataSize : Z) (m : Mem) : option HashTableRec * result Mem :=
  let '(ht, m) := malloc m in
  match ht with
  | None => (None, Ok m)
  | Some a =>
      let '(b, m) := malloc m in
      match b with
      | Some b => (Some (mkHT a keySize dataSize 0 INITHASHSIZE b (replicate (Z.to_nat (Z.shiftl 1 INITHASHSIZE)) [])), Ok m)
      | None => (None, free m (Some a))
      end
  end.

(** The inner loop of [ht_destroy] over one bucket, and the function. *)
Fixpoint free_elems (m : Mem) (l : list BucketRec) : result Mem :=
  match l with
  | [] => Ok m
  | e :: l => m ← free m (Some (self e)); free_elems m l
  end.

Definition ht_destroy (ht : HashTableRec) (m : Mem) : result Mem :=
  m ← free_elems m (concat (buckets ht));
  free m (Some (buckets_block ht)).

(** [xorg_list_add(&it->l, &newBuckets[...])]. *)
Definition add_front (b : list (list BucketRec)) (i : Z) (e : BucketRec) : result (list (list BucketRec)) :=
  l ← of_option OutOfBounds (b !! Z.to_nat i);
  Ok (<[Z.to_nat i := e :: l]> b).

(** The loop of [double_size]. *)
Fixpoint redistribute (bits : Z) (l : list BucketRec) (new : list (list BucketRec)) : result (list (list BucketRec)) :=
  match l with
  | [] => Ok new
  | e :: l => new ← add_front new (hash (bkey e) bits) e; redistribute bits l new
  end.

Definition double_size (ht : HashTableRec) (m : Mem) : result (bool * HashTableRec * Mem) :=
  let newBucketBits := bucketBits ht + 1 in
  let '(b, m) := malloc m in
  match b with
  | None => Ok (false, ht, m)
  | Some b =>
      new ← redistribute newBucketBits (concat (buckets ht)) (replicate (Z.to_nat (Z.shiftl 1 newBucketBits)) []);
      m ← free m (Some (buckets_block ht));
      Ok (true, mkHT (ht_self ht) (keySize ht) (dataSize ht) (elements ht) newBucketBits b new, m)
  end.

(** The exit [outOfMemory] of [ht_add], with an element. *)
Definition out_of_memory (ht : HashTableRec) (m : Mem) (elem : nat) (k d : option nat)
    : result (option HtPtr * HashTableRec * Mem) :=
  m ← free m k; m ← free m d; m ← free m (Some elem); Ok (None, ht, m).

Definition ht_add (ht : HashTableRec) (k : key) (m : Mem) : result (option HtPtr * HashTableRec * Mem) :=
  let index := hash k (bucketBits ht) in
  bucket ← of_option OutOfBounds (buckets ht !! Z.to_nat index);
  let '(elem, m) := malloc m in
  match elem with
  | None => Ok (None, ht, m)
  | Some elem =>
      let '(kb, m) := malloc m in
      match kb with
      | None => out_of_memory ht m elem None None
      | Some kb =>
          let '(d, m) := malloc m in
          if negb (dataSize ht =? 0) && bool_decide (d = None) then out_of_memory ht m elem (Some kb) d else
          let e := mkBucket elem (take (keySize ht) k) kb d in
          let ht' := set_contents ht (elements ht + 1) (<[Z.to_nat index := e :: bucket]> (buckets ht)) in
          if (4 * Z.shiftl 1 (bucketBits ht') <? elements ht') && (bucketBits ht' <? MAXHASHSIZE) then
            '(ok, ht'', m) ← double_size ht' m;
            if ok : bool then Ok (Some (value_ptr e), ht'', m)
            else out_of_memory ht m elem (Some kb) d
          else Ok (Some (value_ptr e), ht', m)
      end
  end.

(** The element that the loops of [ht_remove] and [ht_find] stop at, and the others. *)
Fixpoint find_elem (k : key) (l : list BucketRec) : option (list BucketRec * BucketRec * list BucketRec) :=
  match l with
  | [] => None
  | e :: l =>
      if compare k (bkey e) =? 0 then Some ([], e, l)
      else '(before, x, after) ← find_elem k l; Some (e :: before, x, after)
  end.

Definition ht_remove (ht : HashTableRec) (k : key) (m : Mem) : result (HashTableRec * Mem) :=
  let index := hash k (bucketBits ht) in
  bucket ← of_option OutOfBounds (buckets ht !! Z.to_nat index);
  match find_elem k bucket with
  | None => Ok (ht, m)
  | Some (before, e, after) =>
      m ← free m (Some (key_block e));
      m ← free m (data_block e);
      m ← free m (Some (self e));
      Ok (set_contents ht (elements ht - 1) (<[Z.to_nat index := before ++ after]> (buckets ht)), m)
  end.

Definition ht_find (ht : HashTableRec) (k : key) : result (option HtPtr) :=
  let index := hash k (bucketBits ht) in
  bucket ← of_option OutOfBounds (buckets ht !! Z.to_nat index);
  Ok ((fun x => value_ptr x.1.2) <$> find_elem k bucket).

End Table.
