(* ===== verification/HashTableProofs.v ===== *)
(** * HashTableProofs: the hash table is a finite map (Xext/hashtable.c)

    The invariant of tables, against any hash function that meets the interface, and the
    two hash functions of the file as instances of it. *)

From S2P Require Import Prelude Atom ResourceDB HashTable.

#[local] Set Warnings "-clear-no-such-hyp".

#[local] Arguments free : simpl never.

(** ** Memory *)

Definition mem_ok (m : Mem) : Prop := ∀ a, a ∈ live m -> (a < fresh_block m)%nat.

Lemma malloc_ok m :
  mem_ok m ->
  ∃ p m', malloc m = (p, m') ∧ mem_ok m' ∧
    match p with
    | Some a => (a ∉ live m) ∧ live m' = {[ a ]} ∪ live m
    | None => live m' = live m ∧ may_fail (moracle m)
    end ∧ (may_fail (moracle m') -> may_fail (moracle m)).
Proof.
  intros Hm. unfold malloc. destruct (alloc (moracle m)) as [ok o] eqn:E. destruct (alloc_spec _ _ _ E) as (H1 & H2 & _).
  destruct ok; do 2 eexists; (split; [done|]); split_and!; try done; simpl.
  - intros a. simpl. rewrite elem_of_union, elem_of_singleton. intros [->|Ha]; [lia|]. specialize (Hm a Ha). lia.
  - intros Ha. specialize (Hm _ Ha). lia.
  - by apply H1.
Qed.

Lemma free_ok m a :
  a ∈ live m -> mem_ok m ->
  ∃ m', free m (Some a) = Ok m' ∧ mem_ok m' ∧ live m' = live m ∖ {[ a ]} ∧ moracle m' = moracle m.
Proof.
  intros Ha Hm. unfold free. rewrite decide_True by done. eexists. split; [done|]. split_and!; try done.
  intros b. simpl. rewrite elem_of_difference. intros [Hb _]. by apply Hm.
Qed.

(** ** Buckets as one bag of elements *)

Lemma buckets_insert (b : list (list BucketRec)) i l l' :
  b !! i = Some l -> ∃ rest, concat b ≡ₚ l ++ rest ∧ concat (<[i := l']> b) ≡ₚ l' ++ rest.
Proof.
  intros Hi. exists (concat (take i b) ++ concat (drop (S i) b)).
  pose proof (lookup_lt_Some _ _ _ Hi). rewrite insert_take_drop by done.
  rewrite <- (take_drop_middle b i l Hi) at 1. rewrite !concat_app. simpl.
  split; apply Permutation_app_swap_app.
Qed.

Definition entries (ht : HashTableRec) : list BucketRec := concat (buckets ht).

Definition blocks (e : BucketRec) : list nat := self e :: key_block e :: option_list (data_block e).

Definition owned (ht : HashTableRec) : list nat := buckets_block ht :: (entries ht ≫= blocks).

(** The map a table stands for. *)
Definition tab (l : list BucketRec) : gmap key HtPtr := list_to_map ((fun e => (bkey e, value_ptr e)) <$> l).
Definition table (ht : HashTableRec) : gmap key HtPtr := tab (entries ht).

Lemma tab_keys l : ((fun e => (bkey e, value_ptr e)) <$> l).*1 = bkey <$> l.
Proof. rewrite <- list_fmap_compose. by apply list_fmap_ext. Qed.

Lemma tab_perm l l' : NoDup (bkey <$> l) -> l ≡ₚ l' -> tab l = tab l'.
Proof. intros Hd E. apply list_to_map_proper; [by rewrite tab_keys|by rewrite E]. Qed.

Lemma tab_cons e l : tab (e :: l) = <[bkey e := value_ptr e]> (tab l).
Proof. done. Qed.

Lemma tab_Some l e : NoDup (bkey <$> l) -> e ∈ l -> tab l !! bkey e = Some (value_ptr e).
Proof.
  intros Hd He. apply elem_of_list_to_map; [by rewrite tab_keys|]. apply list_elem_of_fmap. by exists e.
Qed.

Lemma tab_None l k : k ∉ bkey <$> l -> tab l !! k = None.
Proof. intros Hk. apply not_elem_of_list_to_map. by rewrite tab_keys. Qed.

Lemma tab_None_inv l k : tab l !! k = None -> k ∉ bkey <$> l.
Proof. intros H. rewrite <- tab_keys. by apply not_elem_of_list_to_map. Qed.

Section Table.
Context (hash : key -> Z -> Z) (compare : key -> key -> Z) (valid : key -> Prop).
Context `{HF : !HashFunc hash compare valid}.

(** Every element is in the bucket of its key. *)
Definition placed (bits : Z) (b : list (list BucketRec)) : Prop :=
  Z.of_nat (length b) = 2 ^ bits ∧
  ∀ i l e, b !! i = Some l -> e ∈ l -> Z.of_nat i = hash (bkey e) bits ∧ valid (bkey e).

Record ht_core (ht : HashTableRec) (m : Mem) : Prop := {
  hk_mem : mem_ok m;
  hk_bits : INITHASHSIZE <= bucketBits ht <= MAXHASHSIZE;
  hk_placed : placed (bucketBits ht) (buckets ht);
  hk_keys : NoDup (bkey <$> entries ht);
  hk_elements : elements ht = Z.of_nat (length (entries ht));
  hk_owned : NoDup (owned ht);
  hk_live : list_to_set (owned ht) ⊆ live m;
  hk_keysize k : valid k -> length k = keySize ht
}.

(** No more than four elements to a bucket, unless the table has its full size. *)
Definition load_ok (ht : HashTableRec) : Prop := elements ht <= 4 * 2 ^ bucketBits ht ∨ bucketBits ht = MAXHASHSIZE.

Definition ht_ok (ht : HashTableRec) (m : Mem) : Prop := ht_core ht m ∧ load_ok ht.

(** Blocks of memory that belong to others. *)
Definition others (ht : HashTableRec) (m : Mem) : gset nat := live m ∖ list_to_set (owned ht).

Lemma placed_bucket bits b k :
  0 <= bits < 32 -> placed bits b -> ∃ l, b !! Z.to_nat (hash k bits) = Some l ∧ Z.of_nat (Z.to_nat (hash k bits)) = hash k bits.
Proof.
  intros Hb [Hl _]. pose proof (hash_range k bits Hb) as Hr.
  destruct (b !! Z.to_nat (hash k bits)) as [l|] eqn:E; [exists l; split; [done|lia]|]. apply lookup_ge_None in E. lia.
Qed.

Lemma placed_insert bits b i l l' :
  placed bits b -> b !! i = Some l ->
  (∀ e, e ∈ l' -> e ∈ l ∨ (Z.of_nat i = hash (bkey e) bits ∧ valid (bkey e))) -> placed bits (<[i := l']> b).
Proof.
  intros [Hlen Hp] Hi Hl'. split; [by rewrite length_insert|]. intros j k e Hj He.
  apply list_lookup_insert_Some in Hj as [(<- & -> & _)|[_ Hj]]; [|by apply (Hp j k)].
  destruct (Hl' e He) as [?|?]; [by apply (Hp i l)|done].
Qed.

Lemma add_front_ok bits b e :
  0 <= bits < 32 -> placed bits b -> valid (bkey e) ->
  ∃ b', add_front b (hash (bkey e) bits) e = Ok b' ∧ placed bits b' ∧ concat b' ≡ₚ e :: concat b.
Proof.
  intros Hb Hp Hv. destruct (placed_bucket bits b (bkey e) Hb Hp) as (l & Hl & Hi). unfold add_front. rewrite Hl.
  cbn [of_option mbind result_bind]. eexists. split; [done|]. split.
  - apply (placed_insert _ _ _ l); [done|done|]. intros x. rewrite elem_of_cons. intros [->|?]; auto.
  - destruct (buckets_insert b _ l (e :: l) Hl) as (rest & -> & ->). done.
Qed.

Lemma redistribute_ok bits l : ∀ b,
  0 <= bits < 32 -> placed bits b -> Forall (fun e => valid (bkey e)) l ->
  ∃ b', redistribute hash bits l b = Ok b' ∧ placed bits b' ∧ concat b' ≡ₚ l ++ concat b.
Proof.
  induction l as [|e l IH]; intros b Hb Hp Hv; simpl; [by eexists|]. apply Forall_cons in Hv as [Hve Hv].
  destruct (add_front_ok bits b e Hb Hp Hve) as (b1 & -> & Hp1 & E1). cbn [mbind result_bind].
  destruct (IH b1 Hb Hp1 Hv) as (b2 & -> & Hp2 & E2). eexists. split; [done|]. split; [done|].
  rewrite E2, E1. symmetry. apply Permutation_middle.
Qed.

Lemma placed_empty bits : 0 <= bits -> placed bits (replicate (Z.to_nat (Z.shiftl 1 bits)) []).
Proof.
  intros Hb. rewrite Z.shiftl_mul_pow2 by done. split; [rewrite length_replicate; lia|].
  intros i l e Hi He. apply lookup_replicate in Hi as [-> _]. by apply elem_of_nil in He.
Qed.

Lemma placed_valid bits b : placed bits b -> Forall (fun e => valid (bkey e)) (concat b).
Proof.
  intros [_ Hp]. apply Forall_forall. intros e He. apply list_elem_of_In, in_concat in He as (l & Hl & He).
  apply list_elem_of_In, list_elem_of_lookup in Hl as [i Hi]. apply list_elem_of_In in He. by apply (Hp i l e).
Qed.

(** ** Growing *)

Lemma double_size_ok ht m :
  ht_core ht m -> bucketBits ht < MAXHASHSIZE ->
  ∃ ok ht' m', double_size hash ht m = Ok (ok, ht', m') ∧ mem_ok m' ∧ (may_fail (moracle m') -> may_fail (moracle m)) ∧
    if ok : bool then
      ht_core ht' m' ∧ table ht' = table ht ∧ others ht' m' = others ht m ∧ elements ht' = elements ht ∧
      bucketBits ht' = bucketBits ht + 1
    else ht' = ht ∧ live m' = live m ∧ may_fail (moracle m).
Proof.
  intros [Hm Hb Hp Hk Hn Ho Hl Hks] Hbits. unfold INITHASHSIZE, MAXHASHSIZE in *. unfold double_size.
  destruct (malloc_ok m Hm) as (p & m1 & -> & Hm1 & Hlive & Hmono). destruct p as [b|].
  2: { destruct Hlive as [Hlive Hf]. do 3 eexists. split; [done|]. by split_and!. }
  destruct Hlive as [Hnb Hlive].
  destruct (redistribute_ok (bucketBits ht + 1) (entries ht) (replicate (Z.to_nat (Z.shiftl 1 (bucketBits ht + 1))) []))
    as (new & Enew & Hpn & Pn); [lia|apply placed_empty; lia|by eapply placed_valid|].
  unfold entries in Enew. rewrite Enew. cbn [mbind result_bind]. rewrite concat_replicate_nil, app_nil_r in Pn.
  assert (Hbb : buckets_block ht ∈ live m) by (apply Hl; unfold owned; set_solver).
  destruct (free_ok m1 (buckets_block ht)) as (m2 & -> & Hm2 & Hlive2 & Eo2); [set_solver|done|]. cbn [mbind result_bind].
  do 3 eexists. split; [done|]. split; [done|]. split; [by rewrite Eo2|].
  set (ht' := mkHT _ _ _ _ _ _ new). assert (Pe : entries ht' ≡ₚ entries ht) by exact Pn.
  unfold owned in *. apply NoDup_cons in Ho as [Ho1 Ho2]. rewrite list_to_set_cons in Hl.
  set (B := list_to_set (entries ht ≫= blocks) : gset nat) in *.
  assert (HB : ∀ x, x ∈ B <-> x ∈ entries ht ≫= blocks) by (intros; apply elem_of_list_to_set).
  assert (Pb : entries ht' ≫= blocks ≡ₚ entries ht ≫= blocks) by by rewrite Pe.
  assert (HB' : list_to_set (owned ht') = {[ b ]} ∪ B).
  { unfold owned, B. rewrite list_to_set_cons. f_equal. by apply list_to_set_perm_L. }
  split_and!; [split|..]; try done.
  - unfold INITHASHSIZE, MAXHASHSIZE, ht'. simpl. lia.
  - by rewrite Pe.
  - rewrite Pe. exact Hn.
  - unfold owned. rewrite Pb. simpl. apply NoDup_cons. split; [|done]. rewrite <- HB. intros Hin. apply Hnb, Hl. apply elem_of_union. by right.
  - rewrite HB', Hlive2, Hlive. rewrite <- HB in Ho1. clear -Ho1 Hl Hnb Hbb. set_solver.
  - apply tab_perm; [by rewrite Pe|done].
  - unfold others. rewrite HB', Hlive2, Hlive. unfold owned. rewrite list_to_set_cons. fold B. rewrite <- HB in Ho1. set_solver.
Qed.

(** ** Insertion *)

(** The blocks of a new element [e] were taken from memory [m]. *)
Record taken (m m' : Mem) (e : BucketRec) : Prop := {
  tk_mem : mem_ok m';
  tk_nodup : NoDup (blocks e);
  tk_new a : a ∈ blocks e -> a ∉ live m;
  tk_live : live m' = list_to_set (blocks e) ∪ live m;
  tk_fail : may_fail (moracle m') -> may_fail (moracle m)
}.

Lemma out_of_memory_ok ht m m' e :
  taken m m' e ->
  ∃ m2, out_of_memory ht m' (self e) (Some (key_block e)) (data_block e) = Ok (None, ht, m2) ∧ mem_ok m2 ∧
    live m2 = live m ∧ moracle m2 = moracle m'.
Proof.
  intros [Hm Hd Hnew Hl _]. unfold out_of_memory, blocks in *. simpl in *.
  apply NoDup_cons in Hd as [Hd1 Hd]. apply NoDup_cons in Hd as [Hd2 _].
  destruct (free_ok m' (key_block e)) as (m1 & -> & H1 & L1 & O1); [set_solver|done|]. cbn [mbind result_bind].
  destruct (data_block e) as [d|]; simpl in *.
  - destruct (free_ok m1 d) as (m2 & E2 & H2 & L2 & O2); [set_solver|done|]. simpl in E2. rewrite E2. cbn [mbind result_bind].
    destruct (free_ok m2 (self e)) as (m3 & E3 & H3 & L3 & O3); [set_solver|done|]. simpl in E3. rewrite E3. cbn [mbind result_bind].
    eexists. split; [done|]. split_and!; [done| |congruence]. rewrite L3, L2, L1, Hl.
    assert (self e ∉ live m ∧ key_block e ∉ live m ∧ d ∉ live m) as (? & ? & ?) by (split_and!; apply Hnew; set_solver).
    set_solver.
  - cbn [mbind result_bind].
    destruct (free_ok m1 (self e)) as (m3 & E3 & H3 & L3 & O3); [set_solver|done|]. simpl in E3. rewrite E3. cbn [mbind result_bind].
    eexists. split; [done|]. split_and!; [done| |congruence]. rewrite L3, L1, Hl.
    assert (self e ∉ live m ∧ key_block e ∉ live m) as (? & ?) by (split_and!; apply Hnew; set_solver).
    set_solver.
Qed.

(** The table with a new element in front of its bucket. *)
Lemma insert_core ht m m' e bucket i :
  ht_core ht m -> taken m m' e -> valid (bkey e) -> table ht !! bkey e = None ->
  buckets ht !! i = Some bucket -> Z.of_nat i = hash (bkey e) (bucketBits ht) ->
  let ht' := set_contents ht (elements ht + 1) (<[i := e :: bucket]> (buckets ht)) in
  ht_core ht' m' ∧ table ht' = <[bkey e := value_ptr e]> (table ht) ∧ others ht' m' = others ht m.
Proof.
  intros [Hm Hb Hp Hk Hn Ho Hl Hks] [Hm' Hd Hnew Hlive _] Hv Hnone Hi Hih ht'.
  assert (Pe : entries ht' ≡ₚ e :: entries ht).
  { unfold entries, ht'. simpl. destruct (buckets_insert _ i bucket (e :: bucket) Hi) as (rest & -> & ->). done. }
  assert (Hkey : bkey e ∉ bkey <$> entries ht) by (by apply tab_None_inv).
  assert (Hk' : NoDup (bkey <$> entries ht')) by (rewrite Pe; simpl; by constructor).
  assert (Pb : owned ht' ≡ₚ blocks e ++ owned ht).
  { unfold owned. rewrite Pe, bind_cons. apply Permutation_middle. }
  assert (Hset : list_to_set (owned ht') = (list_to_set (blocks e) ∪ list_to_set (owned ht) : gset nat)).
  { rewrite (list_to_set_perm_L _ _ Pb). apply list_to_set_app_L. }
  assert (Hdis : ∀ a, a ∈ blocks e -> a ∉ owned ht).
  { intros a Ha Ha'. apply (Hnew a Ha), Hl. by apply elem_of_list_to_set. }
  split_and!; [split|..]; try done.
  - apply (placed_insert _ _ _ bucket); [done|done|]. intros x. rewrite elem_of_cons. intros [->|?]; auto.
  - rewrite Pe. simpl. rewrite Hn. lia.
  - rewrite Pb. by apply NoDup_app.
  - rewrite Hset, Hlive. clear -Hl. set_solver.
  - unfold table. rewrite (tab_perm _ _ Hk' Pe). apply tab_cons.
  - unfold others. rewrite Hset, Hlive. apply set_eq. intros x.
    rewrite !elem_of_difference, !elem_of_union, !elem_of_list_to_set. specialize (Hnew x). tauto.
Qed.

(** Success yields a value in memory that was free; failure changes nothing. *)
Definition added (ht ht' : HashTableRec) (m m' : Mem) (k : key) (r : option HtPtr) : Prop :=
  ht_ok ht' m' ∧ others ht' m' = others ht m ∧
  match r with
  | Some p => table ht' = <[k := p]> (table ht) ∧ (match p with DataPtr a | KeyEnd a => a end ∉ live m)
  | None => ht' = ht ∧ live m' = live m ∧ may_fail (moracle m)
  end.

Lemma core_live ht m m' : ht_core ht m -> mem_ok m' -> live m' = live m -> ht_core ht m'.
Proof. intros [] Hm E. split; rewrite ?E; done. Qed.

Lemma not_added ht m m' k :
  ht_ok ht m -> mem_ok m' -> live m' = live m -> may_fail (moracle m) -> added ht ht m m' k None.
Proof. intros [Hc Hl] Hm E Hf. split_and!; [split; [by apply (core_live ht m)|done]|unfold others; by rewrite E|done..]. Qed.

(** Growing and answering, once the element is in place. *)
Lemma ht_add_finish ht m m' e bucket i :
  let k := bkey e in let ht' := set_contents ht (elements ht + 1) (<[i := e :: bucket]> (buckets ht)) in
  ht_ok ht m -> taken m m' e -> valid k -> table ht !! k = None ->
  buckets ht !! i = Some bucket -> Z.of_nat i = hash k (bucketBits ht) ->
  ∃ r ht2 m2,
    (if (4 * Z.shiftl 1 (bucketBits ht') <? elements ht') && (bucketBits ht' <? MAXHASHSIZE) then
       '(ok, ht'', m2) ← double_size hash ht' m';
       if ok : bool then Ok (Some (value_ptr e), ht'', m2)
       else out_of_memory ht m2 (self e) (Some (key_block e)) (data_block e)
     else Ok (Some (value_ptr e), ht', m')) = Ok (r, ht2, m2) ∧ added ht ht2 m m2 k r.
Proof.
  intros k ht' [Hc Hload] Ht Hv Hnone Hi Hih.
  destruct (insert_core ht m m' e bucket i Hc Ht Hv Hnone Hi Hih) as (Hc' & Htab & Hoth). fold ht' in Hc', Htab, Hoth.
  assert (Hfresh : match value_ptr e with DataPtr a | KeyEnd a => a end ∉ live m).
  { apply (tk_new _ _ _ Ht). unfold value_ptr, blocks. destruct (data_block e); simpl; set_solver. }
  rewrite Z.shiftl_mul_pow2 by (pose proof (hk_bits _ _ Hc'); unfold INITHASHSIZE in *; lia).
  destruct (Z.ltb_spec (4 * (1 * 2 ^ bucketBits ht')) (elements ht')), (Z.ltb_spec (bucketBits ht') MAXHASHSIZE); cbn [andb].
  2,3,4: do 3 eexists; split; [done|]; split_and!; [split; [done|]|done|done|done];
         pose proof (hk_bits _ _ Hc'); unfold load_ok; lia.
  destruct (double_size_ok ht' m' Hc') as (ok & ht2 & m2 & -> & Hm2 & Hmono & Hres); [done|]. cbn [mbind result_bind].
  destruct ok.
  - destruct Hres as (Hc2 & Etab & Eoth & Eel & Ebits). do 3 eexists. split; [done|]. split_and!; [split; [done|]|..].
    + left. rewrite Eel, Ebits. unfold ht'. cbn [elements set_contents bucketBits]. rewrite Z.pow_add_r by (pose proof (hk_bits _ _ Hc); unfold INITHASHSIZE in *; lia).
      pose proof (hk_bits _ _ Hc). assert (0 < 2 ^ bucketBits ht) by (apply Z.pow_pos_nonneg; unfold INITHASHSIZE in *; lia).
      destruct Hload as [Hload|Hload]; [lia|]. change (bucketBits ht') with (bucketBits ht) in *. lia.
    + by rewrite Eoth.
    + by rewrite Etab.
    + done.
  - destruct Hres as (_ & El & Hf).
    assert (Ht2 : taken m m2 e). { destruct Ht. split; rewrite ?El; auto. }
    destruct (out_of_memory_ok ht m m2 e Ht2) as (m3 & -> & Hm3 & L3 & O3). do 3 eexists. split; [done|].
    apply not_added; try done. by apply (tk_fail _ _ _ Ht).
Qed.

(** The three allocations of [ht_add]. *)
Lemma ht_add_ok ht m k :
  ht_ok ht m -> valid k -> table ht !! k = None ->
  ∃ r ht2 m2, ht_add hash ht k m = Ok (r, ht2, m2) ∧ added ht ht2 m m2 k r.
Proof.
  intros Hok Hv Hnone. pose proof Hok as [Hc _]. unfold ht_add.
  assert (Hbits : 0 <= bucketBits ht < 32) by (pose proof (hk_bits _ _ Hc); unfold INITHASHSIZE, MAXHASHSIZE in *; lia).
  destruct (placed_bucket _ _ k Hbits (hk_placed _ _ Hc)) as (bucket & Hi & Hih). rewrite Hi. cbn [of_option mbind result_bind].
  destruct (malloc_ok m (hk_mem _ _ Hc)) as ([s|] & m1 & -> & Hm1 & Hl1 & F1).
  2: { destruct Hl1 as [E Hf]. do 3 eexists. split; [done|]. by apply not_added. }
  destruct Hl1 as [Hs E1]. destruct (malloc_ok m1 Hm1) as ([kb|] & m2 & -> & Hm2 & Hl2 & F2).
  2: { destruct Hl2 as [E Hf]. unfold out_of_memory. change (free m2 None) with (Ok m2). cbn [mbind result_bind].
       change (free m2 None) with (Ok m2). cbn [mbind result_bind].
       destruct (free_ok m2 s) as (m3 & E3 & H3 & L3 & O3); [set_solver|done|]. simpl in E3. rewrite E3. cbn [mbind result_bind].
       do 3 eexists. split; [done|]. apply not_added; auto. rewrite L3, E, E1. set_solver. }
  destruct Hl2 as [Hkb E2]. destruct (malloc_ok m2 Hm2) as (d & m3 & -> & Hm3 & Hl3 & F3).
  assert (Ekey : take (keySize ht) k = k) by (apply take_ge; rewrite (hk_keysize _ _ Hc k Hv); lia). rewrite Ekey.
  set (e := mkBucket s k kb d).
  assert (Ht : taken m m3 e).
  { assert (s <> kb ∧ kb ∉ live m) as [? ?] by set_solver.
    split; auto; unfold e, blocks; simpl; destruct d as [d|]; simpl in *.
    - destruct Hl3 as [Hd _]. repeat constructor; set_solver.
    - repeat constructor; set_solver.
    - destruct Hl3 as [Hd _]. set_solver.
    - set_solver.
    - destruct Hl3 as [Hd E3]. rewrite E3, E2, E1. set_solver.
    - destruct Hl3 as [E3 _]. rewrite E3, E2, E1. set_solver. }
  destruct (negb (dataSize ht =? 0) && bool_decide (d = None)) eqn:Ed.
  { zbool. destruct d; [by case_bool_decide|]. destruct Hl3 as [_ Hf].
    destruct (out_of_memory_ok ht m m3 e Ht) as (m4 & E4 & Hm4 & L4 & O4). simpl in E4. rewrite E4.
    do 3 eexists. split; [done|]. apply not_added; auto. }
  by apply (ht_add_finish ht m m3 e bucket).
Qed.

(** ** Lookup and removal *)

Lemma find_elem_Some k l b e a :
  find_elem compare k l = Some (b, e, a) -> l = b ++ e :: a ∧ compare k (bkey e) = 0.
Proof.
  revert b. induction l as [|x l IH]; intros b; simpl; [done|]. destruct (Z.eqb_spec (compare k (bkey x)) 0).
  - by intros [= <- <- <-].
  - destruct (find_elem compare k l) as [[[b' e'] a']|]; simpl; [|done]. intros [= <- -> ->].
    destruct (IH b' eq_refl) as [-> ?]. done.
Qed.

Lemma find_elem_None k l : find_elem compare k l = None -> ∀ e, e ∈ l -> compare k (bkey e) <> 0.
Proof.
  induction l as [|x l IH]; simpl; [by intros _ e ?%elem_of_nil|]. destruct (Z.eqb_spec (compare k (bkey x)) 0); [done|].
  destruct (find_elem compare k l) as [[[b' e'] a']|]; simpl; [done|]. intros _ e. rewrite elem_of_cons.
  intros [->|He]; [done|]. by apply IH.
Qed.

(** What the search in the bucket of a key finds. *)
Lemma find_elem_ok ht m k :
  ht_core ht m -> valid k ->
  ∃ bucket, buckets ht !! Z.to_nat (hash k (bucketBits ht)) = Some bucket ∧
    match find_elem compare k bucket with
    | Some (b, e, a) => bucket = b ++ e :: a ∧ bkey e = k ∧ table ht !! k = Some (value_ptr e)
    | None => table ht !! k = None
    end.
Proof.
  intros Hc Hv. pose proof Hc as [Hm Hb Hp Hk _ _ _ _].
  assert (Hbits : 0 <= bucketBits ht < 32) by (unfold INITHASHSIZE, MAXHASHSIZE in *; lia).
  destruct (placed_bucket _ _ k Hbits Hp) as (bucket & Hi & Hih). exists bucket. split; [done|].
  assert (Hin : ∀ e, e ∈ bucket -> e ∈ entries ht ∧ valid (bkey e)).
  { intros e He. split; [|by apply (proj2 Hp _ _ _ Hi He)]. unfold entries. apply list_elem_of_In, in_concat.
    exists bucket. split; [eapply list_elem_of_In, list_elem_of_lookup_2, Hi|by apply list_elem_of_In]. }
  destruct (find_elem compare k bucket) as [[[b e] a]|] eqn:Ef.
  - apply find_elem_Some in Ef as [-> Ec]. destruct (Hin e) as [He Hve]; [set_solver|].
    apply compare_eq in Ec as ->; [|done..]. split_and!; [done..|]. by apply tab_Some.
  - pose proof (find_elem_None _ _ Ef) as Hne. apply tab_None. intros Hkin.
    apply list_elem_of_fmap in Hkin as (e & Ek & He). unfold entries in He.
    apply list_elem_of_In, in_concat in He as (l & Hl & He). apply list_elem_of_In, list_elem_of_lookup in Hl as [j Hj].
    apply list_elem_of_In in He. destruct (proj2 Hp j l e Hj He) as [Hjh Hve].
    assert (j = Z.to_nat (hash k (bucketBits ht))) as -> by (rewrite Ek; lia).
    rewrite Hi in Hj. injection Hj as <-. apply (Hne e He). by apply compare_eq.
Qed.

Lemma ht_find_ok ht m k : ht_ok ht m -> valid k -> ht_find hash compare ht k = Ok (table ht !! k).
Proof.
  intros [Hc _] Hv. unfold ht_find. destruct (find_elem_ok ht m k Hc Hv) as (bucket & -> & Hf).
  cbn [of_option mbind result_bind]. destruct (find_elem compare k bucket) as [[[b e] a]|].
  - destruct Hf as (_ & _ & ->). done.
  - by rewrite Hf.
Qed.

(** Removal frees the blocks of the element, and nothing else. *)
Lemma ht_remove_ok ht m k :
  ht_ok ht m -> valid k ->
  ∃ ht' m', ht_remove hash compare ht k m = Ok (ht', m') ∧ ht_ok ht' m' ∧
    table ht' = delete k (table ht) ∧ others ht' m' = others ht m ∧ moracle m' = moracle m.
Proof.
  intros [Hc Hload] Hv. unfold ht_remove. destruct (find_elem_ok ht m k Hc Hv) as (bucket & Hi & Hf). rewrite Hi.
  cbn [of_option mbind result_bind]. destruct (find_elem compare k bucket) as [[[b e] a]|].
  2: { do 2 eexists. split; [done|]. split_and!; try done. by rewrite delete_id. }
  destruct Hf as (-> & Ek & Htab). pose proof Hc as [Hm Hb Hp Hk Hn Ho Hl Hks].
  set (n := Z.to_nat (hash k (bucketBits ht))) in *.
  set (ht' := set_contents ht (elements ht - 1) (<[n := b ++ a]> (buckets ht))).
  assert (Pe : entries ht ≡ₚ e :: entries ht').
  { unfold entries, ht'. simpl. destruct (buckets_insert _ n (b ++ e :: a) (b ++ a) Hi) as (rest & -> & ->).
    by rewrite <- (Permutation_middle b a e). }
  assert (Pb : owned ht ≡ₚ blocks e ++ owned ht').
  { unfold owned. rewrite Pe, bind_cons. apply Permutation_middle. }
  rewrite Pb in Ho. apply NoDup_app in Ho as (Hd1 & Hdis & Hd2).
  rewrite (list_to_set_perm_L _ _ Pb), list_to_set_app_L in Hl.
  assert (Ht : taken (mkMem (moracle m) (live m ∖ list_to_set (blocks e)) (fresh_block m)) m e).
  { split; try done; cbn [live].
    - intros x Hx. rewrite elem_of_difference, elem_of_list_to_set. tauto.
    - apply set_eq. intros x. destruct (decide (x ∈ (list_to_set (blocks e) : gset nat))); set_solver. }
  destruct (out_of_memory_ok ht _ m e Ht) as (m' & E' & Hm' & L' & O'). unfold out_of_memory in E'.
  destruct (free m (Some (key_block e))) as [m1|]; cbn [mbind result_bind] in *; [|done].
  destruct (free m1 (data_block e)) as [m2|]; cbn [mbind result_bind] in *; [|done].
  destruct (free m2 (Some (self e))) as [m3|]; cbn [mbind result_bind] in *; [|done]. injection E' as ->.
  do 2 eexists. split; [done|]. fold ht'. rewrite Pe in Hk. simpl in Hk. apply NoDup_cons in Hk as [Hk1 Hk2].
  split_and!; [split; [split|]|..]; try done.
  - apply (placed_insert _ _ _ (b ++ e :: a)); [done|done|]. intros x. rewrite !elem_of_app, elem_of_cons. tauto.
  - change (elements ht') with (elements ht - 1). rewrite Hn, Pe. simpl. lia.
  - rewrite L'. cbn [live]. intros x Hx. apply elem_of_difference. split; [set_solver|].
    rewrite elem_of_list_to_set. intros Hxe. apply (Hdis x Hxe). by apply elem_of_list_to_set in Hx.
  - unfold load_ok in *. simpl. lia.
  - unfold table. rewrite (tab_perm (entries ht) (e :: entries ht')), tab_cons, Ek by (try done; by rewrite Pe; constructor).
    symmetry. apply delete_insert_id, tab_None. by rewrite <- Ek.
  - unfold others. rewrite L', (list_to_set_perm_L _ _ Pb), list_to_set_app_L. cbn [live]. set_solver.
Qed.

(** ** Creation and destruction *)

Lemma ht_create_ok size dsize m :
  mem_ok m -> (∀ k, valid k -> length k = size) ->
  match ht_create size dsize m with
  | (Some ht, r) => ∃ m', r = Ok m' ∧ ht_ok ht m' ∧ table ht = ∅ ∧ ht_self ht ∈ others ht m'
  | (None, r) => ∃ m', r = Ok m' ∧ live m' = live m ∧ may_fail (moracle m)
  end.
Proof.
  intros Hm Hsize. unfold ht_create. destruct (malloc_ok m Hm) as ([a|] & m1 & -> & Hm1 & Hl1 & F1).
  2: { destruct Hl1 as [E Hf]. by eexists. }
  destruct Hl1 as [Ha E1]. destruct (malloc_ok m1 Hm1) as ([b|] & m2 & -> & Hm2 & Hl2 & F2).
  2: { destruct Hl2 as [E Hf]. destruct (free_ok m2 a) as (m3 & -> & H3 & L3 & O3); [set_solver|done|].
       eexists. split; [done|]. split; [rewrite L3, E, E1; set_solver|auto]. }
  destruct Hl2 as [Hb E2]. eexists. split; [done|]. set (ht := mkHT _ _ _ _ _ _ _).
  assert (Ee : entries ht = []) by apply concat_replicate_nil.
  split; [split; [split|]|split]; try done.
  - apply (placed_empty INITHASHSIZE). done.
  - rewrite Ee. constructor.
  - unfold owned. rewrite Ee. apply NoDup_singleton.
  - unfold owned. rewrite Ee. simpl. set_solver.
  - by left.
  - unfold others, owned. rewrite Ee. simpl. set_solver.
Qed.

Lemma free_elems_ok l : ∀ m,
  mem_ok m -> NoDup (self <$> l) -> list_to_set (self <$> l) ⊆ live m ->
  ∃ m', free_elems m l = Ok m' ∧ mem_ok m' ∧ live m' = live m ∖ list_to_set (self <$> l).
Proof.
  induction l as [|e l IH]; intros m Hm Hd Hl; simpl in *.
  - eexists. split; [done|]. split; [done|set_solver].
  - apply NoDup_cons in Hd as [Hnin Hd]. destruct (free_ok m (self e)) as (m1 & E & H1 & L1 & _); [set_solver|done|].
    simpl in E. rewrite E. cbn [mbind result_bind].
    destruct (IH m1 H1 Hd) as (m2 & -> & H2 & L2).
    { rewrite L1. intros x Hx. apply elem_of_difference. split; [set_solver|]. apply elem_of_list_to_set in Hx. set_solver. }
    eexists. split; [done|]. split; [done|]. rewrite L2, L1. set_solver.
Qed.

Lemma selfs_owned l x : x ∈ self <$> l -> x ∈ l ≫= blocks.
Proof. intros (e & -> & He)%list_elem_of_fmap. apply list_elem_of_bind. exists e. split; [by left|done]. Qed.

Lemma selfs_NoDup l : NoDup (l ≫= blocks) -> NoDup (self <$> l).
Proof.
  induction l as [|e l IH]; [constructor|]. rewrite bind_cons, fmap_cons. intros (_ & Hdis & Hd)%NoDup_app.
  constructor; [|by apply IH]. intros Hx%selfs_owned. apply (Hdis (self e)); [by left|done].
Qed.

Lemma not_self l e x : NoDup (l ≫= blocks) -> e ∈ l -> x ∈ blocks e -> x <> self e -> x ∉ self <$> l.
Proof.
  intros Ho He Hx Hne Hself. apply list_elem_of_split in He as (l1 & l2 & ->). rewrite bind_app, bind_cons in Ho.
  rewrite (Permutation_app_swap_app (l1 ≫= blocks)) in Ho. apply NoDup_app in Ho as (_ & Hdis & _).
  apply (Hdis x Hx). rewrite <- bind_app. apply selfs_owned.
  rewrite fmap_app, fmap_cons, elem_of_app, elem_of_cons in Hself. rewrite fmap_app, elem_of_app. tauto.
Qed.

Lemma blocks_NoDup l e : NoDup (l ≫= blocks) -> e ∈ l -> NoDup (blocks e).
Proof.
  intros Ho He. apply list_elem_of_split in He as (l1 & l2 & ->).
  rewrite bind_app, bind_cons in Ho. apply NoDup_app in Ho as (_ & _ & Ho). by apply NoDup_app in Ho as (? & _ & _).
Qed.

(** [ht_destroy] frees the elements and the buckets, but no key and no data. *)
Lemma ht_destroy_leaks ht m :
  ht_ok ht m ->
  ∃ m', ht_destroy ht m = Ok m' ∧
    ∀ e, e ∈ entries ht -> key_block e ∈ live m' ∧ ∀ d, data_block e = Some d -> d ∈ live m'.
Proof.
  intros [[Hm _ _ _ _ Ho Hl _] _]. unfold owned in *. apply NoDup_cons in Ho as [Hbb Ho].
  rewrite list_to_set_cons in Hl. unfold ht_destroy. fold (entries ht).
  assert (Hin : ∀ x, x ∈ entries ht ≫= blocks -> x ∈ live m).
  { intros x Hx. apply Hl. rewrite elem_of_union, elem_of_list_to_set. by right. }
  destruct (free_elems_ok (entries ht) m Hm (selfs_NoDup _ Ho)) as (m1 & -> & Hm1 & L1).
  { intros x Hx%elem_of_list_to_set%selfs_owned. auto. }
  cbn [mbind result_bind].
  destruct (free_ok m1 (buckets_block ht)) as (m2 & -> & Hm2 & L2 & _); [|done|].
  { rewrite L1. apply elem_of_difference. split; [set_solver|]. rewrite elem_of_list_to_set. intros Hx. by apply Hbb, selfs_owned. }
  eexists. split; [done|]. intros e He.
  assert (Hkeep : ∀ x, x ∈ blocks e -> x <> self e -> x ∈ live m2).
  { intros x Hx Hne. assert (Hxo : x ∈ entries ht ≫= blocks) by (apply list_elem_of_bind; by exists e).
    rewrite L2, L1, !elem_of_difference, elem_of_list_to_set, elem_of_singleton. split_and!; [auto|by apply (not_self _ e)|].
    intros ->. by apply Hbb. }
  pose proof (blocks_NoDup _ _ Ho He) as Hd. unfold blocks in Hd, Hkeep. apply NoDup_cons in Hd as [Hs _].
  split; [apply Hkeep; set_solver|]. intros d Ed. rewrite Ed in *. apply Hkeep; set_solver.
Qed.

End Table.

(** ** The theorem *)

(** C33: against any hash function that stays in its range and any comparison that is
    zero on equal keys only, a hash table is a finite map.  [ht_create] makes the empty
    one; [ht_find] looks up; [ht_add] of a new key adds it with a value in fresh memory, or,
    if memory was refused at any point, also while the table grows, leaves table and
    memory as they were; [ht_remove] deletes.  The invariant, no more than four elements to a
    bucket below the maximal size, is kept, no operation leaves an array or frees a
    block twice, and memory of others is not touched and none is lost. *)
Theorem ht_refines_map hash compare valid `{HF : !HashFunc hash compare valid} ht m k :
  ht_ok hash valid ht m -> valid k ->
  ht_find hash compare ht k = Ok (table ht !! k) ∧
  (table ht !! k = None ->
    ∃ r ht' m', ht_add hash ht k m = Ok (r, ht', m') ∧ added hash valid ht ht' m m' k r) ∧
  (∃ ht' m', ht_remove hash compare ht k m = Ok (ht', m') ∧ ht_ok hash valid ht' m' ∧
     table ht' = delete k (table ht) ∧ others ht' m' = others ht m).
Proof.
  intros Hok Hv. split_and!.
  - by apply (ht_find_ok hash compare valid ht m).
  - intros Hn. by apply (ht_add_ok hash compare valid).
  - destruct (ht_remove_ok hash compare valid ht m k Hok Hv) as (ht' & m' & E & ? & ? & ? & _).
    exists ht', m'. by split_and!.
Qed.

(** ** The hash functions of the file *)

Lemma bits_mask n : 0 <= n < 32 -> u32 (Z.lnot (Z.shiftl (-1) n)) = Z.ones n.
Proof.
  intros Hn. rewrite Z.shiftl_mul_pow2 by lia. unfold Z.lnot, Z.ones. rewrite Z.shiftl_mul_pow2 by lia.
  assert (2 ^ n <= 2 ^ 31) by (apply Z.pow_le_mono_r; lia). assert (0 < 2 ^ n) by (apply Z.pow_pos_nonneg; lia).
  rewrite u32_small; lia.
Qed.

Lemma memcmp_zero a b : length a = length b -> memcmp a b = 0 <-> a = b.
Proof.
  revert b. induction a as [|x a IH]; intros [|y b]; simpl; try done. intros [= Hl].
  destruct (Z.eqb_spec x y) as [->|Hne]; [rewrite (IH b Hl); split; [by intros ->|by intros [= ->]]|].
  split; [intros; lia|intros [= -> _]; done].
Qed.

#[export] Instance ht_generic_HashFunc n :
  HashFunc (ht_generic_hash n) (ht_generic_compare n) (fun k => length k = n).
Proof.
  split.
  - intros k bits Hb. unfold ht_generic_hash. rewrite bits_mask, Z.land_ones by lia. apply Z.mod_pos_bound.
    apply Z.pow_pos_nonneg; lia.
  - intros a b Ha Hb. unfold ht_generic_compare. rewrite !take_ge by lia. apply memcmp_zero. congruence.
Qed.

Definition byte (b : Z) : Prop := 0 <= b < 256.

Lemma xid_of_inj a b : length a = length b -> Forall byte a -> Forall byte b -> xid_of a = xid_of b -> a = b.
Proof.
  intros Hl Ha. revert b Hl. induction Ha as [|x a Hx Ha IH]; intros [|y b] Hl Hb E; simpl in *; try done.
  injection Hl as Hl. apply Forall_cons in Hb as [Hy Hb]. unfold byte in *.
  assert (x = y ∧ xid_of a = xid_of b) as [-> E'] by lia. f_equal. by apply IH.
Qed.

(** With a [HashResourceID] that stays in its range. *)
Lemma ht_resourceid_HashFunc HashResourceID :
  (∀ id bits, 0 <= bits < 32 -> 0 <= HashResourceID id bits < 2 ^ bits) ->
  HashFunc (ht_resourceid_hash HashResourceID) ht_resourceid_compare (fun k => length k = 4%nat ∧ Forall byte k).
Proof.
  intros HR. split; [intros; by apply HR|]. intros a b [La Ha] [Lb Hb]. unfold ht_resourceid_compare.
  destruct (Z.ltb_spec (xid_of a) (xid_of b)), (Z.ltb_spec (xid_of b) (xid_of a));
    (split; [|intros ->; lia]); try done.
  intros _. apply xid_of_inj; [congruence|done|done|lia].
Qed.

(** A table with two keys, one of them removed later. *)
Definition demo_mem : Mem := mkMem [] ∅ 0.
Definition demo_ht : HashTableRec * Mem :=
  match ht_create 2 8 demo_mem with
  | (Some ht, Ok m) => (ht, m)
  | _ => (mkHT 0 0 0 0 0 0 [], demo_mem)
  end.

Lemma ht_refines_map_witness :
  ht_find (ht_generic_hash 2) (ht_generic_compare 2) demo_ht.1 [7; 9] = Ok (table demo_ht.1 !! [7; 9]) ∧
  (table demo_ht.1 !! [7; 9] = None ->
    ∃ r ht' m', ht_add (ht_generic_hash 2) demo_ht.1 [7; 9] demo_ht.2 = Ok (r, ht', m') ∧
      added (ht_generic_hash 2) (fun k => length k = 2%nat) demo_ht.1 ht' demo_ht.2 m' [7; 9] r) ∧
  (∃ ht' m', ht_remove (ht_generic_hash 2) (ht_generic_compare 2) demo_ht.1 [7; 9] demo_ht.2 = Ok (ht', m') ∧
     ht_ok (ht_generic_hash 2) (fun k => length k = 2%nat) ht' m' ∧
     table ht' = delete [7; 9] (table demo_ht.1) ∧ others ht' m' = others demo_ht.1 demo_ht.2).
Proof.
  apply (ht_refines_map (ht_generic_hash 2) (ht_generic_compare 2) (fun k => length k = 2%nat)); [|done].
  pose proof (ht_create_ok (ht_generic_hash 2) (ht_generic_compare 2) (fun k => length k = 2%nat) 2 8 demo_mem) as H.
  unfold demo_ht. destruct H as (m' & E & Hok & _); [by intros a ?%not_elem_of_empty|done|].
  simpl in E. injection E as <-. exact Hok.
Defined.

(** The value of the first key that is added is the first data block. *)
Example ht_add_evaluates :
  match ht_add (ht_generic_hash 2) demo_ht.1 [7; 9] demo_ht.2 with
  | Ok (Some (DataPtr d), ht, _) => ht_find (ht_generic_hash 2) (ht_generic_compare 2) ht [7; 9] = Ok (Some (DataPtr d))
  | _ => False
  end.
Proof. by vm_compute. Qed.
