(* ===== verification/Callback.v ===== *)
(** * Callback: lists of callbacks (dix/dixutils.c)

    Anyone may register a procedure on a list and the server calls all of them at certain
    points.  A callback may itself register, delete and call callbacks, on the same list
    too, so deletions during a call are only marked and done at its end.  Cells have
    addresses: a walk that follows a pointer to a freed cell is an error. *)

From S2P Require Import Prelude Atom ResourceDB.

(** ** Data (include/dixstruct.h) *)

Record CallbackRec := mkCB { cb_addr : nat; proc : Z; cb_data : Z; cb_deleted : bool }.

Record CallbackListRec := mkCBL {
  cbl_addr : nat; inCallback : Z; cbl_deleted : bool; numDeleted : Z; chain : list CallbackRec
}.

(** [lists] is the memory behind the variables of type [CallbackListPtr], by their address;
    a null pointer has no entry. *)
Record CBState := mkCBS {
  lists : gmap Z CallbackListRec; listsToCleanup : list (option Z); cb_fresh : nat; cb_mem : oracle
}.

Definition set_list (s : CBState) (p : Z) (l : CallbackListRec) : CBState :=
  mkCBS (<[p := l]> (lists s)) (listsToCleanup s) (cb_fresh s) (cb_mem s).

Definition set_chain (l : CallbackListRec) (n : Z) (c : list CallbackRec) : CallbackListRec :=
  mkCBL (cbl_addr l) (inCallback l) (cbl_deleted l) n c.

Definition set_inCallback (l : CallbackListRec) (n : Z) : CallbackListRec :=
  mkCBL (cbl_addr l) n (cbl_deleted l) (numDeleted l) (chain l).

Definition mark (c : CallbackRec) : CallbackRec := mkCB (cb_addr c) (proc c) (cb_data c) true.

(** [xalloc]: an address that was not used before. *)
Definition cb_alloc (s : CBState) : option nat * CBState :=
  let '(ok, o) := alloc (cb_mem s) in
  (if ok then Some (cb_fresh s) else None, mkCBS (lists s) (listsToCleanup s) (S (cb_fresh s)) o).

(** ** Registration *)

Definition _AddCallback (s : CBState) (p : Z) (callback data : Z) : result (bool * CBState) :=
  let '(a, s) := cb_alloc s in
  match a with
  | None => Ok (false, s)
  | Some a =>
      l ← of_option Dangling (lists s !! p);
      Ok (true, set_list s p (set_chain l (numDeleted l) (mkCB a callback data false :: chain l)))
  end.

(** The cells before the first match, it, and those after. *)
Fixpoint find_callback (callback data : Z) (c : list CallbackRec) : option (list CallbackRec * CallbackRec * list CallbackRec) :=
  match c with
  | [] => None
  | x :: c =>
      if (proc x =? callback) && (cb_data x =? data) then Some ([], x, c)
      else '(before, y, after) ← find_callback callback data c; Some (x :: before, y, after)
  end.

Definition _DeleteCallback (s : CBState) (p : Z) (callback data : Z) : result (bool * CBState) :=
  l ← of_option Dangling (lists s !! p);
  match find_callback callback data (chain l) with
  | Some (before, x, after) =>
      if negb (inCallback l =? 0)
      then Ok (true, set_list s p (set_chain l (numDeleted l + 1) (before ++ mark x :: after)))
      else Ok (true, set_list s p (set_chain l (numDeleted l) (before ++ after)))
  | None => Ok (false, s)
  end.

(** ** The lists to clean up *)

(** The loop of [_DeleteCallbackList], which assigns where it should compare. *)
Fixpoint forget_slot (p : Z) (slots : list (option Z)) : list (option Z) :=
  match slots with
  | [] => []
  | _ :: slots => if negb (p =? 0) then None :: slots else None :: forget_slot p slots
  end.

Definition _DeleteCallbackList (s : CBState) (p : Z) : result CBState :=
  l ← of_option Dangling (lists s !! p);
  if negb (inCallback l =? 0) then
    Ok (set_list s p (mkCBL (cbl_addr l) (inCallback l) true (numDeleted l) (chain l)))
  else Ok (mkCBS (delete p (lists s)) (forget_slot p (listsToCleanup s)) (cb_fresh s) (cb_mem s)).

(** The first free slot, or a new one; [xnfrealloc] does not return without memory. *)
Fixpoint take_slot (p : Z) (slots : list (option Z)) : list (option Z) :=
  match slots with
  | [] => [Some p]
  | None :: slots => Some p :: slots
  | x :: slots => x :: take_slot p slots
  end.

Definition CreateCallbackList (s : CBState) (p : Z) : bool * CBState :=
  if p =? 0 then (false, s) else
  let '(a, s) := cb_alloc s in
  match a with
  | None => (false, s)
  | Some a =>
      (true, mkCBS (<[p := mkCBL a 0 false 0 []]> (lists s)) (take_slot p (listsToCleanup s)) (cb_fresh s) (cb_mem s))
  end.

(** ** Public procedures *)

Definition AddCallback (s : CBState) (p : Z) (callback data : Z) : result (bool * CBState) :=
  if p =? 0 then Ok (false, s) else
  let '(ok, s) := match lists s !! p with Some _ => (true, s) | None => CreateCallbackList s p end in
  if ok : bool then _AddCallback s p callback data else Ok (false, s).

Definition DeleteCallback (s : CBState) (p : Z) (callback data : Z) : result (bool * CBState) :=
  match lists s !! p with Some _ => _DeleteCallback s p callback data | None => Ok (false, s) end.

Definition DeleteCallbackList (s : CBState) (p : Z) : result CBState :=
  match lists s !! p with Some _ => _DeleteCallbackList s p | None => Ok s end.

(** ** Calling *)

(** The cell at an address, and the address of the next one. *)
Fixpoint cell_at (a : nat) (c : list CallbackRec) : option (CallbackRec * option nat) :=
  match c with
  | [] => None
  | x :: c => if decide (cb_addr x = a) then Some (x, cb_addr <$> head c) else cell_at a c
  end.

(** A field of the list behind the pointer [cbl]. *)
Definition deref (s : CBState) (p : Z) (cbl : nat) : result CallbackListRec :=
  l ← of_option Dangling (lists s !! p);
  if decide (cbl_addr l = cbl) then Ok l else Err Dangling.

(** The cells marked as deleted are freed, as long as [n] says that there are some. *)
Fixpoint sweep (n : Z) (c : list CallbackRec) : Z * list CallbackRec :=
  match c with
  | [] => (n, [])
  | x :: c =>
      if n =? 0 then (n, x :: c)
      else if cb_deleted x then sweep (n - 1) c
      else let '(n, c) := sweep n c in (n, x :: c)
  end.

Section Call.
(** The registered procedures: [run proc pcbl data call_data]. *)
Context (run : Z -> Z -> Z -> Z -> CBState -> result CBState).

(** The loop over the cells: those that were called, and the state after them. *)
Fixpoint call_loop (fuel : nat) (s : CBState) (p : Z) (cbl : nat) (cbr : option nat) (call_data : Z)
    : result (list CallbackRec * CBState) :=
  match cbr with
  | None => Ok ([], s)
  | Some a =>
      match fuel with
      | O => Err OutOfFuel
      | S fuel =>
          l ← deref s p cbl;
          '(x, _) ← of_option Dangling (cell_at a (chain l));
          s ← run (proc x) p (cb_data x) call_data s;
          l ← deref s p cbl;
          '(_, next) ← of_option Dangling (cell_at a (chain l));
          '(called, s) ← call_loop fuel s p cbl next call_data;
          Ok (x :: called, s)
      end
  end.

Definition _CallCallbacks (s : CBState) (p : Z) (call_data : Z) : result (list CallbackRec * CBState) :=
  l ← of_option Dangling (lists s !! p);
  let s := set_list s p (set_inCallback l (inCallback l + 1)) in
  '(called, s) ← call_loop (length (chain l)) s p (cbl_addr l) (cb_addr <$> head (chain l)) call_data;
  l ← deref s p (cbl_addr l);
  let l := set_inCallback l (inCallback l - 1) in
  let s := set_list s p l in
  if negb (inCallback l =? 0) then Ok (called, s) else
  if cbl_deleted l then s ← DeleteCallbackList s p; Ok (called, s) else
  if negb (numDeleted l =? 0) then
    let '(n, c) := sweep (numDeleted l) (chain l) in
    Ok (called, set_list s p (set_chain l n c))
  else Ok (called, s).

Definition CallCallbacks (s : CBState) (p : Z) (call_data : Z) : result (list CallbackRec * CBState) :=
  match lists s !! p with Some _ => _CallCallbacks s p call_data | None => Ok ([], s) end.

End Call.

(** The loop of [InitCallbackManager], from slot [i] on; [n] slots are left. *)
Fixpoint cleanup_loop (n i : nat) (s : CBState) : result CBState :=
  match n with
  | O => Ok s
  | S n =>
      slot ← of_option OutOfBounds (listsToCleanup s !! i);
      s ← (match slot with Some p => DeleteCallbackList s p | None => Ok s end);
      cleanup_loop n (S i) s
  end.

Definition InitCallbackManager (s : CBState) : result CBState :=
  s ← cleanup_loop (length (listsToCleanup s)) 0 s;
  Ok (mkCBS (lists s) [] (cb_fresh s) (cb_mem s)).
