(* ===== verification/CallbackProofs.v ===== *)
(** * CallbackProofs: callbacks may change the lists they are called from (dix/dixutils.c)

    The invariant of callback lists, what a procedure may do to a list while it is being
    called (the class [Reentrant], which every combination of the public procedures
    satisfies), and what a call then does. *)

From S2P Require Import Prelude Atom ResourceDB Callback.

#[local] Set Warnings "-clear-no-such-hyp".

(** ** The invariant *)

Definition marked (c : list CallbackRec) : Z := Z.of_nat (length (List.filter cb_deleted c)).
Definition unmarked (c : list CallbackRec) : list CallbackRec := List.filter (fun x => negb (cb_deleted x)) c.

Record list_ok (n : nat) (l : CallbackListRec) : Prop := {
  lk_addrs : NoDup (cb_addr <$> chain l);
  lk_fresh : Forall (fun a => (a < n)%nat) (cb_addr <$> chain l);
  lk_depth : 0 <= inCallback l;
  lk_marked : marked (chain l) <= numDeleted l;
  lk_idle : inCallback l = 0 -> marked (chain l) = 0 ∧ cbl_deleted l = false
}.

Definition cb_ok (s : CBState) : Prop := ∀ p l, lists s !! p = Some l -> list_ok (cb_fresh s) l.

(** ** What may happen to a list during a call *)

Record later (c c' : CallbackRec) : Prop := {
  lt_addr : cb_addr c' = cb_addr c;
  lt_proc : proc c' = proc c;
  lt_data : cb_data c' = cb_data c;
  lt_deleted : cb_deleted c = true -> cb_deleted c' = true
}.

(** Cells are added in front, and marked, but neither freed nor moved. *)
Record list_evolves (l l' : CallbackListRec) : Prop := {
  le_addr : cbl_addr l' = cbl_addr l;
  le_depth : inCallback l' = inCallback l;
  le_deleted : cbl_deleted l = true -> cbl_deleted l' = true;
  le_chain : ∃ new old, chain l' = new ++ old ∧ Forall2 later (chain l) old
}.

Definition evolves (s s' : CBState) : Prop :=
  ∀ p l, lists s !! p = Some l -> inCallback l <> 0 -> ∃ l', lists s' !! p = Some l' ∧ list_evolves l l'.

#[export] Instance later_preorder : PreOrder later.
Proof. split; [by split|]. intros a b c [] []. split; try congruence. auto. Qed.

#[export] Instance list_evolves_preorder : PreOrder list_evolves.
Proof.
  split.
  - intros l. split; try done. exists [], (chain l). split; [done|]. by apply Forall2_same_length_refl || apply Forall_Forall2_diag, Forall_true.
  - intros l1 l2 l3 [A1 D1 E1 (n1 & o1 & C1 & F1)] [A2 D2 E2 (n2 & o2 & C2 & F2)].
    split; [congruence|congruence|auto|]. rewrite C1 in F2. apply Forall2_app_inv_l in F2 as (n' & o' & _ & F2 & ->).
    exists (n2 ++ n'), o'. split; [by rewrite <- app_assoc|]. by transitivity o1.
Qed.

#[export] Instance evolves_preorder : PreOrder evolves.
Proof.
  split.
  - intros s p l Hl _. by exists l.
  - intros s1 s2 s3 H1 H2 p l Hl Hd. destruct (H1 p l Hl Hd) as (l2 & Hl2 & L2).
    destruct (H2 p l2 Hl2) as (l3 & Hl3 & L3); [by rewrite (le_depth _ _ L2)|]. exists l3. split; [done|]. by transitivity l2.
Qed.

Lemma list_ok_mono n n' l : (n <= n')%nat -> list_ok n l -> list_ok n' l.
Proof. intros Hn []. split; try done. eapply Forall_impl; [done|]. simpl. lia. Qed.

Lemma cb_ok_set s p l : cb_ok s -> list_ok (cb_fresh s) l -> cb_ok (set_list s p l).
Proof. intros Hs Hl q l'. simpl. intros [[<- <-]|[_ Hq]]%lookup_insert_Some; [done|by apply (Hs q)]. Qed.

Lemma evolves_set s p l :
  (∀ l0, lists s !! p = Some l0 -> inCallback l0 <> 0 -> list_evolves l0 l) -> evolves s (set_list s p l).
Proof.
  intros H q l0 Hq Hd. simpl. destruct (decide (p = q)) as [->|Hne].
  - rewrite lookup_insert_eq. exists l. auto.
  - rewrite lookup_insert_ne by done. by exists l0.
Qed.

Lemma marked_app a b : marked (a ++ b) = marked a + marked b.
Proof. unfold marked. rewrite List.filter_app, length_app. lia. Qed.

Lemma marked_cons x c : marked (x :: c) = (if cb_deleted x then 1 else 0) + marked c.
Proof. unfold marked. simpl. destruct (cb_deleted x); simpl; lia. Qed.

Lemma marked_nonneg c : 0 <= marked c.
Proof. unfold marked. lia. Qed.

(** ** Registration and deletion *)

Lemma cb_alloc_ok s a s' :
  cb_alloc s = (a, s') -> cb_ok s ->
  cb_ok s' ∧ lists s' = lists s ∧ (cb_fresh s < cb_fresh s')%nat ∧ (∀ b, a = Some b -> b = cb_fresh s).
Proof.
  unfold cb_alloc. destruct (alloc (cb_mem s)) as [ok o]. intros [= <- <-] Hs. split_and!; [|done|simpl; lia|].
  - intros p l Hl. apply (list_ok_mono (cb_fresh s)); [simpl; lia|by apply (Hs p)].
  - intros b. by destruct ok; intros [= <-].
Qed.

Lemma evolves_lists s s' : lists s' = lists s -> evolves s s'.
Proof. intros E p l Hl _. rewrite E. by exists l. Qed.

Lemma _AddCallback_ok s p callback data :
  cb_ok s -> is_Some (lists s !! p) ->
  ∃ b s', _AddCallback s p callback data = Ok (b, s') ∧ cb_ok s' ∧ evolves s s'.
Proof.
  intros Hs [l Hl]. unfold _AddCallback. destruct (cb_alloc s) as [a s1] eqn:Ea.
  destruct (cb_alloc_ok _ _ _ Ea Hs) as (Hs1 & El & Hf & Haddr). destruct a as [a|].
  2: { do 2 eexists. split; [done|]. split; [done|by apply evolves_lists]. }
  rewrite El, Hl. cbn [of_option mbind result_bind]. do 2 eexists. split; [done|].
  specialize (Haddr a eq_refl). subst a. pose proof (Hs p l Hl) as [H1 H2 H3 H4 H5]. split.
  - apply cb_ok_set; [done|]. split; simpl; try done.
    + constructor; [|done]. intros Hin. rewrite Forall_forall in H2. specialize (H2 _ Hin). lia.
    + constructor; [done|]. eapply Forall_impl; [done|]. simpl. lia.
  - transitivity s1; [by apply evolves_lists|]. apply evolves_set. rewrite El, Hl. intros l0 [= <-] _. split; try done.
    eexists [_], (chain l). split; [done|]. apply Forall_Forall2_diag, Forall_true. done.
Qed.

Lemma find_callback_Some callback data c b x a :
  find_callback callback data c = Some (b, x, a) -> c = b ++ x :: a ∧ proc x = callback ∧ cb_data x = data.
Proof.
  revert b. induction c as [|y c IH]; intros b; simpl; [done|].
  destruct ((proc y =? callback) && (cb_data y =? data)) eqn:E.
  - intros [= <- <- <-]. zbool. done.
  - destruct (find_callback callback data c) as [[[b' y'] a']|]; simpl; [|done]. intros [= <- -> ->].
    destruct (IH b' eq_refl) as (-> & ? & ?). done.
Qed.

Lemma _DeleteCallback_ok s p callback data :
  cb_ok s -> is_Some (lists s !! p) ->
  ∃ b s', _DeleteCallback s p callback data = Ok (b, s') ∧ cb_ok s' ∧ evolves s s'.
Proof.
  intros Hs [l Hl]. unfold _DeleteCallback. rewrite Hl. cbn [of_option mbind result_bind].
  pose proof (Hs p l Hl) as [H1 H2 H3 H4 H5].
  destruct (find_callback callback data (chain l)) as [[[b x] a]|] eqn:Ef; [|do 2 eexists; split; [done|]; by split].
  apply find_callback_Some in Ef as (Ec & _). rewrite Ec in *. rewrite marked_app, marked_cons in *.
  destruct (Z.eqb_spec (inCallback l) 0) as [E0|E0]; cbn [negb]; do 2 eexists; (split; [done|]); split.
  - apply cb_ok_set; [done|]. destruct (H5 E0) as [Hm Hd]. pose proof (marked_nonneg a). pose proof (marked_nonneg b).
    rewrite fmap_app, fmap_cons in *. split; cbn [chain set_chain inCallback numDeleted cbl_deleted]; rewrite ?fmap_app; try done.
    + apply NoDup_app in H1 as (N1 & N2 & N3). apply NoDup_cons in N3 as [_ N3]. apply NoDup_app. split_and!; [done| |done].
      intros y Hy Hy'. apply (N2 y Hy). by right.
    + apply Forall_app in H2 as [F1 F2]. inversion F2. by apply Forall_app.
    + rewrite marked_app. destruct (cb_deleted x); lia.
    + rewrite marked_app. intros _. split; [destruct (cb_deleted x); lia|done].
  - apply evolves_set. rewrite Hl. intros l0 [= <-] ?. done.
  - apply cb_ok_set; [done|]. rewrite fmap_app, fmap_cons in *.
    split; cbn [chain set_chain inCallback numDeleted cbl_deleted]; rewrite ?fmap_app, ?fmap_cons; try done.
    rewrite marked_app, marked_cons. simpl. destruct (cb_deleted x); lia.
  - apply evolves_set. rewrite Hl. intros l0 [= <-] _. split; try done. exists [], (b ++ mark x :: a). split; [done|].
    rewrite Ec. assert (Hr : ∀ k, Forall2 later k k) by (intros; apply Forall_Forall2_diag, Forall_true; done).
    apply Forall2_app; [done|]. constructor; [by split|done].
Qed.

(** *** The public procedures *)

Lemma AddCallback_ok s p callback data :
  cb_ok s -> ∃ b s', AddCallback s p callback data = Ok (b, s') ∧ cb_ok s' ∧ evolves s s'.
Proof.
  intros Hs. unfold AddCallback. destruct (p =? 0) eqn:E0; [do 2 eexists; split; [done|]; by split|].
  destruct (lists s !! p) as [l|] eqn:El; [apply _AddCallback_ok; [done|by rewrite El]|].
  unfold CreateCallbackList. rewrite E0. destruct (cb_alloc s) as [a s1] eqn:Ea.
  destruct (cb_alloc_ok _ _ _ Ea Hs) as (Hs1 & E1 & _ & _).
  destruct a as [a|]; [|do 2 eexists; split; [done|]; split; [done|by apply evolves_lists]].
  set (l0 := mkCBL a 0 false 0 []). set (s2 := mkCBS (<[p := l0]> (lists s1)) _ _ _).
  assert (Hs2 : cb_ok s2).
  { apply (cb_ok_set s1 p l0 Hs1). split; try done; try constructor. }
  destruct (_AddCallback_ok s2 p callback data Hs2) as (b & s' & -> & Hs' & Hev); [simpl; rewrite lookup_insert_eq; by eexists|].
  do 2 eexists. split; [done|]. split; [done|]. transitivity s2; [|done].
  intros q l Hq Hd. exists l. split; [|done]. simpl. rewrite E1, lookup_insert_ne; [done|congruence].
Qed.

Lemma DeleteCallback_ok s p callback data :
  cb_ok s -> ∃ b s', DeleteCallback s p callback data = Ok (b, s') ∧ cb_ok s' ∧ evolves s s'.
Proof.
  intros Hs. unfold DeleteCallback. destruct (lists s !! p) as [l|] eqn:El; [|do 2 eexists; split; [done|]; by split].
  apply _DeleteCallback_ok; [done|by rewrite El].
Qed.

Lemma DeleteCallbackList_ok s p :
  cb_ok s -> ∃ s', DeleteCallbackList s p = Ok s' ∧ cb_ok s' ∧ evolves s s'.
Proof.
  intros Hs. unfold DeleteCallbackList, _DeleteCallbackList.
  destruct (lists s !! p) as [l|] eqn:El; [|eexists; split; [done|]; by split]. cbn [of_option mbind result_bind].
  pose proof (Hs p l El) as [H1 H2 H3 H4 H5]. destruct (Z.eqb_spec (inCallback l) 0) as [E0|E0]; cbn [negb];
    eexists; (split; [done|]); split.
  - intros q l'. simpl. intros [_ Hq]%lookup_delete_Some. by apply (Hs q).
  - intros q l' Hq Hd. simpl. destruct (decide (p = q)) as [->|Hne]; [congruence|].
    exists l'. split; [by rewrite lookup_delete_ne|done].
  - apply cb_ok_set; [done|]. split; simpl; done.
  - apply evolves_set. rewrite El. intros l0 [= <-] _. split; try done. exists [], (chain l). split; [done|].
    apply Forall_Forall2_diag, Forall_true. done.
Qed.

(** ** Calls *)

(** What the registered procedures have to do, for the walk over a list to be safe. *)
Class Reentrant (run : Z -> Z -> Z -> Z -> CBState -> result CBState) : Prop :=
  reentrant : ∀ f p d c s, cb_ok s -> ∃ s', run f p d c s = Ok s' ∧ cb_ok s' ∧ evolves s s'.

Lemma cell_at_middle b x a :
  NoDup (cb_addr <$> b ++ x :: a) -> cell_at (cb_addr x) (b ++ x :: a) = Some (x, cb_addr <$> head a).
Proof.
  induction b as [|y b IH]; cbn [app fmap list_fmap cell_at]; intros H.
  - by rewrite decide_True.
  - apply NoDup_cons in H as [Hy H]. rewrite decide_False; [by apply IH|].
    intros E. apply Hy. rewrite E, fmap_app, fmap_cons. apply elem_of_app. right. by left.
Qed.

Lemma deref_ok s p l : lists s !! p = Some l -> deref s p (cbl_addr l) = Ok l.
Proof. intros Hl. unfold deref. rewrite Hl. cbn [of_option mbind result_bind]. by rewrite decide_True. Qed.

Lemma head_later c c' : Forall2 later c c' -> cb_addr <$> head c' = cb_addr <$> head c.
Proof. intros []; simpl; [done|]. f_equal. by apply lt_addr. Qed.

Lemma call_loop_ok run `{!Reentrant run} p cd rest fuel s l b :
  (length rest <= fuel)%nat -> cb_ok s -> lists s !! p = Some l -> inCallback l <> 0 -> chain l = b ++ rest ->
  ∃ called s', call_loop run fuel s p (cbl_addr l) (cb_addr <$> head rest) cd = Ok (called, s') ∧
    cb_ok s' ∧ evolves s s' ∧ Forall2 later rest called.
Proof.
  revert rest s l b. induction fuel as [|fuel IH]; intros [|x rest] s l b Hn Hs Hl Hd Hc;
    try (exists [], s; by repeat (split; [done|])).
  { simpl in Hn. lia. }
  cbn [head fmap option_fmap option_map call_loop].
  pose proof (lk_addrs _ _ (Hs p l Hl)) as Hnd. rewrite Hc in Hnd.
  rewrite (deref_ok s p l Hl). cbn [mbind result_bind]. rewrite Hc, (cell_at_middle b x rest Hnd).
  cbn [of_option mbind result_bind].
  destruct (reentrant (run := run) (proc x) p (cb_data x) cd s Hs) as (s1 & -> & Hs1 & Hev1). cbn [mbind result_bind].
  destruct (Hev1 p l Hl Hd) as (l1 & Hl1 & [Ea Ed _ (new & old & Ec & F)]). rewrite <- Ea, (deref_ok s1 p l1 Hl1).
  cbn [mbind result_bind]. rewrite Hc in F. apply Forall2_app_inv_l in F as (b' & r' & Fb & Fr & ->).
  apply Forall2_cons_inv_l in Fr as (x' & rest' & Hx & Fr & ->). rewrite app_assoc in Ec.
  pose proof (lk_addrs _ _ (Hs1 p l1 Hl1)) as Hnd1. rewrite Ec in Hnd1.
  rewrite Ec, <- (lt_addr _ _ Hx), (cell_at_middle _ x' rest' Hnd1). cbn [of_option mbind result_bind].
  destruct (IH rest' s1 l1 ((new ++ b') ++ [x'])) as (called & s' & E & Hs' & Hev' & Fc); [| |done|by rewrite Ed| |].
  { apply Forall2_length in Fr. simpl in Hn. lia. }
  { done. }
  { by rewrite Ec, <- (app_assoc (new ++ b') [x'] rest'). }
  rewrite E. cbn [mbind result_bind]. exists (x :: called), s'. split_and!; [done|done|by transitivity s1|].
  constructor; [done|by transitivity rest'].
Qed.

(** ** The deletions at the end of a call *)

Lemma unmarked_none c : marked c = 0 -> unmarked c = c.
Proof.
  induction c as [|x c IH]; [done|]. rewrite marked_cons. pose proof (marked_nonneg c). unfold unmarked in *. simpl.
  destruct (cb_deleted x); simpl; intros; [lia|]. rewrite IH; [done|lia].
Qed.

Lemma sweep_ok n c : marked c <= n -> sweep n c = (n - marked c, unmarked c).
Proof.
  revert n. induction c as [|x c IH]; intros n; [intros _; unfold marked; simpl; f_equal; lia|].
  rewrite marked_cons. pose proof (marked_nonneg c). intros Hn. cbn [sweep].
  destruct (Z.eqb_spec n 0) as [->|E0].
  { rewrite (unmarked_none (x :: c)); [|rewrite marked_cons]; destruct (cb_deleted x); try lia. f_equal. lia. }
  unfold unmarked. simpl. destruct (cb_deleted x); rewrite IH by lia; [f_equal; lia|done].
Qed.

Lemma marked_unmarked c : marked (unmarked c) = 0.
Proof. induction c as [|x c IH]; [done|]. unfold unmarked in *. cbn [List.filter]. destruct (cb_deleted x) eqn:E; cbn [negb]; [done|].
  by rewrite marked_cons, E.
Qed.

Lemma Forall_sublist' {A} (P : A -> Prop) k c : sublist k c -> Forall P c -> Forall P k.
Proof. induction 1; inversion 1; subst; auto. Qed.

Lemma unmarked_incl c : sublist (unmarked c) c.
Proof. induction c as [|x c IH]; [done|]. unfold unmarked in *. simpl. destruct (cb_deleted x); simpl; by constructor. Qed.

Lemma enter_ok s p l :
  cb_ok s -> lists s !! p = Some l ->
  cb_ok (set_list s p (set_inCallback l (inCallback l + 1))).
Proof. intros Hs Hl. destruct (Hs p l Hl) as [H1 H2 H3 H4 H5]. apply cb_ok_set; [done|]. split; simpl; try done; lia. Qed.

(** What a call leaves of a list that is [l1] when its last procedure has returned. *)
Definition left_list (depth : Z) (l1 : CallbackListRec) : option CallbackListRec :=
  if negb (depth =? 0) then Some (set_inCallback l1 depth)
  else if cbl_deleted l1 then None
  else Some (mkCBL (cbl_addr l1) 0 false (numDeleted l1 - marked (chain l1)) (unmarked (chain l1))).

Lemma left_list_ok n l1 depth l' :
  list_ok n l1 -> 0 <= depth -> left_list depth l1 = Some l' -> list_ok n l'.
Proof.
  intros [H1 H2 H3 H4 H5] Hd. unfold left_list. destruct (Z.eqb_spec depth 0) as [->|E0]; cbn [negb].
  - destruct (cbl_deleted l1) eqn:E; [done|]. intros [= <-].
    assert (Hin : sublist (cb_addr <$> unmarked (chain l1)) (cb_addr <$> chain l1)) by (apply fmap_sublist, unmarked_incl).
    split; simpl; [by eapply sublist_NoDup|by eapply Forall_sublist'|lia|rewrite marked_unmarked; lia|].
    intros _. split; [apply marked_unmarked|done].
  - intros [= <-]. split; simpl; done.
Qed.

(** The end of [_CallCallbacks]. *)
Lemma leave_ok run `{!Reentrant run} s p cd l :
  cb_ok s -> lists s !! p = Some l ->
  ∃ called s1 l1 s', CallCallbacks run s p cd = Ok (called, s') ∧ Forall2 later (chain l) called ∧
    cb_ok s1 ∧ evolves (set_list s p (set_inCallback l (inCallback l + 1))) s1 ∧ lists s1 !! p = Some l1 ∧
    cb_fresh s' = cb_fresh s1 ∧
    lists s' !! p = left_list (inCallback l) l1 ∧ (∀ q, q <> p -> lists s' !! q = lists s1 !! q).
Proof.
  intros Hs Hl. pose proof (Hs p l Hl) as [_ _ Hdepth _ _]. pose proof (enter_ok s p l Hs Hl) as Hs0.
  set (l0 := set_inCallback l (inCallback l + 1)) in *. set (s0 := set_list s p l0) in *.
  assert (Hl0 : lists s0 !! p = Some l0) by (simpl; by rewrite lookup_insert_eq).
  destruct (call_loop_ok run p cd (chain l) (length (chain l)) s0 l0 []) as (called & s1 & E & Hs1 & Hev & Fc);
    [done|done|done|simpl; lia|done|].
  destruct (Hev p l0 Hl0) as (l1 & Hl1 & [Ea Ed _ _]); [simpl; lia|]. simpl in Ea, Ed.
  destruct (Hs1 p l1 Hl1) as [_ _ _ Hm _].
  exists called, s1, l1. unfold CallCallbacks, _CallCallbacks. rewrite Hl. cbn [of_option mbind result_bind].
  fold l0 s0. change (cbl_addr l) with (cbl_addr l0). rewrite E. cbn [mbind result_bind].
  change (cbl_addr l0) with (cbl_addr l). rewrite <- Ea, (deref_ok s1 p l1 Hl1). cbn [mbind result_bind].
  cbn [inCallback set_inCallback cbl_deleted numDeleted chain]. rewrite Ed, Z.add_simpl_r.
  unfold left_list. destruct (Z.eqb_spec (inCallback l) 0) as [E0|E0]; cbn [negb].
  2: { eexists. split; [done|]. split_and!; try done; simpl; [by rewrite lookup_insert_eq|].
       intros q Hq. by rewrite lookup_insert_ne. }
  rewrite E0. destruct (cbl_deleted l1) eqn:Edel.
  { unfold DeleteCallbackList, _DeleteCallbackList. simpl. rewrite lookup_insert_eq. simpl.
    eexists. split; [done|]. split_and!; try done; simpl; [by rewrite lookup_delete_eq|].
    intros q Hq. by rewrite lookup_delete_ne, lookup_insert_ne. }
  destruct (Z.eqb_spec (numDeleted l1) 0) as [En|En]; cbn [negb].
  - eexists. split; [done|]. split_and!; try done; simpl; [|intros q Hq; by rewrite lookup_insert_ne].
    rewrite lookup_insert_eq. pose proof (marked_nonneg (chain l1)). unfold set_inCallback. rewrite unmarked_none, Edel by lia.
    do 2 f_equal. lia.
  - rewrite sweep_ok by done. eexists. split; [done|]. split_and!; try done; simpl.
    + rewrite lookup_insert_eq. unfold set_chain. simpl. by rewrite Edel.
    + intros q Hq. by rewrite !lookup_insert_ne.
Qed.

Lemma CallCallbacks_ok run `{!Reentrant run} s p cd :
  cb_ok s -> ∃ called s', CallCallbacks run s p cd = Ok (called, s') ∧ cb_ok s' ∧ evolves s s'.
Proof.
  intros Hs. destruct (lists s !! p) as [l|] eqn:Hl.
  2: { exists [], s. unfold CallCallbacks. rewrite Hl. by split. }
  destruct (leave_ok run s p cd l Hs Hl) as (called & s1 & l1 & s' & E & _ & Hs1 & Hev & Hl1 & Ef & Ep & Eq).
  pose proof (lk_depth _ _ (Hs p l Hl)) as Hdepth. exists called, s'. split; [done|]. split.
  - intros q lq Hq. rewrite Ef. destruct (decide (q = p)) as [->|Hne].
    + rewrite Ep in Hq. by eapply left_list_ok; [apply (Hs1 p)| |].
    + rewrite Eq in Hq by done. by apply (Hs1 q).
  - intros q lq Hq Hd. destruct (decide (q = p)) as [->|Hne].
    + assert (lq = l) as -> by congruence. exists (set_inCallback l1 (inCallback l)).
      rewrite Ep. unfold left_list. destruct (Z.eqb_spec (inCallback l) 0); [done|]. split; [done|].
      destruct (Hev p (set_inCallback l (inCallback l + 1))) as (l2 & Hl2 & [Ea Ed Edel Ec]);
        [simpl; by rewrite lookup_insert_eq|simpl; lia|].
      assert (l2 = l1) as -> by congruence. by split.
    + rewrite Eq by done. apply Hev; [|done]. simpl. by rewrite lookup_insert_ne.
Qed.

(** ** Procedures made of the public procedures *)

Inductive action :=
  | DoAdd (p f d : Z) | DoDelete (p f d : Z) | DoDeleteList (p : Z) | DoCall (p call_data : Z).

Section Scripts.
(** What the procedure at an address does. *)
Context (script : Z -> list action).

Definition perform (run : Z -> Z -> Z -> Z -> CBState -> result CBState) (s : CBState) (a : action) : result CBState :=
  match a with
  | DoAdd p f d => '(_, s) ← AddCallback s p f d; Ok s
  | DoDelete p f d => '(_, s) ← DeleteCallback s p f d; Ok s
  | DoDeleteList p => DeleteCallbackList s p
  | DoCall p c => '(_, s) ← CallCallbacks run s p c; Ok s
  end.

Fixpoint perform_all (run : Z -> Z -> Z -> Z -> CBState -> result CBState) (s : CBState) (l : list action) : result CBState :=
  match l with
  | [] => Ok s
  | a :: l => s ← perform run s a; perform_all run s l
  end.

(** Calls nest at most [n] deep. *)
Fixpoint scripted (n : nat) (f p d c : Z) (s : CBState) : result CBState :=
  match n with
  | O => Ok s
  | S n => perform_all (scripted n) s (script f)
  end.

Lemma perform_ok run `{!Reentrant run} s a : cb_ok s -> ∃ s', perform run s a = Ok s' ∧ cb_ok s' ∧ evolves s s'.
Proof.
  intros Hs. destruct a as [p f d|p f d|p|p c]; simpl.
  - destruct (AddCallback_ok s p f d Hs) as (b & s' & -> & H). by exists s'.
  - destruct (DeleteCallback_ok s p f d Hs) as (b & s' & -> & H). by exists s'.
  - by apply DeleteCallbackList_ok.
  - destruct (CallCallbacks_ok run s p c Hs) as (b & s' & -> & H). by exists s'.
Qed.

Lemma perform_all_ok run `{!Reentrant run} l s : cb_ok s -> ∃ s', perform_all run s l = Ok s' ∧ cb_ok s' ∧ evolves s s'.
Proof.
  revert s. induction l as [|a l IH]; intros s Hs; simpl; [by exists s|].
  destruct (perform_ok run s a Hs) as (s1 & -> & Hs1 & E1). destruct (IH s1 Hs1) as (s2 & E & Hs2 & E2).
  exists s2. split; [done|]. split; [done|by transitivity s1].
Qed.

#[export] Instance scripted_reentrant n : Reentrant (scripted n).
Proof. induction n as [|n IH]; intros f p d c s Hs; simpl; [by exists s|]. by apply perform_all_ok. Qed.

End Scripts.

(** ** The lists to clean up *)

Definition idle (s : CBState) : Prop := ∀ p l, lists s !! p = Some l -> inCallback l = 0.
Definition slots_nonzero (s : CBState) : Prop := Forall (fun slot => slot <> Some 0) (listsToCleanup s).

Lemma idle_dec s : bool_decide (map_Forall (λ _ l, inCallback l = 0) (lists s)) -> idle s.
Proof. intros H%bool_decide_unpack. exact H. Qed.

Lemma forget_slot_first p slots : p <> 0 -> forget_slot p slots = match slots with [] => [] | _ :: r => None :: r end.
Proof. intros Hp. destruct slots; simpl; [done|]. by rewrite (proj2 (Z.eqb_neq p 0) Hp). Qed.

Lemma DeleteCallbackList_idle s p :
  idle s -> p <> 0 ->
  ∃ s', DeleteCallbackList s p = Ok s' ∧ lists s' = delete p (lists s) ∧ idle s' ∧
    (s' = s ∨ listsToCleanup s' = match listsToCleanup s with [] => [] | _ :: r => None :: r end).
Proof.
  intros Hi Hp. unfold DeleteCallbackList. destruct (lists s !! p) as [l|] eqn:El.
  - unfold _DeleteCallbackList. rewrite El. cbn [of_option mbind result_bind]. rewrite (Hi p l El). cbn [negb Z.eqb].
    eexists. split; [done|]. split; [done|]. rewrite forget_slot_first by done. split; [|by right].
    intros q l'. simpl. intros [_ Hq]%lookup_delete_Some. by apply (Hi q).
  - exists s. rewrite delete_id by done. split_and!; try done. by left.
Qed.

Lemma cleanup_loop_ok n i s :
  (i + n)%nat = length (listsToCleanup s) -> idle s -> slots_nonzero s ->
  ∃ s', cleanup_loop n i s = Ok s' ∧
    ∀ q, lists s' !! q = if decide (Some q ∈ drop i (listsToCleanup s)) then None else lists s !! q.
Proof.
  revert i s. induction n as [|n IH]; intros i s Hn Hi Hz; simpl.
  { exists s. split; [done|]. intros q. rewrite drop_ge by lia. by rewrite decide_False by (by intros ?%elem_of_nil). }
  destruct (lookup_lt_is_Some_2 (listsToCleanup s) i) as [slot Hslot]; [lia|]. rewrite Hslot. cbn [of_option mbind result_bind].
  rewrite (drop_S _ slot _ Hslot). destruct slot as [p|]; cbn [mbind result_bind].
  - assert (Hp : p <> 0). { intros ->. eapply Forall_lookup_1 in Hz; [|done]. done. }
    destruct (DeleteCallbackList_idle s p Hi Hp) as (s1 & -> & El & Hi1 & Hc). cbn [mbind result_bind].
    assert (Hsame : drop (S i) (listsToCleanup s1) = drop (S i) (listsToCleanup s) ∧
      length (listsToCleanup s1) = length (listsToCleanup s) ∧ slots_nonzero s1).
    { destruct Hc as [->|Hc]; [done|]. unfold slots_nonzero in *. rewrite Hc. destruct (listsToCleanup s); [done|].
      inversion Hz. split_and!; try done. by constructor. }
    destruct Hsame as (Hd & Hlen & Hz1). destruct (IH (S i) s1) as (s' & -> & Hs'); [lia|done|done|].
    exists s'. split; [done|]. intros q. rewrite Hs', Hd, El. repeat case_decide; try done.
    + exfalso. set_solver.
    + assert (q = p) as -> by set_solver. by rewrite lookup_delete_eq.
    + rewrite lookup_delete_ne; [done|]. set_solver.
  - destruct (IH (S i) s) as (s' & -> & Hs'); [lia|done|done|].
    exists s'. split; [done|]. intros q. rewrite Hs'. repeat case_decide; try done; exfalso; set_solver.
Qed.

(** ** Properties *)

(** C21: A call of a callback list is safe whatever the procedures on it do with the callback
    lists (the class [Reentrant]: they may register, delete, delete whole lists and call
    again, [scripted_reentrant]): no freed cell is followed.  It calls exactly the
    procedures on the list at its start, each once and in order, those deleted meanwhile
    included and those added meanwhile not; when it is the outermost call it then removes
    exactly the cells marked as deleted, or the list when that was deleted; an inner call
    leaves all that to the outer one. *)
Theorem CallCallbacks_correct run `{!Reentrant run} s p call_data l :
  cb_ok s -> lists s !! p = Some l ->
  ∃ called s1 l1 s', CallCallbacks run s p call_data = Ok (called, s') ∧
    (λ c, (cb_addr c, proc c, cb_data c)) <$> called = (λ c, (cb_addr c, proc c, cb_data c)) <$> chain l ∧
    lists s1 !! p = Some l1 ∧ list_evolves (set_inCallback l (inCallback l + 1)) l1 ∧
    lists s' !! p = left_list (inCallback l) l1 ∧ (∀ q, q <> p -> lists s' !! q = lists s1 !! q) ∧
    cb_ok s' ∧ evolves s s'.
Proof.
  intros Hs Hl. destruct (CallCallbacks_ok run s p call_data Hs) as (c' & s'' & E' & Hs' & Hev').
  destruct (leave_ok run s p call_data l Hs Hl) as (called & s1 & l1 & s' & E & Fc & _ & Hev & Hl1 & _ & Ep & Eq).
  rewrite E in E'. injection E' as <- <-. exists called, s1, l1, s'. split; [done|]. split.
  { clear -Fc. induction Fc as [|x y c c' [Ea Ep Ed _] _ IH]; [done|]. cbn [fmap list_fmap].
    rewrite Ea, Ep, Ed. f_equal. apply IH. }
  split_and!; try done. pose proof (lk_depth _ _ (Hs p l Hl)).
  destruct (Hev p (set_inCallback l (inCallback l + 1))) as (l2 & Hl2 & H2); [simpl; by rewrite lookup_insert_eq|simpl; lia|].
  by assert (l2 = l1) as -> by congruence.
Qed.

(** The procedures of the examples: 1 removes itself, registers 3 and calls the list again;
    2 removes itself. *)
Definition demo_script (f : Z) : list action :=
  if f =? 1 then [DoDelete 10 1 0; DoAdd 10 3 0; DoCall 10 0]
  else if f =? 2 then [DoDelete 10 2 0] else [].

Definition no_lists : CBState := mkCBS ∅ [] 0 [].

Definition demo_lists : result CBState :=
  perform_all (scripted demo_script 2) no_lists [DoAdd 10 4 0; DoAdd 10 2 0; DoAdd 10 1 0; DoAdd 20 5 0].

Lemma demo_lists_ok : ∃ s, demo_lists = Ok s ∧ cb_ok s.
Proof.
  destruct (perform_all_ok (scripted demo_script 2) [DoAdd 10 4 0; DoAdd 10 2 0; DoAdd 10 1 0; DoAdd 20 5 0] no_lists)
    as (s & E & Hs & _); [done|by exists s].
Qed.

Lemma CallCallbacks_correct_witness :
  ∃ s l called l1 s', cb_ok s ∧ lists s !! 10 = Some l ∧ proc <$> chain l = [1; 2; 4] ∧
    CallCallbacks (scripted demo_script 2) s 10 0 = Ok (called, s') ∧ proc <$> called = [1; 2; 4] ∧
    lists s' !! 10 = left_list (inCallback l) l1 ∧ (chain <$> lists s' !! 10) = Some (unmarked (chain l1)).
Proof.
  destruct demo_lists_ok as (s & E & Hs). vm_compute in E. injection E as <-. eexists _, _.
  destruct (CallCallbacks_correct (scripted demo_script 2) _ 10 0 _ Hs eq_refl)
    as (called & s1 & l1 & s' & E & _ & _ & _ & Hp & _).
  exists called, l1, s'. split; [exact Hs|]. split; [reflexivity|]. split; [reflexivity|]. split; [exact E|].
  split; [vm_compute in E; injection E as <- _; reflexivity|]. split; [exact Hp|].
  rewrite Hp. cbn [inCallback]. unfold left_list. cbn [negb Z.eqb]. destruct (cbl_deleted l1) eqn:Ed; [|reflexivity].
  exfalso. unfold left_list in Hp. cbn [inCallback negb Z.eqb] in Hp. rewrite Ed in Hp. vm_compute in E. injection E as _ <-. vm_compute in Hp. discriminate.
Defined.

(** Freeing an idle list does not clear its own entry in the list of lists to clean up
    but the first one, whatever list that belongs to: [listsToCleanup[i] = pcbl] is an
    assignment.  So [InitCallbackManager] misses the list of the first entry, which lives
    on with its callbacks after the server has been reset. *)
Theorem DeleteCallbackList_forgets s a b la lb rest :
  listsToCleanup s = Some a :: rest -> Some a ∉ rest -> slots_nonzero s -> idle s ->
  lists s !! a = Some la -> lists s !! b = Some lb -> a <> b -> b <> 0 ->
  ∃ s1 s2, DeleteCallbackList s b = Ok s1 ∧ InitCallbackManager s1 = Ok s2 ∧ lists s2 !! a = Some la.
Proof.
  intros Hc Ha Hz Hi Hla Hlb Hne Hb. destruct (DeleteCallbackList_idle s b Hi Hb) as (s1 & E1 & El & Hi1 & Hc1).
  destruct Hc1 as [->|Hc1].
  { exfalso. rewrite El, lookup_delete_eq in Hlb. done. }
  rewrite Hc in Hc1. unfold slots_nonzero in *. rewrite Hc in Hz. inversion Hz as [|? ? Hz1 Hz2]; subst.
  destruct (cleanup_loop_ok (length (listsToCleanup s1)) 0 s1) as (s2 & E2 & H2);
    [done|done|unfold slots_nonzero; rewrite Hc1; by constructor|].
  exists s1. unfold InitCallbackManager. rewrite E2. cbn [mbind result_bind]. eexists. split; [done|]. split; [done|].
  simpl. rewrite H2, Hc1, drop_0, decide_False by set_solver. by rewrite El, lookup_delete_ne.
Qed.

(** Two lists, the first with a callback. *)
Definition demo_two : CBState :=
  mkCBS (<[10 := mkCBL 0 0 false 0 [mkCB 2 1 0 false]]> {[20 := mkCBL 1 0 false 0 []]}) [Some 10; Some 20] 9 [].

Lemma demo_two_idle : idle demo_two.
Proof. apply idle_dec. vm_compute. exact I. Qed.

Lemma demo_two_nonzero : slots_nonzero demo_two.
Proof. by repeat constructor. Qed.

Lemma DeleteCallbackList_forgets_witness :
  ∃ s1 s2, DeleteCallbackList demo_two 20 = Ok s1 ∧ InitCallbackManager s1 = Ok s2 ∧
    lists s2 !! 10 = Some (mkCBL 0 0 false 0 [mkCB 2 1 0 false]).
Proof.
  apply (DeleteCallbackList_forgets demo_two 10 20 _ (mkCBL 1 0 false 0 []) [Some 20]);
    [reflexivity| |exact demo_two_nonzero|exact demo_two_idle|reflexivity|reflexivity|done|done].
  intros ?%list_elem_of_singleton. discriminate.
Defined.

(** C0: With every list in the list of lists to clean up and none being called,
    [InitCallbackManager] frees them all and the list of lists itself. *)
Theorem InitCallbackManager_correct s :
  idle s -> slots_nonzero s -> (∀ p, is_Some (lists s !! p) -> Some p ∈ listsToCleanup s) ->
  ∃ s', InitCallbackManager s = Ok s' ∧ lists s' = ∅ ∧ listsToCleanup s' = [].
Proof.
  intros Hi Hz Hall. unfold InitCallbackManager.
  destruct (cleanup_loop_ok (length (listsToCleanup s)) 0 s) as (s' & -> & H); [done|done|done|].
  eexists. split; [done|]. split; [|done]. apply map_eq. intros p. simpl. rewrite H, drop_0, lookup_empty.
  case_decide as Hp; [done|]. destruct (lists s !! p) eqn:E; [|done]. exfalso. apply Hp, Hall. by rewrite E.
Qed.

Lemma InitCallbackManager_correct_witness :
  ∃ s', is_Some (lists demo_two !! 10) ∧ InitCallbackManager demo_two = Ok s' ∧ lists s' = ∅ ∧ listsToCleanup s' = [].
Proof.
  destruct (InitCallbackManager_correct demo_two demo_two_idle demo_two_nonzero) as (s' & H);
    [|exists s'; split; [by eexists|exact H]].
  intros p. unfold demo_two. cbn [lists listsToCleanup]. rewrite lookup_insert_is_Some, lookup_singleton_is_Some.
  intros [<-|[_ <-]]; [by left|by right; left].
Defined.
