(* ===== verification/WorkQueue.v ===== *)
(** * WorkQueue: work procedures and sleeping clients (dix/dixutils.c, os/connection.c)

    A queue of procedures to run before the server sleeps, kept as linked cells with a
    pointer to the link behind the last one.  The procedures run while the queue is walked
    and may queue more.  On top of it clients sleep until a procedure wakes them up. *)

From S2P Require Import Prelude Atom ResourceDB.

(** ** Data (include/dixstruct.h) *)

(** A work procedure with its arguments, and its cell in the queue. *)
Record Work := mkWork { function : Z; wq_client : option nat; closure : Z }.

Record WorkQueueRec := mkWQ { wq_work : Work; wq_next : option nat }.

(** Pointers to links: [&workQueue] and [&q->next]. *)
Inductive link := Anchor | NextOf (q : nat).

Record SleepQueueRec := mkSQ { sq_client : nat; sq_function : Z; sq_closure : Z }.

(** [OS_COMM_IGNORED] is the flag of the client's connection. *)
Record WQClient := mkWC { wc_gone : bool; ignoreCount : Z; OS_COMM_IGNORED : bool }.

(** Which clients the server waits for: the lists of clients with input, which a client is in at
    most one of, the client that grabs the server (0 when none does), and of the clients
    those with a connection, those that no grab shuts out, and those whose
    connection is polled for input. *)
Record ServerComm := mkComm {
  isItTimeToYield : bool;
  ready_clients : list nat; saved_ready_clients : list nat;
  GrabInProgress : nat;
  connected : gset nat; grab_impervious : gset nat; listening : gset nat
}.

Record WQState := mkWS {
  workQueue : option nat;
  wq_cells : gmap nat WorkQueueRec;
  workQueueLast : link;
  wq_fresh : nat;
  sleepQueue : list SleepQueueRec;
  wq_clients : gmap nat WQClient;
  wq_mem : oracle;
  wq_comm : ServerComm
}.

#[export] Instance link_eq_dec : EqDecision link.
Proof. solve_decision. Defined.

Definition set_cells (s : WQState) (c : gmap nat WorkQueueRec) : WQState :=
  mkWS (workQueue s) c (workQueueLast s) (wq_fresh s) (sleepQueue s) (wq_clients s) (wq_mem s) (wq_comm s).

Definition set_last (s : WQState) (p : link) : WQState :=
  mkWS (workQueue s) (wq_cells s) p (wq_fresh s) (sleepQueue s) (wq_clients s) (wq_mem s) (wq_comm s).

Definition set_sleepers (s : WQState) (q : list SleepQueueRec) (c : gmap nat WQClient) : WQState :=
  mkWS (workQueue s) (wq_cells s) (workQueueLast s) (wq_fresh s) q c (wq_mem s) (wq_comm s).

Definition set_comm (s : WQState) (o : ServerComm) : WQState :=
  mkWS (workQueue s) (wq_cells s) (workQueueLast s) (wq_fresh s) (sleepQueue s) (wq_clients s) (wq_mem s) o.

Definition load_cell (s : WQState) (q : nat) : result WorkQueueRec := of_option Dangling (wq_cells s !! q).

(** [*p] *)
Definition load_link (s : WQState) (p : link) : result (option nat) :=
  match p with Anchor => Ok (workQueue s) | NextOf q => c ← load_cell s q; Ok (wq_next c) end.

(** [*p = v] *)
Definition store_link (s : WQState) (p : link) (v : option nat) : result WQState :=
  match p with
  | Anchor => Ok (mkWS v (wq_cells s) (workQueueLast s) (wq_fresh s) (sleepQueue s) (wq_clients s) (wq_mem s) (wq_comm s))
  | NextOf q => c ← load_cell s q; Ok (set_cells s (<[q := mkWQ (wq_work c) v]> (wq_cells s)))
  end.

Definition load_client (s : WQState) (c : nat) : result WQClient := of_option Dangling (wq_clients s !! c).

(** ** Queueing *)

Definition QueueWorkProc (s : WQState) (f : Z) (client : option nat) (c : Z) : result (bool * WQState) :=
  let '(ok, o) := alloc (wq_mem s) in
  let q := wq_fresh s in
  let s := mkWS (workQueue s) (wq_cells s) (workQueueLast s) (S q) (sleepQueue s) (wq_clients s) o (wq_comm s) in
  if negb ok then Ok (false, s) else
  let s := set_cells s (<[q := mkWQ (mkWork f client c) None]> (wq_cells s)) in
  s ← store_link s (workQueueLast s) (Some q);
  Ok (true, set_last s (NextOf q)).

(** ** The walks *)

Section Walk.
(** The work procedures. *)
Context (run : Work -> WQState -> result (bool * WQState)).

(** [*p = q->next; xfree(q)] *)
Definition remove_cell (s : WQState) (p : link) (q : nat) : result WQState :=
  c ← load_cell s q;
  s ← store_link s p (wq_next c);
  Ok (set_cells s (delete q (wq_cells s))).

(** The loop of [ProcessWorkQueue]: the procedures called, each with what it returned. *)
Fixpoint work_loop (fuel : nat) (s : WQState) (p : link) : result (list (Work * bool) * WQState) :=
  q ← load_link s p;
  match q with
  | None => Ok ([], set_last s p)
  | Some q =>
      match fuel with
      | O => Err OutOfFuel
      | S fuel =>
          c ← load_cell s q;
          '(done, s) ← run (wq_work c) s;
          '(calls, s) ← (if done : bool then s ← remove_cell s p q; work_loop fuel s p else work_loop fuel s (NextOf q));
          Ok ((wq_work c, done) :: calls, s)
      end
  end.

Definition ProcessWorkQueue (fuel : nat) (s : WQState) : result (list (Work * bool) * WQState) :=
  work_loop fuel s Anchor.

Definition client_gone (s : WQState) (w : Work) : result bool :=
  match wq_client w with None => Ok false | Some c => c ← load_client s c; Ok (wc_gone c) end.

(** The loop of [ProcessWorkQueueZombies]. *)
Fixpoint zombie_loop (fuel : nat) (s : WQState) (p : link) : result (list Work * WQState) :=
  q ← load_link s p;
  match q with
  | None => Ok ([], set_last s p)
  | Some q =>
      match fuel with
      | O => Err OutOfFuel
      | S fuel =>
          c ← load_cell s q;
          gone ← client_gone s (wq_work c);
          if gone : bool then
            '(_, s) ← run (wq_work c) s;
            s ← remove_cell s p q;
            '(calls, s) ← zombie_loop fuel s p;
            Ok (wq_work c :: calls, s)
          else zombie_loop fuel s (NextOf q)
      end
  end.

Definition ProcessWorkQueueZombies (fuel : nat) (s : WQState) : result (list Work * WQState) :=
  zombie_loop fuel s Anchor.

End Walk.

(** ** Sleeping clients *)

(** *** Waiting for clients (dix/dispatch.c, os/connection.c) *)

Definition set_yield (o : ServerComm) : ServerComm :=
  mkComm true (ready_clients o) (saved_ready_clients o) (GrabInProgress o) (connected o) (grab_impervious o) (listening o).
Definition set_ready (o : ServerComm) (l saved : list nat) : ServerComm :=
  mkComm (isItTimeToYield o) l saved (GrabInProgress o) (connected o) (grab_impervious o) (listening o).
Definition set_listening (o : ServerComm) (l : gset nat) : ServerComm :=
  mkComm (isItTimeToYield o) (ready_clients o) (saved_ready_clients o) (GrabInProgress o) (connected o) (grab_impervious o) l.

(** [xorg_list_is_empty(&client->ready)], when it is false *)
Definition is_marked (o : ServerComm) (client : nat) : bool :=
  bool_decide (client ∈ ready_clients o) || bool_decide (client ∈ saved_ready_clients o).

Definition mark_client_ready (client : nat) (o : ServerComm) : ServerComm :=
  if is_marked o client then o else set_ready o (ready_clients o ++ [client]) (saved_ready_clients o).
Definition mark_client_saved_ready (client : nat) (o : ServerComm) : ServerComm :=
  if is_marked o client then o else set_ready o (ready_clients o) (saved_ready_clients o ++ [client]).
Definition mark_client_not_ready (client : nat) (o : ServerComm) : ServerComm :=
  set_ready o (filter (.≠ client) (ready_clients o)) (filter (.≠ client) (saved_ready_clients o)).

(** [ignored] is the flag [OS_COMM_IGNORED]. *)
Definition listen_to_client (client : nat) (ignored : bool) (o : ServerComm) : bool :=
  if ignored then false
  else if Nat.eqb (GrabInProgress o) 0 then true
  else if Nat.eqb client (GrabInProgress o) then true
  else bool_decide (client ∈ grab_impervious o).

Definition set_poll_client (client : nat) (ignored : bool) (o : ServerComm) : ServerComm :=
  if bool_decide (client ∈ connected o) then
    set_listening o (if listen_to_client client ignored o then {[client]} ∪ listening o else listening o ∖ {[client]})
  else o.

(** What [IgnoreClient] does besides counting when it is the first, and [AttendClient] when it is the last *)
Definition comm_ignore (client : nat) (o : ServerComm) : ServerComm :=
  set_poll_client client true (mark_client_not_ready client (set_yield o)).
Definition comm_attend (client : nat) (o : ServerComm) : ServerComm :=
  let o := set_poll_client client false o in
  if listen_to_client client false o then mark_client_ready client o else mark_client_saved_ready client o.

Definition IgnoreClient (s : WQState) (client : nat) : result WQState :=
  c ← load_client s client;
  let n := ignoreCount c + 1 in
  let c := mkWC (wc_gone c) n (if 1 <? n then OS_COMM_IGNORED c else true) in
  let s := set_sleepers s (sleepQueue s) (<[client := c]> (wq_clients s)) in
  Ok (if 1 <? n then s else set_comm s (comm_ignore client (wq_comm s))).

Definition AttendClient (s : WQState) (client : nat) : result WQState :=
  c ← load_client s client;
  if wc_gone c then Ok s else
  let n := ignoreCount c - 1 in
  let c := mkWC (wc_gone c) n (if negb (n =? 0) then OS_COMM_IGNORED c else false) in
  let s := set_sleepers s (sleepQueue s) (<[client := c]> (wq_clients s)) in
  Ok (if negb (n =? 0) then s else set_comm s (comm_attend client (wq_comm s))).

Definition ClientSleep (s : WQState) (client : nat) (f : Z) (c : Z) : result (bool * WQState) :=
  let '(ok, o) := alloc (wq_mem s) in
  let s := mkWS (workQueue s) (wq_cells s) (workQueueLast s) (wq_fresh s) (sleepQueue s) (wq_clients s) o (wq_comm s) in
  if negb ok then Ok (false, s) else
  s ← IgnoreClient s client;
  Ok (true, set_sleepers s (mkSQ client f c :: sleepQueue s) (wq_clients s)).

Definition find_sleeper (client : nat) (q : list SleepQueueRec) : option SleepQueueRec :=
  List.find (fun e => Nat.eqb (sq_client e) client) q.

Definition ClientSignal (s : WQState) (client : nat) : result (bool * WQState) :=
  match find_sleeper client (sleepQueue s) with
  | Some e => QueueWorkProc s (sq_function e) (Some (sq_client e)) (sq_closure e)
  | None => Ok (false, s)
  end.

(** The queue without the first entry of a client. *)
Fixpoint drop_sleeper (client : nat) (q : list SleepQueueRec) : list SleepQueueRec :=
  match q with
  | [] => []
  | e :: q => if Nat.eqb (sq_client e) client then q else e :: drop_sleeper client q
  end.

Definition ClientWakeup (s : WQState) (client : nat) : result WQState :=
  match find_sleeper client (sleepQueue s) with
  | None => Ok s
  | Some _ =>
      let s := set_sleepers s (drop_sleeper client (sleepQueue s)) (wq_clients s) in
      c ← load_client s client;
      if wc_gone c then Ok s else AttendClient s client
  end.

Definition ClientIsAsleep (s : WQState) (client : nat) : bool :=
  existsb (fun e => Nat.eqb (sq_client e) client) (sleepQueue s).
