(* ===== verification/WorkQueueProofs.v ===== *)
(** * WorkQueueProofs: the work queue is a list (dix/dixutils.c)

    An abstract queue, a list walked by index, and the refinement of it by the linked cells
    of WorkQueue, whatever the work procedures queue while the queue is walked. *)

From S2P Require Import Prelude Atom ResourceDB WorkQueue.

#[local] Set Warnings "-clear-no-such-hyp".

(** ** Chains of cells *)

(** From [q] through the cells [xs] with the work [ws] to [r]. *)
Fixpoint lseg (cells : gmap nat WorkQueueRec) (q : option nat) (xs : list nat) (ws : list Work) (r : option nat) : Prop :=
  match xs, ws with
  | [], [] => q = r
  | x :: xs, w :: ws => q = Some x ∧ ∃ n, cells !! x = Some (mkWQ w n) ∧ lseg cells n xs ws r
  | _, _ => False
  end.

Lemma lseg_length cells q xs ws r : lseg cells q xs ws r -> length xs = length ws.
Proof. revert q ws. induction xs as [|x xs IH]; intros q [|w ws]; simpl; try done. intros (_ & n & _ & H). f_equal. by eapply IH. Qed.

Lemma lseg_app cells q xs ws m ys vs r :
  lseg cells q xs ws m -> lseg cells m ys vs r -> lseg cells q (xs ++ ys) (ws ++ vs) r.
Proof.
  revert q ws. induction xs as [|x xs IH]; intros q [|w ws]; simpl; try done; [by intros ->|].
  intros (-> & n & Hn & H) H2. split; [done|]. exists n. split; [done|]. by apply IH.
Qed.

Lemma lseg_app_inv cells q xs ys ws r :
  lseg cells q (xs ++ ys) ws r ->
  ∃ ws1 ws2 m, ws = ws1 ++ ws2 ∧ lseg cells q xs ws1 m ∧ lseg cells m ys ws2 r.
Proof.
  revert q ws. induction xs as [|x xs IH]; intros q ws; simpl; [by exists [], ws, q|].
  destruct ws as [|w ws]; [done|]. intros (-> & n & Hn & H). destruct (IH _ _ H) as (w1 & w2 & m & -> & H1 & H2).
  exists (w :: w1), w2, m. split; [done|]. split; [|done]. simpl. split; [done|]. by exists n.
Qed.

Lemma lseg_ext cells cells' q xs ws r :
  (∀ x, x ∈ xs -> cells' !! x = cells !! x) -> lseg cells q xs ws r -> lseg cells' q xs ws r.
Proof.
  revert q ws. induction xs as [|x xs IH]; intros q [|w ws] He; simpl; try done.
  intros (-> & n & Hn & H). split; [done|]. exists n. split; [by rewrite He by by left|]. apply IH; [|done].
  intros y Hy. apply He. by right.
Qed.

Lemma lseg_det cells q xs ws ws' r r' : lseg cells q xs ws r -> lseg cells q xs ws' r' -> ws = ws' ∧ r = r'.
Proof.
  revert q ws ws'. induction xs as [|x xs IH]; intros q [|w ws] [|w' ws']; simpl; try done; [by intros -> ->|].
  intros (-> & n & Hn & H) (_ & n' & Hn' & H'). rewrite Hn in Hn'. injection Hn' as <- <-.
  by destruct (IH _ _ _ H H') as [-> ->].
Qed.

(** The link behind a chain that starts at [workQueue]. *)
Definition last_link (xs : list nat) : link := match last xs with None => Anchor | Some x => NextOf x end.

Lemma last_link_snoc xs x : last_link (xs ++ [x]) = NextOf x.
Proof. unfold last_link. by rewrite last_snoc. Qed.

Lemma load_last s xs ws m : lseg (wq_cells s) (workQueue s) xs ws m -> load_link s (last_link xs) = Ok m.
Proof.
  destruct xs as [|x xs _] using rev_ind; intros H.
  { destruct ws; [by simpl in *; subst|done]. }
  apply lseg_app_inv in H as (w1 & w2 & n & -> & _ & H2). rewrite last_link_snoc. cbn [load_link].
  destruct w2 as [|w [|? ?]]; simpl in H2; [done| |by destruct H2 as (_ & ? & _ & ?)]. destruct H2 as (-> & n' & Hn & <-).
  unfold load_cell. by rewrite Hn.
Qed.

(** What a store to the link behind a chain leaves as it was. *)
Record same_but_cells (s s' : WQState) (xs : list nat) : Prop := {
  sb_other : ∀ q, q ∉ xs -> wq_cells s' !! q = wq_cells s !! q;
  sb_dom : ∀ q, is_Some (wq_cells s' !! q) -> is_Some (wq_cells s !! q);
  sb_last : workQueueLast s' = workQueueLast s;
  sb_fresh : wq_fresh s' = wq_fresh s;
  sb_sleep : sleepQueue s' = sleepQueue s;
  sb_clients : wq_clients s' = wq_clients s;
  sb_mem : wq_mem s' = wq_mem s;
  sb_comm : wq_comm s' = wq_comm s
}.

Lemma store_last s xs ws m v :
  NoDup xs -> lseg (wq_cells s) (workQueue s) xs ws m ->
  ∃ s', store_link s (last_link xs) v = Ok s' ∧ lseg (wq_cells s') (workQueue s') xs ws v ∧ same_but_cells s s' xs.
Proof.
  destruct xs as [|x xs _] using rev_ind; intros Hnd H.
  { destruct ws; [|done]. eexists. split; [done|]. by split. }
  apply lseg_app_inv in H as (w1 & w2 & n & -> & H1 & H2). rewrite last_link_snoc. cbn [store_link].
  destruct w2 as [|w [|? ?]]; simpl in H2; [done| |by destruct H2 as (_ & ? & _ & ?)]. destruct H2 as (-> & n' & Hn & <-).
  unfold load_cell. rewrite Hn. cbn [of_option mbind result_bind wq_work]. eexists. split; [done|].
  apply NoDup_app in Hnd as (Hnd & Hx & _). split.
  - apply lseg_app with (Some x).
    + eapply lseg_ext; [|done]. intros y Hy. simpl. apply lookup_insert_ne. intros ->. by apply (Hx y Hy), list_elem_of_singleton.
    + simpl. split; [done|]. exists v. by rewrite lookup_insert_eq.
  - split; try done; simpl; intros q Hq.
    + apply lookup_insert_ne. intros ->. apply Hq, elem_of_app. right. by left.
    + destruct (decide (x = q)) as [->|Hne]; [by rewrite Hn|by rewrite lookup_insert_ne in Hq].
Qed.

(** ** The abstract queue *)

Record AState := mkA {
  a_queue : list Work; a_sleep : list SleepQueueRec; a_clients : gmap nat WQClient; a_mem : oracle; a_comm : ServerComm
}.

Definition a_set_queue (a : AState) (q : list Work) : AState := mkA q (a_sleep a) (a_clients a) (a_mem a) (a_comm a).

(** A procedure called, what it returned, and what it queued. *)
Definition a_call : Type := Work * bool * list Work.

Section Abstract.
Context (arun : Work -> AState -> result (bool * AState)).

(** The walk by index: an entry leaves the queue when its procedure says so. *)
Fixpoint a_work_loop (fuel : nat) (a : AState) (i : nat) : result (list a_call * AState) :=
  match a_queue a !! i with
  | None => Ok ([], a)
  | Some w =>
      match fuel with
      | O => Err OutOfFuel
      | S fuel =>
          '(done, a') ← arun w a;
          let queued := drop (length (a_queue a)) (a_queue a') in
          '(calls, a'') ← (if done : bool then a_work_loop fuel (a_set_queue a' (delete i (a_queue a'))) i
                           else a_work_loop fuel a' (S i));
          Ok ((w, done, queued) :: calls, a'')
      end
  end.

Definition a_client_gone (a : AState) (w : Work) : result bool :=
  match wq_client w with None => Ok false | Some c => c ← of_option Dangling (a_clients a !! c); Ok (wc_gone c) end.

Fixpoint a_zombie_loop (fuel : nat) (a : AState) (i : nat) : result (list Work * AState) :=
  match a_queue a !! i with
  | None => Ok ([], a)
  | Some w =>
      match fuel with
      | O => Err OutOfFuel
      | S fuel =>
          gone ← a_client_gone a w;
          if gone : bool then
            '(_, a) ← arun w a;
            '(calls, a) ← a_zombie_loop fuel (a_set_queue a (delete i (a_queue a))) i;
            Ok (w :: calls, a)
          else a_zombie_loop fuel a (S i)
      end
  end.
End Abstract.

(** ** Representation *)

(** The cells [xs] hold the queue of [a]. *)
Record wq_rep (s : WQState) (xs : list nat) (a : AState) : Prop := {
  wr_seg : lseg (wq_cells s) (workQueue s) xs (a_queue a) None;
  wr_last : workQueueLast s = last_link xs;
  wr_nodup : NoDup xs;
  wr_dom : ∀ q, is_Some (wq_cells s !! q) -> q ∈ xs;
  wr_fresh : ∀ q, q ∈ xs -> (q < wq_fresh s)%nat;
  wr_sleep : sleepQueue s = a_sleep a;
  wr_clients : wq_clients s = a_clients a;
  wr_mem : wq_mem s = a_mem a;
  wr_comm : wq_comm s = a_comm a
}.

(** Two outcomes agree: the same error, or the same value and related states. *)
Definition agree {A} (s : WQState) (xs : list nat) (a : AState) (r : result (A * WQState)) (ar : result (A * AState)) : Prop :=
  match ar with
  | Err e => r = Err e
  | Ok (v, a') => ∃ s' new ws, r = Ok (v, s') ∧ wq_rep s' (xs ++ new) a' ∧ a_queue a' = a_queue a ++ ws
  end.

(** What the work procedures may do: anything that only appends to the queue. *)
Class WorkRefines (run : Work -> WQState -> result (bool * WQState)) (arun : Work -> AState -> result (bool * AState)) : Prop :=
  work_refines : ∀ w s xs a, wq_rep s xs a -> agree s xs a (run w s) (arun w a).

Definition a_QueueWorkProc (a : AState) (f : Z) (client : option nat) (c : Z) : result (bool * AState) :=
  let '(ok, o) := alloc (a_mem a) in
  if negb ok then Ok (false, mkA (a_queue a) (a_sleep a) (a_clients a) o (a_comm a))
  else Ok (true, mkA (a_queue a ++ [mkWork f client c]) (a_sleep a) (a_clients a) o (a_comm a)).

Lemma QueueWorkProc_agree s xs a f client c :
  wq_rep s xs a -> agree s xs a (QueueWorkProc s f client c) (a_QueueWorkProc a f client c).
Proof.
  intros [H1 H2 H3 H4 H5 H6 H7 H8 H9]. unfold QueueWorkProc, a_QueueWorkProc. rewrite H8.
  destruct (alloc (a_mem a)) as [[] o]; cbn [negb agree].
  2: { eexists _, [], []. split; [done|]. rewrite !app_nil_r. split; [|done].
       split; try done. intros q Hq. simpl. specialize (H5 q Hq). lia. }
  set (s1 := mkWS (workQueue s) (wq_cells s) (workQueueLast s) (S (wq_fresh s)) (sleepQueue s) (wq_clients s) o (wq_comm s)).
  assert (Hf : wq_fresh s ∉ xs) by (intros Hin; specialize (H5 _ Hin); lia).
  set (s2 := set_cells s1 _).
  assert (Hseg : lseg (wq_cells s2) (workQueue s2) xs (a_queue a) None).
  { eapply lseg_ext; [|done]. intros y Hy. simpl. apply lookup_insert_ne. congruence. }
  destruct (store_last s2 _ _ _ (Some (wq_fresh s)) H3 Hseg) as (s3 & E & Hs3 & [O1 O2 O3 O4 O5 O6 O7 O8]).
  simpl workQueueLast. rewrite H2, E. cbn [mbind result_bind]. eexists _, [wq_fresh s], [_]. split; [done|]. split; [|done].
  split; cbn [a_queue a_sleep a_clients a_mem a_comm set_last workQueue wq_cells workQueueLast wq_fresh sleepQueue wq_clients wq_mem wq_comm].
  - eapply lseg_app; [done|]. simpl. split; [done|]. exists None. split; [|done].
    rewrite O1 by done. simpl. by rewrite lookup_insert_eq.
  - by rewrite last_link_snoc.
  - apply NoDup_app. split_and!; [done| |by apply NoDup_singleton]. intros y Hy ->%list_elem_of_singleton. done.
  - intros q Hq%O2. simpl in Hq. apply elem_of_app. destruct (decide (wq_fresh s = q)) as [<-|Hne]; [right; by left|].
    left. apply H4. by rewrite lookup_insert_ne in Hq.
  - rewrite O4. simpl. intros q [Hq|Hq%list_elem_of_singleton]%elem_of_app; [specialize (H5 q Hq)|]; lia.
  - by rewrite O5.
  - by rewrite O6.
  - by rewrite O7.
  - by rewrite O8.
Qed.

(** ** The walks refine the walk by index *)

(** In the middle of a walk, behind the cells [ks]: once the last cell has been removed the
    pointer to the last link is stale until the walk ends. *)
Definition wq_walk (s : WQState) (ks xs : list nat) (a : AState) : Prop :=
  wq_rep (set_last s (last_link (ks ++ xs))) (ks ++ xs) a ∧ (xs <> [] -> workQueueLast s = last_link (ks ++ xs)).

Lemma walk_start s xs a : wq_rep s xs a -> wq_walk s [] xs a.
Proof. intros [H1 H2 H3 H4 H5 H6 H7 H8 H9]. split; [by split|done]. Qed.

Lemma walk_rep s ks x xs a : wq_walk s ks (x :: xs) a -> wq_rep s (ks ++ x :: xs) a.
Proof. intros [[H1 H2 H3 H4 H5 H6 H7 H8 H9] Hl]. split; try done. by apply Hl. Qed.

Lemma walk_skip s ks x xs a : wq_rep s (ks ++ x :: xs) a -> wq_walk s (ks ++ [x]) xs a.
Proof.
  intros [H1 H2 H3 H4 H5 H6 H7 H8 H9]. unfold wq_walk. rewrite <- (app_assoc ks [x] xs). simpl.
  split; [by split|done].
Qed.

Lemma walk_seg s ks xs a :
  wq_walk s ks xs a -> ∃ kw w m, a_queue a = kw ++ w ∧ length kw = length ks ∧
    lseg (wq_cells s) (workQueue s) ks kw m ∧ lseg (wq_cells s) m xs w None.
Proof.
  intros [[H1 _ _ _ _ _ _ _] _]. apply lseg_app_inv in H1 as (kw & w & m & Eq & Hk & Hx).
  exists kw, w, m. split; [done|]. split; [symmetry; by eapply lseg_length|]. by split.
Qed.

Lemma walk_load s ks xs a : wq_walk s ks xs a -> load_link s (last_link ks) = Ok (head xs).
Proof.
  intros H. apply walk_seg in H as (kw & w & m & _ & _ & Hk & Hx). rewrite (load_last _ _ _ _ Hk). f_equal.
  destruct xs, w; simpl in *; try done. by destruct Hx as [-> _].
Qed.

(** The current cell and the entry of the abstract queue. *)
Lemma walk_entry s ks x xs a :
  wq_walk s ks (x :: xs) a ->
  ∃ w n, wq_cells s !! x = Some (mkWQ w n) ∧ a_queue a !! length ks = Some w.
Proof.
  intros H. apply walk_seg in H as (kw & ws & m & Eq & El & _ & Hx). destruct ws as [|w ws]; [done|].
  destruct Hx as (_ & n & Hn & _). exists w, n. split; [done|]. by rewrite Eq, <- El, list_lookup_middle.
Qed.

Lemma walk_end s ks a : wq_walk s ks [] a -> a_queue a !! length ks = None.
Proof.
  intros H. apply walk_seg in H as (kw & w & m & Eq & El & _ & Hx). destruct w; [|done].
  rewrite Eq, app_nil_r, <- El. by apply lookup_ge_None.
Qed.

Lemma remove_cell_walk s ks x xs a :
  wq_rep s (ks ++ x :: xs) a ->
  ∃ s', remove_cell s (last_link ks) x = Ok s' ∧ wq_walk s' ks xs (a_set_queue a (delete (length ks) (a_queue a))).
Proof.
  intros [H1 H2 H3 H4 H5 H6 H7 H8 H9]. apply lseg_app_inv in H1 as (kw & [|w ws] & m & Eq & Hk & Hx); [done|].
  destruct Hx as (-> & n & Hn & Hx). unfold remove_cell, load_cell. rewrite Hn. cbn [of_option mbind result_bind wq_next].
  apply NoDup_app in H3 as (N1 & N2 & N3). apply NoDup_cons in N3 as [N3 N4].
  destruct (store_last s ks kw (Some x) n N1 Hk) as (s1 & -> & Hs1 & [O1 O2 O3 O4 O5 O6 O7 O8]). cbn [mbind result_bind].
  eexists. split; [done|].
  assert (Hdel : delete (length ks) (a_queue a) = kw ++ ws).
  { rewrite Eq, (lseg_length _ _ _ _ _ Hk). by rewrite delete_middle. }
  rewrite Hdel. split; [split; cbn [set_last set_cells workQueue wq_cells workQueueLast wq_fresh sleepQueue wq_clients wq_mem wq_comm
    a_set_queue a_queue a_sleep a_clients a_mem a_comm]|]; try congruence.
  - apply lseg_app with n.
    + eapply lseg_ext; [|done]. intros y Hy. apply lookup_delete_ne. intros ->. by apply (N2 y Hy); left.
    + eapply lseg_ext; [|done]. intros y Hy. rewrite lookup_delete_ne; [apply O1|congruence].
      intros Hin. by apply (N2 y Hin); right.
  - apply NoDup_app. split_and!; [done| |done]. intros y Hy Hy'. by apply (N2 y Hy); right.
  - intros q [y [Hqx Hq]%lookup_delete_Some]. assert (Hin : q ∈ ks ++ x :: xs) by (apply H4, O2; by eexists).
    set_solver.
  - rewrite O4. intros q Hq. apply H5. set_solver.
  - intros Hne. simpl. rewrite O3, H2. unfold last_link. rewrite !last_app. simpl. by destruct xs, (last _) eqn:E.
Qed.

Section Refine.
Context {run : Work -> WQState -> result (bool * WQState)} {arun : Work -> AState -> result (bool * AState)}.
Context `{!WorkRefines run arun}.

Lemma work_loop_refines fuel s ks xs a :
  wq_walk s ks xs a ->
  match a_work_loop arun fuel a (length ks) with
  | Err e => work_loop run fuel s (last_link ks) = Err e
  | Ok (calls, a') => ∃ s' xs', work_loop run fuel s (last_link ks) = Ok (fst <$> calls, s') ∧ wq_rep s' xs' a'
  end.
Proof.
  revert s ks xs a. induction fuel as [|fuel IH]; intros s ks [|x xs] a H; pose proof (walk_load _ _ _ _ H) as Hl.
  1, 3: pose proof (walk_end _ _ _ H) as Hn; cbn [a_work_loop work_loop]; rewrite Hn, Hl; cbn [mbind result_bind head];
    eexists _, ks; split; [done|]; destruct H as [H _]; by rewrite app_nil_r in H.
  { destruct (walk_entry _ _ _ _ _ H) as (w & n & Hc & Hw). cbn [a_work_loop work_loop]. by rewrite Hw, Hl. }
  destruct (walk_entry _ _ _ _ _ H) as (w & n & Hc & Hw). cbn [a_work_loop work_loop]. rewrite Hw, Hl.
  cbn [mbind result_bind head]. unfold load_cell. rewrite Hc. cbn [of_option mbind result_bind wq_work].
  pose proof (work_refines (run := run) w s _ a (walk_rep _ _ _ _ _ H)) as Hr. unfold agree in Hr.
  destruct (arun w a) as [[b a1]|e]; [|rewrite Hr; done]. destruct Hr as (s1 & new & ws & -> & Hs1 & Eq).
  rewrite <- app_assoc in Hs1. cbn [mbind result_bind app] in *. destruct b.
  - destruct (remove_cell_walk _ _ _ _ _ Hs1) as (s2 & -> & Hs2). cbn [mbind result_bind].
    specialize (IH _ _ _ _ Hs2). destruct (a_work_loop _ _ _ _) as [[calls a2]|e]; [|by rewrite IH].
    destruct IH as (s' & xs' & -> & H'). by exists s', xs'.
  - apply walk_skip in Hs1. specialize (IH _ _ _ _ Hs1). rewrite length_app, Nat.add_1_r, last_link_snoc in IH.
    destruct (a_work_loop _ _ _ _) as [[calls a2]|e]; [|by rewrite IH].
    destruct IH as (s' & xs' & -> & H'). by exists s', xs'.
Qed.

Lemma client_gone_agree s xs a w : wq_rep s xs a -> client_gone s w = a_client_gone a w.
Proof. intros H. unfold client_gone, a_client_gone, load_client. by rewrite (wr_clients _ _ _ H). Qed.

Lemma zombie_loop_refines fuel s ks xs a :
  wq_walk s ks xs a ->
  match a_zombie_loop arun fuel a (length ks) with
  | Err e => zombie_loop run fuel s (last_link ks) = Err e
  | Ok (calls, a') => ∃ s' xs', zombie_loop run fuel s (last_link ks) = Ok (calls, s') ∧ wq_rep s' xs' a'
  end.
Proof.
  revert s ks xs a. induction fuel as [|fuel IH]; intros s ks [|x xs] a H; pose proof (walk_load _ _ _ _ H) as Hl.
  1, 3: pose proof (walk_end _ _ _ H) as Hn; cbn [a_zombie_loop zombie_loop]; rewrite Hn, Hl; cbn [mbind result_bind head];
    eexists _, ks; split; [done|]; destruct H as [H _]; by rewrite app_nil_r in H.
  { destruct (walk_entry _ _ _ _ _ H) as (w & n & Hc & Hw). cbn [a_zombie_loop zombie_loop]. by rewrite Hw, Hl. }
  destruct (walk_entry _ _ _ _ _ H) as (w & n & Hc & Hw). cbn [a_zombie_loop zombie_loop]. rewrite Hw, Hl.
  cbn [mbind result_bind head]. unfold load_cell. rewrite Hc. cbn [of_option mbind result_bind wq_work].
  apply walk_rep in H. rewrite (client_gone_agree _ _ _ w H). destruct (a_client_gone a w) as [[]|e]; cbn [mbind result_bind]; [| |done].
  - pose proof (work_refines (run := run) w s _ a H) as Hr. unfold agree in Hr.
    destruct (arun w a) as [[b a1]|e]; [|rewrite Hr; done]. destruct Hr as (s1 & new & ws & -> & Hs1 & Eq).
    rewrite <- app_assoc in Hs1. cbn [mbind result_bind app] in *.
    destruct (remove_cell_walk _ _ _ _ _ Hs1) as (s2 & -> & Hs2). cbn [mbind result_bind].
    specialize (IH _ _ _ _ Hs2). destruct (a_zombie_loop _ _ _ _) as [[calls a2]|e]; [|by rewrite IH].
    destruct IH as (s' & xs' & -> & H'). by exists s', xs'.
  - apply walk_skip in H. specialize (IH _ _ _ _ H). rewrite length_app, Nat.add_1_r, last_link_snoc in IH.
    by destruct (a_zombie_loop _ _ _ _) as [[calls a2]|e].
Qed.
End Refine.

(** ** Termination and order *)

Definition total (weight : Work -> nat) (ws : list Work) : nat := foldr (fun w n => (weight w + n)%nat) 0%nat ws.

Lemma total_app weight a b : total weight (a ++ b) = (total weight a + total weight b)%nat.
Proof. induction a as [|w a IH]; simpl; [done|]. unfold total in *. rewrite IH. lia. Qed.

(** Each procedure succeeds under the invariant [I] and queues work of less weight than it has
    itself, so that the queue drains. *)
Class Draining (arun : Work -> AState -> result (bool * AState)) (weight : Work -> nat) (I : AState -> Prop) : Prop := {
  dr_step : ∀ w a, I a -> ∃ b a' ws, arun w a = Ok (b, a') ∧ I a' ∧
    a_queue a' = a_queue a ++ ws ∧ (total weight ws < weight w)%nat;
  dr_queue : ∀ a q, I a -> I (a_set_queue a q)
}.

Definition called (calls : list a_call) : list Work := (λ c, c.1.1) <$> calls.
Definition queued (calls : list a_call) : list Work := calls ≫= snd.
Definition unfinished (calls : list a_call) : list Work := c ← calls; if c.1.2 : bool then [] else [c.1.1].

Lemma called_cons w b ws calls : called ((w, b, ws) :: calls) = w :: called calls.
Proof. done. Qed.
Lemma queued_cons w b ws calls : queued ((w, b, ws) :: calls) = ws ++ queued calls.
Proof. done. Qed.
Lemma unfinished_cons w b ws calls : unfinished ((w, b, ws) :: calls) = (if b : bool then [] else [w]) ++ unfinished calls.
Proof. by destruct b. Qed.

(** The calls of a walk from entry [i] on: those of the queue in order, then what they queued. *)
Record walk_calls (calls : list a_call) (i : nat) (a a' : AState) : Prop := {
  wc_called : called calls = drop i (a_queue a) ++ queued calls;
  wc_left : a_queue a' = take i (a_queue a) ++ unfinished calls
}.

Lemma a_work_loop_drains arun weight I `{!Draining arun weight I} fuel a i :
  I a -> (i <= length (a_queue a))%nat -> (total weight (drop i (a_queue a)) <= fuel)%nat ->
  ∃ calls a', a_work_loop arun fuel a i = Ok (calls, a') ∧ I a' ∧ walk_calls calls i a a'.
Proof.
  revert a i. induction fuel as [|fuel IH]; intros a i HI Hi Hf; cbn [a_work_loop];
    destruct (a_queue a !! i) as [w|] eqn:Hw.
  2, 4: exists [], a; split; [done|]; split; [done|]; apply lookup_ge_None in Hw;
    (constructor; [by rewrite drop_ge|by rewrite take_ge, app_nil_r]).
  all: rewrite (drop_S _ _ _ Hw) in Hf; simpl in Hf; destruct (dr_step w a HI) as (b & a1 & ws & E & HI1 & Eq & Hw1).
  { lia. }
  rewrite E. cbn [mbind result_bind]. pose proof (lookup_lt_Some _ _ _ Hw) as Hlt.
  assert (Hq : drop (length (a_queue a)) (a_queue a1) = ws) by (rewrite Eq; by rewrite drop_app_length).
  assert (Hd : drop i (delete i (a_queue a1)) = drop (S i) (a_queue a) ++ ws).
  { rewrite Eq, delete_take_drop, drop_app_le, drop_ge by (rewrite length_take, length_app; lia). simpl.
    by rewrite drop_app_le by lia. }
  destruct b; cbn [mbind result_bind].
  - destruct (IH (a_set_queue a1 (delete i (a_queue a1))) i) as (calls & a' & -> & HI' & [Hc Hl]).
    { by apply dr_queue. }
    { simpl. rewrite length_delete; [|rewrite Eq, lookup_app_l by lia; by eexists]. rewrite Eq, length_app. lia. }
    { simpl. rewrite Hd, total_app. lia. }
    eexists _, a'. split; [done|]. split; [done|]. cbn [a_set_queue a_queue] in *. rewrite Hd in Hc. rewrite Hq. split.
    + rewrite called_cons, queued_cons, Hc, (drop_S _ _ _ Hw). simpl. by rewrite <- app_assoc.
    + rewrite Hl, unfinished_cons. cbn [app]. f_equal. rewrite Eq, delete_take_drop, take_app_le by (rewrite length_take, length_app; lia).
      rewrite take_take, Nat.min_id. by apply take_app_le; lia.
  - destruct (IH a1 (S i)) as (calls & a' & -> & HI' & [Hc Hl]); [done|rewrite Eq, length_app; lia| |].
    { rewrite Eq, drop_app_le, total_app by lia. lia. }
    eexists _, a'. split; [done|]. split; [done|]. rewrite Hq. rewrite Eq, drop_app_le in Hc by lia. split.
    + rewrite called_cons, queued_cons, Hc, (drop_S _ _ _ Hw). simpl. by rewrite <- app_assoc.
    + rewrite Hl, Eq, take_app_le, unfinished_cons by lia. rewrite (take_S_r _ _ w) by done. by rewrite <- app_assoc.
Qed.

(** ** Sleeping clients on the abstract queue *)

Definition a_set_sleepers (a : AState) (q : list SleepQueueRec) (c : gmap nat WQClient) : AState :=
  mkA (a_queue a) q c (a_mem a) (a_comm a).
Definition a_set_comm (a : AState) (o : ServerComm) : AState :=
  mkA (a_queue a) (a_sleep a) (a_clients a) (a_mem a) o.

Lemma rep_sleepers s xs a q c : wq_rep s xs a -> wq_rep (set_sleepers s q c) xs (a_set_sleepers a q c).
Proof. intros []. by split. Qed.

Lemma agree_ret {A} s s' xs a a' (v : A) : wq_rep s' xs a' -> a_queue a' = a_queue a -> agree s xs a (Ok (v, s')) (Ok (v, a')).
Proof. intros H E. exists s', [], []. by rewrite !app_nil_r. Qed.

Lemma agree_bind {A B} s xs a r ar (k : A -> WQState -> result (B * WQState)) (ak : A -> AState -> result (B * AState)) :
  agree s xs a r ar ->
  (∀ v s' xs' a', wq_rep s' xs' a' -> agree s' xs' a' (k v s') (ak v a')) ->
  agree s xs a ('(v, s) ← r; k v s) ('(v, a) ← ar; ak v a).
Proof.
  unfold agree at 1. destruct ar as [[v a1]|e]; [|by intros -> _]. intros (s1 & n1 & w1 & -> & H1 & E1) Hk.
  cbn [mbind result_bind]. specialize (Hk v s1 _ a1 H1). unfold agree in *.
  destruct (ak v a1) as [[v2 a2]|e]; [|done]. destruct Hk as (s2 & n2 & w2 & -> & H2 & E2).
  exists s2, (n1 ++ n2), (w1 ++ w2). split; [done|]. rewrite !app_assoc, <- E1. by split.
Qed.

Definition a_IgnoreClient (a : AState) (client : nat) : result AState :=
  c ← of_option Dangling (a_clients a !! client);
  let n := ignoreCount c + 1 in
  let c := mkWC (wc_gone c) n (if 1 <? n then OS_COMM_IGNORED c else true) in
  let a := a_set_sleepers a (a_sleep a) (<[client := c]> (a_clients a)) in
  Ok (if 1 <? n then a else a_set_comm a (comm_ignore client (a_comm a))).

Definition a_ClientSleep (a : AState) (client : nat) (f c : Z) : result (bool * AState) :=
  let '(ok, o) := alloc (a_mem a) in
  let a := mkA (a_queue a) (a_sleep a) (a_clients a) o (a_comm a) in
  if negb ok then Ok (false, a) else
  a ← a_IgnoreClient a client;
  Ok (true, a_set_sleepers a (mkSQ client f c :: a_sleep a) (a_clients a)).

Definition a_ClientSignal (a : AState) (client : nat) : result (bool * AState) :=
  match find_sleeper client (a_sleep a) with
  | Some e => a_QueueWorkProc a (sq_function e) (Some (sq_client e)) (sq_closure e)
  | None => Ok (false, a)
  end.

Definition a_ClientWakeup (a : AState) (client : nat) : result (bool * AState) :=
  match find_sleeper client (a_sleep a) with
  | None => Ok (true, a)
  | Some _ =>
      c ← of_option Dangling (a_clients a !! client);
      let c' := if wc_gone c then c else
        mkWC (wc_gone c) (ignoreCount c - 1) (if negb (ignoreCount c - 1 =? 0) then OS_COMM_IGNORED c else false) in
      let a := a_set_sleepers a (drop_sleeper client (a_sleep a)) (<[client := c']> (a_clients a)) in
      Ok (true, if wc_gone c || negb (ignoreCount c - 1 =? 0) then a else a_set_comm a (comm_attend client (a_comm a)))
  end.

Lemma ClientSleep_agree s xs a client f c : wq_rep s xs a -> agree s xs a (ClientSleep s client f c) (a_ClientSleep a client f c).
Proof.
  intros H. unfold ClientSleep, a_ClientSleep. rewrite (wr_mem _ _ _ H). destruct (alloc (a_mem a)) as [[] o]; cbn [negb].
  2: { apply agree_ret; [|done]. destruct H. by split. }
  unfold IgnoreClient, a_IgnoreClient, load_client. cbn [wq_clients a_clients]. rewrite (wr_clients _ _ _ H).
  destruct (a_clients a !! client) as [x|]; cbn [of_option mbind result_bind]; [|done].
  apply agree_ret; [|by destruct (1 <? _)]. destruct H as [H1 H2 H3 H4 H5 H6 H7 H8 H9]. destruct (1 <? _); split; try done; simpl; congruence.
Qed.

Lemma ClientSignal_agree s xs a client : wq_rep s xs a -> agree s xs a (ClientSignal s client) (a_ClientSignal a client).
Proof.
  intros H. unfold ClientSignal, a_ClientSignal. rewrite (wr_sleep _ _ _ H). destruct (find_sleeper client (a_sleep a)).
  - by apply QueueWorkProc_agree.
  - by apply agree_ret.
Qed.

Lemma ClientWakeup_agree s xs a client :
  wq_rep s xs a -> agree s xs a (s ← ClientWakeup s client; Ok (true, s)) (a_ClientWakeup a client).
Proof.
  intros H. unfold ClientWakeup, a_ClientWakeup. rewrite (wr_sleep _ _ _ H). destruct (find_sleeper client (a_sleep a)).
  2: { by apply agree_ret. }
  unfold load_client. cbn [wq_clients set_sleepers]. rewrite (wr_clients _ _ _ H).
  destruct (a_clients a !! client) as [x|] eqn:Ex; cbn [of_option mbind result_bind]; [|done].
  destruct (wc_gone x) eqn:Eg; cbn [mbind result_bind].
  - cbn [orb]. apply agree_ret; [|done]. rewrite insert_id by done. by apply rep_sleepers.
  - unfold AttendClient, load_client. cbn [wq_clients set_sleepers]. rewrite Ex. cbn [of_option mbind result_bind].
    rewrite Eg. cbn [mbind result_bind orb]. apply agree_ret; [|by destruct (negb _)]. destruct H. destruct (negb _); split; try done; simpl; congruence.
Qed.

(** ** Work procedures made of these operations *)

Inductive wq_action :=
  | DoQueueWorkProc (f : Z) (client : option nat) (c : Z)
  | DoClientSleep (client : nat) (f c : Z)
  | DoClientSignal (client : nat)
  | DoClientWakeup (client : nat).

Section Scripts.
(** What a work procedure does, and what it returns. *)
Context (script : Work -> list wq_action * bool).

Definition perform_wq (s : WQState) (a : wq_action) : result (bool * WQState) :=
  match a with
  | DoQueueWorkProc f client c => QueueWorkProc s f client c
  | DoClientSleep client f c => ClientSleep s client f c
  | DoClientSignal client => ClientSignal s client
  | DoClientWakeup client => s ← ClientWakeup s client; Ok (true, s)
  end.

Definition a_perform_wq (s : AState) (a : wq_action) : result (bool * AState) :=
  match a with
  | DoQueueWorkProc f client c => a_QueueWorkProc s f client c
  | DoClientSleep client f c => a_ClientSleep s client f c
  | DoClientSignal client => a_ClientSignal s client
  | DoClientWakeup client => a_ClientWakeup s client
  end.

Fixpoint perform_wq_all (v : bool) (s : WQState) (l : list wq_action) : result (bool * WQState) :=
  match l with [] => Ok (v, s) | a :: l => '(_, s) ← perform_wq s a; perform_wq_all v s l end.

Fixpoint a_perform_wq_all (v : bool) (s : AState) (l : list wq_action) : result (bool * AState) :=
  match l with [] => Ok (v, s) | a :: l => '(_, s) ← a_perform_wq s a; a_perform_wq_all v s l end.

Definition run_script (w : Work) (s : WQState) : result (bool * WQState) := perform_wq_all (script w).2 s (script w).1.
Definition a_run_script (w : Work) (s : AState) : result (bool * AState) := a_perform_wq_all (script w).2 s (script w).1.

Lemma perform_wq_agree s xs a x : wq_rep s xs a -> agree s xs a (perform_wq s x) (a_perform_wq a x).
Proof.
  destruct x; [apply QueueWorkProc_agree|apply ClientSleep_agree|apply ClientSignal_agree|apply ClientWakeup_agree].
Qed.

Lemma perform_wq_all_agree v s xs a l : wq_rep s xs a -> agree s xs a (perform_wq_all v s l) (a_perform_wq_all v a l).
Proof.
  revert s xs a. induction l as [|x l IH]; intros s xs a H; simpl; [by apply agree_ret|].
  apply agree_bind; [by apply perform_wq_agree|]. auto.
Qed.

#[export] Instance run_script_refines : WorkRefines run_script a_run_script.
Proof. intros w s xs a H. by apply perform_wq_all_agree. Qed.

End Scripts.

(** *** When procedures made of these operations drain *)

(** The work an operation queues at most, when it signals nobody. *)
Definition queues (x : wq_action) : list Work :=
  match x with DoQueueWorkProc f client c => [mkWork f client c] | _ => [] end.

Definition uses (x : wq_action) (C : gset nat) : Prop :=
  match x with
  | DoQueueWorkProc _ _ _ => True
  | DoClientSleep client _ _ | DoClientWakeup client => client ∈ C
  | DoClientSignal _ => False
  end.

Definition have_clients (C : gset nat) (a : AState) : Prop := ∀ c, c ∈ C -> is_Some (a_clients a !! c).

Lemma have_clients_insert C a a' c x :
  have_clients C a -> a_clients a' = <[c := x]> (a_clients a) -> have_clients C a'.
Proof. intros H E d Hd. rewrite E. apply lookup_insert_is_Some'. right. by apply H. Qed.

Lemma a_perform_wq_step weight C a x :
  have_clients C a -> uses x C ->
  ∃ b a' ws, a_perform_wq a x = Ok (b, a') ∧ have_clients C a' ∧ a_queue a' = a_queue a ++ ws ∧
    (total weight ws <= total weight (queues x))%nat.
Proof.
  intros HC Hx. destruct x as [f client c|client f c|client|client]; simpl in Hx.
  - simpl. unfold a_QueueWorkProc. destruct (alloc (a_mem a)) as [[] o]; cbn [negb]; do 2 eexists.
    + exists [mkWork f client c]. done.
    + exists []. rewrite app_nil_r. split_and!; [done|done|done|simpl; lia].
  - simpl. unfold a_ClientSleep. destruct (alloc (a_mem a)) as [[] o]; cbn [negb]; [|by do 2 eexists; exists []; rewrite app_nil_r].
    unfold a_IgnoreClient. cbn [a_clients]. destruct (HC client Hx) as [y ->]. cbn [of_option mbind result_bind].
    do 2 eexists. exists []. rewrite app_nil_r. split; [done|]. split; [|split; [by destruct (1 <? _)|simpl; lia]].
    destruct (1 <? _); (eapply have_clients_insert; [exact HC|done]).
  - done.
  - simpl. unfold a_ClientWakeup. destruct (find_sleeper client (a_sleep a)); [|by do 2 eexists; exists []; rewrite app_nil_r].
    destruct (HC client Hx) as [y ->]. cbn [of_option mbind result_bind].
    do 2 eexists. exists []. rewrite app_nil_r. split; [done|]. split; [|split; [by destruct (_ || _)|simpl; lia]].
    destruct (_ || _); (eapply have_clients_insert; [exact HC|done]).
Qed.

Lemma a_perform_wq_all_step weight C v a l :
  have_clients C a -> Forall (fun x => uses x C) l ->
  ∃ b a' ws, a_perform_wq_all v a l = Ok (b, a') ∧ have_clients C a' ∧ a_queue a' = a_queue a ++ ws ∧
    (total weight ws <= total weight (l ≫= queues))%nat.
Proof.
  revert a. induction l as [|x l IH]; intros a HC Hl; cbn [a_perform_wq_all].
  { do 2 eexists. exists []. by rewrite app_nil_r. }
  inversion Hl as [|? ? Hx Hl']; subst. destruct (a_perform_wq_step weight C a x HC Hx) as (b & a1 & w1 & -> & HC1 & E1 & Hw1).
  cbn [mbind result_bind]. destruct (IH a1 HC1 Hl') as (b2 & a2 & w2 & -> & HC2 & E2 & Hw2).
  exists b2, a2, (w1 ++ w2). split; [done|]. split; [done|]. rewrite E2, E1, app_assoc. split; [done|].
  rewrite bind_cons, !total_app. lia.
Qed.

Lemma run_script_drains script weight C :
  (∀ w, Forall (fun x => uses x C) (script w).1 ∧ (total weight ((script w).1 ≫= queues) < weight w)%nat) ->
  Draining (a_run_script script) weight (have_clients C).
Proof.
  intros H. split; [|done]. intros w a HC. destruct (H w) as [Hu Hw].
  destruct (a_perform_wq_all_step weight C (script w).2 a (script w).1 HC Hu) as (b & a' & ws & E & HC' & Eq & Hle).
  exists b, a', ws. split_and!; try done. lia.
Qed.

(** ** Sleeping clients are ignored *)

Definition naps (c : nat) (q : list SleepQueueRec) : Z := Z.of_nat (length (List.filter (fun e => Nat.eqb (sq_client e) c) q)).

(** A living client is ignored once for each of its entries in the sleep queue, besides the
    [others c] times other parts of the server ignore it. *)
Definition sleepers_ignored (others : nat -> Z) (s : WQState) : Prop :=
  ∀ c x, wq_clients s !! c = Some x -> wc_gone x = false ->
    ignoreCount x = others c + naps c (sleepQueue s) ∧ OS_COMM_IGNORED x = (0 <? ignoreCount x).

Lemma naps_cons c e q : naps c (e :: q) = (if Nat.eqb (sq_client e) c then 1 else 0) + naps c q.
Proof. unfold naps. simpl. destruct (Nat.eqb _ _); cbn [length]; lia. Qed.

Lemma naps_drop c d q e :
  find_sleeper d q = Some e -> naps c (drop_sleeper d q) = naps c q - (if Nat.eqb d c then 1 else 0).
Proof.
  induction q as [|x q IH]; [done|]. unfold find_sleeper in *. cbn [List.find drop_sleeper].
  destruct (Nat.eqb_spec (sq_client x) d) as [<-|Hne]; [intros _; rewrite naps_cons; lia|].
  intros H. rewrite !naps_cons, (IH H). lia.
Qed.

Lemma naps_asleep c s : (0 <? naps c (sleepQueue s)) = ClientIsAsleep s c.
Proof.
  unfold ClientIsAsleep, naps. induction (sleepQueue s) as [|e q IH]; [done|]. simpl.
  destruct (Nat.eqb (sq_client e) c); [cbn [length orb]; apply Z.ltb_lt; lia|done].
Qed.

Lemma QueueWorkProc_clients s f client c b s' :
  QueueWorkProc s f client c = Ok (b, s') -> wq_clients s' = wq_clients s ∧ sleepQueue s' = sleepQueue s.
Proof.
  unfold QueueWorkProc. destruct (alloc (wq_mem s)) as [[] o]; cbn [negb]; [|by intros [= <- <-]].
  unfold store_link, load_cell. simpl. destruct (workQueueLast s) as [|q]; cbn [mbind result_bind]; [by intros [= <- <-]|].
  destruct (_ !! q); cbn [of_option mbind result_bind]; [by intros [= <- <-]|done].
Qed.

(** The client of a server's call, with its new count *)
Lemma IgnoreClient_clients s client x :
  wq_clients s !! client = Some x ->
  ∃ s', IgnoreClient s client = Ok s' ∧ sleepQueue s' = sleepQueue s ∧
    wq_clients s' = <[client := mkWC (wc_gone x) (ignoreCount x + 1) (if 1 <? ignoreCount x + 1 then OS_COMM_IGNORED x else true)]> (wq_clients s).
Proof.
  intros E. unfold IgnoreClient, load_client. rewrite E. cbn [of_option mbind result_bind]. eexists. split; [done|]. by destruct (1 <? _).
Qed.

Lemma AttendClient_clients s client x :
  wq_clients s !! client = Some x -> wc_gone x = false ->
  ∃ s', AttendClient s client = Ok s' ∧ sleepQueue s' = sleepQueue s ∧
    wq_clients s' = <[client := mkWC false (ignoreCount x - 1) (if negb (ignoreCount x - 1 =? 0) then OS_COMM_IGNORED x else false)]> (wq_clients s).
Proof.
  intros E Eg. unfold AttendClient, load_client. rewrite E. cbn [of_option mbind result_bind]. rewrite Eg. eexists. split; [done|]. by destruct (negb _).
Qed.

Lemma ClientSleep_ignored others s client f c b s' :
  (∀ d, 0 <= others d) -> sleepers_ignored others s -> ClientSleep s client f c = Ok (b, s') -> sleepers_ignored others s'.
Proof.
  intros Ho H. unfold ClientSleep. destruct (alloc (wq_mem s)) as [[] o]; cbn [negb]; [|by intros [= <- <-]].
  set (s0 := mkWS _ _ _ _ _ _ _ _). destruct (wq_clients s !! client) as [x|] eqn:Ex.
  2: { unfold IgnoreClient, load_client. change (wq_clients s0) with (wq_clients s). by rewrite Ex. }
  destruct (IgnoreClient_clients s0 client x Ex) as (s1 & -> & E3 & E4). cbn [mbind result_bind].
  intros [= <- <-] d y. cbn [set_sleepers wq_clients sleepQueue]. rewrite E4, E3. change (wq_clients s0) with (wq_clients s). change (sleepQueue s0) with (sleepQueue s).
  intros Hy Hg. rewrite naps_cons. cbn [sq_client].
  destruct (Nat.eqb_spec client d) as [->|Hne].
  - rewrite lookup_insert_eq in Hy. injection Hy as <-. simpl in Hg. cbn [ignoreCount OS_COMM_IGNORED].
    destruct (H _ _ Ex Hg) as [E1 E2]. pose proof (Ho d). unfold naps in *. split; [lia|].
    rewrite (proj2 (Z.ltb_lt 0 (ignoreCount x + 1))) by lia. destruct (Z.ltb_spec 1 (ignoreCount x + 1)); [|done].
    rewrite E2. apply Z.ltb_lt. lia.
  - rewrite lookup_insert_ne in Hy by done. by apply H.
Qed.

Lemma ClientWakeup_ignored others s client s' :
  (∀ d, 0 <= others d) -> sleepers_ignored others s -> ClientWakeup s client = Ok s' -> sleepers_ignored others s'.
Proof.
  intros Ho H. unfold ClientWakeup. destruct (find_sleeper client (sleepQueue s)) as [e|] eqn:Ee; [|by intros [= <-]].
  set (s0 := set_sleepers _ _ _). unfold load_client. change (wq_clients s0) with (wq_clients s).
  destruct (wq_clients s !! client) as [x|] eqn:Ex; cbn [of_option mbind result_bind]; [|done].
  destruct (wc_gone x) eqn:Eg.
  { intros [= <-] d y. simpl. intros Hy Hgy. rewrite (naps_drop _ _ _ _ Ee). destruct (Nat.eqb_spec client d) as [->|Hne]; [congruence|].
    rewrite Z.sub_0_r. by apply H. }
  destruct (AttendClient_clients s0 client x Ex Eg) as (s1 & -> & E3 & E4). intros [= <-] d y. rewrite E4, E3. intros Hy Hgy.
  unfold s0 in Hy |- *. cbn [set_sleepers wq_clients sleepQueue] in Hy |- *. rewrite (naps_drop _ _ _ _ Ee). destruct (Nat.eqb_spec client d) as [->|Hne].
  - rewrite lookup_insert_eq in Hy. injection Hy as <-. cbn [ignoreCount OS_COMM_IGNORED].
    destruct (H _ _ Ex Eg) as [E1 E2]. pose proof (Ho d).
    assert (Hn : 0 < naps d (sleepQueue s)).
    { assert (ClientIsAsleep s d = true) as Ha; [|rewrite <- naps_asleep in Ha; lia].
      unfold find_sleeper in Ee. apply List.find_some in Ee as [Hin Hc]. unfold ClientIsAsleep. apply existsb_exists. by exists e. }
    split; [lia|]. destruct (Z.eqb_spec (ignoreCount x - 1) 0) as [E0|E0]; cbn [negb]; [by rewrite E0|].
    rewrite E2, !(proj2 (Z.ltb_lt _ _)); lia || done.
  - rewrite lookup_insert_ne in Hy by done. rewrite Z.sub_0_r. by apply H.
Qed.

Lemma perform_wq_ignored others s x b s' :
  (∀ d, 0 <= others d) -> sleepers_ignored others s -> perform_wq s x = Ok (b, s') -> sleepers_ignored others s'.
Proof.
  intros Ho H. destruct x as [f client c|client f c|client|client]; simpl.
  - intros E%QueueWorkProc_clients. unfold sleepers_ignored. by destruct E as [-> ->].
  - by apply ClientSleep_ignored.
  - unfold ClientSignal. destruct (find_sleeper _ _); [|by intros [= <- <-]].
    intros E%QueueWorkProc_clients. unfold sleepers_ignored. by destruct E as [-> ->].
  - destruct (ClientWakeup s client) as [s1|] eqn:E; simpl; [|done]. intros [= <- <-]. by eapply ClientWakeup_ignored.
Qed.

(** Of an ignored client neither requests nor input are looked at, and the others are waited for as
    before. *)
Lemma comm_ignore_silent client o :
  client ∈ connected o ->
  client ∉ ready_clients (comm_ignore client o) ∧ client ∉ saved_ready_clients (comm_ignore client o) ∧
  client ∉ listening (comm_ignore client o) ∧ isItTimeToYield (comm_ignore client o) = true ∧
  ∀ d, d ≠ client ->
    (d ∈ ready_clients (comm_ignore client o) <-> d ∈ ready_clients o) ∧
    (d ∈ saved_ready_clients (comm_ignore client o) <-> d ∈ saved_ready_clients o) ∧
    (d ∈ listening (comm_ignore client o) <-> d ∈ listening o).
Proof.
  intros Hc. unfold comm_ignore, set_poll_client. cbn [connected mark_client_not_ready set_ready set_yield].
  rewrite bool_decide_true by done. cbn. split; [intros [? _]%list_elem_of_filter; done|]. split; [intros [? _]%list_elem_of_filter; done|].
  split; [set_solver|]. split; [done|]. intros d Hd. rewrite !list_elem_of_filter. set_solver.
Qed.

(** A client that is attended to again is marked as ready, at once or for when the grab of the server ends, and
    its input is looked at unless another client grabs the server. *)
Lemma comm_attend_ready client o :
  client ∈ connected o -> is_marked o client = false ->
  let listens := Nat.eqb (GrabInProgress o) 0 || Nat.eqb client (GrabInProgress o) || bool_decide (client ∈ grab_impervious o) in
  (client ∈ ready_clients (comm_attend client o) <-> listens = true) ∧
  (client ∈ saved_ready_clients (comm_attend client o) <-> listens = false) ∧
  (client ∈ listening (comm_attend client o) <-> listens = true).
Proof.
  intros Hc Hm listens.
  assert (∀ x, listen_to_client client false (set_listening o x) = listens) as El.
  { intros x. unfold listen_to_client, listens. cbn. by destruct (Nat.eqb (GrabInProgress o) 0), (Nat.eqb client (GrabInProgress o)). }
  assert (listen_to_client client false o = listens) as El0 by (unfold listen_to_client, listens; by destruct (Nat.eqb (GrabInProgress o) 0), (Nat.eqb client (GrabInProgress o))).
  unfold comm_attend, set_poll_client. rewrite bool_decide_true by done. rewrite El, El0.
  unfold is_marked in Hm. apply orb_false_iff in Hm as [H1%bool_decide_eq_false H2%bool_decide_eq_false].
  destruct listens; unfold mark_client_ready, mark_client_saved_ready, is_marked; cbn;
    rewrite !bool_decide_false by done; cbn; set_solver.
Qed.

(** A procedure that queues itself. *)
Definition requeue (w : Work) : list wq_action * bool := ([DoQueueWorkProc (function w) (wq_client w) (closure w)], true).

Lemma a_requeue_diverges w sl c k fuel : a_work_loop (a_run_script requeue) fuel (mkA [w] sl c [] k) 0 = Err OutOfFuel.
Proof.
  assert (E : a_run_script requeue w (mkA [w] sl c [] k) = Ok (true, mkA [w; w] sl c [] k)) by (by destruct w).
  induction fuel as [|fuel IH]; [done|]. cbn [a_work_loop a_queue lookup list_lookup]. rewrite E. cbn [mbind result_bind].
  change (a_set_queue _ _) with (mkA [w] sl c [] k). by rewrite IH.
Qed.

(** ** Properties *)

(** C19: The work queue of linked cells, with its pointer to the last link, is a list:
    [QueueWorkProc] appends, and the two walks are the walks of that list by index, which
    take an entry out when its procedure returns [TRUE] or its client is gone, with the same
    calls in the same order, the same errors and the same divergence, whatever the
    procedures append to the queue while it is walked; no freed cell is read. *)
Theorem work_queue_refines run arun `{!WorkRefines run arun} fuel s xs a :
  wq_rep s xs a ->
  (∀ f client c, agree s xs a (QueueWorkProc s f client c) (a_QueueWorkProc a f client c)) ∧
  match a_work_loop arun fuel a 0 with
  | Err e => ProcessWorkQueue run fuel s = Err e
  | Ok (calls, a') => ∃ s' xs', ProcessWorkQueue run fuel s = Ok (fst <$> calls, s') ∧ wq_rep s' xs' a'
  end ∧
  match a_zombie_loop arun fuel a 0 with
  | Err e => ProcessWorkQueueZombies run fuel s = Err e
  | Ok (calls, a') => ∃ s' xs', ProcessWorkQueueZombies run fuel s = Ok (calls, s') ∧ wq_rep s' xs' a'
  end.
Proof.
  intros H. split; [intros; by apply QueueWorkProc_agree|]. apply walk_start in H.
  split; [apply (work_loop_refines fuel s [] xs a H)|apply (zombie_loop_refines fuel s [] xs a H)].
Qed.

(** When every procedure queues less work than it is itself, a call of
    [ProcessWorkQueue] ends.  It calls every procedure that was in the queue, in order, then
    those they queued, in order, each exactly once; the queue then holds those that returned
    [FALSE], in order. *)
Theorem ProcessWorkQueue_drains run arun weight I `{!WorkRefines run arun} `{!Draining arun weight I} s xs a :
  wq_rep s xs a -> I a ->
  ∃ calls s' xs' a', ProcessWorkQueue run (total weight (a_queue a)) s = Ok (fst <$> calls, s') ∧
    called calls = a_queue a ++ queued calls ∧ wq_rep s' xs' a' ∧ a_queue a' = unfinished calls ∧ I a'.
Proof.
  intros H HI. destruct (a_work_loop_drains arun weight I (total weight (a_queue a)) a 0 HI) as (calls & a' & E & HI' & [Hc Hl]);
    [lia|by rewrite drop_0|].
  pose proof (work_loop_refines (total weight (a_queue a)) s [] xs a (walk_start _ _ _ H)) as Hr.
  cbn [length] in Hr. rewrite E in Hr. destruct Hr as (s' & xs' & Hr & Hs').
  rewrite drop_0 in Hc. by exists calls, s', xs', a'.
Qed.

(** C22: A sleeping client that has been signalled ([ClientSignal] returned [TRUE]) has the
    procedure it sleeps on called, with its client and closure, by the next walk of the work
    queue, which ends, where the queue drains: by the interface [Draining] every procedure
    returns without an error in the states of an invariant [I], which does not depend on the
    queue or on the memory that is left, and queues work of less weight in all than its own.
    Without this the walk need not end ([ProcessWorkQueue_diverges]), as it also calls what
    is queued while it is under way. *)
Theorem ClientSignal_leads_to_call run arun weight I `{!WorkRefines run arun} `{!Draining arun weight I} s xs a client e s1 :
  wq_rep s xs a -> I a -> (∀ q o, I (mkA q (a_sleep a) (a_clients a) o (a_comm a))) ->
  find_sleeper client (sleepQueue s) = Some e ->
  ClientSignal s client = Ok (true, s1) ->
  ∃ fuel calls s', ProcessWorkQueue run fuel s1 = Ok (calls, s') ∧
    mkWork (sq_function e) (Some client) (sq_closure e) ∈ fst <$> calls.
Proof.
  intros H HI HIq He E. assert (Ec : sq_client e = client).
  { unfold find_sleeper in He. apply List.find_some in He as [_ ?%Nat.eqb_eq]. done. }
  pose proof (ClientSignal_agree s xs a client H) as Ha. unfold a_ClientSignal in Ha. rewrite <- (wr_sleep _ _ _ H), He in Ha.
  unfold a_QueueWorkProc in Ha. rewrite <- (wr_mem _ _ _ H) in Ha. destruct (alloc (wq_mem s)) as [[] o];
    cbn [negb agree] in Ha; rewrite E in Ha; destruct Ha as (s1' & new & ws & [= <-] & H1 & _).
  set (a1 := mkA _ _ _ _ _) in H1.
  destruct (a_work_loop_drains arun weight I (total weight (a_queue a1)) a1 0) as (calls & a' & E1 & HI' & [Hc Hl]);
    [apply HIq|lia|by rewrite drop_0|].
  pose proof (work_loop_refines (total weight (a_queue a1)) s1 [] _ a1 (walk_start _ _ _ H1)) as Hr.
  cbn [length] in Hr. rewrite E1 in Hr. destruct Hr as (s' & xs' & Hr & Hs').
  exists (total weight (a_queue a1)), (fst <$> calls), s'. split; [done|].
  rewrite <- list_fmap_compose. change (fst ∘ fst <$> calls) with (called calls). rewrite Hc, drop_0. simpl. rewrite Ec. set_solver.
Qed.

(** However the clients of a server go to sleep, are signalled and wake up, each that is
    not gone is ignored exactly once for each time it sleeps, besides what other parts of the
    server ignore it for, and its connection is marked accordingly; when nobody else ignores
    it, it is ignored exactly while [ClientIsAsleep]. *)
Theorem sleeping_clients_ignored others s v l b s' :
  (∀ c, 0 <= others c) -> sleepers_ignored others s -> perform_wq_all v s l = Ok (b, s') ->
  sleepers_ignored others s' ∧
  (∀ c x, wq_clients s' !! c = Some x -> wc_gone x = false -> others c = 0 -> OS_COMM_IGNORED x = ClientIsAsleep s' c).
Proof.
  intros Ho H E. assert (H' : sleepers_ignored others s').
  { revert s H E. induction l as [|x l IH]; intros s H; simpl; [by intros [= <- <-]|].
    destruct (perform_wq s x) as [[b1 s1]|] eqn:E1; cbn [mbind result_bind]; [|done].
    apply IH. by eapply perform_wq_ignored. }
  split; [done|]. intros c x Hx Hg Hc. destruct (H' c x Hx Hg) as [E1 ->]. rewrite E1, Hc. apply naps_asleep.
Qed.

(** A procedure that queues itself keeps [ProcessWorkQueue] from ever returning while
    memory lasts: the queue is not scanned once, as its comment says, but until it is empty
    of new work. *)
Theorem ProcessWorkQueue_diverges fuel s xs a w :
  wq_rep s xs a -> a_queue a = [w] -> a_mem a = [] ->
  ProcessWorkQueue (run_script requeue) fuel s = Err OutOfFuel.
Proof.
  intros H Hq Hm. pose proof (work_loop_refines (run := run_script requeue) fuel s [] xs a (walk_start _ _ _ H)) as Hr.
  destruct a as [q sl c o k]. simpl in Hq, Hm. subst. cbn [length] in Hr. by rewrite a_requeue_diverges in Hr.
Qed.

(** ** Examples *)

(** 1 queues 2 and 3; 2 and 4 wake up client 5; 3 is never done. *)
Definition demo_wq_script (w : Work) : list wq_action * bool :=
  if function w =? 1 then ([DoQueueWorkProc 2 (Some 5%nat) 0; DoQueueWorkProc 3 None 0], true)
  else if (function w =? 2) || (function w =? 4) then ([DoClientWakeup 5], true)
  else if function w =? 3 then ([], false) else ([], true).

Definition demo_weight (w : Work) : nat := if function w =? 1 then 3 else 1.

(** Nobody grabs the server; client 5 has a connection. *)
Definition no_comm : ServerComm := mkComm false [] [] 0 {[5%nat]} ∅ ∅.
Definition demo_clients : gmap nat WQClient := {[5%nat := mkWC false 1 true]}.

Definition demo_wq : WQState :=
  mkWS (Some 0%nat) (<[0%nat := mkWQ (mkWork 1 None 0) (Some 1%nat)]> {[1%nat := mkWQ (mkWork 3 None 1) None]}) (NextOf 1) 2
    [mkSQ 5 4 7] demo_clients [] no_comm.

Definition demo_a : AState := mkA [mkWork 1 None 0; mkWork 3 None 1] [mkSQ 5 4 7] demo_clients [] no_comm.

Lemma demo_wq_rep : wq_rep demo_wq [0%nat; 1%nat] demo_a.
Proof.
  split; try done.
  - split; [done|]. exists (Some 1%nat). split; [done|]. split; [done|]. by exists None.
  - by apply (bool_decide_unpack (NoDup [0%nat; 1%nat])).
  - intros q [x Hx]. unfold demo_wq in Hx. simpl in Hx. apply lookup_insert_Some in Hx as [[<- _]|[_ [<- _]%lookup_singleton_Some]];
      [by left|by right; left].
  - intros q Hq. simpl. set_unfold in Hq. lia.
Qed.

#[export] Instance demo_draining : Draining (a_run_script demo_wq_script) demo_weight (have_clients {[5%nat]}).
Proof.
  apply run_script_drains. intros w. unfold demo_wq_script, demo_weight.
  destruct (function w =? 1); [split; [by repeat constructor|simpl; lia]|].
  destruct ((function w =? 2) || (function w =? 4)); [split; [constructor; [simpl; set_solver|done]|simpl; lia]|].
  destruct (function w =? 3); (split; [constructor|simpl; lia]).
Qed.

Lemma demo_have_clients q sl o : have_clients {[5%nat]} (mkA q sl demo_clients o no_comm).
Proof. intros c ->%elem_of_singleton. by eexists. Qed.

Lemma work_queue_refines_witness :
  ∃ calls s', ProcessWorkQueue (run_script demo_wq_script) 9 demo_wq = Ok (calls, s') ∧
    ((λ w, (function w, closure w)) <$> (fst <$> calls)) = [(1, 0); (3, 1); (2, 0); (3, 0)].
Proof.
  pose proof (work_queue_refines (run_script demo_wq_script) (a_run_script demo_wq_script) 9 demo_wq _ demo_a demo_wq_rep) as (_ & H & _).
  destruct (a_work_loop (a_run_script demo_wq_script) 9 demo_a 0) as [[calls a']|e] eqn:E; vm_compute in E; [|discriminate].
  destruct H as (s' & _ & H & _). exists (fst <$> calls), s'. split; [exact H|]. injection E as <- _. reflexivity.
Defined.

Lemma ProcessWorkQueue_drains_witness :
  ∃ calls s' xs' a', ProcessWorkQueue (run_script demo_wq_script) 4 demo_wq = Ok (fst <$> calls, s') ∧ wq_rep s' xs' a' ∧
    called calls = a_queue demo_a ++ queued calls ∧ a_queue a' = unfinished calls.
Proof.
  destruct (ProcessWorkQueue_drains (run_script demo_wq_script) (a_run_script demo_wq_script) demo_weight (have_clients {[5%nat]})
    demo_wq _ demo_a demo_wq_rep (demo_have_clients _ _ _)) as (calls & s' & xs' & a' & E & Hc & H & Hq & _).
  exists calls, s', xs', a'. split; [exact E|]. split; [exact H|]. split; [exact Hc|exact Hq].
Defined.

Lemma ClientSignal_leads_to_call_witness :
  ∃ s1 fuel calls s', ClientSignal demo_wq 5 = Ok (true, s1) ∧
    ProcessWorkQueue (run_script demo_wq_script) fuel s1 = Ok (calls, s') ∧ mkWork 4 (Some 5%nat) 7 ∈ fst <$> calls.
Proof.
  destruct (ClientSignal demo_wq 5) as [[[] s1]|e] eqn:E1; [|vm_compute in E1; discriminate E1..].
  exists s1. destruct (ClientSignal_leads_to_call (run_script demo_wq_script) (a_run_script demo_wq_script) demo_weight
    (have_clients {[5%nat]}) demo_wq _ demo_a 5 (mkSQ 5 4 7) s1 demo_wq_rep (demo_have_clients _ _ _)) as (fuel & calls & s' & E & H);
    [intros; apply demo_have_clients|reflexivity|exact E1|].
  exists fuel, calls, s'. split; [reflexivity|]. split; [exact E|exact H].
Defined.

Lemma sleeping_clients_ignored_witness :
  ∃ b s', perform_wq_all true demo_wq [DoClientSleep 5 4 8; DoClientWakeup 5; DoClientWakeup 5] = Ok (b, s') ∧
    sleepers_ignored (λ _, 0) s' ∧ ClientIsAsleep s' 5 = false.
Proof.
  destruct (perform_wq_all true demo_wq [DoClientSleep 5 4 8; DoClientWakeup 5; DoClientWakeup 5]) as [[b s']|e] eqn:E;
    [|vm_compute in E; discriminate].
  exists b, s'. split; [reflexivity|].
  destruct (sleeping_clients_ignored (λ _, 0) demo_wq true [DoClientSleep 5 4 8; DoClientWakeup 5; DoClientWakeup 5] b s') as [H _];
    [done| |exact E|].
  - intros c x Hx _. unfold demo_wq, demo_clients in *. simpl in *. apply lookup_singleton_Some in Hx as [<- <-]. done.
  - split; [exact H|]. vm_compute in E. injection E as _ <-. reflexivity.
Defined.

Lemma ProcessWorkQueue_diverges_witness : ∃ s, is_Some (workQueue s) ∧ ProcessWorkQueue (run_script requeue) 100 s = Err OutOfFuel.
Proof.
  eexists (mkWS (Some 0%nat) {[0%nat := mkWQ (mkWork 1 None 0) None]} (NextOf 0) 1 [] ∅ [] no_comm). split; [by eexists|].
  apply (ProcessWorkQueue_diverges 100 _ [0%nat] (mkA [mkWork 1 None 0] [] ∅ [] no_comm) (mkWork 1 None 0)); [|reflexivity|reflexivity].
  split; try done.
  - split; [done|]. by exists None.
  - by apply NoDup_singleton.
  - intros q [x Hx]. simpl in Hx. apply lookup_singleton_Some in Hx as [<- _]. by left.
  - intros q ->%list_elem_of_singleton. simpl. lia.
Defined.
