(* ===== verification/EventQueue.v ===== *)
(** * EventQueue: the queue of input events (mi/mieq.c)

    A ring buffer that drivers fill, from signal handlers too, and the main loop empties.
    A signal may arrive between any two accesses the loop makes to the queue: the points
    where it matters take the next batch of inputs from a schedule. *)

From S2P Require Import Prelude Atom ResourceDB.

Definition QUEUE_SIZE : Z := 512.

(** ** Data *)

(** The views of the 32 bytes of an event that the queue uses: [detail] is byte 1, which is
    [deviceid] in a [deviceValuator]; [pad1] is byte 31, which is [deviceid] in a
    [deviceKeyButtonPointer]; the others belong to [keyButtonPointer]. *)
Record xEvent := mkXE { type : Z; detail : Z; time : Z; rootX : Z; rootY : Z; pad1 : Z; rest : list Z }.

Definition set_time (e : xEvent) (t : Z) : xEvent :=
  mkXE (type e) (detail e) t (rootX e) (rootY e) (pad1 e) (rest e).

(** [event] is an array of seven; screens and devices are pointers. *)
Record EventRec := mkER { event : list xEvent; nevents : Z; pScreen : Z; pDev : Z }.

Record EventQueueRec := mkEQ {
  head : Z; tail : Z; lastEventTime : Z; lastMotion : Z; events : list EventRec;
  pEnqueueScreen : Z; pDequeueScreen : Z; handlers : list (option Z)
}.

(** The codes of the events of the input extension (Xi/extinit.c), from its first one. *)
Definition DeviceValuator (base : Z) : Z := base.
Definition DeviceButtonPress (base : Z) : Z := base + 3.
Definition DeviceButtonRelease (base : Z) : Z := base + 4.
Definition DeviceMotionNotify (base : Z) : Z := base + 5.
Definition ProximityIn (base : Z) : Z := base + 8.
Definition ProximityOut (base : Z) : Z := base + 9.

Definition KeyPress : Z := 2.
Definition KeyRelease : Z := 3.
Definition ButtonPress : Z := 4.
Definition ButtonRelease : Z := 5.
Definition MotionNotify : Z := 6.

Definition DEVICE_BITS : Z := 127.

(** What the loop reads of the screen saver and of power management, and its calls; a callee
    is given an array and its count [nevents], here the list of these events. *)
Record Idle := mkIdle { screenIsSaved : Z; DPMSPowerLevel : Z }.

Definition SCREEN_SAVER_ON : Z := 0.
Definition DPMSModeOn : Z := 0.

Inductive mieq_call :=
  | CallSaveScreens | CallSetScreenSaverTimer | CallDPMSSet
  | CallNewCurrentScreen (screen x y : Z)
  | CallHandler (handler screen : Z) (e : list xEvent) (dev : option Z)
  | CallSwitchCoreKeyboard (dev : Z) | CallSwitchCorePointer (dev : Z)
  | CallProcessInput (dev : Z) (e : list xEvent).

Definition set_events (q : EventQueueRec) (t : Z) (ev : list EventRec) : EventQueueRec :=
  mkEQ (head q) t (lastEventTime q) (lastMotion q) ev (pEnqueueScreen q) (pDequeueScreen q) (handlers q).

Definition set_head (q : EventQueueRec) (h : Z) : EventQueueRec :=
  mkEQ h (tail q) (lastEventTime q) (lastMotion q) (events q) (pEnqueueScreen q) (pDequeueScreen q) (handlers q).

Definition set_last_event (q : EventQueueRec) (t m : Z) : EventQueueRec :=
  mkEQ (head q) (tail q) t m (events q) (pEnqueueScreen q) (pDequeueScreen q) (handlers q).

Definition set_screens (q : EventQueueRec) (enq deq : Z) : EventQueueRec :=
  mkEQ (head q) (tail q) (lastEventTime q) (lastMotion q) (events q) enq deq (handlers q).

(** Accesses to the arrays of the queue. *)
Definition slot (q : EventQueueRec) (i : Z) : result EventRec :=
  if i <? 0 then Err OutOfBounds else of_option OutOfBounds (events q !! Z.to_nat i).

Definition set_event (r : EventRec) (i : Z) (e : xEvent) : result EventRec :=
  if (0 <=? i) && (i <? Z.of_nat (length (event r)))
  then Ok (mkER (<[Z.to_nat i := e]> (event r)) (nevents r) (pScreen r) (pDev r)) else Err OutOfBounds.

Definition event_of (r : EventRec) (i : nat) : result xEvent := of_option OutOfBounds (event r !! i).

Definition counted (r : EventRec) : list xEvent := take (Z.to_nat (nevents r)) (event r).

Definition handler_of (q : EventQueueRec) (t : Z) : result (option Z) :=
  if t <? 0 then Err OutOfBounds else of_option OutOfBounds (handlers q !! Z.to_nat t).

(** ** Initialisation *)

(** [screen] is [screenInfo.screens[0]] and [now] what [GetTimeInMillis] returns. *)
Definition mieqInit (q : EventQueueRec) (now screen : Z) : EventQueueRec :=
  mkEQ 0 0 now 0 (events q) screen screen (replicate 128 None).

Definition mieqSwitchScreen (q : EventQueueRec) (screen : Z) (fromDIX : bool) : EventQueueRec :=
  set_screens q screen (if fromDIX then screen else pDequeueScreen q).

Definition mieqSetHandler (q : EventQueueRec) (ev : Z) (handler : option Z) : result EventQueueRec :=
  _ ← handler_of q ev;
  Ok (mkEQ (head q) (tail q) (lastEventTime q) (lastMotion q) (events q) (pEnqueueScreen q) (pDequeueScreen q)
        (<[Z.to_nat ev := handler]> (handlers q))).

Section Queue.
(** The first event of the input extension, the [id] of a device, and the core devices. *)
Context (base : Z) (id : Z -> Z) (pointer keyboard : Z).
Context (SaveScreens DPMSSet : Idle -> Idle).

(** ** Filling the queue *)

Definition is_device_event (t : Z) : bool :=
  (t =? DeviceMotionNotify base) || (t =? DeviceButtonPress base) || (t =? DeviceButtonRelease base) ||
  (t =? ProximityIn base) || (t =? ProximityOut base).

(** A valuator event is added to the last event, [oldtail] is the tail. *)
Definition attach_valuator (q : EventQueueRec) (e : xEvent) (oldtail : Z) : result EventQueueRec :=
  let i := u32 (oldtail - 1) mod QUEUE_SIZE in
  laste ← slot q i;
  lastkbp ← event_of laste 0;
  if 6 <? nevents laste then Ok q else
  if (oldtail =? head q) || negb (is_device_event (type lastkbp))
     || negb (Z.land (pad1 lastkbp) DEVICE_BITS =? Z.land (detail e) DEVICE_BITS) then Ok q else
  r ← set_event laste (nevents laste) e;
  Ok (set_events q (tail q) (<[Z.to_nat i := mkER (event r) (nevents laste + 1) (pScreen r) (pDev r)]> (events q))).

(** The event is written to slot [i]. *)
Definition write_event (q : EventQueueRec) (dev : Z) (e : xEvent) (isMotion i : Z) : result EventQueueRec :=
  r ← slot q i;
  let e := if (time e <? lastEventTime q) && (lastEventTime q - time e <? 10000) then set_time e (lastEventTime q) else e in
  r ← set_event r 0 e;
  let q := set_events q (tail q) (<[Z.to_nat i := mkER (event r) 1 (pEnqueueScreen q) dev]> (events q)) in
  Ok (set_last_event q (time e) isMotion).

Definition mieqEnqueue (q : EventQueueRec) (dev : Z) (e : xEvent) : result EventQueueRec :=
  let oldtail := u32 (tail q) in
  let isMotion :=
    if type e =? MotionNotify then id pointer else if type e =? DeviceMotionNotify base then id dev else 0 in
  if type e =? DeviceValuator base then attach_valuator q e oldtail else
  if negb (isMotion =? 0) && (isMotion =? lastMotion q) && negb (oldtail =? head q) then
    write_event q dev e isMotion (u32 (oldtail - 1) mod QUEUE_SIZE)
  else
    let newtail := u32 (oldtail + 1) mod QUEUE_SIZE in
    if newtail =? head q then Ok q else
    write_event (set_events q newtail (events q)) dev e isMotion oldtail.

(** ** Inputs that arrive while the queue is emptied *)

Inductive input := Enqueue (dev : Z) (e : xEvent) | SwitchScreen (screen : Z) (fromDIX : bool).

Definition take_input (q : EventQueueRec) (i : input) : result EventQueueRec :=
  match i with Enqueue dev e => mieqEnqueue q dev e | SwitchScreen screen b => Ok (mieqSwitchScreen q screen b) end.

Fixpoint take_inputs (q : EventQueueRec) (l : list input) : result EventQueueRec :=
  match l with [] => Ok q | i :: l => q ← take_input q i; take_inputs q l end.

(** The inputs that arrive at this point, and those of the points to come. *)
Definition interrupt (q : EventQueueRec) (irq : list (list input)) : result (EventQueueRec * list (list input)) :=
  match irq with
  | [] => Ok (q, [])
  | batch :: irq => q ← take_inputs q batch; Ok (q, irq)
  end.

(** ** Emptying the queue *)

Definition wake (s : Idle) : list mieq_call * Idle :=
  let '(c1, s) :=
    if screenIsSaved s =? SCREEN_SAVER_ON then ([CallSaveScreens], SaveScreens s)
    else if negb (DPMSPowerLevel s =? DPMSModeOn) then ([CallSetScreenSaverTimer], s) else ([], s) in
  if negb (DPMSPowerLevel s =? DPMSModeOn) then (c1 ++ [CallDPMSSet], DPMSSet s) else (c1, s).

(** The event in slot [i] is handled; [stop] says that the procedure returns. *)
Definition dispatch (q : EventQueueRec) (dev : option Z) (i : Z)
    : result (list mieq_call * EventQueueRec * option Z * bool) :=
  e ← slot q i;
  if negb (pScreen e =? pDequeueScreen q) then
    let q := set_screens q (pEnqueueScreen q) (pScreen e) in
    e0 ← event_of e 0;
    Ok ([CallNewCurrentScreen (pDequeueScreen q) (rootX e0) (rootY e0)], q, dev, false)
  else
    e0 ← event_of e 0;
    h ← handler_of q (type e0);
    match h with
    | Some h => Ok ([CallHandler h (pDequeueScreen q) (counted e) dev], q, dev, true)
    | None =>
        let t := type e0 in
        let '(calls, dev) :=
          if (t =? KeyPress) || (t =? KeyRelease) then ([CallSwitchCoreKeyboard (pDev e)], keyboard)
          else if (t =? MotionNotify) || (t =? ButtonPress) || (t =? ButtonRelease)
          then ([CallSwitchCorePointer (pDev e)], pointer)
          else ([], pDev e) in
        Ok (calls ++ [CallProcessInput dev (counted e)], q, Some dev, false)
    end.

Fixpoint process_loop (fuel : nat) (q : EventQueueRec) (s : Idle) (dev : option Z) (irq : list (list input))
    : result (list mieq_call * EventQueueRec * Idle) :=
  '(q, irq) ← interrupt q irq;
  if head q =? tail q then Ok ([], q, s) else
  match fuel with
  | O => Err OutOfFuel
  | S fuel =>
      let '(woken, s) := wake s in
      let i := head q in
      '(q, irq) ← interrupt q irq;
      let q := set_head q (Z.rem (head q + 1) QUEUE_SIZE) in
      '(q, irq) ← interrupt q irq;
      '(calls, q, dev, stop) ← dispatch q dev i;
      if stop : bool then Ok (woken ++ calls, q, s) else
      '(more, q, s) ← process_loop fuel q s dev irq;
      Ok (woken ++ calls ++ more, q, s)
  end.

Definition mieqProcessInputEvents (fuel : nat) (q : EventQueueRec) (s : Idle) (irq : list (list input))
    : result (list mieq_call * EventQueueRec * Idle) :=
  process_loop fuel q s None irq.

End Queue.
