(* ===== verification/EventQueueProofs.v ===== *)
(** * EventQueueProofs: the ring buffer is a queue (mi/mieq.c)

    The abstract queue of events and the refinement of it by the ring buffer, with signals
    arriving while the queue is emptied. *)

From S2P Require Import Prelude Atom ResourceDB EventQueue.

(** ** The abstract queue *)

(** The events of an entry, without what is left of earlier ones in its slot. *)
Record AEvent := mkAE { ae_events : list xEvent; ae_screen : Z; ae_dev : Z }.

Record AQueue := mkAQ {
  aq : list AEvent; aq_time : Z; aq_motion : Z; aq_enq : Z; aq_deq : Z; aq_handlers : list (option Z)
}.

Definition a_set (a : AQueue) (l : list AEvent) : AQueue :=
  mkAQ l (aq_time a) (aq_motion a) (aq_enq a) (aq_deq a) (aq_handlers a).

Definition a_set_screens (a : AQueue) (enq deq : Z) : AQueue :=
  mkAQ (aq a) (aq_time a) (aq_motion a) enq deq (aq_handlers a).

(** The first event of an entry, with which entries that are live begin. *)
Definition first_event (r : AEvent) : option xEvent := List.head (ae_events r).

Section Abstract.
Context (base : Z) (id : Z -> Z) (pointer keyboard : Z).
Context (SaveScreens DPMSSet : Idle -> Idle).

(** The time of an event never goes back by less than ten seconds. *)
Definition clamp (a : AQueue) (e : xEvent) : xEvent :=
  if (time e <? aq_time a) && (aq_time a - time e <? 10000) then set_time e (aq_time a) else e.

Definition a_new (a : AQueue) (dev : Z) (e : xEvent) (m : Z) (l : list AEvent) : AQueue :=
  mkAQ (l ++ [mkAE [clamp a e] (aq_enq a) dev]) (time (clamp a e)) m (aq_enq a) (aq_deq a) (aq_handlers a).

(** A valuator event may join the last entry if that has room and is of the same device. *)
Definition accepts (r : AEvent) (e : xEvent) : bool :=
  (length (ae_events r) <=? 6)%nat &&
  match first_event r with
  | Some k => is_device_event base (type k) && (Z.land (pad1 k) DEVICE_BITS =? Z.land (detail e) DEVICE_BITS)
  | None => false
  end.

Definition motion_of (dev : Z) (e : xEvent) : Z :=
  if type e =? MotionNotify then id pointer else if type e =? DeviceMotionNotify base then id dev else 0.

(** Valuators join the last entry or are dropped; a motion replaces the last event when that
    was a motion of the same device; everything else is appended, as long as there is room. *)
Definition a_enqueue (a : AQueue) (dev : Z) (e : xEvent) : AQueue :=
  let m := motion_of dev e in
  match last (aq a) with
  | Some r =>
      let front := removelast (aq a) in
      if type e =? DeviceValuator base then
        if accepts r e then a_set a (front ++ [mkAE (ae_events r ++ [e]) (ae_screen r) (ae_dev r)]) else a
      else if negb (m =? 0) && (m =? aq_motion a) then a_new a dev e m front
      else if Z.of_nat (length (aq a)) <? QUEUE_SIZE - 1 then a_new a dev e m (aq a) else a
  | None => if type e =? DeviceValuator base then a else a_new a dev e m []
  end.

Definition a_input (a : AQueue) (i : input) : AQueue :=
  match i with
  | Enqueue dev e => a_enqueue a dev e
  | SwitchScreen screen fromDIX => a_set_screens a screen (if fromDIX then screen else aq_deq a)
  end.

Definition a_interrupt (a : AQueue) (irq : list (list input)) : AQueue * list (list input) :=
  match irq with [] => (a, []) | batch :: irq => (fold_left a_input batch a, irq) end.

Definition a_dispatch (a : AQueue) (dev : option Z) (r : AEvent)
    : result (list mieq_call * AQueue * option Z * bool) :=
  e0 ← of_option OutOfBounds (first_event r);
  if negb (ae_screen r =? aq_deq a) then
    Ok ([CallNewCurrentScreen (ae_screen r) (rootX e0) (rootY e0)], a_set_screens a (aq_enq a) (ae_screen r), dev, false)
  else
    h ← (if type e0 <? 0 then Err OutOfBounds else of_option OutOfBounds (aq_handlers a !! Z.to_nat (type e0)));
    match h with
    | Some h => Ok ([CallHandler h (aq_deq a) (ae_events r) dev], a, dev, true)
    | None =>
        let t := type e0 in
        let '(calls, dev) :=
          if (t =? KeyPress) || (t =? KeyRelease) then ([CallSwitchCoreKeyboard (ae_dev r)], keyboard)
          else if (t =? MotionNotify) || (t =? ButtonPress) || (t =? ButtonRelease)
          then ([CallSwitchCorePointer (ae_dev r)], pointer)
          else ([], ae_dev r) in
        Ok (calls ++ [CallProcessInput dev (ae_events r)], a, Some dev, false)
    end.

(** An event leaves the queue in one step, whatever signals arrive around it. *)
Fixpoint a_process (fuel : nat) (a : AQueue) (s : Idle) (dev : option Z) (irq : list (list input))
    : result (list mieq_call * AQueue * Idle) :=
  let '(a, irq) := a_interrupt a irq in
  if bool_decide (aq a = []) then Ok ([], a, s) else
  match fuel with
  | O => Err OutOfFuel
  | S fuel =>
      let '(woken, s) := wake SaveScreens DPMSSet s in
      let '(a, irq) := a_interrupt a irq in
      match aq a with
      | [] => Err OutOfBounds
      | r :: l =>
          let '(a, irq) := a_interrupt (a_set a l) irq in
          '(calls, a, dev, stop) ← a_dispatch a dev r;
          if stop : bool then Ok (woken ++ calls, a, s) else
          '(more, a, s) ← a_process fuel a s dev irq;
          Ok (woken ++ calls ++ more, a, s)
      end
  end.
End Abstract.

(** ** Representation *)

(** The slot of the [k]th entry from [h] on. *)
Definition idx (h k : Z) : Z := (h + k) mod QUEUE_SIZE.

Definition view (r : EventRec) : AEvent := mkAE (counted r) (pScreen r) (pDev r).

Definition slot_ok (r : EventRec) : Prop := length (event r) = 7%nat ∧ 0 <= nevents r <= 7.

(** [held] may be a slot that has left the queue but is still being read. *)
Record eq_rep (q : EventQueueRec) (a : AQueue) : Prop := {
  er_head : 0 <= head q < QUEUE_SIZE;
  er_tail : tail q = idx (head q) (Z.of_nat (length (aq a)));
  er_room : Z.of_nat (length (aq a)) <= QUEUE_SIZE - 1;
  er_slots : length (events q) = Z.to_nat QUEUE_SIZE;
  er_ok : Forall slot_ok (events q);
  er_queue : ∀ k r, aq a !! k = Some r -> ∃ c,
    events q !! Z.to_nat (idx (head q) (Z.of_nat k)) = Some c ∧ view c = r ∧ 1 <= nevents c;
  er_handlers : handlers q = aq_handlers a ∧ length (handlers q) = 128%nat;
  er_time : lastEventTime q = aq_time a;
  er_motion : lastMotion q = aq_motion a;
  er_enq : pEnqueueScreen q = aq_enq a;
  er_deq : pDequeueScreen q = aq_deq a
}.

Lemma idx_range h k : 0 <= idx h k < QUEUE_SIZE.
Proof. apply Z.mod_pos_bound. done. Qed.

Lemma idx_inj h j k : 0 <= j < QUEUE_SIZE -> 0 <= k < QUEUE_SIZE -> idx h j = idx h k -> j = k.
Proof.
  unfold idx, QUEUE_SIZE. intros Hj Hk E. pose proof (Z.div_mod (h + j) 512) as D1. pose proof (Z.div_mod (h + k) 512) as D2. lia.
Qed.

Lemma idx_nat_inj h j k :
  0 <= j < QUEUE_SIZE -> 0 <= k < QUEUE_SIZE -> Z.to_nat (idx h j) = Z.to_nat (idx h k) -> j = k.
Proof. intros Hj Hk E. apply (idx_inj h); [done|done|]. pose proof (idx_range h j). pose proof (idx_range h k). lia. Qed.

Lemma idx_0 h : 0 <= h < QUEUE_SIZE -> idx h 0 = h.
Proof. intros H. unfold idx. rewrite Z.add_0_r. by apply Z.mod_small. Qed.

Lemma idx_idx h j k : idx (idx h j) k = idx h (j + k).
Proof. unfold idx. rewrite Zplus_mod_idemp_l. f_equal. lia. Qed.

Lemma u32_mod z : u32 z mod QUEUE_SIZE = z mod QUEUE_SIZE.
Proof. unfold u32, QUEUE_SIZE. change (2 ^ 32) with (512 * 8388608). rewrite Z.rem_mul_r by done. rewrite Z.mul_comm, Z.mod_add, Z.mod_mod; done. Qed.

(** The slots that the producer computes. *)
Lemma u32_idx h k : u32 (idx h k) = idx h k.
Proof. apply u32_small. pose proof (idx_range h k). unfold QUEUE_SIZE in *. lia. Qed.

Lemma step_idx h k d : u32 (idx h k + d) mod QUEUE_SIZE = idx h (k + d).
Proof. rewrite u32_mod. exact (idx_idx h k d). Qed.

(** ** Filling the queue *)

Lemma view_new r e n s d :
  slot_ok r -> (Z.to_nat n < 7)%nat -> 0 <= n ->
  view (mkER (<[Z.to_nat n := e]> (event r)) (n + 1) s d) = mkAE (take (Z.to_nat n) (event r) ++ [e]) s d.
Proof.
  intros [Hl _] Hn Hn0. unfold view, counted. cbn [event nevents pScreen pDev]. f_equal.
  rewrite Z2Nat.inj_add by lia. change (Z.to_nat 1) with 1%nat. rewrite Nat.add_1_r.
  rewrite (take_S_r _ _ e) by (rewrite list_lookup_insert_eq; [done|lia]). by rewrite take_insert, decide_False by lia.
Qed.

Lemma slot_lookup q a i : eq_rep q a -> 0 <= i < QUEUE_SIZE -> ∃ r, slot q i = Ok r ∧ events q !! Z.to_nat i = Some r ∧ slot_ok r.
Proof.
  intros H Hi. destruct (lookup_lt_is_Some_2 (events q) (Z.to_nat i)) as [r Hr]; [rewrite (er_slots _ _ H); unfold QUEUE_SIZE in *; lia|].
  exists r. unfold slot. rewrite (proj2 (Z.ltb_ge i 0)) by lia. rewrite Hr. split_and!; [done|done|].
  eapply Forall_lookup_1; [apply (er_ok _ _ H)|done].
Qed.

(** The entries from the [n]th on are replaced by the one in [r']. *)
Lemma rep_put q q' a a' n r' :
  eq_rep q a -> (n <= length (aq a))%nat -> Z.of_nat n < QUEUE_SIZE - 1 -> slot_ok r' -> 1 <= nevents r' ->
  head q' = head q -> tail q' = idx (head q) (Z.of_nat n + 1) ->
  events q' = <[Z.to_nat (idx (head q) (Z.of_nat n)) := r']> (events q) -> handlers q' = handlers q ->
  pEnqueueScreen q' = pEnqueueScreen q -> pDequeueScreen q' = pDequeueScreen q ->
  lastEventTime q' = aq_time a' -> lastMotion q' = aq_motion a' ->
  a' = mkAQ (take n (aq a) ++ [view r']) (aq_time a') (aq_motion a') (aq_enq a) (aq_deq a) (aq_handlers a) ->
  eq_rep q' a'.
Proof.
  intros [H1 H2 H3 H4 H5 H6 [H7 H7'] H8 H9 H10 H11] Hn Hn2 Hr Hr1 E1 E2 E3 E4 E5 E6 E7 E8 Ea.
  pose proof (idx_range (head q) (Z.of_nat n)) as Hi.
  assert (Hlen : length (aq a') = S n) by (rewrite Ea; cbn [aq]; rewrite length_app, length_take; simpl; lia).
  split; rewrite ?E1, ?E3, ?E4, ?E5, ?E6, ?E7, ?E8; try done; try (rewrite Ea; cbn; congruence).
  - rewrite E2, Hlen. f_equal. lia.
  - rewrite Hlen. unfold QUEUE_SIZE in *. lia.
  - by rewrite length_insert.
  - apply Forall_insert; done.
  - intros k x Hk. rewrite Ea in Hk. cbn [aq] in Hk. apply lookup_app_Some in Hk as [Hk|[Hge Hk]].
    + pose proof (lookup_lt_Some _ _ _ Hk) as Hlt. rewrite length_take in Hlt. rewrite lookup_take_lt in Hk by lia.
      destruct (H6 k x Hk) as (c & Hc & Hv & Hc1). exists c. split; [|done]. rewrite list_lookup_insert_ne; [done|].
      intros E. apply idx_nat_inj in E; unfold QUEUE_SIZE in *; lia.
    + rewrite length_take, Nat.min_l in Hge, Hk by lia. destruct (k - n)%nat eqn:Ek; [|by destruct n0].
      injection Hk as <-. assert (k = n) as -> by lia. exists r'. split; [|done].
      apply list_lookup_insert_eq. rewrite H4. unfold QUEUE_SIZE in *. lia.
  - rewrite Ea. by split.
Qed.

(** What a signal leaves alone: the first slot of the queue, and the slot in front of it, that
    of an event that is being handled. *)
Record held (q q' : EventQueueRec) : Prop := {
  hd_head : head q' = head q;
  hd_slot : events q' !! Z.to_nat (idx (head q) (QUEUE_SIZE - 1)) = events q !! Z.to_nat (idx (head q) (QUEUE_SIZE - 1))
}.

#[export] Instance held_preorder : PreOrder held.
Proof. split; [by split|]. intros a b c [A1 A2] [B1 B2]. split; [congruence|]. rewrite A1 in B2. congruence. Qed.

Lemma held_put q q' n r :
  head q' = head q -> events q' = <[Z.to_nat (idx (head q) (Z.of_nat n)) := r]> (events q) ->
  Z.of_nat n < QUEUE_SIZE - 1 -> held q q'.
Proof.
  intros E1 E2 Hn. split; [done|]. rewrite E2. apply list_lookup_insert_ne. intros E.
  apply idx_nat_inj in E; unfold QUEUE_SIZE in *; lia.
Qed.

Section Refine.
Context (base : Z) (id : Z -> Z) (pointer keyboard : Z).
Context (SaveScreens DPMSSet : Idle -> Idle).

Lemma write_event_rep q q0 a dev e m n :
  eq_rep q a -> (n <= length (aq a))%nat -> Z.of_nat n < QUEUE_SIZE - 1 ->
  q0 = set_events q (idx (head q) (Z.of_nat n + 1)) (events q) ->
  ∃ q', write_event q0 dev e m (idx (head q) (Z.of_nat n)) = Ok q' ∧
    eq_rep q' (a_new a dev e m (take n (aq a))) ∧ held q q'.
Proof.
  intros H Hn Hn2 ->. destruct (slot_lookup q a (idx (head q) (Z.of_nat n)) H (idx_range _ _)) as (r & Hs & Hr & Hok).
  unfold write_event. unfold slot in *. cbn [events set_events]. rewrite Hs. cbn [mbind result_bind lastEventTime].
  pose proof Hok as [Hl _]. unfold set_event. rewrite Hl. change ((0 <=? 0) && (0 <? Z.of_nat 7)) with true.
  cbn [mbind result_bind lastEventTime set_events]. rewrite (er_time _ _ H). fold (clamp a e).
  eexists. split; [done|]. set (r' := mkER _ _ _ _).
  assert (Hv : view r' = mkAE [clamp a e] (aq_enq a) dev).
  { unfold view, r', counted. cbn [nevents event pScreen pDev pEnqueueScreen set_events]. rewrite (er_enq _ _ H).
    destruct (event r); [done|]. done. }
  split.
  - eapply (rep_put q _ a _ n r' H Hn Hn2); try reflexivity.
    + unfold slot_ok, r'. cbn [event nevents]. rewrite length_insert. lia.
    + unfold a_new. cbn [aq_time aq_motion]. rewrite <- Hv. reflexivity.
  - eapply held_put; [reflexivity|reflexivity|done].
Qed.

Lemma last_front {A} (l : list A) r : last l = Some r -> l = removelast l ++ [r] ∧ removelast l = take (length l - 1) l.
Proof.
  intros H. apply last_Some in H as [l' ->]. rewrite removelast_last, length_app. split; [done|].
  simpl. by rewrite Nat.add_sub, take_app_length.
Qed.

Lemma empty_tail q a : eq_rep q a -> (u32 (tail q) =? head q) = bool_decide (aq a = []).
Proof.
  intros H. rewrite (er_tail _ _ H), u32_idx. pose proof (er_room _ _ H) as Hr. pose proof (er_head _ _ H) as Hh.
  destruct (aq a) as [|x l]; simpl length in *.
  - rewrite idx_0 by done. rewrite bool_decide_true by done. by apply Z.eqb_eq.
  - rewrite bool_decide_false by done. apply Z.eqb_neq. intros E. rewrite <- (idx_0 (head q)) in E at 2 by done.
    apply idx_inj in E; unfold QUEUE_SIZE in *; lia.
Qed.

Lemma attach_rep q a dev e :
  eq_rep q a -> type e = DeviceValuator base ->
  ∃ q', attach_valuator base q e (u32 (tail q)) = Ok q' ∧ eq_rep q' (a_enqueue base id pointer a dev e) ∧ held q q'.
Proof.
  intros H Ht. unfold attach_valuator. rewrite (empty_tail q a H).
  rewrite (er_tail _ _ H), u32_idx. rewrite <- Z.add_opp_r, step_idx, Z.add_opp_r.
  set (n := Z.of_nat (length (aq a)) - 1).
  destruct (slot_lookup q a (idx (head q) n) H (idx_range _ _)) as (r & -> & Hr & Hok). cbn [mbind result_bind].
  pose proof Hok as [Hl Hn]. unfold event_of. destruct (event r) as [|k l] eqn:Er; [done|]. cbn [lookup list_lookup of_option mbind result_bind].
  unfold a_enqueue. rewrite Ht, Z.eqb_refl. destruct (last (aq a)) as [x|] eqn:El.
  2: { apply last_None in El. rewrite El, bool_decide_true by done. cbn [orb]. exists q. by destruct (6 <? nevents r). }
  destruct (last_front _ _ El) as [Ea Ef]. rewrite bool_decide_false by (intros E; by rewrite E in El).
  assert (Hlen : (1 <= length (aq a))%nat) by (rewrite Ea, length_app; simpl; lia).
  assert (Hx : view r = x ∧ 1 <= nevents r).
  { destruct (er_queue _ _ H (length (aq a) - 1) x) as (c & Hc & Hv); [rewrite <- El, last_lookup; f_equal; lia|].
    replace (Z.of_nat (length (aq a) - 1)) with n in Hc by lia. by assert (c = r) as -> by congruence. }
  destruct Hx as [Hx Hr1]. unfold accepts, first_event. rewrite <- Hx. unfold view, counted. cbn [ae_events].
  rewrite Er. destruct (Z.to_nat (nevents r)) eqn:En; [lia|]. cbn [take List.head].
  assert (Hlk : length (k :: take n0 l) = S n0) by (simpl in *; rewrite length_take; lia). rewrite Hlk.
  destruct (Z.ltb_spec 6 (nevents r)) as [H6|H6].
  { rewrite (proj2 (Nat.leb_gt (S n0) 6)) by lia. exists q. done. }
  rewrite (proj2 (Nat.leb_le (S n0) 6)) by lia. cbn [orb andb].
  destruct (is_device_event base (type k)); cbn [negb orb andb]; [|by exists q].
  destruct (_ =? _); cbn [negb]; [|by exists q].
  unfold set_event. rewrite Er, Hl. assert ((0 <=? nevents r) && (nevents r <? Z.of_nat 7) = true) as ->.
  { apply andb_true_intro. rewrite Z.leb_le, Z.ltb_lt. lia. }
  cbn [mbind result_bind event pScreen pDev]. rewrite <- Er. eexists. split; [done|].
  set (r' := mkER _ _ _ _).
  assert (Hv : view r' = mkAE ((k :: take n0 l) ++ [e]) (pScreen r) (pDev r)).
  { unfold r'. rewrite view_new by (done || lia). by rewrite En, Er. }
  replace n with (Z.of_nat (length (aq a) - 1)) by lia. split.
  - eapply (rep_put q _ a _ (length (aq a) - 1) r' H); try reflexivity.
    + lia.
    + pose proof (er_room _ _ H). lia.
    + unfold slot_ok, r'. cbn [event nevents]. rewrite length_insert, Er, Hl. lia.
    + unfold r'. cbn [nevents]. lia.
    + cbn [tail set_events]. f_equal. lia.
    + apply (er_time _ _ H).
    + apply (er_motion _ _ H).
    + unfold a_set. cbn [aq_time aq_motion]. by rewrite Hv, Ef.
  - eapply held_put; [done|done|]. pose proof (er_room _ _ H). lia.
Qed.
Lemma append_rep q a dev e m :
  eq_rep q a ->
  ∃ q', (let newtail := u32 (u32 (tail q) + 1) mod QUEUE_SIZE in
      if newtail =? head q then Ok q else write_event (set_events q newtail (events q)) dev e m (u32 (tail q))) = Ok q' ∧
    eq_rep q' (if Z.of_nat (length (aq a)) <? QUEUE_SIZE - 1 then a_new a dev e m (aq a) else a) ∧ held q q'.
Proof.
  intros H. cbv zeta. rewrite (er_tail _ _ H), u32_idx, step_idx. pose proof (er_room _ _ H). pose proof (er_head _ _ H) as Hh.
  destruct (Z.ltb_spec (Z.of_nat (length (aq a))) (QUEUE_SIZE - 1)) as [Hlt|Hge].
  - rewrite (proj2 (Z.eqb_neq _ _)).
    2: { intros E. rewrite <- (idx_0 (head q)) in E at 2 by done. apply idx_inj in E; unfold QUEUE_SIZE in *; lia. }
    destruct (write_event_rep q (set_events q (idx (head q) (Z.of_nat (length (aq a)) + 1)) (events q)) a dev e m (length (aq a)) H) as (q' & E & H' & Hd); [lia|done|reflexivity|].
    rewrite firstn_all in H'. by exists q'.
  - exists q. assert (Z.of_nat (length (aq a)) + 1 = QUEUE_SIZE) as -> by lia.
    unfold idx. rewrite Z.add_mod, Z.mod_same, Z.add_0_r, Z.mod_mod, Z.mod_small by done. by rewrite Z.eqb_refl.
Qed.

Lemma enqueue_rep q a dev e :
  eq_rep q a -> ∃ q', mieqEnqueue base id pointer q dev e = Ok q' ∧ eq_rep q' (a_enqueue base id pointer a dev e) ∧ held q q'.
Proof.
  intros H. unfold mieqEnqueue. destruct (Z.eqb_spec (type e) (DeviceValuator base)) as [Et|Et]; [by apply attach_rep|].
  fold (motion_of base id pointer dev e). set (m := motion_of base id pointer dev e).
  unfold a_enqueue. rewrite (proj2 (Z.eqb_neq _ _) Et). fold m. rewrite (empty_tail q a H), (er_motion _ _ H).
  destruct (append_rep q a dev e m H) as (q' & E & H' & Hd).
  destruct (last (aq a)) as [x|] eqn:El.
  2: { apply last_None in El. rewrite El in *. rewrite bool_decide_true, andb_false_r by done. by exists q'. }
  rewrite bool_decide_false by (intros E0; by rewrite E0 in El). cbn [negb]. rewrite andb_true_r.
  destruct (_ && _) eqn:Em; [|by exists q']. destruct (last_front _ _ El) as [Ea ->].
  assert (Hlen : (1 <= length (aq a))%nat) by (rewrite Ea, length_app; simpl; lia). pose proof (er_room _ _ H).
  rewrite (er_tail _ _ H), u32_idx. rewrite <- Z.add_opp_r, step_idx, Z.add_opp_r.
  replace (Z.of_nat (length (aq a)) - 1) with (Z.of_nat (length (aq a) - 1)) by lia.
  apply write_event_rep; [done|lia|lia|]. pose proof (er_tail _ _ H) as Ht.
  destruct q. unfold set_events. cbn in Ht |- *. f_equal. rewrite Ht. f_equal. lia.
Qed.

Lemma input_rep q a i :
  eq_rep q a -> ∃ q', take_input base id pointer q i = Ok q' ∧ eq_rep q' (a_input base id pointer a i) ∧ held q q'.
Proof.
  destruct i as [dev e|screen b]; [apply enqueue_rep|]. intros H. eexists. split; [done|]. split; [|by split].
  destruct H as [H1 H2 H3 H4 H5 H6 H7 H8 H9 H10 H11]. split; try done. simpl. by destruct b.
Qed.

Lemma inputs_rep q a l :
  eq_rep q a -> ∃ q', take_inputs base id pointer q l = Ok q' ∧ eq_rep q' (fold_left (a_input base id pointer) l a) ∧ held q q'.
Proof.
  revert q a. induction l as [|i l IH]; intros q a H; simpl; [by exists q|].
  destruct (input_rep q a i H) as (q1 & -> & H1 & D1). destruct (IH q1 _ H1) as (q2 & E & H2 & D2).
  exists q2. split; [done|]. split; [done|]. by transitivity q1.
Qed.

Lemma interrupt_rep q a irq :
  eq_rep q a -> ∃ q', interrupt base id pointer q irq = Ok (q', (a_interrupt base id pointer a irq).2) ∧
    eq_rep q' (a_interrupt base id pointer a irq).1 ∧ held q q'.
Proof.
  intros H. destruct irq as [|batch irq]; simpl; [by exists q|].
  destruct (inputs_rep q a batch H) as (q' & -> & H' & D). by exists q'.
Qed.

(** ** Emptying the queue *)

Lemma empty_rep q a : eq_rep q a -> (head q =? tail q) = bool_decide (aq a = []).
Proof. intros H. rewrite Z.eqb_sym, <- (empty_tail q a H). by rewrite (er_tail _ _ H), u32_idx. Qed.

Lemma screens_rep q a enq deq : eq_rep q a -> eq_rep (set_screens q enq deq) (a_set_screens a enq deq).
Proof. intros []. by split. Qed.

(** The first entry leaves the queue; its slot is then the one that is held. *)
Lemma pop_rep q a r l :
  eq_rep q a -> aq a = r :: l ->
  let q' := set_head q (Z.rem (head q + 1) QUEUE_SIZE) in
  eq_rep q' (a_set a l) ∧ idx (head q') (QUEUE_SIZE - 1) = head q ∧
  ∃ c, events q !! Z.to_nat (head q) = Some c ∧ view c = r ∧ 1 <= nevents c ∧ slot_ok c.
Proof.
  intros [H1 H2 H3 H4 H5 H6 H7 H8 H9 H10 H11] Ea q'.
  assert (Hq : head q' = idx (head q) 1) by (simpl; rewrite Z.rem_mod_nonneg; [done|lia|done]).
  rewrite Ea in H2, H3, H6. simpl length in H2, H3. split_and!.
  - split; rewrite ?Hq; try done.
    + apply idx_range.
    + rewrite idx_idx. cbn [aq a_set tail set_head q']. rewrite H2. f_equal. lia.
    + cbn [aq a_set]. lia.
    + intros k x Hk. cbn [events set_head q']. rewrite idx_idx. destruct (H6 (S k) x Hk) as (c & Hc & H).
      exists c. split; [|done]. rewrite <- Hc. do 3 f_equal. lia.
  - rewrite Hq, idx_idx. unfold idx. replace (head q + (1 + (QUEUE_SIZE - 1))) with (head q + 1 * QUEUE_SIZE) by lia.
    rewrite Z.mod_add by done. by apply Z.mod_small.
  - destruct (H6 0%nat r eq_refl) as (c & Hc & Hv & Hn). rewrite idx_0 in Hc by done. exists c. split_and!; try done.
    by eapply Forall_lookup_1.
Qed.

Lemma dispatch_rep q a dev i c :
  eq_rep q a -> 0 <= i -> events q !! Z.to_nat i = Some c -> slot_ok c -> 1 <= nevents c ->
  match a_dispatch pointer keyboard a dev (view c) with
  | Err e => dispatch pointer keyboard q dev i = Err e
  | Ok (calls, a', dev', stop) => ∃ q', dispatch pointer keyboard q dev i = Ok (calls, q', dev', stop) ∧ eq_rep q' a'
  end.
Proof.
  intros H Hi Hc [Hl Hn] Hn1. unfold dispatch, a_dispatch, slot, handler_of. rewrite (proj2 (Z.ltb_ge i 0)), Hc by done.
  cbn [of_option mbind result_bind]. unfold event_of, first_event, view, counted. cbn [ae_events ae_screen ae_dev].
  destruct (event c) as [|k ev] eqn:Ec; [done|]. destruct (Z.to_nat (nevents c)) as [|n] eqn:En; [lia|].
  cbn [take List.head lookup list_lookup of_option mbind result_bind]. rewrite (er_deq _ _ H), (er_enq _ _ H).
  destruct (_ =? _); cbn [negb].
  2: { eexists. split; [done|]. rewrite <- (er_enq _ _ H). by apply screens_rep. }
  destruct (er_handlers _ _ H) as [-> _]. destruct (type k <? 0); cbn [mbind result_bind]; [done|].
  destruct (aq_handlers a !! Z.to_nat (type k)) as [[h|]|]; cbn [of_option mbind result_bind]; [by exists q| |done].
  destruct (_ || _); [by exists q|]. destruct (_ || _ || _); by exists q.
Qed.

Lemma a_input_nonempty a i : aq a <> [] -> aq (a_input base id pointer a i) <> [].
Proof.
  intros H. destruct i as [dev e|screen b]; [|done]. simpl. unfold a_enqueue.
  destruct (last (aq a)) eqn:El; [|by apply last_None in El].
  repeat case_match; simpl; try done; intros E; by apply app_eq_nil in E as [_ E].
Qed.

Lemma a_interrupt_nonempty a irq : aq a <> [] -> aq (a_interrupt base id pointer a irq).1 <> [].
Proof.
  destruct irq as [|batch irq]; [done|]. simpl. revert a. induction batch as [|i l IH]; intros a H; simpl; [done|].
  by apply IH, a_input_nonempty.
Qed.

Lemma process_loop_rep fuel q a s dev irq :
  eq_rep q a ->
  match a_process base id pointer keyboard SaveScreens DPMSSet fuel a s dev irq with
  | Err e => process_loop base id pointer keyboard SaveScreens DPMSSet fuel q s dev irq = Err e
  | Ok (calls, a', s') => ∃ q', process_loop base id pointer keyboard SaveScreens DPMSSet fuel q s dev irq = Ok (calls, q', s') ∧ eq_rep q' a'
  end.
Proof.
  revert q a s dev irq. induction fuel as [|fuel IH]; intros q a s dev irq H; cbn [a_process process_loop];
    destruct (interrupt_rep q a irq H) as (q1 & -> & H1 & D1); destruct (a_interrupt base id pointer a irq) as [a1 irq1];
    cbn [fst snd] in *; cbn [mbind result_bind]; rewrite (empty_rep _ _ H1); case_bool_decide as E1; try (by exists q1); [done|].
  destruct (wake SaveScreens DPMSSet s) as [woken s1].
  destruct (interrupt_rep q1 a1 irq1 H1) as (q2 & -> & H2 & D2). pose proof (a_interrupt_nonempty a1 irq1 E1) as E2.
  destruct (a_interrupt base id pointer a1 irq1) as [a2 irq2]. cbn [fst snd] in *. cbn [mbind result_bind].
  destruct (aq a2) as [|r l] eqn:Ea2; [done|]. destruct (pop_rep q2 a2 r l H2 Ea2) as (H3 & Hi & c & Hc & <- & Hn & Hok).
  destruct (interrupt_rep _ _ irq2 H3) as (q4 & -> & H4 & D4).
  destruct (a_interrupt base id pointer (a_set a2 l) irq2) as [a4 irq4]. cbn [fst snd] in *. cbn [mbind result_bind].
  assert (Hc4 : events q4 !! Z.to_nat (head q1) = Some c).
  { rewrite <- (hd_head _ _ D2), <- Hi, (hd_slot _ _ D4), Hi. done. }
  pose proof (dispatch_rep q4 a4 dev (head q1) c H4) as Hd. specialize (Hd (proj1 (er_head _ _ H1)) Hc4 Hok Hn).
  destruct (a_dispatch pointer keyboard a4 dev (view c)) as [[[[calls a5] dev5] stop]|e]; [|by rewrite Hd].
  destruct Hd as (q5 & -> & H5). cbn [mbind result_bind]. destruct stop; [by exists q5|].
  specialize (IH q5 a5 s1 dev5 irq4 H5). destruct (a_process _ _ _ _ _ _ fuel a5 s1 dev5 irq4) as [[[more a6] s6]|e]; [|by rewrite IH].
  destruct IH as (q6 & -> & H6). by exists q6.
Qed.

End Refine.

(** ** What the abstract queue does *)

Section Behaviour.
Context (base : Z) (id : Z -> Z) (pointer keyboard : Z).
Context (SaveScreens DPMSSet : Idle -> Idle).

Definition is_motion (t : Z) : bool := (t =? MotionNotify) || (t =? DeviceMotionNotify base).

(** [lastMotion] is the device of the last event when that is a motion, and 0 otherwise. *)
Definition motion_ok (a : AQueue) : Prop :=
  ∀ r, last (aq a) = Some r -> aq_motion a <> 0 ->
    ∃ k, first_event r = Some k ∧ is_motion (type k) = true ∧ motion_of base id pointer (ae_dev r) k = aq_motion a.

(** What an event can do to the queue. *)
Inductive enqueued (a a' : AQueue) (dev : Z) (e : xEvent) : Prop :=
  | Dropped : a' = a -> enqueued a a' dev e
  | Appended : (Z.of_nat (length (aq a)) < QUEUE_SIZE - 1) ->
      aq a' = aq a ++ [mkAE [clamp a e] (aq_enq a) dev] -> enqueued a a' dev e
  | Attached front r k : aq a = front ++ [r] -> first_event r = Some k -> type e = DeviceValuator base ->
      is_device_event base (type k) = true -> (length (ae_events r) <= 6)%nat ->
      aq a' = front ++ [mkAE (ae_events r ++ [e]) (ae_screen r) (ae_dev r)] -> enqueued a a' dev e
  | Compressed front r k : aq a = front ++ [r] -> first_event r = Some k -> is_motion (type k) = true ->
      is_motion (type e) = true -> motion_of base id pointer (ae_dev r) k = motion_of base id pointer dev e ->
      aq a' = front ++ [mkAE [clamp a e] (aq_enq a) dev] -> enqueued a a' dev e.

Lemma type_clamp a e : type (clamp a e) = type e.
Proof. unfold clamp. by destruct (_ && _). Qed.

Lemma motion_of_clamp a dev e : motion_of base id pointer dev (clamp a e) = motion_of base id pointer dev e.
Proof. unfold motion_of. by rewrite type_clamp. Qed.

Lemma motion_of_nonzero dev e : motion_of base id pointer dev e <> 0 -> is_motion (type e) = true.
Proof.
  unfold motion_of, is_motion. destruct (type e =? MotionNotify); [done|]. by destruct (type e =? DeviceMotionNotify base).
Qed.

Lemma motion_ok_new a dev e l : motion_ok (a_new a dev e (motion_of base id pointer dev e) l).
Proof.
  intros r Hr Hm. unfold a_new in *. cbn [aq aq_motion] in *. rewrite last_snoc in Hr. injection Hr as <-.
  exists (clamp a e). split; [done|]. rewrite type_clamp. cbn [ae_dev]. rewrite motion_of_clamp.
  split; [by eapply motion_of_nonzero|done].
Qed.

Lemma a_enqueue_cases a dev e :
  motion_ok a -> motion_ok (a_enqueue base id pointer a dev e) ∧ enqueued a (a_enqueue base id pointer a dev e) dev e.
Proof.
  intros H. unfold a_enqueue. set (m := motion_of base id pointer dev e). destruct (last (aq a)) as [r|] eqn:El.
  2: { destruct (Z.eqb_spec (type e) (DeviceValuator base)); [split; [done|by apply Dropped]|].
       split; [apply motion_ok_new|]. apply last_None in El. apply Appended; rewrite El; done. }
  destruct (last_front _ _ El) as [Ea _]. destruct (Z.eqb_spec (type e) (DeviceValuator base)) as [Et|Et].
  - destruct (accepts base r e) eqn:Eacc; [|split; [done|by apply Dropped]]. unfold accepts in Eacc.
    apply andb_prop in Eacc as [Hl Hk]. destruct (first_event r) as [k|] eqn:Ek; [|done]. apply andb_prop in Hk as [Hk _].
    apply Nat.leb_le in Hl. split; [|by eapply Attached].
    intros r' Hr' Hm. unfold a_set in Hr', Hm |- *. cbn [aq aq_motion] in *. rewrite last_snoc in Hr'. injection Hr' as <-.
    destruct (H r El Hm) as (k' & Hk' & H'). exists k'. split; [|done]. unfold first_event in *. cbn [ae_events].
    by destruct (ae_events r).
  - destruct (negb (m =? 0) && (m =? aq_motion a)) eqn:Em.
    + apply andb_prop in Em as [Em0 Em]. apply Z.eqb_eq in Em. apply negb_true_iff, Z.eqb_neq in Em0.
      split; [apply motion_ok_new|]. destruct (H r El) as (k & Hk & Hm & Hd); [congruence|].
      eapply Compressed; [exact Ea|exact Hk|done|by eapply motion_of_nonzero|by rewrite Hd, <- Em|done].
    + destruct (Z.ltb_spec (Z.of_nat (length (aq a))) (QUEUE_SIZE - 1)); [|split; [done|by apply Dropped]].
      split; [apply motion_ok_new|]. by apply Appended.
Qed.

Lemma a_enqueue_time a dev e :
  aq_time (a_enqueue base id pointer a dev e) < aq_time a -> aq_time (a_enqueue base id pointer a dev e) + 10000 <= aq_time a.
Proof.
  assert (Hn : ∀ m l, aq_time (a_new a dev e m l) < aq_time a -> aq_time (a_new a dev e m l) + 10000 <= aq_time a).
  { intros m l. unfold a_new. cbn [aq_time]. unfold clamp. destruct (_ && _) eqn:E; [simpl; lia|]. zbool. lia. }
  unfold a_enqueue. repeat case_match; auto; simpl; lia.
Qed.

(** ** Emptying ends *)

Definition inputs_left (irq : list (list input)) : nat := length (concat irq).

Lemma length_a_enqueue a dev e : (length (aq (a_enqueue base id pointer a dev e)) <= S (length (aq a)))%nat.
Proof.
  unfold a_enqueue. destruct (last (aq a)) as [r|] eqn:El.
  2: { apply last_None in El. rewrite El. case_match; simpl; [rewrite El; simpl|]; lia. }
  destruct (last_front _ _ El) as [Ea Ef]. rewrite Ef. repeat case_match; simpl; rewrite ?length_app, ?length_take; simpl; lia.
Qed.

Lemma length_a_inputs a l : (length (aq (fold_left (a_input base id pointer) l a)) <= length (aq a) + length l)%nat.
Proof.
  revert a. induction l as [|i l IH]; intros a; simpl; [lia|]. etransitivity; [apply IH|].
  destruct i as [dev e|screen b]; simpl; [|lia]. pose proof (length_a_enqueue a dev e). lia.
Qed.

Lemma length_a_interrupt a irq :
  (length (aq (a_interrupt base id pointer a irq).1) + inputs_left (a_interrupt base id pointer a irq).2
    <= length (aq a) + inputs_left irq)%nat.
Proof.
  destruct irq as [|batch irq]; simpl; [lia|]. unfold inputs_left. simpl. rewrite length_app.
  pose proof (length_a_inputs a batch). lia.
Qed.

Lemma a_dispatch_queue a dev r calls a' dev' stop :
  a_dispatch pointer keyboard a dev r = Ok (calls, a', dev', stop) -> aq a' = aq a.
Proof.
  unfold a_dispatch. destruct (first_event r) as [e0|]; cbn [of_option mbind result_bind]; [|done].
  destruct (_ =? _); cbn [negb]; [|by intros [= <- <- <- <-]].
  destruct (type e0 <? 0); cbn [mbind result_bind]; [done|]. destruct (aq_handlers a !! _) as [[h|]|]; cbn [of_option mbind result_bind];
    [by intros [= <- <- <- <-]| |done].
  destruct (_ || _); [by intros [= <- <- <- <-]|]. destruct (_ || _ || _); by intros [= <- <- <- <-].
Qed.

Lemma a_dispatch_fuel a dev r : a_dispatch pointer keyboard a dev r <> Err OutOfFuel.
Proof.
  unfold a_dispatch. destruct (first_event r) as [e0|]; cbn [of_option mbind result_bind]; [|done].
  destruct (_ =? _); cbn [negb]; [|done]. destruct (type e0 <? 0); cbn [mbind result_bind]; [done|].
  destruct (aq_handlers a !! _) as [[h|]|]; cbn [of_option mbind result_bind]; try done.
  destruct (_ || _); [done|]. by destruct (_ || _ || _).
Qed.

Lemma a_process_ends fuel a s dev irq :
  (length (aq a) + inputs_left irq <= fuel)%nat ->
  a_process base id pointer keyboard SaveScreens DPMSSet fuel a s dev irq <> Err OutOfFuel.
Proof.
  revert a s dev irq. induction fuel as [|fuel IH]; intros a s dev irq Hf; cbn [a_process];
    pose proof (length_a_interrupt a irq) as L1; destruct (a_interrupt base id pointer a irq) as [a1 irq1]; cbn [fst snd] in *;
    case_bool_decide as E1; try done; [destruct (aq a1); [done|simpl in *; lia]|].
  destruct (wake SaveScreens DPMSSet s) as [woken s1].
  pose proof (length_a_interrupt a1 irq1) as L2; destruct (a_interrupt base id pointer a1 irq1) as [a2 irq2]; cbn [fst snd] in *.
  destruct (aq a2) as [|r l] eqn:Ea; [done|].
  pose proof (length_a_interrupt (a_set a2 l) irq2) as L3; destruct (a_interrupt base id pointer (a_set a2 l) irq2) as [a3 irq3].
  cbn [fst snd aq a_set] in *. pose proof (a_dispatch_fuel a3 dev r) as Hd.
  destruct (a_dispatch pointer keyboard a3 dev r) as [[[[calls a4] dev4] stop]|e] eqn:Edis; cbn [mbind result_bind]; [|congruence].
  destruct stop; [done|]. apply a_dispatch_queue in Edis. simpl in L2.
  assert (Hle : (length (aq a4) + inputs_left irq3 <= fuel)%nat) by (rewrite Edis; lia).
  specialize (IH a4 s1 dev4 irq3 Hle). destruct (a_process _ _ _ _ _ _ fuel a4 s1 dev4 irq3) as [[[? ?] ?]|e']; cbn [mbind result_bind]; congruence.
Qed.
(** *** Deliveries *)

(** An event whose type is within the array of handlers and has none. *)
Definition unhandled (hs : list (option Z)) (r : AEvent) : Prop :=
  ∃ k, first_event r = Some k ∧ 0 <= type k ∧ hs !! Z.to_nat (type k) = Some None.

(** The device that gets the events of an entry, and what is done before: the events of the
    core protocol go to the core keyboard or pointer, which first takes on the properties of the
    device they come from; all others go to the device they come from. *)
Definition receiver (r : AEvent) (t : Z) : list mieq_call * Z :=
  if bool_decide (t = KeyPress ∨ t = KeyRelease) then ([CallSwitchCoreKeyboard (ae_dev r)], keyboard)
  else if bool_decide (t = MotionNotify ∨ t = ButtonPress ∨ t = ButtonRelease) then ([CallSwitchCorePointer (ae_dev r)], pointer)
  else ([], ae_dev r).

(** The calls for the entries [l] when [deq] is the current screen: an entry from another
    screen makes that one current, at the position of its first event, and goes no further. *)
Fixpoint delivered (deq : Z) (l : list AEvent) : list mieq_call :=
  match l with
  | [] => []
  | r :: l =>
      let k := default (mkXE 0 0 0 0 0 0 []) (first_event r) in
      if ae_screen r =? deq
      then (receiver r (type k)).1 ++ CallProcessInput (receiver r (type k)).2 (ae_events r) :: delivered deq l
      else CallNewCurrentScreen (ae_screen r) (rootX k) (rootY k) :: delivered (ae_screen r) l
  end.

(** The calls without those that wake up the screen. *)
Definition about_input (c : mieq_call) : bool :=
  match c with CallSaveScreens | CallSetScreenSaverTimer | CallDPMSSet => false | _ => true end.

Definition processed (calls : list mieq_call) : list mieq_call := List.filter about_input calls.

Lemma wake_processed s : processed (wake SaveScreens DPMSSet s).1 = [].
Proof. unfold wake. repeat case_match; simplify_eq; done. Qed.

Lemma processed_app a b : processed (a ++ b) = processed a ++ processed b.
Proof. apply List.filter_app. Qed.

Lemma receiver_ok (t d : Z) :
  (if (t =? KeyPress) || (t =? KeyRelease) then ([CallSwitchCoreKeyboard d], keyboard)
   else if (t =? MotionNotify) || (t =? ButtonPress) || (t =? ButtonRelease) then ([CallSwitchCorePointer d], pointer)
   else ([], d)) =
  (if bool_decide (t = KeyPress ∨ t = KeyRelease) then ([CallSwitchCoreKeyboard d], keyboard)
   else if bool_decide (t = MotionNotify ∨ t = ButtonPress ∨ t = ButtonRelease) then ([CallSwitchCorePointer d], pointer)
   else ([], d)).
Proof.
  destruct (Z.eqb_spec t KeyPress), (Z.eqb_spec t KeyRelease), (Z.eqb_spec t MotionNotify), (Z.eqb_spec t ButtonPress),
    (Z.eqb_spec t ButtonRelease); repeat case_bool_decide; done || tauto.
Qed.

Lemma a_dispatch_unhandled a dev r :
  unhandled (aq_handlers a) r ->
  ∃ calls a' dev', a_dispatch pointer keyboard a dev r = Ok (calls, a', dev', false) ∧ aq a' = aq a ∧
    aq_handlers a' = aq_handlers a ∧
    processed calls ++ delivered (aq_deq a') (aq a) = delivered (aq_deq a) (r :: aq a).
Proof.
  intros (k & Hk & Ht & Hh). unfold a_dispatch. rewrite Hk. cbn [of_option mbind result_bind delivered]. rewrite Hk. cbn [from_option Datatypes.id].
  destruct (ae_screen r =? aq_deq a); cbn [negb]; [|by do 3 eexists].
  rewrite (proj2 (Z.ltb_ge _ _)), Hh by done. cbn [of_option mbind result_bind]. rewrite receiver_ok. unfold receiver.
  repeat case_bool_decide; by do 3 eexists.
Qed.

Lemma a_process_delivers fuel a s dev :
  (length (aq a) <= fuel)%nat -> Forall (unhandled (aq_handlers a)) (aq a) ->
  ∃ calls a' s', a_process base id pointer keyboard SaveScreens DPMSSet fuel a s dev [] = Ok (calls, a', s') ∧
    aq a' = [] ∧ processed calls = delivered (aq_deq a) (aq a).
Proof.
  revert a s dev. induction fuel as [|fuel IH]; intros a s dev Hf Hu; cbn [a_process a_interrupt];
    destruct (aq a) as [|r l] eqn:Ea; try (by simpl in Hf; lia); try (by exists [], a, s; rewrite bool_decide_true by done).
  rewrite bool_decide_false by done. pose proof (wake_processed s) as Hw. destruct (wake SaveScreens DPMSSet s) as [woken s1].
  cbn [fst] in Hw. inversion Hu as [|? ? Hr Hl]; subst.
  destruct (a_dispatch_unhandled (a_set a l) dev r Hr) as (calls & a1 & dev1 & -> & Eq & Eh & Ep). cbn [mbind result_bind].
  cbn [aq a_set aq_handlers aq_deq] in Eq, Eh, Ep.
  destruct (IH a1 s1 dev1) as (more & a2 & s2 & -> & Ea2 & Ep2); [rewrite Eq; simpl in Hf; lia|by rewrite Eq, Eh|].
  cbn [mbind result_bind]. do 3 eexists. split; [done|]. split; [done|].
  by rewrite !processed_app, Hw, Ep2, Eq.
Qed.

End Behaviour.

(** ** Properties *)

(** C8: The ring buffer of 512 slots is a queue of at most 511 entries: filling it stays inside
    its arrays and is [a_enqueue], and emptying it is the abstract loop that takes an entry
    out in one step, although signals may fill the queue and switch screens between any of
    the accesses; the slot of the event being handled is never overwritten.  The two agree on
    every outcome: the same calls in the same order, the same errors, the same divergence. *)
Theorem event_queue_refines base id pointer keyboard SaveScreens DPMSSet q a :
  eq_rep q a ->
  (∀ dev e, ∃ q', mieqEnqueue base id pointer q dev e = Ok q' ∧ eq_rep q' (a_enqueue base id pointer a dev e)) ∧
  (∀ fuel s irq,
    match a_process base id pointer keyboard SaveScreens DPMSSet fuel a s None irq with
    | Err e => mieqProcessInputEvents base id pointer keyboard SaveScreens DPMSSet fuel q s irq = Err e
    | Ok (calls, a', s') => ∃ q',
        mieqProcessInputEvents base id pointer keyboard SaveScreens DPMSSet fuel q s irq = Ok (calls, q', s') ∧ eq_rep q' a'
    end).
Proof.
  intros H. split.
  - intros dev e. destruct (enqueue_rep base id pointer q a dev e H) as (q' & E & H' & _). by exists q'.
  - intros fuel s irq. by apply process_loop_rep.
Qed.

(** Filling the queue loses no key or button: a new event either is dropped (no room, or a
    valuator with nothing to belong to), or is appended, or, when it is a valuator, joins the
    last entry, which keeps at most seven events, or replaces the last entry, and that only
    when both are motions of the same device.  Times do not go back by less than ten
    seconds. *)
Theorem mieqEnqueue_compression base id pointer q a dev e :
  eq_rep q a -> motion_ok base id pointer a ->
  ∃ q' a', mieqEnqueue base id pointer q dev e = Ok q' ∧ eq_rep q' a' ∧ motion_ok base id pointer a' ∧
    enqueued base id pointer a a' dev e ∧
    (lastEventTime q <= lastEventTime q' ∨ lastEventTime q' + 10000 <= lastEventTime q).
Proof.
  intros H Hm. destruct (enqueue_rep base id pointer q a dev e H) as (q' & E & H' & _).
  destruct (a_enqueue_cases base id pointer a dev e Hm) as [Hm' Hc].
  exists q', (a_enqueue base id pointer a dev e). split_and!; try done.
  rewrite (er_time _ _ H), (er_time _ _ H'). pose proof (a_enqueue_time base id pointer a dev e). lia.
Qed.

(** C34: Emptying the queue ends however many signals interrupt it, within as many rounds as
    there are entries and inputs to come.  If no signal interrupts it and no custom handler
    is registered for the type of any entry (one would end the emptying: see
    [handler_stops]), it empties the queue and makes, apart from waking up the screen,
    exactly these calls, in the order of the entries: an entry from another screen than the
    current one makes its screen current and is not delivered; every other entry is handed,
    with all its events, to the core keyboard or the core pointer when it is an event of the
    core protocol, after these were switched to the device it came from, and to the device
    it came from otherwise. *)
Theorem mieqProcessInputEvents_delivers base id pointer keyboard SaveScreens DPMSSet q a s :
  eq_rep q a ->
  (∀ fuel irq, (length (aq a) + inputs_left irq <= fuel)%nat ->
    mieqProcessInputEvents base id pointer keyboard SaveScreens DPMSSet fuel q s irq <> Err OutOfFuel) ∧
  (Forall (unhandled (aq_handlers a)) (aq a) ->
    ∃ calls q' s', mieqProcessInputEvents base id pointer keyboard SaveScreens DPMSSet (length (aq a)) q s [] = Ok (calls, q', s') ∧
      head q' = tail q' ∧ processed calls = delivered pointer keyboard (pDequeueScreen q) (aq a)).
Proof.
  intros H. split.
  - intros fuel irq Hf E. pose proof (process_loop_rep base id pointer keyboard SaveScreens DPMSSet fuel q a s None irq H) as Hr.
    pose proof (a_process_ends base id pointer keyboard SaveScreens DPMSSet fuel a s None irq Hf) as Hn.
    destruct (a_process _ _ _ _ _ _ fuel a s None irq) as [[[? ?] ?]|e]; [destruct Hr as (q' & Hr & _)|];
      unfold mieqProcessInputEvents in E; congruence.
  - intros Hu. destruct (a_process_delivers base id pointer keyboard SaveScreens DPMSSet (length (aq a)) a s None) as
      (calls & a' & s' & E & Ea & Ep); [done|done|].
    pose proof (process_loop_rep base id pointer keyboard SaveScreens DPMSSet (length (aq a)) q a s None [] H) as Hr.
    rewrite E in Hr. destruct Hr as (q' & Hr & H'). exists calls, q', s'. split; [exact Hr|].
    rewrite (er_deq _ _ H). split; [|done]. pose proof (empty_rep _ _ H') as He. rewrite Ea, bool_decide_true in He by done. by apply Z.eqb_eq.
Qed.

(** A custom handler ends the emptying after the event it takes: what is behind that event stays in the
    queue, and the handler is given the device of the event before, here none, not its own. *)
Lemma handler_stops base id pointer keyboard SaveScreens DPMSSet fuel a s r l k h :
  aq a = r :: l -> first_event r = Some k -> 0 <= type k -> aq_handlers a !! Z.to_nat (type k) = Some (Some h) ->
  ae_screen r = aq_deq a ->
  a_process base id pointer keyboard SaveScreens DPMSSet (S fuel) a s None [] =
    Ok ((wake SaveScreens DPMSSet s).1 ++ [CallHandler h (aq_deq a) (ae_events r) None], a_set a l, (wake SaveScreens DPMSSet s).2).
Proof.
  intros Ea Hk Ht Hh Hs. cbn [a_process a_interrupt]. rewrite Ea, bool_decide_false by done.
  destruct (wake SaveScreens DPMSSet s) as [woken s1]. unfold a_dispatch. rewrite Hk. cbn [of_option mbind result_bind].
  cbn [aq_deq a_set aq_handlers]. rewrite Hs, Z.eqb_refl. cbn [negb]. rewrite (proj2 (Z.ltb_ge _ _)), Hh by done. done.
Qed.

(** ** Examples *)

Definition demo_slot : EventRec := mkER (replicate 7 (mkXE 0 0 0 0 0 0 [])) 0 0 0.

(** The queue after initialisation, at time 100 with screen 1. *)
Definition demo_queue : EventQueueRec := mieqInit (mkEQ 0 0 0 0 (replicate 512 demo_slot) 0 0 []) 100 1.

Definition demo_empty : AQueue := mkAQ [] 100 0 1 1 (replicate 128 None).

Lemma demo_queue_rep : eq_rep demo_queue demo_empty.
Proof.
  split; try done.
  apply Forall_replicate. split; [done|simpl; lia].
Qed.

(** A key press and two motions, at times 90, 110 and 120. *)
Definition demo_inputs : list input :=
  [Enqueue 7 (mkXE 2 38 90 0 0 0 []); Enqueue 8 (mkXE 6 0 110 3 4 0 []); Enqueue 8 (mkXE 6 0 120 5 6 0 [])].

Definition demo_filled : AQueue := fold_left (a_input 80 (λ d, d) 8) demo_inputs demo_empty.

Lemma demo_filled_rep : ∃ q, take_inputs 80 (λ d, d) 8 demo_queue demo_inputs = Ok q ∧ eq_rep q demo_filled.
Proof. destruct (inputs_rep 80 (λ d, d) 8 demo_queue demo_empty demo_inputs demo_queue_rep) as (q & E & H & _). by exists q. Qed.

Definition same_idle (s : Idle) : Idle := s.

Lemma event_queue_refines_witness :
  ∃ q q' calls s', eq_rep q demo_filled ∧
    mieqProcessInputEvents 80 (λ d, d) 8 9 same_idle same_idle 5 q (mkIdle 1 0) [[]; [Enqueue 7 (mkXE 3 38 130 0 0 0 [])]] = Ok (calls, q', s') ∧
    length (processed calls) = 6%nat.
Proof.
  destruct demo_filled_rep as (q & _ & H).
  destruct (event_queue_refines 80 (λ d, d) 8 9 same_idle same_idle q demo_filled H) as [_ Hp].
  specialize (Hp 5%nat (mkIdle 1 0) [[]; [Enqueue 7 (mkXE 3 38 130 0 0 0 [])]]).
  destruct (a_process 80 (λ d, d) 8 9 same_idle same_idle 5 demo_filled (mkIdle 1 0) None _) as [[[calls a'] s']|e] eqn:E;
    vm_compute in E; [|discriminate].
  destruct Hp as (q' & Hp & _). exists q, q', calls, s'. split; [exact H|]. split; [exact Hp|].
  injection E as <- _ _. reflexivity.
Defined.

Lemma mieqEnqueue_compression_witness :
  ∃ q', mieqEnqueue 80 (λ d, d) 8 demo_queue 7 (mkXE 2 38 90 0 0 0 []) = Ok q' ∧ lastEventTime demo_queue <= lastEventTime q'.
Proof.
  destruct (mieqEnqueue_compression 80 (λ d, d) 8 demo_queue demo_empty 7 (mkXE 2 38 90 0 0 0 []) demo_queue_rep) as
    (q' & a' & E & _ & _ & _ & Ht); [intros r Hr; discriminate Hr|].
  exists q'. split; [exact E|]. vm_compute in E. injection E as <-. vm_compute. discriminate.
Defined.

Lemma mieqProcessInputEvents_delivers_witness :
  ∃ q calls q' s', eq_rep q demo_filled ∧
    mieqProcessInputEvents 80 (λ d, d) 8 9 same_idle same_idle 2 q (mkIdle 0 0) [] = Ok (calls, q', s') ∧
    head q' = tail q' ∧
    map (λ c, match c with CallProcessInput d e => (d, map time e) | CallSwitchCoreKeyboard d | CallSwitchCorePointer d => (d, []) | _ => (0, []) end)
      (processed calls) = [(7, []); (9, [100]); (8, []); (8, [120])].
Proof.
  destruct demo_filled_rep as (q & _ & H).
  destruct (mieqProcessInputEvents_delivers 80 (λ d, d) 8 9 same_idle same_idle q demo_filled (mkIdle 0 0) H) as [_ Hd].
  destruct Hd as (calls & q' & s' & E & Eh & Ep).
  - vm_compute. repeat constructor; eexists; (split; [reflexivity|split; [discriminate|reflexivity]]).
  - exists q, calls, q', s'. split; [exact H|]. split; [exact E|]. split; [exact Eh|].
    rewrite Ep, (er_deq _ _ H). reflexivity.
Defined.
