(* ===== verification/Grabs.v ===== *)
(** * Grabs: passive grabs of keys and buttons (dix/grabs.c)

    A passive grab stands for a set of combinations of modifiers and a key or button.  A
    detail is one value, or any value but those whose bit is clear in a mask.  The grabs of a
    window are a chain in its optional record; each is a resource. *)

From S2P Require Import Prelude Atom ResourceDB.

(** ** Data (include/inputstr.h) *)

Definition AnyKey : Z := 0.
Definition AnyModifier : Z := 2 ^ 15.
Definition MasksPerDetailMask : nat := 8.

(** A mask belongs to one detail only, so it is kept in it; its words have 64 bits. *)
Record DetailRec := mkDetail { exact : Z; pMask : option (list Z) }.

Record GrabRec := mkGrab {
  resource : XID; device : pointer; window : pointer; ownerEvents : bool; keyboardMode : bool;
  pointerMode : bool; coreGrab : bool; coreMods : bool; gtype : Z; modifiersDetail : DetailRec;
  modifierDevice : pointer; detail : DetailRec; confineTo : pointer; gcursor : pointer; eventMask : Z
}.

(** [grabs] are the grabs by address; [passive] has the chain of each window that has an
    optional record; [g_resources] the grabs that are resources; [refcnt] counts the
    references to cursors. *)
Record GState := mkG {
  grabs : gmap nat GrabRec; passive : gmap pointer (list nat); g_resources : gmap XID nat;
  refcnt : gmap pointer Z; g_fresh : nat; g_mem : oracle
}.

#[export] Instance DetailRec_eq_dec : EqDecision DetailRec.
Proof. solve_decision. Defined.

Definition set_grabs (s : GState) (g : gmap nat GrabRec) : GState :=
  mkG g (passive s) (g_resources s) (refcnt s) (g_fresh s) (g_mem s).
Definition set_passive (s : GState) (p : gmap pointer (list nat)) : GState :=
  mkG (grabs s) p (g_resources s) (refcnt s) (g_fresh s) (g_mem s).
Definition set_g_resources (s : GState) (r : gmap XID nat) : GState :=
  mkG (grabs s) (passive s) r (refcnt s) (g_fresh s) (g_mem s).
Definition add_refs (s : GState) (c : pointer) (n : Z) : GState :=
  mkG (grabs s) (passive s) (g_resources s) (<[c := default 0 (refcnt s !! c) + n]> (refcnt s)) (g_fresh s) (g_mem s).
Definition g_alloc (s : GState) : bool * GState :=
  let '(ok, o) := alloc (g_mem s) in
  (ok, mkG (grabs s) (passive s) (g_resources s) (refcnt s) (g_fresh s) o).

Definition load_grab (s : GState) (a : nat) : result GrabRec := of_option Dangling (grabs s !! a).

(** [wPassiveGrabs] *)
Definition wPassiveGrabs (s : GState) (w : pointer) : list nat := default [] (passive s !! w).

Definition set_details (g : GrabRec) (m d : DetailRec) : GrabRec :=
  mkGrab (resource g) (device g) (window g) (ownerEvents g) (keyboardMode g) (pointerMode g) (coreGrab g) (coreMods g)
    (gtype g) m (modifierDevice g) d (confineTo g) (gcursor g) (eventMask g).

(** ** Masks *)

Definition BITMASK (i : Z) : Z := Z.shiftl 1 (Z.land i 31).
Definition MASKIDX (i : Z) : Z := Z.shiftr i 5.

Definition MASKWORD (buf : list Z) (i : Z) : result Z := of_option OutOfBounds (buf !! Z.to_nat (MASKIDX i)).

Definition BITCLEAR (buf : list Z) (i : Z) : result (list Z) :=
  w ← MASKWORD buf i;
  Ok (<[Z.to_nat (MASKIDX i) := Z.ldiff w (BITMASK i)]> buf).

Definition GETBIT (buf : list Z) (i : Z) : result bool :=
  w ← MASKWORD buf i;
  Ok (negb (Z.land w (BITMASK i) =? 0)).

(** [~0L] *)
Definition full_mask : list Z := replicate MasksPerDetailMask (2 ^ 64 - 1).

Definition DeleteDetailFromMask (s : GState) (pDetailMask : option (list Z)) (detail : Z) : result (option (list Z) * GState) :=
  let '(ok, s) := g_alloc s in
  if negb ok then Ok (None, s) else
  mask ← BITCLEAR (default full_mask pDetailMask) detail;
  Ok (Some mask, s).

(** ** Comparing grabs *)

(** [a && b] and [a || b], which do not evaluate [b] when [a] decides. *)
Definition andb_r (a b : result bool) : result bool := x ← a; if x : bool then b else Ok false.
Definition orb_r (a b : result bool) : result bool := x ← a; if x : bool then Ok true else b.

Definition IsInGrabMask (firstDetail secondDetail : DetailRec) (exception : Z) : result bool :=
  if exact firstDetail =? exception then
    match pMask firstDetail with
    | None => Ok true
    | Some mask => if exact secondDetail =? exception then Ok false else GETBIT mask (exact secondDetail)
    end
  else Ok false.

Definition IdenticalExactDetails (firstExact secondExact exception : Z) : bool :=
  if (firstExact =? exception) || (secondExact =? exception) then false else firstExact =? secondExact.

Definition DetailSupersedesSecond (firstDetail secondDetail : DetailRec) (exception : Z) : result bool :=
  orb_r (IsInGrabMask firstDetail secondDetail exception)
    (Ok (IdenticalExactDetails (exact firstDetail) (exact secondDetail) exception)).

Definition GrabSupersedesSecond (first second : GrabRec) : result bool :=
  andb_r (DetailSupersedesSecond (modifiersDetail first) (modifiersDetail second) AnyModifier)
    (DetailSupersedesSecond (detail first) (detail second) AnyKey).

Definition same_devices (first second : GrabRec) : bool :=
  negb (negb (device first =? device second) || negb (modifierDevice first =? modifierDevice second) ||
        negb (gtype first =? gtype second)).

Definition GrabMatchesSecond (first second : GrabRec) : result bool :=
  if negb (same_devices first second) then Ok false else
  orb_r (orb_r (GrabSupersedesSecond first second) (GrabSupersedesSecond second first))
    (orb_r
      (andb_r (DetailSupersedesSecond (detail second) (detail first) AnyKey)
        (DetailSupersedesSecond (modifiersDetail first) (modifiersDetail second) AnyModifier))
      (andb_r (DetailSupersedesSecond (detail first) (detail second) AnyKey)
        (DetailSupersedesSecond (modifiersDetail second) (modifiersDetail first) AnyModifier))).

Definition GrabsAreIdentical (first second : GrabRec) : result bool :=
  if negb (same_devices first second) then Ok false else
  andb_r
    (andb_r (DetailSupersedesSecond (detail first) (detail second) AnyKey)
      (DetailSupersedesSecond (detail second) (detail first) AnyKey))
    (andb_r (DetailSupersedesSecond (modifiersDetail first) (modifiersDetail second) AnyModifier)
      (DetailSupersedesSecond (modifiersDetail second) (modifiersDetail first) AnyModifier)).

(** ** Creating and freeing *)

Section Grabs.
(** [FakeClientID] of the resource database, for the identifiers in use and a client, the core devices, and whether other attributes
    keep the optional record of a window that has no grabs. *)
Context (fake_id : gmap XID nat -> gmap nat GrabRec -> Z -> result XID).
Context (keyboard mouse : pointer) (needed : pointer -> bool).

Definition CreateGrab (s : GState) (client : Z) (dev win : pointer) (mask : Z) (owner kbd ptr : bool) (modDevice : pointer)
    (modifiers type keybut : Z) (confine cursor : pointer) : result (option (nat * GrabRec) * GState) :=
  let '(ok, s) := g_alloc s in
  if negb ok then Ok (None, s) else
  id ← fake_id (g_resources s) (grabs s) client;
  let core d := (d =? keyboard) || (d =? mouse) in
  let a := g_fresh s in
  let g := mkGrab id dev win owner kbd ptr (core dev) (core modDevice) (Z.land type 255) (mkDetail modifiers None)
             modDevice (mkDetail keybut None) confine cursor mask in
  let s := mkG (<[a := g]> (grabs s)) (passive s) (g_resources s) (refcnt s) (S a) (g_mem s) in
  Ok (Some (a, g), if cursor =? 0 then s else add_refs s cursor 1).

Definition FreeGrab (s : GState) (a : nat) : result GState :=
  g ← load_grab s a;
  let s := if gcursor g =? 0 then s else add_refs s (gcursor g) (-1) in
  Ok (set_grabs s (delete a (grabs s))).

(** The chain without a grab. *)
Fixpoint unlink_grab (a : nat) (chain : list nat) : list nat :=
  match chain with
  | [] => []
  | b :: chain => if decide (a = b) then chain else b :: unlink_grab a chain
  end.

Definition DeletePassiveGrab (s : GState) (a : nat) : result GState :=
  g ← load_grab s a;
  let w := window g in
  let chain := wPassiveGrabs s w in
  let s :=
    if decide (a ∈ chain) then
      let chain' := unlink_grab a chain in
      if bool_decide (chain' = []) && negb (needed w) then set_passive s (delete w (passive s))
      else set_passive s (<[w := chain']> (passive s))
    else s in
  FreeGrab s a.

(** [AddResource] and [FreeResource] for grabs: a resource that cannot be added is deleted. *)
Definition add_grab_resource (s : GState) (id : XID) (a : nat) : result (bool * GState) :=
  let '(ok, s) := g_alloc s in
  if ok then Ok (true, set_g_resources s (<[id := a]> (g_resources s)))
  else s ← DeletePassiveGrab s a; Ok (false, s).

Definition free_grab_resource (s : GState) (id : XID) : result GState :=
  match g_resources s !! id with
  | None => Ok s
  | Some a => DeletePassiveGrab (set_g_resources s (delete id (g_resources s))) a
  end.

Definition make_optional (s : GState) (w : pointer) : bool * GState :=
  match passive s !! w with
  | Some _ => (true, s)
  | None =>
      let '(ok, s) := g_alloc s in
      if ok then (true, set_passive s (<[w := []]> (passive s))) else (false, s)
  end.

(** ** Deleting combinations *)

(** The arrays of [DeletePassiveGrabFromList]: an update is a grab, whether its key or its
    modifiers are concerned, and the new mask. *)
Record Plan := mkPlan { deletes : list nat; adds : list nat; updates : list (nat * bool * list Z); ok : bool }.

Definition failed (p : Plan) : Plan := mkPlan (deletes p) (adds p) (updates p) false.

(** The macro [UPDATE]. *)
Definition UPDATE (s : GState) (p : Plan) (a : nat) (key : bool) (mask : option (list Z)) (x : Z) : result (Plan * GState) :=
  '(m, s) ← DeleteDetailFromMask s mask x;
  Ok (match m with None => failed p | Some m => mkPlan (deletes p) (adds p) (updates p ++ [(a, key, m)]) (ok p) end, s).

(** The grab for the combinations of [g] with the key of [pMinuendGrab] that remain. *)
Definition plan_add (s : GState) (M : GrabRec) (g : GrabRec) (p : Plan) : result (Plan * GState) :=
  '(new, s) ← CreateGrab s (CLIENT_ID (resource g)) (device g) (window g) (eventMask g) (ownerEvents g) (keyboardMode g)
    (pointerMode g) (modifierDevice g) AnyModifier (gtype g) (Z.land (exact (detail M)) 255) (confineTo g) (gcursor g);
  match new with
  | None => Ok (failed p, s)
  | Some (b, h) =>
      '(m, s) ← DeleteDetailFromMask s (pMask (modifiersDetail g)) (exact (modifiersDetail M));
      match m with
      | None => s ← FreeGrab s b; Ok (failed p, s)
      | Some m =>
          let s := set_grabs s (<[b := set_details h (mkDetail (exact (modifiersDetail h)) (Some m)) (detail h)]> (grabs s)) in
          let '(opt, s) := make_optional s (window h) in
          if negb opt then s ← FreeGrab s b; Ok (failed p, s) else
          '(added, s) ← add_grab_resource s (resource h) b;
          Ok (if added : bool then mkPlan (deletes p) (adds p ++ [b]) (updates p) (ok p) else failed p, s)
      end
  end.

(** A grab of the client that matches. *)
Definition plan_grab (s : GState) (M : GrabRec) (a : nat) (g : GrabRec) (p : Plan) : result (Plan * GState) :=
  sup ← GrabSupersedesSecond M g;
  if sup : bool then Ok (mkPlan (deletes p ++ [a]) (adds p) (updates p) (ok p), s)
  else if (exact (detail g) =? AnyKey) && negb (exact (modifiersDetail g) =? AnyModifier) then
    UPDATE s p a true (pMask (detail g)) (exact (detail M))
  else if (exact (modifiersDetail g) =? AnyModifier) && negb (exact (detail g) =? AnyKey) then
    UPDATE s p a false (pMask (modifiersDetail g)) (exact (modifiersDetail M))
  else if negb (exact (detail M) =? AnyKey) && negb (exact (modifiersDetail M) =? AnyModifier) then
    '(p, s) ← UPDATE s p a true (pMask (detail g)) (exact (detail M));
    plan_add s M g p
  else if exact (detail M) =? AnyKey then
    UPDATE s p a false (pMask (modifiersDetail g)) (exact (modifiersDetail M))
  else UPDATE s p a true (pMask (detail g)) (exact (detail M)).

Fixpoint plan_loop (s : GState) (M : GrabRec) (chain : list nat) (p : Plan) : result (Plan * GState) :=
  match chain with
  | [] => Ok (p, s)
  | a :: chain =>
      if negb (ok p) then Ok (p, s) else
      g ← load_grab s a;
      m ← (if negb (CLIENT_BITS (resource g) =? CLIENT_BITS (resource M)) then Ok false else GrabMatchesSecond g M);
      if negb m then plan_loop s M chain p else
      '(p, s) ← plan_grab s M a g p;
      plan_loop s M chain p
  end.

Fixpoint free_grabs (s : GState) (l : list nat) : result GState :=
  match l with
  | [] => Ok s
  | a :: l => g ← load_grab s a; s ← free_grab_resource s (resource g); free_grabs s l
  end.

Definition push_grab (s : GState) (a : nat) : result GState :=
  g ← load_grab s a;
  chain ← of_option Dangling (passive s !! window g);
  Ok (set_passive s (<[window g := a :: chain]> (passive s))).

Fixpoint push_grabs (s : GState) (l : list nat) : result GState :=
  match l with [] => Ok s | a :: l => s ← push_grab s a; push_grabs s l end.

Definition set_mask (g : GrabRec) (key : bool) (m : list Z) : GrabRec :=
  if key then set_details g (modifiersDetail g) (mkDetail (exact (detail g)) (Some m))
  else set_details g (mkDetail (exact (modifiersDetail g)) (Some m)) (detail g).

Fixpoint set_masks (s : GState) (l : list (nat * bool * list Z)) : result GState :=
  match l with
  | [] => Ok s
  | (a, key, m) :: l => g ← load_grab s a; set_masks (set_grabs s (<[a := set_mask g key m]> (grabs s))) l
  end.

(** The four arrays on the stack. *)
Definition g_alloc4 (s : GState) : bool * GState :=
  let '(k1, s) := g_alloc s in let '(k2, s) := g_alloc s in
  let '(k3, s) := g_alloc s in let '(k4, s) := g_alloc s in (k1 && k2 && k3 && k4, s).

Definition DeletePassiveGrabFromList (s : GState) (M : GrabRec) : result (bool * GState) :=
  let chain := wPassiveGrabs s (window M) in
  if bool_decide (chain = []) then Ok (true, s) else
  let '(k, s) := g_alloc4 s in
  if negb k then Ok (false, s) else
  '(p, s) ← plan_loop s M chain (mkPlan [] [] [] true);
  if negb (ok p) then s ← free_grabs s (adds p); Ok (false, s) else
  s ← free_grabs s (deletes p);
  s ← push_grabs s (adds p);
  s ← set_masks s (updates p);
  Ok (true, s).

(** ** Adding a grab *)

Fixpoint other_client_matches (s : GState) (g : GrabRec) (chain : list nat) : result bool :=
  match chain with
  | [] => Ok false
  | b :: chain =>
      h ← load_grab s b;
      m ← GrabMatchesSecond g h;
      if m && negb (CLIENT_BITS (resource g) =? CLIENT_BITS (resource h)) then Ok true else other_client_matches s g chain
  end.

Fixpoint delete_identical (s : GState) (g : GrabRec) (chain : list nat) : result GState :=
  match chain with
  | [] => Ok s
  | b :: chain =>
      h ← load_grab s b;
      i ← GrabsAreIdentical g h;
      if i : bool then '(_, s) ← DeletePassiveGrabFromList s h; Ok s else delete_identical s g chain
  end.

Definition AddPassiveGrabToList (s : GState) (a : nat) : result (Status * GState) :=
  g ← load_grab s a;
  let chain := wPassiveGrabs s (window g) in
  conflict ← other_client_matches s g chain;
  if conflict : bool then s ← FreeGrab s a; Ok (BadAccess, s) else
  s ← delete_identical s g chain;
  let '(opt, s) := make_optional s (window g) in
  if negb opt then s ← FreeGrab s a; Ok (BadAlloc, s) else
  s ← push_grab s a;
  '(added, s) ← add_grab_resource s (resource g) a;
  Ok (if added : bool then Success else BadAlloc, s).

End Grabs.
