(* ===== verification/GrabsProofs.v ===== *)
(** * GrabsProofs: passive grabs as sets of combinations (dix/grabs.c)

    What a grab stands for, that comparing grabs compares these sets, and that deleting
    combinations removes exactly these, or nothing when memory runs out. *)

From S2P Require Import Prelude Atom ResourceDB Grabs.

#[local] Set Warnings "-clear-no-such-hyp".

(** ** Masks *)

Definition mask_bit (m : list Z) (x : Z) : bool := Z.testbit (nth (Z.to_nat (MASKIDX x)) m 0) (Z.land x 31).

Definition mask_ok (m : list Z) : Prop := length m = MasksPerDetailMask.

Lemma land_31 x : Z.land x 31 = x mod 32.
Proof. change 31 with (Z.ones 5). by rewrite Z.land_ones. Qed.

Lemma MASKIDX_div x : MASKIDX x = x / 32.
Proof. unfold MASKIDX. by rewrite Z.shiftr_div_pow2. Qed.

Lemma MASKIDX_range x : 0 <= x < 256 -> 0 <= MASKIDX x < 8.
Proof. intros H. rewrite MASKIDX_div. split; [by apply Z.div_pos; lia|]. apply Z.div_lt_upper_bound; lia. Qed.

Lemma bit_range x : 0 <= Z.land x 31 < 32.
Proof. rewrite land_31. by apply Z.mod_pos_bound. Qed.

Lemma mask_pos_inj x y : MASKIDX x = MASKIDX y -> Z.land x 31 = Z.land y 31 -> x = y.
Proof.
  rewrite !MASKIDX_div, !land_31. intros E1 E2. rewrite (Z.div_mod x 32), (Z.div_mod y 32) by done. by rewrite E1, E2.
Qed.

Lemma testbit_BITMASK x y : Z.testbit (BITMASK x) (Z.land y 31) = (Z.land x 31 =? Z.land y 31).
Proof.
  unfold BITMASK. pose proof (bit_range x). pose proof (bit_range y). rewrite Z.shiftl_1_l, Z.pow2_bits_eqb by lia. done.
Qed.

Lemma land_BITMASK w x : negb (Z.land w (BITMASK x) =? 0) = Z.testbit w (Z.land x 31).
Proof.
  pose proof (bit_range x) as Hx. destruct (Z.testbit w (Z.land x 31)) eqn:E.
  - apply negb_true_iff, Z.eqb_neq. intros E0. apply (f_equal (λ z, Z.testbit z (Z.land x 31))) in E0.
    by rewrite Z.land_spec, testbit_BITMASK, E, Z.eqb_refl, Z.bits_0 in E0.
  - apply negb_false_iff, Z.eqb_eq, Z.bits_inj_0. intros n. rewrite Z.land_spec. unfold BITMASK.
    rewrite Z.shiftl_1_l. destruct (Z.eq_dec n (Z.land x 31)) as [->|Hn]; [by rewrite E|].
    rewrite Z.pow2_bits_false by congruence. by rewrite andb_false_r.
Qed.

Lemma MASKWORD_ok m x : mask_ok m -> 0 <= x < 256 -> MASKWORD m x = Ok (nth (Z.to_nat (MASKIDX x)) m 0).
Proof.
  intros Hm Hx. pose proof (MASKIDX_range x Hx). unfold MASKWORD, mask_ok, MasksPerDetailMask in *.

  destruct (lookup_lt_is_Some_2 m (Z.to_nat (MASKIDX x))) as [w Hw]; [lia|]. rewrite Hw. cbn [of_option]. f_equal.
  symmetry. by apply nth_lookup_Some.
Qed.

Lemma GETBIT_ok m x : mask_ok m -> 0 <= x < 256 -> GETBIT m x = Ok (mask_bit m x).
Proof. intros Hm Hx. unfold GETBIT. rewrite MASKWORD_ok by done. cbn [mbind result_bind]. by rewrite land_BITMASK. Qed.

Lemma BITCLEAR_ok m x :
  mask_ok m -> 0 <= x < 256 ->
  ∃ m', BITCLEAR m x = Ok m' ∧ mask_ok m' ∧ ∀ y, 0 <= y < 256 -> mask_bit m' y = mask_bit m y && negb (y =? x).
Proof.
  intros Hm Hx. unfold BITCLEAR. rewrite MASKWORD_ok by done. cbn [mbind result_bind]. eexists. split; [done|].
  split; [unfold mask_ok; by rewrite length_insert|]. intros y Hy. unfold mask_bit.
  pose proof (MASKIDX_range x Hx). pose proof (MASKIDX_range y Hy). unfold mask_ok, MasksPerDetailMask in Hm.
  rewrite !nth_lookup. destruct (decide (MASKIDX y = MASKIDX x)) as [E|Hne].
  - rewrite E, list_lookup_insert_eq by lia. cbn [from_option Datatypes.id]. rewrite Z.ldiff_spec, testbit_BITMASK. f_equal. f_equal.
    destruct (Z.eqb_spec y x) as [->|Hne]; [apply Z.eqb_refl|]. apply Z.eqb_neq. intros E2. apply Hne. by apply mask_pos_inj.
  - rewrite list_lookup_insert_ne by lia. rewrite (proj2 (Z.eqb_neq y x)) by congruence. by rewrite andb_true_r.
Qed.

Lemma full_mask_ok : mask_ok full_mask.
Proof. done. Qed.

Lemma full_mask_bit x : 0 <= x < 256 -> mask_bit full_mask x = true.
Proof.
  intros Hx. unfold mask_bit, full_mask. pose proof (MASKIDX_range x Hx). pose proof (bit_range x).
  rewrite nth_lookup, lookup_replicate_2 by (unfold MasksPerDetailMask; lia). cbn [from_option Datatypes.id].
  change (2 ^ 64 - 1) with (Z.ones 64). apply Z.ones_spec_low. lia.
Qed.

(** ** What details and grabs stand for *)

Definition value (exc x : Z) : Prop := 0 <= x < 256 ∧ x <> exc.

Definition detail_ok (exc : Z) (d : DetailRec) : Prop :=
  (exact d = exc ∨ value exc (exact d)) ∧ ∀ m, pMask d = Some m -> exact d = exc ∧ mask_ok m.

Definition detail_in (exc : Z) (d : DetailRec) (x : Z) : bool :=
  if exact d =? exc then match pMask d with None => true | Some m => mask_bit m x end else x =? exact d.

(** [DetailSupersedesSecond], without the reads of masks that may fail. *)
Definition psup (exc : Z) (d1 d2 : DetailRec) : bool :=
  if exact d1 =? exc then
    match pMask d1 with None => true | Some m => negb (exact d2 =? exc) && mask_bit m (exact d2) end
  else negb (exact d2 =? exc) && (exact d1 =? exact d2).

Lemma DetailSupersedesSecond_ok exc d1 d2 :
  detail_ok exc d1 -> detail_ok exc d2 -> DetailSupersedesSecond d1 d2 exc = Ok (psup exc d1 d2).
Proof.
  intros [H1 M1] [H2 M2]. unfold DetailSupersedesSecond, IsInGrabMask, IdenticalExactDetails, psup, orb_r.
  destruct (Z.eqb_spec (exact d1) exc) as [E1|E1]; cbn [orb].
  - destruct (pMask d1) as [m|] eqn:Em; [|done]. destruct (Z.eqb_spec (exact d2) exc) as [E2|E2]; [done|].
    destruct (M1 m eq_refl) as [_ Hm]. destruct H2 as [?|[Hv _]]; [done|]. rewrite GETBIT_ok by done. cbn [mbind result_bind negb andb].
    by destruct (mask_bit m (exact d2)).
  - cbn [mbind result_bind]. by destruct (exact d2 =? exc).
Qed.

(** Details of which one is not masked are comparable when they have a value in common, and
    only then when both have values. *)
Lemma psup_sound exc d1 d2 x :
  detail_ok exc d2 -> psup exc d1 d2 = true -> (pMask d1 = None ∨ pMask d2 = None) -> value exc x ->
  detail_in exc d2 x = true -> detail_in exc d1 x = true.
Proof.
  intros [H2 M2] Hs Hu Hx Hi. unfold psup, detail_in in *. destruct (Z.eqb_spec (exact d1) exc) as [E1|E1].
  - destruct (pMask d1) as [m|]; [|done]. destruct (Z.eqb_spec (exact d2) exc); [done|]. simpl in Hs. apply Z.eqb_eq in Hi. by subst.
  - destruct (Z.eqb_spec (exact d2) exc); [done|]. simpl in Hs. apply Z.eqb_eq in Hs, Hi. subst. rewrite Hs. apply Z.eqb_refl.
Qed.

Lemma overlap_comparable exc d1 d2 x :
  detail_ok exc d1 -> detail_ok exc d2 -> pMask d2 = None -> detail_in exc d1 x = true -> detail_in exc d2 x = true ->
  psup exc d1 d2 || psup exc d2 d1 = true.
Proof.
  intros [H1 M1] [H2 M2] Hu I1 I2. unfold psup, detail_in in *. rewrite Hu in *.
  destruct (Z.eqb_spec (exact d2) exc) as [E2|E2]; [by rewrite orb_true_r|]. apply Z.eqb_eq in I2. subst x.
  destruct (Z.eqb_spec (exact d1) exc) as [E1|E1].
  - destruct (pMask d1); [|done]. by rewrite I1.
  - simpl. by rewrite Z.eqb_sym, I1.
Qed.

Lemma comparable_overlap exc d1 d2 :
  detail_ok exc d1 -> detail_ok exc d2 -> pMask d2 = None -> psup exc d1 d2 || psup exc d2 d1 = true ->
  (∃ x, value exc x ∧ detail_in exc d1 x = true) -> ∃ x, value exc x ∧ detail_in exc d1 x = true ∧ detail_in exc d2 x = true.
Proof.
  intros [H1 M1] [H2 M2] Hu Hs (x & Hx & I1). unfold psup, detail_in in *. rewrite Hu in *.
  destruct (Z.eqb_spec (exact d2) exc) as [E2|E2]; [by exists x|]. destruct H2 as [?|H2]; [done|].
  exists (exact d2). split; [done|]. rewrite Z.eqb_refl. split; [|done].
  destruct (Z.eqb_spec (exact d1) exc) as [E1|E1].
  - destruct (pMask d1); [|done]. simpl in Hs. by rewrite orb_false_r in Hs.
  - simpl in Hs. apply orb_prop in Hs as [Hs|Hs]; [by rewrite Z.eqb_sym|done].
Qed.

Record combo := mkCombo { q_client : Z; q_device : pointer; q_modDevice : pointer; q_type : Z; q_mods : Z; q_key : Z }.

Definition valid (q : combo) : Prop := value AnyModifier (q_mods q) ∧ value AnyKey (q_key q).

(** The combinations of a grab. *)
Definition stands (g : GrabRec) (q : combo) : bool :=
  (CLIENT_BITS (resource g) =? q_client q) && (device g =? q_device q) && (modifierDevice g =? q_modDevice q) &&
  (gtype g =? q_type q) && detail_in AnyModifier (modifiersDetail g) (q_mods q) && detail_in AnyKey (detail g) (q_key q).

Record grab_ok (g : GrabRec) : Prop := {
  gk_mods : detail_ok AnyModifier (modifiersDetail g);
  gk_detail : detail_ok AnyKey (detail g);
  gk_type : 0 <= gtype g < 256
}.

Definition unmasked (g : GrabRec) : Prop := pMask (modifiersDetail g) = None ∧ pMask (detail g) = None.

Lemma GrabSupersedesSecond_ok g h :
  grab_ok g -> grab_ok h ->
  GrabSupersedesSecond g h =
    Ok (psup AnyModifier (modifiersDetail g) (modifiersDetail h) && psup AnyKey (detail g) (detail h)).
Proof.
  intros [] []. unfold GrabSupersedesSecond, andb_r. rewrite !DetailSupersedesSecond_ok by done. cbn [mbind result_bind].
  by destruct (psup _ _ _).
Qed.

(** The four cases of the code are the comparability of both details. *)
Lemma GrabMatchesSecond_ok g h :
  grab_ok g -> grab_ok h ->
  GrabMatchesSecond g h = Ok (same_devices g h &&
    (psup AnyModifier (modifiersDetail g) (modifiersDetail h) || psup AnyModifier (modifiersDetail h) (modifiersDetail g)) &&
    (psup AnyKey (detail g) (detail h) || psup AnyKey (detail h) (detail g))).
Proof.
  intros Hg Hh. unfold GrabMatchesSecond. destruct (same_devices g h); [|done]. cbn [negb andb].
  rewrite !GrabSupersedesSecond_ok by done. destruct Hg, Hh. unfold andb_r, orb_r. rewrite !DetailSupersedesSecond_ok by done.
  destruct (psup AnyModifier (modifiersDetail g) _), (psup AnyModifier (modifiersDetail h) _), (psup AnyKey (detail g) _), (psup AnyKey (detail h) _);
    reflexivity.
Qed.

Lemma same_devices_true g h :
  same_devices g h = true <-> device g = device h ∧ modifierDevice g = modifierDevice h ∧ gtype g = gtype h.
Proof. unfold same_devices. rewrite negb_true_iff, !orb_false_iff, !negb_false_iff, !Z.eqb_eq. tauto. Qed.

Lemma stands_true g q :
  stands g q = true <-> CLIENT_BITS (resource g) = q_client q ∧ device g = q_device q ∧ modifierDevice g = q_modDevice q ∧
    gtype g = q_type q ∧ detail_in AnyModifier (modifiersDetail g) (q_mods q) = true ∧ detail_in AnyKey (detail g) (q_key q) = true.
Proof. unfold stands. rewrite !andb_true_iff, !Z.eqb_eq. tauto. Qed.

(** ** What becomes of a grab *)

Inductive outcome :=
  | Keep
  | Drop
  | Mask (key : bool) (m : list Z)
  | Split (m : list Z) (b : nat) (h : GrabRec).

(** The combinations that are left are those of the grab without those of [M]. *)
Definition outcome_ok (M g : GrabRec) (out : outcome) : Prop :=
  match out with
  | Keep => ∀ q, valid q -> stands g q = true -> stands M q = false
  | Drop => ∀ q, valid q -> stands g q = true -> stands M q = true
  | Mask key m => grab_ok (set_mask g key m) ∧
      ∀ q, valid q -> stands (set_mask g key m) q = stands g q && negb (stands M q)
  | Split m b h => grab_ok (set_mask g true m) ∧ grab_ok h ∧ window h = window g ∧
      ∀ q, valid q -> stands (set_mask g true m) q || stands h q = stands g q && negb (stands M q)
  end.

Definition out_deletes (a : nat) (out : outcome) : list nat := match out with Drop => [a] | _ => [] end.
Definition out_updates (a : nat) (out : outcome) : list (nat * bool * list Z) :=
  match out with Mask key m => [(a, key, m)] | Split m _ _ => [(a, true, m)] | _ => [] end.
Definition out_adds (out : outcome) : list (nat * GrabRec) := match out with Split _ b h => [(b, h)] | _ => [] end.

Lemma keep_ok M g :
  grab_ok M -> grab_ok g -> unmasked M ->
  (CLIENT_BITS (resource g) =? CLIENT_BITS (resource M)) = false ∨ GrabMatchesSecond g M = Ok false ->
  outcome_ok M g Keep.
Proof.
  intros HM Hg [U1 U2] H q Hq Hs. destruct (stands M q) eqn:E; [|done]. exfalso.
  apply stands_true in Hs as (S1 & S2 & S3 & S4 & S5 & S6). apply stands_true in E as (T1 & T2 & T3 & T4 & T5 & T6).
  destruct H as [H|H]; [apply Z.eqb_neq in H; congruence|]. rewrite GrabMatchesSecond_ok in H by done.
  destruct HM as [M1 M2 M3], Hg as [G1 G2 G3].
  rewrite (overlap_comparable AnyModifier _ _ (q_mods q) G1 M1 U1 S5 T5), (overlap_comparable AnyKey _ _ (q_key q) G2 M2 U2 S6 T6) in H.
  assert (same_devices g M = true) as Hd by (apply same_devices_true; split_and!; congruence). by rewrite Hd in H.
Qed.

Lemma drop_ok M g :
  grab_ok M -> grab_ok g -> unmasked M -> CLIENT_BITS (resource g) = CLIENT_BITS (resource M) ->
  same_devices g M = true -> GrabSupersedesSecond M g = Ok true -> outcome_ok M g Drop.
Proof.
  intros HM Hg [U1 U2] Hc Hd H q [Hv1 Hv2] Hs. rewrite GrabSupersedesSecond_ok in H by done. injection H as H.
  apply andb_prop in H as [H1 H2]. apply same_devices_true in Hd as (D1 & D2 & D3).
  apply stands_true in Hs as (S1 & S2 & S3 & S4 & S5 & S6). apply stands_true. destruct Hg as [G1 G2 _].
  split_and!; try congruence.
  - by apply (psup_sound _ _ _ _ G1 H1 (or_introl U1)).
  - by apply (psup_sound _ _ _ _ G2 H2 (or_introl U2)).
Qed.

(** The detail with one value less. *)
Definition without (exc : Z) (d : DetailRec) (m : list Z) (x : Z) : Prop :=
  mask_ok m ∧ ∀ y, value exc y -> mask_bit m y = detail_in exc d y && negb (y =? x).

Lemma DeleteDetailFromMask_ok exc d s x :
  detail_ok exc d -> exact d = exc -> value exc x ->
  ∃ r s', DeleteDetailFromMask s (pMask d) x = Ok (r, s') ∧ s' = (g_alloc s).2 ∧ ∀ m, r = Some m -> without exc d m x.
Proof.
  intros [_ Hd] E [Hx _]. unfold DeleteDetailFromMask. destruct (g_alloc s) as [[] s'] eqn:Ea; cbn [negb].
  2: { exists None, s'. done. }
  assert (Hm : mask_ok (default full_mask (pMask d))) by (destruct (pMask d) as [m|]; [by destruct (Hd m eq_refl)|done]).
  destruct (BITCLEAR_ok _ x Hm Hx) as (m & -> & Hm' & Hb). cbn [mbind result_bind]. exists (Some m), s'. split; [done|]. split; [done|].
  intros ? [= <-]. split; [done|]. intros y [Hy _]. rewrite Hb by done. f_equal. unfold detail_in. rewrite E, Z.eqb_refl.
  destruct (pMask d); [done|]. by apply full_mask_bit.
Qed.

Lemma masked_in exc d m x y :
  exact d = exc -> without exc d m x -> value exc y ->
  detail_in exc (mkDetail (exact d) (Some m)) y = detail_in exc d y && negb (y =? x).
Proof. intros E [_ H] Hy. unfold detail_in at 1. cbn [exact pMask]. rewrite E, Z.eqb_refl. by apply H. Qed.

Lemma masked_ok exc d m x : exact d = exc -> without exc d m x -> detail_ok exc (mkDetail (exact d) (Some m)).
Proof. intros E [H _]. split; [by left|]. intros ? [= <-]. done. Qed.

(** [M] covers one value of a detail. *)
Lemma exact_in exc d x : exact d <> exc -> detail_in exc d x = (x =? exact d).
Proof. intros H. unfold detail_in. by rewrite (proj2 (Z.eqb_neq _ _) H). Qed.

Lemma any_in exc d x : exact d = exc -> pMask d = None -> detail_in exc d x = true.
Proof. intros H U. unfold detail_in. by rewrite H, Z.eqb_refl, U. Qed.

Definition header (g : GrabRec) (q : combo) : bool :=
  (CLIENT_BITS (resource g) =? q_client q) && (device g =? q_device q) && (modifierDevice g =? q_modDevice q) &&
  (gtype g =? q_type q).

Definition hits (M g : GrabRec) : Prop := CLIENT_BITS (resource g) = CLIENT_BITS (resource M) ∧ same_devices g M = true.

Lemma stands_header g q :
  stands g q = header g q && (detail_in AnyModifier (modifiersDetail g) (q_mods q) && detail_in AnyKey (detail g) (q_key q)).
Proof. unfold stands, header. by rewrite andb_assoc. Qed.

Lemma header_hits M g q : hits M g -> header g q = header M q.
Proof. intros [Hc Hd]. apply same_devices_true in Hd as (D1 & D2 & D3). unfold header. by rewrite Hc, D1, D2, D3. Qed.

Lemma header_set_mask g key m q : header (set_mask g key m) q = header g q.
Proof. by destruct key. Qed.

(** One detail is covered, the other loses one value. *)
Lemma cut_bool (H gm gk Mm e : bool) : (gm = true -> Mm = true) -> H && (gm && (gk && negb e)) = H && (gm && gk) && negb (H && (Mm && e)).
Proof. intros Hi. destruct H, gm, gk, Mm, e; simpl; try done; by discriminate Hi. Qed.

Lemma mask_key_ok M g m :
  hits M g -> grab_ok g -> exact (detail g) = AnyKey -> exact (detail M) <> AnyKey ->
  without AnyKey (detail g) m (exact (detail M)) ->
  (∀ y, value AnyModifier y -> detail_in AnyModifier (modifiersDetail g) y = true -> detail_in AnyModifier (modifiersDetail M) y = true) ->
  outcome_ok M g (Mask true m).
Proof.
  intros Hh [G1 G2 G3] Eg EM Hw Hm. split.
  { split; [done| |done]. by eapply masked_ok. }
  intros q [Hq1 Hq2]. rewrite !stands_header, header_set_mask, (header_hits M g q Hh). cbn [set_mask set_details modifiersDetail detail].
  rewrite (masked_in _ _ _ _ _ Eg Hw Hq2), (exact_in _ (detail M) _ EM). apply cut_bool. auto.
Qed.

Lemma mask_mods_ok M g m :
  hits M g -> grab_ok g -> exact (modifiersDetail g) = AnyModifier -> exact (modifiersDetail M) <> AnyModifier ->
  without AnyModifier (modifiersDetail g) m (exact (modifiersDetail M)) ->
  (∀ y, value AnyKey y -> detail_in AnyKey (detail g) y = true -> detail_in AnyKey (detail M) y = true) ->
  outcome_ok M g (Mask false m).
Proof.
  intros Hh [G1 G2 G3] Eg EM Hw Hm. split.
  { split; [|done|done]. by eapply masked_ok. }
  intros q [Hq1 Hq2]. rewrite !stands_header, header_set_mask, (header_hits M g q Hh). cbn [set_mask set_details modifiersDetail detail].
  rewrite (masked_in _ _ _ _ _ Eg Hw Hq1), (exact_in _ (modifiersDetail M) _ EM).
  rewrite (andb_comm (_ && negb _)), (andb_comm (detail_in AnyModifier _ _) (detail_in AnyKey (detail g) _)), (andb_comm (_ =? _) (detail_in AnyKey (detail M) _)).
  apply cut_bool. auto.
Qed.

(** What [CreateGrab] makes for a split. *)
Definition split_of (M g h : GrabRec) (m : list Z) : Prop :=
  CLIENT_BITS (resource h) = CLIENT_BITS (resource g) ∧ same_devices h g = true ∧ window h = window g ∧
  modifiersDetail h = mkDetail AnyModifier (Some m) ∧ detail h = mkDetail (exact (detail M)) None.

Lemma split_ok M g m b h m2 :
  hits M g -> grab_ok g -> exact (detail g) = AnyKey -> exact (modifiersDetail g) = AnyModifier ->
  value AnyKey (exact (detail M)) -> exact (modifiersDetail M) <> AnyModifier ->
  detail_in AnyKey (detail g) (exact (detail M)) = true ->
  without AnyKey (detail g) m (exact (detail M)) -> without AnyModifier (modifiersDetail g) m2 (exact (modifiersDetail M)) ->
  split_of M g h m2 -> outcome_ok M g (Split m b h).
Proof.
  intros Hh [G1 G2 G3] Eg Em EM EM2 Hk Hw Hw2 (S1 & S2 & S3 & S4 & S5). split; [|split; [|split; [done|]]].
  { split; [done| |done]. by eapply masked_ok. }
  { split; [rewrite S4; split; [by left|]; intros ? [= <-]; split; [done|apply Hw2]|rewrite S5; split; [by right|done]|].
    apply same_devices_true in S2 as (_ & _ & ->). done. }
  assert (Hhg : hits g h) by (by split). assert (Hh' : ∀ q, header h q = header g q) by (intros q; by apply header_hits).
  intros q [Hq1 Hq2]. rewrite !stands_header, header_set_mask, Hh', (header_hits M g q Hh). cbn [set_mask set_details modifiersDetail detail].
  rewrite (masked_in _ _ _ _ _ Eg Hw Hq2), (exact_in _ (detail M) _ (proj2 EM)), (exact_in _ (modifiersDetail M) _ EM2), S4, S5.
  pose proof (masked_in _ _ _ _ _ Em Hw2 Hq1) as Hm2. rewrite Em in Hm2. rewrite Hm2, (exact_in _ (mkDetail (exact (detail M)) None) _ (proj2 EM)). cbn [exact].
  destruct (Z.eqb_spec (q_key q) (exact (detail M))) as [Ek|Ek]; [rewrite Ek, Hk|]; cbn [negb];
    destruct (header M q), (detail_in AnyModifier (modifiersDetail g) (q_mods q)), (q_mods q =? exact (modifiersDetail M)),
      (detail_in AnyKey (detail g) (q_key q)); reflexivity.
Qed.

(** ** The heap *)

(** What the resource database promises of [FakeClientID]. *)
Class FakeIds (fake_id : gmap XID nat -> gmap nat GrabRec -> Z -> result XID) : Prop := {
  fi_fresh : ∀ r gs c id, fake_id r gs c = Ok id -> r !! id = None ∧ CLIENT_ID id = c ∧ ∀ a g, gs !! a = Some g -> resource g <> id;
  fi_fault : ∀ r gs c e, fake_id r gs c = Err e -> e = FatalError
}.

Record g_ok (s : GState) : Prop := {
  go_chain : ∀ w chain a, passive s !! w = Some chain -> a ∈ chain ->
    ∃ g, grabs s !! a = Some g ∧ window g = w ∧ grab_ok g ∧ g_resources s !! resource g = Some a;
  go_nodup : ∀ w chain, passive s !! w = Some chain -> NoDup chain;
  go_heap : ∀ a g, grabs s !! a = Some g -> (a < g_fresh s)%nat
}.

Definition heap_below (s : GState) : Prop := ∀ a g, grabs s !! a = Some g -> (a < g_fresh s)%nat.

(** New grabs on the heap, with their resources, and in no chain yet. *)
Record grown (s s' : GState) (extra : list (nat * GrabRec)) : Prop := {
  gr_passive : passive s' = passive s;
  gr_fresh : (g_fresh s <= g_fresh s')%nat;
  gr_old : ∀ a, a ∉ fst <$> extra -> grabs s' !! a = grabs s !! a;
  gr_new : ∀ b h, (b, h) ∈ extra -> grabs s' !! b = Some h ∧ (g_fresh s <= b < g_fresh s')%nat ∧
    g_resources s' !! resource h = Some b ∧ g_resources s !! resource h = None;
  gr_ids : ∀ b h a g, (b, h) ∈ extra -> grabs s !! a = Some g -> resource g <> resource h;
  gr_nodup : NoDup (fst <$> extra);
  gr_res : ∀ id, (∀ b h, (b, h) ∈ extra -> resource h <> id) -> g_resources s' !! id = g_resources s !! id
}.

Lemma grown_refl s s' :
  passive s' = passive s -> (g_fresh s <= g_fresh s')%nat -> (∀ a, grabs s' !! a = grabs s !! a) ->
  g_resources s' = g_resources s -> grown s s' [].
Proof. intros H1 H2 H3 H4. split; try done; [by intros b h ?%elem_of_nil|by intros b h a g ?%elem_of_nil|constructor|by rewrite H4]. Qed.

Lemma grown_trans s1 s2 s3 e1 e2 : heap_below s1 -> grown s1 s2 e1 -> grown s2 s3 e2 -> grown s1 s3 (e1 ++ e2).
Proof.
  intros Hheap [P1 F1 O1 N1 I1 D1 R1] [P2 F2 O2 N2 I2 D2 R2]. split.
  - congruence.
  - lia.
  - intros a. rewrite fmap_app, not_elem_of_app. intros [Ha1 Ha2]. by rewrite O2, O1.
  - intros b h [Hb|Hb]%elem_of_app.
    + destruct (N1 b h Hb) as (G & L & G2 & G3). assert (Hn : b ∉ fst <$> e2).
      { intros ([b' h'] & -> & Hin)%list_elem_of_fmap. destruct (N2 _ _ Hin) as (_ & ? & _). simpl in *. lia. }
      rewrite O2 by done. split_and!; [done|lia|lia| |done]. rewrite R2; [done|].
      intros b' h' Hin E. destruct (N2 _ _ Hin) as (_ & _ & _ & Hnone). rewrite E in Hnone. congruence.
    + destruct (N2 b h Hb) as (G & L & G2 & G3). split_and!; [done|lia|lia|done|].
      rewrite <- R1; [done|]. intros b' h' Hin E. destruct (N1 _ _ Hin) as (_ & _ & G4 & _). rewrite E in G4. congruence.
  - intros b h a g [Hb|Hb]%elem_of_app Ha; [by eapply I1|]. destruct (decide (a ∈ fst <$> e1)) as [Hin|Hn].
    + exfalso. apply list_elem_of_fmap in Hin as ([b1 h1] & -> & Hin). destruct (N1 _ _ Hin) as (_ & ? & _).
      specialize (Hheap _ _ Ha). simpl in *. lia.
    + apply (I2 b h a g Hb). by rewrite O1.
  - rewrite fmap_app. apply NoDup_app. split_and!; [done| |done].
    intros b ([b1 h1] & -> & Hin1)%list_elem_of_fmap ([b2 h2] & E & Hin2)%list_elem_of_fmap. simpl in *. subst.
    destruct (N1 _ _ Hin1) as (_ & ? & _), (N2 _ _ Hin2) as (_ & ? & _). lia.
  - intros id H. rewrite R2, R1; [done| |]; intros b h Hin; apply (H b h), elem_of_app; auto.
Qed.

Lemma grown_heap s s' extra : heap_below s -> grown s s' extra -> heap_below s'.
Proof.
  intros H [P F O N I D R] a g Ha. destruct (decide (a ∈ fst <$> extra)) as [Hin|Hin].
  - apply list_elem_of_fmap in Hin as ([b h] & -> & Hin). destruct (N b h Hin) as (_ & ? & _). simpl. lia.
  - rewrite O in Ha by done. specialize (H a g Ha). lia.
Qed.

Lemma g_alloc_same s : let s' := (g_alloc s).2 in
  grabs s' = grabs s ∧ passive s' = passive s ∧ g_resources s' = g_resources s ∧ g_fresh s' = g_fresh s ∧ refcnt s' = refcnt s.
Proof. unfold g_alloc. by destruct (alloc (g_mem s)). Qed.

Lemma CLIENT_BITS_of_ID i j : CLIENT_ID i = CLIENT_ID j -> CLIENT_BITS i = CLIENT_BITS j.
Proof.
  unfold CLIENT_ID. intros E. assert (Hs : ∀ k, Z.shiftl (Z.shiftr (CLIENT_BITS k) CLIENTOFFSET) CLIENTOFFSET = CLIENT_BITS k).
  { intros k. apply Z.bits_inj'. intros n Hn. rewrite Z.shiftl_spec by done. destruct (Z.ltb_spec n CLIENTOFFSET).
    - rewrite Z.testbit_neg_r by lia. unfold CLIENT_BITS, RESOURCE_CLIENT_MASK. rewrite Z.land_spec, Z.shiftl_spec_low by lia.
      by rewrite andb_false_r.
    - rewrite Z.shiftr_spec by lia. f_equal. lia. }
  by rewrite <- (Hs i), E, Hs.
Qed.

Section Plan.
Context (fake_id : gmap XID nat -> gmap nat GrabRec -> Z -> result XID) (keyboard mouse : pointer) (needed : pointer -> bool).
Context `{!FakeIds fake_id}.

(** What one step of the loop adds to the plan, without memory nothing. *)
Record planned (s s' : GState) (p p' : Plan) (extra : list (nat * GrabRec)) : Prop := {
  pl_grown : grown s s' extra;
  pl_adds : adds p' = adds p ++ (fst <$> extra);
  pl_failed : ok p = false -> ok p' = false
}.

Lemma planned_refl s p : planned s s p p [].
Proof. split; [by apply grown_refl|by rewrite app_nil_r|done]. Qed.

Lemma planned_trans s1 s2 s3 p1 p2 p3 e1 e2 : heap_below s1 -> planned s1 s2 p1 p2 e1 -> planned s2 s3 p2 p3 e2 -> planned s1 s3 p1 p3 (e1 ++ e2).
Proof. intros Hb [] []. split; [by eapply grown_trans|by rewrite fmap_app, app_assoc; congruence|auto]. Qed.

Lemma free_new s b h :
  heap_below s -> ∀ s1, grabs s1 = <[b := h]> (grabs s) -> b = g_fresh s -> g_fresh s1 = S (g_fresh s) ->
  passive s1 = passive s -> g_resources s1 = g_resources s -> ∃ s', FreeGrab s1 b = Ok s' ∧ grown s s' [].
Proof.
  intros Hb s1 E1 -> E2 E3 E4. unfold FreeGrab, load_grab. rewrite E1, lookup_insert_eq. cbn [of_option mbind result_bind].
  eexists. split; [done|]. apply grown_refl; destruct (gcursor h =? 0); simpl; rewrite ?E1, ?E2; try done; try lia.
  all: intros a; destruct (decide (g_fresh s = a)) as [<-|Hne]; [rewrite lookup_delete_eq|by rewrite lookup_delete_ne, lookup_insert_ne].
  all: destruct (grabs s !! g_fresh s) eqn:E; [|done]; specialize (Hb _ _ E); lia.
Qed.

Lemma CreateGrab_ok s client dev win mask owner kbd ptr modDevice modifiers type keybut confine cursor :
  match CreateGrab fake_id keyboard mouse s client dev win mask owner kbd ptr modDevice modifiers type keybut confine cursor with
  | Err e => e = FatalError
  | Ok (None, s') => s' = (g_alloc s).2
  | Ok (Some (b, h), s') => b = g_fresh s ∧ grabs s' = <[b := h]> (grabs s) ∧ g_fresh s' = S (g_fresh s) ∧
      passive s' = passive s ∧ g_resources s' = g_resources s ∧ g_resources s !! resource h = None ∧
      (∀ a g, grabs s !! a = Some g -> resource g <> resource h) ∧ CLIENT_ID (resource h) = client ∧ device h = dev ∧ modifierDevice h = modDevice ∧ gtype h = Z.land type 255 ∧
      window h = win ∧ modifiersDetail h = mkDetail modifiers None ∧ detail h = mkDetail keybut None
  end.
Proof.
  unfold CreateGrab. pose proof (g_alloc_same s) as (G1 & G2 & G3 & G4 & G5).
  destruct (g_alloc s) as [[] s1]; cbn [negb fst snd] in *; [|done].
  destruct (fake_id (g_resources s1) (grabs s1) client) as [id|e] eqn:Ef; cbn [mbind result_bind]; [|by eapply fi_fault].
  destruct (fi_fresh _ _ _ _ Ef) as (Hf1 & Hf2 & Hf3). rewrite G3 in Hf1. rewrite G1 in Hf3.
  destruct (cursor =? 0); simpl; rewrite ?G1, ?G2, ?G3, ?G4; split_and!; done.
Qed.

Lemma add_resource_ok s a g :
  grabs s !! a = Some g -> (∀ chain, passive s !! window g = Some chain -> a ∉ chain) ->
  ∃ r s', add_grab_resource needed s (resource g) a = Ok (r, s') ∧
    (r = true -> s' = set_g_resources (g_alloc s).2 (<[resource g := a]> (g_resources s))) ∧
    (r = false -> FreeGrab (g_alloc s).2 a = Ok s').
Proof.
  intros Ha Hc. unfold add_grab_resource. pose proof (g_alloc_same s) as (G1 & G2 & G3 & G4 & G5).
  destruct (g_alloc s) as [[] s1]; cbn [negb fst snd] in *.
  - rewrite G3. do 2 eexists. done.
  - assert (DeletePassiveGrab needed s1 a = FreeGrab s1 a) as ->.
    { unfold DeletePassiveGrab, load_grab. rewrite G1, Ha. cbn [of_option mbind result_bind]. unfold wPassiveGrabs. rewrite G2.
      rewrite decide_False; [done|]. destruct (passive s !! window g) eqn:E; [by apply Hc|apply not_elem_of_nil]. }
    unfold FreeGrab, load_grab. rewrite G1, Ha. cbn [of_option mbind result_bind]. do 2 eexists. split; [done|]. done.
Qed.

Lemma plan_add_ok s M g p :
  heap_below s -> (∀ chain b, passive s !! window g = Some chain -> b ∈ chain -> (b < g_fresh s)%nat) ->
  is_Some (passive s !! window g) -> grab_ok g -> exact (modifiersDetail g) = AnyModifier ->
  value AnyKey (exact (detail M)) -> value AnyModifier (exact (modifiersDetail M)) ->
  match plan_add fake_id keyboard mouse needed s M g p with
  | Err e => e = FatalError
  | Ok (p', s') => ∃ extra, planned s s' p p' extra ∧ deletes p' = deletes p ∧ updates p' = updates p ∧
      (ok p' = true -> ok p = true ∧ ∃ b h m, extra = [(b, h)] ∧
        without AnyModifier (modifiersDetail g) m (exact (modifiersDetail M)) ∧ split_of M g h m)
  end.
Proof.
  intros Hb Hcb [chain Hch] [G1 G2 G3] Eg Hk Hm. unfold plan_add.
  assert (Hnone : ∀ s', grown s s' [] -> ∃ extra, planned s s' p (failed p) extra ∧ deletes (failed p) = deletes p ∧
    updates (failed p) = updates p ∧ (ok (failed p) = true -> ok p = true ∧ ∃ b h m, extra = [(b, h)] ∧
        without AnyModifier (modifiersDetail g) m (exact (modifiersDetail M)) ∧ split_of M g h m)).
  { intros s' Hs'. exists []. split; [|done]. split; [done|by rewrite app_nil_r|done]. }
  match goal with |- context [CreateGrab fake_id keyboard mouse s ?a ?b ?c ?d ?e ?f ?g ?h ?i ?j ?k ?l ?m] =>
    pose proof (CreateGrab_ok s a b c d e f g h i j k l m) as Hc; destruct (CreateGrab fake_id keyboard mouse s a b c d e f g h i j k l m)
      as [[[[b' h']|] s1]|err] end; cbn [mbind result_bind]; [| |done].
  2: { subst s1. pose proof (g_alloc_same s) as (A1 & A2 & A3 & A4 & A5). apply Hnone, grown_refl; try congruence; lia. }
  destruct Hc as (-> & C1 & C2 & C3 & C4 & C5 & C5' & C6 & C7 & C8 & C9 & C10 & C11 & C12).
  destruct (DeleteDetailFromMask_ok AnyModifier (modifiersDetail g) s1 (exact (modifiersDetail M)) G1 Eg Hm) as (r & s2 & -> & Es2 & Hr).
  pose proof (g_alloc_same s1) as (A1 & A2 & A3 & A4 & A5). rewrite <- Es2 in *. cbn [mbind result_bind].
  destruct r as [m|].
  2: { destruct (free_new s (g_fresh s) h' Hb s2) as (s3 & -> & H3); try congruence. cbn [mbind result_bind]. by apply Hnone. }
  specialize (Hr m eq_refl). set (h2 := set_details h' _ _). unfold make_optional. cbn [passive set_grabs].
  assert (Hw : window h' = window g) by done. rewrite Hw, A2, C3, Hch. cbn [negb].
  set (s4 := set_grabs s2 (<[g_fresh s := h2]> (grabs s2))).
  assert (Hg4 : grabs s4 = <[g_fresh s := h2]> (grabs s)) by (simpl; by rewrite A1, C1, insert_insert_eq).
  destruct (add_resource_ok s4 (g_fresh s) h2) as (added & s5 & E5 & Ht & Hf).
  { rewrite Hg4. by rewrite lookup_insert_eq. }
  { cbn [s4 passive set_grabs]. change (window h2) with (window h'). rewrite Hw, A2, C3. intros c Hc Hin.
    specialize (Hcb c _ Hc Hin). lia. }
  change (resource h2) with (resource h') in E5. rewrite E5. cbn [mbind result_bind].
  pose proof (g_alloc_same s4) as (B1 & B2 & B3 & B4 & B5). destruct added.
  - specialize (Ht eq_refl). subst s5. exists [(g_fresh s, h2)]. split; [|split; [done|split; [done|]]].
    + split; [|done|done]. split.
      * cbn [set_g_resources passive]. rewrite B2. cbn [s4 set_grabs passive]. congruence.
      * cbn [set_g_resources g_fresh]. rewrite B4. cbn [s4 set_grabs g_fresh]. rewrite A4, C2. lia.
      * intros a Ha. cbn [set_g_resources grabs]. rewrite B1, Hg4. apply lookup_insert_ne. intros <-. apply Ha. by left.
      * intros b h [= -> ->]%list_elem_of_singleton. cbn [set_g_resources grabs g_fresh g_resources].
        rewrite B1, Hg4, lookup_insert_eq, B4. cbn [s4 set_grabs g_fresh]. rewrite A4, C2.
        change (resource h2) with (resource h'). rewrite lookup_insert_eq. split_and!; [done|lia|lia|done|done].
      * intros b h a k [= -> ->]%list_elem_of_singleton. apply C5'.
      * apply NoDup_singleton.
      * intros id Hid. cbn [set_g_resources g_resources]. rewrite lookup_insert_ne.
        { cbn [s4 set_grabs g_resources]. congruence. }
        apply (Hid (g_fresh s) h2). by left.
    + intros Hok. split; [done|]. exists (g_fresh s), h2, m. split; [done|]. split; [done|].
      assert (Hu : Z.land (exact (detail M)) 255 = exact (detail M)).
      { change 255 with (Z.ones 8). rewrite Z.land_ones by done. apply Z.mod_small. apply Hk. }
      unfold split_of. cbn [h2 set_details resource device modifierDevice gtype window modifiersDetail detail].
      rewrite C11, C12, Hu. split_and!; try done; [by apply CLIENT_BITS_of_ID|]. apply same_devices_true. split_and!; [done|done|].
      cbn [h2 set_details gtype]. rewrite C9. change 255 with (Z.ones 8). rewrite Z.land_ones by done. by apply Z.mod_small.
  - specialize (Hf eq_refl). destruct (free_new s (g_fresh s) h2 Hb (g_alloc s4).2) as (s6 & E6 & H6).
    { by rewrite B1, Hg4. } { done. } { rewrite B4. cbn [s4 set_grabs g_fresh]. congruence. }
    { rewrite B2. cbn [s4 set_grabs passive]. congruence. } { rewrite B3. cbn [s4 set_grabs g_resources]. congruence. }
    rewrite Hf in E6. injection E6 as <-. by apply Hnone.
Qed.

Lemma UPDATE_ok exc d s p a key x :
  detail_ok exc d -> exact d = exc -> value exc x ->
  ∃ p' s', UPDATE s p a key (pMask d) x = Ok (p', s') ∧ planned s s' p p' [] ∧ deletes p' = deletes p ∧
    (ok p' = true -> ok p = true ∧ ∃ m, without exc d m x ∧ updates p' = updates p ++ [(a, key, m)]).
Proof.
  intros Hd E Hx. unfold UPDATE. destruct (DeleteDetailFromMask_ok exc d s x Hd E Hx) as (r & s' & -> & -> & Hr).
  cbn [mbind result_bind]. do 2 eexists. split; [done|]. pose proof (g_alloc_same s) as (A1 & A2 & A3 & A4 & A5).
  assert (grown s (g_alloc s).2 []) by (apply grown_refl; try congruence; lia).
  destruct r as [m|]; (split; [split; [done|by rewrite app_nil_r|done]|split; [done|]]); [|done].
  intros Hok. split; [done|]. exists m. split; [by apply Hr|done].
Qed.

Lemma comparable_single exc d e :
  detail_ok exc d -> exact d <> exc -> pMask e = None -> psup exc d e || psup exc e d = true -> psup exc e d = true.
Proof.
  intros [_ Hd] E U H. unfold psup in *. rewrite (proj2 (Z.eqb_neq _ _) E) in *. cbn [negb andb] in *. rewrite U in *.
  destruct (exact e =? exc); [done|]. apply orb_prop in H as [H|H]; [|done]. simpl in H. by rewrite Z.eqb_sym.
Qed.

Lemma any_comparable exc d e :
  exact d = exc -> exact e <> exc -> psup exc d e || psup exc e d = true -> detail_in exc d (exact e) = true.
Proof.
  intros E E2 H. unfold psup, detail_in in *. rewrite E, Z.eqb_refl, (proj2 (Z.eqb_neq _ _) E2) in *. cbn [negb andb] in H.
  rewrite orb_false_r in H. by destruct (pMask d).
Qed.

Lemma value_of exc d : detail_ok exc d -> exact d <> exc -> value exc (exact d).
Proof. intros [[?|?] _] ?; done. Qed.

(** The plan says what becomes of one grab. *)
Definition decided (s s' : GState) (p p' : Plan) (M g : GrabRec) (a : nat) (extra : list (nat * GrabRec)) : Prop :=
  planned s s' p p' extra ∧
  (ok p' = true -> ok p = true ∧ ∃ out, outcome_ok M g out ∧ deletes p' = deletes p ++ out_deletes a out ∧
    updates p' = updates p ++ out_updates a out ∧ extra = out_adds out).

Lemma any_psup exc d e : pMask e = None -> exact e = exc -> psup exc e d = true.
Proof. intros Hu He. unfold psup. by rewrite He, Z.eqb_refl, Hu. Qed.

(** One detail of the grab loses a value. *)
Lemma plan_key s M a g p :
  grab_ok M -> unmasked M -> grab_ok g -> hits M g -> exact (detail g) = AnyKey -> exact (detail M) <> AnyKey ->
  psup AnyModifier (modifiersDetail M) (modifiersDetail g) = true ->
  ∃ p' s', UPDATE s p a true (pMask (detail g)) (exact (detail M)) = Ok (p', s') ∧ decided s s' p p' M g a [].
Proof.
  intros [M1 M2 _] [U1 _] Hg Hh Ek EM Hs. pose proof Hg as [G1 G2 _].
  destruct (UPDATE_ok AnyKey (detail g) s p a true (exact (detail M)) G2 Ek (value_of _ _ M2 EM)) as (p' & s' & E & Hp & Hd & Hok).
  exists p', s'. split; [done|]. split; [done|]. intros Hp'. destruct (Hok Hp') as (? & m & Hw & Hup). split; [done|].
  exists (Mask true m). rewrite app_nil_r. split; [|done]. apply mask_key_ok; try done.
  intros y Hy. apply (psup_sound _ _ _ _ G1 Hs); auto.
Qed.

Lemma plan_mods s M a g p :
  grab_ok M -> unmasked M -> grab_ok g -> hits M g -> exact (modifiersDetail g) = AnyModifier -> exact (modifiersDetail M) <> AnyModifier ->
  psup AnyKey (detail M) (detail g) = true ->
  ∃ p' s', UPDATE s p a false (pMask (modifiersDetail g)) (exact (modifiersDetail M)) = Ok (p', s') ∧ decided s s' p p' M g a [].
Proof.
  intros [M1 M2 _] [_ U2] Hg Hh Em EM Hs. pose proof Hg as [G1 G2 _].
  destruct (UPDATE_ok AnyModifier (modifiersDetail g) s p a false (exact (modifiersDetail M)) G1 Em (value_of _ _ M1 EM)) as (p' & s' & E & Hp & Hd & Hok).
  exists p', s'. split; [done|]. split; [done|]. intros Hp'. destruct (Hok Hp') as (? & m & Hw & Hup). split; [done|].
  exists (Mask false m). rewrite app_nil_r. split; [|done]. apply mask_mods_ok; try done.
  intros y Hy. apply (psup_sound _ _ _ _ G2 Hs); auto.
Qed.

(** The grab loses a key and another one is made for the rest of its combinations. *)
Lemma plan_split s M a g p :
  heap_below s -> (∀ chain b, passive s !! window g = Some chain -> b ∈ chain -> (b < g_fresh s)%nat) ->
  is_Some (passive s !! window g) -> grab_ok M -> unmasked M -> grab_ok g -> hits M g ->
  exact (detail g) = AnyKey -> exact (modifiersDetail g) = AnyModifier -> exact (detail M) <> AnyKey -> exact (modifiersDetail M) <> AnyModifier ->
  psup AnyKey (detail g) (detail M) || psup AnyKey (detail M) (detail g) = true ->
  ∃ p1 s1, UPDATE s p a true (pMask (detail g)) (exact (detail M)) = Ok (p1, s1) ∧
  match plan_add fake_id keyboard mouse needed s1 M g p1 with
  | Err e => e = FatalError
  | Ok (p', s') => ∃ extra, decided s s' p p' M g a extra
  end.
Proof.
  intros Hb Hcb Hch HM [U1 U2] Hg Hh Ek Em EMk EMm Cd. pose proof HM as [M1 M2 _]. pose proof Hg as [G1 G2 _].
  destruct (UPDATE_ok AnyKey (detail g) s p a true (exact (detail M)) G2 Ek (value_of _ _ M2 EMk)) as (p1 & s1 & E & [Hg1 Ha1 Hf1] & Hd1 & Hok1).
  exists p1, s1. split; [done|]. assert (Hb1 : heap_below s1) by (by eapply grown_heap).
  pose proof (plan_add_ok s1 M g p1 Hb1) as Hadd. rewrite (gr_passive _ _ _ Hg1) in Hadd.
  specialize (Hadd (λ c b H1 H2, Nat.lt_le_trans _ _ _ (Hcb c b H1 H2) (gr_fresh _ _ _ Hg1)) Hch Hg Em (value_of _ _ M2 EMk) (value_of _ _ M1 EMm)).
  destruct (plan_add fake_id keyboard mouse needed s1 M g p1) as [[p2 s2]|e]; [|done].
  destruct Hadd as (extra & Hpl & Hd2 & Hu2 & Hok2). exists extra. split.
  { apply (planned_trans s s1 s2 p p1 p2 [] extra Hb); [by split|done]. }
  intros Hp2. destruct (Hok2 Hp2) as (Hp1 & b & h & m2 & -> & Hw2 & Hsp). destruct (Hok1 Hp1) as (Hp & m & Hw & Hu1).
  split; [done|]. exists (Split m b h). rewrite Hd2, Hd1, Hu2, Hu1. cbn [out_deletes]. rewrite app_nil_r. split; [|done].
  eapply (split_ok M g m b h m2); try done; [by apply value_of|]. by apply any_comparable.
Qed.

Lemma plan_grab_ok s M a g p :
  heap_below s -> (∀ chain b, passive s !! window g = Some chain -> b ∈ chain -> (b < g_fresh s)%nat) ->
  is_Some (passive s !! window g) -> grab_ok M -> unmasked M -> grab_ok g -> hits M g -> GrabMatchesSecond g M = Ok true ->
  match plan_grab fake_id keyboard mouse needed s M a g p with
  | Err e => e = FatalError
  | Ok (p', s') => ∃ extra, decided s s' p p' M g a extra
  end.
Proof.
  intros Hb Hcb Hch HM HU Hg Hh Hmt. pose proof HM as [M1 M2 M3]. pose proof Hg as [G1 G2 G3]. pose proof HU as [U1 U2].
  pose proof Hh as [Hcl Hsd]. rewrite GrabMatchesSecond_ok, Hsd in Hmt by done. injection Hmt as Hmt. cbn [andb] in Hmt.
  apply andb_prop in Hmt as [Cm Cd]. unfold plan_grab.
  destruct (psup AnyModifier (modifiersDetail M) (modifiersDetail g) && psup AnyKey (detail M) (detail g)) eqn:Esup.
  { pose proof (drop_ok M g HM Hg HU Hcl Hsd) as Hdrop. rewrite GrabSupersedesSecond_ok, Esup in * by done. cbn [mbind result_bind].
    exists []. split; [split; [by apply grown_refl|by rewrite app_nil_r|done]|]. intros Hok. split; [done|]. exists Drop.
    split; [by apply Hdrop|]. by rewrite app_nil_r. }
  rewrite GrabSupersedesSecond_ok, Esup by done. cbn [mbind result_bind].
  assert (Hsm : exact (modifiersDetail g) <> AnyModifier -> psup AnyModifier (modifiersDetail M) (modifiersDetail g) = true)
    by (intros; by apply comparable_single).
  assert (Hsk : exact (detail g) <> AnyKey -> psup AnyKey (detail M) (detail g) = true) by (intros; by apply comparable_single).
  assert (Hone : ∀ r : result (Plan * GState), (∃ p' s', r = Ok (p', s') ∧ decided s s' p p' M g a []) ->
    match r with Err e => e = FatalError | Ok (p', s') => ∃ extra, decided s s' p p' M g a extra end).
  { intros r (p' & s' & -> & H). by exists []. }
  destruct (Z.eqb_spec (exact (detail g)) AnyKey) as [Ek|Ek]; destruct (Z.eqb_spec (exact (modifiersDetail g)) AnyModifier) as [Em|Em];
    cbn [andb negb].
  - destruct (Z.eqb_spec (exact (detail M)) AnyKey) as [EMk|EMk]; destruct (Z.eqb_spec (exact (modifiersDetail M)) AnyModifier) as [EMm|EMm];
      cbn [andb negb].
    + by rewrite (any_psup _ _ _ U1 EMm), (any_psup _ _ _ U2 EMk) in Esup.
    + apply Hone, plan_mods; try done. by apply any_psup.
    + apply Hone, plan_key; try done. by apply any_psup.
    + destruct (plan_split s M a g p) as (p1 & s1 & -> & H); done.
  - apply Hone, plan_key; auto. intros E. by rewrite (any_psup _ _ _ U2 E), (Hsm Em) in Esup.
  - apply Hone, plan_mods; auto. intros E. by rewrite (any_psup _ _ _ U1 E), (Hsk Ek) in Esup.
  - by rewrite (Hsm Em), (Hsk Ek) in Esup.
Qed.

(** *** The whole chain *)

(** A grab of the chain, and what becomes of it. *)
Definition entry : Type := nat * GrabRec * outcome.

Definition e_addr (e : entry) : nat := e.1.1.
Definition e_deletes (e : entry) : list nat := out_deletes e.1.1 e.2.
Definition e_updates (e : entry) : list (nat * bool * list Z) := out_updates e.1.1 e.2.
Definition e_adds (e : entry) : list (nat * GrabRec) := out_adds e.2.

Definition entry_ok (M : GrabRec) (s : GState) (e : entry) : Prop :=
  grabs s !! e.1.1 = Some e.1.2 ∧ outcome_ok M e.1.2 e.2.

(** The grabs of a chain of the window [w]. *)
Definition chain_ok (s : GState) (w : pointer) (chain : list nat) : Prop :=
  ∀ a, a ∈ chain -> ∃ g, grabs s !! a = Some g ∧ window g = w ∧ grab_ok g.

Definition below (s : GState) (w : pointer) : Prop :=
  ∀ chain b, passive s !! w = Some chain -> b ∈ chain -> (b < g_fresh s)%nat.

Lemma grown_lookup s s' extra a g : heap_below s -> grown s s' extra -> grabs s !! a = Some g -> grabs s' !! a = Some g.
Proof.
  intros Hb [P F O N I D R] Ha. rewrite O; [done|]. intros ([b h] & -> & Hin)%list_elem_of_fmap.
  destruct (N b h Hin) as (_ & ? & _). specialize (Hb _ _ Ha). simpl in *. lia.
Qed.

Lemma grown_below s s' extra w : below s w -> grown s s' extra -> below s' w.
Proof. intros H [P F _ _ _ _ _] chain b Hc Hb. rewrite P in Hc. specialize (H chain b Hc Hb). lia. Qed.

Lemma grown_chain s s' extra w chain : heap_below s -> grown s s' extra -> chain_ok s w chain -> chain_ok s' w chain.
Proof. intros Hb Hg H a Ha. destruct (H a Ha) as (g & Hg' & ?). exists g. split; [by eapply grown_lookup|done]. Qed.

Lemma plan_loop_ok M w chain s p :
  heap_below s -> below s w -> is_Some (passive s !! w) -> chain_ok s w chain -> grab_ok M -> unmasked M ->
  match plan_loop fake_id keyboard mouse needed s M chain p with
  | Err e => e = FatalError
  | Ok (p', s') => ∃ extra, planned s s' p p' extra ∧
      (ok p' = true -> ok p = true ∧ ∃ outs : list entry, e_addr <$> outs = chain ∧ Forall (entry_ok M s) outs ∧
        deletes p' = deletes p ++ (outs ≫= e_deletes) ∧ updates p' = updates p ++ (outs ≫= e_updates) ∧ extra = outs ≫= e_adds)
  end.
Proof.
  revert s p. induction chain as [|a chain IH]; intros s p Hb Hw Hp Hc HM HU; cbn [plan_loop].
  { exists []. split; [apply planned_refl|]. intros Hok. split; [done|]. exists []. by rewrite !app_nil_r. }
  destruct (ok p) eqn:Eok; cbn [negb].
  2: { exists []. split; [apply planned_refl|congruence]. }
  destruct (Hc a) as (g & Hg & Hgw & Hgo); [by left|]. unfold load_grab. rewrite Hg. cbn [of_option mbind result_bind].
  assert (Hc' : chain_ok s w chain) by (intros b Hb'; apply Hc; by right).
  assert (Hskip : outcome_ok M g Keep ->
    match plan_loop fake_id keyboard mouse needed s M chain p with
    | Err e => e = FatalError
    | Ok (p', s') => ∃ extra, planned s s' p p' extra ∧
      (ok p' = true -> true = true ∧ ∃ outs : list entry, e_addr <$> outs = a :: chain ∧ Forall (entry_ok M s) outs ∧
        deletes p' = deletes p ++ (outs ≫= e_deletes) ∧ updates p' = updates p ++ (outs ≫= e_updates) ∧ extra = outs ≫= e_adds)
    end).
  { intros Hkeep. specialize (IH s p Hb Hw Hp Hc' HM HU). destruct (plan_loop _ _ _ _ s M chain p) as [[p' s']|e]; [|done].
    destruct IH as (extra & Hpl & Hok). exists extra. split; [done|]. intros Hp'. destruct (Hok Hp') as (_ & outs & E1 & E2 & E3 & E4 & E5).
    split; [done|]. exists ((a, g, Keep) :: outs). rewrite fmap_cons, E1, !bind_cons. split_and!; try done. by constructor. }
  destruct (Z.eqb_spec (CLIENT_BITS (resource g)) (CLIENT_BITS (resource M))) as [Ecl|Ecl]; cbn [negb mbind result_bind].
  2: { apply Hskip, keep_ok; try done. left. by apply Z.eqb_neq. }
  rewrite GrabMatchesSecond_ok by done. cbn [mbind result_bind].
  pose proof (GrabMatchesSecond_ok g M Hgo HM) as Hmt. destruct (same_devices g M && _ && _) eqn:Em; cbn [negb].
  2: { apply Hskip, keep_ok; try done. by right. }
  pose proof Em as Ed. apply andb_prop in Ed as [Ed _]. apply andb_prop in Ed as [Ed _].
  pose proof (plan_grab_ok s M a g p Hb) as Hpg. rewrite Hgw in Hpg. specialize (Hpg Hw Hp HM HU Hgo (conj Ecl Ed) Hmt).
  destruct (plan_grab fake_id keyboard mouse needed s M a g p) as [[p1 s1]|e]; cbn [mbind result_bind]; [|done].
  destruct Hpg as (e1 & Hpl1 & Hok1). pose proof (pl_grown _ _ _ _ _ Hpl1) as Hgr.
  specialize (IH s1 p1 (grown_heap _ _ _ Hb Hgr) (grown_below _ _ _ _ Hw Hgr)). rewrite (gr_passive _ _ _ Hgr) in IH.
  specialize (IH Hp (grown_chain _ _ _ _ _ Hb Hgr Hc') HM HU).
  destruct (plan_loop _ _ _ _ s1 M chain p1) as [[p2 s2]|e]; [|done]. destruct IH as (e2 & Hpl2 & Hok2).
  exists (e1 ++ e2). split; [by eapply planned_trans|]. intros Hp2. destruct (Hok2 Hp2) as (Hp1 & outs & E1 & E2 & E3 & E4 & E5).
  destruct (Hok1 Hp1) as (_ & out & O1 & O2 & O3 & O4). split; [done|]. exists ((a, g, out) :: outs).
  rewrite fmap_cons, E1, !bind_cons, E3, E4, O2, O3, O4, E5, !app_assoc. split_and!; try done. constructor; [done|].
  rewrite Forall_forall in E2 |- *. intros [[b h] o] Hin. destruct (E2 _ Hin) as [Hl Ho]. split; [|done]. simpl in *.
  rewrite (gr_old _ _ _ Hgr) in Hl; [done|]. intros ([b' h'] & -> & Hin')%list_elem_of_fmap.
  destruct (gr_new _ _ _ Hgr _ _ Hin') as (_ & Hlt & _).
  assert (Hbc : b' ∈ chain) by (rewrite <- E1; apply list_elem_of_fmap; by eexists (b', h, o)).
  destruct (Hc' b' Hbc) as (g2 & Hg2 & _). specialize (Hb _ _ Hg2). simpl in *. lia.
Qed.

End Plan.
