(* ===== verification/GrabsCommit.v ===== *)
(** * GrabsCommit: deleting and adding passive grabs (dix/grabs.c)

    Carrying out or taking back the plan of GrabsProofs, and the theorems on the chains of
    grabs of windows. *)

From S2P Require Import Prelude Atom ResourceDB Grabs GrabsProofs.

#[local] Set Warnings "-clear-no-such-hyp".

Section Commit.
Context (fake_id : gmap XID nat -> gmap nat GrabRec -> Z -> result XID) (keyboard mouse : pointer) (needed : pointer -> bool).
Context `{!FakeIds fake_id}.

(** ** Carrying out the plan *)

Lemma unlink_filter a chain : NoDup chain -> unlink_grab a chain = filter (λ b, b ≠ a) chain.
Proof.
  induction 1 as [|b chain Hb _ IH]; [done|]. cbn [unlink_grab]. rewrite filter_cons. destruct (decide (a = b)) as [->|Hne].
  - rewrite decide_False by (by intros ?). symmetry. apply list_filter_all. intros x Hx ->. done.
  - rewrite decide_True by done. by rewrite IH.
Qed.

Lemma DeletePassiveGrab_off s a g :
  grabs s !! a = Some g -> a ∉ wPassiveGrabs s (window g) -> DeletePassiveGrab needed s a = FreeGrab s a.
Proof. intros Ha Hn. unfold DeletePassiveGrab, load_grab. rewrite Ha. cbn [of_option mbind result_bind]. by rewrite decide_False. Qed.

(** Everything that was added can be taken back. *)
Lemma undo_adds s s' extra :
  heap_below s -> (∀ w, below s w) -> grown s s' extra ->
  ∃ s3, free_grabs needed s' (fst <$> extra) = Ok s3 ∧ grown s s3 [].
Proof.
  intros Hb Hw. revert s'. induction extra as [|[b h] extra IH]; intros s' Hg; cbn [fmap list_fmap fst free_grabs]; [by exists s'|].
  destruct (gr_new _ _ _ Hg b h) as (Gb & Lb & Rb & Nb); [by left|]. unfold load_grab at 1. rewrite Gb. cbn [of_option mbind result_bind].
  unfold free_grab_resource. rewrite Rb. set (s1 := set_g_resources s' _).
  assert (Hoff : b ∉ wPassiveGrabs s1 (window h)).
  { unfold wPassiveGrabs, s1. cbn [passive set_g_resources]. rewrite (gr_passive _ _ _ Hg).
    destruct (passive s !! window h) as [c|] eqn:Ec; [|apply not_elem_of_nil]. intros Hin. specialize (Hw _ _ _ Ec Hin). lia. }
  rewrite (DeletePassiveGrab_off s1 b h Gb Hoff). unfold FreeGrab, load_grab. cbn [s1 grabs set_g_resources]. rewrite Gb.
  cbn [of_option mbind result_bind]. set (s2 := if gcursor h =? 0 then _ else _).
  assert (E2 : grabs s2 = grabs s' ∧ passive s2 = passive s' ∧ g_fresh s2 = g_fresh s' ∧ g_resources s2 = delete (resource h) (g_resources s'))
    by (unfold s2, s1; destruct (gcursor h =? 0); done).
  destruct E2 as (E2 & E3 & E4 & E5). apply IH. destruct Hg as [P F O N I D R]. inversion D as [|? ? D1 D2]; subst.
  split; cbn [set_grabs passive g_fresh grabs g_resources]; rewrite ?E2, ?E3, ?E4, ?E5; try done.
  - intros a Ha. destruct (decide (b = a)) as [<-|Hne].
    + rewrite lookup_delete_eq. destruct (grabs s !! b) eqn:E; [|done]. specialize (Hb _ _ E). lia.
    + rewrite lookup_delete_ne by done. apply O. cbn [fmap list_fmap fst]. rewrite not_elem_of_cons. by split.
  - intros c k Hin. destruct (N c k) as (N1 & N2 & N3 & N4); [by right|].
    assert (Hne : b <> c). { intros ->. apply D1. apply list_elem_of_fmap. by exists (c, k). }
    split_and!; [by rewrite lookup_delete_ne|lia|lia| |done]. rewrite lookup_delete_ne; [done|]. intros E. rewrite E in Rb. congruence.
  - intros c k a k' Hin. apply (I c k a k'). by right.
  - intros id Hid. destruct (decide (resource h = id)) as [<-|Hne]; [by rewrite lookup_delete_eq|].
    rewrite lookup_delete_ne by done. apply R. intros c k [[= -> ->]|Hin]%elem_of_cons; [done|by eapply Hid].
Qed.

(** The grabs [D] of the chain leave it and the heap. *)
Record dropped (s s' : GState) (w : pointer) (D : list nat) : Prop := {
  dp_chain : wPassiveGrabs s' w = filter (λ a, a ∉ D) (wPassiveGrabs s w);
  dp_some : wPassiveGrabs s' w <> [] -> passive s' !! w = Some (wPassiveGrabs s' w);
  dp_other : ∀ v, v <> w -> passive s' !! v = passive s !! v;
  dp_grabs : ∀ a, a ∉ D -> grabs s' !! a = grabs s !! a;
  dp_gone : ∀ a g, grabs s' !! a = Some g -> grabs s !! a = Some g;
  dp_fresh : g_fresh s' = g_fresh s;
  dp_res : ∀ id x, g_resources s !! id = Some x -> x ∉ D -> g_resources s' !! id = Some x;
  dp_none : ∀ id, g_resources s !! id = None -> g_resources s' !! id = None
}.

Lemma drop_grabs D w s :
  NoDup D -> NoDup (wPassiveGrabs s w) ->
  (∀ a, a ∈ D -> a ∈ wPassiveGrabs s w ∧ ∃ g, grabs s !! a = Some g ∧ window g = w ∧ g_resources s !! resource g = Some a) ->
  ∃ s', free_grabs needed s D = Ok s' ∧ dropped s s' w D.
Proof.
  revert s. induction D as [|a D IH]; intros s HD Hc Ha; cbn [free_grabs].
  { exists s. split; [done|]. split; try done; [|unfold wPassiveGrabs; by destruct (passive s !! w)].
    symmetry. apply list_filter_all. intros x _. apply not_elem_of_nil. }
  apply NoDup_cons in HD as [Ha1 HD]. destruct (Ha a) as (Hin & g & Hg & Hgw & Hr); [by left|].
  unfold load_grab at 1. rewrite Hg. cbn [of_option mbind result_bind]. unfold free_grab_resource. rewrite Hr.
  unfold DeletePassiveGrab, load_grab. cbn [grabs set_g_resources]. rewrite Hg. cbn [of_option mbind result_bind]. rewrite Hgw.
  set (s1 := set_g_resources s _). change (wPassiveGrabs s1 w) with (wPassiveGrabs s w). rewrite decide_True by done.
  rewrite unlink_filter by done. set (chain' := filter (λ b, b ≠ a) (wPassiveGrabs s w)).
  set (s2 := if bool_decide (chain' = []) && _ then _ else _).
  assert (E2 : grabs s2 = grabs s ∧ g_fresh s2 = g_fresh s ∧ g_resources s2 = delete (resource g) (g_resources s) ∧
    wPassiveGrabs s2 w = chain' ∧ (chain' <> [] -> passive s2 !! w = Some chain') ∧ ∀ v, v <> w -> passive s2 !! v = passive s !! v).
  { unfold s2, wPassiveGrabs. destruct (bool_decide (chain' = []) && _) eqn:E; cbn [set_passive grabs g_fresh g_resources passive s1 set_g_resources].
    - apply andb_prop in E as [E _]. apply bool_decide_eq_true in E. rewrite E, lookup_delete_eq. split_and!; try done.
      intros v Hv. by rewrite lookup_delete_ne.
    - rewrite lookup_insert_eq. split_and!; try done. intros v Hv. by rewrite lookup_insert_ne. }
  destruct E2 as (E2 & E3 & E4 & E5 & E6 & E7). unfold FreeGrab, load_grab. rewrite E2, Hg. cbn [of_option mbind result_bind].
  set (s3 := set_grabs _ _).
  assert (F : grabs s3 = delete a (grabs s) ∧ g_fresh s3 = g_fresh s ∧ g_resources s3 = delete (resource g) (g_resources s) ∧ passive s3 = passive s2).
  { unfold s3. destruct (gcursor g =? 0); cbn [set_grabs grabs g_fresh g_resources passive add_refs]; by rewrite E2. }
  destruct F as (F1 & F2 & F3 & F4). assert (F5 : wPassiveGrabs s3 w = chain') by (unfold wPassiveGrabs in *; by rewrite F4).
  destruct (IH s3 HD) as (s4 & E & [P1 P2 P3 P4 P5 P6 P7 P8]).
  { rewrite F5. by apply NoDup_filter. }
  { intros b Hb. destruct (Ha b) as (Hbin & h & Hh & Hhw & Hhr); [by right|]. assert (b <> a) by (intros ->; done). split.
    - rewrite F5. apply list_elem_of_filter. by split.
    - exists h. rewrite F1, lookup_delete_ne, F3, lookup_delete_ne by congruence. done. }
  exists s4. split; [done|]. rewrite F5 in P1. split.
  - rewrite P1. unfold chain'. rewrite list_filter_filter. apply list_filter_iff. intros x. rewrite not_elem_of_cons. tauto.
  - done.
  - intros v Hv. rewrite P3, F4 by done. by apply E7.
  - intros x [Hx1 Hx2]%not_elem_of_cons. rewrite P4, F1 by done. by rewrite lookup_delete_ne.
  - intros x k Hx%P5. rewrite F1 in Hx. by apply lookup_delete_Some in Hx as [_ Hx].
  - congruence.
  - intros id x Hid [Hx1 Hx2]%not_elem_of_cons. apply P7; [|done]. rewrite F3, lookup_delete_ne; [done|]. intros E0. rewrite E0 in Hr. congruence.
  - intros id Hid. apply P8. rewrite F3. apply lookup_delete_None. by right.
Qed.

Definition same_but_passive (s s' : GState) : Prop :=
  grabs s' = grabs s ∧ g_fresh s' = g_fresh s ∧ g_resources s' = g_resources s.

Lemma push_grabs_ok w l s :
  (∀ b, b ∈ l -> ∃ h, grabs s !! b = Some h ∧ window h = w) -> (l <> [] -> passive s !! w = Some (wPassiveGrabs s w)) ->
  ∃ s', push_grabs s l = Ok s' ∧ same_but_passive s s' ∧ wPassiveGrabs s' w = reverse l ++ wPassiveGrabs s w ∧
    (∀ v, v <> w -> passive s' !! v = passive s !! v).
Proof.
  revert s. induction l as [|b l IH]; intros s Hl Hp; cbn [push_grabs]; [by exists s|].
  destruct (Hl b) as (h & Hh & Hw); [by left|]. unfold push_grab, load_grab. rewrite Hh. cbn [of_option mbind result_bind].
  rewrite Hw, Hp by done. cbn [of_option mbind result_bind].
  destruct (IH (set_passive s (<[w := b :: wPassiveGrabs s w]> (passive s)))) as (s' & E & (S1 & S2 & S3) & Hc & Ho).
  { intros c Hc. apply Hl. by right. }
  { intros _. unfold wPassiveGrabs. cbn [set_passive passive]. by rewrite lookup_insert_eq. }
  exists s'. split; [done|]. split; [done|]. split.
  - rewrite Hc, reverse_cons, <- app_assoc. f_equal. unfold wPassiveGrabs. cbn [set_passive passive]. by rewrite lookup_insert_eq.
  - intros v Hv. rewrite Ho by done. cbn [set_passive passive]. by rewrite lookup_insert_ne.
Qed.

Definition up_addr (u : nat * bool * list Z) : nat := u.1.1.

Lemma set_masks_ok ups s :
  NoDup (up_addr <$> ups) -> (∀ u, u ∈ ups -> is_Some (grabs s !! up_addr u)) ->
  ∃ s', set_masks s ups = Ok s' ∧ passive s' = passive s ∧ g_fresh s' = g_fresh s ∧ g_resources s' = g_resources s ∧
    (∀ a, a ∉ up_addr <$> ups -> grabs s' !! a = grabs s !! a) ∧
    (∀ a key m g, (a, key, m) ∈ ups -> grabs s !! a = Some g -> grabs s' !! a = Some (set_mask g key m)).
Proof.
  revert s. induction ups as [|[[a key] m] ups IH]; intros s Hn Hs; cbn [set_masks].
  { exists s. split_and!; try done. by intros a key m g ?%elem_of_nil. }
  cbn [fmap list_fmap] in Hn. apply NoDup_cons in Hn as [Ha Hn]. destruct (Hs (a, key, m)) as [g Hg]; [by left|]. cbn [up_addr fst] in *.
  unfold load_grab. rewrite Hg. cbn [of_option mbind result_bind].
  destruct (IH (set_grabs s (<[a := set_mask g key m]> (grabs s))) Hn) as (s' & E & E1 & E2 & E3 & E4 & E5).
  { intros u Hu. cbn [set_grabs grabs]. apply lookup_insert_is_Some'. right. apply Hs. by right. }
  exists s'. split; [done|]. split_and!; try done.
  - intros x Hx. apply not_elem_of_cons in Hx as [Hx1 Hx2]. rewrite E4 by done. cbn [set_grabs grabs]. by rewrite lookup_insert_ne.
  - intros x key' m' g' [[= -> -> ->]|Hin]%elem_of_cons Hg'.
    + rewrite E4 by done. cbn [set_grabs grabs]. rewrite lookup_insert_eq. congruence.
    + apply (E5 x key' m' g' Hin). cbn [set_grabs grabs]. rewrite lookup_insert_ne; [done|]. intros ->. apply Ha.
      apply list_elem_of_fmap. by exists (x, key', m').
Qed.

(** *** Entries and the arrays of the plan *)

Lemma in_deletes (outs : list entry) a : a ∈ outs ≫= e_deletes <-> ∃ g, (a, g, Drop) ∈ outs.
Proof.
  rewrite list_elem_of_bind. split.
  - intros ([[b g] out] & Ha & Hin). unfold e_deletes in Ha. cbn in Ha. destruct out; try (by apply elem_of_nil in Ha).
    apply list_elem_of_singleton in Ha as ->. by exists g.
  - intros (g & Hin). exists (a, g, Drop). split; [by left|done].
Qed.

Lemma in_updates (outs : list entry) a key m :
  (a, key, m) ∈ outs ≫= e_updates <-> ∃ g, (a, g, Mask key m) ∈ outs ∨ ∃ b h, key = true ∧ (a, g, Split m b h) ∈ outs.
Proof.
  rewrite list_elem_of_bind. split.
  - intros ([[b g] out] & Ha & Hin). unfold e_updates in Ha. cbn in Ha. destruct out as [| |k m'|m' b' h]; try (by apply elem_of_nil in Ha);
      apply list_elem_of_singleton in Ha as [= -> -> ->]; exists g; [by left|right; by exists b', h].
  - intros (g & [Hin|(b & h & -> & Hin)]); eexists; (split; [|exact Hin]); by left.
Qed.

Lemma in_adds (outs : list entry) b h : (b, h) ∈ outs ≫= e_adds <-> ∃ a g m, (a, g, Split m b h) ∈ outs.
Proof.
  rewrite list_elem_of_bind. split.
  - intros ([[a g] out] & Ha & Hin). unfold e_adds in Ha. cbn in Ha. destruct out as [| |k m'|m' b' h']; try (by apply elem_of_nil in Ha).
    apply list_elem_of_singleton in Ha as [= -> ->]. by exists a, g, m'.
  - intros (a & g & m & Hin). eexists; (split; [|exact Hin]); by left.
Qed.

(** An address occurs once, so it has one outcome. *)
Lemma entry_unique (outs : list entry) a g g' out out' :
  NoDup (e_addr <$> outs) -> (a, g, out) ∈ outs -> (a, g', out') ∈ outs -> g = g' ∧ out = out'.
Proof.
  intros Hn H1 H2. apply list_elem_of_lookup in H1 as [i Hi], H2 as [j Hj].
  assert (i = j) as ->.
  { eapply (NoDup_lookup _ i j a Hn); rewrite list_lookup_fmap, fmap_Some; eexists; (split; [eassumption|done]). }
  rewrite Hi in Hj. injection Hj as -> ->. done.
Qed.

Lemma NoDup_updates (outs : list entry) : NoDup (e_addr <$> outs) -> NoDup (up_addr <$> (outs ≫= e_updates)).
Proof.
  induction outs as [|[[a g] out] outs IH]; [constructor|]. rewrite fmap_cons, bind_cons, fmap_app. intros [Ha Hn]%NoDup_cons.
  apply NoDup_app. split_and!; [destruct out; repeat constructor; apply not_elem_of_nil| |by apply IH].
  intros x Hx ([[y k] m] & -> & Hin)%list_elem_of_fmap. assert (y = a) as ->.
  { unfold e_updates in Hx. destruct out; cbn in Hx; try (by apply elem_of_nil in Hx); by apply list_elem_of_singleton in Hx. }
  apply Ha. apply in_updates in Hin as (g' & [Hin|(b & h & _ & Hin)]); apply list_elem_of_fmap; by eexists; (split; [|exact Hin]).
Qed.

Lemma NoDup_deletes (outs : list entry) : NoDup (e_addr <$> outs) -> NoDup (outs ≫= e_deletes).
Proof.
  induction outs as [|[[a g] out] outs IH]; [constructor|]. rewrite fmap_cons, bind_cons. intros [Ha Hn]%NoDup_cons.
  apply NoDup_app. split_and!; [destruct out; repeat constructor; apply not_elem_of_nil| |by apply IH].
  intros x Hx Hin. assert (x = a) as ->.
  { unfold e_deletes in Hx. destruct out; cbn in Hx; try (by apply elem_of_nil in Hx); by apply list_elem_of_singleton in Hx. }
  apply Ha. apply in_deletes in Hin as (g' & Hin). apply list_elem_of_fmap. by eexists; (split; [|exact Hin]).
Qed.

(** ** What the plan does *)

(** The combinations that some grab of the window stands for. *)
Definition covered (s : GState) (w : pointer) (q : combo) : Prop :=
  ∃ a g, a ∈ wPassiveGrabs s w ∧ grabs s !! a = Some g ∧ stands g q = true.

Lemma g_ok_heap s : g_ok s -> heap_below s.
Proof. by intros []. Qed.

Lemma g_ok_below s w : g_ok s -> below s w.
Proof. intros [H1 H2 H3] chain b Hc Hb. destruct (H1 w chain b Hc Hb) as (g & Hg & _). by eapply H3. Qed.

Lemma wPassiveGrabs_some s w a : a ∈ wPassiveGrabs s w -> passive s !! w = Some (wPassiveGrabs s w).
Proof. unfold wPassiveGrabs. destruct (passive s !! w); [done|]. by intros ?%elem_of_nil. Qed.

(** A grab after the plan: the chain it is in and what it has become. *)
Definition became (s : GState) (e : entry) : Prop :=
  match e.2 with
  | Keep => grabs s !! e.1.1 = Some e.1.2
  | Drop => True
  | Mask key m => grabs s !! e.1.1 = Some (set_mask e.1.2 key m)
  | Split m b h => grabs s !! e.1.1 = Some (set_mask e.1.2 true m) ∧ grabs s !! b = Some h ∧ g_resources s !! resource h = Some b
  end.

Record committed (s s' : GState) (w : pointer) (outs : list entry) : Prop := {
  cm_chain : wPassiveGrabs s' w =
    reverse (fst <$> (outs ≫= e_adds)) ++ filter (λ a, a ∉ outs ≫= e_deletes) (wPassiveGrabs s w);
  cm_became : Forall (became s') outs;
  cm_other : ∀ v, v <> w -> passive s' !! v = passive s !! v;
  cm_grabs : ∀ a g, grabs s !! a = Some g -> a ∉ wPassiveGrabs s w -> grabs s' !! a = Some g;
  cm_res : ∀ id x, g_resources s !! id = Some x -> x ∉ outs ≫= e_deletes -> g_resources s' !! id = Some x;
  cm_heap : heap_below s';
  cm_fresh : ∀ b h, (b, h) ∈ outs ≫= e_adds -> (g_fresh s <= b)%nat;
  cm_none : ∀ a g, grabs s !! a = Some g -> g_resources s !! resource g = None -> g_resources s' !! resource g = None;
  cm_nodup : NoDup (fst <$> (outs ≫= e_adds))
}.

Lemma commit_ok M s s2 w (outs : list entry) :
  g_ok s -> e_addr <$> outs = wPassiveGrabs s w -> Forall (entry_ok M s) outs -> grown s s2 (outs ≫= e_adds) ->
  ∃ s3 s4 s5, free_grabs needed s2 (outs ≫= e_deletes) = Ok s3 ∧ push_grabs s3 (fst <$> (outs ≫= e_adds)) = Ok s4 ∧
    set_masks s4 (outs ≫= e_updates) = Ok s5 ∧ committed s s5 w outs.
Proof.
  intros Hs Ho He Hg. pose proof (g_ok_heap s Hs) as Hheap. pose proof (g_ok_below s w Hs) as Hbel. destruct Hs as [C1 C2 C3].
  rewrite Forall_forall in He.
  assert (Hnd : NoDup (wPassiveGrabs s w)).
  { unfold wPassiveGrabs. destruct (passive s !! w) eqn:E; [by eapply C2|constructor]. }
  assert (Hnd' : NoDup (e_addr <$> outs)) by (by rewrite Ho).
  assert (Hent : ∀ a g out, (a, g, out) ∈ outs -> a ∈ wPassiveGrabs s w ∧ grabs s !! a = Some g ∧ grabs s2 !! a = Some g ∧
    window g = w ∧ g_resources s2 !! resource g = Some a ∧ (a < g_fresh s)%nat ∧ outcome_ok M g out).
  { intros a g out Hin. assert (Ha : a ∈ wPassiveGrabs s w) by (rewrite <- Ho; apply list_elem_of_fmap; by eexists (a, g, out)).
    destruct (He _ Hin) as [Hga Hout]. cbn in Hga, Hout. pose proof (wPassiveGrabs_some _ _ _ Ha) as Hpw.
    destruct (C1 w _ a Hpw Ha) as (g' & Hg' & Hw' & _ & Hr). assert (g' = g) as -> by congruence.
    split_and!; try done; [by eapply grown_lookup| |by eapply C3]. rewrite (gr_res _ _ _ Hg); [done|].
    intros b h Hbh E. destruct (gr_new _ _ _ Hg b h Hbh) as (_ & _ & _ & Hnone). rewrite E in Hnone. congruence. }
  assert (HD : ∀ a, a ∈ outs ≫= e_deletes -> a ∈ wPassiveGrabs s w ∧ (a < g_fresh s)%nat).
  { intros a (g & Hin)%in_deletes. destruct (Hent _ _ _ Hin) as (? & _ & _ & _ & _ & ? & _). done. }
  destruct (drop_grabs (outs ≫= e_deletes) w s2) as (s3 & E3 & Hd).
  { by apply NoDup_deletes. } { unfold wPassiveGrabs. rewrite (gr_passive _ _ _ Hg). exact Hnd. }
  { intros a (g & Hin)%in_deletes. destruct (Hent _ _ _ Hin) as (H1 & _ & H2 & H3 & H4 & _). split; [|by exists g].
    unfold wPassiveGrabs in *. by rewrite (gr_passive _ _ _ Hg). }
  assert (Hch3 : wPassiveGrabs s3 w = filter (λ a, a ∉ outs ≫= e_deletes) (wPassiveGrabs s w)).
  { rewrite (dp_chain _ _ _ _ Hd). unfold wPassiveGrabs. by rewrite (gr_passive _ _ _ Hg). }
  assert (Hkeep : ∀ a g out, (a, g, out) ∈ outs -> out <> Drop -> a ∉ outs ≫= e_deletes).
  { intros a g out Hin Hne (g' & Hin')%in_deletes. by destruct (entry_unique outs a g g' out Drop Hnd' Hin Hin') as [_ ->]. }
  assert (Hnew : ∀ b h, (b, h) ∈ outs ≫= e_adds -> grabs s3 !! b = Some h ∧ g_resources s3 !! resource h = Some b ∧ b ∉ outs ≫= e_deletes).
  { intros b h Hin. destruct (gr_new _ _ _ Hg b h Hin) as (N1 & N2 & N3 & _).
    assert (b ∉ outs ≫= e_deletes) by (intros Hb%HD; lia). split_and!; [by rewrite (dp_grabs _ _ _ _ Hd)|by eapply dp_res|done]. }
  destruct (push_grabs_ok w (fst <$> (outs ≫= e_adds)) s3) as (s4 & E4 & (S1 & S2 & S3) & Hch4 & Hot4).
  { intros b ([b' h] & -> & Hin)%list_elem_of_fmap. exists h. split; [by apply Hnew|].
    apply in_adds in Hin as (a & g & m & Hin). destruct (Hent _ _ _ Hin) as (_ & _ & _ & Hw & _ & _ & (_ & _ & -> & _)). done. }
  { intros Hne. apply (dp_some _ _ _ _ Hd). rewrite Hch3. destruct (outs ≫= e_adds) as [|[b h] l] eqn:El; [done|].
    assert (Hin : (b, h) ∈ outs ≫= e_adds) by (rewrite El; by left). apply in_adds in Hin as (a & g & m & Hin). intros Hf.
    assert (a ∈ @nil nat) as ?%elem_of_nil; [|done]. rewrite <- Hf. apply list_elem_of_filter.
    split; [by eapply Hkeep|by eapply Hent]. }
  assert (Hg4 : ∀ a g out, (a, g, out) ∈ outs -> out <> Drop -> grabs s4 !! a = Some g).
  { intros a g out Hin Hne. rewrite S1, (dp_grabs _ _ _ _ Hd) by (by eapply Hkeep). by eapply Hent. }
  destruct (set_masks_ok (outs ≫= e_updates) s4) as (s5 & E5 & P5 & F5 & R5 & O5 & U5).
  { by apply NoDup_updates. }
  { intros [[a k] m] (g & [Hin|(b & h & _ & Hin)])%in_updates; exists g; by eapply Hg4. }
  exists s3, s4, s5. split_and!; try done.
  assert (Hup : ∀ a, a ∈ up_addr <$> (outs ≫= e_updates) -> ∃ g out, (a, g, out) ∈ outs ∧ out <> Drop ∧ out <> Keep).
  { intros a ([[a' k] m] & -> & (g & [Hin|(b & h & _ & Hin)])%in_updates)%list_elem_of_fmap; exists g; eexists; (split; [exact Hin|done]). }
  assert (Hnup : ∀ b h, (b, h) ∈ outs ≫= e_adds -> b ∉ up_addr <$> (outs ≫= e_updates)).
  { intros b h Hin (g & out & Hin' & _)%Hup. destruct (Hent _ _ _ Hin') as (_ & _ & _ & _ & _ & Hlt & _).
    destruct (gr_new _ _ _ Hg b h Hin) as (_ & ? & _). lia. }
  split.
  - unfold wPassiveGrabs at 1. rewrite P5. change (default [] (passive s4 !! w)) with (wPassiveGrabs s4 w). by rewrite Hch4, Hch3.
  - apply Forall_forall. intros [[a g] out] Hin. unfold became. cbn [fst snd]. destruct out as [| |k m|m b h]; try done.
    + rewrite O5; [by eapply Hg4|]. intros (g' & out & Hin' & _ & Hne)%Hup. by destruct (entry_unique outs a g g' _ _ Hnd' Hin Hin') as [_ <-].
    + eapply U5; [|by eapply Hg4]. apply in_updates. exists g. by left.
    + assert (Hb : (b, h) ∈ outs ≫= e_adds) by (apply in_adds; by exists a, g, m). destruct (Hnew b h Hb) as (N1 & N2 & _).
      split_and!; [|by rewrite O5, S1 by (by eapply Hnup)|by rewrite R5, S3].
      eapply U5; [|by eapply Hg4]. apply in_updates. exists g. right. by exists b, h.
  - intros v Hv. rewrite P5, Hot4, (dp_other _ _ _ _ Hd), (gr_passive _ _ _ Hg); done.
  - intros a g Ha Hw. assert (Hno : ∀ g' out, (a, g', out) ∉ outs).
    { intros g' out Hin. destruct (Hent _ _ _ Hin) as (Ha' & _). done. }
    rewrite O5, S1, (dp_grabs _ _ _ _ Hd); [by eapply grown_lookup| |].
    + intros (g' & Hin)%in_deletes. by eapply Hno.
    + intros (g' & out & Hin & _)%Hup. by eapply Hno.
  - intros id x Hid Hx. rewrite R5, S3. apply (dp_res _ _ _ _ Hd); [|done]. rewrite (gr_res _ _ _ Hg); [done|].
    intros b h Hbh E. destruct (gr_new _ _ _ Hg b h Hbh) as (_ & _ & _ & Hnone). rewrite E in Hnone. congruence.
  - intros a g Ha. rewrite F5, S2, (dp_fresh _ _ _ _ Hd). pose proof (grown_heap _ _ _ Hheap Hg) as Hh2.
    destruct (decide (a ∈ up_addr <$> (outs ≫= e_updates))) as [Hin|Hn].
    + apply Hup in Hin as (g' & out & Hin & _). destruct (Hent _ _ _ Hin) as (_ & _ & Hg2 & _). by eapply Hh2.
    + rewrite O5, S1 in Ha by done. by eapply Hh2, dp_gone.
  - intros b h Hin. destruct (gr_new _ _ _ Hg b h Hin) as (_ & ? & _). lia.
  - intros a g Ha Hn. rewrite R5, S3. apply (dp_none _ _ _ _ Hd). rewrite (gr_res _ _ _ Hg); [done|].
    intros b h Hin E. by apply (gr_ids _ _ _ Hg b h a g Hin Ha).
  - apply (gr_nodup _ _ _ Hg).
Qed.

Lemma committed_covered M s s' (outs : list entry) q :
  NoDup (e_addr <$> outs) -> e_addr <$> outs = wPassiveGrabs s (window M) -> Forall (entry_ok M s) outs -> committed s s' (window M) outs -> valid q ->
  covered s' (window M) q <-> covered s (window M) q ∧ stands M q = false.
Proof.
  intros Hnd Ho He [C1 C2 _ _ _ _ _ _ _] Hq. rewrite Forall_forall in He, C2. split.
  - intros (a & g & Ha & Hg & Hs). rewrite C1 in Ha. apply elem_of_app in Ha as [Ha|Ha].
    + apply elem_of_reverse, list_elem_of_fmap in Ha as ([b h] & -> & Hin). apply in_adds in Hin as (a & g' & m & Hin).
      destruct (He _ Hin) as [Hg' (_ & _ & _ & Hout)], (C2 _ Hin) as (_ & Hh & _). cbn in *. specialize (Hout q Hq).
      assert (g = h) as -> by congruence. rewrite Hs, orb_true_r in Hout. symmetry in Hout. apply andb_prop in Hout as [O1 O2].
      split; [|by apply negb_true_iff]. exists a, g'. split_and!; try done. rewrite <- Ho. apply list_elem_of_fmap. by eexists (a, g', _).
    + apply list_elem_of_filter in Ha as [Hnot Ha]. pose proof Ha as Ha'. rewrite <- Ho in Ha'.
      apply list_elem_of_fmap in Ha' as ([[a' g'] out] & E & Hin). cbn in E. subst a'.
      destruct (He _ Hin) as [Hg' Hout]. pose proof (C2 _ Hin) as Hb. unfold became in Hb. cbn [fst snd] in Hg', Hout, Hb.
      assert (stands g' q = true ∧ stands M q = false) as [S1 S2]; [|split; [by exists a, g'|done]].
      destruct out as [| |k m|m b h].
      * assert (g = g') as -> by congruence. split; [done|]. by apply Hout.
      * exfalso. apply Hnot, in_deletes. by exists g'.
      * destruct Hout as [_ Hout]. assert (g = set_mask g' k m) as -> by congruence. rewrite Hout in Hs by done.
        apply andb_prop in Hs as [? ?%negb_true_iff]. done.
      * destruct Hout as (_ & _ & _ & Hout), Hb as [Hb _]. assert (g = set_mask g' true m) as -> by congruence.
        specialize (Hout q Hq). rewrite Hs in Hout. symmetry in Hout. apply andb_prop in Hout as [? ?%negb_true_iff]. done.
  - intros [(a & g & Ha & Hg & Hs) HM]. pose proof Ha as Ha'. rewrite <- Ho in Ha'.
    apply list_elem_of_fmap in Ha' as ([[a' g'] out] & E & Hin). cbn in E. subst a'.
    destruct (He _ Hin) as [Hg' Hout]. pose proof (C2 _ Hin) as Hb. unfold became in Hb. cbn [fst snd] in Hg', Hout, Hb.
    assert (g' = g) as -> by congruence.
    assert (Hkeep : out <> Drop -> a ∈ wPassiveGrabs s' (window M)).
    { intros Hne. rewrite C1. apply elem_of_app. right. apply list_elem_of_filter. split; [|done]. intros (g' & Hin')%in_deletes.
      by destruct (entry_unique outs a g g' _ _ Hnd Hin Hin') as [_ ->]. }
    destruct out as [| |k m|m b h].
    + exists a, g. by split; [apply Hkeep|].
    + specialize (Hout q Hq Hs). congruence.
    + destruct Hout as [_ Hout]. exists a, (set_mask g k m). split; [by apply Hkeep|]. split; [done|]. by rewrite Hout, Hs, HM.
    + destruct Hout as (_ & _ & _ & Hout), Hb as (Hb1 & Hb2 & _). specialize (Hout q Hq). rewrite Hs, HM in Hout.
      apply orb_prop in Hout as [Hout|Hout].
      * exists a, (set_mask g true m). by split; [apply Hkeep|].
      * exists b, h. split; [|done]. rewrite C1. apply elem_of_app. left. apply elem_of_reverse, list_elem_of_fmap.
        exists (b, h). split; [done|]. apply in_adds. by exists a, g, m.
Qed.

Lemma committed_ok M s s' w (outs : list entry) :
  g_ok s -> e_addr <$> outs = wPassiveGrabs s w -> Forall (entry_ok M s) outs -> committed s s' w outs -> g_ok s'.
Proof.
  intros Hs Ho He [C1 C2 C3 C4 C5 C6 C7 _ C8]. pose proof (g_ok_below s w Hs) as Hbel. destruct Hs as [G1 G2 G3].
  rewrite Forall_forall in He, C2.
  assert (Hold : ∀ a g out, (a, g, out) ∈ outs -> grabs s !! a = Some g ∧ window g = w ∧ grab_ok g ∧ g_resources s !! resource g = Some a ∧
    outcome_ok M g out ∧ became s' (a, g, out) ∧ (a < g_fresh s)%nat).
  { intros a g out Hin. assert (Ha : a ∈ wPassiveGrabs s w) by (rewrite <- Ho; apply list_elem_of_fmap; by eexists (a, g, out)).
    destruct (He _ Hin) as [Hga Hout]. cbn [fst snd] in Hga, Hout. destruct (G1 w _ a (wPassiveGrabs_some _ _ _ Ha) Ha) as (g' & Hg' & ? & ? & ?).
    assert (g' = g) as -> by congruence. split_and!; try done; [by apply (C2 _ Hin)|by eapply G3]. }
  assert (Hw : ∀ chain, passive s' !! w = Some chain -> chain = wPassiveGrabs s' w).
  { intros chain Hc. unfold wPassiveGrabs. by rewrite Hc. }
  split; [| |exact C6].
  - intros v chain a Hc Ha. destruct (decide (v = w)) as [->|Hne].
    2: { rewrite C3 in Hc by done. destruct (G1 v chain a Hc Ha) as (g & Hg & Hgw & Hgo & Hgr). exists g.
         split_and!; [apply C4; [done|]|done|done|].
         { intros Hin. destruct (G1 w _ a (wPassiveGrabs_some _ _ _ Hin) Hin) as (g' & ? & ? & _). congruence. }
         apply C5; [done|]. intros (g' & Hin)%in_deletes.
         destruct (Hold _ _ _ Hin) as (Hg' & Hw' & _). congruence. }
    rewrite (Hw _ Hc), C1 in Ha. apply elem_of_app in Ha as [Ha|Ha].
    + apply elem_of_reverse, list_elem_of_fmap in Ha as ([b h] & -> & Hin). apply in_adds in Hin as (a & g & m & Hin).
      destruct (Hold _ _ _ Hin) as (_ & Hgw & _ & _ & (_ & Hh & Hhw & _) & (_ & Hb & Hr) & _). exists h.
      split_and!; try done. congruence.
    + apply list_elem_of_filter in Ha as [Hnot Ha]. rewrite <- Ho in Ha. apply list_elem_of_fmap in Ha as ([[a' g] out] & E & Hin).
      cbn in E. subst a'. destruct (Hold _ _ _ Hin) as (Hg & Hgw & Hgo & Hgr & Hout & Hb & _). pose proof (C5 _ _ Hgr Hnot) as Hr.
      unfold became in Hb. cbn [fst snd] in Hb. destruct out as [| |k m|m b h].
      * by exists g.
      * exfalso. apply Hnot, in_deletes. by exists g.
      * exists (set_mask g k m). destruct Hout as [Hout _]. split_and!; try done; by destruct k.
      * exists (set_mask g true m). destruct Hout as [Hout _], Hb as [Hb _]. by split_and!.
  - intros v chain Hc. destruct (decide (v = w)) as [->|Hne]; [|rewrite C3 in Hc by done; by eapply G2].
    rewrite (Hw _ Hc), C1. apply NoDup_app. split_and!.
    + by rewrite reverse_Permutation.
    + intros a Ha Ha'. apply elem_of_reverse, list_elem_of_fmap in Ha as ([b h] & -> & Hin). apply list_elem_of_filter in Ha' as [_ Ha'].
      cbn in Ha'. specialize (C7 b h Hin). specialize (Hbel _ b (wPassiveGrabs_some _ _ _ Ha') Ha'). lia.
    + apply NoDup_filter. unfold wPassiveGrabs. destruct (passive s !! w) eqn:E; [by eapply G2|constructor].
Qed.

(** Nothing has changed but the memory that is left. *)
Record unchanged (s s' : GState) : Prop := {
  un_passive : passive s' = passive s;
  un_grabs : ∀ a, grabs s' !! a = grabs s !! a;
  un_resources : ∀ id, g_resources s' !! id = g_resources s !! id;
  un_fresh : (g_fresh s <= g_fresh s')%nat
}.

Lemma unchanged_ok s s' : unchanged s s' -> g_ok s -> g_ok s'.
Proof.
  intros [U1 U2 U3 U4] [G1 G2 G3]. split.
  - intros w chain a Hc Ha. rewrite U1 in Hc. destruct (G1 w chain a Hc Ha) as (g & ?). exists g. by rewrite U2, U3.
  - intros w chain Hc. rewrite U1 in Hc. by eapply G2.
  - intros a g Ha. rewrite U2 in Ha. specialize (G3 a g Ha). lia.
Qed.

Lemma grown_unchanged s s' : grown s s' [] -> unchanged s s'.
Proof.
  intros [P F O N I D R]. split; try done; [intros a; apply O, not_elem_of_nil|]. intros id. apply R. by intros b h ?%elem_of_nil.
Qed.

Lemma g_alloc4_same s : unchanged s (g_alloc4 s).2.
Proof.
  unfold g_alloc4. assert (H : ∀ t, unchanged t (g_alloc t).2).
  { intros t. pose proof (g_alloc_same t) as (E1 & E2 & E3 & E4 & _). split; [done|by rewrite E1|by rewrite E3|lia]. }
  assert (Ht : ∀ a b c, unchanged a b -> unchanged b c -> unchanged a c).
  { intros a b c [] []. split; [congruence|intros; congruence|intros; congruence|lia]. }
  pose proof (H s) as H1. destruct (g_alloc s) as [k1 s1]. pose proof (H s1) as H2. destruct (g_alloc s1) as [k2 s2].
  pose proof (H s2) as H3. destruct (g_alloc s2) as [k3 s3]. pose proof (H s3) as H4. destruct (g_alloc s3) as [k4 s4].
  cbn [snd] in *. eauto.
Qed.

(** What [DeletePassiveGrabFromList] does when it succeeds. *)
Record deleted (s s' : GState) (M : GrabRec) : Prop := {
  de_ok : g_ok s';
  de_covered : ∀ q, valid q -> covered s' (window M) q <-> covered s (window M) q ∧ stands M q = false;
  de_other : ∀ v, v <> window M -> wPassiveGrabs s' v = wPassiveGrabs s v;
  de_grabs : ∀ a g, grabs s !! a = Some g -> a ∉ wPassiveGrabs s (window M) -> grabs s' !! a = Some g;
  de_chain : ∀ a, (a < g_fresh s)%nat -> a ∈ wPassiveGrabs s' (window M) -> a ∈ wPassiveGrabs s (window M);
  de_none : ∀ a g, grabs s !! a = Some g -> g_resources s !! resource g = None -> g_resources s' !! resource g = None
}.

Lemma delete_ok s M :
  g_ok s -> grab_ok M -> unmasked M ->
  match DeletePassiveGrabFromList fake_id keyboard mouse needed s M with
  | Err e => e = FatalError
  | Ok (true, s') => deleted s s' M
  | Ok (false, s') => unchanged s s'
  end.
Proof.
  intros Hs HM HU. unfold DeletePassiveGrabFromList. case_bool_decide as Ee.
  { split; try done. intros q Hq. split; [|by intros [? _]]. intros (a & g & Ha & _). rewrite Ee in Ha. by apply elem_of_nil in Ha. }
  pose proof (g_alloc4_same s) as Hu. destruct (g_alloc4 s) as [k s1]. cbn [snd] in Hu. destruct k; cbn [negb]; [|done].
  pose proof (unchanged_ok _ _ Hu Hs) as Hs1. set (w := window M) in *. set (chain := wPassiveGrabs s w) in *.
  assert (Hch : wPassiveGrabs s1 w = chain) by (unfold wPassiveGrabs; by rewrite (un_passive _ _ Hu)).
  assert (Hpw : passive s1 !! w = Some chain).
  { rewrite (un_passive _ _ Hu). unfold chain, wPassiveGrabs in *. by destruct (passive s !! w). }
  pose proof (plan_loop_ok fake_id keyboard mouse needed M w chain s1 (mkPlan [] [] [] true) (g_ok_heap _ Hs1) (g_ok_below _ _ Hs1)) as Hp.
  rewrite Hpw in Hp. specialize (Hp (mk_is_Some _ _ eq_refl)).
  assert (Hco : chain_ok s1 w chain).
  { intros a Ha. destruct (go_chain _ Hs1 w chain a Hpw Ha) as (g & ? & ? & ? & _). by exists g. }
  specialize (Hp Hco HM HU). destruct (plan_loop fake_id keyboard mouse needed s1 M chain _) as [[p s2]|e]; cbn [mbind result_bind]; [|done].
  destruct Hp as (extra & [Hg Ha _] & Hok). cbn [adds app] in Ha. destruct (ok p) eqn:Eok; cbn [negb].
  2: { destruct (undo_adds s1 s2 extra (g_ok_heap _ Hs1) (λ w, g_ok_below _ w Hs1) Hg) as (s3 & E & H3). rewrite Ha, E. cbn [mbind result_bind].
       apply grown_unchanged in H3. destruct Hu as [U1 U2 U3 U4], H3 as [V1 V2 V3 V4]. split; [congruence|intros; congruence|intros; congruence|lia]. }
  destruct (Hok eq_refl) as (_ & outs & E1 & E2 & E3 & E4 & ->). cbn [deletes updates app] in E3, E4. rewrite <- Hch in E1.
  destruct (commit_ok M s1 s2 w outs Hs1 E1 E2 Hg) as (s3 & s4 & s5 & F1 & F2 & F3 & Hc).
  rewrite E3, F1. cbn [mbind result_bind]. rewrite Ha, F2. cbn [mbind result_bind]. rewrite E4, F3. cbn [mbind result_bind].
  pose proof (cm_chain _ _ _ _ Hc) as Hch5. split.
  - by eapply committed_ok.
  - intros q Hq. assert (Hnd : NoDup (e_addr <$> outs)) by (rewrite E1, Hch; by apply (go_nodup _ Hs1 w)).
    pose proof (committed_covered M s1 s5 outs q Hnd E1 E2 Hc Hq) as Hcov. rewrite Hcov. unfold covered. fold w. rewrite Hch. fold chain. split; intros [(a & g & H1 & H2 & H3) H4]; (split; [|done]); exists a, g;
      (split; [done|split; [|done]]); [by rewrite <- (un_grabs _ _ Hu)|by rewrite (un_grabs _ _ Hu)].
  - intros v Hv. unfold wPassiveGrabs. rewrite (cm_other _ _ _ _ Hc) by done. by rewrite (un_passive _ _ Hu).
  - intros a g Hga Hw. fold w chain in Hw. apply (cm_grabs _ _ _ _ Hc); [by rewrite (un_grabs _ _ Hu)|by rewrite Hch].
  - intros a Hlt Hin5. fold w chain in Hin5 |- *. rewrite Hch5 in Hin5. apply elem_of_app in Hin5 as [Hin5|Hin5].
    + apply elem_of_reverse, list_elem_of_fmap in Hin5 as ([b h] & -> & Hin). pose proof (cm_fresh _ _ _ _ Hc b h Hin).
      pose proof (un_fresh _ _ Hu). simpl in *. lia.
    + apply list_elem_of_filter in Hin5 as [_ Hin5]. by rewrite Hch in Hin5.
  - intros a g Hga Hn. apply (cm_none _ _ _ _ Hc a g); [by rewrite (un_grabs _ _ Hu)|by rewrite (un_resources _ _ Hu)].
Qed.
End Commit.
