(* ===== verification/GrabsAdd.v ===== *)
(** * GrabsAdd: adding passive grabs (dix/grabs.c)

    That a grab is added to the chain of its window unless it conflicts with a grab of another
    client, and the properties of comparing, deleting and adding grabs. *)

From S2P Require Import Prelude Atom ResourceDB Grabs GrabsProofs GrabsCommit.

#[local] Set Warnings "-clear-no-such-hyp".

(** ** Grabs that have combinations in common *)










Section Add.
Context (fake_id : gmap XID nat -> gmap nat GrabRec -> Z -> result XID) (keyboard mouse : pointer) (needed : pointer -> bool).
Context `{!FakeIds fake_id}.

(** ** Adding a grab *)
























End Add.

(** ** Properties *)

(** two grabs of which the second has no masks match, in either order, exactly when they are of the same devices and event type and there is a set of modifiers and a key or button that both stand for; masks are never read out of bounds. *)
Theorem GrabMatchesSecond_overlap (g h : GrabRec) :
  grab_ok g -> grab_ok h -> unmasked h ->
  (∃ x, value AnyModifier x ∧ detail_in AnyModifier (modifiersDetail g) x = true) ->
  (∃ x, value AnyKey x ∧ detail_in AnyKey (detail g) x = true) ->
  ∃ b, GrabMatchesSecond g h = Ok b ∧ GrabMatchesSecond h g = Ok b ∧
    (b = true <-> device g = device h ∧ modifierDevice g = modifierDevice h ∧ gtype g = gtype h ∧
      (∃ x, value AnyModifier x ∧ detail_in AnyModifier (modifiersDetail g) x = true ∧ detail_in AnyModifier (modifiersDetail h) x = true) ∧
      (∃ x, value AnyKey x ∧ detail_in AnyKey (detail g) x = true ∧ detail_in AnyKey (detail h) x = true)).
Proof.
  intros Hg Hh [U1 U2] N1 N2. rewrite !GrabMatchesSecond_ok by done. eexists. split; [done|]. split.
  - f_equal. rewrite (orb_comm (psup AnyModifier (modifiersDetail h) _)), (orb_comm (psup AnyKey (detail h) _)). f_equal. f_equal.
    apply eq_bool_prop_intro. rewrite !Is_true_true, !same_devices_true. split; intros (? & ? & ?); by split_and!.
  - destruct Hg as [G1 G2 _], Hh as [H1 H2 _]. rewrite !andb_true_iff, same_devices_true. split.
    + intros [[(D1 & D2 & D3) C1] C2]. split_and!; try done; by apply comparable_overlap.
    + intros (D1 & D2 & D3 & (x & Vx & X1 & X2) & (y & Vy & Y1 & Y2)). split_and!; try done; by eapply overlap_comparable.
Qed.


(** A grab whose mask has no key left stands for nothing, and still is in the way of others. *)
Lemma empty_mask_matches g h m :
  grab_ok g -> grab_ok h -> unmasked h -> same_devices g h = true -> psup AnyModifier (modifiersDetail h) (modifiersDetail g) = true ->
  exact (detail h) = AnyKey -> pMask (detail g) = Some m -> (∀ x, value AnyKey x -> mask_bit m x = false) ->
  GrabMatchesSecond g h = Ok true ∧ ∀ q, valid q -> stands g q = false.
Proof.
  intros Hg Hh [_ U] Hd Hm Ek Hz Hnone. rewrite GrabMatchesSecond_ok, Hd, Hm by done. split.
  - unfold psup at 2 3. rewrite Ek, U. cbn. by rewrite !orb_true_r.
  - intros q [_ Hq]. rewrite stands_header. destruct (proj2 (gk_detail _ Hg) _ Hz) as [Ek2 _]. unfold detail_in at 2.
    rewrite Ek2, Hz, Z.eqb_refl, Hnone by done. by rewrite !andb_false_r.
Qed.

(** ** Witnesses *)

(** The first identifier of a client that is free. *)
Definition is_free (r : gmap XID nat) (gs : gmap nat GrabRec) (c : Z) (id : XID) : bool :=
  bool_decide (r !! id = None) && bool_decide (map_Forall (λ _ g, resource g ≠ id) gs) && (CLIENT_ID id =? c).

Definition first_id (r : gmap XID nat) (gs : gmap nat GrabRec) (c : Z) : result XID :=
  match List.find (is_free r gs c) ((λ n, Z.shiftl c CLIENTOFFSET + n) <$> seqZ 0 100) with Some id => Ok id | None => Err FatalError end.

#[export] Instance first_id_FakeIds : FakeIds first_id.
Proof.
  split; intros r gs c x; unfold first_id; destruct (List.find _ _) as [id|] eqn:E; try done; [|congruence].
  intros [= <-]. apply List.find_some in E as [_ E]. unfold is_free in E. rewrite !andb_true_iff, !bool_decide_eq_true, Z.eqb_eq in E.
  destruct E as [[E1 E2] E3]. split_and!; [done|done|]. intros a g Ha. by apply (E2 a g).
Qed.

Definition demo_id (c n : Z) : XID := Z.shiftl c CLIENTOFFSET + n.
Definition demo_grab (id : XID) (mods key : Z) : GrabRec :=
  mkGrab id 2 7 false true true true true 2 (mkDetail mods None) 2 (mkDetail key None) 0 0 0.

(** Client 1 has grabbed all keys at window 7; a grab of one of them by client [c] waits. *)
Definition demo_grabs (c : Z) : GState :=
  mkG {[0%nat := demo_grab (demo_id 1 0) AnyModifier AnyKey; 1%nat := demo_grab (demo_id c 1) 4 38]} {[7 := [0%nat]]}
    {[demo_id 1 0 := 0%nat]} ∅ 2 [].

Lemma demo_grab_ok id mods key : (mods = AnyModifier ∨ 0 <= mods < 256) -> 0 <= key < 256 -> grab_ok (demo_grab id mods key).
Proof.
  intros Hm Hk. unfold AnyModifier in *. split; cbn [demo_grab modifiersDetail detail gtype]; [| |lia]; (split; [|done]); cbn [exact]; unfold value, AnyModifier, AnyKey; lia.
Qed.



Lemma AddPassiveGrabToList_conflict_witness :
  ∃ s', AddPassiveGrabToList first_id 2 3 (λ _, false) (demo_grabs 2) 1 = Ok (BadAccess, s').
Proof. eexists. vm_compute. reflexivity. Qed.


Lemma GrabMatchesSecond_overlap_witness :
  GrabMatchesSecond (demo_grab (demo_id 1 1) 4 38) (demo_grab (demo_id 2 0) AnyModifier AnyKey) = Ok true ∧
  ∃ b, GrabMatchesSecond (demo_grab (demo_id 2 0) AnyModifier AnyKey) (demo_grab (demo_id 1 1) 4 38) = Ok b.
Proof.
  destruct (GrabMatchesSecond_overlap (demo_grab (demo_id 1 1) 4 38) (demo_grab (demo_id 2 0) AnyModifier AnyKey)) as (b & H1 & H2 & _).
  - apply demo_grab_ok; [right; lia|lia].
  - apply demo_grab_ok; [by left|done].
  - done.
  - exists 4. split; [split; [lia|done]|done].
  - exists 38. split; [split; [lia|done]|done].
  - split; [reflexivity|by exists b].
Defined.
