(* ===== verification/Timer.v ===== *)
(** * Timer: the timers of the main loop (os/WaitFor.c)

    Timers are objects on a heap, linked into one list in the order of their times.  The
    intrusive list is the list of its entries (XorgList shows that the links are one): an
    entry in the list is pending, and taking out an entry that is not pending does nothing.
    Times are 32 bits and wrap around; a callback runs with the timer out of the list and
    may use all operations of this file. *)

From S2P Require Import Prelude Atom ResourceDB.

Definition s32 (z : Z) : Z := wrap_s 32 z.

(** ** Data *)

Definition TimerAbsolute : Z := 1.
Definition TimerForceOld : Z := 2.

Record OsTimerRec := mkTimer { expires : Z; delta : Z; callback : Z; arg : Z }.

(** A call of a callback: the timer, the time it is told, the callback and its argument. *)
Record call := mkCall { c_timer : nat; c_time : Z; c_callback : Z; c_arg : Z }.

(** [t_now] is the time of the last reading of the clock in full, and [t_ahead] how far the
    clock goes until the next readings, backwards too; [t_calls] are the calls so far. *)
Record TState := mkT {
  timers : list nat; t_heap : gmap nat OsTimerRec; t_fresh : nat; t_mem : oracle;
  t_now : Z; t_ahead : list Z; t_calls : list call
}.

Definition set_timers (s : TState) (l : list nat) : TState := mkT l (t_heap s) (t_fresh s) (t_mem s) (t_now s) (t_ahead s) (t_calls s).
Definition set_t_heap (s : TState) (h : gmap nat OsTimerRec) : TState := mkT (timers s) h (t_fresh s) (t_mem s) (t_now s) (t_ahead s) (t_calls s).
Definition add_call (s : TState) (c : call) : TState := mkT (timers s) (t_heap s) (t_fresh s) (t_mem s) (t_now s) (t_ahead s) (t_calls s ++ [c]).

(** ** Operations *)

Definition GetTimeInMillis (s : TState) : Z * TState :=
  match t_ahead s with
  | [] => (u32 (t_now s), s)
  | d :: f => let n := t_now s + d in (u32 n, mkT (timers s) (t_heap s) (t_fresh s) (t_mem s) n f (t_calls s))
  end.

Definition load_timer (s : TState) (a : nat) : result OsTimerRec := of_option Dangling (t_heap s !! a).

Definition first_timer (s : TState) : option nat := head (timers s).

Definition timer_pending (s : TState) (a : nat) : bool := bool_decide (a ∈ timers s).

(** [xorg_list_del (&timer->list)] *)
Definition timer_del (s : TState) (a : nat) : result TState :=
  _ ← load_timer s a; Ok (set_timers s (filter (λ b, b ≠ a) (timers s))).

(** The place before the first timer that expires later. *)
Fixpoint sort_in (h : gmap nat OsTimerRec) (a : nat) (millis : Z) (l : list nat) : result (list nat) :=
  match l with
  | [] => Ok [a]
  | e :: l =>
      t ← of_option Dangling (h !! e);
      if 0 <? s32 (expires t - millis) then Ok (a :: e :: l) else
      l ← sort_in h a millis l; Ok (e :: l)
  end.

(** A new timer is filled with zeros. *)
Definition new_timer (s : TState) : option nat * TState :=
  let '(ok, o) := alloc (t_mem s) in
  if ok then
    let a := t_fresh s in
    (Some a, mkT (timers s) (<[a := mkTimer 0 0 0 0]> (t_heap s)) (S a) o (t_now s) (t_ahead s) (t_calls s))
  else (None, mkT (timers s) (t_heap s) (t_fresh s) o (t_now s) (t_ahead s) (t_calls s)).

Section Callbacks.
(** The callbacks: [run callback timer now arg] returns after how long the timer is due again. *)
Context (run : Z -> nat -> Z -> Z -> TState -> result (Z * TState)).

Definition call_back (s : TState) (a : nat) (now : Z) : result (Z * TState) :=
  t ← load_timer s a;
  run (callback t) a now (arg t) (add_call s (mkCall a now (callback t) (arg t))).

(** [DoTimer], for the [TimerSet] that it calls. *)
Definition do_timer (TimerSet : TState -> nat -> Z -> Z -> Z -> result TState) (s : TState) (a : nat) (now : Z) : result TState :=
  s ← timer_del s a;
  '(newTime, s) ← call_back s a now;
  if newTime =? 0 then Ok s else
  t ← load_timer s a;
  TimerSet s a newTime (callback t) (arg t).

(** The timer that is set: a new one, or one that leaves the list, with a last call if asked for. *)
Definition take_timer (s : TState) (timer : option nat) (flags now : Z) : result (option nat * TState) :=
  match timer with
  | None => Ok (new_timer s)
  | Some a =>
      _ ← load_timer s a;
      if timer_pending s a then
        s ← timer_del s a;
        if negb (Z.land flags TimerForceOld =? 0) then '(_, s) ← call_back s a now; Ok (Some a, s) else Ok (Some a, s)
      else Ok (Some a, s)
  end.

(** Its fields and its place in the list.  Linking an entry that is linked already breaks the
    list. *)
Definition put_timer (s : TState) (a : nat) (flags millis now func arg : Z) : result (Z * TState) :=
  _ ← load_timer s a;
  let '(delta, millis) := if negb (Z.land flags TimerAbsolute =? 0) then (u32 (millis - now), millis) else (millis, u32 (millis + now)) in
  let s := set_t_heap s (<[a := mkTimer millis delta func arg]> (t_heap s)) in
  if timer_pending s a then Err Corrupted else
  l ← sort_in (t_heap s) a millis (timers s);
  Ok (millis, set_timers s l).

(** A timer that is due when it is set runs at once and may be set again: [fuel] bounds how
    often. *)
Fixpoint TimerSet (fuel : nat) (s : TState) (timer : option nat) (flags millis func arg : Z) : result (option nat * TState) :=
  match fuel with
  | O => Err OutOfFuel
  | S fuel =>
      let '(now, s) := GetTimeInMillis s in
      '(timer, s) ← take_timer s timer flags now;
      match timer with
      | None => Ok (None, s)
      | Some a =>
          if millis =? 0 then Ok (Some a, s) else
          '(millis, s) ← put_timer s a flags millis now func arg;
          if s32 (millis - now) <=? 0 then
            s ← do_timer (λ s a newTime func arg, '(_, s) ← TimerSet fuel s (Some a) 0 newTime func arg; Ok s) s a now;
            Ok (Some a, s)
          else Ok (Some a, s)
      end
  end.

Definition DoTimer (fuel : nat) : TState -> nat -> Z -> result TState :=
  do_timer (λ s a newTime func arg, '(_, s) ← TimerSet fuel s (Some a) 0 newTime func arg; Ok s).

(** [n] bounds the rounds of the loop. *)
Fixpoint DoTimers (fuel n : nat) (s : TState) (now : Z) : result TState :=
  match first_timer s with
  | None => Ok s
  | Some a =>
      t ← load_timer s a;
      if 0 <? s32 (expires t - now) then Ok s else
      match n with
      | O => Err OutOfFuel
      | S n => s ← DoTimer fuel s a now; DoTimers fuel n s now
      end
  end.

(** The first timer whose time is farther away than when it was set. *)
Fixpoint find_affected (h : gmap nat OsTimerRec) (now : Z) (l : list nat) : result (option nat) :=
  match l with
  | [] => Ok None
  | a :: l =>
      t ← of_option Dangling (h !! a);
      if u32 (delta t + 250) <? u32 (expires t - now) then Ok (Some a) else find_affected h now l
  end.

Fixpoint CheckAllTimers (fuel n : nat) (s : TState) : result TState :=
  let '(now, s) := GetTimeInMillis s in
  m ← find_affected (t_heap s) now (timers s);
  match m with
  | None => Ok s
  | Some a =>
      match n with
      | O => Err OutOfFuel
      | S n => s ← DoTimer fuel s a now; CheckAllTimers fuel n s
      end
  end.

Definition check_timers (fuel n : nat) (s : TState) : result (Z * TState) :=
  match first_timer s with
  | None => Ok (-1, s)
  | Some a =>
      let '(now, s) := GetTimeInMillis s in
      t ← load_timer s a;
      let timeout := s32 (expires t - now) in
      if timeout <=? 0 then s ← DoTimers fuel n s now; Ok (0, s)
      else if timeout <? u32 (delta t + 250) then Ok (timeout, s)
      else s ← CheckAllTimers fuel n s; Ok (0, s)
  end.

Definition AdjustWaitForDelay (timeout newdelay : Z) : Z := if (timeout <? 0) || (newdelay <? timeout) then newdelay else timeout.

Definition TimerForce (fuel : nat) (s : TState) (a : nat) : result (bool * TState) :=
  _ ← load_timer s a;
  if timer_pending s a then
    let '(now, s) := GetTimeInMillis s in
    s ← DoTimer fuel s a now; Ok (true, s)
  else Ok (false, s).

Definition TimerCancel (s : TState) (timer : option nat) : result TState :=
  match timer with None => Ok s | Some a => timer_del s a end.

Definition TimerFree (s : TState) (timer : option nat) : result TState :=
  match timer with
  | None => Ok s
  | Some a => s ← TimerCancel s timer; Ok (set_t_heap s (delete a (t_heap s)))
  end.

Definition TimerCheck (fuel n : nat) (s : TState) : result TState :=
  let '(now, s) := GetTimeInMillis s in DoTimers fuel n s now.

(** Every timer in the list is taken out and freed. *)
Fixpoint free_timers (s : TState) (l : list nat) : result TState :=
  match l with [] => Ok s | a :: l => s ← timer_del s a; free_timers (set_t_heap s (delete a (t_heap s))) l end.

Definition TimerInit (s : TState) : result TState := free_timers s (timers s).

End Callbacks.
