(* ===== verification/TimerQueue.v ===== *)
(** * TimerQueue: the timers as a queue in the order of time (os/WaitFor.c)

    Times in full: while they lie within a span of 2^31 milliseconds, the comparisons of
    wrapped times are those of the times, setting a timer inserts it behind those that are
    due earlier or at the same time, and running the timers that are due ends. *)

From Stdlib Require Import Sorting.Sorted.
From S2P Require Import Prelude Atom ResourceDB Timer TimerProofs.

#[local] Set Warnings "-clear-no-such-hyp".

(** ** The queue *)

Abbreviation queue := (list (nat * Z)).

Fixpoint a_insert (a : nat) (d : Z) (q : queue) : queue :=
  match q with
  | [] => [(a, d)]
  | (b, e) :: q => if d <? e then (a, d) :: (b, e) :: q else (b, e) :: a_insert a d q
  end.

Definition a_remove (a : nat) (q : queue) : queue := filter (λ e, e.1 ≠ a) q.

Definition sorted (q : queue) : Prop := StronglySorted (λ x y, x.2 <= y.2) q.

Lemma a_insert_perm a d q : a_insert a d q ≡ₚ (a, d) :: q.
Proof.
  induction q as [|[b e] q IH]; cbn [a_insert]; [done|]. destruct (d <? e); [done|]. rewrite IH. by constructor.
Qed.

Lemma a_insert_sorted a d q : sorted q -> sorted (a_insert a d q).
Proof.
  unfold sorted. induction 1 as [|[b e] q Hq IH Hall]; cbn [a_insert]; [repeat constructor|]. destruct (Z.ltb_spec d e).
  - repeat constructor; try done; cbn; [lia|]. eapply Forall_impl; [exact Hall|]. cbn. intros. lia.
  - constructor; [done|]. rewrite a_insert_perm. constructor; [cbn; lia|done].
Qed.

Lemma a_remove_sorted a q : sorted q -> sorted (a_remove a q).
Proof.
  unfold sorted, a_remove. induction 1 as [|e q Hq IH Hall]; [constructor|]. rewrite filter_cons. destruct (decide _); [|done].
  constructor; [done|]. rewrite Forall_forall in *. intros x [_ Hx]%list_elem_of_filter. by apply Hall.
Qed.

Lemma a_remove_fst a q : fst <$> a_remove a q = filter (λ b, b ≠ a) (fst <$> q).
Proof.
  unfold a_remove. induction q as [|[b e] q IH]; [done|]. rewrite fmap_cons, !filter_cons. cbn [fst].
  destruct (decide (b ≠ a)); [rewrite fmap_cons; by f_equal|done].
Qed.

Lemma a_remove_id a q : a ∉ q.*1 -> a_remove a q = q.
Proof.
  unfold a_remove. induction q as [|[b e] q IH]; [done|]. rewrite fmap_cons, not_elem_of_cons. cbn [fst]. intros [Hne Hn].
  rewrite filter_cons, decide_True by (cbn; congruence). by rewrite IH.
Qed.

Lemma a_insert_split a d q :
  sorted q -> ∃ q1 q2, a_insert a d q = q1 ++ (a, d) :: q2 ∧ q = q1 ++ q2 ∧ (∀ e, e ∈ q1 -> e.2 <= d) ∧ (∀ e, e ∈ q2 -> d < e.2).
Proof.
  unfold sorted. induction 1 as [|[b e] q Hq IH Hall]; cbn [a_insert]; [exists [], []; split_and!; try done; by intros ? ?%elem_of_nil|].
  rewrite Forall_forall in Hall. destruct (Z.ltb_spec d e) as [Hlt|Hge].
  - exists [], ((b, e) :: q). split_and!; try done; [by intros ? ?%elem_of_nil|]. intros x [->|Hx]%elem_of_cons; [done|].
    specialize (Hall x Hx). cbn in Hall. lia.
  - destruct IH as (q1 & q2 & -> & -> & H1 & H2). exists ((b, e) :: q1), q2. split_and!; try done.
    intros x [->|Hx]%elem_of_cons; [done|by apply H1].
Qed.

(** ** Comparing times *)

Lemma s32_range z : -2 ^ 31 <= z < 2 ^ 31 -> s32 z = z.
Proof.
  intros Hz. unfold s32, wrap_s. change (2 ^ (32 - 1)) with (2 ^ 31). destruct (Z.le_gt_cases 0 z).
  - rewrite Z.mod_small by lia. by rewrite (proj2 (Z.ltb_lt z (2 ^ 31))) by lia.
  - assert (z mod 2 ^ 32 = z + 2 ^ 32) as -> by (symmetry; apply (Z.mod_unique z (2 ^ 32) (-1)); lia).
    rewrite (proj2 (Z.ltb_ge _ _)) by lia. lia.
Qed.

Lemma s32_diff d m : -2 ^ 31 <= d - m < 2 ^ 31 -> s32 (u32 d - u32 m) = d - m.
Proof. intros H. rewrite (s32_mod _ (d - m)); [by apply s32_range|]. by rewrite u32_sub_l, u32_sub_r. Qed.

(** ** What the list stands for *)

Record t_rep (lo : Z) (s : TState) (q : queue) : Prop := {
  tr_timers : timers s = q.*1;
  tr_heap : ∀ a d, (a, d) ∈ q -> ∃ t, t_heap s !! a = Some t ∧ expires t = u32 d;
  tr_span : ∀ a d, (a, d) ∈ q -> lo <= d < lo + 2 ^ 31
}.

Lemma t_rep_same lo s s' q : timers s' = timers s -> t_heap s' = t_heap s -> t_rep lo s q -> t_rep lo s' q.
Proof. intros E1 E2 []. split; [congruence|by rewrite E2|done]. Qed.

Lemma t_rep_del lo s a q : t_rep lo s q -> t_rep lo (set_timers s (filter (λ b, b ≠ a) (timers s))) (a_remove a q).
Proof.
  intros [H1 H2 H3]. split; cbn [timers set_timers t_heap]; [by rewrite a_remove_fst, H1| |];
    intros b d [_ Hin]%list_elem_of_filter; [by apply H2|by eapply H3].
Qed.

Lemma sort_in_rep lo h a d q :
  (∀ b e, (b, e) ∈ q -> ∃ t, h !! b = Some t ∧ expires t = u32 e) -> (∀ b e, (b, e) ∈ q -> lo <= e < lo + 2 ^ 31) ->
  lo <= d < lo + 2 ^ 31 -> sort_in h a (u32 d) q.*1 = Ok (a_insert a d q).*1.
Proof.
  intros Hh Hs Hd. induction q as [|[b e] q IH]; [done|]. rewrite fmap_cons. cbn [fst sort_in a_insert].
  destruct (Hh b e) as (t & -> & Et); [by left|]. cbn [of_option mbind result_bind]. pose proof (Hs b e ltac:(by left)).
  rewrite Et, s32_diff by lia. destruct (Z.ltb_spec d e).
  - rewrite (proj2 (Z.ltb_lt 0 (e - d))) by lia. done.
  - rewrite (proj2 (Z.ltb_ge 0 (e - d))) by lia. rewrite IH; [done| |]; intros b' e' Hin; [apply Hh|eapply Hs]; by right.
Qed.

Lemma put_timer_rep lo s a d millis func x q :
  t_ok s -> live s a -> a ∉ timers s -> t_rep lo s q -> u32 (millis + u32 d) = u32 (d + millis) -> lo <= d + millis < lo + 2 ^ 31 ->
  ∃ s', put_timer s a 0 millis (u32 d) func x = Ok (u32 (d + millis), s') ∧ t_rep lo s' (a_insert a (d + millis) q) ∧
    t_heap s' = <[a := mkTimer (u32 (d + millis)) millis func x]> (t_heap s) ∧ t_calls s' = t_calls s ∧ t_now s' = t_now s ∧ t_ahead s' = t_ahead s.
Proof.
  intros Hs Ha Hn [H1 H2 H3] E Hd. unfold put_timer. destruct (load_live s a Ha) as (t & -> & _). cbn [mbind result_bind].
  change (negb _) with false. cbn iota zeta. rewrite E. unfold timer_pending. cbn [timers set_t_heap t_heap].
  rewrite bool_decide_eq_false_2 by done. rewrite H1, (sort_in_rep lo) with (d := d + millis); [| |done|done].
  2: { intros b e Hin. rewrite lookup_insert_ne; [by apply H2|]. intros <-. apply Hn. rewrite H1. apply list_elem_of_fmap. by exists (a, e). }
  cbn [mbind result_bind]. eexists. split; [done|]. split_and!; try done. split; cbn [timers set_timers t_heap set_t_heap].
  - done.
  - intros b e Hin. rewrite a_insert_perm in Hin. apply elem_of_cons in Hin as [[= -> ->]|Hin]; [rewrite lookup_insert_eq; by eexists|].
    rewrite lookup_insert_ne; [by apply H2|]. intros <-. apply Hn. rewrite H1. apply list_elem_of_fmap. by exists (a, e).
  - intros b e Hin. rewrite a_insert_perm in Hin. apply elem_of_cons in Hin as [[= -> ->]|Hin]; [done|by eapply H3].
Qed.

Definition reading (s : TState) : TState := (GetTimeInMillis s).2.

Lemma reading_spec s :
  GetTimeInMillis s = (u32 (t_now (reading s)), reading s) ∧ timers (reading s) = timers s ∧ t_heap (reading s) = t_heap s ∧
  t_fresh (reading s) = t_fresh s ∧ t_calls (reading s) = t_calls s.
Proof. unfold reading, GetTimeInMillis. destruct (t_ahead s); done. Qed.

(** Setting a timer in the future. *)
Lemma TimerSet_inserts run fuel lo s a millis func x q :
  t_ok s -> live s a -> t_rep lo s q -> 0 < millis < 2 ^ 31 -> lo <= t_now (reading s) -> t_now (reading s) + millis < lo + 2 ^ 31 ->
  ∃ s', TimerSet run (S fuel) s (Some a) 0 millis func x = Ok (Some a, s') ∧ t_ok s' ∧
    t_rep lo s' (a_insert a (t_now (reading s) + millis) (a_remove a q)) ∧
    t_heap s' = <[a := mkTimer (u32 (t_now (reading s) + millis)) millis func x]> (t_heap s) ∧ t_calls s' = t_calls s ∧
    t_now s' = t_now (reading s) ∧ t_ahead s' = t_ahead (reading s).
Proof.
  intros Hs Ha Hq Hm Hlo Hhi. cbn [TimerSet]. destruct (reading_spec s) as (-> & E1 & E2 & E3 & E4). set (s1 := reading s) in *.
  assert (Hs1 : t_ok s1) by t_same. assert (Hq1 : t_rep lo s1 q) by (by eapply t_rep_same). assert (Ha1 : live s1 a) by (unfold live; by rewrite E2).
  cbn [take_timer]. destruct (load_live s1 a Ha1) as (t & Hl & Et). rewrite Hl. cbn [mbind result_bind].
  assert (Htake : ∃ s2, (if timer_pending s1 a then s ← timer_del s1 a; if negb (Z.land 0 TimerForceOld =? 0) then '(_, s) ← call_back run s a (u32 (t_now s1)); Ok (Some a, s) else Ok (Some a, s)
      else Ok (Some a, s1)) = Ok (Some a, s2) ∧ t_ok s2 ∧ live s2 a ∧ a ∉ timers s2 ∧ t_rep lo s2 (a_remove a q) ∧ t_heap s2 = t_heap s1 ∧ t_calls s2 = t_calls s1 ∧ t_now s2 = t_now s1 ∧ t_ahead s2 = t_ahead s1).
  { unfold timer_pending. case_bool_decide as Hp.
    - destruct (timer_del_ok s1 a Hs1 Ha1) as (-> & Hs2 & Hn2). eexists. split; [done|]. split_and!; try done. by apply t_rep_del.
    - exists s1. split_and!; try done. rewrite a_remove_id; [done|]. by rewrite <- (tr_timers _ _ _ Hq1). }
  destruct Htake as (s2 & -> & Hs2 & Ha2 & Hn2 & Hq2 & F1 & F2 & F3 & F4). cbn [mbind result_bind]. rewrite (proj2 (Z.eqb_neq millis 0)) by lia.
  destruct (put_timer_rep lo s2 a (t_now s1) millis func x _ Hs2 Ha2 Hn2 Hq2) as (s3 & Hput & Hq3 & G1 & G2 & G3 & G4).
  { unfold u32. rewrite Zplus_mod_idemp_r. f_equal. lia. } { lia. }
  destruct (put_timer_ok s2 a 0 millis (u32 (t_now s1)) func x Hs2 Ha2 Hn2) as (m & s3' & Hput' & Hs3 & _).
  rewrite Hput in Hput' |- *. injection Hput' as <- <-. cbn [mbind result_bind].
  assert (E : 0 < s32 (u32 (t_now s1 + millis) - u32 (t_now s1))) by (rewrite s32_diff; lia). rewrite (proj2 (Z.leb_gt _ 0)) by lia.
  exists s3. split_and!; try done; congruence.
Qed.

(** ** Running what is due *)

Definition due (n : Z) (q : queue) : queue := filter (λ e, e.2 <= n) q.
Definition later (n : Z) (q : queue) : queue := filter (λ e, n < e.2) q.

Lemma due_insert n a d q : n < d -> due n (a_insert a d q) = due n q.
Proof.
  intros Hd. unfold due. induction q as [|[b e] q IH]; cbn [a_insert]; [rewrite filter_cons, decide_False by (cbn; lia); done|].
  destruct (d <? e); [rewrite filter_cons, decide_False by (cbn; lia); done|]. rewrite !filter_cons. by rewrite IH.
Qed.

Lemma later_insert n a d q : n < d -> later n (a_insert a d q) ≡ₚ (a, d) :: later n q.
Proof. intros Hd. unfold later. rewrite a_insert_perm, filter_cons, decide_True by (cbn; lia). done. Qed.

Lemma due_none n a d q : sorted ((a, d) :: q) -> n < d -> due n ((a, d) :: q) = [] ∧ later n ((a, d) :: q) = (a, d) :: q.
Proof.
  intros Hq Hd. assert (Hall : ∀ e, e ∈ (a, d) :: q -> n < e.2).
  { apply StronglySorted_inv in Hq as [_ Hq]. rewrite Forall_forall in Hq. intros e [->|He]%elem_of_cons; [done|]. specialize (Hq e He). cbn in Hq. lia. }
  unfold due, later. clear Hq Hd. induction ((a, d) :: q) as [|e l IH]; [done|]. rewrite !filter_cons.
  pose proof (Hall e ltac:(by left)). rewrite decide_False, decide_True by lia. destruct IH as [-> ->]; [intros x Hx; apply Hall; by right|done].
Qed.

(** The clock does not go back, and stops at the latest at [t_end]. *)
Definition steady (s : TState) : Prop := Forall (Z.le 0) (t_ahead s).
Definition t_end (s : TState) : Z := foldr Z.add (t_now s) (t_ahead s).

Lemma t_end_ge s : steady s -> t_now s <= t_end s.
Proof. unfold steady, t_end. induction 1; cbn [foldr]; lia. Qed.

Lemma foldr_add_shift n d l : foldr Z.add (n + d) l = d + foldr Z.add n l.
Proof. induction l as [|x l IH]; cbn [foldr]; lia. Qed.

Lemma reading_steady s : steady s -> steady (reading s) ∧ t_end (reading s) = t_end s ∧ t_now s <= t_now (reading s) <= t_end s.
Proof.
  intros Hs. pose proof (t_end_ge s Hs). unfold steady, t_end, reading, GetTimeInMillis in *. destruct (t_ahead s) as [|d f] eqn:E; cbn [snd t_ahead t_now].
  - rewrite E in *. cbn [foldr] in *. split_and!; [done|done|lia|lia].
  - inversion Hs as [|? ? H1 H2]; subst. rewrite foldr_add_shift. cbn [foldr] in *. split_and!; [done|done|lia|].
    pose proof (t_end_ge (mkT [] ∅ 0 [] (t_now s) f []) H2) as H3. unfold t_end in H3. cbn [t_now t_ahead] in H3. lia.
Qed.

(** The callback of a timer and its argument. *)
Definition cb_of (s : TState) (a : nat) : Z * Z := match t_heap s !! a with Some t => (callback t, arg t) | None => (0, 0) end.
Definition call_of (s : TState) (now : Z) (a : nat) : call := mkCall a now (cb_of s a).1 (cb_of s a).2.

Section Quiet.
(** Callbacks that only say when they want to be called again. *)
Context (run : Z -> nat -> Z -> Z -> TState -> result (Z * TState)) (ret : Z -> Z -> Z) (limit : Z).
Context (run_ret : ∀ f a now x s, run f a now x s = Ok (ret f x, s)) (ret_range : ∀ f x, 0 <= ret f x <= limit).
Context (limit_small : limit < 2 ^ 31).

#[local] Instance quiet_Callbacks : Callbacks run.
Proof.
  split. intros f a now x s Hs Ha Hn. rewrite run_ret. exists (ret f x), s. pose proof (ret_range f x). split_and!; try done; lia.
Qed.

Definition period (s : TState) (a : nat) : Z := ret (cb_of s a).1 (cb_of s a).2.

Lemma DoTimer_quiet fuel lo s a d q now :
  t_ok s -> t_rep lo s ((a, d) :: q) -> steady s -> lo <= t_now s -> t_end s + limit < lo + 2 ^ 31 ->
  ∃ s' q', DoTimer run (S fuel) s a now = Ok s' ∧ t_ok s' ∧ t_rep lo s' q' ∧ (∀ b, cb_of s' b = cb_of s b) ∧
    t_calls s' = t_calls s ++ [call_of s now a] ∧ steady s' ∧ t_end s' = t_end s ∧ t_now s <= t_now s' ∧
    q' = (if period s a =? 0 then q else a_insert a (t_now s' + period s a) q).
Proof.
  intros Hs Hq Hst Hlo Hhi. destruct (tr_heap _ _ _ Hq a d) as (t & Et & _); [by left|].
  assert (Ha : live s a) by (by exists t). unfold DoTimer, do_timer. destruct (timer_del_ok s a Hs Ha) as (-> & Hs1 & Hn1). cbn [mbind result_bind].
  pose proof (t_rep_del lo s a _ Hq) as Hq1. set (s1 := set_timers s _) in *.
  assert (a_remove a ((a, d) :: q) = q) as E.
  { unfold a_remove. rewrite filter_cons, decide_False by (cbn; tauto). apply a_remove_id. pose proof (tk_nodup _ Hs) as Hnd.
    rewrite (tr_timers _ _ _ Hq) in Hnd. cbn in Hnd. by apply NoDup_cons in Hnd as [? _]. }
  rewrite E in Hq1. unfold call_back, load_timer. change (t_heap s1) with (t_heap s). rewrite Et. cbn [of_option mbind result_bind].
  assert (Hc : cb_of s a = (callback t, arg t)) by (unfold cb_of; by rewrite Et). unfold period, call_of. rewrite Hc. cbn [fst snd].
  rewrite run_ret. cbn [mbind result_bind]. set (s2 := add_call s1 _). destruct (Z.eqb_spec (ret (callback t) (arg t)) 0) as [E0|E0].
  { exists s2, q. split_and!; try done. { t_same. } exact (t_rep_same lo s1 s2 q eq_refl eq_refl Hq1). }
  change (t_heap s2) with (t_heap s). rewrite Et. cbn [of_option mbind result_bind]. pose proof (ret_range (callback t) (arg t)).
  assert (Hst2 : steady s2) by done. destruct (reading_steady s2 Hst2) as (R1 & R2 & R3). change (t_now s2) with (t_now s) in R3. change (t_end s2) with (t_end s) in *.
  destruct (TimerSet_inserts run fuel lo s2 a (ret (callback t) (arg t)) (callback t) (arg t) q) as (s3 & -> & Hs3 & Hq3 & G1 & G2 & G3 & G4).
  { t_same. } { done. } { exact (t_rep_same lo s1 s2 q eq_refl eq_refl Hq1). } { lia. } { lia. } { lia. }
  cbn [mbind result_bind]. exists s3. eexists. split; [done|]. split; [done|]. split; [exact Hq3|]. split_and!.
  - intros b. unfold cb_of. rewrite G1. change (t_heap s2) with (t_heap s). destruct (decide (a = b)) as [<-|Hne].
    + by rewrite lookup_insert_eq, Et.
    + by rewrite lookup_insert_ne.
  - rewrite G2. done.
  - unfold steady. by rewrite G4.
  - unfold t_end. by rewrite G3, G4.
  - rewrite G3. lia.
  - rewrite G3, a_remove_id; [done|]. intros Hin. apply Hn1. by rewrite (tr_timers _ _ _ Hq1).
Qed.

(** What [DoTimers] leaves of a queue: what was not due, and what is to be called again. *)
Record ran (n : Z) (s s' : TState) (q q' : queue) : Prop := {
  rn_ok : t_ok s';
  rn_sorted : sorted q';
  rn_later : ∀ e, e ∈ q' -> n < e.2;
  rn_calls : t_calls s' = t_calls s ++ (call_of s (u32 n) <$> (due n q).*1);
  rn_timers : q'.*1 ≡ₚ (later n q).*1 ++ filter (λ a, period s a ≠ 0) (due n q).*1;
  rn_keep : ∀ e, e ∈ later n q -> e ∈ q';
  rn_new : ∀ a d, (a, d) ∈ q' -> (a, d) ∈ later n q ∨ t_now s + period s a <= d <= t_now s' + period s a
}.

Lemma DoTimers_quiet fuel lo n k s q :
  t_ok s -> t_rep lo s q -> sorted q -> steady s -> lo <= n <= t_now s -> t_end s + limit < lo + 2 ^ 31 -> (length (due n q) <= k)%nat ->
  ∃ s' q', DoTimers run (S fuel) k s (u32 n) = Ok s' ∧ t_rep lo s' q' ∧ ran n s s' q q' ∧ t_now s <= t_now s' ∧ t_end s' = t_end s.
Proof.
  intros Hs Hq Hso Hst Hn Hhi Hk. remember (length (due n q)) as m eqn:Em. revert k s q Hs Hq Hso Hst Hn Hhi Hk Em.
  induction m as [m IH] using lt_wf_ind. intros k s q Hs Hq Hso Hst Hn Hhi Hk Em. pose proof (t_end_ge s Hst) as Hge. pose proof (ret_range 0 0) as Hlim.
  assert (Hstop : ∀ l, due n q = [] -> later n q = q -> DoTimers run (S fuel) k s (u32 n) = Ok s -> l = q ->
    ∃ s' q', DoTimers run (S fuel) k s (u32 n) = Ok s' ∧ t_rep lo s' q' ∧ ran n s s' q q' ∧ t_now s <= t_now s' ∧ t_end s' = t_end s).
  { intros l Hd Hl E ->. exists s, q. split_and!; try done. split; try done.
    - intros e. rewrite <- Hl. by intros [? _]%list_elem_of_filter.
    - rewrite Hd. by rewrite app_nil_r.
    - rewrite Hd, Hl. by rewrite app_nil_r.
    - by rewrite Hl.
    - rewrite Hl. by left. }
  destruct q as [|[a d] q].
  { apply (Hstop []); try done. destruct k; cbn [DoTimers]; unfold first_timer; by rewrite (tr_timers _ _ _ Hq). }
  assert (Hft : first_timer s = Some a) by (unfold first_timer; by rewrite (tr_timers _ _ _ Hq)).
  destruct (tr_heap _ _ _ Hq a d) as (t & Et & Ee); [by left|]. pose proof (tr_span _ _ _ Hq a d ltac:(by left)) as Hsp.
  assert (Hcmp : s32 (expires t - u32 n) = d - n) by (rewrite Ee; apply s32_diff; lia).
  destruct (Z.lt_ge_cases n d) as [Hd|Hd].
  { destruct (due_none n a d q Hso Hd) as [E1 E2]. apply (Hstop ((a, d) :: q)); try done.
    destruct k; cbn [DoTimers]; rewrite Hft; unfold load_timer; rewrite Et; cbn [of_option mbind result_bind];
      rewrite Hcmp; by rewrite (proj2 (Z.ltb_lt 0 (d - n))) by lia. }
  assert (Hdue : due n ((a, d) :: q) = (a, d) :: due n q) by (unfold due; by rewrite filter_cons, decide_True by (cbn; lia)).
  assert (Hlat : later n ((a, d) :: q) = later n q) by (unfold later; by rewrite filter_cons, decide_False by (cbn; lia)).
  rewrite Hdue in Em. destruct k as [|k]; [simpl in Em; lia|]. cbn [DoTimers]. rewrite Hft. unfold load_timer at 1. rewrite Et. cbn [of_option mbind result_bind].
  rewrite Hcmp, (proj2 (Z.ltb_ge 0 (d - n))) by lia.
  destruct (DoTimer_quiet fuel lo s a d q (u32 n)) as (s1 & q1 & -> & Hs1 & Hq1 & Hcb & Hca & Hst1 & He1 & Hn1 & Eq1); [done..|lia|lia|]. cbn [mbind result_bind].
  assert (Hper : ∀ b, period s1 b = period s b) by (intros b; unfold period; by rewrite Hcb).
  assert (Hcall : ∀ b, call_of s1 (u32 n) b = call_of s (u32 n) b) by (intros b; unfold call_of; by rewrite Hcb).
  apply StronglySorted_inv in Hso as [Hso _]. pose proof (ret_range (cb_of s a).1 (cb_of s a).2) as Hr. fold (period s a) in Hr.
  assert (Hnew : period s a <> 0 -> n < t_now s1 + period s a) by lia.
  assert (Hq1' : due n q1 = due n q ∧ sorted q1 ∧ later n q1 ≡ₚ (if period s a =? 0 then [] else [(a, t_now s1 + period s a)]) ++ later n q).
  { rewrite Eq1. destruct (Z.eqb_spec (period s a) 0) as [E|E]; [done|]. split_and!; [by apply due_insert, Hnew|by apply a_insert_sorted|by apply later_insert, Hnew]. }
  destruct Hq1' as (Hd1 & Hso1 & Hl1).
  destruct (IH (length (due n q))) with (k := k) (s := s1) (q := q1) as (s' & q' & -> & Hq' & [] & Hn' & He'); try done; [simpl in Em; lia|lia|lia|simpl in *; lia|by rewrite Hd1|].
  exists s', q'. split_and!; try done; [|lia|congruence]. rewrite Hd1 in *. split; try done.
  - rewrite rn_calls0, Hca, <- app_assoc, Hdue. f_equal. rewrite !fmap_cons. cbn [fst]. rewrite <- list_fmap_compose. simpl. f_equal.
    rewrite list_fmap_compose. apply list_fmap_ext. intros i b _. apply Hcall.
  - rewrite rn_timers0, Hdue, Hlat, fmap_cons, filter_cons, Hl1. cbn [fst].
    assert (Ef : filter (λ b, period s1 b ≠ 0) (due n q).*1 = filter (λ b, period s b ≠ 0) (due n q).*1).
    { apply list_filter_iff. intros b. by rewrite Hper. }
    rewrite Ef. destruct (Z.eqb_spec (period s a) 0) as [E|E]; [rewrite decide_False by tauto; done|rewrite decide_True by done].
    cbn [app fmap list_fmap fst]. apply Permutation_middle.
  - intros e He. apply rn_keep0. rewrite Hl1. apply elem_of_app. right. by rewrite <- Hlat.
  - intros b e Hin. destruct (rn_new0 b e Hin) as [Hb|Hb].
    + rewrite Hl1, elem_of_app in Hb. rewrite Hlat. destruct Hb as [Hb|Hb]; [|by left]. right.
      destruct (Z.eqb_spec (period s a) 0); [by apply elem_of_nil in Hb|]. apply list_elem_of_singleton in Hb as [= -> ->]. lia.
    + right. rewrite Hper in Hb. lia.
Qed.
End Quiet.
