(* ===== verification/TimerTheorems.v ===== *)
(** * TimerTheorems: the properties of timers (os/WaitFor.c)

    Safety for all callbacks that keep to the interface, the order of the queue, the timeout
    of the main loop, what happens when the clock is set back, and what happens to timeouts
    that are too long. *)

From Stdlib Require Import Sorting.Sorted.
From S2P Require Import Prelude Atom ResourceDB Timer TimerProofs TimerQueue.

#[local] Set Warnings "-clear-no-such-hyp".

Lemma TimerFree_ok s a : t_ok s -> live s a -> ∃ s', TimerFree s (Some a) = Ok s' ∧ t_ok s' ∧ ~ live s' a.
Proof.
  intros Hs Ha. unfold TimerFree, TimerCancel. destruct (timer_del_ok s a Hs Ha) as (-> & [H1 H2 H3] & Hn). cbn [mbind result_bind].
  eexists. split; [done|]. split; [|unfold live; cbn [t_heap set_t_heap set_timers]; rewrite lookup_delete_eq; by intros [? ?]].
  split; cbn [timers set_t_heap t_heap set_timers t_fresh] in *; [done| |].
  - intros b Hb. rewrite lookup_delete_ne by (by intros ->). by apply H2.
  - intros b [t Hb]. apply lookup_delete_Some in Hb as [_ Hb]. apply H3. by exists t.
Qed.

(** C15: whatever the callbacks do with timers, as long as they keep the list well formed and do not free a timer that they want to be called for again, no operation on timers touches freed memory or links a timer twice; setting a timer takes at most one further round and only fails when memory runs out. *)
Theorem timers_safe run (s : TState) :
  Callbacks run -> t_ok s ->
  (∀ timer flags millis func x, (∀ a, timer = Some a -> live s a) -> last_call_ok run s timer flags ->
    ∃ r s', TimerSet run 2 s timer flags millis func x = Ok (r, s') ∧ t_ok s' ∧ (r = None -> timer = None)) ∧
  (∀ a, live s a -> ∃ b s', TimerForce run 1 s a = Ok (b, s') ∧ t_ok s' ∧ (b = true <-> a ∈ timers s)) ∧
  (∀ a, live s a -> ∃ s', TimerCancel s (Some a) = Ok s' ∧ t_ok s' ∧ a ∉ timers s' ∧ live s' a) ∧
  (∀ a, live s a -> ∃ s', TimerFree s (Some a) = Ok s' ∧ t_ok s' ∧ ~ live s' a) ∧
  (∀ n, match check_timers run 1 n s with Ok (_, s') => t_ok s' | Err e => e = OutOfFuel end) ∧
  (∀ n, match TimerCheck run 1 n s with Ok s' => t_ok s' | Err e => e = OutOfFuel end).
Proof.
  intros Hrun Hs. destruct (reading_spec s) as (ER & E1 & E2 & E3 & E4). assert (Hs1 : t_ok (reading s)) by t_same. split_and!.
  - intros timer flags millis func x Ha Hl. by apply TimerSet_ok.
  - intros a Ha. unfold TimerForce, timer_pending. destruct (load_live s a Ha) as (t & -> & _). cbn [mbind result_bind].
    case_bool_decide as Hp; [|by exists false, s]. rewrite ER. destruct (DoTimer_ok run 0 (reading s) a (u32 (t_now (reading s)))) as (s' & -> & Hs'); [done| |by exists true, s'].
    unfold live. by rewrite E2.
  - intros a Ha. destruct (timer_del_ok s a Hs Ha) as (E & ? & ?). exists (set_timers s (filter (λ b, b ≠ a) (timers s))). by split_and!.
  - intros a Ha. by apply TimerFree_ok.
  - intros n. unfold check_timers, first_timer. destruct (head (timers s)) as [a|] eqn:Eh; [|done]. rewrite ER.
    destruct (load_live (reading s) a) as (t & -> & _); [apply (tk_heap _ Hs1); rewrite E1; by apply head_Some_elem_of|]. cbn [mbind result_bind].
    pose proof (DoTimers_ok run 0 n (reading s) (u32 (t_now (reading s))) Hs1) as HD. pose proof (CheckAllTimers_ok run 0 n (reading s) Hs1) as HC.
    destruct (_ <=? 0); [by destruct (DoTimers _ _ _ _ _)|]. destruct (_ <? _); [done|]. by destruct (CheckAllTimers _ _ _ _).
  - intros n. unfold TimerCheck. rewrite ER. by apply DoTimers_ok.
Qed.

(** C35: while the times lie within 2^31 milliseconds of each other, the list of timers is a queue in the order of the times in full, first come first served among equal times, and setting a timer for the future moves it to its place in this queue, however the 32 bits of the times wrap around; no callback is called. *)
Theorem TimerSet_refines run fuel (lo : Z) (s : TState) (a : nat) (millis func x : Z) (q : queue) :
  t_ok s -> live s a -> t_rep lo s q -> sorted q ->
  0 < millis < 2 ^ 31 -> lo <= t_now (reading s) -> t_now (reading s) + millis < lo + 2 ^ 31 ->
  ∃ s' q1 q2, TimerSet run (S fuel) s (Some a) 0 millis func x = Ok (Some a, s') ∧ t_ok s' ∧
    filter (λ e, e.1 ≠ a) q = q1 ++ q2 ∧ t_rep lo s' (q1 ++ (a, t_now (reading s) + millis) :: q2) ∧
    (∀ e, e ∈ q1 -> e.2 <= t_now (reading s) + millis) ∧ (∀ e, e ∈ q2 -> t_now (reading s) + millis < e.2) ∧
    t_heap s' !! a = Some (mkTimer (u32 (t_now (reading s) + millis)) millis func x) ∧ t_calls s' = t_calls s.
Proof.
  intros Hs Ha Hq Hso Hm Hlo Hhi. destruct (TimerSet_inserts run fuel lo s a millis func x q) as (s' & E & Hs' & Hq' & H1 & H2 & _); [done..|].
  set (d := t_now (reading s) + millis) in *. destruct (a_insert_split a d (a_remove a q) (a_remove_sorted a q Hso)) as (q1 & q2 & E1 & E2 & H3 & H4).
  exists s', q1, q2. split_and!; try done; [by rewrite <- E1|]. by rewrite H1, lookup_insert_eq.
Qed.

(** C16: the timeout that the main loop waits for is none without timers and otherwise the time
    until the first of all timers is due; when timers are due it is zero, and exactly those that
    are due are called, once each and in their order, before the loop waits, and are set again
    as they ask for. This is for callbacks that do not set, cancel or free timers and whose
    answer, the timeout to be called again after, is a function [ret] of the function and its
    argument, with values from 0 to [limit] < 2^31 ([timers_safe] is about callbacks that change
    timers); for timers set with timeouts below 2^31; for a clock that does not run backwards,
    of which all readings, also after [limit] has passed, and all times that timers are due at lie
    within 2^31 milliseconds from [lo]. The time to wait is stated where it is less
    than the timeout that the first timer was set with plus 250: for more the code takes the
    clock to have been set back, and calls the timers that are due so late at once. *)
Theorem check_timers_correct run (ret : Z -> Z -> Z) (limit lo : Z) n (s : TState) (q : queue) :
  (∀ f a now x s, run f a now x s = Ok (ret f x, s)) -> (∀ f x, 0 <= ret f x <= limit) -> limit < 2 ^ 31 ->
  t_ok s -> t_rep lo s q -> sorted q -> steady s -> lo <= t_now s -> t_end s + limit < lo + 2 ^ 31 ->
  (∀ a t, a ∈ timers s -> t_heap s !! a = Some t -> 0 <= delta t < 2 ^ 31) -> (length q <= n)%nat ->
  let now := t_now (reading s) in
  (q = [] ∧ check_timers run 1 n s = Ok (-1, s)) ∨
  (∃ a d, (a, d) ∈ q ∧ d <= now ∧ ∃ s' q', check_timers run 1 n s = Ok (0, s') ∧ t_rep lo s' q' ∧ ran ret now (reading s) s' q q') ∨
  (∃ a d t, (a, d) ∈ q ∧ now < d ∧ (∀ b e, (b, e) ∈ q -> d <= e) ∧ t_heap s !! a = Some t ∧
     (d - now < delta t + 250 -> check_timers run 1 n s = Ok (d - now, reading s))).
Proof.
  intros Hrun Hret Hlim Hs Hq Hso Hst Hlo Hhi Hdel Hn now. pose proof (Hret 0 0) as Hl0. destruct (reading_spec s) as (ER & E1 & E2 & E3 & E4).
  destruct (reading_steady s Hst) as (Hst1 & He1 & Hn1). fold now in ER, Hn1.
  assert (Hs1 : t_ok (reading s)) by t_same. assert (Hq1 : t_rep lo (reading s) q) by (by eapply t_rep_same).
  unfold check_timers, first_timer. rewrite (tr_timers _ _ _ Hq). destruct q as [|[a d] q]; [by left|]. right. cbn [fmap list_fmap fst head].
  rewrite ER. destruct (tr_heap _ _ _ Hq1 a d) as (t & Et & Ee); [by left|]. unfold load_timer. rewrite Et. cbn [of_option mbind result_bind].
  pose proof (tr_span _ _ _ Hq a d ltac:(by left)) as Hsp. rewrite Ee, s32_diff by lia. destruct (Z.le_gt_cases d now) as [Hd|Hd].
  - left. exists a, d. split; [by left|]. split; [done|]. rewrite (proj2 (Z.leb_le (d - now) 0)) by lia.
    destruct (DoTimers_quiet run ret limit Hrun Hret Hlim 0 lo now n (reading s) ((a, d) :: q)) as (s' & q' & -> & Hq' & Hran & _); try done; [lia|lia| |].
    + unfold due. rewrite length_filter. done.
    + cbn [mbind result_bind]. by exists s', q'.
  - right. exists a, d, t. split; [by left|]. split; [done|]. split; [|split; [by rewrite <- E2|]].
    + intros b e [[= -> ->]|Hin]%elem_of_cons; [lia|]. apply StronglySorted_inv in Hso as [_ Hso]. rewrite Forall_forall in Hso. by apply (Hso (b, e)).
    + intros Hlt. rewrite (proj2 (Z.leb_gt (d - now) 0)) by lia. rewrite u32_small, (proj2 (Z.ltb_lt _ _)); [done|lia|].
      rewrite E2 in Et. pose proof (Hdel a t) as Hde. rewrite (tr_timers _ _ _ Hq) in Hde. specialize (Hde ltac:(by left) Et). lia.
Qed.

(** A timeout of 2^31 milliseconds or more counts as past. *)
Lemma s32_past millis now : 2 ^ 31 <= millis < 2 ^ 32 -> s32 (u32 (millis + now) - now) <= 0.
Proof.
  intros H. rewrite (s32_mod _ (u32 (millis - 2 ^ 32))).
  - rewrite s32_u32, s32_range by lia. lia.
  - rewrite u32_sub_l, Z.add_simpl_r. unfold u32. rewrite Zmod_mod. symmetry. apply (Z_mod_plus millis (-1) (2 ^ 32)). lia.
Qed.

(** C36: a timeout of 2^31 milliseconds or more counts as past: the timer is called as soon as it is set, and when its callback asks for such a timeout again, setting it never returns. *)
Theorem TimerSet_overflow run (s : TState) (a : nat) (millis func x : Z) :
  (∀ a now s, run func a now x s = Ok (millis, s)) -> t_ok s -> live s a -> 2 ^ 31 <= millis < 2 ^ 32 ->
  ∀ fuel, TimerSet run fuel s (Some a) 0 millis func x = Err OutOfFuel.
Proof.
  intros Hrun Hs Ha Hm fuel. revert s Hs Ha. induction fuel as [|fuel IH]; intros s Hs Ha; [done|]. cbn [TimerSet].
  destruct (GetTimeInMillis_same s) as (now & s1 & -> & E1 & E2 & E3 & _). assert (Hs1 : t_ok s1) by t_same.
  assert (Ha1 : live s1 a) by (unfold live; by rewrite E2). cbn [take_timer]. destruct (load_live s1 a Ha1) as (t & -> & _). cbn [mbind result_bind].
  assert (Htake : ∃ s2, (if timer_pending s1 a then s ← timer_del s1 a; (if negb (Z.land 0 TimerForceOld =? 0) then '(_, s) ← call_back run s a now; Ok (Some a, s) else Ok (Some a, s))
      else Ok (Some a, s1)) = Ok (Some a, s2) ∧ t_ok s2 ∧ live s2 a ∧ a ∉ timers s2).
  { unfold timer_pending. case_bool_decide; [|by exists s1]. destruct (timer_del_ok s1 a Hs1 Ha1) as (-> & ? & ?). by eexists. }
  destruct Htake as (s2 & -> & Hs2 & Ha2 & Hn2). cbn [mbind result_bind]. rewrite (proj2 (Z.eqb_neq millis 0)) by lia.
  destruct (put_timer_ok s2 a 0 millis now func x Hs2 Ha2 Hn2) as (m & s3 & -> & Hs3 & Ha3 & _ & -> & _ & (d & Eh & _) & _). cbn [mbind result_bind].
  change (negb _) with false. cbn iota. rewrite (proj2 (Z.leb_le _ 0)) by (by apply s32_past).
  unfold do_timer. destruct (timer_del_ok s3 a Hs3 Ha3) as (-> & Hs4 & Hn4). cbn [mbind result_bind]. unfold call_back, load_timer. cbn [t_heap set_timers add_call].
  rewrite Eh, lookup_insert_eq. cbn [of_option mbind result_bind callback arg]. rewrite Hrun. cbn [mbind result_bind].
  rewrite (proj2 (Z.eqb_neq millis 0)) by lia. cbn [t_heap set_timers add_call]. rewrite Eh, lookup_insert_eq. cbn [of_option mbind result_bind callback arg].
  rewrite IH; [done|t_same|]. unfold live. cbn [t_heap set_timers add_call]. by rewrite Eh, lookup_insert_eq.
Qed.

(** ** The clock is set back *)

(** A timer is farther away than when it was set. *)
Definition affected (s : TState) (a : nat) : bool :=
  match t_heap s !! a with Some t => u32 (delta t + 250) <? u32 (expires t - u32 (t_now s)) | None => false end.

Lemma find_affected_spec s l :
  (∀ a, a ∈ l -> live s a) -> find_affected (t_heap s) (u32 (t_now s)) l = Ok (head (filter (λ a, affected s a = true) l)).
Proof.
  induction l as [|a l IH]; intros Hl; [done|]. cbn [find_affected]. destruct (Hl a) as [t Et]; [by left|]. rewrite Et. cbn [of_option mbind result_bind].
  assert (Ea : affected s a = (u32 (delta t + 250) <? u32 (expires t - u32 (t_now s)))) by (unfold affected; by rewrite Et).
  rewrite filter_cons. destruct (_ <? _); [by rewrite decide_True|rewrite decide_False by congruence].
  apply IH. intros b Hb. apply Hl. by right.
Qed.

Section Frozen.
Context (run : Z -> nat -> Z -> Z -> TState -> result (Z * TState)) (ret : Z -> Z -> Z).
Context (run_ret : ∀ f a now x s, run f a now x s = Ok (ret f x, s)) (ret_range : ∀ f x, 0 <= ret f x < 2 ^ 31).

(** Calling a timer while the clock stands still. *)
Lemma DoTimer_frozen fuel s a now :
  t_ok s -> live s a -> t_ahead s = [] ->
  ∃ s', DoTimer run (S fuel) s a now = Ok s' ∧ t_ok s' ∧ t_ahead s' = [] ∧ t_now s' = t_now s ∧ t_calls s' = t_calls s ++ [call_of s now a] ∧
    (∀ b, cb_of s' b = cb_of s b) ∧ (∀ b, b ≠ a -> affected s' b = affected s b) ∧
    (timers s' = filter (λ b, b ≠ a) (timers s) ∨ (timers s' ≡ₚ a :: filter (λ b, b ≠ a) (timers s) ∧ affected s' a = false)).
Proof.
  intros Hs Ha Hah. unfold DoTimer, do_timer. destruct (timer_del_ok s a Hs Ha) as (-> & Hs1 & Hn1). cbn [mbind result_bind].
  destruct (load_live s a Ha) as (t & _ & Et). unfold call_back, load_timer. cbn [t_heap set_timers]. rewrite Et. cbn [of_option mbind result_bind].
  rewrite run_ret. cbn [mbind result_bind]. assert (Hc : cb_of s a = (callback t, arg t)) by (unfold cb_of; by rewrite Et).
  set (s2 := add_call _ _). assert (Hs2 : t_ok s2) by t_same. unfold call_of. rewrite Hc. cbn [fst snd].
  pose proof (ret_range (callback t) (arg t)) as Hr. destruct (Z.eqb_spec (ret (callback t) (arg t)) 0) as [E0|E0].
  { exists s2. split_and!; try done. by left. }
  change (t_heap s2) with (t_heap s). rewrite Et. cbn [of_option mbind result_bind TimerSet]. unfold GetTimeInMillis. change (t_ahead s2) with (t_ahead s).
  rewrite Hah. cbn [take_timer]. unfold load_timer. change (t_heap s2) with (t_heap s). rewrite Et. cbn [of_option mbind result_bind].
  unfold timer_pending. rewrite bool_decide_eq_false_2 by done. cbn [mbind result_bind]. rewrite (proj2 (Z.eqb_neq _ 0)) by done.
  destruct (put_timer_ok s2 a 0 (ret (callback t) (arg t)) (u32 (t_now s2)) (callback t) (arg t) Hs2 Ha Hn1) as (m & s3 & -> & Hs3 & _ & _ & -> & Hp & (d & Eh & Ed) & C & N & A).
  cbn [mbind result_bind]. change (negb _) with false. cbn iota. pose proof (s32_future (ret (callback t) (arg t)) (u32 (t_now s2)) ltac:(lia)).
  rewrite (proj2 (Z.leb_gt _ 0)) by lia. cbn [mbind result_bind]. exists s3. change (negb _) with false in Eh. cbn iota in Eh. rewrite (Ed eq_refl) in Eh.
  change (t_heap s2) with (t_heap s) in Eh. split_and!; try done; [by rewrite A| | |].
  - intros b. unfold cb_of. rewrite Eh. destruct (decide (a = b)) as [<-|Hne]; [by rewrite lookup_insert_eq, Et|by rewrite lookup_insert_ne].
  - intros b Hb. unfold affected. rewrite Eh, lookup_insert_ne, N by done. done.
  - right. split; [done|]. unfold affected. rewrite Eh, lookup_insert_eq, N. cbn [delta expires].
    rewrite u32_sub_l, Z.add_simpl_r, !u32_small by lia. apply Z.ltb_ge. lia.
Qed.
End Frozen.

(** when the clock was set back and stands, exactly the timers that seem farther away than they were set are called, once each, and none of those that remain in the list is still affected; the loop ends although it starts over after each call. *)
Theorem CheckAllTimers_ends run (ret : Z -> Z -> Z) n (s : TState) :
  (∀ f a now x s, run f a now x s = Ok (ret f x, s)) -> (∀ f x, 0 <= ret f x < 2 ^ 31) ->
  t_ok s -> t_ahead s = [] -> (length (timers s) <= n)%nat ->
  ∃ s' l, CheckAllTimers run 1 n s = Ok s' ∧ t_ok s' ∧ (∀ a, a ∈ timers s' -> affected s' a = false) ∧
    t_calls s' = t_calls s ++ (call_of s (u32 (t_now s)) <$> l) ∧ l ≡ₚ filter (λ a, affected s a = true) (timers s).
Proof.
  intros Hrun Hret Hs Hah Hn. assert (Hk : (length (filter (λ a, affected s a = true) (timers s)) <= n)%nat) by (rewrite length_filter; done). clear Hn.
  revert s Hs Hah Hk. induction n as [|n IH]; intros s Hs Hah Hk; cbn [CheckAllTimers]; unfold GetTimeInMillis; rewrite Hah;
    rewrite find_affected_spec by (apply Hs); cbn [mbind result_bind]; set (l := filter _ _) in *; assert (Hl : ∀ a, a ∈ l <-> affected s a = true ∧ a ∈ timers s) by (intros a; unfold l; by rewrite list_elem_of_filter).
  - destruct l as [|a l]; [|simpl in Hk; lia]. exists s, []. rewrite app_nil_r. split_and!; try done. intros a Ha. destruct (affected s a) eqn:E; [|done].
    by destruct (not_elem_of_nil a); apply Hl.
  - destruct (head l) as [a|] eqn:Eh.
    2: { destruct l as [|b l']; [|done]. exists s, []. rewrite app_nil_r. split_and!; try done. intros a Ha. destruct (affected s a) eqn:E; [|done].
         by destruct (not_elem_of_nil a); apply Hl. }
    destruct l as [|b l'] eqn:El; [done|]. injection Eh as ->. destruct (proj1 (Hl a)) as [Haf Hin]; [by left|].
    destruct (DoTimer_frozen run ret Hrun Hret 0 s a (u32 (t_now s)) Hs (tk_heap _ Hs a Hin) Hah) as (s1 & -> & Hs1 & Hah1 & N1 & C1 & B1 & A1 & T1).
    cbn [mbind result_bind]. assert (Hf : filter (λ b, affected s1 b = true) (timers s1) ≡ₚ l').
    { assert (Hrest : filter (λ b, affected s1 b = true) (filter (λ b, b ≠ a) (timers s)) ≡ₚ l').
      { rewrite list_filter_filter. rewrite (list_filter_iff _ (λ b, b ≠ a ∧ affected s b = true)) by (intros b; split; intros [H1 H2]; [rewrite A1 in H1 by done|rewrite A1 by done]; done).
        rewrite <- list_filter_filter. fold l. rewrite El, filter_cons, decide_False by (intros Hx; by apply Hx). rewrite list_filter_all; [done|]. intros y Hy ->.
        assert (Hnd : NoDup (a :: l')) by (rewrite <- El; unfold l; apply NoDup_filter; exact (tk_nodup _ Hs)). by apply NoDup_cons in Hnd as [? _]. }
      destruct T1 as [->|[-> E]]; [done|]. rewrite filter_cons, decide_False by congruence. done. }
    destruct (IH s1 Hs1 Hah1) as (s' & l1 & -> & Hs' & Hno & C2 & Hp); [rewrite Hf; simpl in Hk; lia|].
    exists s', (a :: l1). split; [done|]. split; [done|]. split; [done|]. split; [|by rewrite Hp, Hf].
    rewrite C2, C1, N1, <- app_assoc. f_equal. cbn [app fmap list_fmap]. f_equal. apply list_fmap_ext. intros i b _. unfold call_of. by rewrite B1.
Qed.

(** ** Witnesses *)

(** Callbacks that only ask for a time. *)
Definition asked (x : Z) : Z := if (0 <=? x) && (x <? 1000) then x else 0.
Definition plain (f : Z) (a : nat) (now x : Z) (s : TState) : result (Z * TState) := Ok (asked x, s).

(** Callback 2 sets another timer, callback 3 frees its own. *)
Definition demo_run (f : Z) (a : nat) (now x : Z) (s : TState) : result (Z * TState) :=
  if f =? 2 then
    match t_heap s !! Z.to_nat x with
    | Some _ => '(_, s) ← TimerSet plain 2 s (Some (Z.to_nat x)) 0 500 1 0; Ok (0, s)
    | None => Ok (0, s)
    end
  else if f =? 3 then s ← TimerFree s (Some a); Ok (0, s)
  else plain f a now x s.

Lemma asked_range x : 0 <= asked x <= 1000.
Proof. unfold asked. destruct ((0 <=? x) && (x <? 1000)) eqn:E; [|lia]. zbool. lia. Qed.

#[export] Instance plain_Callbacks : Callbacks plain.
Proof. split. intros f a now x s Hs Ha Hn. exists (asked x), s. pose proof (asked_range x). split_and!; try done; lia. Qed.

#[export] Instance demo_Callbacks : Callbacks demo_run.
Proof.
  split. intros f a now x s Hs Ha Hn. unfold demo_run. destruct (f =? 2); [|destruct (f =? 3)].
  - destruct (t_heap s !! Z.to_nat x) as [t|] eqn:E; [|by exists 0, s].
    destruct (TimerSet_ok plain 0 s (Some (Z.to_nat x)) 0 500 1 0 Hs) as (r & s' & -> & Hs' & _); [intros ? [= <-]; by exists t|by left|].
    exists 0, s'. by split_and!.
  - destruct (TimerFree_ok s a Hs Ha) as (s' & -> & Hs' & _). exists 0, s'. by split_and!.
  - by apply plain_Callbacks.
Qed.

(** Two timers, of which the first is due at the next reading of the clock. *)
Definition demo_timers : TState :=
  mkT [0%nat; 1%nat] {[0%nat := mkTimer 1000 100 1 200; 1%nat := mkTimer 5000 4500 2 0]} 2 [] 950 [100] [].
Definition demo_queue : queue := [(0%nat, 1000); (1%nat, 5000)].

Lemma demo_live a : (a < 2)%nat -> live demo_timers a.
Proof. intros H. unfold live. destruct a as [|[|a]]; [by eexists|by eexists|lia]. Qed.

Lemma demo_t_ok : t_ok demo_timers.
Proof.
  split; cbn [timers demo_timers].
  - repeat (apply NoDup_cons; split; [set_solver|]). constructor.
  - intros a Ha. apply demo_live. apply elem_of_cons in Ha as [->|Ha]; [lia|]. apply list_elem_of_singleton in Ha as ->. lia.
  - intros a [t Ha]. cbn [t_heap demo_timers] in Ha. apply lookup_insert_Some in Ha as [[<- _]|[_ Ha]]; [cbn; lia|].
    apply lookup_singleton_Some in Ha as [<- _]. cbn. lia.
Qed.

Lemma demo_rep : t_rep 0 demo_timers demo_queue.
Proof.
  split; [done| |]; intros a d Hin; unfold demo_queue in Hin; (apply elem_of_cons in Hin as [E|Hin];
    [|apply list_elem_of_singleton in Hin as E]); injection E as -> ->; first [lia|by eexists].
Qed.

Lemma demo_sorted : sorted demo_queue.
Proof. repeat constructor; cbn; lia. Qed.

Lemma timers_safe_witness : ∃ s', TimerCheck demo_run 1 5 demo_timers = Ok s' ∧ t_ok s'.
Proof.
  destruct (timers_safe demo_run demo_timers _ demo_t_ok) as (_ & _ & _ & _ & _ & H). specialize (H 5%nat).
  assert (E : ∃ s', TimerCheck demo_run 1 5 demo_timers = Ok s') by (eexists; vm_compute; reflexivity).
  destruct E as [s' E]. exists s'. rewrite E in H. by split.
Defined.

Lemma TimerSet_refines_witness :
  ∃ s', TimerSet plain 1 demo_timers (Some 0%nat) 0 7000 1 0 = Ok (Some 0%nat, s') ∧ t_ok s' ∧ timers s' = [1%nat; 0%nat].
Proof.
  destruct (TimerSet_refines plain 0 0 demo_timers 0%nat 7000 1 0 demo_queue demo_t_ok (demo_live 0 ltac:(lia)) demo_rep demo_sorted)
    as (s' & q1 & q2 & E & Hs & _); [lia|cbn; lia|cbn; lia|].
  exists s'. split; [done|]. split; [done|].
  assert (E2 : ∃ r, TimerSet plain 1 demo_timers (Some 0%nat) 0 7000 1 0 = Ok r ∧ timers r.2 = [1%nat; 0%nat]) by (eexists; vm_compute; split; reflexivity).
  destruct E2 as (r & E2 & E3). rewrite E in E2. injection E2 as <-. exact E3.
Defined.

Lemma check_timers_correct_witness :
  ∃ s', check_timers plain 1 2 demo_timers = Ok (0, s') ∧ t_calls s' = [mkCall 0 1050 1 200] ∧ timers s' = [0%nat; 1%nat].
Proof.
  pose proof (check_timers_correct plain (λ _, asked) 1000 0 2 demo_timers demo_queue (λ _ _ _ _ _, eq_refl) (λ _, asked_range) ltac:(lia)
    demo_t_ok demo_rep demo_sorted) as H.
  assert (E : ∃ s', check_timers plain 1 2 demo_timers = Ok (0, s') ∧ t_calls s' = [mkCall 0 1050 1 200] ∧ timers s' = [0%nat; 1%nat])
    by (eexists; vm_compute; split_and!; reflexivity).
  destruct E as (s' & E & H1 & H2). exists s'. destruct H as [[? _]|[(a & d & _ & _ & s'' & q' & E' & _)|(a & d & t & Hin & Hd & Hmin & _)]].
  - repeat constructor. lia.
  - cbn. lia.
  - cbn. lia.
  - intros a t Ha Et. cbn [timers demo_timers] in Ha. (apply elem_of_cons in Ha as [->|Ha]; [|apply list_elem_of_singleton in Ha as ->]);
      vm_compute in Et; injection Et as <-; cbn; lia.
  - cbn. lia.
  - done.
  - rewrite E in E'. injection E' as <-. done.
  - exfalso. specialize (Hmin 0%nat 1000). cbn in Hd. assert (d <= 1000) by (apply Hmin; by left). lia.
Defined.

Definition long_run (f : Z) (a : nat) (now x : Z) (s : TState) : result (Z * TState) := Ok (2 ^ 31, s).

Lemma TimerSet_overflow_witness : TimerSet long_run 10 demo_timers (Some 0%nat) 0 (2 ^ 31) 1 0 = Err OutOfFuel.
Proof. apply (TimerSet_overflow long_run demo_timers 0%nat (2 ^ 31) 1 0); [done|apply demo_t_ok|apply demo_live; lia|lia]. Defined.

(** The clock is set back to 0, so both timers are called. *)
Definition rewound : TState := mkT (timers demo_timers) (t_heap demo_timers) 2 [] 0 [] [].

Lemma rewound_ok : t_ok rewound.
Proof. by apply (t_ok_same demo_timers), demo_t_ok. Qed.

Lemma CheckAllTimers_ends_witness :
  ∃ s' l, CheckAllTimers plain 1 2 rewound = Ok s' ∧ t_calls s' = (call_of rewound 0 <$> l) ∧ l ≡ₚ [0%nat; 1%nat].
Proof.
  destruct (CheckAllTimers_ends plain (λ _, asked) 2 rewound) as (s' & l & E & _ & _ & Hc & Hp); [done| |apply rewound_ok|done|cbn; lia|].
  - intros _ x. pose proof (asked_range x). lia.
  - exists s', l. split; [done|]. split; [exact Hc|]. rewrite Hp. vm_compute. reflexivity.
Defined.
