(* ===== verification/SaveScreens.v ===== *)
(** * SaveScreens: saving the screens and powering them down (dix/window.c, Xext/dpms.c)

    What the screen saver does to each screen: [dixSaveScreens] blanks it by its driver, or covers it with a
    window, or leaves it to another program, and [DPMSSet] sets the power level. The hook of the
    security modules, the procedures of the drivers, external screen savers, the creation of
    the window and the random numbers are parameters; what they are asked for is a log.

    [HasSaverWindow (pScreen)] stands for [pScreen->screensaver.pWindow != NullWindow], as
    the procedures of window.c use it; the macro of windowstr.h still takes a number of a screen. *)

From S2P Require Import Prelude Atom ResourceDB EventQueue Timer.

(** ** Data *)

Definition DPMSModeStandby : Z := 1.
Definition DPMSModeSuspend : Z := 2.
Definition DPMSModeOff : Z := 3.
Definition SCREEN_SAVER_OFF : Z := 1.
Definition SCREEN_SAVER_FORCER : Z := 2.
Definition SCREEN_SAVER_CYCLE : Z := 3.
Definition ScreenSaverReset : Z := 0.
Definition ScreenSaverActive : Z := 1.
Definition SCREEN_IS_BLANKED : Z := 0.
Definition SCREEN_ISNT_SAVED : Z := 1.
Definition SCREEN_IS_TILED : Z := 2.
Definition SCREEN_IS_BLACK : Z := 3.
Definition DontPreferBlanking : Z := 0.
Definition DontAllowExposures : Z := 0.
Definition RANDOM_WIDTH : Z := 32.

(** The index of [serverClient]. *)
Definition serverClient : Z := 0.

(** What is called. *)
Inductive saver_event :=
  | ResetOsBuffers
  | SaveScreensFor (client on mode : Z)
  | DriverSave (screen : nat) (on : Z)
  | ExternalSave (screen : nat) (type : Z) (force : bool)
  | TileWindow (screen : nat) (kind : Z)
  | FreeSaverWindow (screen : nat)
  | MoveSaverWindow (screen : nat) (x y : Z)
  | NoticeTimes
  | ScreenPower (gpu : bool) (screen : nat) (level : Z).

(** The screen saver of a screen, and whether its driver has a procedure [DPMS]. *)
Record Screen := mkScreen { pWindow : bool; blanked : Z; ExternalScreenSaver : bool; DPMS : bool }.

(** All screens, with the [DPMS] of those without output. *)
Record Display := mkDisplay {
  screenIsSaved : Z; screens : list Screen; gpuscreens : list bool;
  ScreenSaverBlanking : Z; ScreenSaverAllowExposures : Z;
  dp_log : list saver_event
}.

Definition note (d : Display) (e : saver_event) : Display :=
  mkDisplay (screenIsSaved d) (screens d) (gpuscreens d) (ScreenSaverBlanking d) (ScreenSaverAllowExposures d) (dp_log d ++ [e]).
Definition set_saved (d : Display) (v : Z) : Display :=
  mkDisplay v (screens d) (gpuscreens d) (ScreenSaverBlanking d) (ScreenSaverAllowExposures d) (dp_log d).
Definition with_screens (d : Display) (l : list Screen) : Display :=
  mkDisplay (screenIsSaved d) l (gpuscreens d) (ScreenSaverBlanking d) (ScreenSaverAllowExposures d) (dp_log d).

(** Changes of a screen; [i] is the number of one. *)
Definition set_window (d : Display) (i : nat) (b : bool) : Display :=
  with_screens d (alter (λ c, mkScreen b (blanked c) (ExternalScreenSaver c) (DPMS c)) i (screens d)).
Definition set_blanked (d : Display) (i : nat) (v : Z) : Display :=
  with_screens d (alter (λ c, mkScreen (pWindow c) v (ExternalScreenSaver c) (DPMS c)) i (screens d)).

(** The globals; all times are 32 bits wide and 0 when they are off. *)
Record Saver := mkSaver {
  DPMSEnabled : bool; DPMSStandbyTime : Z; DPMSSuspendTime : Z; DPMSOffTime : Z; DPMSPowerLevel : Z;
  ScreenSaverTime : Z; ScreenSaverInterval : Z; screenSaverSuspended : bool; ScreenSaverTimer : option nat;
  outputs : Display
}.

Definition sv_log (s : Saver) : list saver_event := dp_log (outputs s).

Definition set_outputs (s : Saver) (d : Display) : Saver :=
  mkSaver (DPMSEnabled s) (DPMSStandbyTime s) (DPMSSuspendTime s) (DPMSOffTime s) (DPMSPowerLevel s)
    (ScreenSaverTime s) (ScreenSaverInterval s) (screenSaverSuspended s) (ScreenSaverTimer s) d.
Definition emit (s : Saver) (e : saver_event) : Saver := set_outputs s (note (outputs s) e).
Definition set_level (s : Saver) (level : Z) : Saver :=
  mkSaver (DPMSEnabled s) (DPMSStandbyTime s) (DPMSSuspendTime s) (DPMSOffTime s) level
    (ScreenSaverTime s) (ScreenSaverInterval s) (screenSaverSuspended s) (ScreenSaverTimer s) (outputs s).
Definition set_times (s : Saver) (standby suspend off : Z) : Saver :=
  mkSaver (DPMSEnabled s) standby suspend off (DPMSPowerLevel s)
    (ScreenSaverTime s) (ScreenSaverInterval s) (screenSaverSuspended s) (ScreenSaverTimer s) (outputs s).
Definition set_saver_timer (s : Saver) (t : option nat) : Saver :=
  mkSaver (DPMSEnabled s) (DPMSStandbyTime s) (DPMSSuspendTime s) (DPMSOffTime s) (DPMSPowerLevel s)
    (ScreenSaverTime s) (ScreenSaverInterval s) (screenSaverSuspended s) t (outputs s).

(** ** The timer *)

(** The timeout that [SetScreenSaverTimer] sets. *)
Definition saver_timeout (s : Saver) : Z :=
  let timeout :=
    if DPMSEnabled s then
      if 0 <? DPMSStandbyTime s then DPMSStandbyTime s
      else if 0 <? DPMSSuspendTime s then DPMSSuspendTime s
      else if 0 <? DPMSOffTime s then DPMSOffTime s else 0
    else 0 in
  if 0 <? ScreenSaverTime s then (if 0 <? timeout then Z.min (ScreenSaverTime s) timeout else ScreenSaverTime s) else timeout.

(** The callbacks of timers, the number of [ScreenSaverTimeoutExpire] among them, and the fuel of [TimerSet]. *)
Record SaverTimers := mkSaverTimers {
  st_run : Z -> nat -> Z -> Z -> TState -> result (Z * TState);
  st_expire : Z;
  st_fuel : nat
}.

Section SaverTimer.
Context (T : SaverTimers).

Definition FreeScreenSaverTimer (s : Saver) (t : TState) : result (Saver * TState) :=
  match ScreenSaverTimer s with
  | Some a => t ← TimerFree t (Some a); Ok (set_saver_timer s None, t)
  | None => Ok (s, t)
  end.

Definition SetScreenSaverTimer (s : Saver) (t : TState) : result (Saver * TState) :=
  let timeout := saver_timeout s in
  if negb (timeout =? 0) && negb (screenSaverSuspended s) then
    '(a, t) ← TimerSet (st_run T) (st_fuel T) t (ScreenSaverTimer s) 0 timeout (st_expire T) 0;
    Ok (set_saver_timer s a, t)
  else FreeScreenSaverTimer s t.
End SaverTimer.

(** ** Saving the screens *)

(** What is asked of other code. Each answer may depend on all that was done before. *)
Record ScreenOps := mkScreenOps {
  (** [XaceHook (XACE_SCREENSAVER_ACCESS, client, screen, DixShowAccess | DixHideAccess)] *)
  so_access : Display -> Z -> nat -> Status;
  (** [pScreen->SaveScreen] *)
  so_save : Display -> nat -> Z -> bool;
  (** [pScreen->screensaver.ExternalScreenSaver] *)
  so_external : Display -> nat -> Z -> bool -> bool;
  (** whether [CreateWindow] gives a window, and [AddResource] takes it *)
  so_create : Display -> nat -> Z -> bool;
  so_added : Display -> nat -> bool;
  (** the two numbers of [rand] *)
  so_rand : Display -> Z * Z
}.

Section SaveScreens.
Context (ops : ScreenOps).

(** As far as the screen's state: a window, with a cursor of its own, is made, and mapped. *)
Definition TileScreenSaver (d : Display) (i : nat) (kind : Z) : bool * Display :=
  let made := so_create ops d i kind in
  let d := set_window (note d (TileWindow i kind)) i made in
  if negb made then (false, d) else (so_added ops d i, d).

Definition driver_save (d : Display) (i : nat) (on : Z) : bool * Display :=
  (so_save ops d i on, note d (DriverSave i on)).

(** The case [SCREEN_SAVER_ON] *)
Definition blank_screen (d : Display) (i : nat) (what : Z) : Display :=
  let '(done, d) :=
    if negb (ScreenSaverBlanking d =? DontPreferBlanking) then
      let '(ok, d) := driver_save d i what in
      if ok then (true, set_blanked d i SCREEN_IS_BLANKED) else
      if negb (ScreenSaverAllowExposures d =? DontAllowExposures) then
        let '(ok, d) := TileScreenSaver d i SCREEN_IS_BLACK in
        if ok then (true, set_blanked d i SCREEN_IS_BLACK) else (false, d)
      else (false, d)
    else (false, d) in
  if done : bool then d else
  if negb (ScreenSaverAllowExposures d =? DontAllowExposures) then
    let '(ok, d) := TileScreenSaver d i SCREEN_IS_TILED in
    set_blanked d i (if ok then SCREEN_IS_TILED else SCREEN_ISNT_SAVED)
  else set_blanked d i SCREEN_ISNT_SAVED.

(** The switch over [type] for one screen *)
Definition change_screen (d : Display) (i : nat) (c : Screen) (what type : Z) : Display :=
  if type =? SCREEN_SAVER_OFF then
    if blanked c =? SCREEN_IS_BLANKED then (driver_save d i what).2
    else if pWindow c then note (set_window d i false) (FreeSaverWindow i)
    else d
  else if type =? SCREEN_SAVER_CYCLE then
    if blanked c =? SCREEN_IS_TILED then
      let d := set_saved d SCREEN_SAVER_OFF in
      let '(x, y) := so_rand ops d in
      let d := note d (MoveSaverWindow i (- Z.rem x RANDOM_WIDTH) (- Z.rem y RANDOM_WIDTH)) in
      set_saved d SCREEN_SAVER_ON
    else if blanked c =? SCREEN_IS_BLANKED then (driver_save d i type).2
    else d
  else if type =? SCREEN_SAVER_ON then blank_screen d i what
  else d.

(** The body of the second loop *)
Definition save_screen (on what type : Z) (d : Display) (i : nat) : Display :=
  match screens d !! i with
  | None => d
  | Some c =>
      let forced := on =? SCREEN_SAVER_FORCER in
      let d := if forced then (driver_save d i on).2 else d in
      let '(taken, d) :=
        if ExternalScreenSaver c then (so_external ops d i type forced, note d (ExternalSave i type forced)) else (false, d) in
      if taken : bool then d else
      if type =? screenIsSaved d then d else change_screen d i c what type
  end.

(** The first loop asks for all screens. *)
Fixpoint check_access (d : Display) (client : Z) (l : list nat) : Status :=
  match l with
  | [] => Success
  | i :: l => let rc := so_access ops d client i in if decide (rc = Success) then check_access d client l else rc
  end.

(** What to save, and in which way *)
Definition save_type (saved on mode : Z) : Z * Z :=
  if on =? SCREEN_SAVER_FORCER then
    let what := if mode =? ScreenSaverReset then SCREEN_SAVER_OFF else SCREEN_SAVER_ON in (what, what)
  else (on, if on =? saved then SCREEN_SAVER_CYCLE else on).

(** [dixSaveScreens] up to where [screenIsSaved] is set *)
Definition save_screens (client on mode : Z) (d : Display) : Status * Display :=
  let d := note d (SaveScreensFor client on mode) in
  let '(what, type) := save_type (screenIsSaved d) on mode in
  let numbers := seq 0 (length (screens d)) in
  let rc := check_access d client numbers in
  if decide (rc = Success) then (Success, set_saved (foldl (save_screen on what type) d numbers) what) else (rc, d).

Context (T : SaverTimers).

Definition dixSaveScreens (client on mode : Z) (s : Saver) (t : TState) : result (Status * Saver * TState) :=
  let '(rc, d) := save_screens client on mode (outputs s) in
  let s := set_outputs s d in
  if decide (rc = Success) then
    if mode =? ScreenSaverReset then
      let s := if on =? SCREEN_SAVER_FORCER then emit s NoticeTimes else s in
      '(s, t) ← SetScreenSaverTimer T s t;
      Ok (Success, s, t)
    else Ok (Success, s, t)
  else Ok (rc, s, t).

(** ** Power levels *)

Definition isUnblank (mode : Z) : bool :=
  if (mode =? SCREEN_SAVER_OFF) || (mode =? SCREEN_SAVER_FORCER) then true
  else if (mode =? SCREEN_SAVER_ON) || (mode =? SCREEN_SAVER_CYCLE) then false
  else true.

(** The calls of the procedures [DPMS] that drivers have *)
Definition tell_power (gpu : bool) (level : Z) (l : list bool) (d : Display) : Display :=
  foldl (λ d i, if default false (l !! i) then note d (ScreenPower gpu i level) else d) d (seq 0 (length l)).

Definition DPMSSet (client level : Z) (s : Saver) (t : TState) : result (Status * Saver * TState) :=
  let s := set_level s level in
  '(rc, s, t) ←
    (if negb (level =? DPMSModeOn) then
       if isUnblank (screenIsSaved (outputs s)) then dixSaveScreens client SCREEN_SAVER_FORCER ScreenSaverActive s t
       else Ok (Success, s, t)
     else if negb (isUnblank (screenIsSaved (outputs s))) then dixSaveScreens client SCREEN_SAVER_OFF ScreenSaverReset s t
     else Ok (Success, s, t));
  if decide (rc = Success) then
    let d := tell_power false level (DPMS <$> screens (outputs s)) (outputs s) in
    Ok (Success, set_outputs s (tell_power true level (gpuscreens d) d), t)
  else Ok (rc, s, t).

(** Requests that change the level, the timer or the state of the screens, from where the size of
    the request was checked *)
Definition ProcDPMSEnable (s : Saver) (t : TState) : result (Status * Saver * TState) :=
  let was_enabled := DPMSEnabled s in
  let s := mkSaver true (DPMSStandbyTime s) (DPMSSuspendTime s) (DPMSOffTime s) (DPMSPowerLevel s)
    (ScreenSaverTime s) (ScreenSaverInterval s) (screenSaverSuspended s) (ScreenSaverTimer s) (outputs s) in
  if was_enabled then Ok (Success, s, t) else
  '(s, t) ← SetScreenSaverTimer T s t;
  Ok (Success, s, t).

Definition ProcDPMSDisable (client : Z) (s : Saver) (t : TState) : result (Status * Saver * TState) :=
  '(_, s, t) ← DPMSSet client DPMSModeOn s t;
  Ok (Success, mkSaver false (DPMSStandbyTime s) (DPMSSuspendTime s) (DPMSOffTime s) (DPMSPowerLevel s)
    (ScreenSaverTime s) (ScreenSaverInterval s) (screenSaverSuspended s) (ScreenSaverTimer s) (outputs s), t).

Definition ProcDPMSForceLevel (client level : Z) (s : Saver) (t : TState) : result (Status * Saver * TState) :=
  if negb (DPMSEnabled s) then Ok (BadMatch, s, t) else
  if negb (level =? DPMSModeOn) && negb (level =? DPMSModeStandby) && negb (level =? DPMSModeSuspend) && negb (level =? DPMSModeOff)
  then Ok (BadValue, s, t) else
  '(_, s, t) ← DPMSSet client level s t;
  Ok (Success, s, t).

Definition ProcForceScreenSaver (client mode : Z) (s : Saver) (t : TState) : result (Status * Saver * TState) :=
  if negb (mode =? ScreenSaverReset) && negb (mode =? ScreenSaverActive) then Ok (BadValue, s, t) else
  dixSaveScreens client SCREEN_SAVER_FORCER mode s t.

End SaveScreens.
