(* ===== verification/ScreenSaver.v ===== *)
(** * ScreenSaver: when the screen is saved and powered down (os/WaitFor.c, Xext/dpms.c)

    The callback of the screen saver timer: it enters the power level that the time without
    input calls for, or saves the screens, and says when it is to be called next. What is done to
    the screens is in SaveScreens.v; here is shown that saving them and powering them down does it. *)

From S2P Require Import Prelude Atom ResourceDB EventQueue Timer TimerProofs TimerQueue SaveScreens.

Definition MILLI_PER_SECOND : Z := 1000.

(** ** Operations *)

(** [DPMS_CHECK_TIMEOUT], and what comes after it. *)
Definition DPMS_CHECK_TIMEOUT (time timeout next : Z) : Z :=
  if (0 <? time) && (0 <? u32 (time - timeout)) then u32 (time - timeout) else next.

(** The cases fall through. *)
Definition NextDPMSTimeout (s : Saver) (timeout : Z) : Z :=
  let suspend := DPMS_CHECK_TIMEOUT (DPMSOffTime s) timeout 0 in
  let standby := DPMS_CHECK_TIMEOUT (DPMSSuspendTime s) timeout suspend in
  if DPMSPowerLevel s =? DPMSModeOn then DPMS_CHECK_TIMEOUT (DPMSStandbyTime s) timeout standby
  else if DPMSPowerLevel s =? DPMSModeStandby then standby
  else if DPMSPowerLevel s =? DPMSModeSuspend then suspend
  else 0.

Section Expire.
Context (ops : ScreenOps) (T : SaverTimers).

(** The comparison of the signed [timeout] with a time is one of unsigned numbers. *)
Definition DPMS_CHECK_MODE (mode time timeout : Z) (s : Saver) (t : TState) : result (Saver * TState) :=
  if (0 <? time) && (DPMSPowerLevel s <? mode) && (time <=? u32 timeout) then
    '(_, s, t) ← DPMSSet ops T serverClient mode s t; Ok (s, t)
  else Ok (s, t).

Definition check_modes (timeout : Z) (s : Saver) (t : TState) : result (Saver * TState) :=
  '(s, t) ← DPMS_CHECK_MODE DPMSModeOff (DPMSOffTime s) timeout s t;
  '(s, t) ← DPMS_CHECK_MODE DPMSModeSuspend (DPMSSuspendTime s) timeout s t;
  DPMS_CHECK_MODE DPMSModeStandby (DPMSStandbyTime s) timeout s t.

(** [last] is the time of the last event. *)
Definition ScreenSaverTimeoutExpire (s : Saver) (t : TState) (now last : Z) : result (Z * Saver * TState) :=
  let timeout := s32 (now - last) in
  '(nextTimeout, s, t) ←
    (if DPMSEnabled s then '(s, t) ← check_modes timeout s t; Ok (NextDPMSTimeout s timeout, s, t) else Ok (0, s, t));
  if negb (DPMSPowerLevel s =? DPMSModeOn) then Ok (nextTimeout, s, t) else
  if ScreenSaverTime s =? 0 then Ok (nextTimeout, s, t) else
  if u32 timeout <? ScreenSaverTime s then
    let left := u32 (ScreenSaverTime s - timeout) in
    Ok (if 0 <? nextTimeout then Z.min left nextTimeout else left, s, t)
  else
  '(_, s, t) ← dixSaveScreens ops T serverClient SCREEN_SAVER_ON ScreenSaverActive (emit s ResetOsBuffers) t;
  Ok (if 0 <? ScreenSaverInterval s then
        if 0 <? nextTimeout then Z.min (ScreenSaverInterval s) nextTimeout else ScreenSaverInterval s
      else nextTimeout, s, t).

(** The request that sets the times, in seconds. *)
Definition ProcDPMSSetTimeouts (standby suspend off : Z) (s : Saver) (t : TState) : result (Status * Saver * TState) :=
  if negb (off =? 0) && (off <? suspend) then Ok (BadValue, s, t) else
  if negb (suspend =? 0) && (suspend <? standby) then Ok (BadValue, s, t) else
  let s := set_times s (standby * MILLI_PER_SECOND) (suspend * MILLI_PER_SECOND) (off * MILLI_PER_SECOND) in
  '(s, t) ← SetScreenSaverTimer T s t;
  Ok (Success, s, t).
End Expire.

(** ** Saving and powering down *)

(** Calls to other parts of the server, as opposed to those for a single screen. *)
Definition is_call (e : saver_event) : bool := match e with ResetOsBuffers | SaveScreensFor _ _ _ => true | _ => false end.
Definition calls_of (s : Saver) : list saver_event := List.filter is_call (sv_log s).

(** Only calls for single screens are new. *)
Definition screens_only (d d' : Display) : Prop :=
  (∃ l, dp_log d' = dp_log d ++ l ∧ List.filter is_call l = []) ∧
  length (screens d') = length (screens d) ∧ gpuscreens d' = gpuscreens d ∧ DPMS <$> screens d' = DPMS <$> screens d.

#[export] Instance screens_only_po : PreOrder screens_only.
Proof.
  split; [intros d; split; [by exists []; rewrite app_nil_r|done]|].
  intros a b c [(k & E & Hk) (?&?&?)] [(l & E' & Hl) (?&?&?)]. split; [|split; [congruence|split; congruence]].
  exists (k ++ l). rewrite E', E, List.filter_app, Hk, Hl, app_assoc. done.
Qed.

Lemma note_only d e : is_call e = false -> screens_only d (note d e).
Proof. intros H. split; [|done]. exists [e]. split; [done|]. simpl. by rewrite H. Qed.

Lemma saved_only d v : screens_only d (set_saved d v).
Proof. split; [by exists []; rewrite app_nil_r|done]. Qed.

Lemma alter_only d i f : (∀ c, DPMS (f c) = DPMS c) -> screens_only d (with_screens d (alter f i (screens d))).
Proof.
  intros H. split; [by exists []; rewrite app_nil_r|]. cbn [screens gpuscreens with_screens]. split; [apply length_alter|]. split; [done|].
  apply list_eq. intros j. rewrite !list_lookup_fmap. destruct (decide (j = i)) as [->|Hne].
  - rewrite list_lookup_alter_eq. by destruct (screens d !! i); cbn; rewrite ?H.
  - by rewrite list_lookup_alter_ne.
Qed.

Lemma window_only d i b : screens_only d (set_window d i b).
Proof. by apply alter_only. Qed.
Lemma blanked_only d i v : screens_only d (set_blanked d i v).
Proof. by apply alter_only. Qed.

Create HintDb screens.
#[export] Hint Resolve saved_only window_only blanked_only : screens.
#[export] Hint Extern 1 (screens_only _ (note _ _)) => by apply note_only : screens.

(** One step after another *)
Ltac screen_steps :=
  repeat match goal with
  | |- screens_only ?a ?a => reflexivity
  | |- context [if ?b then _ else _] => destruct b
  | |- context [let '(_, _) := so_rand ?o ?d in _] => destruct (so_rand o d)
  end;
  cbn [snd]; solve [repeat (first [reflexivity | etrans; [|solve [auto with screens]]])].

Section Screens.
Context (ops : ScreenOps).

Lemma TileScreenSaver_only d i kind : screens_only d (TileScreenSaver ops d i kind).2.
Proof. unfold TileScreenSaver. cbv zeta. destruct (negb _); cbn [snd]; screen_steps. Qed.

Lemma blank_screen_only d i what : screens_only d (blank_screen ops d i what).
Proof.
  unfold blank_screen, driver_save. set (d1 := note d (DriverSave i what)). assert (screens_only d d1) as H1 by (unfold d1; auto with screens).
  pose proof (λ d k, TileScreenSaver_only d i k) as Ht.
  assert (∀ d0, screens_only d d0 -> screens_only d
    (if negb (ScreenSaverAllowExposures d0 =? DontAllowExposures) then
       let '(ok, d2) := TileScreenSaver ops d0 i SCREEN_IS_TILED in set_blanked d2 i (if ok then SCREEN_IS_TILED else SCREEN_ISNT_SAVED)
     else set_blanked d0 i SCREEN_ISNT_SAVED)) as Hend.
  { intros d0 H0. pose proof (Ht d0 SCREEN_IS_TILED) as H2. destruct (TileScreenSaver ops d0 i SCREEN_IS_TILED) as [ok d2]. cbn [snd] in H2.
    destruct (negb _); (etrans; [|apply blanked_only]); [by etrans|done]. }
  destruct (negb _); [|by apply Hend]. destruct (so_save ops d i what); [by etrans; [|apply blanked_only]|].
  destruct (negb _); [|by apply Hend].
  pose proof (Ht d1 SCREEN_IS_BLACK) as H2. destruct (TileScreenSaver ops d1 i SCREEN_IS_BLACK) as [ok d2]. cbn [snd] in H2.
  assert (screens_only d d2) by (by etrans). destruct ok; [by etrans; [|apply blanked_only]|by apply Hend].
Qed.

Lemma save_screen_only on what type d i : screens_only d (save_screen ops on what type d i).
Proof.
  unfold save_screen. destruct (screens d !! i) as [c|]; [|reflexivity].
  set (d1 := if on =? SCREEN_SAVER_FORCER then _ else d). assert (screens_only d d1) as H1 by (unfold d1; destruct (_ =? _); cbn; screen_steps).
  clearbody d1. destruct (if ExternalScreenSaver c then _ else _) as [taken d2] eqn:E.
  assert (screens_only d d2) as H2.
  { destruct (ExternalScreenSaver c); simplify_eq; [|done]. etrans; [exact H1|auto with screens]. }
  destruct taken; [done|]. destruct (type =? screenIsSaved d2); [done|]. etrans; [exact H2|]. unfold change_screen, driver_save.
  destruct (type =? SCREEN_SAVER_OFF); [screen_steps|]. destruct (type =? SCREEN_SAVER_CYCLE); [screen_steps|].
  destruct (type =? SCREEN_SAVER_ON); [apply blank_screen_only|reflexivity].
Qed.

Lemma save_loop_only on what type l d : screens_only d (foldl (save_screen ops on what type) d l).
Proof. revert d. induction l as [|i l IH]; intros d; [reflexivity|]. cbn [foldl]. etrans; [apply save_screen_only|apply IH]. Qed.

(** Access to all screens is allowed. *)
Definition granted (client : Z) : Prop := ∀ d i, so_access ops d client i = Success.

Lemma check_access_granted d client l : granted client -> check_access ops d client l = Success.
Proof. intros H. induction l as [|i l IH]; [done|]. cbn [check_access]. rewrite H. by rewrite decide_True. Qed.

Lemma save_screens_ok client on mode d :
  ∃ rc d', save_screens ops client on mode d = (rc, d') ∧ screens_only (note d (SaveScreensFor client on mode)) d' ∧
    (granted client -> rc = Success ∧ screenIsSaved d' = (save_type (screenIsSaved d) on mode).1).
Proof.
  unfold save_screens. change (screenIsSaved (note d (SaveScreensFor client on mode))) with (screenIsSaved d). set (d1 := note d _).
  destruct (save_type (screenIsSaved d) on mode) as [what type].
  destruct (decide _) as [Hrc|Hrc]; eexists _, _; (split; [done|]).
  - split; [|done]. etrans; [apply save_loop_only|apply saved_only].
  - split; [reflexivity|]. intros H. by rewrite check_access_granted in Hrc.
Qed.

(** What [tell_power] adds to the log *)
Definition power_calls (gpu : bool) (level : Z) (l : list bool) : list saver_event :=
  omap (λ i, if default false (l !! i) then Some (ScreenPower gpu i level) else None) (seq 0 (length l)).

Lemma tell_loop gpu level (l : list bool) k d :
  let d' := foldl (λ d i, if default false (l !! i) then note d (ScreenPower gpu i level) else d) d k in
  screens_only d d' ∧ screenIsSaved d' = screenIsSaved d ∧
  dp_log d' = dp_log d ++ omap (λ i, if default false (l !! i) then Some (ScreenPower gpu i level) else None) k.
Proof.
  revert d. induction k as [|i k IH]; intros d; cbn [foldl omap list_omap]; [by rewrite app_nil_r|].
  destruct (default false (l !! i)) eqn:Ei; [|apply IH]. destruct (IH (note d (ScreenPower gpu i level))) as (H1 & H2 & H3).
  split; [etrans; [|exact H1]; auto with screens|]. split; [by rewrite H2|]. rewrite H3. cbn [dp_log note]. by rewrite <- app_assoc.
Qed.

Lemma tell_power_ok gpu level (l : list bool) d :
  screens_only d (tell_power gpu level l d) ∧ screenIsSaved (tell_power gpu level l d) = screenIsSaved d ∧
  dp_log (tell_power gpu level l d) = dp_log d ++ power_calls gpu level l.
Proof. apply tell_loop. Qed.

Context (T : SaverTimers).

(** Without a reset the timers stay as they are. *)
Lemma dixSaveScreens_active client on s t :
  dixSaveScreens ops T client on ScreenSaverActive s t =
    let '(rc, d) := save_screens ops client on ScreenSaverActive (outputs s) in Ok (rc, set_outputs s d, t).
Proof. unfold dixSaveScreens. destruct (save_screens _ _ _ _ _) as [rc d]. destruct (decide (rc = Success)) as [->|]; done. Qed.

(** A deeper level: whether the screens could be saved, and the state then. *)
Definition powered_down (client level : Z) (s : Saver) : Status * Saver :=
  let s := set_level s level in
  let '(rc, d) :=
    if isUnblank (screenIsSaved (outputs s)) then save_screens ops client SCREEN_SAVER_FORCER ScreenSaverActive (outputs s)
    else (Success, outputs s) in
  (rc, set_outputs s (if decide (rc = Success) then tell_power true level (gpuscreens d) (tell_power false level (DPMS <$> screens d) d) else d)).

Lemma DPMSSet_down client level s t :
  level ≠ DPMSModeOn -> DPMSSet ops T client level s t = Ok ((powered_down client level s).1, (powered_down client level s).2, t).
Proof.
  intros Hne. unfold DPMSSet, powered_down. rewrite (proj2 (Z.eqb_neq _ _) Hne). cbn [negb]. destruct (isUnblank _).
  - rewrite dixSaveScreens_active. destruct (save_screens _ _ _ _ _) as [rc d]. cbn [mbind result_bind].
    destruct (decide (rc = Success)) as [->|]; [|done]. destruct (tell_power_ok false level (DPMS <$> screens d) d) as ((_ & _ & Eg & _) & _).
    cbn [outputs set_outputs fst snd]. by rewrite Eg.
  - cbn [mbind result_bind]. rewrite decide_True by done.
    destruct (tell_power_ok false level (DPMS <$> screens (outputs s)) (outputs s)) as ((_ & _ & Eg & _) & _).
    cbn [outputs set_outputs set_level fst snd]. by rewrite Eg.
Qed.

(** Where access is granted, all screens are saved and told the level. *)
Theorem DPMSSet_powers_down client level s t :
  level ≠ DPMSModeOn -> granted client ->
  ∃ s' d, DPMSSet ops T client level s t = Ok (Success, s', t) ∧ DPMSPowerLevel s' = level ∧ isUnblank (screenIsSaved (outputs s')) = false ∧
    (d = outputs s ∨ screens_only (note (outputs s) (SaveScreensFor client SCREEN_SAVER_FORCER ScreenSaverActive)) d) ∧
    sv_log s' = dp_log d ++ power_calls false level (DPMS <$> screens (outputs s)) ++ power_calls true level (gpuscreens (outputs s)).
Proof.
  intros Hne Hg. rewrite DPMSSet_down by done. unfold powered_down. cbn [outputs set_level].
  assert (∃ d, (if isUnblank (screenIsSaved (outputs s)) then save_screens ops client SCREEN_SAVER_FORCER ScreenSaverActive (outputs s)
                else (Success, outputs s)) = (Success, d) ∧ isUnblank (screenIsSaved d) = false ∧
            DPMS <$> screens d = DPMS <$> screens (outputs s) ∧ gpuscreens d = gpuscreens (outputs s) ∧
            (d = outputs s ∨ screens_only (note (outputs s) (SaveScreensFor client SCREEN_SAVER_FORCER ScreenSaverActive)) d)) as (d & -> & Hs & Ed & Eg & Hd).
  { destruct (isUnblank (screenIsSaved (outputs s))) eqn:Eu.
    - destruct (save_screens_ok client SCREEN_SAVER_FORCER ScreenSaverActive (outputs s)) as (rc & d & -> & Ho & Hgr). destruct (Hgr Hg) as [-> E].
      exists d. split; [done|]. split; [by rewrite E|]. pose proof Ho as (_ & _ & E1 & E2). split; [done|]. split; [done|by right].
    - exists (outputs s). split; [done|]. split; [done|]. split; [done|]. split; [done|by left]. }
  rewrite decide_True by done. cbn [fst snd].
  destruct (tell_power_ok false level (DPMS <$> screens d) d) as (_ & E1 & L1).
  destruct (tell_power_ok true level (gpuscreens d) (tell_power false level (DPMS <$> screens d) d)) as (_ & E2 & L2).
  eexists _, d. split; [done|]. split; [done|]. split; [cbn [outputs set_outputs]; by rewrite E2, E1|]. split; [done|].
  unfold sv_log. cbn [outputs set_outputs]. by rewrite L2, L1, Ed, Eg, <- app_assoc.
Qed.

End Screens.

(** ** What the callback does *)

(** The power levels with their times. *)
Definition modes (s : Saver) : list (Z * Z) :=
  [(DPMSModeStandby, DPMSStandbyTime s); (DPMSModeSuspend, DPMSSuspendTime s); (DPMSModeOff, DPMSOffTime s)].

(** Deeper levels come later. *)
Definition ordered (s : Saver) : Prop :=
  ∀ m t m' t', (m, t) ∈ modes s -> (m', t') ∈ modes s -> m < m' -> 0 < t -> 0 < t' -> t <= t'.

Record saver_ok (s : Saver) : Prop := {
  so_times : ∀ m t, (m, t) ∈ modes s -> 0 <= t < 2 ^ 31;
  so_saver : 0 <= ScreenSaverTime s < 2 ^ 31 ∧ 0 <= ScreenSaverInterval s < 2 ^ 31;
  so_level : 0 <= DPMSPowerLevel s <= 3
}.

(** The level after [idle] milliseconds without input. *)
Definition level_after (s : Saver) (idle level : Z) : Prop :=
  DPMSPowerLevel s <= level ∧ (∀ m t, (m, t) ∈ modes s -> 0 < t <= idle -> m <= level) ∧
  (level = DPMSPowerLevel s ∨ ∃ t, (level, t) ∈ modes s ∧ 0 < t <= idle).

(** How long until something is to be done, with the screen at a level. *)
Definition ahead (s : Saver) (idle level : Z) (x : Z) : Prop :=
  (DPMSEnabled s = true ∧ ∃ m t, (m, t) ∈ modes s ∧ level < m ∧ 0 < t ∧ x = t - idle) ∨
  (level = DPMSModeOn ∧ 0 < ScreenSaverTime s ∧ idle < ScreenSaverTime s ∧ x = ScreenSaverTime s - idle) ∨
  (level = DPMSModeOn ∧ 0 < ScreenSaverTime s <= idle ∧ 0 < ScreenSaverInterval s ∧ x = ScreenSaverInterval s).

Lemma in_modes s m t :
  (m, t) ∈ modes s <-> (m = 1 ∧ t = DPMSStandbyTime s) ∨ (m = 2 ∧ t = DPMSSuspendTime s) ∨ (m = 3 ∧ t = DPMSOffTime s).
Proof.
  unfold modes, DPMSModeStandby, DPMSModeSuspend, DPMSModeOff. rewrite !elem_of_cons, elem_of_nil. split.
  - intros [[= -> ->]|[[= -> ->]|[[= -> ->]|[]]]]; auto.
  - intros [[-> ->]|[[-> ->]|[-> ->]]]; auto.
Qed.

(** The least number with a property, or 0 when there is none. *)
Definition least (P : Z -> Prop) (r : Z) : Prop := (r = 0 ∧ ∀ x, ~ P x) ∨ (0 < r ∧ P r ∧ ∀ x, P x -> r <= x).

Lemma least_iff P Q r : (∀ x, P x <-> Q x) -> least P r -> least Q r.
Proof. intros H [[E Hn]|(H0 & Hp & Hm)]; [left; split; [done|]; intros x; by rewrite <- H|right; split_and!; [done|by apply H|]; intros x; rewrite <- H; apply Hm]. Qed.

(** The minimum of two, of which the first is there. *)
Lemma least_min P a r : 0 < a -> least P r -> least (λ x, x = a ∨ P x) (if 0 <? r then Z.min a r else a).
Proof.
  intros Ha [[-> Hn]|(H0 & Hp & Hm)].
  - right. split; [done|]. split; [by left|]. intros x [->|Hx]; [done|by destruct (Hn x)].
  - rewrite (proj2 (Z.ltb_lt 0 r)) by done. right. split; [lia|]. split; [destruct (Z.min_dec a r) as [->| ->]; auto|].
    intros x [->|Hx]; [lia|]. specialize (Hm x Hx). lia.
Qed.

Lemma DPMS_CHECK_TIMEOUT_ok time timeout next :
  0 <= timeout -> 0 <= time < 2 ^ 31 -> (0 < time -> timeout < time) ->
  DPMS_CHECK_TIMEOUT time timeout next = if 0 <? time then time - timeout else next.
Proof.
  intros Ht Hr Hlt. unfold DPMS_CHECK_TIMEOUT. destruct (Z.ltb_spec 0 time); [|done]. rewrite u32_small by lia.
  by rewrite (proj2 (Z.ltb_lt 0 (time - timeout))) by lia.
Qed.

Definition power_ahead (s : Saver) (idle : Z) (x : Z) : Prop := ∃ m t, (m, t) ∈ modes s ∧ DPMSPowerLevel s < m ∧ 0 < t ∧ x = t - idle.

Lemma NextDPMSTimeout_ok s idle :
  saver_ok s -> ordered s -> 0 <= idle -> (∀ m t, (m, t) ∈ modes s -> DPMSPowerLevel s < m -> 0 < t -> idle < t) ->
  least (power_ahead s idle) (NextDPMSTimeout s idle).
Proof.
  intros [Ht _ Hl] Ho Hi Hn. pose proof (λ m t H, Ht m t (proj2 (in_modes s m t) H)) as Ht'. pose proof (λ m t H, Hn m t (proj2 (in_modes s m t) H)) as Hn'.
  pose proof (λ m t m' t' H H', Ho m t m' t' (proj2 (in_modes s m t) H) (proj2 (in_modes s m' t') H')) as Ho'.
  pose proof (Ht' 1 _ ltac:(eauto)). pose proof (Ht' 2 _ ltac:(eauto)). pose proof (Ht' 3 _ ltac:(eauto)).
  pose proof (Hn' 1 _ ltac:(eauto)). pose proof (Hn' 2 _ ltac:(eauto)). pose proof (Hn' 3 _ ltac:(eauto)).
  pose proof (Ho' 1 _ 2 _ ltac:(eauto) ltac:(eauto)). pose proof (Ho' 1 _ 3 _ ltac:(eauto) ltac:(eauto)). pose proof (Ho' 2 _ 3 _ ltac:(eauto) ltac:(eauto)).
  assert (Hnone : (∀ m t, (m, t) ∈ modes s -> DPMSPowerLevel s < m -> ~ 0 < t) -> least (power_ahead s idle) 0).
  { intros H'. left. split; [done|]. intros x (m & t & Hin & Hm & Hp & _). by apply (H' m t). }
  assert (Hsome : ∀ m t, (m, t) ∈ modes s -> DPMSPowerLevel s < m -> 0 < t -> (∀ m' t', (m', t') ∈ modes s -> DPMSPowerLevel s < m' -> 0 < t' -> t <= t') ->
    least (power_ahead s idle) (t - idle)).
  { intros m t Hin Hm Hp Hmin. right. split; [specialize (Hn m t Hin Hm Hp); lia|]. split; [by exists m, t|].
    intros x (m' & t' & Hin' & Hm' & Hp' & ->). specialize (Hmin m' t' Hin' Hm' Hp'). lia. }
  unfold NextDPMSTimeout, DPMSModeOn, DPMSModeStandby, DPMSModeSuspend. set (l := DPMSPowerLevel s) in *.
  set (a := DPMSStandbyTime s) in *. set (b := DPMSSuspendTime s) in *. set (c := DPMSOffTime s) in *.
  destruct (Z.eqb_spec l 0) as [El|El]; [|destruct (Z.eqb_spec l 1) as [El1|El1]; [|destruct (Z.eqb_spec l 2) as [El2|El2]]];
    rewrite ?(DPMS_CHECK_TIMEOUT_ok a), ?(DPMS_CHECK_TIMEOUT_ok b), ?(DPMS_CHECK_TIMEOUT_ok c) by lia;
    repeat match goal with |- context [0 <? ?x] => destruct (Z.ltb_spec 0 x) end;
    first [ apply Hnone; intros m t Hin%in_modes ? ?; fold a b c in Hin; lia
          | eapply Hsome; [apply in_modes; fold a b c; eauto|lia|lia|intros m t Hin%in_modes ? ?; fold a b c in Hin; lia] ].
Qed.

Section Check.
Context (ops : ScreenOps) (T : SaverTimers).

(** What the checks of the levels do, without the timers, which they leave alone *)
Definition check_mode (s : Saver) (mode time timeout : Z) : Saver :=
  if (0 <? time) && (DPMSPowerLevel s <? mode) && (time <=? u32 timeout) then (powered_down ops serverClient mode s).2 else s.

Definition modes_checked (s : Saver) (timeout : Z) : Saver :=
  let s := check_mode s DPMSModeOff (DPMSOffTime s) timeout in
  let s := check_mode s DPMSModeSuspend (DPMSSuspendTime s) timeout in
  check_mode s DPMSModeStandby (DPMSStandbyTime s) timeout.

Lemma check_mode_eq s mode time timeout t :
  mode ≠ DPMSModeOn -> DPMS_CHECK_MODE ops T mode time timeout s t = Ok (check_mode s mode time timeout, t).
Proof. intros H. unfold DPMS_CHECK_MODE, check_mode. destruct (_ && _); [|done]. by rewrite DPMSSet_down. Qed.

Lemma check_modes_eq s timeout t : check_modes ops T timeout s t = Ok (modes_checked s timeout, t).
Proof. unfold check_modes. rewrite check_mode_eq by done. cbn [mbind result_bind]. rewrite check_mode_eq by done. cbn [mbind result_bind]. by rewrite check_mode_eq. Qed.

Lemma powered_down_frame client level s :
  let s' := (powered_down ops client level s).2 in
  DPMSPowerLevel s' = level ∧ modes s' = modes s ∧ ScreenSaverTime s' = ScreenSaverTime s ∧
  ScreenSaverInterval s' = ScreenSaverInterval s ∧ DPMSEnabled s' = DPMSEnabled s.
Proof. unfold powered_down. destruct (if isUnblank _ then _ else _) as [rc d]. done. Qed.

Lemma check_mode_level s mode time timeout :
  0 <= timeout < 2 ^ 31 ->
  DPMSPowerLevel (check_mode s mode time timeout) =
    (if (0 <? time) && (DPMSPowerLevel s <? mode) && (time <=? timeout) then mode else DPMSPowerLevel s).
Proof. intros H. unfold check_mode. rewrite u32_small by lia. destruct (_ && _); [apply powered_down_frame|done]. Qed.

(** Only the level and the log change. *)
Definition same_times (s s' : Saver) : Prop :=
  modes s' = modes s ∧ ScreenSaverTime s' = ScreenSaverTime s ∧ ScreenSaverInterval s' = ScreenSaverInterval s ∧ DPMSEnabled s' = DPMSEnabled s.

Lemma check_mode_same s mode time timeout : same_times s (check_mode s mode time timeout).
Proof. unfold check_mode. destruct (_ && _); [apply powered_down_frame|done]. Qed.

Lemma modes_checked_same s timeout : same_times s (modes_checked s timeout).
Proof.
  unfold modes_checked. pose proof (check_mode_same s DPMSModeOff (DPMSOffTime s) timeout) as (A1 & A2 & A3 & A4). set (s1 := check_mode s _ _ _) in *.
  pose proof (check_mode_same s1 DPMSModeSuspend (DPMSSuspendTime s1) timeout) as (B1 & B2 & B3 & B4). set (s2 := check_mode s1 _ _ _) in *.
  pose proof (check_mode_same s2 DPMSModeStandby (DPMSStandbyTime s2) timeout) as (C1 & C2 & C3 & C4). split_and!; congruence.
Qed.

Lemma modes_checked_level s idle :
  saver_ok s -> 0 <= idle < 2 ^ 31 -> level_after s idle (DPMSPowerLevel (modes_checked s idle)) ∧ DPMSPowerLevel (modes_checked s idle) <= 3.
Proof.
  intros [_ _ Hl] Hi. unfold modes_checked. pose proof (check_mode_same s DPMSModeOff (DPMSOffTime s) idle) as (E1 & _).
  set (s1 := check_mode s _ _ _) in *. pose proof (check_mode_same s1 DPMSModeSuspend (DPMSSuspendTime s1) idle) as (E2 & _).
  set (s2 := check_mode s1 _ _ _) in *. rewrite check_mode_level by done.
  assert (H2 : DPMSPowerLevel s2 = if (0 <? DPMSSuspendTime s1) && (DPMSPowerLevel s1 <? DPMSModeSuspend) && (DPMSSuspendTime s1 <=? idle) then DPMSModeSuspend else DPMSPowerLevel s1)
    by (by apply check_mode_level).
  assert (H1 : DPMSPowerLevel s1 = if (0 <? DPMSOffTime s) && (DPMSPowerLevel s <? DPMSModeOff) && (DPMSOffTime s <=? idle) then DPMSModeOff else DPMSPowerLevel s)
    by (by apply check_mode_level).
  rewrite E1 in E2. unfold modes in E1, E2. injection E1 as F1 F2 F3. injection E2 as G1 G2 G3. rewrite H2, H1, F2, G1. clear H1 H2.
  unfold level_after, DPMSModeOff, DPMSModeSuspend, DPMSModeStandby.
  destruct (Z.ltb_spec 0 (DPMSOffTime s)), (Z.leb_spec (DPMSOffTime s) idle), (Z.ltb_spec 0 (DPMSSuspendTime s)), (Z.leb_spec (DPMSSuspendTime s) idle),
    (Z.ltb_spec 0 (DPMSStandbyTime s)), (Z.leb_spec (DPMSStandbyTime s) idle); cbn [andb];
    repeat match goal with |- context [?x <? ?y] => lazymatch x with context [if _ then _ else _] => fail | _ => destruct (Z.ltb_spec x y); cbn [andb] end end;
    (split; [|lia]); (split; [lia|]); (split; [intros m t Hin%in_modes ?; lia|]);
    first [left; lia|right; eexists; split; [apply in_modes; first [left; split; [lia|done]|right; left; split; [lia|done]|right; right; split; [lia|done]]|lia]].
Qed.

Lemma check_mode_on s mode time timeout :
  mode ≠ DPMSModeOn -> DPMSPowerLevel (check_mode s mode time timeout) = DPMSModeOn -> check_mode s mode time timeout = s.
Proof.
  intros Hm. unfold check_mode. destruct (_ && _); [|done]. destruct (powered_down_frame serverClient mode s) as [-> _]. done.
Qed.

Lemma modes_checked_on s idle : DPMSPowerLevel (modes_checked s idle) = DPMSModeOn -> modes_checked s idle = s.
Proof.
  unfold modes_checked. set (s1 := check_mode s _ _ _). set (s2 := check_mode s1 _ _ _). intros H.
  rewrite check_mode_on in H |- * by done. unfold s2 in *. rewrite check_mode_on in H |- * by done. unfold s1 in *. by apply check_mode_on.
Qed.

(** What the power levels do. *)
Lemma power_step s t idle :
  saver_ok s -> ordered s -> 0 <= idle < 2 ^ 31 ->
  ∃ s1 r1, (if DPMSEnabled s then '(s, t) ← check_modes ops T idle s t; Ok (NextDPMSTimeout s idle, s, t) else Ok (0, s, t)) = Ok (r1, s1, t) ∧
    same_times s s1 ∧ 0 <= DPMSPowerLevel s1 <= 3 ∧
    (if DPMSEnabled s then level_after s idle (DPMSPowerLevel s1) else DPMSPowerLevel s1 = DPMSPowerLevel s) ∧
    least (λ x, DPMSEnabled s = true ∧ power_ahead s1 idle x) r1 ∧ (DPMSPowerLevel s1 = DPMSModeOn -> s1 = s).
Proof.
  intros Hok Ho Hi. pose proof Hok as [Htimes [Hsst Hint] Hlev]. rewrite check_modes_eq. destruct (DPMSEnabled s) eqn:En; eexists _, _; (split; [done|]).
  - destruct (modes_checked_level s idle Hok Hi) as [Hla Hle]. pose proof Hla as (Hge & Hall & _). pose proof (modes_checked_same s idle) as Hsame.
    split; [done|]. split; [lia|]. split; [done|]. split; [|by apply modes_checked_on].
    apply (least_iff (power_ahead (modes_checked s idle) idle)); [intros x; tauto|]. destruct Hsame as (Em & E1 & E2 & E3). apply NextDPMSTimeout_ok; [| |lia|].
    + split; [by rewrite Em|by rewrite E1, E2|lia].
    + unfold ordered. by rewrite Em.
    + intros m u Hin Hm Hp. rewrite Em in Hin. destruct (Z.lt_ge_cases idle u); [done|]. specialize (Hall m u Hin ltac:(lia)). lia.
  - split; [done|]. split; [done|]. split; [done|]. split; [|done]. left. split; [done|]. by intros x [? _].
Qed.

(** What the screens are told when their time to be saved has come *)
Definition saved (s s' : Saver) : Prop :=
  calls_of s' = calls_of s ++ [ResetOsBuffers; SaveScreensFor serverClient SCREEN_SAVER_ON ScreenSaverActive] ∧
  (granted ops serverClient -> screenIsSaved (outputs s') = SCREEN_SAVER_ON).

Lemma dixSaveScreens_saved s t :
  ∃ rc s', dixSaveScreens ops T serverClient SCREEN_SAVER_ON ScreenSaverActive (emit s ResetOsBuffers) t = Ok (rc, s', t) ∧
    same_times s s' ∧ DPMSPowerLevel s' = DPMSPowerLevel s ∧ saved s s'.
Proof.
  rewrite dixSaveScreens_active. cbn [emit outputs set_outputs].
  destruct (save_screens_ok ops serverClient SCREEN_SAVER_ON ScreenSaverActive (note (outputs s) ResetOsBuffers)) as (rc & d & -> & ((l & El & Hl) & _) & Hg).
  eexists _, _. split; [done|]. split; [done|]. split; [done|]. split; [|intros H; by apply Hg].
  unfold calls_of, sv_log. cbn [outputs set_outputs]. rewrite El. cbn [dp_log note]. by rewrite !List.filter_app, Hl, app_nil_r, <- app_assoc.
Qed.

End Check.

(** C37: when the screen saver timer runs out after a time without input, the deepest power level
    whose time has come is entered; when no power level is and the time to save the screens has come, the
    buffers of clients are reset and the screens are saved, once each, after which [screenIsSaved] says so
    where the server may touch all screens. The callback always returns, leaves the timers
    alone, and asks to be called again exactly when the next of these is due: no power level,
    no saving and no cycle of the saver is missed or late, as long as deeper levels do not have
    earlier times and all times are below 2^31 milliseconds. *)
Theorem ScreenSaverTimeoutExpire_correct (ops : ScreenOps) (T : SaverTimers) (s : Saver) (t : TState) (last idle : Z) :
  saver_ok s -> ordered s -> 0 <= idle < 2 ^ 31 ->
  ∃ r s', ScreenSaverTimeoutExpire ops T s t (u32 (last + idle)) last = Ok (r, s', t) ∧
  same_times s s' ∧
  (if DPMSEnabled s then level_after s idle (DPMSPowerLevel s') else DPMSPowerLevel s' = DPMSPowerLevel s) ∧
  least (ahead s idle (DPMSPowerLevel s')) r ∧ r < 2 ^ 31 ∧
  (DPMSPowerLevel s' = DPMSModeOn -> 0 < ScreenSaverTime s <= idle -> saved ops s s').
Proof.
  intros Hok Ho Hi. unfold ScreenSaverTimeoutExpire.
  assert (Et : s32 (u32 (last + idle) - last) = idle).
  { rewrite (s32_mod _ idle); [apply s32_range; lia|]. rewrite u32_sub_l. f_equal. lia. }
  rewrite Et. cbv zeta. destruct (power_step ops T s t idle Hok Ho Hi) as (s1 & r1 & X & Hs1 & Hlev1 & Hlevel & Hleast & Hon).
  rewrite X. clear X. cbn [mbind result_bind]. pose proof Hs1 as (Em & E1 & E2 & E3). pose proof Hok as [Htimes [Hsst Hint] Hlev].
  rewrite E1.
  assert (Hsub : ∀ s2 r, same_times s1 s2 -> DPMSPowerLevel s2 = DPMSPowerLevel s1 ->
    least (ahead s idle (DPMSPowerLevel s1)) r -> (DPMSPowerLevel s1 = DPMSModeOn -> 0 < ScreenSaverTime s <= idle -> saved ops s s2) ->
    ∃ r' s', Ok (r, s2, t) = Ok (r', s', t) ∧
    same_times s s' ∧ (if DPMSEnabled s then level_after s idle (DPMSPowerLevel s') else DPMSPowerLevel s' = DPMSPowerLevel s) ∧
    least (ahead s idle (DPMSPowerLevel s')) r' ∧ r' < 2 ^ 31 ∧
    (DPMSPowerLevel s' = DPMSModeOn -> 0 < ScreenSaverTime s <= idle -> saved ops s s')).
  { intros s2 r (F1 & F2 & F3 & F4) El Hl Hg. exists r, s2. rewrite El. split; [done|]. split; [split_and!; congruence|]. split; [done|]. split; [done|]. split; [|done].
    destruct Hl as [[-> _]|(_ & Ha & _)]; [lia|]. destruct Ha as [(_ & m & u & Hin & _ & _ & ->)|[(_ & _ & _ & ->)|(_ & _ & _ & ->)]]; [|lia|lia].
    specialize (Htimes m u Hin). lia. }
  assert (Hahead : ∀ x, ahead s idle (DPMSPowerLevel s1) x <-> (DPMSEnabled s = true ∧ power_ahead s1 idle x) ∨
    (DPMSPowerLevel s1 = DPMSModeOn ∧ 0 < ScreenSaverTime s ∧ idle < ScreenSaverTime s ∧ x = ScreenSaverTime s - idle) ∨
    (DPMSPowerLevel s1 = DPMSModeOn ∧ 0 < ScreenSaverTime s <= idle ∧ 0 < ScreenSaverInterval s ∧ x = ScreenSaverInterval s)).
  { intros x. unfold ahead, power_ahead. by rewrite Em. }
  rewrite (u32_small idle) by lia. destruct (Z.eqb_spec (DPMSPowerLevel s1) DPMSModeOn) as [El|El]; cbn [negb].
  2: { apply Hsub; try done. eapply least_iff; [|exact Hleast]. intros x. rewrite Hahead. tauto. }
  destruct (Z.eqb_spec (ScreenSaverTime s) 0) as [E0|E0].
  { apply Hsub; try done; [|intros; lia]. eapply least_iff; [|exact Hleast]. intros x. rewrite Hahead. split; [by left|]. intros [?|[?|?]]; [done|lia|lia]. }
  destruct (Z.ltb_spec idle (ScreenSaverTime s)) as [Hlt|Hge].
  { apply Hsub; try done; [|intros; lia]. rewrite u32_small by lia. eapply least_iff; [|apply (least_min (λ x, DPMSEnabled s = true ∧ power_ahead s1 idle x) (ScreenSaverTime s - idle) r1); [lia|exact Hleast]].
    intros x. rewrite Hahead. cbn beta. split; [intros [->|?]; [right; left; split_and!; auto; lia|by left]|intros [?|[?|?]]; [by right|left; tauto|lia]]. }
  destruct (dixSaveScreens_saved ops T s1 t) as (rc & s2 & -> & Hs2 & El2 & Hsv). cbn [mbind result_bind]. pose proof Hs2 as (_ & _ & F2 & _). rewrite F2, E2.
  apply Hsub; try done; [|intros _ _; by rewrite <- (Hon El)].
  destruct (Z.ltb_spec 0 (ScreenSaverInterval s)).
  - eapply least_iff; [|apply (least_min (λ x, DPMSEnabled s = true ∧ power_ahead s1 idle x) (ScreenSaverInterval s) r1); [lia|exact Hleast]].
    intros x. rewrite Hahead. cbn beta. split; [intros [->|?]; [right; right; split_and!; auto; lia|by left]|intros [?|[?|?]]; [by right|lia|left; tauto]].
  - eapply least_iff; [|exact Hleast]. intros x. rewrite Hahead. split; [by left|]. intros [?|[?|?]]; [done|lia|lia].
Qed.

(** An event that comes after the time was read makes the time without input negative, and
    all power levels due. *)
Definition one_screen : Display := mkDisplay SCREEN_SAVER_OFF [mkScreen false SCREEN_ISNT_SAVED false true] [] 1 1 [].
Definition demo_ops : ScreenOps := mkScreenOps (λ _ _ _, Success) (λ _ _ _, true) (λ _ _ _ _, false) (λ _ _ _, true) (λ _ _, true) (λ _, (0, 0)).
Definition no_timers : TState := mkT [] ∅ 0 [] 0 [] [].
Definition demo_calls : SaverTimers := mkSaverTimers (λ _ _ _ _ s, Ok (0, s)) 0 2.
Definition level_of (r : result (Z * Saver * TState)) : option Z := match r with Ok (_, s, _) => Some (DPMSPowerLevel s) | Err _ => None end.

Lemma negative_idle_powers_off :
  let s := mkSaver true 600000 900000 1200000 DPMSModeOn 0 0 false None one_screen in
  level_of (ScreenSaverTimeoutExpire demo_ops demo_calls s no_timers 999 1000) = Some DPMSModeOff.
Proof. reflexivity. Qed.

(** The request accepts an earlier time for a deeper level when the level between is off; the
    timer then wakes up for the later one only. *)
Lemma unordered_times_are_late :
  ∃ s t, ProcDPMSSetTimeouts demo_calls 100 0 50 (mkSaver true 0 0 0 DPMSModeOn 0 0 false None one_screen) no_timers = Ok (Success, s, t) ∧
    DPMSOffTime s = 50000 ∧ saver_timeout s = 100000.
Proof. eexists _, _. split; [vm_compute; reflexivity|]. split; reflexivity. Qed.

Definition demo_saver : Saver := mkSaver true 600000 0 1200000 DPMSModeOn 300000 600000 false None one_screen.

Lemma ScreenSaverTimeoutExpire_correct_witness :
  ∃ r s', ScreenSaverTimeoutExpire demo_ops demo_calls demo_saver no_timers 300005 5 = Ok (r, s', no_timers) ∧ r = 300000 ∧
    least (ahead demo_saver 300000 (DPMSPowerLevel s')) r ∧
    sv_log s' = [ResetOsBuffers; SaveScreensFor serverClient SCREEN_SAVER_ON ScreenSaverActive; DriverSave 0 SCREEN_SAVER_ON].
Proof.
  assert (Hok : saver_ok demo_saver).
  { split; [|cbn; lia|cbn; unfold DPMSModeOn; lia]. intros m t Hin%in_modes. cbn in Hin. lia. }
  assert (Ho : ordered demo_saver).
  { intros m t m' t' H1%in_modes H2%in_modes. cbn in H1, H2. lia. }
  assert (Hi : 0 <= 300000 < 2 ^ 31) by lia.
  pose proof (ScreenSaverTimeoutExpire_correct demo_ops demo_calls demo_saver no_timers 5 300000 Hok Ho Hi) as H.
  assert (Eu : u32 (5 + 300000) = 300005) by (vm_compute; reflexivity). rewrite Eu in H.
  destruct H as (r & s' & E & _ & _ & Hl & _). exists r, s'. split; [exact E|].
  assert (E' : ∃ s', ScreenSaverTimeoutExpire demo_ops demo_calls demo_saver no_timers 300005 5 = Ok (300000, s', no_timers) ∧
    sv_log s' = [ResetOsBuffers; SaveScreensFor serverClient SCREEN_SAVER_ON ScreenSaverActive; DriverSave 0 SCREEN_SAVER_ON])
    by (eexists; vm_compute; split; reflexivity).
  destruct E' as (s2 & E2 & L2). rewrite E2 in E. injection E as <- <-. split; [reflexivity|]. split; [exact Hl|exact L2].
Defined.
