(* ===== verification/SaveSet.v ===== *)
(** * SaveSet: the save sets of clients (dix/dixutils.c)

    The windows that outlive a client, in an array that is resized with every change; the
    array may stay longer than the set when it cannot be shrunk. *)

From S2P Require Import Prelude Atom ResourceDB.

#[local] Set Warnings "-clear-no-such-hyp".

(** ** Data (include/dixstruct.h) *)

Record SaveSetElt := mkElt { SaveSetWindow : pointer; SaveSetToRoot : bool; SaveSetRemap : bool }.

(** The array, and how much of it is used. *)
Record SaveClient := mkSC { saveSet : list SaveSetElt; numSaved : nat }.

Inductive SetMode := SetModeInsert | SetModeDelete.

(** What is in a new slot before it is assigned. *)
Definition no_elt : SaveSetElt := mkElt 0 false false.

(** [xrealloc] to [n] elements. *)
Definition realloc_elts (l : list SaveSetElt) (n : nat) (o : oracle) : option (list SaveSetElt) * oracle :=
  let '(ok, o) := alloc o in (if ok : bool then Some (take n l ++ replicate (n - length l) no_elt) else None, o).

(** ** Operations *)

(** The first index from [j] on with the window; [n] are left. *)
Fixpoint find_saved (l : list SaveSetElt) (w : pointer) (n j : nat) : result nat :=
  match n with
  | O => Ok j
  | S n =>
      e ← of_option OutOfBounds (l !! j);
      if negb (SaveSetWindow e =? w) then find_saved l w n (S j) else Ok j
  end.

(** [while (j < numnow - 1) { pTmp[j] = pTmp[j+1]; j++; }] for [n] rounds. *)
Fixpoint shift_down (l : list SaveSetElt) (n j : nat) : result (list SaveSetElt) :=
  match n with
  | O => Ok l
  | S n => e ← of_option OutOfBounds (l !! S j); shift_down (<[j := e]> l) n (S j)
  end.

Definition AlterSaveSetForClient (client : SaveClient) (pWin : pointer) (mode : SetMode) (toRoot remap : bool) (o : oracle)
    : result (Status * SaveClient * oracle) :=
  let numnow := numSaved client in
  j ← find_saved (saveSet client) pWin numnow 0;
  match mode with
  | SetModeInsert =>
      if (j <? numnow)%nat then Ok (Success, client, o) else
      let '(m, o) := realloc_elts (saveSet client) (S numnow) o in
      match m with
      | None => Ok (BadAlloc, client, o)
      | Some l => Ok (Success, mkSC (<[numnow := mkElt pWin toRoot remap]> l) (S numnow), o)
      end
  | SetModeDelete =>
      if (j <? numnow)%nat then
        l ← shift_down (saveSet client) (numnow - 1 - j) j;
        let numnow := (numnow - 1)%nat in
        if negb (numnow =? 0)%nat then
          let '(m, o) := realloc_elts l numnow o in
          Ok (Success, mkSC (default l m) numnow, o)
        else Ok (Success, mkSC [] numnow, o)
      else Ok (Success, client, o)
  end.

(** [clients], of which some slots are empty. *)
Fixpoint DeleteWindowFromAnySaveSet (clients : list (option SaveClient)) (pWin : pointer) (o : oracle)
    : result (list (option SaveClient) * oracle) :=
  match clients with
  | [] => Ok ([], o)
  | c :: clients =>
      '(c, o) ← (match c with
                 | Some c => if negb (numSaved c =? 0)%nat then '(_, c, o) ← AlterSaveSetForClient c pWin SetModeDelete false true o; Ok (Some c, o)
                             else Ok (Some c, o)
                 | None => Ok (None, o)
                 end);
      '(clients, o) ← DeleteWindowFromAnySaveSet clients pWin o;
      Ok (c :: clients, o)
  end.

(** ** The set *)

Definition saved (c : SaveClient) : list SaveSetElt := take (numSaved c) (saveSet c).

Record save_ok (c : SaveClient) : Prop := {
  sv_room : (numSaved c <= length (saveSet c))%nat;
  sv_nodup : NoDup (SaveSetWindow <$> saved c)
}.

Lemma find_saved_ok l w n j :
  (j + n <= length l)%nat ->
  (∃ l1 e l2, take n (drop j l) = l1 ++ e :: l2 ∧ SaveSetWindow e = w ∧ w ∉ SaveSetWindow <$> l1 ∧ find_saved l w n j = Ok (j + length l1)%nat) ∨
  (w ∉ SaveSetWindow <$> take n (drop j l) ∧ find_saved l w n j = Ok (j + n)%nat).
Proof.
  revert j. induction n as [|n IH]; intros j Hn; cbn [find_saved].
  { right. split; [apply not_elem_of_nil|]. f_equal. lia. }
  destruct (lookup_lt_is_Some_2 l j) as [e He]; [lia|]. rewrite He. cbn [of_option mbind result_bind].
  rewrite (drop_S _ _ _ He). cbn [take]. destruct (Z.eqb_spec (SaveSetWindow e) w) as [E|E]; cbn [negb].
  { left. exists [], e, (take n (drop (S j) l)). split_and!; [done|done|apply not_elem_of_nil|f_equal; simpl; lia]. }
  destruct (IH (S j)) as [(l1 & e' & l2 & -> & Hw & Hn1 & ->)|[Hn1 ->]]; [lia| |].
  - left. exists (e :: l1), e', l2. split_and!; try done; [rewrite fmap_cons; by apply not_elem_of_cons|f_equal; simpl; lia].
  - right. split; [rewrite fmap_cons; by apply not_elem_of_cons|f_equal; lia].
Qed.

Lemma shift_down_ok l1 e l2 l3 :
  shift_down (l1 ++ e :: l2 ++ l3) (length l2) (length l1) = Ok (l1 ++ l2 ++ (default e (last l2)) :: l3).
Proof.
  revert l1 e. induction l2 as [|x l2 IH]; intros l1 e; [done|]. cbn [length shift_down app].
  rewrite lookup_app_r by lia. replace (S (length l1) - length l1)%nat with 1%nat by lia. cbn [lookup list_lookup of_option mbind result_bind].
  rewrite insert_app_r_alt by done. replace (length l1 - length l1)%nat with 0%nat by lia. cbn [insert list_insert].
  specialize (IH (l1 ++ [x]) x). rewrite length_app in IH. cbn [length] in IH. replace (S (length l1)) with (length l1 + 1)%nat by lia.
  rewrite <- app_assoc in IH. cbn [app] in IH. rewrite IH. f_equal. rewrite <- app_assoc. cbn [app]. do 3 f_equal.
  rewrite last_cons. destruct (last l2); done.
Qed.

Lemma filter_windows w l1 e l2 :
  NoDup (SaveSetWindow <$> l1 ++ e :: l2) -> SaveSetWindow e = w -> filter (λ x, SaveSetWindow x ≠ w) (l1 ++ e :: l2) = l1 ++ l2.
Proof.
  intros Hn He. rewrite fmap_app, fmap_cons in Hn. apply NoDup_app in Hn as (_ & Hd & Hn). apply NoDup_cons in Hn as [Hn _].
  rewrite filter_app, filter_cons, decide_False by (intros H; by apply H). f_equal; apply list_filter_all; intros x Hx E.
  - apply (Hd w); [|rewrite He; by left]. apply list_elem_of_fmap. by exists x.
  - apply Hn. rewrite He. apply list_elem_of_fmap. by exists x.
Qed.

Lemma saved_length c : save_ok c -> length (saved c) = numSaved c.
Proof. intros [H _]. unfold saved. rewrite length_take. lia. Qed.

Lemma delete_saved c w toRoot remap o :
  save_ok c ->
  ∃ c' o', AlterSaveSetForClient c w SetModeDelete toRoot remap o = Ok (Success, c', o') ∧ save_ok c' ∧
    saved c' = filter (λ x, SaveSetWindow x ≠ w) (saved c).
Proof.
  intros Hc. pose proof (saved_length c Hc) as Hlen. destruct Hc as [Hr Hn]. unfold AlterSaveSetForClient.
  destruct (find_saved_ok (saveSet c) w (numSaved c) 0) as [(l1 & e & l2 & E & Hw & Hn1 & ->)|[Hn1 ->]]; [lia| |]; cbn [mbind result_bind]; rewrite drop_0 in *.
  2: { rewrite (proj2 (Nat.ltb_ge _ _)) by lia. exists c, o. split_and!; try done. symmetry. apply list_filter_all. intros x Hx Ex.
       apply Hn1. apply list_elem_of_fmap. by exists x. }
  fold (saved c) in E. rewrite E in Hlen, Hn |- *. rewrite length_app in Hlen. cbn [length] in Hlen.
  rewrite (proj2 (Nat.ltb_lt _ _)) by lia. assert (Es : saveSet c = l1 ++ e :: l2 ++ drop (numSaved c) (saveSet c)).
  { rewrite <- (take_drop (numSaved c) (saveSet c)) at 1. fold (saved c). rewrite E, <- app_assoc. done. }
  replace (numSaved c - 1 - (0 + length l1))%nat with (length l2) by lia. cbn [Nat.add].
  assert (Hsh : shift_down (saveSet c) (length l2) (length l1) = Ok (l1 ++ l2 ++ default e (last l2) :: drop (numSaved c) (saveSet c)))
    by (rewrite Es at 1; apply shift_down_ok).
  rewrite Hsh. cbn [mbind result_bind].
  rewrite (filter_windows w l1 e l2 Hn Hw).
  assert (Hnd : NoDup (SaveSetWindow <$> l1 ++ l2)).
  { rewrite <- (filter_windows w l1 e l2 Hn Hw). clear -Hn. revert Hn. generalize (l1 ++ e :: l2). intros l. induction l as [|x l IH]; [done|].
    rewrite fmap_cons, filter_cons. intros [H1 H2]%NoDup_cons. destruct (decide _); [|by apply IH]. rewrite fmap_cons. apply NoDup_cons. split; [|by apply IH].
    intros (y & Ey & Hy)%list_elem_of_fmap. apply H1. apply list_elem_of_filter in Hy as [_ Hy]. rewrite Ey. apply list_elem_of_fmap. by exists y. }
  assert (Hok : ∀ l, take (length l1 + length l2) l = l1 ++ l2 -> (length l1 + length l2 <= length l)%nat ->
    save_ok (mkSC l (length l1 + length l2)) ∧ saved (mkSC l (length l1 + length l2)) = l1 ++ l2).
  { intros l El Hl. unfold saved. cbn [numSaved saveSet]. split; [|done]. split; [done|]. unfold saved. cbn [numSaved saveSet]. by rewrite El. }
  replace (numSaved c - 1)%nat with (length l1 + length l2)%nat by lia. destruct (Nat.eqb_spec (length l1 + length l2) 0) as [E0|E0]; cbn [negb].
  { eexists _, _. split; [done|]. rewrite E0 in *. destruct l1; [|simpl in E0; lia]. destruct l2; [|simpl in E0; lia]. by apply (Hok []). }
  set (l := l1 ++ l2 ++ default e (last l2) :: drop (numSaved c) (saveSet c)).
  assert (Etake : take (length l1 + length l2) l = l1 ++ l2) by (unfold l; rewrite app_assoc; apply take_app_length'; by rewrite length_app).
  assert (Hll : (length l1 + length l2 <= length l)%nat) by (unfold l; rewrite !length_app; lia).
  unfold realloc_elts. destruct (alloc o) as [[] o']; eexists _, _; (split; [done|]); cbn [from_option Datatypes.id]; apply Hok; try done.
  - rewrite Etake. rewrite take_app_length' by (by rewrite length_app). done.
  - rewrite Etake, length_app, length_app, length_replicate. lia.
Qed.

Lemma insert_saved c w toRoot remap o :
  save_ok c ->
  ∃ st c' o', AlterSaveSetForClient c w SetModeInsert toRoot remap o = Ok (st, c', o') ∧ save_ok c' ∧
    if decide (w ∈ SaveSetWindow <$> saved c) then st = Success ∧ c' = c
    else if st is Success then saved c' = saved c ++ [mkElt w toRoot remap] else st = BadAlloc ∧ c' = c ∧ may_fail o.
Proof.
  intros Hc. pose proof (saved_length c Hc) as Hlen. pose proof Hc as [Hr Hn]. unfold AlterSaveSetForClient.
  destruct (find_saved_ok (saveSet c) w (numSaved c) 0) as [(l1 & e & l2 & E & Hw & Hn1 & ->)|[Hn1 ->]]; [lia| |]; cbn [mbind result_bind]; rewrite drop_0 in *.
  { fold (saved c) in E. rewrite E in Hlen |- *. rewrite length_app in Hlen. cbn [length] in Hlen. rewrite (proj2 (Nat.ltb_lt _ _)) by lia.
    eexists _, _, _. split; [done|]. split; [done|]. rewrite decide_True; [done|]. rewrite fmap_app, fmap_cons, Hw. apply elem_of_app. right. by left. }
  fold (saved c) in Hn1. rewrite (proj2 (Nat.ltb_ge _ _)) by lia. unfold realloc_elts. pose proof (alloc_spec o) as Ho.
  destruct (alloc o) as [[] o'].
  2: { eexists _, _, _. split; [done|]. split; [done|]. rewrite decide_False by done. split_and!; try done. by apply (proj1 (Ho false o' eq_refl)). }
  set (l := take (S (numSaved c)) (saveSet c) ++ replicate (S (numSaved c) - length (saveSet c)) no_elt).
  assert (Hl : (S (numSaved c) <= length l)%nat) by (unfold l; rewrite length_app, length_take, length_replicate; lia).
  assert (Etake : take (S (numSaved c)) (<[numSaved c := mkElt w toRoot remap]> l) = saved c ++ [mkElt w toRoot remap]).
  { rewrite (take_S_r _ _ (mkElt w toRoot remap)) by (apply list_lookup_insert_eq; lia). f_equal. rewrite take_insert_ge by lia.
    unfold l, saved. rewrite take_app_le by (rewrite length_take; lia). rewrite take_take. f_equal. lia. }
  eexists _, _, _. split; [done|]. split; [|rewrite decide_False by done; exact Etake]. split; cbn [numSaved saveSet]; [by rewrite length_insert|].
  unfold saved. cbn [numSaved saveSet]. rewrite Etake, fmap_app. apply NoDup_app. split_and!; [done| |apply NoDup_singleton].
  intros x Hx ->%list_elem_of_singleton. done.
Qed.

Definition clients_ok (cs : list (option SaveClient)) : Prop := ∀ c, Some c ∈ cs -> save_ok c.

(** C38: the save set of a client is a set of windows in the order in which they were inserted: inserting a window that is there changes nothing, inserting another appends it or fails without memory and changes nothing, deleting takes it out and never fails, even when the array cannot be shrunk; a window that is destroyed leaves the sets of all clients, and the array is never accessed out of bounds. *)
Theorem save_sets_refine (w : pointer) (toRoot remap : bool) (o : oracle) :
  (∀ c, save_ok c -> ∃ st c' o', AlterSaveSetForClient c w SetModeInsert toRoot remap o = Ok (st, c', o') ∧ save_ok c' ∧
    if decide (w ∈ SaveSetWindow <$> saved c) then st = Success ∧ c' = c
    else if st is Success then saved c' = saved c ++ [mkElt w toRoot remap] else st = BadAlloc ∧ c' = c ∧ may_fail o) ∧
  (∀ c, save_ok c -> ∃ c' o', AlterSaveSetForClient c w SetModeDelete toRoot remap o = Ok (Success, c', o') ∧ save_ok c' ∧
    saved c' = filter (λ x, SaveSetWindow x ≠ w) (saved c)) ∧
  (∀ cs, clients_ok cs -> ∃ cs' o', DeleteWindowFromAnySaveSet cs w o = Ok (cs', o') ∧ clients_ok cs' ∧
    map (option_map saved) cs' = map (option_map (λ c, filter (λ x, SaveSetWindow x ≠ w) (saved c))) cs).
Proof.
  split_and!; [intros c; apply insert_saved|intros c; apply delete_saved|]. intros cs. revert o. induction cs as [|c cs IH]; intros o Hcs; cbn [DeleteWindowFromAnySaveSet].
  { by exists [], o. }
  assert (Hc : ∃ c' o1, (match c with
      | Some c => if negb (numSaved c =? 0)%nat then '(_, c, o) ← AlterSaveSetForClient c w SetModeDelete false true o; Ok (Some c, o) else Ok (Some c, o)
      | None => Ok (None, o) end) = Ok (c', o1) ∧ (∀ x, c' = Some x -> save_ok x) ∧ option_map saved c' = option_map (λ c, filter (λ x, SaveSetWindow x ≠ w) (saved c)) c).
  { destruct c as [c|]; [|by exists None, o]. assert (Hok : save_ok c) by (apply Hcs; by left). destruct (Nat.eqb_spec (numSaved c) 0) as [E|E]; cbn [negb].
    - exists (Some c), o. split; [done|]. split; [by intros ? [= <-]|]. simpl. f_equal. unfold saved. by rewrite E.
    - destruct (delete_saved c w false true o Hok) as (c' & o' & -> & Hok' & Es). cbn [mbind result_bind]. exists (Some c'), o'.
      split; [done|]. split; [by intros ? [= <-]|]. simpl. by rewrite Es. }
  destruct Hc as (c' & o1 & -> & Hc1 & Hc2). cbn [mbind result_bind].
  destruct (IH o1) as (cs' & o2 & -> & H1 & H2); [intros x Hx; apply Hcs; by right|]. cbn [mbind result_bind].
  exists (c' :: cs'), o2. split; [done|]. split; [|cbn [map]; by f_equal]. intros x Hx. apply elem_of_cons in Hx as [Hx|Hx]; [by apply Hc1|by apply H1].
Qed.

Definition demo_set : SaveClient := mkSC [mkElt 5 false true; mkElt 7 true false; mkElt 9 false false] 2.

Lemma save_sets_refine_witness :
  ∃ c' o', AlterSaveSetForClient demo_set 5 SetModeDelete false true [false] = Ok (Success, c', o') ∧ saved c' = [mkElt 7 true false].
Proof.
  destruct (save_sets_refine 5 false true [false]) as (_ & H & _). destruct (H demo_set) as (c' & o' & E & _ & Es).
  - split; [cbn; lia|]. cbn. apply NoDup_cons. split; [set_solver|apply NoDup_singleton].
  - exists c', o'. split; [exact E|]. rewrite Es. reflexivity.
Defined.
