(* ===== verification/BlockHandlers.v ===== *)
(** * BlockHandlers: what is called around waiting for input (dix/dixutils.c)

    Handlers in a growing array, called in order before the server sleeps and in reverse
    order after it wakes up.  Handlers may register and remove handlers: while they are
    called, removing one only marks it, and the marked ones leave when the round is over. *)

From S2P Require Import Prelude Atom ResourceDB.

#[local] Set Warnings "-clear-no-such-hyp".

(** ** Data *)

(** The two procedures and their data, and the mark. *)
Record BlockHandlerRec := mkHandler { bh_block : Z; bh_wakeup : Z; bh_data : Z; bh_deleted : bool }.

(** [handlers] are the slots in use, so [numHandlers] is their number; [inHandler] counts the
    rounds that are going on. *)
Record BHState := mkBH { handlers : list BlockHandlerRec; sizeHandlers : nat; inHandler : Z; handlerDeleted : bool; bh_mem : oracle }.

Definition set_handlers (s : BHState) (l : list BlockHandlerRec) : BHState := mkBH l (sizeHandlers s) (inHandler s) (handlerDeleted s) (bh_mem s).
Definition set_inHandler (s : BHState) (n : Z) : BHState := mkBH (handlers s) (sizeHandlers s) n (handlerDeleted s) (bh_mem s).
Definition set_handlerDeleted (s : BHState) (b : bool) : BHState := mkBH (handlers s) (sizeHandlers s) (inHandler s) b (bh_mem s).

Definition same_handler (b w d : Z) (h : BlockHandlerRec) : bool := (bh_block h =? b) && (bh_wakeup h =? w) && (bh_data h =? d).

Definition mark_deleted (h : BlockHandlerRec) : BlockHandlerRec := mkHandler (bh_block h) (bh_wakeup h) (bh_data h) true.

(** ** Registering *)

Definition RegisterBlockAndWakeupHandlers (s : BHState) (b w d : Z) : bool * BHState :=
  let new := mkHandler b w d false in
  if (sizeHandlers s <=? length (handlers s))%nat then
    let '(ok, o) := alloc (bh_mem s) in
    if ok then (true, mkBH (handlers s ++ [new]) (S (length (handlers s))) (inHandler s) (handlerDeleted s) o)
    else (false, mkBH (handlers s) (sizeHandlers s) (inHandler s) (handlerDeleted s) o)
  else (true, set_handlers s (handlers s ++ [new])).

(** The slots behind [i] move down by one. *)
Definition shift_out (i : nat) (l : list BlockHandlerRec) : list BlockHandlerRec := take i l ++ drop (S i) l.

(** The first slot from [i] on that holds the handler. *)
Fixpoint find_handler (b w d : Z) (i : nat) (l : list BlockHandlerRec) : option nat :=
  match l with
  | [] => None
  | h :: l => if same_handler b w d h then Some i else find_handler b w d (S i) l
  end.

Definition RemoveBlockAndWakeupHandlers (s : BHState) (b w d : Z) : BHState :=
  match find_handler b w d 0 (handlers s) with
  | None => s
  | Some i =>
      if negb (inHandler s =? 0) then set_handlers (set_handlerDeleted s true) (alter mark_deleted i (handlers s))
      else set_handlers s (shift_out i (handlers s))
  end.

Definition InitBlockAndWakeupHandlers (s : BHState) : BHState := mkBH [] 0 (inHandler s) (handlerDeleted s) (bh_mem s).

(** The loop that takes out the marked ones, from slot [i] on; [n] bounds its rounds. *)
Fixpoint compact_handlers (n i : nat) (l : list BlockHandlerRec) : result (list BlockHandlerRec) :=
  match l !! i with
  | None => Ok l
  | Some h =>
      match n with
      | O => Err OutOfFuel
      | S n => if bh_deleted h then compact_handlers n i (shift_out i l) else compact_handlers n (S i) l
      end
  end.

Definition finish_round (s : BHState) : result BHState :=
  s ← (if handlerDeleted s then
         l ← compact_handlers (length (handlers s)) 0 (handlers s);
         Ok (set_handlerDeleted (set_handlers s l) false)
       else Ok s);
  Ok (set_inHandler s (inHandler s - 1)).

(** ** The rounds *)

Section Rounds.
(** The handlers, by procedure and data, and those of the screens. *)
Context (run : Z -> Z -> BHState -> result BHState) (numScreens : nat) (run_screen : bool -> nat -> BHState -> result BHState).

(** The screens from [i] on, [n] of them. *)
Fixpoint call_screens (wakeup : bool) (n i : nat) (s : BHState) : result BHState :=
  match n with O => Ok s | S n => s ← run_screen wakeup i s; call_screens wakeup n (S i) s end.

(** [for (i = ...; i < numHandlers; i++)]: the handlers that are called, and the state. *)
Fixpoint block_loop (fuel i : nat) (s : BHState) : result (list BlockHandlerRec * BHState) :=
  match handlers s !! i with
  | None => Ok ([], s)
  | Some h =>
      match fuel with
      | O => Err OutOfFuel
      | S fuel => s ← run (bh_block h) (bh_data h) s; '(c, s) ← block_loop fuel (S i) s; Ok (h :: c, s)
      end
  end.

Definition BlockHandler (fuel : nat) (s : BHState) : result (list BlockHandlerRec * BHState) :=
  let s := set_inHandler s (inHandler s + 1) in
  s ← call_screens false numScreens 0 s;
  '(c, s) ← block_loop fuel 0 s;
  s ← finish_round s;
  Ok (c, s).

(** The handlers below slot [i], from the last to the first. *)
Fixpoint wakeup_loop (i : nat) (s : BHState) : result (list BlockHandlerRec * BHState) :=
  match i with
  | O => Ok ([], s)
  | S i => h ← of_option OutOfBounds (handlers s !! i); s ← run (bh_wakeup h) (bh_data h) s; '(c, s) ← wakeup_loop i s; Ok (h :: c, s)
  end.

Definition WakeupHandler (s : BHState) : result (list BlockHandlerRec * BHState) :=
  let s := set_inHandler s (inHandler s + 1) in
  '(c, s) ← wakeup_loop (length (handlers s)) s;
  s ← call_screens true numScreens 0 s;
  s ← finish_round s;
  Ok (c, s).
End Rounds.

(** ** Compaction *)

Lemma compact_handlers_ok n l1 l2 :
  (length l2 <= n)%nat -> compact_handlers n (length l1) (l1 ++ l2) = Ok (l1 ++ filter (λ h, bh_deleted h = false) l2).
Proof.
  revert n l1. induction l2 as [|h l2 IH]; intros n l1 Hn; [|destruct n as [|n]; [simpl in Hn; lia|]].
  - destruct n; cbn [compact_handlers filter list_filter]; rewrite app_nil_r, lookup_ge_None_2 by lia; done.
  - cbn [compact_handlers]. rewrite list_lookup_middle by done. rewrite filter_cons. destruct (bh_deleted h) eqn:E.
    + rewrite decide_False by done. unfold shift_out. rewrite take_app_length, drop_app_ge by lia.
      replace (S (length l1) - length l1)%nat with 1%nat by lia. cbn [drop]. apply IH. simpl in Hn. lia.
    + rewrite decide_True by done. specialize (IH n (l1 ++ [h])). rewrite length_app in IH. cbn [length] in IH.
      replace (S (length l1)) with (length l1 + 1)%nat by lia. rewrite <- !app_assoc in IH. apply IH. simpl in Hn. lia.
Qed.

(** ** What handlers do during a round *)

Definition handler_key (h : BlockHandlerRec) : Z * Z * Z := (bh_block h, bh_wakeup h, bh_data h).

(** Handlers stay at their slots but may be marked; new ones come behind. *)
Record evolves (s s' : BHState) : Prop := {
  ev_old : ∀ i h, handlers s !! i = Some h -> ∃ h', handlers s' !! i = Some h' ∧ handler_key h' = handler_key h ∧ (bh_deleted h = true -> bh_deleted h' = true);
  ev_in : inHandler s' = inHandler s
}.

(** There is room, and the flag says when there are marks. *)
Record bh_ok (s : BHState) : Prop := {
  bo_room : (length (handlers s) <= sizeHandlers s)%nat;
  bo_flag : ∀ h, h ∈ handlers s -> bh_deleted h = true -> handlerDeleted s = true
}.

Lemma evolves_refl s : evolves s s.
Proof. split; [|done]. intros i h H. by exists h. Qed.

Lemma evolves_trans s1 s2 s3 : evolves s1 s2 -> evolves s2 s3 -> evolves s1 s3.
Proof.
  intros [O1 I1] [O2 I2]. split; [|congruence]. intros i h H. destruct (O1 i h H) as (h' & H' & K1 & D1). destruct (O2 i h' H') as (h'' & H'' & K2 & D2).
  exists h''. split_and!; [done|congruence|auto].
Qed.

Lemma evolves_length s s' : evolves s s' -> (length (handlers s) <= length (handlers s'))%nat.
Proof.
  intros [H _]. destruct (Nat.le_gt_cases (length (handlers s)) (length (handlers s'))) as [|Hlt]; [done|].
  destruct (lookup_lt_is_Some_2 (handlers s) (length (handlers s'))) as [h Hh]; [done|]. destruct (H _ _ Hh) as (h' & Hh' & _).
  apply lookup_lt_Some in Hh'. lia.
Qed.

(** Registering and removing are such changes. *)
Lemma Register_evolves s b w d :
  bh_ok s -> evolves s (RegisterBlockAndWakeupHandlers s b w d).2 ∧ bh_ok (RegisterBlockAndWakeupHandlers s b w d).2.
Proof.
  intros [H1 H2]. assert (Hev : ∀ s', handlers s' = handlers s ++ [mkHandler b w d false] -> inHandler s' = inHandler s -> handlerDeleted s' = handlerDeleted s ->
    (S (length (handlers s)) <= sizeHandlers s')%nat -> evolves s s' ∧ bh_ok s').
  { intros s' E1 E2 E3 E4. split; split; rewrite ?E1, ?E2, ?E3; try done.
    - intros i h Hh. exists h. split; [|done]. by apply lookup_app_l_Some.
    - rewrite length_app. simpl. lia.
    - intros h Hh. apply elem_of_app in Hh as [Hh|Hh]; [by apply H2|]. apply list_elem_of_singleton in Hh as ->. done. }
  unfold RegisterBlockAndWakeupHandlers. destruct (Nat.leb_spec (sizeHandlers s) (length (handlers s))).
  - destruct (alloc (bh_mem s)) as [[] o]; [by apply Hev|]. split; [apply (evolves_trans _ s); [apply evolves_refl|]; split; [|done]; intros i h Hh; by exists h|by split].
  - apply Hev; try done.
Qed.

Lemma find_handler_ok b w d k l i : find_handler b w d k l = Some i -> ∃ j h, i = (k + j)%nat ∧ l !! j = Some h ∧ same_handler b w d h = true.
Proof.
  revert k. induction l as [|h l IH]; intros k; cbn [find_handler]; [done|]. destruct (same_handler b w d h) eqn:E.
  - intros [= <-]. exists 0%nat, h. split_and!; [lia|done|done].
  - intros H. destruct (IH _ H) as (j & h' & -> & Hj & Hs). exists (S j), h'. split_and!; [lia|done|done].
Qed.

Lemma Remove_evolves s b w d :
  bh_ok s -> inHandler s <> 0 -> evolves s (RemoveBlockAndWakeupHandlers s b w d) ∧ bh_ok (RemoveBlockAndWakeupHandlers s b w d).
Proof.
  intros [H1 H2] Hin. unfold RemoveBlockAndWakeupHandlers. destruct (find_handler _ _ _ _ _) as [i|]; [|split; [apply evolves_refl|done]].
  rewrite (proj2 (Z.eqb_neq _ 0)) by done. cbn [negb]. split; split; cbn [handlers set_handlers set_handlerDeleted sizeHandlers handlerDeleted]; try done.
  - intros j h Hh. destruct (decide (i = j)) as [<-|Hne].
    + exists (mark_deleted h). by rewrite list_lookup_alter_eq, Hh.
    + exists h. by rewrite list_lookup_alter_ne.
  - by rewrite length_alter.
Qed.

(** The operations a handler can use. *)
Inductive bh_op := OpRegister (b w d : Z) | OpRemove (b w d : Z).

Definition run_op (op : bh_op) (s : BHState) : BHState :=
  match op with
  | OpRegister b w d => (RegisterBlockAndWakeupHandlers s b w d).2
  | OpRemove b w d => RemoveBlockAndWakeupHandlers s b w d
  end.

Definition run_ops (ops : list bh_op) (s : BHState) : BHState := fold_left (fun s op => run_op op s) ops s.

(** What each is to do.  A registration goes to the end of the list, or is refused when the
    array is full and there is no memory for a larger one.  A removal concerns the first equal
    registration, marked or not: during a round it gets the mark, otherwise it is taken out. *)
Inductive did : bh_op -> BHState -> BHState -> Prop :=
  | did_register b w d s s' :
      handlers s' = handlers s ++ [mkHandler b w d false] -> handlerDeleted s' = handlerDeleted s ->
      inHandler s' = inHandler s -> did (OpRegister b w d) s s'
  | did_refuse b w d s s' :
      (sizeHandlers s <= length (handlers s))%nat -> (alloc (bh_mem s)).1 = false ->
      handlers s' = handlers s -> handlerDeleted s' = handlerDeleted s -> inHandler s' = inHandler s ->
      did (OpRegister b w d) s s'
  | did_mark b w d s s' l1 h l2 :
      inHandler s <> 0 -> handlers s = l1 ++ h :: l2 -> handler_key h = (b, w, d) -> ((b, w, d) ∉ handler_key <$> l1) ->
      handlers s' = l1 ++ mkHandler b w d true :: l2 -> handlerDeleted s' = true -> inHandler s' = inHandler s ->
      did (OpRemove b w d) s s'
  | did_delete b w d s s' l1 h l2 :
      inHandler s = 0 -> handlers s = l1 ++ h :: l2 -> handler_key h = (b, w, d) -> ((b, w, d) ∉ handler_key <$> l1) ->
      handlers s' = l1 ++ l2 -> handlerDeleted s' = handlerDeleted s -> inHandler s' = inHandler s ->
      did (OpRemove b w d) s s'
  | did_nothing b w d s : ((b, w, d) ∉ handler_key <$> handlers s) -> did (OpRemove b w d) s s.

(** A sequence of operations. *)
Inductive performs : list bh_op -> BHState -> BHState -> Prop :=
  | performs_nil s : performs [] s s
  | performs_cons op ops s s' s'' : did op s s' -> performs ops s' s'' -> performs (op :: ops) s s''.

Lemma performs_app ops1 ops2 s s' s'' : performs ops1 s s' -> performs ops2 s' s'' -> performs (ops1 ++ ops2) s s''.
Proof. intros H1 H2. induction H1 as [|op ops s s1 s2 Hd H IH]; [done|]. simpl. econstructor; [done|by apply IH]. Qed.

Lemma same_handler_key b w d h : same_handler b w d h = true ↔ handler_key h = (b, w, d).
Proof.
  unfold same_handler, handler_key. rewrite !andb_true_iff, !Z.eqb_eq. split; [by intros [[-> ->] ->]|].
  intros [= <- <- <-]. done.
Qed.

Lemma find_handler_first b w d l : ∀ k,
  match find_handler b w d k l with
  | Some i => ∃ l1 h l2, i = (k + length l1)%nat ∧ l = l1 ++ h :: l2 ∧ handler_key h = (b, w, d) ∧ (b, w, d) ∉ handler_key <$> l1
  | None => (b, w, d) ∉ handler_key <$> l
  end.
Proof.
  induction l as [|h l IH]; intros k; cbn [find_handler]; [apply not_elem_of_nil|].
  destruct (same_handler b w d h) eqn:E.
  - apply same_handler_key in E. exists [], h, l. split_and!; [simpl; lia|done|done|apply not_elem_of_nil].
  - assert (Hne : handler_key h <> (b, w, d)) by (intros Hk; apply same_handler_key in Hk; congruence).
    specialize (IH (S k)). destruct (find_handler b w d (S k) l) as [i|].
    + destruct IH as (l1 & h' & l2 & -> & -> & Hk & Hn). exists (h :: l1), h', l2.
      split_and!; [simpl; lia|done|done|]. rewrite fmap_cons, not_elem_of_cons. split; [congruence|done].
    + rewrite fmap_cons, not_elem_of_cons. split; [congruence|done].
Qed.

(** The operations do it. *)
Lemma run_op_did op s : did op s (run_op op s).
Proof.
  destruct op as [b w d|b w d]; cbn [run_op].
  - unfold RegisterBlockAndWakeupHandlers. destruct (Nat.leb_spec (sizeHandlers s) (length (handlers s))).
    + destruct (alloc (bh_mem s)) as [[] o] eqn:E; [by apply did_register|]. apply did_refuse; try done. by rewrite E.
    + by apply did_register.
  - unfold RemoveBlockAndWakeupHandlers. pose proof (find_handler_first b w d (handlers s) 0) as H.
    destruct (find_handler b w d 0 (handlers s)) as [i|]; [|by apply did_nothing].
    destruct H as (l1 & h & l2 & -> & El & Hk & Hn). rewrite Nat.add_0_l, El.
    destruct (Z.eqb_spec (inHandler s) 0) as [Hz|Hz]; cbn [negb].
    + eapply did_delete; try done. cbn [handlers set_handlers]. unfold shift_out.
      rewrite take_app_length, drop_app_ge by lia. by replace (S (length l1) - length l1)%nat with 1%nat by lia.
    + eapply did_mark; try done. cbn [handlers set_handlers].
      replace (length l1) with (length l1 + 0)%nat by lia. rewrite alter_app_r. cbn. unfold mark_deleted.
      unfold handler_key in Hk. by injection Hk as -> -> ->.
Qed.

Lemma run_ops_performs ops s : performs ops s (run_ops ops s).
Proof. revert s. induction ops as [|op ops IH]; intros s; [constructor|]. econstructor; [apply run_op_did|apply IH]. Qed.

(** During a round, operations keep slots and invariant. *)
Lemma run_op_evolves op s : bh_ok s -> 0 < inHandler s -> evolves s (run_op op s) ∧ bh_ok (run_op op s).
Proof. intros Hs Hi. destruct op; [by apply Register_evolves|apply Remove_evolves; [done|lia]]. Qed.

Lemma run_ops_evolves ops s : bh_ok s -> 0 < inHandler s -> evolves s (run_ops ops s) ∧ bh_ok (run_ops ops s).
Proof.
  revert s. induction ops as [|op ops IH]; intros s Hs Hi; [by split; [apply evolves_refl|]|].
  destruct (run_op_evolves op s Hs Hi) as [He Hok]. destruct (IH (run_op op s) Hok) as [He2 Hok2].
  { by rewrite (ev_in _ _ He). }
  split; [by eapply evolves_trans|done].
Qed.

(** Slots as seen by [did], during a round. *)
Lemma did_evolves op s s' : did op s s' -> inHandler s <> 0 -> evolves s s'.
Proof.
  intros H Hi. destruct H as [b w d s s' E _ Ei|b w d s s' _ _ E _ Ei|b w d s s' l1 h l2 _ E Hk _ E' _ Ei|b w d s s' l1 h l2 Hz|b w d s _];
    [| | |done|apply evolves_refl]; (split; [|done]); intros i x Hx.
  - exists x. rewrite E. split; [by apply lookup_app_l_Some|done].
  - exists x. by rewrite E.
  - rewrite E in Hx. rewrite E'. destruct (decide (i = length l1)) as [->|Hne].
    + rewrite list_lookup_middle in Hx by done. injection Hx as <-. exists (mkHandler b w d true).
      rewrite list_lookup_middle by done. by split_and!.
    + exists x. split; [|done]. destruct (Nat.lt_ge_cases i (length l1)).
      * by rewrite lookup_app_l in Hx |- * by done.
      * rewrite lookup_app_r in Hx |- * by done. destruct (i - length l1)%nat eqn:Es; [lia|done].
Qed.

Lemma performs_evolves ops s s' : performs ops s s' -> inHandler s <> 0 -> evolves s s'.
Proof.
  induction 1 as [|op ops s s1 s2 Hd H IH]; intros Hi; [apply evolves_refl|].
  pose proof (did_evolves _ _ _ Hd Hi) as He. eapply evolves_trans; [done|]. apply IH. by rewrite (ev_in _ _ He).
Qed.

(** A handler that was removed, and is registered only once, has the mark. *)
Lemma performs_removed ops s s' b w d i j :
  performs ops s s' -> inHandler s <> 0 -> OpRemove b w d ∈ ops ->
  (handler_key <$> handlers s) !! i = Some (b, w, d) ->
  (∀ j, (handler_key <$> handlers s') !! j = Some (b, w, d) -> j = i) ->
  (handler_key <$> handlers s') !! j = Some (b, w, d) -> bh_deleted <$> handlers s' !! j = Some true.
Proof.
  intros H. revert i j. induction H as [s|op ops s s1 s2 Hd H IH]; intros i j Hi Hop Hs Hu Hj; [by apply elem_of_nil in Hop|].
  pose proof (did_evolves _ _ _ Hd Hi) as He. assert (Hi1 : inHandler s1 <> 0) by (by rewrite (ev_in _ _ He)).
  pose proof (performs_evolves _ _ _ H Hi1) as He2.
  assert (Hkeys : ∀ i, (handler_key <$> handlers s) !! i = Some (b, w, d) -> (handler_key <$> handlers s2) !! i = Some (b, w, d)).
  { intros k Hk. rewrite list_lookup_fmap in Hk |- *. apply fmap_Some in Hk as (x & Hx & Ek).
    destruct (ev_old _ _ (evolves_trans _ _ _ He He2) k x Hx) as (x' & -> & E & _). simpl. by rewrite E, <- Ek. }
  apply elem_of_cons in Hop as [<-|Hop].
  - inversion Hd as [| |? ? ? ? ? l1 h l2 _ E Hk Hn E' _ _|? ? ? ? ? ? ? ? Hz|? ? ? ? Hno]; subst; [|done|].
    + assert (Hl : (handler_key <$> handlers s) !! length l1 = Some (b, w, d)) by (by rewrite list_lookup_fmap, E, list_lookup_middle, <- Hk).
      assert (j = length l1) as -> by (rewrite (Hu _ Hj); symmetry; apply Hu; by apply Hkeys).
      destruct (ev_old _ _ He2 (length l1) (mkHandler b w d true)) as (x & Hx & _ & Hdel).
      { by rewrite E', list_lookup_middle. }
      rewrite Hx. simpl. by rewrite Hdel.
    + exfalso. apply Hno. by eapply list_elem_of_lookup_2.
  - eapply IH; try done. rewrite list_lookup_fmap in Hs |- *. apply fmap_Some in Hs as (x & Hx & Ek).
    destruct (ev_old _ _ He i x Hx) as (x' & -> & E & _). simpl. by rewrite E, <- Ek.
Qed.

(** A handler that is not removed keeps its registrations without a mark. *)
Lemma performs_kept ops s s' b w d i x :
  performs ops s s' -> inHandler s <> 0 -> (OpRemove b w d ∉ ops) ->
  (∀ h, h ∈ handlers s -> handler_key h = (b, w, d) -> bh_deleted h = false) ->
  handlers s' !! i = Some x -> handler_key x = (b, w, d) -> bh_deleted x = false.
Proof.
  intros H. revert i x. induction H as [s|op ops s s1 s2 Hd H IH]; intros i x Hi Hop Hs Hx Hk.
  { apply Hs; [by eapply list_elem_of_lookup_2|done]. }
  apply not_elem_of_cons in Hop as [Hne Hop].
  apply (IH i x); [by rewrite (ev_in _ _ (did_evolves _ _ _ Hd Hi))|done| |done|done].
  intros h Hh Eh. destruct Hd as [b' w' d' s s' E _ _|b' w' d' s s' _ _ E _ _|b' w' d' s s' l1 h' l2 _ E Hk' _ E' _ _|b' w' d' s s' l1 h' l2 Hz|b' w' d' s _].
  - rewrite E in Hh. apply elem_of_app in Hh as [Hh|Hh]; [by apply Hs|]. apply list_elem_of_singleton in Hh. by subst.
  - rewrite E in Hh. by apply Hs.
  - rewrite E' in Hh. apply elem_of_app in Hh as [Hh|Hh]; [|apply elem_of_cons in Hh as [->|Hh]].
    + apply Hs; [rewrite E; apply elem_of_app; by left|done].
    + unfold handler_key in Eh. simpl in Eh. by injection Eh as -> -> ->.
    + apply Hs; [rewrite E; apply elem_of_app; right; by right|done].
  - done.
  - by apply Hs.
Qed.

(** What a round relies on: handlers use the operations above, and register so many that the
    measure [pot] covers them.  They do not start a round of their own. *)
Class Handlers (run : Z -> Z -> BHState -> result BHState) (pot : BHState -> nat) : Prop := {
  hd_runs : ∀ f d s, bh_ok s -> 0 < inHandler s ->
    ∃ ops, run f d s = Ok (run_ops ops s) ∧ (length (handlers (run_ops ops s)) + pot (run_ops ops s) <= length (handlers s) + pot s)%nat
}.

Section Correct.
Context (run : Z -> Z -> BHState -> result BHState) (numScreens : nat) (run_screen : bool -> nat -> BHState -> result BHState) (pot : BHState -> nat).
Context {handlers_run : Handlers run pot} (screens : ∀ b, Handlers (λ i _, run_screen b (Z.to_nat i)) pot).

Lemma call_screens_ok b n i s :
  bh_ok s -> 0 < inHandler s ->
  ∃ ops s', call_screens run_screen b n i s = Ok s' ∧ bh_ok s' ∧ performs ops s s' ∧ evolves s s' ∧ (length (handlers s') + pot s' <= length (handlers s) + pot s)%nat.
Proof.
  revert i s. induction n as [|n IH]; intros i s Hs Hin; cbn [call_screens]; [exists [], s; split_and!; auto using evolves_refl, performs_nil|].
  destruct (@hd_runs _ _ (screens b) (Z.of_nat i) 0 s Hs Hin) as (ops1 & E & Hp1). rewrite Nat2Z.id in E. rewrite E. cbn [mbind result_bind].
  destruct (run_ops_evolves ops1 s Hs Hin) as [Hev1 Hs1].
  destruct (IH (S i) (run_ops ops1 s) Hs1) as (ops2 & s2 & -> & Hs2 & Hops & Hev2 & Hp2); [by rewrite (ev_in _ _ Hev1)|].
  exists (ops1 ++ ops2), s2. split_and!; [done|done|by eapply performs_app; [apply run_ops_performs|]|by eapply evolves_trans|lia].
Qed.

Lemma block_loop_ok fuel i s :
  bh_ok s -> 0 < inHandler s -> (length (handlers s) + pot s <= i + fuel)%nat -> (i <= length (handlers s))%nat ->
  ∃ ops c s', block_loop run fuel i s = Ok (c, s') ∧ bh_ok s' ∧ performs ops s s' ∧ evolves s s' ∧ handler_key <$> c = drop i (handler_key <$> handlers s').
Proof.
  revert i s. induction fuel as [|fuel IH]; intros i s Hs Hin Hf Hi; cbn [block_loop].
  { rewrite lookup_ge_None_2 by lia. exists [], [], s. split_and!; auto using evolves_refl, performs_nil. rewrite drop_ge; [done|]. rewrite length_fmap. lia. }
  destruct (handlers s !! i) as [h|] eqn:Eh.
  2: { exists [], [], s. split_and!; auto using evolves_refl, performs_nil. apply lookup_ge_None_1 in Eh. rewrite drop_ge; [done|]. rewrite length_fmap. lia. }
  pose proof (lookup_lt_Some _ _ _ Eh). destruct (@hd_runs run pot handlers_run (bh_block h) (bh_data h) s Hs Hin) as (ops1 & -> & Hp1). cbn [mbind result_bind].
  destruct (run_ops_evolves ops1 s Hs Hin) as [Hev1 Hs1]. pose proof (run_ops_performs ops1 s) as Hops1. set (s1 := run_ops ops1 s) in *.
  pose proof (evolves_length _ _ Hev1). destruct (IH (S i) s1 Hs1) as (ops2 & c & s2 & -> & Hs2 & Hops2 & Hev2 & Hc); [by rewrite (ev_in _ _ Hev1)|lia|lia|]. cbn [mbind result_bind].
  exists (ops1 ++ ops2), (h :: c), s2. split_and!; try done; [by eapply performs_app|by eapply evolves_trans|].
  destruct (ev_old _ _ (evolves_trans _ _ _ Hev1 Hev2) i h Eh) as (h' & Eh' & Ek & _). rewrite fmap_cons, Hc.
  assert (Ei : (handler_key <$> handlers s2) !! i = Some (handler_key h')) by (by rewrite list_lookup_fmap, Eh').
  by rewrite (drop_S _ _ _ Ei), Ek.
Qed.

Lemma wakeup_loop_ok i s :
  bh_ok s -> 0 < inHandler s -> (i <= length (handlers s))%nat ->
  ∃ ops c s', wakeup_loop run i s = Ok (c, s') ∧ bh_ok s' ∧ performs ops s s' ∧ evolves s s' ∧ handler_key <$> c = reverse (take i (handler_key <$> handlers s)).
Proof.
  revert s. induction i as [|i IH]; intros s Hs Hin Hi; cbn [wakeup_loop]; [exists [], [], s; split_and!; auto using evolves_refl, performs_nil|].
  destruct (lookup_lt_is_Some_2 (handlers s) i) as [h Eh]; [lia|]. rewrite Eh. cbn [of_option mbind result_bind].
  destruct (@hd_runs run pot handlers_run (bh_wakeup h) (bh_data h) s Hs Hin) as (ops1 & -> & Hp1). cbn [mbind result_bind].
  destruct (run_ops_evolves ops1 s Hs Hin) as [Hev1 Hs1]. pose proof (run_ops_performs ops1 s) as Hops1. set (s1 := run_ops ops1 s) in *.
  pose proof (evolves_length _ _ Hev1). destruct (IH s1 Hs1) as (ops2 & c & s2 & -> & Hs2 & Hops2 & Hev2 & Hc); [by rewrite (ev_in _ _ Hev1)|lia|]. cbn [mbind result_bind].
  exists (ops1 ++ ops2), (h :: c), s2. split_and!; try done; [by eapply performs_app|by eapply evolves_trans|]. rewrite fmap_cons, Hc.
  assert (Ei : (handler_key <$> handlers s) !! i = Some (handler_key h)) by (by rewrite list_lookup_fmap, Eh).
  rewrite (take_S_r _ _ _ Ei). rewrite reverse_app, reverse_singleton. cbn [app]. do 2 f_equal.
  apply list_eq. intros j. destruct (Nat.lt_ge_cases j i) as [Hj|Hj]; [|by rewrite !lookup_take_ge].
  rewrite !lookup_take_lt, !list_lookup_fmap by done. destruct (lookup_lt_is_Some_2 (handlers s) j) as [k Ek]; [lia|].
  destruct (ev_old _ _ Hev1 j k Ek) as (k' & -> & Ekk & _). rewrite Ek. simpl. by rewrite Ekk.
Qed.

Lemma finish_round_ok s :
  bh_ok s -> ∃ s', finish_round s = Ok s' ∧ bh_ok s' ∧ inHandler s' = inHandler s - 1 ∧ handlers s' = filter (λ h, bh_deleted h = false) (handlers s) ∧
    ∀ h, h ∈ handlers s' -> bh_deleted h = false.
Proof.
  intros [H1 H2]. unfold finish_round. destruct (handlerDeleted s) eqn:E.
  - pose proof (compact_handlers_ok (length (handlers s)) [] (handlers s)) as Hc. cbn [length app] in Hc. rewrite Hc by done. cbn [mbind result_bind].
    assert (Hno : ∀ h, h ∈ filter (λ h, bh_deleted h = false) (handlers s) -> bh_deleted h = false) by (by intros h [? _]%list_elem_of_filter).
    eexists. split; [done|]. cbn [handlers set_inHandler set_handlerDeleted set_handlers inHandler]. split_and!; try done.
    split; cbn [handlers set_inHandler set_handlerDeleted set_handlers sizeHandlers]; [rewrite length_filter; lia|]. intros h Hh Hd. by rewrite (Hno h Hh) in Hd.
  - assert (Hno : ∀ h, h ∈ handlers s -> bh_deleted h = false).
    { intros h Hh. destruct (bh_deleted h) eqn:Ed; [|done]. by specialize (H2 h Hh Ed). }
    cbn [mbind result_bind]. eexists. split; [done|]. cbn [handlers set_inHandler inHandler]. split_and!; [|done|symmetry; by apply list_filter_all|done].
    split; [done|]. intros h Hh Hd. by rewrite (Hno h Hh) in Hd.
Qed.

Lemma enter_round_ok s : bh_ok s -> 0 <= inHandler s -> bh_ok (set_inHandler s (inHandler s + 1)) ∧ 0 < inHandler (set_inHandler s (inHandler s + 1)).
Proof. intros [H1 H2] Hi. split; [by split|]. cbn. lia. Qed.

(** A round from [s] to [s'], in which the operations [ops] lead to [s1]: nothing but them
    changes the list, slots are kept until the round is over, and the marked ones are gone
    then.  So a handler that was removed and is registered only once is gone, and of one that was not
    removed every registration stays. *)
Record round (s : BHState) (ops : list bh_op) (s1 s' : BHState) : Prop := {
  rd_ok : bh_ok s';
  rd_in : inHandler s' = inHandler s;
  rd_ops : performs ops (set_inHandler s (inHandler s + 1)) s1;
  rd_slots : evolves (set_inHandler s (inHandler s + 1)) s1;
  rd_left : handlers s' = filter (λ h, bh_deleted h = false) (handlers s1);
  rd_gone : ∀ b w d i, OpRemove b w d ∈ ops -> (handler_key <$> handlers s) !! i = Some (b, w, d) ->
    (∀ j, (handler_key <$> handlers s1) !! j = Some (b, w, d) -> j = i) -> (b, w, d) ∉ handler_key <$> handlers s';
  rd_kept : ∀ b w d, (OpRemove b w d ∉ ops) -> (∀ h, h ∈ handlers s -> handler_key h = (b, w, d) -> bh_deleted h = false) ->
    filter (λ h, handler_key h = (b, w, d)) (handlers s') = filter (λ h, handler_key h = (b, w, d)) (handlers s1)
}.

Lemma filter_kept (k : Z * Z * Z) (l : list BlockHandlerRec) :
  (∀ h, h ∈ l -> handler_key h = k -> bh_deleted h = false) ->
  filter (λ h, handler_key h = k) (filter (λ h, bh_deleted h = false) l) = filter (λ h, handler_key h = k) l.
Proof.
  induction l as [|h l IH]; intros Hall; [done|]. rewrite !filter_cons.
  assert (IH' : filter (λ h, handler_key h = k) (filter (λ h, bh_deleted h = false) l) = filter (λ h, handler_key h = k) l).
  { apply IH. intros h' Hh. apply Hall. by right. }
  destruct (decide (handler_key h = k)) as [Hk|Hk].
  - rewrite (decide_True (P := bh_deleted h = false)) by (apply Hall; [by left|done]).
    by rewrite filter_cons, decide_True, IH' by done.
  - destruct (decide (bh_deleted h = false)); [|done]. by rewrite filter_cons, decide_False by done.
Qed.

Lemma round_intro s ops s1 s' :
  0 <= inHandler s -> bh_ok s' -> inHandler s' = inHandler s -> performs ops (set_inHandler s (inHandler s + 1)) s1 ->
  handlers s' = filter (λ h, bh_deleted h = false) (handlers s1) -> round s ops s1 s'.
Proof.
  intros Hi Hok Hin Hops Hleft. assert (Hi1 : inHandler (set_inHandler s (inHandler s + 1)) <> 0) by (cbn; lia).
  split; try done; [by eapply performs_evolves| |].
  - intros b w d i Hop Hs Hu. rewrite Hleft. intros Hx. apply list_elem_of_fmap in Hx as (x & Ek & Hx).
    apply list_elem_of_filter in Hx as [Hd Hx]. apply list_elem_of_lookup in Hx as [j Hj].
    assert (Hkj : (handler_key <$> handlers s1) !! j = Some (b, w, d)) by (by rewrite list_lookup_fmap, Hj, Ek).
    pose proof (performs_removed _ _ _ b w d i j Hops Hi1 Hop Hs Hu Hkj) as Hm. rewrite Hj in Hm. simpl in Hm. congruence.
  - intros b w d Hno Hmark. rewrite Hleft. apply filter_kept. intros h Hh Hk.
    apply list_elem_of_lookup in Hh as [i Hh]. by eapply (performs_kept ops _ _ b w d i h Hops Hi1).
Qed.

Lemma BlockHandler_round fuel s :
  bh_ok s -> 0 <= inHandler s -> (∀ n, pot (set_inHandler s n) = pot s) -> (length (handlers s) + pot s <= fuel)%nat ->
  ∃ ops c s1 s', BlockHandler run numScreens run_screen fuel s = Ok (c, s') ∧ round s ops s1 s' ∧
    handler_key <$> c = handler_key <$> handlers s1.
Proof.
  intros Hs Hi Hpot Hf. unfold BlockHandler. destruct (enter_round_ok s Hs Hi) as [Hs0 Hi0]. set (s0 := set_inHandler s _) in *.
  assert (Hp0 : pot s0 = pot s) by apply Hpot.
  destruct (call_screens_ok false numScreens 0 s0 Hs0 Hi0) as (ops1 & s1 & -> & Hs1 & Hops1 & Hev1 & Hp1). cbn [mbind result_bind].
  change (handlers s0) with (handlers s) in Hp1.
  destruct (block_loop_ok fuel 0 s1 Hs1) as (ops2 & c & s2 & -> & Hs2 & Hops2 & Hev2 & Hc); [by rewrite (ev_in _ _ Hev1)|lia|lia|]. cbn [mbind result_bind].
  destruct (finish_round_ok s2 Hs2) as (s3 & -> & Hs3 & Hi3 & Hf3 & _). cbn [mbind result_bind]. exists (ops1 ++ ops2), c, s2, s3.
  pose proof (evolves_trans _ _ _ Hev1 Hev2) as Hev. split; [done|]. split; [|done].
  apply round_intro; try done; [|by eapply performs_app]. rewrite Hi3, (ev_in _ _ Hev). cbn. lia.
Qed.

Lemma WakeupHandler_round s :
  bh_ok s -> 0 <= inHandler s ->
  ∃ ops c s1 s', WakeupHandler run numScreens run_screen s = Ok (c, s') ∧ round s ops s1 s' ∧
    handler_key <$> c = reverse (handler_key <$> handlers s).
Proof.
  intros Hs Hi. unfold WakeupHandler. destruct (enter_round_ok s Hs Hi) as [Hs0 Hi0]. set (s0 := set_inHandler s _) in *.
  destruct (wakeup_loop_ok (length (handlers s0)) s0 Hs0 Hi0) as (ops1 & c & s1 & -> & Hs1 & Hops1 & Hev1 & Hc); [done|]. cbn [mbind result_bind].
  destruct (call_screens_ok true numScreens 0 s1 Hs1) as (ops2 & s2 & -> & Hs2 & Hops2 & Hev2 & _); [by rewrite (ev_in _ _ Hev1)|]. cbn [mbind result_bind].
  destruct (finish_round_ok s2 Hs2) as (s3 & -> & Hs3 & Hi3 & Hf3 & _). cbn [mbind result_bind]. exists (ops1 ++ ops2), c, s2, s3.
  pose proof (evolves_trans _ _ _ Hev1 Hev2) as Hev. split; [done|]. split.
  - apply round_intro; try done; [|by eapply performs_app]. rewrite Hi3, (ev_in _ _ Hev). cbn. lia.
  - rewrite Hc. f_equal. rewrite take_ge; [done|]. by rewrite length_fmap.
Qed.
End Correct.

(** C39: registering appends a handler, or is refused when the array is full and there is no
    memory; removing concerns the first equal registration: outside a round it is taken out,
    during a round it gets a mark.  A round before the server sleeps calls every handler that
    is in the list when it starts or gets registered while it goes on, once each and in the
    order of the list; a round after it wakes up calls those in the list when it starts, in
    reverse order.  Handlers and screens may register and remove handlers in any order, marked ones
    are still called, slots are kept until the round is over, and then the marked ones are taken out: a handler
    that was removed in the round and is registered only once is gone, and a handler that was
    not removed keeps all its registrations.  (Removing a handler that is registered twice a
    second time marks the same slot again: see [removed_twice].)  The handlers are assumed to
    change the list by these two operations only, so they do not start a round of their
    own, and not to register without end; then the round ends. *)
Theorem rounds_correct run numScreens run_screen (pot : BHState -> nat) fuel (s : BHState) :
  Handlers run pot -> (∀ b, Handlers (λ i _, run_screen b (Z.to_nat i)) pot) ->
  bh_ok s -> 0 <= inHandler s -> (∀ n, pot (set_inHandler s n) = pot s) -> (length (handlers s) + pot s <= fuel)%nat ->
  (∀ op, did op s (run_op op s)) ∧
  (∃ ops c s1 s', BlockHandler run numScreens run_screen fuel s = Ok (c, s') ∧ round s ops s1 s' ∧
    handler_key <$> c = handler_key <$> handlers s1) ∧
  (∃ ops c s1 s', WakeupHandler run numScreens run_screen s = Ok (c, s') ∧ round s ops s1 s' ∧
    handler_key <$> c = reverse (handler_key <$> handlers s)).
Proof.
  intros Hr Hsc Hs Hi Hp Hf. split; [intros op; apply run_op_did|]. split; [by eapply BlockHandler_round|by eapply WakeupHandler_round].
Qed.

(** Handler 1 registers another one as long as there are fewer than four, and removes handler
    2; other handlers do nothing. *)
Definition demo_handlers (f d : Z) (s : BHState) : result BHState :=
  if f =? 1 then
    let s := RemoveBlockAndWakeupHandlers s 2 2 0 in
    Ok (if (length (handlers s) <? 4)%nat then (RegisterBlockAndWakeupHandlers s 5 6 d).2 else s)
  else Ok s.

Definition demo_pot (s : BHState) : nat := (4 - length (handlers s))%nat.

Lemma length_Remove s b w d : inHandler s <> 0 -> length (handlers (RemoveBlockAndWakeupHandlers s b w d)) = length (handlers s).
Proof.
  intros Hi. unfold RemoveBlockAndWakeupHandlers. destruct (find_handler _ _ _ _ _); [|done]. rewrite (proj2 (Z.eqb_neq _ 0)) by done.
  cbn [handlers set_handlers negb]. by rewrite length_alter.
Qed.

Lemma length_Register s b w d : (length (handlers (RegisterBlockAndWakeupHandlers s b w d).2) <= S (length (handlers s)))%nat.
Proof.
  unfold RegisterBlockAndWakeupHandlers. destruct (_ <=? _)%nat; [destruct (alloc _) as [[] ?]|]; cbn [snd handlers set_handlers]; rewrite ?length_app; simpl; lia.
Qed.

#[export] Instance demo_Handlers : Handlers demo_handlers demo_pot.
Proof.
  split. intros f d s Hs Hi. unfold demo_handlers. destruct (f =? 1); [|by exists []].
  pose proof (length_Remove s 2 2 0 ltac:(lia)) as El. unfold demo_pot. cbn zeta.
  destruct (Nat.ltb_spec (length (handlers (RemoveBlockAndWakeupHandlers s 2 2 0))) 4).
  - exists [OpRemove 2 2 0; OpRegister 5 6 d]. split; [done|]. cbn [run_ops fold_left run_op].
    pose proof (length_Register (RemoveBlockAndWakeupHandlers s 2 2 0) 5 6 d). lia.
  - exists [OpRemove 2 2 0]. split; [done|]. cbn [run_ops fold_left run_op]. lia.
Qed.

Definition no_screens (b : bool) (i : nat) (s : BHState) : result BHState := Ok s.

#[export] Instance no_screens_Handlers b : Handlers (λ i _, no_screens b (Z.to_nat i)) demo_pot.
Proof. split. intros f d s Hs Hi. by exists []. Qed.

Definition demo_bh : BHState := mkBH [mkHandler 1 3 0 false; mkHandler 2 2 0 false] 2 0 false [].

Lemma rounds_correct_witness :
  ∃ c s', BlockHandler demo_handlers 1 no_screens 4 demo_bh = Ok (c, s') ∧ bh_ok s' ∧
    handler_key <$> handlers s' = [(1, 3, 0); (5, 6, 0)].
Proof.
  destruct (rounds_correct demo_handlers 1 no_screens demo_pot 4 demo_bh _ _) as (_ & (ops & c & s1 & s' & E & Hs & _) & _).
  - split; [cbn; lia|]. intros h Hh. cbn in Hh. apply elem_of_cons in Hh as [->|Hh]; [done|]. by apply list_elem_of_singleton in Hh as ->.
  - done.
  - done.
  - cbn. lia.
  - assert (E2 : ∃ r, BlockHandler demo_handlers 1 no_screens 4 demo_bh = Ok r ∧ handler_key <$> handlers r.2 = [(1, 3, 0); (5, 6, 0)])
      by (eexists; vm_compute; split; reflexivity).
    destruct E2 as (r & E2 & Ek). rewrite E in E2. injection E2 as <-. exists c, s'. split; [exact E|]. split; [exact (rd_ok _ _ _ _ Hs)|exact Ek].
Defined.

(** A handler that was removed earlier in the round is called all the same. *)
Lemma removed_handler_called :
  ∃ c s', BlockHandler demo_handlers 1 no_screens 4 demo_bh = Ok (c, s') ∧ (2, 2, 0) ∈ handler_key <$> c ∧ (2, 2, 0) ∉ handler_key <$> handlers s'.
Proof.
  eexists _, _. split; [vm_compute; reflexivity|]. split; [cbn; set_solver|cbn; set_solver].
Qed.

(** Of two equal registrations that are both removed in one round, one stays. *)
Lemma removed_twice :
  let s := mkBH [mkHandler 2 2 0 false; mkHandler 2 2 0 false] 2 1 false [] in
  bh_deleted <$> handlers (RemoveBlockAndWakeupHandlers (RemoveBlockAndWakeupHandlers s 2 2 0) 2 2 0) = [true; false].
Proof. reflexivity. Qed.
