(* ===== verification/PixelBits.v ===== *)
(** * PixelBits: counting with the bits of a mask (dix/colormap.c)

    [GetNextBitsOrBreak] goes through all combinations of the bits of a plane mask,
    which is how planes are allocated and freed, and a number of [AllocCP] counts the
    bits of a mask without a loop. *)

From Stdlib Require Import Sorting.Sorted.
From S2P Require Import Prelude Atom ResourceDB.

#[local] Set Warnings "-clear-no-such-hyp".

(** ** Definitions *)

(** [lowbit(x)], of 32 bits *)
Definition lowbit (x : Z) : Z := Z.land x (u32 (u32 (Z.lnot x) + 1)).

(** [while (bits & ~mask) bits += bits & ~mask] *)
Fixpoint carry_bits (n : nat) (bits mask : Z) : result Z :=
  let r := Z.land bits (u32 (Z.lnot mask)) in
  if r =? 0 then Ok bits else
  match n with O => Err OutOfFuel | S n => carry_bits n (u32 (bits + r)) mask end.

(** [None] leaves the loop around. *)
Definition GetNextBitsOrBreak (bits mask base : Z) : result (option Z) :=
  if bits =? mask then Ok None else
  b ← carry_bits 32 (u32 (bits + base)) mask;
  Ok (Some b).

(** All values that such a loop sees. *)
Fixpoint all_bits (n : nat) (bits mask base : Z) : result (list Z) :=
  match n with
  | O => Err OutOfFuel
  | S n =>
      next ← GetNextBitsOrBreak bits mask base;
      match next with None => Ok [bits] | Some b => l ← all_bits n b mask base; Ok (bits :: l) end
  end.

(** The constants are octal in the source: 033333333333, 030707070707 and 077.  "next 3 magic statements count number of ones (HAKMEM #169)" *)
Definition count_ones (mask : Z) : Z :=
  let pixel := Z.land (Z.shiftr mask 1) 0xDB6DB6DB in
  let pixel := u32 (u32 (mask - pixel) - Z.land (Z.shiftr pixel 1) 0xDB6DB6DB) in
  Z.land (u32 (pixel + Z.shiftr pixel 3)) 0xC71C71C7 mod 0x3F.

(** ** Submasks *)

Definition submask (s m : Z) : Prop := 0 <= s ∧ ∀ i, Z.testbit s i = true -> Z.testbit m i = true.

(** The number of ones of the lowest [n] bits, and the combinations of those bits. *)
Fixpoint popcount (n : nat) (m : Z) : nat :=
  match n with O => O | S n => ((if Z.odd m then 1 else 0) + popcount n (Z.div2 m))%nat end.

Fixpoint submasks (n : nat) (m : Z) : list Z :=
  match n with
  | O => [0]
  | S n =>
      let l := submasks n (Z.div2 m) in
      if Z.odd m then concat ((λ s, [2 * s; 2 * s + 1]) <$> l) else Z.mul 2 <$> l
  end.

Lemma submask_0 m : submask 0 m.
Proof. split; [done|]. intros i. by rewrite Z.bits_0. Qed.

Lemma submask_refl m : 0 <= m -> submask m m.
Proof. by split. Qed.

Lemma submask_land s m : submask s m <-> 0 <= s ∧ Z.land s m = s.
Proof.
  split; intros [Hs H]; split; try done.
  - apply Z.bits_inj. intros i. rewrite Z.land_spec. destruct (Z.testbit s i) eqn:Ei; [by rewrite (H i Ei)|done].
  - intros i Hi. rewrite <- H, Z.land_spec in Hi. by apply andb_true_iff in Hi as [_ ->].
Qed.

Lemma submask_le s m : 0 <= m -> submask s m -> s <= m.
Proof.
  intros Hm [Hs E]%submask_land. pose proof (Z.add_lor_land s (Z.ldiff m s)) as A.
  assert (Z.land s (Z.ldiff m s) = 0) as E0.
  { apply Z.bits_inj. intros i. rewrite Z.land_spec, Z.ldiff_spec, Z.bits_0. by destruct (Z.testbit s i), (Z.testbit m i). }
  assert (Z.lor s (Z.ldiff m s) = m) as E1.
  { apply Z.bits_inj. intros i. rewrite <- E at 1. rewrite Z.lor_spec, Z.ldiff_spec, Z.land_spec. by destruct (Z.testbit s i), (Z.testbit m i). }
  assert (0 <= Z.ldiff m s) by (apply Z.ldiff_nonneg; by left). lia.
Qed.

Lemma submask_u32 s m : 0 <= m < 2 ^ 32 -> submask s m -> 0 <= s < 2 ^ 32.
Proof. intros Hm Hs. pose proof (submask_le s m ltac:(lia) Hs). destruct Hs. lia. Qed.

(** The mask with bit 0 taken off. *)
Lemma submask_div2 s m : submask s m <-> submask (Z.div2 s) (Z.div2 m) ∧ (Z.odd s = true -> Z.odd m = true).
Proof.
  split.
  - intros [Hs H]. split; [split; [by apply Z.div2_nonneg|]|].
    + intros i Hi. destruct (Z.neg_nonneg_cases i) as [Hi'|Hi']; [by rewrite Z.testbit_neg_r in Hi|].
      rewrite Z.div2_spec, Z.shiftr_spec in Hi |- * by done. by apply H.
    + rewrite <- !Z.bit0_odd. apply H.
  - intros [[Hs H] H0]. split; [by apply Z.div2_nonneg|]. intros i Hi.
    destruct (Z.neg_nonneg_cases i) as [Hi'|Hi']; [by rewrite Z.testbit_neg_r in Hi|].
    destruct (decide (i = 0)) as [->|Hi0]; [rewrite Z.bit0_odd in Hi |- *; auto|].
    replace i with (i - 1 + 1) in Hi |- * by lia. rewrite <- Z.shiftr_spec, <- Z.div2_spec in Hi |- * by lia. by apply H.
Qed.

Lemma div2_bound (n : nat) m : 0 <= m < 2 ^ Z.of_nat (S n) -> 0 <= Z.div2 m < 2 ^ Z.of_nat n.
Proof.
  intros Hm. rewrite Z.div2_div. replace (Z.of_nat (S n)) with (Z.succ (Z.of_nat n)) in Hm by lia.
  rewrite Z.pow_succ_r in Hm by lia. split; [apply Z.div_pos; lia|apply Z.div_lt_upper_bound; lia].
Qed.

Lemma elem_of_submasks n m s : 0 <= m < 2 ^ Z.of_nat n -> s ∈ submasks n m <-> submask s m.
Proof.
  revert m s. induction n as [|n IH]; intros m s Hm; cbn [submasks].
  { assert (m = 0) as -> by (simpl in Hm; lia). rewrite list_elem_of_singleton. split; [intros ->; apply submask_0|].
    intros Hs. apply submask_le in Hs as Hs'; [|done]. destruct Hs. lia. }
  pose proof (div2_bound n m Hm) as Hm'. rewrite submask_div2. destruct (Z.odd m) eqn:Eo.
  - rewrite list_elem_of_In, in_concat. split.
    + intros (l & Hl & Hs). apply list_elem_of_In, list_elem_of_fmap in Hl as (t & -> & Ht). apply IH in Ht; [|done].
      destruct Hs as [<-|[<-|[]]].
      * rewrite Z.div2_div, Z.mul_comm, Z.div_mul by done. done.
      * split; [|done]. replace (Z.div2 (2 * t + 1)) with t; [done|]. rewrite Z.div2_div. apply (Z.div_unique _ _ _ 1); lia.
    + intros [Hs _]. exists [2 * Z.div2 s; 2 * Z.div2 s + 1]. split.
      * apply list_elem_of_In, list_elem_of_fmap. exists (Z.div2 s). split; [done|]. by apply IH.
      * pose proof (Z.div2_odd s) as E. destruct (Z.odd s); [right; left|left]; simpl in E; lia.
  - rewrite list_elem_of_fmap. split.
    + intros (t & -> & Ht). apply IH in Ht; [|done]. rewrite Z.div2_div, Z.mul_comm, Z.div_mul by done.
      split; [done|]. rewrite Z.odd_mul, andb_false_r. done.
    + intros [Hs Ho]. exists (Z.div2 s). split; [|by apply IH]. pose proof (Z.div2_odd s) as E.
      destruct (Z.odd s); [by specialize (Ho eq_refl)|]. simpl in E. lia.
Qed.

Lemma sorted_app_pairs (l : list Z) :
  StronglySorted Z.lt l -> StronglySorted Z.lt (concat ((λ s, [2 * s; 2 * s + 1]) <$> l)).
Proof.
  induction 1 as [|s l Hl IH Hs]; [constructor|]. cbn [fmap list_fmap concat app].
  assert (Forall (Z.lt (2 * s + 1)) (concat ((λ s, [2 * s; 2 * s + 1]) <$> l))) as HF.
  { clear - Hs. induction Hs; cbn [fmap list_fmap concat app]; [constructor|].
    constructor; [lia|]. constructor; [lia|done]. }
  constructor; [by constructor|]. constructor; [lia|]. eapply Forall_impl; [exact HF|]. cbv beta. intros; lia.
Qed.

Lemma submasks_sorted n m : StronglySorted Z.lt (submasks n m).
Proof.
  revert m. induction n as [|n IH]; intros m; cbn [submasks]; [repeat constructor|].
  specialize (IH (Z.div2 m)). destruct (Z.odd m); [by apply sorted_app_pairs|].
  induction IH as [|s l Hl IH Hs]; [constructor|]. cbn [fmap list_fmap]. constructor; [done|].
  clear - Hs. induction Hs; cbn [fmap list_fmap]; constructor; try done; lia.
Qed.

Lemma submasks_length n m : length (submasks n m) = (2 ^ popcount n m)%nat.
Proof.
  revert m. induction n as [|n IH]; intros m; cbn [submasks popcount]; [done|]. destruct (Z.odd m).
  - rewrite length_concat. rewrite <- list_fmap_compose. cbn [Nat.add]. rewrite Nat.pow_succ_r', <- IH.
    clear IH. induction (submasks n (Z.div2 m)) as [|s l IHl]; [done|]. cbn [length fmap list_fmap sum_list sum_list_with] in *. unfold compose in *. simpl in *. lia.
  - by rewrite length_fmap, IH.
Qed.

(** A strictly increasing list is determined by its elements. *)
Lemma sorted_unique (l k : list Z) :
  StronglySorted Z.lt l -> StronglySorted Z.lt k -> (∀ x, x ∈ l <-> x ∈ k) -> l = k.
Proof.
  intros Hl. revert k. induction Hl as [|x l Hl IH Hx]; intros k Hk H.
  { destruct k as [|y k]; [done|]. exfalso. eapply (not_elem_of_nil y), H. by left. }
  destruct Hk as [|y k Hk Hy]; [exfalso; eapply (not_elem_of_nil x), H; by left|].
  rewrite Forall_forall in Hx, Hy.
  assert (x = y) as <-.
  { destruct (proj1 (elem_of_cons _ _ _) (proj1 (H x) (list_elem_of_here _ _))) as [?|Hxk]; [done|].
    destruct (proj1 (elem_of_cons _ _ _) (proj2 (H y) (list_elem_of_here _ _))) as [?|Hyl]; [done|].
    specialize (Hx y Hyl). specialize (Hy x Hxk). lia. }
  f_equal. apply IH; [done|]. intros z. specialize (H z). rewrite !elem_of_cons in H.
  split; intros Hz.
  - destruct (proj1 H (or_intror Hz)) as [->|]; [|done]. specialize (Hx x Hz). lia.
  - destruct (proj2 H (or_intror Hz)) as [->|]; [|done]. specialize (Hy x Hz). lia.
Qed.

(** ** Counting in the bits of a mask *)

Lemma testbit_add_pow h k i :
  0 <= h -> 0 <= k -> Z.testbit h k = false -> 0 <= i -> Z.testbit (h + 2 ^ k) i = Z.testbit h i || (i =? k).
Proof.
  intros Hh Hk Hb Hi. rewrite Z.add_nocarry_lxor, Z.lxor_lor.
  - by rewrite Z.lor_spec, Z.pow2_bits_eqb, (Z.eqb_sym k) by lia.
  - apply Z.bits_inj. intros j. rewrite Z.land_spec, Z.bits_0, Z.pow2_bits_eqb by lia.
    destruct (Z.eqb_spec k j) as [->|]; [by rewrite Hb|by rewrite andb_false_r].
  - apply Z.bits_inj. intros j. rewrite Z.land_spec, Z.bits_0, Z.pow2_bits_eqb by lia.
    destruct (Z.eqb_spec k j) as [->|]; [by rewrite Hb|by rewrite andb_false_r].
Qed.

(** No bit below [k]. *)
Definition low_clear (h k : Z) : Prop := ∀ i, i < k -> Z.testbit h i = false.

Lemma low_clear_mod h k : 0 <= k -> low_clear h k <-> h mod 2 ^ k = 0.
Proof.
  intros Hk. split.
  - intros H. apply Z.bits_inj. intros i. rewrite Z.bits_0. destruct (Z.lt_ge_cases i k) as [Hi|Hi].
    + destruct (Z.lt_ge_cases i 0); [by rewrite Z.testbit_neg_r|]. rewrite Z.mod_pow2_bits_low by done. by apply H.
    + by rewrite Z.mod_pow2_bits_high by lia.
  - intros H i Hi. destruct (Z.lt_ge_cases i 0); [by rewrite Z.testbit_neg_r|].
    rewrite <- (Z.mod_pow2_bits_low h k i), H, Z.bits_0 by done. done.
Qed.

(** A carry into bit [j] moves through the ones from there on. *)
Lemma carry_into h j :
  0 <= j -> 0 <= h -> low_clear h j -> ∃ k h', j <= k ∧ h + 2 ^ j = h' + 2 ^ k ∧ submask h' h ∧ low_clear h' (k + 1).
Proof.
  intros Hj Hh. revert j Hj. remember (Z.to_nat h) as n eqn:Hn. revert h Hh Hn.
  induction (lt_wf n) as [n _ IH]. intros h Hh -> j Hj Hl. destruct (Z.testbit h j) eqn:Eb.
  - assert (2 ^ j <= h) as Hle.
    { destruct (Z.le_gt_cases (2 ^ j) h) as [|Hlt]; [done|]. rewrite Z.bits_above_log2 in Eb; [done|done|].
      destruct (decide (h = 0)) as [->|]; [by rewrite Z.bits_0 in Eb|]. apply Z.log2_lt_pow2; lia. }
    assert (0 < 2 ^ j) by (apply Z.pow_pos_nonneg; lia).
    assert (∀ i, Z.testbit (h - 2 ^ j) i = Z.testbit h i && negb (i =? j)) as Hbits.
    { intros i. rewrite Z.sub_nocarry_ldiff; [|apply Z.bits_inj; intros a; rewrite Z.ldiff_spec, Z.bits_0, Z.pow2_bits_eqb by lia;
        destruct (Z.eqb_spec j a) as [->|]; [by rewrite Eb|done]].
      by rewrite Z.ldiff_spec, Z.pow2_bits_eqb, (Z.eqb_sym j) by lia. }
    destruct (IH (Z.to_nat (h - 2 ^ j)) ltac:(lia) (h - 2 ^ j) ltac:(lia) eq_refl (j + 1) ltac:(lia)) as (k & h' & Hk & E & [Hs Hs'] & Hc).
    { intros i Hi. rewrite Hbits. destruct (Z.eqb_spec i j) as [|]; [by rewrite andb_false_r|]. rewrite Hl by lia. done. }
    exists k, h'. split; [lia|]. split; [rewrite <- E, Z.pow_add_r by lia; lia|]. split; [|done]. split; [done|].
    intros i Hi. apply Hs' in Hi. rewrite Hbits in Hi. by apply andb_true_iff in Hi as [-> _].
  - exists j, h. split; [lia|]. split; [done|]. split; [by apply submask_refl|]. intros i Hi.
    destruct (decide (i = j)) as [->|]; [done|]. apply Hl. lia.
Qed.

(** A submask that reaches a carry that is not in the mask goes beyond it. *)
Lemma submask_skip u m h k :
  0 <= k -> low_clear h (k + 1) -> submask u m -> Z.testbit m k = false -> h + 2 ^ k <= u -> h + 2 ^ k + 2 ^ k <= u.
Proof.
  intros Hk Hl [Hu Hs] Hm Hle. apply low_clear_mod in Hl; [|lia].
  assert (0 < 2 ^ k) by (apply Z.pow_pos_nonneg; lia).
  assert (2 ^ (k + 1) = 2 * 2 ^ k) as E2 by (rewrite Z.pow_add_r; lia). rewrite E2 in Hl.
  pose proof (Z.div_mod u (2 ^ k) ltac:(lia)) as Eu. pose proof (Z.mod_pos_bound u (2 ^ k) ltac:(lia)) as Bu.
  assert (Z.odd (u / 2 ^ k) = false) as Ho.
  { rewrite <- Z.shiftr_div_pow2, <- Z.bit0_odd, Z.shiftr_spec by lia. destruct (Z.testbit u (0 + k)) eqn:E; [|done].
    apply Hs in E. rewrite Z.add_0_l in E. congruence. }
  pose proof (Z.div_mod h (2 * 2 ^ k) ltac:(lia)) as Eh. rewrite Hl in Eh.
  rewrite <- Z.negb_even in Ho. apply negb_false_iff, Z.even_spec in Ho as [q Hq]. rewrite Hq in Eu.
  assert (h / (2 * 2 ^ k) < q) by nia. nia.
Qed.

Lemma not_mask_bits m i : 0 <= i < 32 -> Z.testbit (u32 (Z.lnot m)) i = negb (Z.testbit m i).
Proof. intros Hi. unfold u32. rewrite Z.mod_pow2_bits_low, Z.lnot_spec by lia. done. Qed.

Lemma land_not_mask h k m :
  0 <= k < 32 -> submask h m -> low_clear h (k + 1) ->
  Z.land (h + 2 ^ k) (u32 (Z.lnot m)) = if Z.testbit m k then 0 else 2 ^ k.
Proof.
  intros Hk [Hh Hs] Hl. apply Z.bits_inj. intros i. rewrite Z.land_spec.
  destruct (Z.lt_ge_cases i 0) as [|Hi]; [by rewrite !Z.testbit_neg_r|].
  rewrite testbit_add_pow by (try apply Hl; lia).
  replace (Z.testbit (if Z.testbit m k then 0 else 2 ^ k) i) with (negb (Z.testbit m k) && (i =? k)).
  2:{ destruct (Z.testbit m k); [by rewrite Z.bits_0|]. by rewrite Z.pow2_bits_eqb, Z.eqb_sym by lia. }
  destruct (Z.lt_ge_cases i 32) as [Hi'|Hi'].
  - rewrite not_mask_bits by lia. destruct (Z.eqb_spec i k) as [->|]; [rewrite orb_true_r; by rewrite andb_true_r|].
    rewrite orb_false_r, andb_false_r. specialize (Hs i). destruct (Z.testbit h i); [by rewrite Hs|done].
  - unfold u32. rewrite Z.mod_pow2_bits_high by lia. rewrite andb_false_r. destruct (Z.eqb_spec i k); [lia|]. by rewrite andb_false_r.
Qed.

Lemma carry_bits_ok n m h k :
  0 <= m < 2 ^ 32 -> 0 <= k -> 32 <= k + Z.of_nat n -> submask h m -> low_clear h (k + 1) -> h + 2 ^ k <= m ->
  ∃ b, carry_bits n (h + 2 ^ k) m = Ok b ∧ submask b m ∧ h + 2 ^ k <= b ∧
       ∀ u, submask u m -> h + 2 ^ k <= u -> b <= u.
Proof.
  intros Hm. revert h k. induction n as [|n IH]; intros h k Hk Hn Hs Hl Hle.
  all: assert (k < 32) as Hk32 by
    (apply (Z.pow_lt_mono_r_iff 2); [lia|lia|]; pose proof (proj1 Hs); lia).
  { lia. }
  cbn [carry_bits]. rewrite (land_not_mask h k m) by (try done; lia). destruct (Z.testbit m k) eqn:Eb.
  - cbn. exists (h + 2 ^ k). split; [done|]. split; [|split; [lia|done]]. destruct Hs as [Hh Hs].
    split; [assert (0 < 2 ^ k) by (apply Z.pow_pos_nonneg; lia); lia|].
    intros i. destruct (Z.lt_ge_cases i 0) as [|Hi]; [by rewrite !Z.testbit_neg_r|].
    rewrite testbit_add_pow by (try apply Hl; lia). intros [?|Ei%Z.eqb_eq]%orb_true_iff; [auto|by rewrite Ei].
  - assert (0 < 2 ^ k) by (apply Z.pow_pos_nonneg; lia). destruct (Z.eqb_spec (2 ^ k) 0); [lia|].
    pose proof (submask_skip m m h k Hk Hl (submask_refl m ltac:(lia)) Eb Hle) as Hle2.
    rewrite u32_small by (pose proof (proj1 Hs); lia).
    destruct (carry_into h (k + 1)) as (k' & h' & Hk' & E & Hs' & Hl'); [lia|apply Hs|done|].
    assert (h + 2 ^ k + 2 ^ k = h' + 2 ^ k') as E' by (rewrite <- E, Z.pow_add_r by lia; lia).
    rewrite E' in Hle2 |- *.
    destruct (IH h' k') as (b & -> & Hb & Hge & Hmin); [lia|lia| |done|done|].
    { split; [apply Hs'|]. intros i Hi. by apply Hs, Hs'. }
    exists b. split; [done|]. split; [done|]. split; [lia|]. intros u Hu Hhu. apply Hmin; [done|].
    rewrite <- E'. by apply (submask_skip u m).
Qed.

(** The lowest bit of a mask. *)
Lemma lowest_bit m : 0 < m -> ∃ j h, 0 <= j ∧ m = h + 2 ^ j ∧ 0 <= h ∧ low_clear h (j + 1).
Proof.
  intros Hm. remember (Z.to_nat m) as n eqn:Hn. revert m Hm Hn. induction (lt_wf n) as [n _ IH]. intros m Hm ->.
  pose proof (Z.div2_odd m) as E. destruct (Z.odd m) eqn:Eo; simpl in E.
  - exists 0, (m - 1). split; [lia|]. split; [lia|]. split; [lia|]. apply low_clear_mod; [lia|].
    change (2 ^ (0 + 1)) with 2. rewrite E. replace (2 * Z.div2 m + 1 - 1) with (Z.div2 m * 2) by lia. by rewrite Z.mod_mul.
  - destruct (IH (Z.to_nat (Z.div2 m)) ltac:(lia) (Z.div2 m) ltac:(lia) eq_refl) as (j & h & Hj & Eh & Hh & Hl).
    exists (j + 1), (2 * h). split; [lia|]. split; [rewrite Z.pow_add_r by lia; lia|]. split; [lia|].
    intros i Hi. destruct (Z.lt_ge_cases i 0); [by rewrite Z.testbit_neg_r|].
    destruct (decide (i = 0)) as [->|]; [by rewrite Z.testbit_even_0|].
    replace i with (Z.succ (i - 1)) by lia. rewrite Z.testbit_even_succ by lia. apply Hl. lia.
Qed.

Lemma lowbit_spec j h : 0 <= j -> 0 <= h -> low_clear h (j + 1) -> h + 2 ^ j < 2 ^ 32 -> lowbit (h + 2 ^ j) = 2 ^ j.
Proof.
  intros Hj Hh Hl Hlt. assert (0 < 2 ^ j) by (apply Z.pow_pos_nonneg; lia). set (m := h + 2 ^ j) in *.
  assert (j < 32) as Hj32 by (apply (Z.pow_lt_mono_r_iff 2); lia).
  unfold lowbit. replace (u32 (u32 (Z.lnot m) + 1)) with (u32 (- m)).
  2:{ unfold u32. rewrite Zplus_mod_idemp_l. f_equal. pose proof (Z.add_lnot_diag m). lia. }
  assert (- m = (Z.lnot h - 2 ^ (j + 1) + 1) + 2 ^ j) as Em.
  { unfold m. pose proof (Z.add_lnot_diag h). rewrite Z.pow_add_r by lia. lia. }
  pose proof (proj1 (low_clear_mod h (j + 1) ltac:(lia)) Hl) as Hmod.
  pose proof (Z.div_mod h (2 ^ (j + 1)) ltac:(lia)) as Eh. rewrite Hmod, Z.add_0_r in Eh. set (q := h / 2 ^ (j + 1)) in *.
  assert (2 ^ (j + 1) = 2 * 2 ^ j) as E2 by (rewrite Z.pow_add_r; lia).
  assert (∀ i, 0 <= i -> Z.testbit (- m) i = if i <? j then false else if i =? j then true else negb (Z.testbit m i)) as Hneg.
  { intros i Hi. assert (- m = Z.lnot (m - 1)) as -> by (pose proof (Z.add_lnot_diag (m - 1)); lia). rewrite Z.lnot_spec by done.
    assert (m - 1 = h + Z.ones j) as -> by (unfold m; rewrite Z.ones_equiv; lia).
    assert (∀ i, 0 <= i -> Z.testbit (h + Z.ones j) i = Z.testbit h i || (i <? j)) as Ha.
    { intros a Ha. assert (Z.land h (Z.ones j) = 0) as E0.
      { rewrite Z.land_ones by done. replace h with (2 * q * 2 ^ j) by lia. by rewrite Z.mod_mul by lia. }
      rewrite Z.add_nocarry_lxor, Z.lxor_lor by done. rewrite Z.lor_spec. f_equal. destruct (Z.ltb_spec a j);
        [by rewrite Z.ones_spec_low by lia|by rewrite Z.ones_spec_high by lia]. }
    rewrite Ha by done. unfold m. rewrite testbit_add_pow by (try apply Hl; lia).
    destruct (Z.ltb_spec i j); [by rewrite orb_true_r|]. rewrite orb_false_r. destruct (Z.eqb_spec i j) as [->|]; [|by rewrite orb_false_r].
    rewrite Hl by lia. done. }
  apply Z.bits_inj. intros i. rewrite Z.land_spec. destruct (Z.lt_ge_cases i 0) as [|Hi]; [by rewrite !Z.testbit_neg_r|].
  rewrite Z.pow2_bits_eqb, (Z.eqb_sym j) by lia. destruct (Z.lt_ge_cases i 32) as [Hi'|Hi'].
  - unfold u32. rewrite Z.mod_pow2_bits_low, Hneg by lia. unfold m. rewrite testbit_add_pow by (try apply Hl; lia).
    destruct (Z.ltb_spec i j); [rewrite andb_false_r; symmetry; apply Z.eqb_neq; lia|].
    destruct (Z.eqb_spec i j); [by rewrite orb_true_r|]. rewrite orb_false_r. by destruct (Z.testbit h i).
  - unfold u32. rewrite Z.mod_pow2_bits_high by lia. rewrite andb_false_r. symmetry. apply Z.eqb_neq. lia.
Qed.

(** The macro computes the next combination in increasing order, and ends after the last. *)
Lemma GetNextBits_spec s m :
  0 <= m < 2 ^ 32 -> submask s m ->
  (s = m ∧ GetNextBitsOrBreak s m (lowbit m) = Ok None) ∨
  (∃ b, GetNextBitsOrBreak s m (lowbit m) = Ok (Some b) ∧ submask b m ∧ s < b ∧ ∀ u, submask u m -> s < u -> b <= u).
Proof.
  intros Hm Hs. unfold GetNextBitsOrBreak. destruct (Z.eqb_spec s m) as [->|Hne]; [by left|right].
  pose proof (submask_le s m ltac:(lia) Hs) as Hle. pose proof (proj1 Hs) as Hs0.
  destruct (lowest_bit m ltac:(lia)) as (j & h & Hj & Em & Hh & Hl).
  assert (lowbit m = 2 ^ j) as -> by (rewrite Em; apply lowbit_spec; [done|done|done|lia]).
  assert (0 < 2 ^ j) by (apply Z.pow_pos_nonneg; lia).
  assert (∀ u, submask u m -> low_clear u j) as Hlow.
  { intros u [_ Hu] i Hi. destruct (Z.lt_ge_cases i 0); [by rewrite Z.testbit_neg_r|]. destruct (Z.testbit u i) eqn:E; [|done].
    apply Hu in E. rewrite Em, testbit_add_pow in E by (try apply Hl; lia). rewrite Hl in E by lia.
    destruct (Z.eqb_spec i j); [lia|done]. }
  assert (∀ u, submask u m -> s < u -> s + 2 ^ j <= u) as Hgap.
  { intros u Hu Hlt. pose proof (proj1 (low_clear_mod u j Hj) (Hlow u Hu)) as Mu. pose proof (proj1 (low_clear_mod s j Hj) (Hlow s Hs)) as Ms.
    pose proof (Z.div_mod u (2 ^ j) ltac:(lia)) as Eu. rewrite Mu in Eu. pose proof (Z.div_mod s (2 ^ j) ltac:(lia)) as Es. rewrite Ms in Es.
    assert (s / 2 ^ j < u / 2 ^ j) by nia. nia. }
  pose proof (Hgap m (submask_refl m ltac:(lia)) ltac:(lia)) as Hle2.
  rewrite u32_small by lia. destruct (carry_into s j Hj Hs0 (Hlow s Hs)) as (k & h' & Hk & E & Hs' & Hl').
  rewrite E in Hle2 |- *. destruct (carry_bits_ok 32 m h' k) as (b & -> & Hb & Hge & Hmin); [done|lia|lia| |done|done|].
  { split; [apply Hs'|]. intros i Hi. by apply Hs, Hs'. }
  exists b. split; [done|]. split; [done|]. split; [lia|]. intros u Hu Hlt. apply Hmin; [done|]. rewrite <- E. by apply Hgap.
Qed.

Lemma all_bits_from n m s :
  0 <= m < 2 ^ 32 -> submask s m -> (m - s < Z.of_nat n) ->
  ∃ l, all_bits n s m (lowbit m) = Ok l ∧ StronglySorted Z.lt l ∧ ∀ u, u ∈ l <-> submask u m ∧ s <= u.
Proof.
  intros Hm. revert s. induction n as [|n IH]; intros s Hs Hn.
  { pose proof (submask_le s m ltac:(lia) Hs). lia. }
  cbn [all_bits]. destruct (GetNextBits_spec s m Hm Hs) as [[-> ->]|(b & -> & Hb & Hlt & Hmin)]; cbn [mbind result_bind].
  - exists [m]. split; [done|]. split; [repeat constructor|]. intros u. rewrite list_elem_of_singleton. split.
    + intros ->. split; [done|lia].
    + intros [Hu Hle]. pose proof (submask_le u m ltac:(lia) Hu). lia.
  - destruct (IH b Hb ltac:(lia)) as (l & -> & Hsort & Hl). cbn [mbind result_bind]. exists (s :: l). split; [done|]. split.
    + constructor; [done|]. apply Forall_forall. intros u Hu. apply Hl in Hu as [_ Hu]. lia.
    + intros u. rewrite elem_of_cons, Hl. split.
      * intros [->|[Hu Hle]]; split; try done; lia.
      * intros [Hu Hle]. destruct (decide (u = s)) as [->|]; [by left|]. right. split; [done|]. apply Hmin; [done|lia].
Qed.

(** "2^n combinations of bits in mask": in increasing order, each of them once. *)
Lemma all_bits_submasks n m :
  0 <= m < 2 ^ 32 -> m < Z.of_nat n -> all_bits n 0 m (lowbit m) = Ok (submasks 32 m).
Proof.
  intros Hm Hn. destruct (all_bits_from n m 0 Hm (submask_0 m)) as (l & -> & Hsort & Hl); [lia|]. f_equal.
  apply sorted_unique; [done|apply submasks_sorted|]. intros u. rewrite Hl, elem_of_submasks by done. split; [by intros []|].
  intros Hu. split; [done|apply Hu].
Qed.

(** A run that has an answer has the same one with more fuel. *)
Lemma all_bits_more n n' s m base l : all_bits n s m base = Ok l -> (n <= n')%nat -> all_bits n' s m base = Ok l.
Proof.
  revert n' s l. induction n as [|n IH]; intros n' s l H Hn; [done|]. destruct n' as [|n']; [lia|]. cbn [all_bits] in *.
  destruct (GetNextBitsOrBreak s m base) as [[b|]|]; cbn [mbind result_bind] in *; [|done|done].
  destruct (all_bits n b m base) as [k|] eqn:E; [|done]. by rewrite (IH n' b k E) by lia.
Qed.

Lemma all_bits_length n s m base l : all_bits n s m base = Ok l -> all_bits (length l) s m base = Ok l.
Proof.
  revert s l. induction n as [|n IH]; intros s l H; [done|]. cbn [all_bits] in H.
  destruct (GetNextBitsOrBreak s m base) as [[b|]|] eqn:E; cbn [mbind result_bind] in H; [|injection H as <-; cbn; by rewrite E|done].
  destruct (all_bits n b m base) as [k|] eqn:Ek; [|done]. injection H as <-. cbn [length all_bits]. rewrite E. cbn [mbind result_bind].
  by rewrite (IH b k Ek).
Qed.

(** 2^n rounds are enough for [n] ones. *)
Definition bits_fuel (m : Z) : nat := 2 ^ popcount 32 m.

Lemma all_bits_fuel m : 0 <= m < 2 ^ 32 -> all_bits (bits_fuel m) 0 m (lowbit m) = Ok (submasks 32 m).
Proof.
  intros Hm. pose proof (all_bits_submasks (S (Z.to_nat m)) m Hm ltac:(lia)) as H. apply all_bits_length in H.
  by rewrite submasks_length in H.
Qed.

(** ** Counting ones

    In octal: the ones of every digit, then of pairs of digits, then all of them by
    casting out 63. *)

Definition ones_of_digit (d : Z) : Z := d - d / 2 - d / 4.

Fixpoint digit_ones (k : nat) (m : Z) : Z :=
  match k with O => 0 | S k => ones_of_digit (m mod 8) + 8 * digit_ones k (m / 8) end.

Fixpoint threes (k : nat) : Z := match k with O => 0 | S k => 8 * threes k + 3 end.

Fixpoint sevens (j : nat) : Z := match j with O => 3 | S j => 64 * sevens j + 7 end.

Lemma land_digit w a b c d :
  0 <= w -> 0 <= b < 2 ^ w -> 0 <= d < 2 ^ w -> Z.land (2 ^ w * a + b) (2 ^ w * c + d) = 2 ^ w * Z.land a c + Z.land b d.
Proof.
  intros Hw Hb Hd. rewrite !(Z.mul_comm (2 ^ w)), <- !Z.shiftl_mul_pow2 by done.
  assert (∀ a b i, 0 <= b < 2 ^ w -> 0 <= i -> Z.testbit (Z.shiftl a w + b) i = if i <? w then Z.testbit b i else Z.testbit a (i - w)) as Hbits.
  { intros x y i Hy Hi. rewrite Z.shiftl_mul_pow2 by done. destruct (Z.ltb_spec i w).
    - rewrite <- (Z.mod_pow2_bits_low (x * 2 ^ w + y) w i), Z.add_comm, Z.mod_add, Z.mod_small by lia. done.
    - replace i with (i - w + w) at 1 by lia. rewrite <- Z.shiftr_spec, Z.shiftr_div_pow2, Z.div_add_l, Z.div_small by lia. by rewrite Z.add_0_r. }
  assert (0 <= Z.land b d < 2 ^ w) as Hbd.
  { split; [apply Z.land_nonneg; lia|]. assert (submask (Z.land b d) b) as H%submask_le; [|lia..].
    split; [apply Z.land_nonneg; lia|]. intros i. rewrite Z.land_spec. by intros [? _]%andb_true_iff. }
  apply Z.bits_inj. intros i. rewrite Z.land_spec. destruct (Z.lt_ge_cases i 0); [by rewrite !Z.testbit_neg_r|].
  rewrite !Hbits by done. destruct (i <? w); by rewrite Z.land_spec.
Qed.

Lemma land8 a b c d : 0 <= b < 8 -> 0 <= d < 8 -> Z.land (8 * a + b) (8 * c + d) = 8 * Z.land a c + Z.land b d.
Proof. by apply (land_digit 3). Qed.

Lemma land64 a b c d : 0 <= b < 64 -> 0 <= d < 64 -> Z.land (64 * a + b) (64 * c + d) = 64 * Z.land a c + Z.land b d.
Proof. by apply (land_digit 6). Qed.

Lemma half_digit r d e : 0 <= e < 2 -> 0 <= d < 4 -> r = 4 * e + d -> Z.land r 3 = d.
Proof.
  intros He Hd ->. change 3 with (Z.ones 2). rewrite Z.land_ones by done. change (2 ^ 2) with 4.
  rewrite Z.add_comm, Z.mul_comm, Z.mod_add, Z.mod_small by lia. done.
Qed.

Lemma ones_of_digit_bound d : 0 <= d < 8 -> 0 <= ones_of_digit d <= 3.
Proof.
  intros Hd. unfold ones_of_digit. pose proof (Z.div_mod d 2 ltac:(lia)). pose proof (Z.mod_pos_bound d 2 ltac:(lia)).
  pose proof (Z.div_mod d 4 ltac:(lia)). pose proof (Z.mod_pos_bound d 4 ltac:(lia)). lia.
Qed.

Lemma digits_step k m :
  0 <= m < 8 ^ Z.of_nat k ->
  m - Z.land (m / 2) (threes k) - Z.land (Z.land (m / 2) (threes k) / 2) (threes k) = digit_ones k m.
Proof.
  revert m. induction k as [|k IH]; intros m Hm.
  { assert (m = 0) as -> by (simpl in Hm; lia). done. }
  cbn [threes digit_ones]. replace (Z.of_nat (S k)) with (Z.succ (Z.of_nat k)) in Hm by lia. rewrite Z.pow_succ_r in Hm by lia.
  pose proof (Z.div_mod m 8 ltac:(lia)) as Em. pose proof (Z.mod_pos_bound m 8 ltac:(lia)) as Bd.
  set (r := m / 8) in *. set (d := m mod 8) in *. specialize (IH r ltac:(split; [apply Z.div_pos; lia|apply Z.div_lt_upper_bound; lia])).
  set (p := Z.land (r / 2) (threes k)) in *.
  assert (∀ x y, 0 <= y < 8 -> Z.land ((8 * x + y) / 2) (8 * threes k + 3) = 8 * Z.land (x / 2) (threes k) + y / 2) as Hhalf.
  { intros x y Hy. pose proof (Z.div_mod x 2 ltac:(lia)). pose proof (Z.mod_pos_bound x 2 ltac:(lia)).
    pose proof (Z.div_mod y 2 ltac:(lia)). pose proof (Z.mod_pos_bound y 2 ltac:(lia)).
    replace ((8 * x + y) / 2) with (8 * (x / 2) + (4 * (x mod 2) + y / 2)) by (apply (Z.div_unique _ _ _ (y mod 2)); lia).
    rewrite land8 by lia. f_equal. apply (half_digit _ (y / 2) (x mod 2)); lia. }
  rewrite Em, Hhalf by done. fold p. pose proof (Z.div_mod d 2 ltac:(lia)). pose proof (Z.mod_pos_bound d 2 ltac:(lia)).
  rewrite Hhalf by lia. unfold ones_of_digit. replace (d / 2 / 2) with (d / 4) by (symmetry; apply (Z.div_div d 2 2); lia). lia.
Qed.

Lemma digit_ones_bound k m :
  0 <= m -> 0 <= digit_ones k m ∧ 7 * digit_ones k m <= 3 * (8 ^ Z.of_nat k - 1).
Proof.
  revert m. induction k as [|k IH]; intros m Hm; cbn [digit_ones]; [simpl; lia|].
  replace (Z.of_nat (S k)) with (Z.succ (Z.of_nat k)) by lia. rewrite Z.pow_succ_r by lia.
  pose proof (ones_of_digit_bound (m mod 8) (Z.mod_pos_bound m 8 ltac:(lia))).
  specialize (IH (m / 8) ltac:(apply Z.div_pos; lia)). lia.
Qed.

Lemma digit_ones_top k m :
  0 <= m < 4 * 8 ^ Z.of_nat k -> 7 * digit_ones (S k) m <= 3 * (8 ^ Z.of_nat k - 1) + 14 * 8 ^ Z.of_nat k.
Proof.
  revert m. induction k as [|k IH]; intros m Hm.
  { assert (m = 0 ∨ m = 1 ∨ m = 2 ∨ m = 3) as [->|[->|[->| ->]]] by (simpl in Hm; lia); by vm_compute. }
  replace (Z.of_nat (S k)) with (Z.succ (Z.of_nat k)) in * by lia. rewrite Z.pow_succ_r in * by lia.
  change (digit_ones (S (S k)) m) with (ones_of_digit (m mod 8) + 8 * digit_ones (S k) (m / 8)).
  pose proof (ones_of_digit_bound (m mod 8) (Z.mod_pos_bound m 8 ltac:(lia))).
  specialize (IH (m / 8) ltac:(split; [apply Z.div_pos; lia|apply Z.div_lt_upper_bound; lia])). lia.
Qed.

Fixpoint digit_sum (k : nat) (m : Z) : Z :=
  match k with O => 0 | S k => ones_of_digit (m mod 8) + digit_sum k (m / 8) end.

Lemma pairs_step j m :
  0 <= m < 4 * 64 ^ Z.of_nat j ->
  let t := digit_ones (S (2 * j)) m in Z.land (t + t / 8) (sevens j) mod 63 = digit_sum (S (2 * j)) m mod 63.
Proof.
  revert m. induction j as [|j IH]; intros m Hm; cbv zeta.
  { assert (m = 0 ∨ m = 1 ∨ m = 2 ∨ m = 3) as [->|[->|[->| ->]]] by (simpl in Hm; lia); by vm_compute. }
  replace (S (2 * S j)) with (S (S (S (2 * j)))) by lia. remember (S (2 * j)) as k eqn:Hk.
  cbn [digit_ones digit_sum sevens]. rewrite Z.div_div by lia. change (8 * 8) with 64.
  replace (Z.of_nat (S j)) with (Z.succ (Z.of_nat j)) in Hm by lia. rewrite Z.pow_succ_r in Hm by lia.
  specialize (IH (m / 64) ltac:(split; [apply Z.div_pos; lia|apply Z.div_lt_upper_bound; lia])). cbv zeta in IH.
  set (a := ones_of_digit (m mod 8)). set (b := ones_of_digit (m / 8 mod 8)). set (t := digit_ones k (m / 64)) in *.
  pose proof (ones_of_digit_bound (m mod 8) (Z.mod_pos_bound m 8 ltac:(lia))) as Ha. fold a in Ha.
  pose proof (ones_of_digit_bound (m / 8 mod 8) (Z.mod_pos_bound _ 8 ltac:(lia))) as Hb. fold b in Hb.
  assert (0 <= t mod 8 <= 3) as Ht.
  { unfold t. rewrite Hk. cbn [digit_ones]. rewrite (Z.mul_comm 8), Z.mod_add by lia.
    pose proof (ones_of_digit_bound (m / 64 mod 8) (Z.mod_pos_bound _ 8 ltac:(lia))). rewrite Z.mod_small by lia. lia. }
  pose proof (Z.div_mod t 8 ltac:(lia)) as Et.
  replace ((a + 8 * (b + 8 * t)) / 8) with (b + 8 * t) by (apply (Z.div_unique _ _ _ a); lia).
  replace (a + 8 * (b + 8 * t) + (b + 8 * t)) with (64 * (t + t / 8) + (8 * (t mod 8 + b) + (a + b))) by lia.
  rewrite land64 by lia. replace (Z.land (8 * (t mod 8 + b) + (a + b)) 7) with (a + b).
  2:{ symmetry. change 7 with (Z.ones 3). rewrite Z.land_ones by done. change (2 ^ 3) with 8.
      rewrite Z.add_comm, (Z.mul_comm 8), Z.mod_add, Z.mod_small by lia. done. }
  replace (64 * Z.land (t + t / 8) (sevens j) + (a + b)) with (Z.land (t + t / 8) (sevens j) + (a + b) + Z.land (t + t / 8) (sevens j) * 63) by lia.
  rewrite Z.mod_add, <- Zplus_mod_idemp_l, IH, Zplus_mod_idemp_l by lia. f_equal. lia.
Qed.

Lemma popcount_digit n m : 0 <= m -> Z.of_nat (popcount (S (S (S n))) m) = ones_of_digit (m mod 8) + Z.of_nat (popcount n (m / 8)).
Proof.
  intros Hm. cbn [popcount]. rewrite !Z.div2_div. replace (m / 2 / 2 / 2) with (m / 8) by (rewrite !Z.div_div; [done|lia..]).
  pose proof (Z.div_mod m 8 ltac:(lia)) as Em. pose proof (Z.mod_pos_bound m 8 ltac:(lia)) as Bd.
  set (r := m / 8) in *. set (d := m mod 8) in *. clearbody r d. subst m.
  replace ((8 * r + d) / 2) with (4 * r + d / 2) by (symmetry; replace (8 * r + d) with (4 * r * 2 + d) by lia; by rewrite Z.div_add_l).
  replace ((4 * r + d / 2) / 2) with (2 * r + d / 2 / 2) by (symmetry; replace (4 * r + d / 2) with (2 * r * 2 + d / 2) by lia; by rewrite Z.div_add_l).
  rewrite !Z.odd_add, !Z.odd_mul, !Nat2Z.inj_add. cbn [Z.odd andb xorb].
  assert (d = 0 ∨ d = 1 ∨ d = 2 ∨ d = 3 ∨ d = 4 ∨ d = 5 ∨ d = 6 ∨ d = 7) as Hd by lia.
  destruct Hd as [->|[->|[->|[->|[->|[->|[->| ->]]]]]]]; rewrite !Z.add_assoc; f_equal; by vm_compute.
Qed.

Lemma digit_sum_popcount k m :
  0 <= m < 4 * 8 ^ Z.of_nat k -> digit_sum (S k) m = Z.of_nat (popcount (3 * k + 2) m).
Proof.
  revert m. induction k as [|k IH]; intros m Hm.
  { assert (m = 0 ∨ m = 1 ∨ m = 2 ∨ m = 3) as [->|[->|[->| ->]]] by (simpl in Hm; lia); by vm_compute. }
  replace (3 * S k + 2)%nat with (S (S (S (3 * k + 2)))) by lia. rewrite popcount_digit by lia.
  change (digit_sum (S (S k)) m) with (ones_of_digit (m mod 8) + digit_sum (S k) (m / 8)).
  replace (Z.of_nat (S k)) with (Z.succ (Z.of_nat k)) in Hm by lia. rewrite Z.pow_succ_r in Hm by lia.
  rewrite IH; [done|]. split; [apply Z.div_pos; lia|apply Z.div_lt_upper_bound; lia].
Qed.

Lemma popcount_le n m : (popcount n m <= n)%nat.
Proof. revert m. induction n as [|n IH]; intros m; cbn [popcount]; [done|]. specialize (IH (Z.div2 m)). destruct (Z.odd m); lia. Qed.

Lemma count_ones_spec m : 0 <= m < 2 ^ 32 -> count_ones m = Z.of_nat (popcount 32 m).
Proof.
  intros Hm. unfold count_ones. rewrite !Z.shiftr_div_pow2 by done. change 0xDB6DB6DB with (threes 11).
  change 0xC71C71C7 with (sevens 5). change (2 ^ 1) with 2. change (2 ^ 3) with 8. change 0x3F with 63.
  pose proof (digits_step 11 m ltac:(change (8 ^ Z.of_nat 11) with (2 ^ 33); lia)) as E.
  pose proof (digit_ones_bound 11 m ltac:(lia)) as [Hge _]. pose proof (digit_ones_top 10 m Hm) as Hle. change (8 ^ Z.of_nat 10) with (2 ^ 30) in Hle.
  set (p := Z.land (m / 2) (threes 11)) in *. set (p2 := Z.land (p / 2) (threes 11)) in *.
  assert (0 <= p) by (apply Z.land_nonneg; left; apply Z.div_pos; lia).
  assert (0 <= p2) by (apply Z.land_nonneg; left; apply Z.div_pos; lia).
  rewrite (u32_small (m - p)), (u32_small (m - p - p2)), E by lia.
  pose proof (Z.div_mod (digit_ones 11 m) 8 ltac:(lia)). pose proof (Z.mod_pos_bound (digit_ones 11 m) 8 ltac:(lia)).
  rewrite u32_small by lia. pose proof (pairs_step 5 m Hm) as E5. cbv zeta in E5. change (S (2 * 5)) with 11%nat in E5. rewrite E5.
  rewrite (digit_sum_popcount 10 m Hm). change (3 * 10 + 2)%nat with 32%nat. pose proof (popcount_le 32 m). rewrite Z.mod_small by lia. done.
Qed.

(** ** Loops over the combinations *)

Fixpoint foldM {A S} (f : A -> S -> result S) (l : list A) (s : S) : result S :=
  match l with [] => Ok s | x :: l => s ← f x s; foldM f l s end.

(** [bits = 0; while (1) { body; GetNextBitsOrBreak(bits, mask, base); }] *)
Fixpoint for_bits {S} (n : nat) (body : Z -> S -> result S) (bits mask base : Z) (s : S) : result S :=
  match n with
  | O => Err OutOfFuel
  | S n =>
      s ← body bits s;
      next ← GetNextBitsOrBreak bits mask base;
      match next with None => Ok s | Some b => for_bits n body b mask base s end
  end.

Lemma for_bits_all {S} n (body : Z -> S -> result S) bits mask base s l :
  all_bits n bits mask base = Ok l -> for_bits n body bits mask base s = foldM body l s.
Proof.
  revert bits s l. induction n as [|n IH]; intros bits s l H; [done|]. cbn [all_bits for_bits] in *.
  destruct (GetNextBitsOrBreak bits mask base) as [[b|]|] eqn:E; cbn [mbind result_bind] in *; [|injection H as <-|done].
  - destruct (all_bits n b mask base) as [k|] eqn:Ek; [|done]. injection H as <-. cbn [foldM].
    destruct (body bits s) as [s'|]; cbn [mbind result_bind]; [|done]. by apply IH.
  - cbn [foldM]. by destruct (body bits s).
Qed.

Lemma for_bits_submasks {S} (body : Z -> S -> result S) mask s :
  0 <= mask < 2 ^ 32 -> for_bits (bits_fuel mask) body 0 mask (lowbit mask) s = foldM body (submasks 32 mask) s.
Proof. intros Hm. by apply for_bits_all, all_bits_fuel. Qed.
