(* ===== verification/ColorCells.v ===== *)
(** * ColorCells: the cells of a colour map (dix/colormap.c)

    A map has one table of cells, or one for each of red, green and blue; a cell is free,
    shared by the clients that asked for its colour, or owned by one of them.  Every client
    has the list of its pixels, once for each time that it got them. *)

From S2P Require Import Prelude Atom ResourceDB PixelBits.

#[local] Set Warnings "-clear-no-such-hyp".

(** ** Data (include/colormapst.h, include/colormap.h, include/scrnintstr.h) *)

Abbreviation Pixel := Z.

Record xrgb := mkRGB { rgb_red : Z; rgb_green : Z; rgb_blue : Z }.

(** A colour of [AllocColorPlanes], that several cells point to. *)
Record SHAREDCOLOR := mkShared { sh_color : Z; sh_refcnt : Z }.

(** The union in a cell: three values, or three pointers, of which some are not set. *)
Inductive CellColor :=
  | local_color (c : xrgb)
  | shco (r g b : option nat).

Record Entry := mkEntry { co : CellColor; refcnt : Z; fShared : bool }.

Definition AllocPrivate : Z := -1.
Definition AllocTemporary : Z := -2.

(** What [bzero] leaves. *)
Definition zero_entry : Entry := mkEntry (local_color (mkRGB 0 0 0)) 0 false.

(** One of the three tables; [clientPixels] has [numPixels] of each client. *)
Record Chan := mkChan { cells : list Entry; nfree : Z; clientPixels : list (list Pixel) }.

Inductive channel := REDMAP | GREENMAP | BLUEMAP | PSEUDOMAP.

#[export] Instance channel_eq_dec : EqDecision channel.
Proof. solve_decision. Defined.

Record VisualRec := mkVisual {
  vid : Z; v_class : Z; ColormapEntries : Z; nplanes : Z;
  redMask : Z; greenMask : Z; blueMask : Z; offsetRed : Z; offsetGreen : Z; offsetBlue : Z
}.

Record ColormapRec := mkMap {
  pVisual : VisualRec; cm_class : Z; cm_mid : XID; cm_flags : Z;
  red : Chan; green : Chan; blue : Chan
}.

Definition StaticGray : Z := 0.
Definition GrayScale : Z := 1.
Definition StaticColor : Z := 2.
Definition PseudoColor : Z := 3.
Definition TrueColor : Z := 4.
Definition DirectColor : Z := 5.
Definition DynamicClass : Z := 1.

Definition IsDefault : Z := 1.
Definition AllAllocated : Z := 2.
Definition BeingCreated : Z := 4.

Definition DoRed : Z := 1.
Definition DoGreen : Z := 2.
Definition DoBlue : Z := 4.

Record xColorItem := mkItem { it_pixel : Pixel; it_rgb : xrgb; it_flags : Z }.

(** What the maps share: the shared colours in memory and the next address, what the
    [StoreColors] of the screen was called with, the resources of type [RT_CMAPENTRY], and
    the outcomes of the next allocations. *)
Record CmapWorld := mkCmapWorld {
  shared : gmap nat SHAREDCOLOR;
  next_shared : nat;
  hardware : list (list xColorItem);
  cmapEntries : list (XID * Z);
  clientErrorValue : Z;
  mem : oracle
}.

Definition set_shared (w : CmapWorld) sh n := mkCmapWorld sh n (hardware w) (cmapEntries w) (clientErrorValue w) (mem w).
Definition call_StoreColors (w : CmapWorld) (defs : list xColorItem) :=
  mkCmapWorld (shared w) (next_shared w) (hardware w ++ [defs]) (cmapEntries w) (clientErrorValue w) (mem w).
Definition set_entries (w : CmapWorld) e := mkCmapWorld (shared w) (next_shared w) (hardware w) e (clientErrorValue w) (mem w).
Definition set_error (w : CmapWorld) v := mkCmapWorld (shared w) (next_shared w) (hardware w) (cmapEntries w) v (mem w).
Definition c_alloc (w : CmapWorld) : bool * CmapWorld :=
  let '(ok, o) := alloc (mem w) in
  (ok, mkCmapWorld (shared w) (next_shared w) (hardware w) (cmapEntries w) (clientErrorValue w) o).

(** *** Access *)

Definition get_chan (m : ColormapRec) (ch : channel) : Chan :=
  match ch with REDMAP | PSEUDOMAP => red m | GREENMAP => green m | BLUEMAP => blue m end.

Definition set_chan (m : ColormapRec) (ch : channel) (c : Chan) : ColormapRec :=
  match ch with
  | REDMAP | PSEUDOMAP => mkMap (pVisual m) (cm_class m) (cm_mid m) (cm_flags m) c (green m) (blue m)
  | GREENMAP => mkMap (pVisual m) (cm_class m) (cm_mid m) (cm_flags m) (red m) c (blue m)
  | BLUEMAP => mkMap (pVisual m) (cm_class m) (cm_mid m) (cm_flags m) (red m) (green m) c
  end.

Definition set_flags (m : ColormapRec) f := mkMap (pVisual m) (cm_class m) (cm_mid m) f (red m) (green m) (blue m).

Definition get_cell (c : Chan) (i : Pixel) : result Entry :=
  if i <? 0 then Err OutOfBounds else of_option OutOfBounds (cells c !! Z.to_nat i).
Definition set_cell (c : Chan) (i : Pixel) (e : Entry) : Chan :=
  mkChan (<[Z.to_nat i := e]> (cells c)) (nfree c) (clientPixels c).
Definition add_free (c : Chan) (n : Z) : Chan := mkChan (cells c) (nfree c + n) (clientPixels c).

Definition get_pixels (c : Chan) (client : Z) : result (list Pixel) :=
  if client <? 0 then Err OutOfBounds else of_option OutOfBounds (clientPixels c !! Z.to_nat client).
Definition set_pixels (c : Chan) (client : Z) (l : list Pixel) : Chan :=
  mkChan (cells c) (nfree c) (<[Z.to_nat client := l]> (clientPixels c)).

Definition with_refcnt (e : Entry) (n : Z) : Entry := mkEntry (co e) n (fShared e).
Definition with_shared (e : Entry) (b : bool) : Entry := mkEntry (co e) (refcnt e) b.
Definition with_color (e : Entry) (c : CellColor) : Entry := mkEntry c (refcnt e) (fShared e).

(** [co.local]: the pointers of a shared cell are not a colour. *)
Definition local_of (e : Entry) : result xrgb :=
  match co e with local_color c => Ok c | shco _ _ _ => Err Corrupted end.

Definition set_comp (ch : channel) (c v : xrgb) : xrgb :=
  match ch with
  | REDMAP => mkRGB (rgb_red v) (rgb_green c) (rgb_blue c)
  | GREENMAP => mkRGB (rgb_red c) (rgb_green v) (rgb_blue c)
  | BLUEMAP => mkRGB (rgb_red c) (rgb_green c) (rgb_blue v)
  | PSEUDOMAP => v
  end.

(** Assignment to [co.local], of all of it or of one component. *)
Definition store_local (ch : channel) (e : Entry) (v : xrgb) : result Entry :=
  match ch with
  | PSEUDOMAP => Ok (with_color e (local_color v))
  | _ => c ← local_of e; Ok (with_color e (local_color (set_comp ch c v)))
  end.

Definition shared_at (w : CmapWorld) (p : option nat) : result (nat * SHAREDCOLOR) :=
  p ← of_option Dangling p; s ← of_option Dangling (shared w !! p); Ok (p, s).

(** The color that a cell shows. *)
Definition shown (w : CmapWorld) (e : Entry) : result xrgb :=
  if fShared e then
    match co e with
    | shco r g b => '(_, r) ← shared_at w r; '(_, g) ← shared_at w g; '(_, b) ← shared_at w b; Ok (mkRGB (sh_color r) (sh_color g) (sh_color b))
    | local_color _ => Err Corrupted
    end
  else local_of e.

(** *** Visuals *)

Definition mask_of (v : VisualRec) (ch : channel) : Z :=
  match ch with REDMAP => redMask v | GREENMAP => greenMask v | BLUEMAP => blueMask v | PSEUDOMAP => u32 (Z.lnot 0) end.
Definition offset_of (v : VisualRec) (ch : channel) : Z :=
  match ch with REDMAP => offsetRed v | GREENMAP => offsetGreen v | BLUEMAP => offsetBlue v | PSEUDOMAP => 0 end.

(** [NUMRED], [NUMGREEN] and [NUMBLUE], or all entries. *)
Definition numents (v : VisualRec) (ch : channel) : Z :=
  match ch with PSEUDOMAP => ColormapEntries v | _ => Z.shiftr (mask_of v ch) (offset_of v ch) + 1 end.

(** A pixel of a table as it is in a pixel of the map. *)
Definition shift_pixel (v : VisualRec) (ch : channel) (p : Pixel) : Pixel :=
  match ch with PSEUDOMAP => p | _ => u32 (Z.shiftl p (offset_of v ch)) end.
(** [(pixel & mask) >> offset] *)
Definition pixel_of (v : VisualRec) (ch : channel) (p : Pixel) : Pixel := Z.shiftr (Z.land p (mask_of v ch)) (offset_of v ch).

(** [class & DynamicClass], and [(class | DynamicClass) == DirectColor] *)
Definition dynamic (class : Z) : bool := negb (Z.land class DynamicClass =? 0).
Definition has_channels (class : Z) : bool := Z.lor class DynamicClass =? DirectColor.
Definition has_flag (m : ColormapRec) (f : Z) : bool := negb (Z.land (cm_flags m) f =? 0).

(** ** The nearest color *)

Record BigNumRec := mkBig { upper : Z; lower : Z }.

Definition BIGNUMLOWER : Z := 2 ^ 24.
Definition BIGNUMUPPER : Z := 2 ^ 16.

Definition BigNumGreater (x y : BigNumRec) : bool :=
  (upper y <? upper x) || ((upper x =? upper y) && (lower y <? lower x)).
Definition UnsignedToBigNum (u : Z) : BigNumRec := mkBig (u16 (Z.shiftr u 24)) (Z.land u (BIGNUMLOWER - 1)).
Definition MaxBigNum : BigNumRec := mkBig (BIGNUMUPPER - 1) (BIGNUMLOWER - 1).

Definition BigNumAdd (x y : BigNumRec) : BigNumRec :=
  let l := lower x + lower y in
  if BIGNUMLOWER <=? l then mkBig (u16 (upper x + upper y + 1)) (l - BIGNUMLOWER)
  else mkBig (u16 (upper x + upper y)) l.

(** The differences are of type [long], with 64 bits, and their squares [unsigned long]. *)
Definition color_distance (ch : channel) (c v : xrgb) : BigNumRec :=
  let dg := match ch with PSEUDOMAP | GREENMAP => rgb_green c - rgb_green v | _ => 0 end in
  let db := match ch with PSEUDOMAP | BLUEMAP => rgb_blue c - rgb_blue v | _ => 0 end in
  let dr := match ch with PSEUDOMAP | REDMAP => rgb_red c - rgb_red v | _ => 0 end in
  let sum := UnsignedToBigNum (u64 (dr * dr)) in
  let sum := BigNumAdd sum (UnsignedToBigNum (u64 (dg * dg))) in
  BigNumAdd sum (UnsignedToBigNum (u64 (db * db))).

(** [n] cells are left, from [pixel] on. *)
Fixpoint best_pixel (n : nat) (c : Chan) (prgb : xrgb) (ch : channel) (pixel final : Pixel) (minval : BigNumRec) : result Pixel :=
  match n with
  | O => Ok final
  | S n =>
      e ← get_cell c pixel; v ← local_of e;
      let sum := color_distance ch v prgb in
      if BigNumGreater minval sum then best_pixel n c prgb ch (pixel + 1) pixel sum
      else best_pixel n c prgb ch (pixel + 1) final minval
  end.

Definition FindBestPixel (c : Chan) (size : Z) (prgb : xrgb) (ch : channel) : result Pixel :=
  best_pixel (Z.to_nat size) c prgb ch 0 0 MaxBigNum.

(** [AllComp], [RedComp], [GreenComp] and [BlueComp] *)
Definition same_color (ch : channel) (c prgb : xrgb) : bool :=
  match ch with
  | PSEUDOMAP => (rgb_red c =? rgb_red prgb) && (rgb_green c =? rgb_green prgb) && (rgb_blue c =? rgb_blue prgb)
  | REDMAP => rgb_red c =? rgb_red prgb
  | GREENMAP => rgb_green c =? rgb_green prgb
  | BLUEMAP => rgb_blue c =? rgb_blue prgb
  end.

Definition Comp (ch : channel) (e : Entry) (prgb : xrgb) : result bool :=
  c ← local_of e; Ok (same_color ch c prgb).

(** Cell [i] is looked at while the variable [pixel] may have been shifted. *)
Fixpoint root_search (n : nat) (v : VisualRec) (c : Chan) (prgb : xrgb) (ch : channel) (i pixel pPixel : Pixel) : result Pixel :=
  match n with
  | O => Ok pPixel
  | S n =>
      e ← get_cell c i;
      found ← (if 0 <? refcnt e then Comp ch e prgb else Ok false);
      let pixel := if found : bool then shift_pixel v ch pixel else pixel in
      root_search n v c prgb ch (i + 1) (u32 (pixel + 1)) (if found then pixel else pPixel)
  end.

Definition FindColorInRootCmap (m : ColormapRec) (size : Z) (prgb : xrgb) (pPixel : Pixel) (ch : channel) : result Pixel :=
  let pixel := if size <=? pPixel then 0 else pPixel in
  root_search (Z.to_nat size) (pVisual m) (get_chan m ch) prgb ch pixel pixel pPixel.

(** ** Getting a color *)

Inductive color_search := Match (pixel : Pixel) | NoMatch (foundFree : option Pixel).

(** From [pixel] on, and from the first cell after the last one. *)
Fixpoint search_color (n : nat) (c : Chan) (size : Z) (prgb : xrgb) (ch : channel) (creating : bool) (pixel : Pixel) (slot : option Pixel)
    : result color_search :=
  match n with
  | O => Ok (NoMatch slot)
  | S n =>
      e ← get_cell c pixel;
      let next := if size <=? pixel + 1 then 0 else pixel + 1 in
      if 0 <? refcnt e then
        same ← Comp ch e prgb;
        if same : bool then Ok (Match pixel) else search_color n c size prgb ch creating next slot
      else
        match slot with
        | None =>
            if refcnt e =? 0 then
              if creating then Ok (NoMatch (Some pixel)) else search_color n c size prgb ch creating next (Some pixel)
            else search_color n c size prgb ch creating next slot
        | Some _ => search_color n c size prgb ch creating next slot
        end
  end.

(** The item for [StoreColors]: the other components are those of the first cells. *)
Definition new_item (m : ColormapRec) (ch : channel) (prgb : xrgb) (slot : Pixel) : result xColorItem :=
  match ch with
  | PSEUDOMAP => Ok (mkItem slot prgb (DoRed + DoGreen + DoBlue))
  | _ =>
      r ← (match ch with REDMAP => Ok prgb | _ => e ← get_cell (red m) 0; local_of e end);
      g ← (match ch with GREENMAP => Ok prgb | _ => e ← get_cell (green m) 0; local_of e end);
      b ← (match ch with BLUEMAP => Ok prgb | _ => e ← get_cell (blue m) 0; local_of e end);
      Ok (mkItem (shift_pixel (pVisual m) ch slot) (mkRGB (rgb_red r) (rgb_green g) (rgb_blue b))
            (match ch with REDMAP => DoRed | GREENMAP => DoGreen | _ => DoBlue end))
  end.

(** "gotit": one more pixel for the client; without memory for it the cell is given back. *)
Definition remember_pixel (m : ColormapRec) (ch : channel) (client : Z) (pixel : Pixel) (w : CmapWorld)
    : result (Status * ColormapRec * CmapWorld) :=
  if has_flag m BeingCreated || (client =? -1) then Ok (Success, m, w) else
  let c := get_chan m ch in
  l ← get_pixels c client;
  let '(ok, w) := c_alloc w in
  if ok : bool then Ok (Success, set_chan m ch (set_pixels c client (l ++ [pixel])), w)
  else
    e ← get_cell c pixel;
    let c := set_cell c pixel (with_refcnt e (wrap_s 16 (refcnt e - 1))) in
    Ok (BadAlloc, set_chan m ch (if fShared e then c else add_free c 1), w).

(** The result, and [*pPixel]. *)
Definition FindColor (m : ColormapRec) (size : Z) (prgb : xrgb) (pPixel : Pixel) (ch : channel) (client : Z) (w : CmapWorld)
    : result (Status * Pixel * ColormapRec * CmapWorld) :=
  let c := get_chan m ch in
  let pixel := if size <=? pPixel then 0 else pPixel in
  r ← search_color (Z.to_nat size) c size prgb ch (has_flag m BeingCreated) pixel None;
  match r with
  | Match pixel =>
      e ← get_cell c pixel;
      let c := if 0 <=? client then set_cell c pixel (with_refcnt e (wrap_s 16 (refcnt e + 1))) else c in
      '(rc, m, w) ← remember_pixel (set_chan m ch c) ch client pixel w;
      Ok (rc, shift_pixel (pVisual m) ch pixel, m, w)
  | NoMatch None => Ok (BadAlloc, pPixel, m, w)
  | NoMatch (Some slot) =>
      e ← get_cell c slot;
      let e := with_refcnt (with_shared e false) (if 0 <=? client then 1 else AllocTemporary) in
      e ← store_local ch e prgb;
      let c := set_cell c slot e in
      let m := set_chan m ch (if 0 <=? client then add_free c (-1) else c) in
      def ← new_item m ch prgb slot;
      '(rc, m, w) ← remember_pixel m ch client slot (call_StoreColors w [def]);
      Ok (rc, it_pixel def, m, w)
  end.

(** ** Giving cells back *)

(** [if (--p->refcnt == 0) xfree(p)] *)
Definition release (w : CmapWorld) (p : option nat) : result CmapWorld :=
  '(p, s) ← shared_at w p;
  let n := wrap_s 16 (sh_refcnt s - 1) in
  Ok (set_shared w (if n =? 0 then delete p (shared w) else <[p := mkShared (sh_color s) n]> (shared w)) (next_shared w)).

Definition release_cell (e : Entry) (w : CmapWorld) : result CmapWorld :=
  if fShared e then
    match co e with
    | shco r g b => w ← release w r; w ← release w g; release w b
    | local_color _ => Err Corrupted
    end
  else Ok w.

Definition FreeCell (m : ColormapRec) (i : Pixel) (ch : channel) (w : CmapWorld) : result (ColormapRec * CmapWorld) :=
  let c := get_chan m ch in
  e ← get_cell c i;
  if 1 <? refcnt e then Ok (set_chan m ch (set_cell c i (with_refcnt e (refcnt e - 1))), w) else
  w ← release_cell e w;
  Ok (set_chan m ch (add_free (set_cell c i (mkEntry (co e) 0 false)) 1), w).

Definition no_pixel : Pixel := u32 (Z.lnot 0).

(** Replaces the first occurrence, if there is one. *)
Fixpoint zap (l : list Pixel) (p : Pixel) : option (list Pixel) :=
  match l with
  | [] => None
  | x :: l => if x =? p then Some (no_pixel :: l) else cons x <$> zap l p
  end.

(** Takes [n] pixels that are not zapped. *)
Fixpoint compact_pixels (n : nat) (l : list Pixel) : result (list Pixel) :=
  match n, l with
  | O, _ => Ok []
  | S _, [] => Err OutOfBounds
  | S n', x :: l => if x =? no_pixel then compact_pixels n l else k ← compact_pixels n' l; Ok (x :: k)
  end.

(** *** What the loops of [FreeCo] change *)
Record FreeSt := mkFree { f_map : ColormapRec; f_pixels : list Pixel; f_zapped : nat; f_err : Status; f_world : CmapWorld }.

(** [ALPHAMASK], with and without the Composite extension, and [RGBMASK] *)
Definition ALPHAMASK (COMPOSITE : bool) (v : VisualRec) : Z :=
  if COMPOSITE then if nplanes v <? 32 then 0 else u32 (Z.lnot (Z.lor (Z.lor (redMask v) (greenMask v)) (blueMask v))) else 0.
Definition RGBMASK (COMPOSITE : bool) (v : VisualRec) : Z :=
  Z.lor (Z.lor (Z.lor (redMask v) (greenMask v)) (blueMask v)) (ALPHAMASK COMPOSITE v).

Definition free_one (ch : channel) (rgbbad : Pixel) (bits ptr : Pixel) (s : FreeSt) : result FreeSt :=
  let v := pVisual (f_map s) in
  let pixTest := pixel_of v ch (Z.lor ptr bits) in
  if (numents v ch <=? pixTest) || negb (Z.land ptr rgbbad =? 0) then
    Ok (mkFree (f_map s) (f_pixels s) (f_zapped s) BadValue (set_error (f_world s) (Z.lor ptr bits)))
  else
    match zap (f_pixels s) pixTest with
    | Some l =>
        '(m, w) ← (if dynamic (cm_class (f_map s)) then FreeCell (f_map s) pixTest ch (f_world s) else Ok (f_map s, f_world s));
        Ok (mkFree m l (S (f_zapped s)) (f_err s) w)
    | None => Ok (mkFree (f_map s) (f_pixels s) (f_zapped s) BadAccess (f_world s))
    end.

Section Screen.

(** The build has the Composite extension. *)
Context (COMPOSITE : bool).

Definition FreeCo (m : ColormapRec) (client : Z) (ch : channel) (pixels : list Pixel) (mask : Pixel) (w : CmapWorld)
    : result (Status * ColormapRec * CmapWorld) :=
  match pixels with
  | [] => Ok (Success, m, w)
  | _ =>
      let rgbbad := match ch with PSEUDOMAP => 0 | _ => u32 (Z.lnot (RGBMASK COMPOSITE (pVisual m))) end in
      l ← get_pixels (get_chan m ch) client;
      s ← for_bits (bits_fuel mask) (λ bits, foldM (free_one ch rgbbad bits) pixels) 0 mask (lowbit mask) (mkFree m l 0 Success w);
      if (f_zapped s =? 0)%nat then Ok (f_err s, f_map s, f_world s) else
      let npixNew := (length (f_pixels s) - f_zapped s)%nat in
      l ← compact_pixels npixNew (f_pixels s);
      let w := if (npixNew =? 0)%nat then f_world s else snd (c_alloc (f_world s)) in
      Ok (f_err s, set_chan (f_map s) ch (set_pixels (get_chan (f_map s) ch) client l), w)
  end.

Definition FreeColors (m : ColormapRec) (client : Z) (pixels : list Pixel) (mask : Pixel) (w : CmapWorld)
    : result (Status * ColormapRec * CmapWorld) :=
  let v := pVisual m in
  if has_flag m AllAllocated then Ok (BadAccess, m, w) else
  '(result, rmask, m, w) ←
    (if has_channels (cm_class m) then
       '(result, m, w) ← FreeCo m client REDMAP pixels (Z.land mask (redMask v)) w;
       '(rval, m, w) ← FreeCo m client GREENMAP pixels (Z.land mask (greenMask v)) w;
       let result := if decide (rval = Success) then result else rval in
       '(rval, m, w) ← FreeCo m client BLUEMAP pixels (Z.land mask (blueMask v)) w;
       let result := if decide (rval = Success) then result else rval in
       Ok (result, Z.land mask (RGBMASK COMPOSITE v), m, w)
     else
       let rmask := Z.land mask (u32 (u32 (Z.shiftl 1 (nplanes v)) - 1)) in
       '(result, m, w) ← FreeCo m client PSEUDOMAP pixels rmask w;
       Ok (result, rmask, m, w));
  match pixels with
  | p :: _ => if negb (mask =? rmask) then Ok (BadValue, m, set_error w (Z.lor p mask)) else Ok (result, m, w)
  | [] => Ok (result, m, w)
  end.

(** One table of [FreePixels] *)
Definition free_channel (client : Z) (ch : channel) (m : ColormapRec) (w : CmapWorld) : result (ColormapRec * CmapWorld) :=
  l ← get_pixels (get_chan m ch) client;
  '(m, w) ← (if dynamic (cm_class m) then foldM (λ p '(m, w), FreeCell m p ch w) l (m, w) else Ok (m, w));
  Ok (set_chan m ch (set_pixels (get_chan m ch) client []), w).

Definition FreePixels (m : ColormapRec) (client : Z) (w : CmapWorld) : result (ColormapRec * CmapWorld) :=
  '(m, w) ← free_channel client REDMAP m w;
  if has_channels (cm_class m) then
    '(m, w) ← free_channel client GREENMAP m w;
    free_channel client BLUEMAP m w
  else Ok (m, w).

(** [AddResource(FakeClientID(client), RT_CMAPENTRY, pcr)]: without memory the resource is
    destroyed at once, by [FreeClientPixels]. *)
Definition add_cmapentry (m : ColormapRec) (client : Z) (w : CmapWorld) : result (Status * ColormapRec * CmapWorld) :=
  let '(ok, w) := c_alloc w in
  if ok : bool then Ok (Success, m, set_entries w ((cm_mid m, client) :: cmapEntries w))
  else '(m, w) ← FreePixels m client w; Ok (BadAlloc, m, w).

(** The screen: its [ResolveColor] procedure, its default map and its root visual. *)
Context (ResolveColor : VisualRec -> xrgb -> xrgb) (defColormap : XID) (rootVisual : Z).

(** One table of a map that cannot be changed: the nearest color, and one more pixel
    after the first [npix] of the client. *)
Definition find_static (m : ColormapRec) (ch : channel) (prgb : xrgb) : result (Pixel * xrgb) :=
  p ← FindBestPixel (get_chan m ch) (numents (pVisual m) ch) prgb ch;
  e ← get_cell (get_chan m ch) p; c ← local_of e; Ok (p, c).

Definition grow_pixels (m : ColormapRec) (ch : channel) (client : Z) (w : CmapWorld) : result (option (list Pixel) * CmapWorld) :=
  l ← get_pixels (get_chan m ch) client;
  let '(ok, w) := c_alloc w in Ok ((if ok : bool then Some l else None), w).

Definition put_pixel (m : ColormapRec) (ch : channel) (client : Z) (l : list Pixel) (p : Pixel) : ColormapRec :=
  set_chan m ch (set_pixels (get_chan m ch) client (l ++ [p])).

(** The [StaticColor] and [StaticGray] case, with the answer in the reply *)
Definition alloc_static (m : ColormapRec) (rgb : xrgb) (client : Z) (w : CmapWorld) : result (Status * xrgb * Pixel * ColormapRec * CmapWorld) :=
  '(p, c) ← find_static m PSEUDOMAP rgb;
  '(l, w) ← grow_pixels m REDMAP client w;
  match l with
  | None => Ok (BadAlloc, c, p, m, w)
  | Some l => Ok (Success, c, p, put_pixel m REDMAP client l p, w)
  end.

(** The [TrueColor] case: the numbers of pixels only change when there was memory for all. *)
Definition alloc_true (m : ColormapRec) (rgb : xrgb) (client : Z) (w : CmapWorld) : result (Status * xrgb * Pixel * ColormapRec * CmapWorld) :=
  let v := pVisual m in
  '(pixR, r) ← find_static m REDMAP rgb;
  '(pixG, g) ← find_static m GREENMAP rgb;
  '(pixB, b) ← find_static m BLUEMAP rgb;
  let p := Z.lor (Z.lor (Z.lor (shift_pixel v REDMAP pixR) (shift_pixel v GREENMAP pixG)) (shift_pixel v BLUEMAP pixB))
             (ALPHAMASK COMPOSITE v) in
  let c := mkRGB (rgb_red r) (rgb_green g) (rgb_blue b) in
  '(lr, w) ← grow_pixels m REDMAP client w;
  match lr with
  | None => Ok (BadAlloc, c, p, m, w)
  | Some lr =>
      '(lg, w) ← grow_pixels m GREENMAP client w;
      match lg with
      | None => Ok (BadAlloc, c, p, m, w)
      | Some lg =>
          '(lb, w) ← grow_pixels m BLUEMAP client w;
          match lb with
          | None => Ok (BadAlloc, c, p, m, w)
          | Some lb =>
              let m := put_pixel m REDMAP client lr pixR in
              let m := put_pixel m GREENMAP client lg pixG in
              Ok (Success, c, p, put_pixel m BLUEMAP client lb pixB, w)
          end
      end
  end.

(** The default map, if another map of the root visual may look for its color there. *)
Definition in_root_map (m : ColormapRec) (prootmap : option ColormapRec) : result (option ColormapRec) :=
  if negb (cm_mid m =? defColormap) && (vid (pVisual m) =? rootVisual) then
    r ← of_option Dangling prootmap;
    Ok (if cm_class m =? cm_class r then Some r else None)
  else Ok None.

Definition alloc_pseudo (m : ColormapRec) (prootmap : option ColormapRec) (rgb : xrgb) (pPix : Pixel) (client : Z) (w : CmapWorld)
    : result (Status * Pixel * ColormapRec * CmapWorld) :=
  let entries := ColormapEntries (pVisual m) in
  r ← in_root_map m prootmap;
  pPix ← (match r with Some r => FindColorInRootCmap r entries rgb pPix PSEUDOMAP | None => Ok pPix end);
  '(rc, p, m, w) ← FindColor m entries rgb pPix PSEUDOMAP client w;
  Ok (if decide (rc = Success) then Success else BadAlloc, p, m, w).

Definition root_direct (m r : ColormapRec) (rgb : xrgb) (pPix : Pixel) : result Pixel :=
  let v := pVisual m in
  let entries := ColormapEntries v in
  pixR ← FindColorInRootCmap r entries rgb (pixel_of v REDMAP pPix) REDMAP;
  pixG ← FindColorInRootCmap r entries rgb (pixel_of v GREENMAP pPix) GREENMAP;
  pixB ← FindColorInRootCmap r entries rgb (pixel_of v BLUEMAP pPix) BLUEMAP;
  Ok (Z.lor (Z.lor pixR pixG) pixB).

Definition alloc_direct (m : ColormapRec) (prootmap : option ColormapRec) (rgb : xrgb) (pPix : Pixel) (client : Z) (w : CmapWorld)
    : result (Status * Pixel * ColormapRec * CmapWorld) :=
  let v := pVisual m in
  r ← in_root_map m prootmap;
  pPix ← (match r with Some r => root_direct m r rgb pPix | None => Ok pPix end);
  '(rc, pixR, m, w) ← FindColor m (numents v REDMAP) rgb (pixel_of v REDMAP pPix) REDMAP client w;
  if decide (rc <> Success) then Ok (BadAlloc, pPix, m, w) else
  '(rc, pixG, m, w) ← FindColor m (numents v GREENMAP) rgb (pixel_of v GREENMAP pPix) GREENMAP client w;
  if decide (rc <> Success) then
    '(_, m, w) ← FreeCo m client REDMAP [pixR] 0 w; Ok (BadAlloc, pPix, m, w)
  else
  '(rc, pixB, m, w) ← FindColor m (numents v BLUEMAP) rgb (pixel_of v BLUEMAP pPix) BLUEMAP client w;
  if decide (rc <> Success) then
    '(_, m, w) ← FreeCo m client GREENMAP [pixG] 0 w;
    '(_, m, w) ← FreeCo m client REDMAP [pixR] 0 w; Ok (BadAlloc, pPix, m, w)
  else
  Ok (Success, Z.lor (Z.lor (Z.lor pixR pixG) pixB) (ALPHAMASK COMPOSITE v), m, w).

(** [prootmap] is what the default map of the screen is looked up as.  The result has the
    values of [*pred], [*pgreen] and [*pblue], and [*pPix]. *)
Definition AllocColor (m : ColormapRec) (prootmap : option ColormapRec) (pred : xrgb) (pPix : Pixel) (client : Z) (w : CmapWorld)
    : result (Status * xrgb * Pixel * ColormapRec * CmapWorld) :=
  let rgb := ResolveColor (pVisual m) pred in
  let class := if has_flag m BeingCreated then Z.lor (cm_class m) DynamicClass else cm_class m in
  '(rc, c, pPix, m, w) ←
    (if (class =? StaticColor) || (class =? StaticGray) then alloc_static m rgb client w
     else if class =? TrueColor then alloc_true m rgb client w
     else if (class =? GrayScale) || (class =? PseudoColor) then
       '(rc, p, m, w) ← alloc_pseudo m prootmap rgb pPix client w; Ok (rc, rgb, p, m, w)
     else if class =? DirectColor then
       '(rc, p, m, w) ← alloc_direct m prootmap rgb pPix client w; Ok (rc, rgb, p, m, w)
     else Ok (Success, rgb, pPix, m, w));
  if decide (rc <> Success) then Ok (rc, c, pPix, m, w) else
  l ← get_pixels (red m) client;
  if (length l =? 1)%nat && negb (CLIENT_ID (cm_mid m) =? client) && negb (has_flag m BeingCreated) then
    let '(ok, w) := c_alloc w in
    if ok : bool then '(rc, m, w) ← add_cmapentry m client w; Ok (rc, c, pPix, m, w)
    else '(_, m, w) ← FreeColors m client [pPix] 0 w; Ok (BadAlloc, c, pPix, m, w)
  else Ok (Success, c, pPix, m, w).

(** *** Colors of the server itself *)

Definition found_or_best (m : ColormapRec) (ch : channel) (prgb : xrgb) (pPixel : Pixel) (w : CmapWorld)
    : result (Pixel * ColormapRec * CmapWorld) :=
  let v := pVisual m in
  '(rc, p, m, w) ← FindColor m (numents v ch) prgb pPixel ch (-1) w;
  if decide (rc <> Success) then
    p ← FindBestPixel (get_chan m ch) (numents v ch) prgb ch; Ok (shift_pixel v ch p, m, w)
  else Ok (p, m, w).

(** [temp] is what the local variable of that name starts with. *)
Definition FakeAllocColor (m : ColormapRec) (item : xColorItem) (temp : Pixel) (w : CmapWorld) : result (Pixel * ColormapRec * CmapWorld) :=
  let v := pVisual m in
  let rgb := ResolveColor v (it_rgb item) in
  let class := cm_class m in
  if (class =? GrayScale) || (class =? PseudoColor) then found_or_best m PSEUDOMAP rgb temp w
  else if (class =? StaticColor) || (class =? StaticGray) then
    p ← FindBestPixel (red m) (ColormapEntries v) rgb PSEUDOMAP; Ok (p, m, w)
  else if class =? DirectColor then
    '(pixR, m, w) ← found_or_best m REDMAP rgb (pixel_of v REDMAP (it_pixel item)) w;
    '(pixG, m, w) ← found_or_best m GREENMAP rgb (pixel_of v GREENMAP (it_pixel item)) w;
    '(pixB, m, w) ← found_or_best m BLUEMAP rgb (pixel_of v BLUEMAP (it_pixel item)) w;
    Ok (Z.lor (Z.lor pixR pixG) pixB, m, w)
  else if class =? TrueColor then
    pixR ← FindBestPixel (red m) (numents v REDMAP) rgb REDMAP;
    pixG ← FindBestPixel (green m) (numents v GREENMAP) rgb GREENMAP;
    pixB ← FindBestPixel (blue m) (numents v BLUEMAP) rgb BLUEMAP;
    Ok (Z.lor (Z.lor (shift_pixel v REDMAP pixR) (shift_pixel v GREENMAP pixG)) (shift_pixel v BLUEMAP pixB), m, w)
  else Ok (it_pixel item, m, w).

Definition drop_temporary (m : ColormapRec) (ch : channel) (p : Pixel) : result ColormapRec :=
  e ← get_cell (get_chan m ch) p;
  Ok (if refcnt e =? AllocTemporary then set_chan m ch (set_cell (get_chan m ch) p (with_refcnt e 0)) else m).

Definition FakeFreeColor (m : ColormapRec) (pixel : Pixel) : result ColormapRec :=
  let v := pVisual m in
  if (cm_class m =? GrayScale) || (cm_class m =? PseudoColor) then drop_temporary m PSEUDOMAP pixel
  else if cm_class m =? DirectColor then
    m ← drop_temporary m REDMAP (pixel_of v REDMAP pixel);
    m ← drop_temporary m GREENMAP (pixel_of v GREENMAP pixel);
    drop_temporary m BLUEMAP (pixel_of v BLUEMAP pixel)
  else Ok m.

(** ** Reading and writing colors *)

(** The pixels with what [prgbList] has before; a bad pixel leaves the rest of its colour. *)
Definition query_channels (m : ColormapRec) (pixel : Pixel) (prgb : xrgb) (w : CmapWorld) (errVal : Status)
    : result (xrgb * Status * CmapWorld) :=
  let v := pVisual m in
  let bad prgb := Ok (prgb, BadValue, set_error w pixel) in
  let comp ch prgb (k : xrgb -> result (xrgb * Status * CmapWorld)) :=
    let i := pixel_of v ch pixel in
    if numents v ch <=? i then bad prgb else
    e ← get_cell (get_chan m ch) i; c ← local_of e; k (set_comp ch prgb c) in
  if negb (Z.land pixel (u32 (Z.lnot (RGBMASK COMPOSITE v))) =? 0) then bad prgb else
  comp REDMAP prgb (λ prgb, comp GREENMAP prgb (λ prgb, comp BLUEMAP prgb (λ prgb, Ok (prgb, errVal, w)))).

Definition query_pixel (m : ColormapRec) (pixel : Pixel) (prgb : xrgb) (w : CmapWorld) (errVal : Status) : result (xrgb * Status * CmapWorld) :=
  if has_channels (cm_class m) then query_channels m pixel prgb w errVal
  else if ColormapEntries (pVisual m) <=? pixel then Ok (prgb, BadValue, set_error w pixel)
  else e ← get_cell (red m) pixel; c ← shown w e; Ok (c, errVal, w).

Fixpoint query_loop (m : ColormapRec) (pixels : list (Pixel * xrgb)) (w : CmapWorld) (errVal : Status) : result (list xrgb * Status * CmapWorld) :=
  match pixels with
  | [] => Ok ([], errVal, w)
  | (pixel, prgb) :: pixels =>
      '(c, errVal, w) ← query_pixel m pixel prgb w errVal;
      '(l, errVal, w) ← query_loop m pixels w errVal;
      Ok (c :: l, errVal, w)
  end.

Definition QueryColors (m : ColormapRec) (pixels : list (Pixel * xrgb)) (w : CmapWorld) : result (list xrgb * Status * CmapWorld) :=
  query_loop m pixels w Success.

(** *** [UpdateColors] *)

Fixpoint update_list (m : ColormapRec) (w : CmapWorld) (n : nat) (i : Z) : result (list xColorItem) :=
  match n with
  | O => Ok []
  | S n =>
      let v := pVisual m in
      item ← (if cm_class m =? DirectColor then
                r ← get_cell (red m) i; g ← get_cell (green m) i; b ← get_cell (blue m) i;
                if (refcnt r =? 0) && (refcnt g =? 0) && (refcnt b =? 0) then Ok None else
                cr ← local_of r; cg ← local_of g; cb ← local_of b;
                Ok (Some (mkItem (Z.lor (Z.lor (shift_pixel v REDMAP i) (shift_pixel v GREENMAP i)) (shift_pixel v BLUEMAP i))
                            (mkRGB (rgb_red cr) (rgb_green cg) (rgb_blue cb)) (DoRed + DoGreen + DoBlue)))
              else
                e ← get_cell (red m) i;
                if refcnt e =? 0 then Ok None else
                c ← shown w e; Ok (Some (mkItem i c (DoRed + DoGreen + DoBlue))));
      l ← update_list m w n (i + 1);
      Ok (match item with Some item => item :: l | None => l end)
  end.

Definition UpdateColors (m : ColormapRec) (w : CmapWorld) : result CmapWorld :=
  let '(ok, w) := c_alloc w in
  if negb ok then Ok w else
  defs ← update_list m w (Z.to_nat (ColormapEntries (pVisual m))) 0;
  Ok (match defs with [] => w | _ => call_StoreColors w defs end).

(** ** Maps *)

(** [pent->refcnt = AllocPrivate] for the first [size] cells, all of them pixels of the client. *)
Definition alloc_all (c : Chan) (size client : Z) : result Chan :=
  if Z.of_nat (length (cells c)) <? size then Err OutOfBounds else
  let n := Z.to_nat size in
  let c := mkChan (((λ e, with_refcnt e AllocPrivate) <$> take n (cells c)) ++ drop n (cells c)) 0 (clientPixels c) in
  _ ← get_pixels c client;
  Ok (set_pixels c client (Z.of_nat <$> seq 0 n)).

Definition new_chan (v : VisualRec) (ch : channel) : Chan :=
  mkChan (replicate (Z.to_nat (ColormapEntries v)) zero_entry) (numents v ch) (replicate (Z.to_nat MAXCLIENTS) []).
(** A table that the map does not have. *)
Definition no_chan : Chan := mkChan [] 0 [].

(** The channels with [AllocAll]; [None] without memory for a list of pixels. *)
Fixpoint alloc_channels (chs : list channel) (m : ColormapRec) (client : Z) (w : CmapWorld) : result (option ColormapRec * CmapWorld) :=
  match chs with
  | [] => Ok (Some m, w)
  | ch :: chs =>
      c ← alloc_all (get_chan m ch) (numents (pVisual m) ch) client;
      let '(ok, w) := c_alloc w in
      if ok : bool then alloc_channels chs (set_chan m ch c) client w else Ok (None, w)
  end.

Definition first_map (mid : XID) (v : VisualRec) : ColormapRec :=
  let flags := if mid =? defColormap then IsDefault else 0 in
  if has_channels (v_class v) then mkMap v (v_class v) mid flags (new_chan v REDMAP) (new_chan v GREENMAP) (new_chan v BLUEMAP)
  else mkMap v (v_class v) mid flags (new_chan v PSEUDOMAP) no_chan no_chan.

(** The [CreateColormap] procedure of the screen, which may allocate the first colors, and
    the number of private values that maps have. *)
Context (create : ColormapRec -> CmapWorld -> result (bool * ColormapRec * CmapWorld)) (colormapPrivateCount : Z).

(** When [AddResource] fails it frees the map, whose [devPrivates] is not set before. *)
Definition CreateColormap (mid : XID) (v : VisualRec) (all : bool) (client : Z) (w : CmapWorld) : result (Status * option ColormapRec * CmapWorld) :=
  if negb (dynamic (v_class v)) && all && negb (client =? 0) then Ok (BadMatch, None, w) else
  let '(ok, w) := c_alloc w in
  if negb ok then Ok (BadAlloc, None, w) else
  let m := first_map mid v in
  '(m, w) ← (if all then
               let m := if dynamic (v_class v) then set_flags m (Z.lor (cm_flags m) AllAllocated) else m in
               alloc_channels (if has_channels (v_class v) then [REDMAP; GREENMAP; BLUEMAP] else [PSEUDOMAP]) m client w
             else Ok (Some m, w));
  match m with
  | None => Ok (BadAlloc, None, w)
  | Some m =>
      let '(ok, w) := c_alloc w in
      if negb ok then Err Dangling else
      let m := set_flags m (Z.lor (cm_flags m) BeingCreated) in
      let '(ok, w) := if colormapPrivateCount =? 0 then (true, w) else c_alloc w in
      if negb ok then Ok (BadAlloc, None, w) else
      '(ok, m, w) ← create m w;
      if negb ok then Ok (BadAlloc, None, w) else
      Ok (Success, Some (set_flags m (Z.land (cm_flags m) (Z.lnot BeingCreated))), w)
  end.

(** [FreeColormap], the part of the memory of colors. *)
Definition FreeColormap (m : ColormapRec) (w : CmapWorld) : result CmapWorld :=
  if (cm_class m =? PseudoColor) || (cm_class m =? GrayScale) then
    if Z.of_nat (length (cells (red m))) <? ColormapEntries (pVisual m) then Err OutOfBounds else
    foldM release_cell (rev (take (Z.to_nat (ColormapEntries (pVisual m))) (cells (red m)))) w
  else Ok w.

(** One pixel of [CopyFree]: [(source, destination, nalloc)] *)
Definition copy_pixel (ch : channel) (p : Pixel) (s : ColormapRec * ColormapRec * Z * CmapWorld) : result (ColormapRec * ColormapRec * Z * CmapWorld) :=
  let '(src, dst, nalloc, w) := s in
  es ← get_cell (get_chan src ch) p;
  ed ← get_cell (get_chan dst ch) p;
  '(src, ed, nalloc) ←
    (if 0 <? refcnt ed then Ok (src, with_refcnt ed (wrap_s 16 (refcnt ed + 1)), nalloc)
     else if 0 <? refcnt es then Ok (src, with_refcnt es 1, nalloc + 1)
     else Ok (set_chan src ch (set_cell (get_chan src ch) p (with_shared es false)), es, nalloc + 1));
  '(src, w) ← FreeCell src p ch w;
  Ok (src, set_chan dst ch (set_cell (get_chan dst ch) p ed), nalloc, w).

Definition CopyFree (ch : channel) (client : Z) (src dst : ColormapRec) (w : CmapWorld) : result (ColormapRec * ColormapRec * CmapWorld) :=
  l ← get_pixels (get_chan src ch) client;
  '(src, dst, nalloc, w) ← (if dynamic (cm_class src) then foldM (copy_pixel ch) l (src, dst, 0, w) else Ok (src, dst, 0, w));
  _ ← get_pixels (get_chan dst ch) client;
  Ok (set_chan src ch (set_pixels (get_chan src ch) client []),
      set_chan dst ch (set_pixels (add_free (get_chan dst ch) (- nalloc)) client l), w).

Definition CopyColormapAndFree (mid : XID) (src : ColormapRec) (client : Z) (w : CmapWorld) : result (Status * ColormapRec * option ColormapRec * CmapWorld) :=
  let all := has_flag src AllAllocated && (CLIENT_ID (cm_mid src) =? client) in
  '(rc, dst, w) ← CreateColormap mid (pVisual src) all client w;
  match dst with
  | None => Ok (rc, src, None, w)
  | Some dst =>
      if all then
        let put ch dst := set_chan dst ch (mkChan (cells (get_chan src ch)) (nfree (get_chan dst ch)) (clientPixels (get_chan dst ch))) in
        let dst := put REDMAP dst in
        let dst := if has_channels (cm_class dst) then put BLUEMAP (put GREENMAP dst) else dst in
        '(src, w) ← FreePixels (set_flags src (Z.land (cm_flags src) (Z.lnot AllAllocated))) client w;
        w ← UpdateColors dst w; Ok (Success, src, Some dst, w)
      else
        '(src, dst, w) ← CopyFree REDMAP client src dst w;
        '(src, dst, w) ← (if has_channels (cm_class dst) then
                            '(src, dst, w) ← CopyFree GREENMAP client src dst w;
                            CopyFree BLUEMAP client src dst w
                          else Ok (src, dst, w));
        w ← (if dynamic (cm_class dst) then UpdateColors dst w else Ok w);
        Ok (Success, src, Some dst, w)
  end.

End Screen.
