(* ===== verification/ColorAccounts.v ===== *)
(** * ColorAccounts: what the counts of a colour map say (dix/colormap.c)

    A cell never stands in the lists of the clients more often than its reference count
    allows; the number of free cells is right; a shared colour is there as long as a cell
    points to it.  Getting and freeing colours keeps this; freeing lowers the count of each
    cell by exactly the places that the client lost ([cells_given]). *)

From S2P Require Import Prelude Atom ResourceDB PixelBits ColorCells.

#[local] Set Warnings "-clear-no-such-hyp".

(** ** Counts *)

Fixpoint occ (p : Pixel) (l : list Pixel) : Z :=
  match l with [] => 0 | x :: l => (if x =? p then 1 else 0) + occ p l end.

(** How many clients' pixels a cell has room for. *)
Definition room (e : Entry) : Z := if 0 <? refcnt e then refcnt e else if refcnt e =? AllocPrivate then 1 else 0.

(** A temporary cell is not taken off the number of free cells. *)
Definition vacant (e : Entry) : bool := (refcnt e =? 0) || (refcnt e =? AllocTemporary).

Definition sum_of {A} (f : A -> Z) (l : list A) : Z := foldr (λ x n, f x + n) 0 l.
Definition vacancies (es : list Entry) : Z := sum_of (λ e, if vacant e then 1 else 0) es.

Record accounts (es : list Entry) (free : Z) (l : list Pixel) : Prop := {
  ac_range : Forall (λ e, AllocTemporary <= refcnt e < 2 ^ 15) es;
  ac_room : ∀ i e, es !! i = Some e -> occ (Z.of_nat i) l <= room e;
  ac_free : free = vacancies es
}.

(** The first [n] cells of a table are in use; [l] are all pixels of the clients. *)
Definition chan_inv (n : Z) (c : Chan) (l : list Pixel) : Prop :=
  0 <= n <= Z.of_nat (length (cells c)) ∧ accounts (take (Z.to_nat n) (cells c)) (nfree c) l.

(** *** The pointers to shared colors *)

Definition points (p : nat) (q : option nat) : Z := if decide (q = Some p) then 1 else 0.

Definition own (p : nat) (e : Entry) : Z :=
  if fShared e then match co e with shco r g b => points p r + points p g + points p b | local_color _ => 0 end else 0.

Definition all_cells (m : ColormapRec) : list Entry := cells (red m) ++ cells (green m) ++ cells (blue m).

Definition refs (p : nat) (m : ColormapRec) : Z := sum_of (own p) (all_cells m).

Definition is_local (e : Entry) : Prop := ∃ c, co e = local_color c.

(** "fShared should only be set if refcnt == AllocPrivate"; a cell that clients share has a colour
    of its own. *)
Definition shared_cell (e : Entry) : Prop :=
  (fShared e = true -> refcnt e = AllocPrivate ∧ ∃ r g b, co e = shco (Some r) (Some g) (Some b)) ∧
  (0 < refcnt e -> is_local e).

Definition store_inv (f : nat -> Z) (w : CmapWorld) : Prop :=
  ∀ p, 0 < f p -> ∃ s, shared w !! p = Some s ∧ sh_refcnt s = f p ∧ f p < 2 ^ 15.

Definition sharing (m : ColormapRec) (w : CmapWorld) : Prop :=
  Forall shared_cell (all_cells m) ∧ store_inv (λ p, refs p m) w ∧ (has_channels (cm_class m) = true -> Forall is_local (all_cells m)).

(** ** Lists *)

Lemma occ_nonneg p l : 0 <= occ p l.
Proof. induction l as [|x l IH]; simpl; [done|]. destruct (x =? p); lia. Qed.

Lemma occ_app p l k : occ p (l ++ k) = occ p l + occ p k.
Proof. induction l as [|x l IH]; simpl; [done|]. lia. Qed.

Lemma occ_absent p l : p ∉ l -> occ p l = 0.
Proof.
  induction l as [|x l IH]; simpl; [done|]. intros [Hx Hl]%not_elem_of_cons. destruct (Z.eqb_spec x p); [congruence|]. by rewrite IH.
Qed.

Lemma occ_present p l : p ∈ l -> 1 <= occ p l.
Proof.
  induction 1 as [p l|p x l Hp IH]; simpl; [rewrite Z.eqb_refl; pose proof (occ_nonneg p l); lia|].
  destruct (x =? p); lia.
Qed.

Lemma occ_concat_insert p ll k l l' :
  ll !! k = Some l -> occ p (concat (<[k := l']> ll)) = occ p (concat ll) - occ p l + occ p l'.
Proof.
  revert k. induction ll as [|x ll IH]; intros k H; [done|]. destruct k as [|k]; simpl in *.
  - injection H as ->. rewrite !occ_app. lia.
  - rewrite !occ_app, IH by done. lia.
Qed.

Lemma sum_app {A} (f : A -> Z) l k : sum_of f (l ++ k) = sum_of f l + sum_of f k.
Proof. induction l as [|x l IH]; simpl; [done|]. unfold sum_of in *. simpl. lia. Qed.

Lemma sum_insert {A} (f : A -> Z) l i x y :
  l !! i = Some x -> sum_of f (<[i := y]> l) = sum_of f l - f x + f y.
Proof.
  revert i. induction l as [|z l IH]; intros i H; [done|]. destruct i as [|i]; simpl in *.
  - injection H as ->. unfold sum_of. simpl. lia.
  - unfold sum_of in *. simpl. rewrite IH by done. lia.
Qed.

Lemma sum_member {A} (f : A -> Z) l x : (∀ y, 0 <= f y) -> x ∈ l -> f x <= sum_of f l.
Proof.
  intros Hf. induction 1 as [x l|x y l H IH]; unfold sum_of in *; simpl.
  - assert (0 <= sum_of f l); [|unfold sum_of in *; lia]. clear - Hf. induction l as [|y l IH]; [done|]. unfold sum_of in *; simpl. specialize (Hf y). lia.
  - specialize (Hf y). lia.
Qed.

Lemma points_nonneg p q : 0 <= points p q.
Proof. unfold points. case_decide; lia. Qed.

Lemma own_nonneg p e : 0 <= own p e.
Proof.
  unfold own. destruct (fShared e); [|done]. destruct (co e) as [|r g b]; [done|].
  pose proof (points_nonneg p r). pose proof (points_nonneg p g). pose proof (points_nonneg p b). lia.
Qed.

(** ** Tables of a map *)

Definition same_table (a b : channel) : bool :=
  match a, b with
  | (REDMAP | PSEUDOMAP), (REDMAP | PSEUDOMAP) | GREENMAP, GREENMAP | BLUEMAP, BLUEMAP => true
  | _, _ => false
  end.

Lemma get_set_chan m a b c : get_chan (set_chan m a c) b = if same_table a b then c else get_chan m b.
Proof. by destruct a, b. Qed.

Lemma get_set_same m ch c : get_chan (set_chan m ch c) ch = c.
Proof. by destruct ch. Qed.

Lemma set_set_chan m ch c c' : set_chan (set_chan m ch c) ch c' = set_chan m ch c'.
Proof. by destruct ch. Qed.

Lemma set_get_chan m ch : set_chan m ch (get_chan m ch) = m.
Proof. by destruct ch, m. Qed.

(** What an operation on the tables leaves alone. *)
Definition same_frame (m m' : ColormapRec) : Prop :=
  pVisual m' = pVisual m ∧ cm_class m' = cm_class m ∧ cm_mid m' = cm_mid m ∧ cm_flags m' = cm_flags m.

#[export] Instance same_frame_po : PreOrder same_frame.
Proof. split; [done|]. intros a b c (?&?&?&?) (?&?&?&?). split; [congruence|]. split; [congruence|]. split; congruence. Qed.

Lemma set_chan_frame m ch c : same_frame m (set_chan m ch c).
Proof. by destruct ch. Qed.

(** One cell of one table is replaced. *)
Lemma cells_insert m ch i e e' :
  cells (get_chan m ch) !! i = Some e ->
  ∃ k, all_cells m !! k = Some e ∧
       ∀ n l, all_cells (set_chan m ch (mkChan (<[i := e']> (cells (get_chan m ch))) n l)) = <[k := e']> (all_cells m).
Proof.
  intros H. pose proof (lookup_lt_Some _ _ _ H) as Hi. unfold all_cells. destruct ch; simpl in *.
  all: [> exists i | exists (length (cells (red m)) + i)%nat
        | exists (length (cells (red m)) + (length (cells (green m)) + i))%nat | exists i].
  all: (split; [|intros n l]; rewrite ?lookup_app_r, ?insert_app_r_alt by lia).
  all: repeat match goal with |- context [(?a + ?b - ?a)%nat] => replace (a + b - a)%nat with b by lia end.
  all: rewrite ?lookup_app_l, ?insert_app_l, ?lookup_app_r, ?insert_app_r_alt by lia.
  all: repeat match goal with |- context [(?a + ?b - ?a)%nat] => replace (a + b - a)%nat with b by lia end.
  all: try done.
Qed.

(** ** Shared colors are released in time *)

Lemma store_inv_ext f g w : (∀ p, f p = g p) -> store_inv f w -> store_inv g w.
Proof. intros E H p Hp. rewrite <- E in Hp |- *. destruct (H p Hp) as (s & ? & ? & ?). eauto. Qed.

Lemma release_ok f w p :
  store_inv f w -> 0 < f p ->
  ∃ sh, release w (Some p) = Ok (set_shared w sh (next_shared w)) ∧
        store_inv (λ q, f q - points q (Some p)) (set_shared w sh (next_shared w)).
Proof.
  intros H Hp. destruct (H p Hp) as (s & Hs & Es & Hlt). unfold release, shared_at. cbn [of_option mbind result_bind]. rewrite Hs.
  cbn [of_option mbind result_bind]. eexists. split; [done|]. rewrite Es. unfold wrap_s. rewrite Z.mod_small by lia.
  destruct (Z.ltb_spec (f p - 1) (2 ^ (16 - 1))); [|change (2 ^ (16 - 1)) with (2 ^ 15) in *; lia]. intros q Hq. cbn [shared set_shared].
  unfold points in *. destruct (decide (Some p = Some q)) as [[= ->]|Hne].
  - destruct (Z.eqb_spec (f q - 1) 0); [lia|]. rewrite lookup_insert_eq. eexists. split; [done|]. simpl. lia.
  - destruct (H q ltac:(lia)) as (t & Ht & Et & Hlt'). exists t.
    destruct (f p - 1 =? 0); [rewrite lookup_delete_ne by congruence|rewrite lookup_insert_ne by congruence]; split; try done; lia.
Qed.

Lemma points_self p : points p (Some p) = 1.
Proof. unfold points. by rewrite decide_True. Qed.

Lemma release_cell_ok f w e :
  shared_cell e -> store_inv f w -> (∀ p, own p e <= f p) ->
  ∃ sh, release_cell e w = Ok (set_shared w sh (next_shared w)) ∧
        store_inv (λ p, f p - own p e) (set_shared w sh (next_shared w)).
Proof.
  intros Hc H Ho. unfold release_cell. destruct Hc as [Hc _]. destruct (fShared e) eqn:Ef.
  2:{ exists (shared w). destruct w. split; [done|]. eapply store_inv_ext; [|exact H]. intros p. unfold own. rewrite Ef. lia. }
  destruct (Hc eq_refl) as (_ & r & g & b & Eco). rewrite Eco.
  assert (∀ p, own p e = points p (Some r) + points p (Some g) + points p (Some b)) as Eo by (intros p; unfold own; by rewrite Ef, Eco).
  assert (∀ p q, 0 <= points p q) as Hpos by apply points_nonneg.
  destruct (release_ok f w r) as (sh1 & -> & H1); [done| |].
  { specialize (Ho r). rewrite Eo, points_self in Ho. pose proof (Hpos r (Some g)). pose proof (Hpos r (Some b)). lia. }
  cbn [mbind result_bind]. destruct (release_ok _ _ g H1) as (sh2 & -> & H2).
  { specialize (Ho g). rewrite Eo, points_self in Ho. pose proof (Hpos g (Some b)). lia. }
  cbn [mbind result_bind]. destruct (release_ok _ _ b H2) as (sh3 & -> & H3).
  { specialize (Ho b). rewrite Eo, points_self in Ho. lia. }
  exists sh3. split; [done|]. eapply store_inv_ext; [|exact H3]. intros p. cbv beta. rewrite Eo. lia.
Qed.

(** ** Giving back one cell *)

Lemma room_at_most e l p :
  AllocTemporary <= refcnt e -> occ p l + 1 <= room e -> 1 <= room e ∧ (refcnt e <= 1 -> occ p l <= 0).
Proof.
  intros Hr H. pose proof (occ_nonneg p l). unfold room in *. destruct (Z.ltb_spec 0 (refcnt e)); [lia|].
  destruct (refcnt e =? AllocPrivate); lia.
Qed.

(** The account of a table when one cell is replaced, and the lists change. *)
Lemma accounts_update es free l i e e' free' l' :
  accounts es free l -> es !! i = Some e ->
  AllocTemporary <= refcnt e' < 2 ^ 15 ->
  (∀ p, p ≠ Z.of_nat i -> occ p l' = occ p l) -> occ (Z.of_nat i) l' <= room e' ->
  free' = free - (if vacant e then 1 else 0) + (if vacant e' then 1 else 0) ->
  accounts (<[i := e']> es) free' l'.
Proof.
  intros [Hr Ho Hf] He Hr' Hoth Hi ->. split.
  - by apply Forall_insert.
  - intros j x Hj. destruct (decide (i = j)) as [->|Hne].
    + rewrite list_lookup_insert_eq in Hj by (eapply lookup_lt_Some; eauto). by injection Hj as <-.
    + rewrite list_lookup_insert_ne in Hj by done. rewrite Hoth by lia. by apply Ho.
  - unfold vacancies in *. rewrite (sum_insert _ _ _ _ _ He). lia.
Qed.

Lemma chan_inv_cell n c l p :
  chan_inv n c l -> 0 <= p < n -> ∃ e, get_cell c p = Ok e ∧ cells c !! Z.to_nat p = Some e ∧ take (Z.to_nat n) (cells c) !! Z.to_nat p = Some e ∧
    AllocTemporary <= refcnt e < 2 ^ 15 ∧ occ p l <= room e.
Proof.
  intros [Hn [Hr Ho Hf]] Hp. destruct (lookup_lt_is_Some_2 (cells c) (Z.to_nat p)) as [e He]; [lia|].
  assert (take (Z.to_nat n) (cells c) !! Z.to_nat p = Some e) as Ht by (rewrite lookup_take_lt by lia; done).
  exists e. unfold get_cell. rewrite (proj2 (Z.ltb_ge p 0)), He by lia. split; [done|]. split; [done|]. split; [done|]. split.
  - rewrite Forall_lookup in Hr. by apply (Hr (Z.to_nat p)).
  - specialize (Ho _ _ Ht). by rewrite Z2Nat.id in Ho by lia.
Qed.

Lemma chan_inv_set n c l p e e' free' l' cp :
  chan_inv n c l -> 0 <= p < n -> cells c !! Z.to_nat p = Some e ->
  AllocTemporary <= refcnt e' < 2 ^ 15 ->
  (∀ q, q ≠ p -> occ q l' = occ q l) -> occ p l' <= room e' ->
  free' = nfree c - (if vacant e then 1 else 0) + (if vacant e' then 1 else 0) ->
  chan_inv n (mkChan (<[Z.to_nat p := e']> (cells c)) free' cp) l'.
Proof.
  intros [Hn Ha] Hp He Hr Hoth Hi Hf. split; cbn [cells nfree]; [by rewrite length_insert|]. rewrite take_insert_lt by lia.
  eapply accounts_update; [exact Ha|by rewrite lookup_take_lt by lia|done| | |done]; rewrite ?Z2Nat.id by lia; done.
Qed.

Lemma vacant_room e : AllocTemporary <= refcnt e -> 1 <= room e -> vacant e = false.
Proof.
  unfold room, vacant. intros H1 H2. destruct (Z.ltb_spec 0 (refcnt e)).
  - unfold AllocTemporary. apply orb_false_iff. split; apply Z.eqb_neq; lia.
  - destruct (Z.eqb_spec (refcnt e) AllocPrivate) as [->|]; [done|lia].
Qed.

(** The pointers when one cell of a map is replaced. *)
Lemma sharing_set m ch w w' i e e' n l :
  cells (get_chan m ch) !! i = Some e -> sharing m w -> shared_cell e' -> (is_local e -> is_local e') ->
  (∀ f, store_inv f w -> (∀ p, own p e <= f p) -> store_inv (λ p, f p - own p e + own p e') w') ->
  sharing (set_chan m ch (mkChan (<[i := e']> (cells (get_chan m ch))) n l)) w'.
Proof.
  intros He (Hc & Hs & Hd) Hc' Hloc Hw. destruct (cells_insert m ch i e e' He) as (k & Hk & Hset). unfold sharing, refs. rewrite Hset.
  split; [by apply Forall_insert|]. split.
  - eapply store_inv_ext; [|apply (Hw _ Hs)].
    + intros p. cbv beta. by rewrite (sum_insert _ _ _ _ _ Hk).
    + intros p. unfold refs. apply sum_member; [apply own_nonneg|]. eapply list_elem_of_lookup_2; eauto.
  - intros Hh. specialize (Hd ltac:(by destruct ch)). apply Forall_insert; [done|]. apply Hloc. rewrite Forall_lookup in Hd. eauto.
Qed.

Lemma sharing_cell m ch w i e : sharing m w -> cells (get_chan m ch) !! i = Some e -> shared_cell e.
Proof.
  intros (Hc & _) He. destruct (cells_insert m ch i e e He) as (k & Hk & _). rewrite Forall_lookup in Hc. eauto.
Qed.

(** A cell after [k] of the pixels that clients have of it were given back: it is free again
    with the last of them. *)
Definition given_back (k : Z) (e : Entry) : Entry :=
  if k <=? 0 then e else if k <? room e then with_refcnt e (refcnt e - k) else mkEntry (co e) 0 false.

Lemma given_back_zero e : given_back 0 e = e.
Proof. done. Qed.

Lemma given_back_one e :
  1 <= room e -> given_back 1 e = if 1 <? refcnt e then with_refcnt e (refcnt e - 1) else mkEntry (co e) 0 false.
Proof.
  unfold given_back, room. cbn [Z.leb Z.compare Pos.compare Pos.compare_cont]. destruct (Z.ltb_spec 0 (refcnt e)); [done|].
  intros H1. destruct (Z.eqb_spec (refcnt e) AllocPrivate) as [E|E]; [|lia]. by rewrite E.
Qed.

Lemma given_back_more k e : 0 <= k < room e -> given_back 1 (given_back k e) = given_back (k + 1) e.
Proof.
  intros Hk. destruct (Z.eq_dec k 0) as [->|Hne]; [done|].
  assert (0 < refcnt e ∧ room e = refcnt e) as [Hp Hroom].
  { unfold room in *. destruct (Z.ltb_spec 0 (refcnt e)); [done|]. destruct (refcnt e =? AllocPrivate); lia. }
  unfold given_back at 2. rewrite (proj2 (Z.leb_gt k 0)), (proj2 (Z.ltb_lt k (room e))) by lia. rewrite Hroom in *.
  rewrite given_back_one.
  - unfold given_back. rewrite Hroom, (proj2 (Z.leb_gt (k + 1) 0)) by lia. cbn [refcnt with_refcnt co].
    destruct (Z.ltb_spec 1 (refcnt e - k)), (Z.ltb_spec (k + 1) (refcnt e)); try lia; [|done].
    unfold with_refcnt. cbn. f_equal. lia.
  - unfold room. cbn [refcnt with_refcnt]. destruct (Z.ltb_spec 0 (refcnt e - k)); lia.
Qed.

(** [FreeCell] on a pixel that a client has. *)
Lemma FreeCell_ok m p ch w n l :
  chan_inv n (get_chan m ch) (p :: l) -> 0 <= p < n -> sharing m w ->
  ∃ c sh, let m' := set_chan m ch c in let w' := set_shared w sh (next_shared w) in
    FreeCell m p ch w = Ok (m', w') ∧ chan_inv n c l ∧ sharing m' w' ∧
    clientPixels c = clientPixels (get_chan m ch) ∧
    ∃ e, cells (get_chan m ch) !! Z.to_nat p = Some e ∧ 1 <= room e ∧
      cells c = <[Z.to_nat p := given_back 1 e]> (cells (get_chan m ch)).
Proof.
  intros Hi Hp Hs. destruct (chan_inv_cell _ _ _ _ Hi Hp) as (e & Hg & He & _ & Hr & Ho).
  unfold FreeCell. rewrite Hg. cbn [mbind result_bind]. cbn [occ] in Ho. rewrite Z.eqb_refl in Ho.
  pose proof (occ_nonneg p l) as Hpos. destruct (room_at_most e l p ltac:(lia) ltac:(lia)) as [Hroom Hlast].
  pose proof (vacant_room e ltac:(lia) Hroom) as Ev. pose proof (sharing_cell m ch w _ e Hs He) as Hc.
  assert (∀ q, q ≠ p -> occ q l = occ q (p :: l)) as Hoth.
  { intros q Hq. cbn [occ]. destruct (Z.eqb_spec p q); [congruence|done]. }
  pose proof (given_back_one e Hroom) as Hgb.
  destruct (Z.ltb_spec 1 (refcnt e)) as [Hgt|Hle].
  - exists (set_cell (get_chan m ch) p (with_refcnt e (refcnt e - 1))), (shared w). cbv zeta. destruct w as [sh nx hw ce er o].
    split; [done|]. split; [|split; [|split; [done|exists e; split; [done|]; split; [done|by rewrite Hgb]]]].
    + eapply chan_inv_set; [exact Hi|done|exact He|unfold AllocTemporary in *; cbn [refcnt with_refcnt]; lia|done| |].
      * unfold room in *. cbn [refcnt with_refcnt]. destruct (Z.ltb_spec 0 (refcnt e)); [|lia]. destruct (Z.ltb_spec 0 (refcnt e - 1)); lia.
      * rewrite Ev. replace (vacant (with_refcnt e (refcnt e - 1))) with false; [lia|]. unfold vacant, AllocTemporary. cbn [refcnt with_refcnt].
        symmetry. apply orb_false_iff. split; apply Z.eqb_neq; lia.
    + eapply sharing_set; [exact He|exact Hs| |done|].
      * destruct Hc as [Hc Hl]. split; [|intros _; apply Hl; lia]. intros Hf. destruct (Hc Hf) as [E _]. unfold AllocPrivate in E. cbn in *. lia.
      * intros f Hf _. eapply store_inv_ext; [|exact Hf]. intros q. unfold own. cbn. lia.
  - pose proof Hs as (Hcs & Hst & _). destruct (cells_insert m ch _ e e He) as (k & Hk & _).
    destruct (release_cell_ok (λ q, refs q m) w e Hc Hst) as (sh & Erel & Hst').
    { intros q. unfold refs. apply sum_member; [apply own_nonneg|]. eapply list_elem_of_lookup_2; eauto. }
    rewrite Erel. cbn [mbind result_bind]. exists (add_free (set_cell (get_chan m ch) p (mkEntry (co e) 0 false)) 1), sh. cbv zeta.
    split; [done|]. split; [|split; [|split; [done|exists e; split; [done|]; split; [done|by rewrite Hgb]]]].
    + eapply chan_inv_set; [exact Hi|done|exact He|unfold AllocTemporary in *; cbn [refcnt with_refcnt]; lia|done| |].
      * specialize (Hlast Hle). unfold room. simpl. lia.
      * rewrite Ev. cbn. lia.
    + eapply sharing_set; [exact He|exact Hs|by split|done|]. intros f Hf Hof. destruct (release_cell_ok f w e Hc Hf Hof) as (sh' & Esh & Hsh').
      rewrite Erel in Esh. injection Esh as <-. eapply store_inv_ext; [|exact Hsh']. intros q. cbv beta.
      replace (own q (mkEntry (co e) 0 false)) with 0 by done. lia.
Qed.

(** ** Giving back many cells *)

Lemma chan_inv_ext n c l l' : (∀ p, 0 <= p < n -> occ p l' = occ p l) -> chan_inv n c l -> chan_inv n c l'.
Proof.
  intros E [Hn [Hr Ho Hf]]. split; [done|]. split; [done| |done]. intros i e Hi. rewrite E; [by apply Ho|].
  apply lookup_lt_Some in Hi. rewrite length_take in Hi. lia.
Qed.

Lemma chan_inv_ext_le n c l l' : (∀ p, occ p l' <= occ p l) -> chan_inv n c l -> chan_inv n c l'.
Proof. intros E [Hn [Hr Ho Hf]]. split; [done|]. split; [done| |done]. intros i e Hi. etrans; [apply E|eauto]. Qed.

Lemma chan_inv_pixels n cs f cp cp' l : chan_inv n (mkChan cs f cp) l -> chan_inv n (mkChan cs f cp') l.
Proof. done. Qed.

Lemma sharing_pixels m ch w f cp : sharing m w -> sharing (set_chan m ch (mkChan (cells (get_chan m ch)) f cp)) w.
Proof.
  intros H. assert (all_cells (set_chan m ch (mkChan (cells (get_chan m ch)) f cp)) = all_cells m) as E by (by destruct ch).
  assert (cm_class (set_chan m ch (mkChan (cells (get_chan m ch)) f cp)) = cm_class m) as Ec by (by destruct ch).
  unfold sharing, refs. by rewrite E, Ec.
Qed.

Lemma free_cells_ok ch n l rest m w :
  chan_inv n (get_chan m ch) (l ++ rest) -> Forall (λ p, 0 <= p < n) l -> sharing m w ->
  ∃ c sh, let m' := set_chan m ch c in let w' := set_shared w sh (next_shared w) in
    foldM (λ p '(m, w), FreeCell m p ch w) l (m, w) = Ok (m', w') ∧ chan_inv n c rest ∧ sharing m' w' ∧
    clientPixels c = clientPixels (get_chan m ch).
Proof.
  revert m w. induction l as [|p l IH]; intros m w Hi Hl Hs; cbn [foldM].
  { exists (get_chan m ch), (shared w). cbv zeta. rewrite set_get_chan. by destruct w. }
  apply Forall_cons in Hl as [Hp Hl]. destruct (FreeCell_ok m p ch w n (l ++ rest) Hi Hp Hs) as (c & sh & E & Hi' & Hs' & Hcp & _).
  cbv zeta in *. rewrite E. cbn [mbind result_bind].
  destruct (IH (set_chan m ch c) (set_shared w sh (next_shared w))) as (c' & sh' & E' & Hi'' & Hs'' & Hcp'); [by rewrite get_set_same|done|done|].
  cbv zeta in *. exists c', sh'. rewrite set_set_chan in *. rewrite get_set_same in Hcp'. split; [done|]. split; [done|]. split; [done|congruence].
Qed.

(** *** The invariant of a map *)

Definition chans (m : ColormapRec) : list channel := if has_channels (cm_class m) then [REDMAP; GREENMAP; BLUEMAP] else [PSEUDOMAP].

Definition table_ok (n : Z) (c : Chan) : Prop :=
  n < 2 ^ 31 ∧ length (clientPixels c) = Z.to_nat MAXCLIENTS ∧
  Forall (λ p, 0 <= p < n) (concat (clientPixels c)) ∧ chan_inv n c (concat (clientPixels c)).

Definition map_ok (m : ColormapRec) (w : CmapWorld) : Prop :=
  dynamic (cm_class m) = true ∧ sharing m w ∧ ∀ ch, ch ∈ chans m -> table_ok (numents (pVisual m) ch) (get_chan m ch).

Definition a_client (client : Z) : Prop := 0 <= client < MAXCLIENTS.

Lemma get_pixels_ok c client :
  length (clientPixels c) = Z.to_nat MAXCLIENTS -> a_client client ->
  ∃ l, get_pixels c client = Ok l ∧ clientPixels c !! Z.to_nat client = Some l.
Proof.
  intros Hl [Hc1 Hc2]. destruct (lookup_lt_is_Some_2 (clientPixels c) (Z.to_nat client)) as [l E]; [rewrite Hl; lia|].
  exists l. unfold get_pixels. rewrite (proj2 (Z.ltb_ge client 0)), E by lia. done.
Qed.

Lemma Forall_concat_insert {A} (P : A -> Prop) ll k l' :
  Forall P (concat ll) -> Forall P l' -> Forall P (concat (<[k := l']> ll)).
Proof.
  revert k. induction ll as [|x ll IH]; intros k H Hl'; [done|]. simpl in H. apply Forall_app in H as [Hx H].
  destruct k as [|k]; simpl; apply Forall_app; split; auto.
Qed.

Lemma free_channel_ok m ch client n w :
  table_ok n (get_chan m ch) -> a_client client -> sharing m w -> dynamic (cm_class m) = true ->
  ∃ c sh, let m' := set_chan m ch c in let w' := set_shared w sh (next_shared w) in
    free_channel client ch m w = Ok (m', w') ∧ table_ok n c ∧ sharing m' w' ∧
    clientPixels c = <[Z.to_nat client := []]> (clientPixels (get_chan m ch)).
Proof.
  intros (Hn & Hlen & Hrange & Hi) Hcl Hs Hd. destruct (get_pixels_ok _ _ Hlen Hcl) as (l & Hg & Hl).
  unfold free_channel. rewrite Hg, Hd. cbn [mbind result_bind].
  set (rest := concat (<[Z.to_nat client := []]> (clientPixels (get_chan m ch)))).
  destruct (free_cells_ok ch n l rest m w) as (c & sh & E & Hi' & Hs' & Hcp); [| |done|].
  - eapply chan_inv_ext; [|exact Hi]. intros p _. unfold rest. rewrite occ_app, (occ_concat_insert _ _ _ _ _ Hl). simpl. lia.
  - apply Forall_forall. intros p Hp. rewrite Forall_forall in Hrange. apply Hrange. apply list_elem_of_In, in_concat.
    exists l. split; apply list_elem_of_In; [eapply list_elem_of_lookup_2; eauto|done].
  - cbv zeta in *. rewrite E. cbn [mbind result_bind]. rewrite get_set_same, set_set_chan.
    exists (set_pixels c client []), sh. split; [done|]. unfold set_pixels. split; [|split].
    + unfold table_ok. cbn [clientPixels]. rewrite Hcp. split; [done|]. split; [by rewrite length_insert|]. split; [by apply Forall_concat_insert|done].
    + pose proof (sharing_pixels (set_chan m ch c) ch (set_shared w sh (next_shared w)) (nfree c) (<[Z.to_nat client := []]> (clientPixels c)) Hs') as H.
      by rewrite get_set_same, set_set_chan in H.
    + cbn [clientPixels]. by rewrite Hcp.
Qed.

(** Tables in their turn: the next ones are not changed by the first. *)
Lemma chans_cases m : (has_channels (cm_class m) = true ∧ chans m = [REDMAP; GREENMAP; BLUEMAP]) ∨ (has_channels (cm_class m) = false ∧ chans m = [PSEUDOMAP]).
Proof. unfold chans. destruct (has_channels (cm_class m)); auto. Qed.

Lemma map_ok_set m ch c w w' :
  map_ok m w -> ch ∈ chans m -> table_ok (numents (pVisual m) ch) c -> sharing (set_chan m ch c) w' -> map_ok (set_chan m ch c) w'.
Proof.
  intros (Hd & Hs & Ht) Hch Hc Hs'. destruct (set_chan_frame m ch c) as (Ev & Ec & _ & _). split; [by rewrite Ec|]. split; [done|].
  intros a Ha. unfold chans in *. rewrite Ec in Ha. rewrite Ev, get_set_chan.
  destruct (has_channels (cm_class m)); repeat (apply elem_of_cons in Ha as [->|Ha]; [|]); try (by apply elem_of_nil in Ha).
  all: repeat (apply elem_of_cons in Hch as [->|Hch]; [|]); try (by apply elem_of_nil in Hch); cbn [same_table]; try exact Hc.
  all: apply Ht; set_solver.
Qed.

(** Only the shared colors of the world may have changed. *)
Definition only_shared (w w' : CmapWorld) : Prop := ∃ sh, w' = set_shared w sh (next_shared w).

#[export] Instance only_shared_po : PreOrder only_shared.
Proof.
  split.
  - intros w. exists (shared w). by destruct w.
  - intros a b c [s1 ->] [s2 ->]. by exists s2.
Qed.

(** [free_channel] as a step of a map. *)
Lemma free_channel_map m ch client w :
  map_ok m w -> ch ∈ chans m -> a_client client ->
  ∃ m' w', free_channel client ch m w = Ok (m', w') ∧ map_ok m' w' ∧ same_frame m m' ∧ only_shared w w' ∧
    clientPixels (get_chan m' ch) = <[Z.to_nat client := []]> (clientPixels (get_chan m ch)) ∧
    (∀ a, same_table ch a = false -> get_chan m' a = get_chan m a).
Proof.
  intros Hm Hch Hcl. pose proof Hm as (Hd & Hs & Ht).
  destruct (free_channel_ok m ch client _ w (Ht ch Hch) Hcl Hs Hd) as (c & sh & E & Hc & Hs' & Hcp). cbv zeta in *.
  eexists _, _. split; [exact E|]. split; [eapply map_ok_set; eauto|]. split; [apply set_chan_frame|]. split; [by exists sh|].
  split; [by rewrite get_set_same|]. intros a Ha. by rewrite get_set_chan, Ha.
Qed.

Lemma FreePixels_ok m client w :
  map_ok m w -> a_client client ->
  ∃ m' w', FreePixels m client w = Ok (m', w') ∧ map_ok m' w' ∧ same_frame m m' ∧ only_shared w w' ∧
    ∀ ch, ch ∈ chans m -> clientPixels (get_chan m' ch) = <[Z.to_nat client := []]> (clientPixels (get_chan m ch)).
Proof.
  intros Hm Hcl. unfold FreePixels. destruct (chans_cases m) as [[Hh Hchs]|[Hh Hchs]].
  - destruct (free_channel_map m REDMAP client w Hm) as (m1 & w1 & -> & Hm1 & F1 & O1 & P1 & T1); [rewrite Hchs; set_solver|done|].
    cbn [mbind result_bind]. assert (cm_class m1 = cm_class m) as C1 by apply F1. rewrite C1, Hh.
    destruct (free_channel_map m1 GREENMAP client w1 Hm1) as (m2 & w2 & -> & Hm2 & F2 & O2 & P2 & T2); [unfold chans; rewrite C1, Hh; set_solver|done|].
    cbn [mbind result_bind]. assert (cm_class m2 = cm_class m) as C2 by (rewrite <- C1; apply F2).
    destruct (free_channel_map m2 BLUEMAP client w2 Hm2) as (m3 & w3 & -> & Hm3 & F3 & O3 & P3 & T3); [unfold chans; rewrite C2, Hh; set_solver|done|].
    exists m3, w3. split; [done|]. split; [done|]. split; [etrans; [exact F1|etrans; [exact F2|exact F3]]|].
    split; [etrans; [exact O1|etrans; [exact O2|exact O3]]|]. intros ch Hch. rewrite Hchs in Hch.
    repeat (apply elem_of_cons in Hch as [->|Hch]; [|]); try (by apply elem_of_nil in Hch).
    + by rewrite (T3 REDMAP eq_refl), (T2 REDMAP eq_refl).
    + by rewrite (T3 GREENMAP eq_refl), P2, (T1 GREENMAP eq_refl).
    + by rewrite P3, (T2 BLUEMAP eq_refl), (T1 BLUEMAP eq_refl).
  - destruct (free_channel_map m PSEUDOMAP client w Hm) as (m1 & w1 & E & Hm1 & F1 & O1 & P1 & T1); [rewrite Hchs; set_solver|done|].
    change (free_channel client REDMAP m w) with (free_channel client PSEUDOMAP m w). rewrite E. cbn [mbind result_bind].
    assert (cm_class m1 = cm_class m) as C1 by apply F1. rewrite C1, Hh. exists m1, w1.
    split; [done|]. split; [done|]. split; [done|]. split; [done|]. intros ch Hch. rewrite Hchs in Hch. by apply list_elem_of_singleton in Hch as ->.
Qed.

(** ** [FreeCo] *)

Lemma zap_spec l p :
  match zap l p with
  | Some l' => p ∈ l ∧ length l' = length l ∧ ∀ q, q ≠ no_pixel -> occ q l' = occ q l - (if p =? q then 1 else 0)
  | None => p ∉ l
  end.
Proof.
  induction l as [|x l IH]; simpl; [apply not_elem_of_nil|]. destruct (Z.eqb_spec x p) as [->|Hne].
  - split; [by left|]. split; [done|]. intros q Hq. cbn [occ]. rewrite (proj2 (Z.eqb_neq no_pixel q)) by congruence. destruct (p =? q); lia.
  - destruct (zap l p) as [l'|]; simpl.
    + destruct IH as (Hp & Hlen & Ho). split; [by right|]. split; [by rewrite Hlen|]. intros q Hq. cbn [occ]. rewrite Ho by done. destruct (x =? q), (p =? q); lia.
    + intros [->|?]%elem_of_cons; done.
Qed.

Lemma zap_zapped l p l' : p ≠ no_pixel -> zap l p = Some l' -> occ no_pixel l' = occ no_pixel l + 1.
Proof.
  intros Hp. revert l'. induction l as [|x l IH]; intros l' H; [done|]. simpl in H. destruct (Z.eqb_spec x p) as [->|Hne].
  - injection H as <-. cbn [occ]. rewrite Z.eqb_refl, (proj2 (Z.eqb_neq p no_pixel)) by done. lia.
  - destruct (zap l p) as [k|]; [|done]. injection H as <-. cbn [occ]. rewrite (IH k eq_refl). destruct (x =? no_pixel); lia.
Qed.

Lemma compact_ok l : compact_pixels (length l - Z.to_nat (occ no_pixel l)) l = Ok (filter (λ x, x ≠ no_pixel) l).
Proof.
  assert (∀ l, occ no_pixel l <= Z.of_nat (length l)) as Hle.
  { clear. induction l as [|x l IH]; simpl; [done|]. destruct (x =? no_pixel); lia. }
  induction l as [|x l IH]; [done|]. cbn [occ length]. pose proof (Hle l) as Hl. pose proof (occ_nonneg no_pixel l) as Hn.
  rewrite filter_cons. destruct (Z.eqb_spec x no_pixel) as [->|Hne].
  - replace (S (length l) - Z.to_nat (1 + occ no_pixel l))%nat with (length l - Z.to_nat (occ no_pixel l))%nat by lia.
    rewrite decide_False by tauto. rewrite <- IH. destruct (length l - Z.to_nat (occ no_pixel l))%nat eqn:E; [|cbn [compact_pixels]; by rewrite Z.eqb_refl].
    by destruct l.
  - replace (S (length l) - Z.to_nat (0 + occ no_pixel l))%nat with (S (length l - Z.to_nat (occ no_pixel l))) by lia.
    cbn [compact_pixels]. destruct (Z.eqb_spec x no_pixel); [done|]. rewrite IH, decide_True by done. done.
Qed.

Lemma occ_filter q l : q ≠ no_pixel -> occ q (filter (λ x, x ≠ no_pixel) l) = occ q l.
Proof.
  intros Hq. induction l as [|x l IH]; [done|]. rewrite filter_cons. case_decide as Hd; simpl; rewrite IH; [done|].
  destruct (Z.eqb_spec x q); [congruence|done].
Qed.

(** The cells that [FreeCo] tries, in its order; [None] where the pixel is bad. *)
Definition test (v : VisualRec) (ch : channel) (rgbbad bits p : Pixel) : option Pixel :=
  let t := pixel_of v ch (Z.lor p bits) in
  if (numents v ch <=? t) || negb (Z.land p rgbbad =? 0) then None else Some t.

Definition tests_of (v : VisualRec) (ch : channel) (rgbbad : Pixel) (pixels bs : list Pixel) : list (option Pixel) :=
  concat ((λ bits, test v ch rgbbad bits <$> pixels) <$> bs).

Definition tests (v : VisualRec) (ch : channel) (rgbbad : Pixel) (pixels : list Pixel) (mask : Pixel) : list (option Pixel) :=
  tests_of v ch rgbbad pixels (submasks 32 mask).

(** The cells among them. *)
Definition good_tests (ts : list (option Pixel)) : list Pixel := omap id ts.

(** The world may have lost shared colors and outcomes of allocations, and have another error value. *)
Definition quiet (w w' : CmapWorld) : Prop :=
  next_shared w' = next_shared w ∧ hardware w' = hardware w ∧ cmapEntries w' = cmapEntries w ∧ ∃ k, mem w' = drop k (mem w).

#[export] Instance quiet_po : PreOrder quiet.
Proof.
  split.
  - intros w. split; [done|]. split; [done|]. split; [done|]. by exists 0%nat.
  - intros a b c (?&?&?&k&Hk) (?&?&?&j&Hj). split; [congruence|]. split; [congruence|]. split; [congruence|].
    exists (k + j)%nat. by rewrite Hj, Hk, drop_drop.
Qed.

Lemma only_shared_quiet w w' : only_shared w w' -> quiet w w'.
Proof. intros [sh ->]. split; [done|]. split; [done|]. split; [done|]. by exists 0%nat. Qed.

Lemma set_error_quiet w e : quiet w (set_error w e).
Proof. split; [done|]. split; [done|]. split; [done|]. by exists 0%nat. Qed.

Lemma xalloc_quiet w ok w' : c_alloc w = (ok, w') -> quiet w w' ∧ shared w' = shared w.
Proof.
  unfold c_alloc, alloc. destruct w as [sh nx hw ce er o]. destruct o as [|b o]; simpl; intros [= <- <-].
  - split; [reflexivity|done].
  - split; [|done]. split; [done|]. split; [done|]. split; [done|]. by exists 1%nat.
Qed.

Lemma sharing_shared m w w' : shared w' = shared w -> sharing m w -> sharing m w'.
Proof. intros E (Hc & Hs & Hd). split; [done|]. split; [|done]. intros p Hp. rewrite E. by apply Hs. Qed.

(** Every cell of a table has lost as many counts as its pixel has lost places in the list of
    the client, and is otherwise the same. *)
Definition cells_given (n : Z) (es es' : list Entry) (l l' : list Pixel) : Prop :=
  ∀ q e, 0 <= q < n -> es !! Z.to_nat q = Some e ->
    0 <= occ q l - occ q l' <= room e ∧ es' !! Z.to_nat q = Some (given_back (occ q l - occ q l') e).

Lemma cells_given_refl n es l : (∀ q e, 0 <= q < n -> es !! Z.to_nat q = Some e -> 0 <= room e) -> cells_given n es es l l.
Proof. intros H q e Hq He. rewrite Z.sub_diag, given_back_zero. split; [|done]. split; [done|by eapply H]. Qed.

Lemma cells_given_ext n es es' l l1 l2 :
  (∀ q, 0 <= q < n -> occ q l2 = occ q l1) -> cells_given n es es' l l1 -> cells_given n es es' l l2.
Proof. intros E H q e Hq He. rewrite E by done. by apply H. Qed.

(** One more is given back. *)
Lemma cells_given_one n es es' l l1 l2 t e :
  cells_given n es es' l l1 -> 0 <= t < n ->
  es' !! Z.to_nat t = Some e -> 1 <= room e ->
  (∀ q, 0 <= q < n -> occ q l2 = occ q l1 - (if t =? q then 1 else 0)) ->
  cells_given n es (<[Z.to_nat t := given_back 1 e]> es') l l2.
Proof.
  intros H Ht He Hroom Hocc q e0 Hq He0. destruct (H q e0 Hq He0) as [Hk Hg]. rewrite Hocc by done.
  destruct (Z.eqb_spec t q) as [->|Hne].
  - rewrite Hg in He. injection He as He. set (k := occ q l - occ q l1) in *.
    assert (k < room e0).
    { destruct (Z.le_gt_cases (room e0) k); [|done]. exfalso. rewrite <- He in Hroom. unfold given_back in Hroom.
      destruct (Z.leb_spec k 0) as [Hk0|Hk0]; [lia|]. rewrite (proj2 (Z.ltb_ge k (room e0))) in Hroom by done. unfold room in Hroom. simpl in Hroom. lia. }
    rewrite list_lookup_insert_eq by (by eapply lookup_lt_Some). rewrite <- He, given_back_more by lia.
    replace (occ q l - (occ q l1 - 1)) with (k + 1) by lia. split; [lia|done].
  - rewrite list_lookup_insert_ne by lia. rewrite Z.sub_0_r. done.
Qed.

Section FreeCo.
Context (m : ColormapRec) (ch : channel) (n : Z) (rest l : list Pixel) (w : CmapWorld).

(** After the tests [ts]. *)
Definition freed (ts : list (option Pixel)) (s : FreeSt) : Prop :=
  (∃ c, f_map s = set_chan m ch c ∧ clientPixels c = clientPixels (get_chan m ch) ∧ chan_inv n c (f_pixels s ++ rest) ∧
     cells_given n (cells (get_chan m ch)) (cells c) l (f_pixels s)) ∧
  sharing (f_map s) (f_world s) ∧ quiet w (f_world s) ∧
  Z.of_nat (f_zapped s) = occ no_pixel (f_pixels s) ∧
  (f_zapped s = 0%nat -> f_pixels s = l) ∧
  (∀ q, q ≠ no_pixel -> occ q (f_pixels s) = Z.max 0 (occ q l - occ q (good_tests ts))) ∧
  (f_err s = Success <-> ((None ∉ ts) ∧ ∀ q, q ≠ no_pixel -> occ q (good_tests ts) <= occ q l)).

Context (Hn : n = numents (pVisual m) ch) (Hn31 : n < 2 ^ 31) (Hdyn : dynamic (cm_class m) = true).
Context (Hmask : 0 <= mask_of (pVisual m) ch).

Lemma pixel_of_nonneg p : 0 <= pixel_of (pVisual m) ch p.
Proof. unfold pixel_of. apply Z.shiftr_nonneg, Z.land_nonneg. by right. Qed.

Lemma good_tests_snoc ts t : good_tests (ts ++ [t]) = good_tests ts ++ match t with Some t => [t] | None => [] end.
Proof. unfold good_tests. rewrite omap_app. simpl. by destruct t. Qed.

Lemma free_one_ok rgbbad bits p ts s :
  freed ts s ->
  ∃ s', free_one ch rgbbad bits p s = Ok s' ∧ freed (ts ++ [test (pVisual m) ch rgbbad bits p]) s'.
Proof.
  intros ((c & Em & Hcp & Hi & Hgv) & Hs & Hq & Hz & Hz0 & Ho & He). unfold free_one, test. set (t := pixel_of (pVisual m) ch (Z.lor p bits)). destruct (set_chan_frame m ch c) as (Ev & Ec & _ & _).
  rewrite Em, Ev, Ec, Hdyn. fold t. destruct (_ || _) eqn:Eb.
  - eexists. split; [done|]. unfold freed. rewrite good_tests_snoc. cbn [f_map f_pixels f_world f_zapped f_err].
    rewrite app_nil_r. rewrite Em in Hs. split; [by exists c|]. split; [exact Hs|]. split; [etrans; [exact Hq|apply set_error_quiet]|]. split; [done|]. split; [done|]. split; [done|].
    split; [done|]. intros [Hnone _]. exfalso. apply Hnone, elem_of_app. right. by left.
  - apply orb_false_iff in Eb as [Et _]. apply Z.leb_gt in Et. pose proof (pixel_of_nonneg (Z.lor p bits)) as Ht. fold t in Ht.
    assert (t ≠ no_pixel) as Htn by (unfold no_pixel; change (u32 (Z.lnot 0)) with (2 ^ 32 - 1); lia).
    pose proof (zap_spec (f_pixels s) t) as Hzs. destruct (zap (f_pixels s) t) as [l'|] eqn:Ez.
    + destruct Hzs as (Hin & Hlen & Hocc). pose proof (zap_zapped _ _ _ Htn Ez) as Hzz.
      destruct (FreeCell_ok (set_chan m ch c) t ch (f_world s) n (l' ++ rest)) as (c' & sh & E & Hi' & Hs' & Hcp' & ec & Hec & Hroom & Hcells).
      { rewrite get_set_same. eapply chan_inv_ext; [|exact Hi]. intros q Hqn. cbn [occ]. rewrite !occ_app, Hocc;
          [destruct (t =? q); lia|unfold no_pixel; change (u32 (Z.lnot 0)) with (2 ^ 32 - 1); lia]. }
      { lia. }
      { by rewrite Em in Hs. }
      cbv zeta in *. rewrite E. cbn [mbind result_bind]. eexists. split; [done|]. unfold freed. rewrite good_tests_snoc.
      cbn [f_map f_pixels f_world f_zapped f_err]. rewrite set_set_chan in *.
      split; [exists c'; split; [done|]; split; [by rewrite Hcp', get_set_same|]; split; [done|]|].
      { rewrite get_set_same in Hec, Hcells. rewrite Hcells. eapply cells_given_one; [exact Hgv|lia|exact Hec|exact Hroom|].
        intros q Hqn. apply Hocc. unfold no_pixel. change (u32 (Z.lnot 0)) with (2 ^ 32 - 1). lia. }
      split; [done|].
      split; [etrans; [exact Hq|by apply only_shared_quiet; exists sh]|]. split; [lia|]. split; [done|]. split.
      * intros q Hqn. rewrite Hocc, Ho, occ_app by done. cbn [occ]. pose proof (occ_present t _ Hin) as Hpos. rewrite Ho in Hpos by done.
        destruct (Z.eqb_spec t q) as [<-|]; lia.
      * rewrite He. split; intros [Hnone Hle]; (split; [|intros q Hqn]).
        -- intros [?|?%list_elem_of_singleton]%elem_of_app; [by apply Hnone|done].
        -- rewrite occ_app. cbn [occ]. specialize (Hle q Hqn). pose proof (occ_present t _ Hin) as Hpos. rewrite Ho in Hpos by done.
           destruct (Z.eqb_spec t q) as [<-|]; lia.
        -- intros H. apply Hnone, elem_of_app. by left.
        -- specialize (Hle q Hqn). rewrite occ_app in Hle. pose proof (occ_nonneg q [t]). lia.
    + eexists. split; [done|]. unfold freed. rewrite good_tests_snoc. cbn [f_map f_pixels f_world f_zapped f_err]. rewrite Em in Hs.
      split; [by exists c|]. split; [exact Hs|]. split; [done|]. split; [done|]. split; [done|]. apply occ_absent in Hzs as H0. rewrite Ho in H0 by done. split.
      * intros q Hqn. rewrite Ho, occ_app by done. cbn [occ]. pose proof (occ_nonneg q (good_tests ts)). destruct (Z.eqb_spec t q) as [<-|]; lia.
      * split; [done|]. intros [_ Hle]. exfalso. specialize (Hle t Htn). rewrite occ_app in Hle. cbn [occ] in Hle. rewrite Z.eqb_refl in Hle. lia.
Qed.

Lemma free_pixels_ok rgbbad bits ps ts s :
  freed ts s ->
  ∃ s', foldM (free_one ch rgbbad bits) ps s = Ok s' ∧
    freed (ts ++ (test (pVisual m) ch rgbbad bits <$> ps)) s'.
Proof.
  revert ts s. induction ps as [|p ps IH]; intros ts s H; cbn [foldM].
  { exists s. split; [done|]. by rewrite app_nil_r. }
  destruct (free_one_ok rgbbad bits p ts s H) as (s1 & E & H1). rewrite E. cbn [mbind result_bind].
  destruct (IH _ _ H1) as (s2 & E2 & H2). exists s2. split; [done|]. by rewrite <- app_assoc in H2.
Qed.

Lemma free_bits_ok rgbbad bs ps ts s :
  freed ts s ->
  ∃ s', foldM (λ bits, foldM (free_one ch rgbbad bits) ps) bs s = Ok s' ∧
    freed (ts ++ tests_of (pVisual m) ch rgbbad ps bs) s'.
Proof.
  revert ts s. induction bs as [|b bs IH]; intros ts s H; cbn [foldM].
  { exists s. split; [done|]. by rewrite app_nil_r. }
  destruct (free_pixels_ok rgbbad b ps ts s H) as (s1 & E & H1). rewrite E. cbn [mbind result_bind].
  destruct (IH _ _ H1) as (s2 & E2 & H2). exists s2. split; [done|]. by rewrite <- app_assoc in H2.
Qed.

Lemma free_tests_ok rgbbad mask ps s :
  freed [] s ->
  ∃ s', foldM (λ bits, foldM (free_one ch rgbbad bits) ps) (submasks 32 mask) s = Ok s' ∧ freed (tests (pVisual m) ch rgbbad ps mask) s'.
Proof.
  intros H. destruct (free_bits_ok rgbbad (submasks 32 mask) ps [] s H) as (s' & E & Hf). rewrite app_nil_l in Hf.
  exists s'. split; [exact E|exact Hf].
Qed.

End FreeCo.

Lemma occ_insert_rest p ll k l l' :
  ll !! k = Some l -> occ p (l' ++ concat (<[k := []]> ll)) = occ p (concat (<[k := l']> ll)).
Proof. intros H. rewrite occ_app, !(occ_concat_insert _ _ _ _ _ H). simpl. lia. Qed.

Lemma table_ok_client n c k l : table_ok n c -> clientPixels c !! k = Some l -> Forall (λ p, 0 <= p < n) l.
Proof.
  intros (_ & _ & Hr & _) Hl. rewrite Forall_forall in *. intros p Hp. apply Hr, list_elem_of_In, in_concat.
  exists l. split; apply list_elem_of_In; [eapply list_elem_of_lookup_2; eauto|done].
Qed.

(** The list of one client is replaced by another one that the cells have room for. *)
Lemma table_ok_pixels n c cs f cp k l l' :
  table_ok n c -> clientPixels c !! k = Some l -> clientPixels c = cp ->
  chan_inv n (mkChan cs f cp) (l' ++ concat (<[k := []]> cp)) -> Forall (λ p, 0 <= p < n) l' ->
  table_ok n (mkChan cs f (<[k := l']> cp)).
Proof.
  intros (Hn & Hlen & Hr & _) Hl <- Hi Hl'. unfold table_ok. cbn [clientPixels]. split; [done|]. split; [by rewrite length_insert|].
  split; [by apply Forall_concat_insert|]. eapply chan_inv_ext; [|exact Hi]. intros p _. symmetry. by eapply occ_insert_rest.
Qed.

Definition rgbbad_of (COMPOSITE : bool) (v : VisualRec) (ch : channel) : Pixel :=
  match ch with PSEUDOMAP => 0 | _ => u32 (Z.lnot (RGBMASK COMPOSITE v)) end.

(** What the pixels of a client are after [FreeCo], and when it has no error. *)
Definition freed_list (n : Z) (ts : list (option Pixel)) (l l' : list Pixel) (rc : Status) : Prop :=
  (∀ q, 0 <= q < n -> occ q l' = Z.max 0 (occ q l - occ q (good_tests ts))) ∧
  (rc = Success <-> ((None ∉ ts) ∧ ∀ q, q ≠ no_pixel -> occ q (good_tests ts) <= occ q l)).

Lemma FreeCo_ok COMPOSITE m ch client pixels mask w :
  map_ok m w -> ch ∈ chans m -> a_client client -> 0 <= mask < 2 ^ 32 -> 0 <= mask_of (pVisual m) ch ->
  ∃ rc m' w' l l', FreeCo COMPOSITE m client ch pixels mask w = Ok (rc, m', w') ∧ map_ok m' w' ∧ same_frame m m' ∧ quiet w w' ∧
    clientPixels (get_chan m ch) !! Z.to_nat client = Some l ∧
    clientPixels (get_chan m' ch) = <[Z.to_nat client := l']> (clientPixels (get_chan m ch)) ∧
    freed_list (numents (pVisual m) ch) (tests (pVisual m) ch (rgbbad_of COMPOSITE (pVisual m) ch) pixels mask) l l' rc ∧
    cells_given (numents (pVisual m) ch) (cells (get_chan m ch)) (cells (get_chan m' ch)) l l' ∧
    (∀ a, same_table ch a = false -> get_chan m' a = get_chan m a).
Proof.
  intros Hm Hch Hcl Hmask Hm0. pose proof Hm as (Hd & Hs & Ht). specialize (Ht ch Hch) as Htab. pose proof Htab as (Hn & Hlen & Hr & Hi).
  destruct (get_pixels_ok _ _ Hlen Hcl) as (l & Hg & Hl). set (n := numents (pVisual m) ch) in *.
  pose proof (table_ok_client _ _ _ _ Htab Hl) as Hlr.
  assert (Hg0 : cells_given n (cells (get_chan m ch)) (cells (get_chan m ch)) l l).
  { apply cells_given_refl. intros q e _ _. unfold room. destruct (Z.ltb_spec 0 (refcnt e)); [lia|]. by destruct (refcnt e =? AllocPrivate). }
  unfold FreeCo. fold (rgbbad_of COMPOSITE (pVisual m) ch).
  destruct pixels as [|px pixels].
  { exists Success, m, w, l, l. split; [done|]. split; [done|]. split; [reflexivity|]. split; [reflexivity|]. split; [done|].
    split; [by rewrite list_insert_id|]. split; [|split; [exact Hg0|done]].
    assert (good_tests (tests (pVisual m) ch (rgbbad_of COMPOSITE (pVisual m) ch) [] mask) = [] ∧ None ∉ tests (pVisual m) ch (rgbbad_of COMPOSITE (pVisual m) ch) [] mask) as [Eg En].
    { unfold tests, tests_of. generalize (submasks 32 mask) as bs0. intros bs0. induction bs0 as [|b bs IH]; [split; [done|apply not_elem_of_nil]|exact IH]. }
    split; rewrite Eg; [intros q _; pose proof (occ_nonneg q l); simpl; lia|]. split; [|done]. intros _. split; [done|]. intros q _. apply occ_nonneg. }
  rewrite Hg. cbn [mbind result_bind]. rewrite for_bits_submasks by done.
  set (rest := concat (<[Z.to_nat client := []]> (clientPixels (get_chan m ch)))).
  assert (∀ q, 0 <= q < n -> q ≠ no_pixel) as Hnp by (intros q Hq; unfold no_pixel; change (u32 (Z.lnot 0)) with (2 ^ 32 - 1); lia).
  assert (no_pixel ∉ l) as Hnl by (intros H; rewrite Forall_forall in Hlr; by apply (Hnp no_pixel (Hlr _ H))).
  destruct (free_tests_ok m ch n rest l w eq_refl Hn Hd Hm0 (rgbbad_of COMPOSITE (pVisual m) ch) mask (px :: pixels) (mkFree m l 0 Success w))
    as (s & E & (c & Em & Hcp & Hci & Hgv) & Hs' & Hq & Hz & Hz0 & Ho & He).
  { split; [|split; [|split; [|split; [|split; [|split]]]]]; cbn [f_map f_pixels f_world f_zapped f_err].
    - exists (get_chan m ch). rewrite set_get_chan. split; [done|]. split; [done|]. split; [|exact Hg0]. eapply chan_inv_ext; [|exact Hi].
      intros p _. unfold rest. by rewrite (occ_insert_rest _ _ _ l l), list_insert_id by done.
    - done.
    - reflexivity.
    - by rewrite occ_absent.
    - done.
    - intros q _. pose proof (occ_nonneg q l). simpl. lia.
    - split; [|done]. intros _. split; [apply not_elem_of_nil|]. intros q _. apply occ_nonneg. }
  rewrite E. cbn [mbind result_bind].
  assert (same_frame m (f_map s)) as Fr by (rewrite Em; apply set_chan_frame).
  assert (∀ a, same_table ch a = false -> get_chan (f_map s) a = get_chan m a) as Hoth by (intros a Ha; by rewrite Em, get_set_chan, Ha).
  destruct (Nat.eqb_spec (f_zapped s) 0) as [E0|E0].
  - exists (f_err s), (f_map s), (f_world s), l, l. split; [done|]. rewrite (Hz0 E0) in *. split; [|split; [done|]].
    + rewrite Em. apply (map_ok_set m ch c w); [done|done| |by rewrite <- Em].
      destruct c as [cs f cp]. cbn [clientPixels] in Hcp. subst cp.
      rewrite <- (list_insert_id (clientPixels (get_chan m ch)) (Z.to_nat client) l) at 1 by done.
      by eapply table_ok_pixels.
    + split; [done|]. split; [done|]. split; [by rewrite list_insert_id, Em, get_set_same|].
      split; [|split; [by rewrite Em, get_set_same|done]]. split; [|done]. intros q Hqn. apply Ho, Hnp, Hqn.
  - replace (f_zapped s) with (Z.to_nat (occ no_pixel (f_pixels s))) by lia. rewrite compact_ok. cbn [mbind result_bind].
    set (l' := filter (λ x, x ≠ no_pixel) (f_pixels s)).
    eexists _, _, _, l, l'. split; [done|]. rewrite Em, set_set_chan, get_set_same.
    assert (∀ q, 0 <= q < n -> occ q l' = Z.max 0 (occ q l - occ q (good_tests (tests (pVisual m) ch (rgbbad_of COMPOSITE (pVisual m) ch) (px :: pixels) mask)))) as Hl'.
    { intros q Hqn. unfold l'. rewrite occ_filter by (apply Hnp, Hqn). apply Ho, Hnp, Hqn. }
    set (wf := if (length (f_pixels s) - Z.to_nat (occ no_pixel (f_pixels s)) =? 0)%nat then f_world s else (c_alloc (f_world s)).2).
    assert (quiet (f_world s) wf ∧ shared wf = shared (f_world s)) as [Hqf Hsf].
    { unfold wf. case_match; [by split|]. destruct (c_alloc (f_world s)) as [ok w'] eqn:Ex. by apply xalloc_quiet in Ex. }
    assert (Forall (λ p, 0 <= p < n) l') as Hlr'.
    { apply Forall_forall. intros q Hq'. apply list_elem_of_filter in Hq' as [Hqn Hq']. apply occ_present in Hq'. rewrite Ho in Hq' by done.
      rewrite Forall_forall in Hlr. apply Hlr. destruct (decide (q ∈ l)) as [|Hno]; [done|]. rewrite (occ_absent q l) in Hq' by done.
      pose proof (occ_nonneg q (good_tests (tests (pVisual m) ch (rgbbad_of COMPOSITE (pVisual m) ch) (px :: pixels) mask))). lia. }
    assert (table_ok n (set_pixels c client l')) as Htab'.
    { destruct c as [cs f cp]. cbn [clientPixels] in Hcp. subst cp. unfold set_pixels. eapply table_ok_pixels; [done|done|done| |done].
      eapply chan_inv_ext; [|exact Hci]. intros q Hqn. rewrite !occ_app. f_equal. unfold l'. by rewrite occ_filter by (apply Hnp, Hqn). }
    split; [|split; [apply set_chan_frame|]].
    + apply (map_ok_set m ch _ w); [done|done|done|]. apply (sharing_shared _ (f_world s)); [done|].
      pose proof (sharing_pixels (f_map s) ch (f_world s) (nfree c) (<[Z.to_nat client := l']> (clientPixels c)) Hs') as H.
      by rewrite Em, get_set_same, set_set_chan in H.
    + split; [etrans; [exact Hq|exact Hqf]|]. split; [done|]. split; [rewrite get_set_same; unfold set_pixels; cbn [clientPixels]; by rewrite Hcp|].
      split; [by split|]. split; [|intros a Ha; by rewrite get_set_chan, Ha].
      rewrite get_set_same. cbn [cells set_pixels]. eapply cells_given_ext; [|exact Hgv]. intros q Hqn. unfold l'. by rewrite occ_filter by (apply Hnp, Hqn).
Qed.

(** ** [FreeColors] *)

(** The bits of a mask that belong to a table, or to the map. *)
Definition table_mask (v : VisualRec) (ch : channel) : Pixel :=
  match ch with PSEUDOMAP => u32 (u32 (Z.shiftl 1 (nplanes v)) - 1) | _ => mask_of v ch end.
Definition whole_mask (COMPOSITE : bool) (m : ColormapRec) : Pixel :=
  if has_channels (cm_class m) then RGBMASK COMPOSITE (pVisual m) else table_mask (pVisual m) PSEUDOMAP.

Definition table_tests (COMPOSITE : bool) (v : VisualRec) (ch : channel) (pixels : list Pixel) (mask : Pixel) : list (option Pixel) :=
  tests v ch (rgbbad_of COMPOSITE v ch) pixels (Z.land mask (table_mask v ch)).

Definition masks_ok (m : ColormapRec) : Prop := ∀ ch, ch ∈ chans m -> 0 <= mask_of (pVisual m) ch.

(** The tests of a table find all their cells in the list of the client. *)
Definition all_found (ts : list (option Pixel)) (l : list Pixel) : Prop :=
  (None ∉ ts) ∧ ∀ q, q ≠ no_pixel -> occ q (good_tests ts) <= occ q l.

(** What freeing colors does to one table. *)
Definition table_freed (COMPOSITE : bool) (m m' : ColormapRec) (client : Z) (pixels : list Pixel) (mask : Pixel) (ch : channel) (l : list Pixel) : Prop :=
  clientPixels (get_chan m ch) !! Z.to_nat client = Some l ∧
  ∃ l', clientPixels (get_chan m' ch) = <[Z.to_nat client := l']> (clientPixels (get_chan m ch)) ∧
    (∀ q, 0 <= q < numents (pVisual m) ch -> occ q l' = Z.max 0 (occ q l - occ q (good_tests (table_tests COMPOSITE (pVisual m) ch pixels mask)))) ∧
    cells_given (numents (pVisual m) ch) (cells (get_chan m ch)) (cells (get_chan m' ch)) l l'.

Lemma land_u32 a b : 0 <= a < 2 ^ 32 -> 0 <= Z.land a b < 2 ^ 32.
Proof.
  intros Ha. assert (submask (Z.land a b) a) as H.
  { split; [apply Z.land_nonneg; lia|]. intros i. rewrite Z.land_spec. by intros [? _]%andb_true_iff. }
  by apply (submask_u32 _ a).
Qed.

(** [FreeCo] as a step of [FreeColors]. *)
Lemma FreeCo_table COMPOSITE m ch client pixels mask w :
  map_ok m w -> ch ∈ chans m -> a_client client -> 0 <= mask < 2 ^ 32 -> 0 <= mask_of (pVisual m) ch ->
  ∃ rc m' w' l, FreeCo COMPOSITE m client ch pixels (Z.land mask (table_mask (pVisual m) ch)) w = Ok (rc, m', w') ∧
    map_ok m' w' ∧ same_frame m m' ∧ quiet w w' ∧
    table_freed COMPOSITE m m' client pixels mask ch l ∧
    (rc = Success <-> all_found (table_tests COMPOSITE (pVisual m) ch pixels mask) l) ∧
    (∀ a, same_table ch a = false -> get_chan m' a = get_chan m a).
Proof.
  intros Hm Hch Hcl Hmask Hm0.
  destruct (FreeCo_ok COMPOSITE m ch client pixels (Z.land mask (table_mask (pVisual m) ch)) w Hm Hch Hcl (land_u32 _ _ Hmask) Hm0)
    as (rc & m' & w' & l & l' & E & Hm' & F & Q & Hl & Hl' & [Hocc Hrc] & Hgv & Ho).
  exists rc, m', w', l. split; [exact E|]. split; [exact Hm'|]. split; [exact F|]. split; [exact Q|].
  split; [split; [exact Hl|]; exists l'; split; [exact Hl'|split; [exact Hocc|exact Hgv]]|]. split; [exact Hrc|exact Ho].
Qed.

Lemma table_freed_before COMPOSITE m0 m m' client pixels mask ch l :
  pVisual m = pVisual m0 -> get_chan m ch = get_chan m0 ch ->
  table_freed COMPOSITE m m' client pixels mask ch l -> table_freed COMPOSITE m0 m' client pixels mask ch l.
Proof. unfold table_freed. by intros -> ->. Qed.

Lemma table_freed_after COMPOSITE m m' m'' client pixels mask ch l :
  get_chan m'' ch = get_chan m' ch ->
  table_freed COMPOSITE m m' client pixels mask ch l -> table_freed COMPOSITE m m'' client pixels mask ch l.
Proof. unfold table_freed. by intros ->. Qed.

(** The end of [FreeColors]: bits of the mask that the map does not have. *)
Lemma mask_answer pixels mask (rc0 : Status) (m1 : ColormapRec) (w1 : CmapWorld) rmask (P : Prop) :
  (rc0 = Success <-> P) ->
  ∃ rc w2, (match pixels with
            | [] => Ok (rc0, m1, w1)
            | p :: _ => if negb (mask =? rmask) then Ok (BadValue, m1, set_error w1 (Z.lor p mask)) else Ok (rc0, m1, w1)
            end) = Ok (rc, m1, w2) ∧ quiet w1 w2 ∧ shared w2 = shared w1 ∧ (rc = Success <-> (P ∧ (pixels = [] ∨ rmask = mask))).
Proof.
  intros HP. destruct pixels as [|p ps].
  - exists rc0, w1. split; [done|]. split; [reflexivity|]. split; [done|]. rewrite HP. split; [intros H; split; [done|by left]|by intros []].
  - destruct (Z.eqb_spec mask rmask) as [->|Hne]; cbn [negb].
    + exists rc0, w1. split; [done|]. split; [reflexivity|]. split; [done|]. rewrite HP. split; [intros H; split; [done|by right]|by intros []].
    + eexists _, _. split; [done|]. split; [apply set_error_quiet|]. split; [done|]. split; [done|]. intros [_ [?|?]]; congruence.
Qed.

(** The answer of [FreeColors]: all cells were found, and the mask has no bits too many. *)
Lemma FreeColors_ok COMPOSITE m client pixels mask w :
  map_ok m w -> masks_ok m -> has_flag m AllAllocated = false -> a_client client -> 0 <= mask < 2 ^ 32 ->
  ∃ rc m' w' ls, FreeColors COMPOSITE m client pixels mask w = Ok (rc, m', w') ∧
    map_ok m' w' ∧ same_frame m m' ∧ quiet w w' ∧
    (∀ ch, ch ∈ chans m -> table_freed COMPOSITE m m' client pixels mask ch (ls ch)) ∧
    (rc = Success <-> ((∀ ch, ch ∈ chans m -> all_found (table_tests COMPOSITE (pVisual m) ch pixels mask) (ls ch)) ∧
                       (pixels = [] ∨ Z.land mask (whole_mask COMPOSITE m) = mask))).
Proof.
  intros Hm Hmasks Hall Hcl Hmask. unfold FreeColors. rewrite Hall. unfold whole_mask.
  destruct (chans_cases m) as [[Hh Hchs]|[Hh Hchs]]; rewrite Hh.
  - assert (∀ ch, ch ∈ chans m <-> ch = REDMAP ∨ ch = GREENMAP ∨ ch = BLUEMAP) as Hin by (intros ch; rewrite Hchs; set_solver).
    destruct (FreeCo_table COMPOSITE m REDMAP client pixels mask w Hm) as (r1 & m1 & w1 & l1 & E1 & Hm1 & F1 & Q1 & T1 & R1 & O1);
      [apply Hin; auto|done|done|apply Hmasks, Hin; auto|]. cbn [table_mask mask_of] in E1. rewrite E1. cbn [mbind result_bind].
    assert (pVisual m1 = pVisual m) as V1 by apply F1. assert (cm_class m1 = cm_class m) as C1 by apply F1.
    destruct (FreeCo_table COMPOSITE m1 GREENMAP client pixels mask w1 Hm1) as (r2 & m2 & w2 & l2 & E2 & Hm2 & F2 & Q2 & T2 & R2 & O2);
      [unfold chans; rewrite C1, Hh; set_solver|done|done|rewrite V1; apply Hmasks, Hin; auto|]. rewrite V1 in E2, R2. cbn [table_mask mask_of] in E2. rewrite E2. cbn [mbind result_bind].
    assert (pVisual m2 = pVisual m) as V2 by (rewrite <- V1; apply F2). assert (cm_class m2 = cm_class m) as C2 by (rewrite <- C1; apply F2).
    destruct (FreeCo_table COMPOSITE m2 BLUEMAP client pixels mask w2 Hm2) as (r3 & m3 & w3 & l3 & E3 & Hm3 & F3 & Q3 & T3 & R3 & O3);
      [unfold chans; rewrite C2, Hh; set_solver|done|done|rewrite V2; apply Hmasks, Hin; auto|]. rewrite V2 in E3, R3. cbn [table_mask mask_of] in E3. rewrite E3. cbn [mbind result_bind].
    set (ls := λ ch, match ch with GREENMAP => l2 | BLUEMAP => l3 | _ => l1 end).
    set (rc0 := if decide (r3 = Success) then if decide (r2 = Success) then r1 else r2 else r3).
    destruct (mask_answer pixels mask rc0 m3 w3 (Z.land mask (RGBMASK COMPOSITE (pVisual m))) (∀ ch, ch ∈ chans m -> all_found (table_tests COMPOSITE (pVisual m) ch pixels mask) (ls ch)))
      as (rc & wf & -> & Qf & Sf & Rf).
    { unfold rc0. split.
      - intros H ch Hch. apply Hin in Hch as [->|[->| ->]]; repeat case_decide; subst; try congruence; [by apply R1|by apply R2|by apply R3].
      - intros H. rewrite !decide_True; [apply R1, H, Hin; auto|apply R2, (H GREENMAP), Hin; auto|apply R3, (H BLUEMAP), Hin; auto]. }
    exists rc, m3, wf, ls. split; [done|]. split; [destruct Hm3 as (?&?&?); split; [done|]; split; [by apply (sharing_shared _ w3)|done]|].
    split; [etrans; [exact F1|etrans; [exact F2|exact F3]]|]. split; [etrans; [exact Q1|etrans; [exact Q2|etrans; [exact Q3|exact Qf]]]|].
    split; [|exact Rf]. intros ch Hch. apply Hin in Hch as [->|[->| ->]]; cbn [ls].
    + eapply table_freed_after; [|exact T1]. by rewrite (O3 REDMAP eq_refl), (O2 REDMAP eq_refl).
    + eapply table_freed_after; [by rewrite (O3 GREENMAP eq_refl)|]. eapply table_freed_before; [exact V1|apply (O1 GREENMAP eq_refl)|exact T2].
    + eapply table_freed_before; [exact V2| |exact T3]. by rewrite (O2 BLUEMAP eq_refl), (O1 BLUEMAP eq_refl).
  - assert (∀ ch, ch ∈ chans m <-> ch = PSEUDOMAP) as Hin by (intros ch; rewrite Hchs; set_solver).
    destruct (FreeCo_table COMPOSITE m PSEUDOMAP client pixels mask w Hm) as (r1 & m1 & w1 & l1 & E1 & Hm1 & F1 & Q1 & T1 & R1 & O1);
      [by apply Hin|done|done|by apply Hmasks, Hin|]. cbn [table_mask] in E1. rewrite E1. cbn [mbind result_bind].
    destruct (mask_answer pixels mask r1 m1 w1 (Z.land mask (table_mask (pVisual m) PSEUDOMAP)) (∀ ch, ch ∈ chans m -> all_found (table_tests COMPOSITE (pVisual m) ch pixels mask) l1))
      as (rc & wf & E & Qf & Sf & Rf).
    { rewrite R1. split; [intros H ch Hch; by apply Hin in Hch as ->|intros H; by apply H, Hin]. }
    cbn [table_mask] in E, Rf |- *. rewrite E. exists rc, m1, wf, (λ _, l1). split; [done|].
    split; [destruct Hm1 as (?&?&?); split; [done|]; split; [by apply (sharing_shared _ w1)|done]|]. split; [done|].
    split; [etrans; [exact Q1|exact Qf]|]. split; [|exact Rf]. intros ch Hch. by apply Hin in Hch as ->.
Qed.
