(* ===== verification/ColorFind.v ===== *)
(** * ColorFind: getting a shared colour (dix/colormap.c)

    [FindColor] prefers a cell that shows the colour to a free one, and takes the first one
    from where it was asked to start, and counts one client more ([counted]); [AllocColor] keeps
    the counts of the map, and frees what it got when a later table has no cell. *)

From S2P Require Import Prelude Atom ResourceDB PixelBits ColorCells ColorAccounts.

#[local] Set Warnings "-clear-no-such-hyp".

(** ** The search *)

(** The [k]-th cell that is looked at. *)
Definition at_pos (size pixel : Z) (k : nat) : Z := (pixel + Z.of_nat k) mod size.

Definition hit (c : Chan) (ch : channel) (prgb : xrgb) (p : Z) : Prop :=
  ∃ e v, cells c !! Z.to_nat p = Some e ∧ 0 < refcnt e ∧ co e = local_color v ∧ same_color ch v prgb = true.

Definition empty_cell (c : Chan) (p : Z) : Prop := ∃ e, cells c !! Z.to_nat p = Some e ∧ refcnt e = 0.

(** What the search from [pixel] on finds in [n] cells. *)
Definition search_result (n : nat) (c : Chan) (size : Z) (prgb : xrgb) (ch : channel) (creating : bool) (pixel : Pixel) (slot : option Pixel) (r : color_search) : Prop :=
  match r with
  | Match p => ∃ k, (k < n)%nat ∧ p = at_pos size pixel k ∧ hit c ch prgb p ∧ ∀ j, (j < k)%nat -> ¬ hit c ch prgb (at_pos size pixel j)
  | NoMatch f =>
      (creating = false ∨ f = slot -> ∀ j, (j < n)%nat -> ¬ hit c ch prgb (at_pos size pixel j)) ∧
      match slot with
      | Some _ => f = slot
      | None =>
          match f with
          | None => ∀ j, (j < n)%nat -> ¬ empty_cell c (at_pos size pixel j)
          | Some p => ∃ k, (k < n)%nat ∧ p = at_pos size pixel k ∧ empty_cell c p ∧ ∀ j, (j < k)%nat -> ¬ empty_cell c (at_pos size pixel j)
          end
      end
  end.

Lemma at_pos_0 size pixel : 0 <= pixel < size -> at_pos size pixel 0 = pixel.
Proof. intros H. unfold at_pos. rewrite Z.add_0_r. by apply Z.mod_small. Qed.

Lemma at_pos_S size pixel k :
  0 <= pixel < size -> at_pos size (if size <=? pixel + 1 then 0 else pixel + 1) k = at_pos size pixel (S k).
Proof.
  intros H. unfold at_pos. destruct (Z.leb_spec size (pixel + 1)).
  - replace (pixel + Z.of_nat (S k)) with (0 + Z.of_nat k + 1 * size) by lia. by rewrite Z.mod_add by lia.
  - f_equal. lia.
Qed.

Lemma before_S {P : nat -> Prop} k : P 0%nat -> (∀ j, (j < k)%nat -> P (S j)) -> ∀ j, (j < S k)%nat -> P j.
Proof. intros H0 HS [|j] Hj; [done|]. apply HS. lia. Qed.

Lemma search_color_ok c size prgb ch creating n pixel slot :
  (∀ p, 0 <= p < size -> ∃ e, get_cell c p = Ok e ∧ cells c !! Z.to_nat p = Some e ∧ (0 < refcnt e -> is_local e)) ->
  0 <= pixel < size ->
  ∃ r, search_color n c size prgb ch creating pixel slot = Ok r ∧ search_result n c size prgb ch creating pixel slot r.
Proof.
  intros Hc. revert pixel slot. induction n as [|n IH]; intros pixel slot Hp; cbn [search_color].
  { exists (NoMatch slot). split; [done|]. simpl. split; [intros _ j Hj; lia|]. destruct slot; [done|]. intros j Hj; lia. }
  destruct (Hc pixel Hp) as (e & -> & He & Hloc). cbn [mbind result_bind].
  set (next := if size <=? pixel + 1 then 0 else pixel + 1).
  assert (0 <= next < size) as Hnext by (unfold next; destruct (Z.leb_spec size (pixel + 1)); lia).
  assert (∀ k, at_pos size next k = at_pos size pixel (S k)) as HS by (intros k; by apply at_pos_S).
  assert (∀ slot', (¬ hit c ch prgb pixel) -> slot' = slot ∨ slot = None ∧ (slot' = None ∧ ¬ empty_cell c pixel ∨ slot' = Some pixel ∧ empty_cell c pixel ∧ creating = false) ->
    (slot' = slot -> slot = None -> ¬ empty_cell c pixel) ->
    ∃ r, search_color n c size prgb ch creating next slot' = Ok r ∧ search_result (S n) c size prgb ch creating pixel slot r) as Hgo.
  { intros slot' Hno Hslot Hemp. destruct (IH next slot' Hnext) as (r & E & Hr). exists r. split; [exact E|].
    destruct r as [p|f]; cbn [search_result] in *.
    - destruct Hr as (k & Hk & -> & Hh & Hbef). exists (S k). split; [lia|]. rewrite HS in Hh |- *. split; [done|]. split; [done|].
      apply before_S; [by rewrite at_pos_0|]. intros j Hj. rewrite <- HS. by apply Hbef.
    - destruct Hr as [Hmiss Hf]. split.
      + intros H. apply before_S; [by rewrite at_pos_0|]. intros j Hj. rewrite <- HS. apply Hmiss; [|done].
        destruct H as [?| ->]; [by left|]. destruct Hslot as [->|(-> & [[-> _]|(-> & _ & ?)])]; [by right|by right|by left].
      + destruct slot as [s|].
        * destruct Hslot as [->|[? _]]; [|done]. exact Hf.
        * destruct Hslot as [->|(_ & [[-> He0]|(-> & He0 & _)])].
          -- specialize (Hemp eq_refl eq_refl). destruct f as [p|].
             ++ destruct Hf as (k & Hk & -> & Hh & Hbef). exists (S k). split; [lia|]. rewrite HS in Hh |- *. split; [done|]. split; [done|].
                apply before_S; [by rewrite at_pos_0|]. intros j Hj. rewrite <- HS. by apply Hbef.
             ++ apply before_S; [by rewrite at_pos_0|]. intros j Hj. rewrite <- HS. by apply Hf.
          -- destruct f as [p|].
             ++ destruct Hf as (k & Hk & -> & Hh & Hbef). exists (S k). split; [lia|]. rewrite HS in Hh |- *. split; [done|]. split; [done|].
                apply before_S; [by rewrite at_pos_0|]. intros j Hj. rewrite <- HS. by apply Hbef.
             ++ apply before_S; [by rewrite at_pos_0|]. intros j Hj. rewrite <- HS. by apply Hf.
          -- rewrite Hf. exists 0%nat. rewrite at_pos_0 by done. split; [lia|]. split; [done|]. split; [done|]. intros j Hj; lia. }
  destruct (Z.ltb_spec 0 (refcnt e)) as [Hpos|Hnpos].
  - destruct (Hloc Hpos) as [v Hv]. unfold Comp, local_of. rewrite Hv. cbn [mbind result_bind]. destruct (same_color ch v prgb) eqn:Es.
    + exists (Match pixel). split; [done|]. exists 0%nat. rewrite at_pos_0 by done. split; [lia|]. split; [done|]. split; [by exists e, v|]. intros j Hj; lia.
    + apply Hgo; [|by left|].
      * intros (e' & v' & He' & _ & Hv' & Es'). rewrite He in He'. injection He' as <-. rewrite Hv in Hv'. injection Hv' as <-. congruence.
      * intros _ _ (e' & He' & H0). rewrite He in He'. injection He' as <-. lia.
  - assert (¬ hit c ch prgb pixel) as Hno.
    { intros (e' & v' & He' & Hpos & _). rewrite He in He'. injection He' as <-. lia. }
    destruct slot as [s|]; [apply Hgo; [done|by left|done]|]. destruct (Z.eqb_spec (refcnt e) 0) as [H0|H0].
    + assert (empty_cell c pixel) as Hemp by (by exists e). destruct creating eqn:Ecr.
      * exists (NoMatch (Some pixel)). split; [done|]. split; [intros [?|?]; congruence|]. exists 0%nat. rewrite at_pos_0 by done.
        split; [lia|]. split; [done|]. split; [done|]. intros j Hj; lia.
      * apply Hgo; [done|right; split; [done|by right]|done].
    + apply Hgo; [done|by left|]. intros _ _ (e' & He' & H1). rewrite He in He'. injection He' as <-. lia.
Qed.

Lemma at_pos_all size pixel p : 0 <= p < size -> ∃ k, (k < Z.to_nat size)%nat ∧ at_pos size pixel k = p.
Proof.
  intros H. exists (Z.to_nat ((p - pixel) mod size)). pose proof (Z.mod_pos_bound (p - pixel) size ltac:(lia)). split; [lia|].
  unfold at_pos. rewrite Z2Nat.id by lia. rewrite Zplus_mod_idemp_r. replace (pixel + (p - pixel)) with p by lia. by apply Z.mod_small.
Qed.

Lemma at_pos_range size pixel k : 0 < size -> 0 <= at_pos size pixel k < size.
Proof. intros H. by apply Z.mod_pos_bound. Qed.

(** ** [FindColor] *)

Lemma xalloc_ok w : all_ok (mem w) -> ∃ w', c_alloc w = (true, w') ∧ all_ok (mem w') ∧ shared w' = shared w ∧ quiet w w' ∧ clientErrorValue w' = clientErrorValue w.
Proof.
  intros H. destruct (c_alloc w) as [ok w'] eqn:E. destruct (xalloc_quiet _ _ _ E) as [Q S].
  unfold c_alloc, alloc in E. destruct w as [sh nx hw ce er o]. simpl in *. destruct H as [|b o <- H]; injection E as <- <-; eexists; split; eauto.
Qed.

(** The list of a client grows by a pixel of a cell with room for it. *)
Definition recorded (m : ColormapRec) (ch : channel) (client : Z) : bool := negb (has_flag m BeingCreated || (client =? -1)).

Lemma remember_pixel_ok m ch client pixel n w :
  let c := get_chan m ch in
  all_ok (mem w) -> (client = -1 ∨ a_client client) -> 0 <= pixel < n ->
  n < 2 ^ 31 -> length (clientPixels c) = Z.to_nat MAXCLIENTS -> Forall (λ p, 0 <= p < n) (concat (clientPixels c)) ->
  chan_inv n c (if recorded m ch client then pixel :: concat (clientPixels c) else concat (clientPixels c)) -> sharing m w ->
  ∃ m' w' c', remember_pixel m ch client pixel w = Ok (Success, m', w') ∧ m' = set_chan m ch c' ∧
    all_ok (mem w') ∧ shared w' = shared w ∧ quiet w w' ∧ clientErrorValue w' = clientErrorValue w ∧
    table_ok n c' ∧ sharing m' w' ∧ cells c' = cells c ∧ nfree c' = nfree c ∧
    (if recorded m ch client then ∃ l, clientPixels c !! Z.to_nat client = Some l ∧ clientPixels c' = <[Z.to_nat client := l ++ [pixel]]> (clientPixels c)
     else clientPixels c' = clientPixels c).
Proof.
  intros c Hmem Hcl Hp Hn Hlen Hr Hi Hs. unfold remember_pixel, recorded in *. fold c.
  destruct (has_flag m BeingCreated || (client =? -1)) eqn:E; cbn [negb] in *.
  - exists m, w, c. split; [done|]. split; [unfold c; by rewrite set_get_chan|]. do 4 (split; [try done; reflexivity|]). by split.
  - apply orb_false_iff in E as [_ E]. apply Z.eqb_neq in E. destruct Hcl as [|Hcl]; [done|].
    destruct (get_pixels_ok _ _ Hlen Hcl) as (l & -> & Hl). cbn [mbind result_bind].
    destruct (xalloc_ok w Hmem) as (w' & -> & Hmem' & Hsh & Q & He). cbv zeta iota beta.
    eexists _, w', _. split; [done|]. split; [done|]. split; [done|]. split; [done|]. split; [done|]. split; [done|]. split; [|split].
    + eapply (table_ok_pixels n c _ _ _ (Z.to_nat client) l); [|done|done| |].
      * split; [done|]. split; [done|]. split; [done|]. eapply chan_inv_ext_le; [|exact Hi]. intros q. cbn [occ]. destruct (pixel =? q); lia.
      * eapply chan_inv_ext; [|exact Hi]. intros q _. rewrite (occ_insert_rest _ _ _ l) by done. cbn [occ].
        rewrite (occ_concat_insert _ _ _ _ _ Hl), occ_app. simpl. destruct (pixel =? q); lia.
      * apply Forall_app. split; [|by apply Forall_singleton]. rewrite Forall_forall in Hr |- *. intros q Hq. apply Hr, list_elem_of_In, in_concat.
        exists l. split; apply list_elem_of_In; [eapply list_elem_of_lookup_2; eauto|done].
    + apply (sharing_shared _ w); [done|]. unfold set_pixels. by apply sharing_pixels.
    + split; [done|]. split; [done|]. by exists l.
Qed.

(** No count of the table is at its limit. *)
Definition below_limit (c : Chan) : Prop := Forall (λ e, refcnt e < 2 ^ 15 - 1) (cells c).

(** One client more has the cell: the count of a cell in use grows by one, and a free cell becomes
    one that is not shared and counted once. *)
Definition counted (e e' : Entry) : Prop :=
  (0 < refcnt e ∧ e' = with_refcnt e (refcnt e + 1)) ∨ (refcnt e = 0 ∧ refcnt e' = 1 ∧ fShared e' = false).

(** What a client gets: a cell with the color, one more pixel in its list, and one count of that
    cell, where no other cell of the table changes. *)
Definition got_color (m m' : ColormapRec) (ch : channel) (client : Z) (prgb : xrgb) (i : Pixel) : Prop :=
  (∃ e v, cells (get_chan m' ch) !! Z.to_nat i = Some e ∧ co e = local_color v ∧ same_color ch v prgb = true ∧
          (0 <= client -> 0 < refcnt e)) ∧
  (if recorded m ch client then ∃ l, clientPixels (get_chan m ch) !! Z.to_nat client = Some l ∧
                                     clientPixels (get_chan m' ch) = <[Z.to_nat client := l ++ [i]]> (clientPixels (get_chan m ch))
   else clientPixels (get_chan m' ch) = clientPixels (get_chan m ch)) ∧
  (0 <= client -> ∃ e e', cells (get_chan m ch) !! Z.to_nat i = Some e ∧
     cells (get_chan m' ch) = <[Z.to_nat i := e']> (cells (get_chan m ch)) ∧ counted e e').

(** The world after colors were found: [StoreColors] may have been called. *)
Definition same_store (w w' : CmapWorld) : Prop :=
  shared w' = shared w ∧ next_shared w' = next_shared w ∧ cmapEntries w' = cmapEntries w ∧ clientErrorValue w' = clientErrorValue w.

#[export] Instance same_store_po : PreOrder same_store.
Proof.
  split; [done|]. intros a b c (?&?&?&?) (?&?&?&?). split; [congruence|]. split; [congruence|]. split; congruence.
Qed.

Lemma same_color_set ch c prgb : same_color ch (set_comp ch c prgb) prgb = true.
Proof. destruct ch; simpl; by rewrite ?Z.eqb_refl. Qed.

Lemma map_cells m w ch p :
  map_ok m w -> ch ∈ chans m -> 0 <= p < numents (pVisual m) ch ->
  ∃ e, get_cell (get_chan m ch) p = Ok e ∧ cells (get_chan m ch) !! Z.to_nat p = Some e ∧
       AllocTemporary <= refcnt e < 2 ^ 15 ∧ occ p (concat (clientPixels (get_chan m ch))) <= room e ∧ shared_cell e.
Proof.
  intros (_ & Hs & Ht) Hch Hp. destruct (Ht ch Hch) as (_ & _ & _ & Hi).
  destruct (chan_inv_cell _ _ _ _ Hi Hp) as (e & Hg & He & _ & Hr & Ho). exists e. split; [done|]. split; [done|]. split; [done|]. split; [done|].
  by eapply sharing_cell.
Qed.

(** The cells of a map with channels have colors of their own. *)
Lemma map_local m w ch p :
  map_ok m w -> ch ∈ chans m -> has_channels (cm_class m) = true -> 0 <= p < numents (pVisual m) ch ->
  ∃ e v, get_cell (get_chan m ch) p = Ok e ∧ co e = local_color v.
Proof.
  intros Hm Hch Hh Hp. destruct (map_cells m w ch p Hm Hch Hp) as (e & Hg & He & _). destruct Hm as (_ & (_ & _ & Hd) & _).
  destruct (cells_insert m ch _ e e He) as (k & Hk & _). specialize (Hd Hh). rewrite Forall_lookup in Hd. destruct (Hd _ _ Hk) as [v Hv]. eauto.
Qed.

Definition sizes_ok (m : ColormapRec) : Prop := ∀ ch, ch ∈ chans m -> 0 < numents (pVisual m) ch.

Lemma not_pseudo m ch : ch ∈ chans m -> ch ≠ PSEUDOMAP -> has_channels (cm_class m) = true ∧ ∀ a, a ≠ PSEUDOMAP -> a ∈ chans m.
Proof.
  intros Hch Hne. destruct (chans_cases m) as [[Hh E]|[Hh E]]; rewrite E in *.
  - split; [done|]. intros [] ?; set_solver.
  - exfalso. apply list_elem_of_singleton in Hch. done.
Qed.

Lemma new_item_ok m w ch prgb p :
  map_ok m w -> sizes_ok m -> ch ∈ chans m ->
  ∃ def, new_item m ch prgb p = Ok def ∧ it_pixel def = shift_pixel (pVisual m) ch p.
Proof.
  intros Hm Hsz Hch. unfold new_item. destruct (decide (ch = PSEUDOMAP)) as [->|Hne]; [eexists; by split|].
  destruct (not_pseudo m ch Hch Hne) as [Hh Hall].
  assert (∀ a, a ≠ PSEUDOMAP -> ∃ v, (e ← get_cell (get_chan m a) 0; local_of e) = Ok v) as H0.
  { intros a Ha. pose proof (Hsz a (Hall a Ha)).
    destruct (map_local m w a 0 Hm (Hall a Ha) Hh) as (e & v & Hg & Hv); [lia|].
    exists v. rewrite Hg. cbn [mbind result_bind]. unfold local_of. by rewrite Hv. }
  destruct (H0 REDMAP) as [r Hr]; [done|]. destruct (H0 GREENMAP) as [g Hg]; [done|]. destruct (H0 BLUEMAP) as [b Hb]; [done|]. cbn [get_chan] in Hr, Hg, Hb.
  destruct ch; rewrite ?Hr, ?Hg, ?Hb; cbn [mbind result_bind]; try done; eexists; by split.
Qed.

Section FindColor.
Context (m : ColormapRec) (ch : channel) (client : Z) (prgb : xrgb) (w : CmapWorld).
Context (Hm : map_ok m w) (Hsz : sizes_ok m) (Hch : ch ∈ chans m) (Hcl : client = -1 ∨ a_client client) (Hmem : all_ok (mem w)).

Local Abbreviation n := (numents (pVisual m) ch).
Local Abbreviation c := (get_chan m ch).

(** A cell is replaced and the pixel is recorded. *)
Lemma take_cell i e e' free' w' :
  0 <= i < n -> cells c !! Z.to_nat i = Some e -> AllocTemporary <= refcnt e' < 2 ^ 15 ->
  occ i (concat (clientPixels c)) + (if recorded m ch client then 1 else 0) <= room e' ->
  free' = nfree c - (if vacant e then 1 else 0) + (if vacant e' then 1 else 0) ->
  shared_cell e' -> (is_local e -> is_local e') -> (∀ p, own p e' = own p e) ->
  (∃ v, co e' = local_color v ∧ same_color ch v prgb = true) -> (0 <= client -> 0 < refcnt e') -> (0 <= client -> counted e e') ->
  all_ok (mem w') -> same_store w w' ->
  ∃ m' w'', remember_pixel (set_chan m ch (mkChan (<[Z.to_nat i := e']> (cells c)) free' (clientPixels c))) ch client i w' = Ok (Success, m', w'') ∧
    map_ok m' w'' ∧ same_frame m m' ∧ all_ok (mem w'') ∧ same_store w w'' ∧ got_color m m' ch client prgb i ∧
    (∀ a, same_table ch a = false -> get_chan m' a = get_chan m a).
Proof.
  intros Hi He Hr' Hroom Hfree Hsc Hloc Hown (v & Hv & Hsame) Hpos Hcnt Hmem' Hst. pose proof Hm as (Hd & Hs & Ht).
  destruct (Ht ch Hch) as (Hn & Hlen & Hrange & Hinv).
  set (c1 := mkChan (<[Z.to_nat i := e']> (cells c)) free' (clientPixels c)).
  set (m1 := set_chan m ch c1). assert (recorded m1 ch client = recorded m ch client) as Erec by (unfold recorded, m1; by destruct ch).
  assert (sharing m1 w') as Hs1.
  { eapply sharing_set; [exact He|exact Hs|done|done|]. intros f Hf _. destruct Hst as (Esh & _).
    intros p Hp. rewrite Hown in *. destruct (Hf p) as (s & Hs' & ? & ?); [lia|]. exists s. rewrite Esh. split; [done|]. lia. }
  destruct (remember_pixel_ok m1 ch client i n w') as (m' & w'' & c' & E & Em' & Hmem'' & Hsh & Q & Herr & Htab & Hs'' & Hcells & Hfr & Hrec).
  - exact Hmem'.
  - exact Hcl.
  - exact Hi.
  - exact Hn.
  - unfold m1. by rewrite get_set_same.
  - unfold m1. by rewrite get_set_same.
  - unfold m1 at 1 3 4. rewrite get_set_same, Erec. cbn [clientPixels c1]. eapply chan_inv_set; [exact Hinv|done|exact He|done| | |done].
    + intros q Hq. destruct (recorded m ch client); [|done]. cbn [occ]. destruct (Z.eqb_spec i q); [congruence|done].
    + destruct (recorded m ch client); cbn [occ]; rewrite ?Z.eqb_refl; lia.
  - exact Hs1.
  - unfold m1 in E, Em', Hcells, Hrec. rewrite get_set_same in Hcells, Hrec. rewrite set_set_chan in Em'. subst m'. fold m1 in Hrec. rewrite Erec in Hrec.
    eexists _, w''. split; [exact E|]. split; [by apply (map_ok_set m ch _ w)|]. split; [apply set_chan_frame|]. split; [done|].
    split; [|split].
    + etrans; [exact Hst|]. destruct Q as (?&?&?&?). by split.
    + split; [|split; [by rewrite get_set_same|intros Hc0; exists e, e'; rewrite get_set_same, Hcells; split; [done|]; split; [done|by apply Hcnt]]].
      exists e', v. rewrite get_set_same, Hcells. cbn [cells c1].
      split; [by apply list_lookup_insert_eq; eapply lookup_lt_Some|]. split; [done|]. by split.
    + intros a Ha. by rewrite get_set_chan, Ha.
Qed.

(** What [FindColor] is when it gives a cell. *)
Definition finds (r : result (Status * Pixel * ColormapRec * CmapWorld)) : Prop :=
  ∃ m' w' i p, r = Ok (Success, p, m', w') ∧ map_ok m' w' ∧ same_frame m m' ∧ all_ok (mem w') ∧ same_store w w' ∧
    0 <= i < n ∧ p = shift_pixel (pVisual m) ch i ∧ got_color m m' ch client prgb i ∧ (∀ a, same_table ch a = false -> get_chan m' a = get_chan m a).

Lemma room_of_count x : 0 < refcnt x -> room x = refcnt x ∧ vacant x = false.
Proof.
  intros Hx. unfold room, vacant. rewrite (proj2 (Z.ltb_lt _ _) Hx). split; [done|]. apply orb_false_iff. unfold AllocTemporary. split; apply Z.eqb_neq; lia.
Qed.

Lemma recorded_server : client < 0 -> recorded m ch client = false.
Proof. intros H. destruct Hcl as [->|[? _]]; [|lia]. unfold recorded. by rewrite Z.eqb_refl, orb_true_r. Qed.

(** A cell that shows the color. *)
Lemma match_ok i :
  0 <= i < n -> below_limit c -> hit c ch prgb i ->
  finds (e ← get_cell c i;
         let c' := if 0 <=? client then set_cell c i (with_refcnt e (wrap_s 16 (refcnt e + 1))) else c in
         '(rc, m, w) ← remember_pixel (set_chan m ch c') ch client i w;
         Ok (rc, shift_pixel (pVisual m) ch i, m, w)).
Proof.
  intros Hi Hlim (e & v & He & Hpe & Hv & Hsame).
  destruct (map_cells m w ch i Hm Hch Hi) as (e1 & Hg & He1 & Hrange & Hocc & Hsc). rewrite He in He1. injection He1 as <-.
  rewrite Hg. cbn [mbind result_bind]. assert (refcnt e < 2 ^ 15 - 1) as Hle by (unfold below_limit in Hlim; rewrite Forall_lookup in Hlim; eauto).
  set (e' := if 0 <=? client then with_refcnt e (wrap_s 16 (refcnt e + 1)) else e).
  assert (0 <= client -> refcnt e' = refcnt e + 1) as Hre.
  { intros H. unfold e'. rewrite (proj2 (Z.leb_le 0 client) H). cbn [refcnt with_refcnt]. unfold wrap_s. rewrite Z.mod_small by lia.
    destruct (Z.ltb_spec (refcnt e + 1) (2 ^ (16 - 1))); [done|]. change (2 ^ (16 - 1)) with (2 ^ 15) in *. lia. }
  assert (client < 0 -> e' = e) as Hre' by (intros H; unfold e'; by rewrite (proj2 (Z.leb_gt 0 client) H)).
  assert (fShared e = false) as Hns.
  { destruct (fShared e) eqn:Ef; [|done]. destruct Hsc as [Hsc _]. destruct (Hsc Ef) as [E _]. unfold AllocPrivate in E. lia. }
  assert (co e' = co e ∧ fShared e' = fShared e) as [Eco Efs] by (unfold e'; by destruct (0 <=? client)).
  assert (0 < refcnt e' ∧ refcnt e' < 2 ^ 15) as [Hp1 Hp2] by (destruct (Z.leb_spec 0 client); [rewrite Hre by done; lia|rewrite Hre' by lia; lia]).
  assert ((if 0 <=? client then set_cell c i (with_refcnt e (wrap_s 16 (refcnt e + 1))) else c) = mkChan (<[Z.to_nat i := e']> (cells c)) (nfree c) (clientPixels c)) as ->.
  { unfold e'. destruct (0 <=? client); [done|]. rewrite list_insert_id by done. by destruct c. }
  destruct (take_cell i e e' (nfree c) w) as (m' & w' & E & Hm' & F & Hmem' & Hst & Hgot & Hoth);
    [done|done|unfold AllocTemporary; lia| | | |intros [v' Hv']; exists v'; congruence|intros p; unfold own; by rewrite Efs, Hns|exists v; split; [congruence|done]|done| |done|reflexivity|].
  - rewrite (proj1 (room_of_count e' Hp1)). rewrite (proj1 (room_of_count e Hpe)) in Hocc.
    destruct (Z.leb_spec 0 client); [rewrite Hre by done; case_match; lia|]. rewrite recorded_server, Hre' by lia. lia.
  - rewrite (proj2 (room_of_count e' Hp1)), (proj2 (room_of_count e Hpe)). lia.
  - split; [rewrite Efs; congruence|]. intros _. exists v. congruence.
  - intros Hc0. left. split; [done|]. rewrite <- (Hre Hc0). unfold e'. by rewrite (proj2 (Z.leb_le 0 client) Hc0).
  - exists m', w', i, (shift_pixel (pVisual m) ch i). rewrite E. cbn [mbind result_bind]. split; [by rewrite (proj1 F)|].
    split; [exact Hm'|]. split; [exact F|]. split; [exact Hmem'|]. split; [exact Hst|]. split; [exact Hi|]. split; [done|]. split; [exact Hgot|exact Hoth].
Qed.

(** The new contents of a free cell. *)
Lemma store_free i e :
  0 <= i < n -> get_cell c i = Ok e ->
  ∃ v, store_local ch (with_refcnt (with_shared e false) (if 0 <=? client then 1 else AllocTemporary)) prgb =
         Ok (mkEntry (local_color v) (if 0 <=? client then 1 else AllocTemporary) false) ∧ same_color ch v prgb = true.
Proof.
  intros Hi Hg. destruct (decide (ch = PSEUDOMAP)) as [->|Hne].
  - exists prgb. split; [done|]. apply (same_color_set PSEUDOMAP prgb prgb).
  - destruct (not_pseudo m ch Hch Hne) as [Hh _]. destruct (map_local m w ch i Hm Hch Hh Hi) as (e1 & v & Hg1 & Hv). rewrite Hg in Hg1. injection Hg1 as <-.
    exists (set_comp ch v prgb). split; [|apply same_color_set]. unfold store_local, local_of. cbn [co with_refcnt with_shared]. rewrite Hv. by destruct ch.
Qed.

(** A free cell is filled. *)
Lemma slot_ok i :
  0 <= i < n -> empty_cell c i ->
  finds (e ← get_cell c i;
         let e := with_refcnt (with_shared e false) (if 0 <=? client then 1 else AllocTemporary) in
         e ← store_local ch e prgb;
         let c' := set_cell c i e in
         let m := set_chan m ch (if 0 <=? client then add_free c' (-1) else c') in
         def ← new_item m ch prgb i;
         '(rc, m, w) ← remember_pixel m ch client i (call_StoreColors w [def]);
         Ok (rc, it_pixel def, m, w)).
Proof.
  intros Hi (e & He & H0). destruct (map_cells m w ch i Hm Hch Hi) as (e1 & Hg & He1 & Hrange & Hocc & Hsc). rewrite He in He1. injection He1 as <-.
  destruct (store_free i e Hi Hg) as (v & Est & Hsame). rewrite Hg. cbn [mbind result_bind]. rewrite Est. cbn [mbind result_bind].
  set (e' := mkEntry (local_color v) (if 0 <=? client then 1 else AllocTemporary) false).
  assert (room e = 0 ∧ vacant e = true) as [Er0 Ev0] by (unfold room, vacant; by rewrite H0).
  assert (fShared e = false) as Hns.
  { destruct (fShared e) eqn:Ef; [|done]. destruct Hsc as [Hsc _]. destruct (Hsc Ef) as [E _]. unfold AllocPrivate in E. lia. }
  set (free' := if 0 <=? client then nfree c + -1 else nfree c).
  assert ((if 0 <=? client then add_free (set_cell c i e') (-1) else set_cell c i e') = mkChan (<[Z.to_nat i := e']> (cells c)) free' (clientPixels c)) as ->
    by (unfold free'; by destruct (0 <=? client)).
  set (m1 := set_chan m ch (mkChan (<[Z.to_nat i := e']> (cells c)) free' (clientPixels c))).
  assert (∀ p, own p e' = own p e) as Hown by (intros p; unfold own; by rewrite Hns).
  assert (shared_cell e') as Hsc' by (split; [done|intros _; by exists v]).
  assert (AllocTemporary <= refcnt e' < 2 ^ 15 ∧ room e' = (if 0 <=? client then 1 else 0) ∧ vacant e' = negb (0 <=? client)) as (Hr1 & Hr2 & Hr3).
  { cbn. destruct (0 <=? client); unfold AllocTemporary; split; try done; lia. }
  assert (free' = nfree c - (if vacant e then 1 else 0) + (if vacant e' then 1 else 0)) as Hf'.
  { rewrite Hr3, Ev0. unfold free'. destruct (0 <=? client); cbn [negb]; lia. }
  pose proof (occ_nonneg i (concat (clientPixels c))) as Hon.
  assert (map_ok m1 w) as Hm1.
  { apply (map_ok_set m ch _ w); [done|done| |].
    - destruct Hm as (_ & _ & Ht). destruct (Ht ch Hch) as (Hn & Hlen & Hrange' & Hinv). split; [done|]. split; [done|]. split; [done|].
      eapply chan_inv_set; [exact Hinv|done|exact He|done|done|cbn [clientPixels]; rewrite Hr2; destruct (0 <=? client); lia|done].
    - eapply sharing_set; [exact He|apply Hm|done|by intros _; exists v|]. intros f Hf _. eapply store_inv_ext; [|exact Hf]. intros p. rewrite Hown. lia. }
  destruct (set_chan_frame m ch (mkChan (<[Z.to_nat i := e']> (cells c)) free' (clientPixels c))) as (Ev & Ec & _ & _).
  assert (chans m1 = chans m) as Echs by (unfold chans, m1; by rewrite Ec).
  destruct (new_item_ok m1 w ch prgb i Hm1) as (def & -> & Edef); [intros a Ha; rewrite Echs in Ha; unfold m1; rewrite Ev; by apply Hsz|by rewrite Echs|].
  cbn [mbind result_bind].
  destruct (take_cell i e e' free' (call_StoreColors w [def])) as (m' & w' & E & Hm' & F & Hmem' & Hst & Hgot & Hoth);
    [done|done|done| |done|done|by intros _; exists v|done|by exists v| | |done|by split|].
  { rewrite Hr2. destruct (Z.leb_spec 0 client); [destruct (recorded m ch client); lia|]. rewrite recorded_server by lia. lia. }
  { intros H. cbn. rewrite (proj2 (Z.leb_le 0 client) H). lia. }
  { intros H. right. cbn. rewrite (proj2 (Z.leb_le 0 client) H). by split. }
  fold m1 in E. exists m', w', i, (it_pixel def). rewrite E. cbn [mbind result_bind]. split; [done|]. split; [exact Hm'|]. split; [exact F|]. split; [exact Hmem'|].
  split; [exact Hst|]. split; [exact Hi|]. split; [rewrite Edef; unfold m1; by rewrite Ev|]. by split.
Qed.

(** [FindColor] gives a cell with the color, or there is none, nor a free one. *)
Lemma FindColor_ok pPixel :
  0 <= pPixel -> below_limit c ->
  finds (FindColor m n prgb pPixel ch client w) ∨
  (FindColor m n prgb pPixel ch client w = Ok (BadAlloc, pPixel, m, w) ∧ ∀ i, 0 <= i < n -> ¬ hit c ch prgb i ∧ ¬ empty_cell c i).
Proof.
  intros Hpp Hlim. pose proof (Hsz ch Hch) as Hpos. unfold FindColor. set (start := if n <=? pPixel then 0 else pPixel).
  assert (0 <= start < n) as Hstart by (unfold start; destruct (Z.leb_spec n pPixel); lia).
  destruct (search_color_ok c n prgb ch (has_flag m BeingCreated) (Z.to_nat n) start None) as (r & -> & Hr); [|done|].
  { intros p Hp. destruct (map_cells m w ch p Hm Hch Hp) as (e & Hg & He & _ & _ & _ & Hl). by exists e. }
  cbn [mbind result_bind]. destruct r as [i|[i|]]; cbn [search_result] in Hr.
  - left. destruct Hr as (k & _ & Ei & Hhit & _). pose proof (at_pos_range n start k Hpos) as Hi. rewrite <- Ei in Hi. by apply match_ok.
  - left. destruct Hr as (_ & k & _ & Ei & Hemp & _). pose proof (at_pos_range n start k Hpos) as Hi. rewrite <- Ei in Hi. by apply slot_ok.
  - right. destruct Hr as [Hno Hfree]. split; [done|]. intros i Hi. destruct (at_pos_all n start i Hi) as (k & Hk & <-).
    split; [apply Hno; [by right|done]|by apply Hfree].
Qed.

End FindColor.

(** ** [AllocColor] *)

(** A color mask of [k] bits from [offset] on. *)
Definition contiguous (v : VisualRec) (ch : channel) : Prop :=
  ∃ k, 0 <= k ∧ 0 <= offset_of v ch ∧ k + offset_of v ch <= 32 ∧ mask_of v ch = Z.shiftl (Z.ones k) (offset_of v ch).

Definition visual_ok (m : ColormapRec) : Prop :=
  sizes_ok m ∧ ∀ ch, ch ∈ chans m -> ch ≠ PSEUDOMAP -> contiguous (pVisual m) ch.

Lemma numents_contiguous v ch k :
  ch ≠ PSEUDOMAP -> 0 <= k -> 0 <= offset_of v ch -> mask_of v ch = Z.shiftl (Z.ones k) (offset_of v ch) -> numents v ch = 2 ^ k.
Proof.
  intros Hne Hk Ho Hm. assert (numents v ch = Z.shiftr (mask_of v ch) (offset_of v ch) + 1) as -> by (by destruct ch).
  rewrite Hm, Z.shiftr_shiftl_l, Z.sub_diag by lia. rewrite Z.shiftl_0_r, Z.ones_equiv. lia.
Qed.

Lemma shift_small v ch k i :
  ch ≠ PSEUDOMAP -> 0 <= k -> 0 <= offset_of v ch -> k + offset_of v ch <= 32 -> 0 <= i < 2 ^ k ->
  shift_pixel v ch i = Z.shiftl i (offset_of v ch) ∧ 0 <= Z.shiftl i (offset_of v ch) < 2 ^ 32.
Proof.
  intros Hne Hk Ho Hb Hi. assert (0 <= Z.shiftl i (offset_of v ch) < 2 ^ 32) as Hr.
  { rewrite Z.shiftl_mul_pow2 by done. assert (0 < 2 ^ offset_of v ch) by (apply Z.pow_pos_nonneg; lia).
    assert (2 ^ k * 2 ^ offset_of v ch <= 2 ^ 32) by (rewrite <- Z.pow_add_r by lia; apply Z.pow_le_mono_r; lia). nia. }
  split; [|done]. destruct ch; try done; simpl; by rewrite u32_small.
Qed.

(** The cell of a pixel in its table. *)
Lemma pixel_of_shift v ch i :
  (ch ≠ PSEUDOMAP -> contiguous v ch) -> 0 <= i < numents v ch -> i < 2 ^ 32 -> pixel_of v ch (shift_pixel v ch i) = i ∧ Z.land (shift_pixel v ch i) (mask_of v ch) = shift_pixel v ch i.
Proof.
  intros Hc Hi Hi32. destruct (decide (ch = PSEUDOMAP)) as [->|Hne].
  - unfold pixel_of. cbn [shift_pixel mask_of offset_of]. rewrite Z.shiftr_0_r. change (u32 (Z.lnot 0)) with (Z.ones 32).
    rewrite Z.land_ones, Z.mod_small by lia. done.
  - destruct (Hc Hne) as (k & Hk & Ho & Hb & Hm). rewrite (numents_contiguous v ch k) in Hi by done.
    destruct (shift_small v ch k i Hne Hk Ho Hb Hi) as [-> _]. unfold pixel_of. rewrite Hm, <- Z.shiftl_land, Z.land_ones, Z.mod_small by lia.
    split; [|done]. rewrite Z.shiftr_shiftl_l, Z.sub_diag by lia. apply Z.shiftl_0_r.
Qed.

(** The default map can be read where a new color is looked for. *)
Definition root_ok (defColormap : XID) (rootVisual : Z) (m : ColormapRec) (prootmap : option ColormapRec) : Prop :=
  cm_mid m = defColormap ∨ vid (pVisual m) ≠ rootVisual ∨
  ∃ r w, prootmap = Some r ∧ (cm_class m = cm_class r -> map_ok r w ∧ ∀ ch, ch ∈ chans r -> ColormapEntries (pVisual m) <= Z.of_nat (length (cells (get_chan r ch)))).

Lemma root_search_ok v c prgb ch n i pixel p0 :
  (∀ j, 0 <= j < i + Z.of_nat n -> ∃ e, get_cell c j = Ok e ∧ (0 < refcnt e -> is_local e)) -> 0 <= i -> 0 <= pixel -> 0 <= p0 ->
  ∃ p, root_search n v c prgb ch i pixel p0 = Ok p ∧ 0 <= p.
Proof.
  revert i pixel p0. induction n as [|n IH]; intros i pixel p0 Hc Hi Hpx Hp0; cbn [root_search]; [eauto|].
  destruct (Hc i ltac:(lia)) as (e & -> & Hl). cbn [mbind result_bind].
  assert (∃ f, (if 0 <? refcnt e then Comp ch e prgb else Ok false) = Ok f) as [f ->].
  { destruct (Z.ltb_spec 0 (refcnt e)); [|eauto]. destruct (Hl ltac:(lia)) as [x Hx]. unfold Comp, local_of. rewrite Hx. cbn. eauto. }
  cbn [mbind result_bind]. assert (0 <= shift_pixel v ch pixel) by (destruct ch; [apply u32_range..|done]).
  apply IH; [intros j Hj; apply Hc; lia|lia|apply u32_range|by destruct f].
Qed.

Lemma FindColorInRootCmap_ok r w prgb ch size :
  map_ok r w -> ch ∈ chans r -> size <= Z.of_nat (length (cells (get_chan r ch))) ->
  ∃ p, FindColorInRootCmap r size prgb 0 ch = Ok p ∧ 0 <= p.
Proof.
  intros (_ & Hs & _) Hch Hsz. unfold FindColorInRootCmap. replace (if size <=? 0 then 0 else 0) with 0 by (by destruct (size <=? 0)).
  destruct (Z.leb_spec size 0) as [Hle|Hgt]; [replace (Z.to_nat size) with 0%nat by lia; by exists 0|].
  apply root_search_ok; [|done..]. intros j Hj. destruct (lookup_lt_is_Some_2 (cells (get_chan r ch)) (Z.to_nat j)) as [e He]; [lia|].
  exists e. unfold get_cell. rewrite (proj2 (Z.ltb_ge j 0)), He by lia. split; [done|]. apply (sharing_cell r ch w _ e Hs He).
Qed.

Section Alloc.
Context (COMPOSITE : bool) (ResolveColor : VisualRec -> xrgb -> xrgb) (defColormap : XID) (rootVisual : Z).
Context (m : ColormapRec) (prootmap : option ColormapRec) (client : Z) (rgb : xrgb) (w : CmapWorld).
Context (Hm : map_ok m w) (Hv : visual_ok m) (Hcl : a_client client) (Hmem : all_ok (mem w)) (Hcr : has_flag m BeingCreated = false).
Context (Hlim : ∀ ch, ch ∈ chans m -> below_limit (get_chan m ch)) (Hroot : root_ok defColormap rootVisual m prootmap).

Lemma root_map_ok : ∃ r, in_root_map defColormap rootVisual m prootmap = Ok r ∧
  ∀ rm, r = Some rm -> ∃ w', map_ok rm w' ∧ cm_class rm = cm_class m ∧ ∀ ch, ch ∈ chans rm -> ColormapEntries (pVisual m) <= Z.of_nat (length (cells (get_chan rm ch))).
Proof.
  unfold in_root_map. destruct Hroot as [E|[E|(r & w' & -> & Hr)]].
  - rewrite E, Z.eqb_refl. exists None. by split.
  - rewrite (proj2 (Z.eqb_neq _ _) E), andb_false_r. exists None. by split.
  - destruct (_ && _); [|exists None; by split]. cbn [of_option mbind result_bind]. destruct (Z.eqb_spec (cm_class m) (cm_class r)) as [E|E].
    + exists (Some r). split; [done|]. intros rm [= <-]. destruct (Hr E) as [? ?]. exists w'. by split.
    + exists None. by split.
Qed.

(** The outcome of the search of a new color: every table has one, or the clients keep what they had. *)
Definition got_all (m' : ColormapRec) (p : Pixel) : Prop :=
  ∃ i, (∀ ch, ch ∈ chans m -> 0 <= i ch < numents (pVisual m) ch ∧ got_color m m' ch client rgb (i ch)) ∧
    p = if has_channels (cm_class m) then
          Z.lor (Z.lor (Z.lor (shift_pixel (pVisual m) REDMAP (i REDMAP)) (shift_pixel (pVisual m) GREENMAP (i GREENMAP)))
                   (shift_pixel (pVisual m) BLUEMAP (i BLUEMAP))) (ALPHAMASK COMPOSITE (pVisual m))
        else i PSEUDOMAP.

Definition same_pixels (a b : ColormapRec) : Prop :=
  ∀ ch, ch ∈ chans a -> length (clientPixels (get_chan b ch)) = length (clientPixels (get_chan a ch)) ∧
    ∀ k l, clientPixels (get_chan a ch) !! k = Some l ->
      ∃ l', clientPixels (get_chan b ch) !! k = Some l' ∧ ∀ q, 0 <= q < numents (pVisual a) ch -> occ q l' = occ q l.

Lemma same_pixels_refl a : same_pixels a a.
Proof. intros ch Hch. split; [done|]. intros k l Hl. by exists l. Qed.

(** The cells of a table have their counts again, and what was in use is the same. *)
Definition counts_back (n : Z) (es es' : list Entry) : Prop :=
  ∀ q e, 0 <= q < n -> es !! Z.to_nat q = Some e ->
    ∃ e', es' !! Z.to_nat q = Some e' ∧ refcnt e' = refcnt e ∧ (refcnt e ≠ 0 -> e' = e).

Definition same_counts (a b : ColormapRec) : Prop :=
  ∀ ch, ch ∈ chans a -> counts_back (numents (pVisual a) ch) (cells (get_chan a ch)) (cells (get_chan b ch)).

Lemma counts_back_refl n es : counts_back n es es.
Proof. intros q e _ He. by exists e. Qed.

(** A map that is, for its clients, what it was. *)
Definition as_before (a b : ColormapRec) : Prop := same_pixels a b ∧ same_counts a b.

Lemma as_before_refl a : as_before a a.
Proof. split; [apply same_pixels_refl|]. intros ch _. apply counts_back_refl. Qed.

(** A count that was taken is given back. *)
Lemma counted_given_back n es es' l l' i e e1 :
  0 <= i < n -> es !! Z.to_nat i = Some e -> counted e e1 ->
  (∀ q, 0 <= q < n -> occ q l' = occ q l) -> cells_given n (<[Z.to_nat i := e1]> es) es' (l ++ [i]) l' -> counts_back n es es'.
Proof.
  intros Hi He Hcnt Hocc Hgv q e0 Hq He0. assert (occ q (l ++ [i]) - occ q l' = if i =? q then 1 else 0) as Ek.
  { rewrite occ_app, Hocc by done. cbn [occ]. destruct (i =? q); lia. }
  destruct (Z.eqb_spec i q) as [->|Hne].
  - rewrite He in He0. injection He0 as <-. destruct (Hgv q e1 Hq) as [Hroom Hg]; [by apply list_lookup_insert_eq; eapply lookup_lt_Some|].
    rewrite Ek in Hg, Hroom. rewrite given_back_one in Hg by lia. destruct Hcnt as [[Hpos ->]|(E0 & E1 & _)].
    + cbn [refcnt with_refcnt] in Hg. rewrite (proj2 (Z.ltb_lt 1 (refcnt e + 1))) in Hg by lia. exists e. split; [|done].
      rewrite Hg. unfold with_refcnt. cbn. destruct e as [x k f]. cbn. do 2 f_equal. lia.
    + rewrite E1 in Hg. cbn [Z.ltb Z.compare Pos.compare Pos.compare_cont] in Hg. eexists. split; [exact Hg|]. cbn. by rewrite E0.
  - exists e0. split; [|done]. destruct (Hgv q e0 Hq) as [_ Hg]; [by rewrite list_lookup_insert_ne by lia|]. by rewrite Ek, given_back_zero in Hg.
Qed.

(** A table that has neither a cell in use with the color nor a free one. *)
Definition table_full (ch : channel) : Prop :=
  ch ∈ chans m ∧ ∀ i, 0 <= i < numents (pVisual m) ch -> ¬ hit (get_chan m ch) ch rgb i ∧ ¬ empty_cell (get_chan m ch) i.

Lemma alloc_pseudo_ok :
  has_channels (cm_class m) = false ->
  ∃ rc p m' w', alloc_pseudo defColormap rootVisual m prootmap rgb 0 client w = Ok (rc, p, m', w') ∧
    map_ok m' w' ∧ same_frame m m' ∧ all_ok (mem w') ∧ ((rc = Success ∧ got_all m' p) ∨ (rc = BadAlloc ∧ as_before m m' ∧ ∃ ch, table_full ch)).
Proof.
  intros Hh. unfold alloc_pseudo. destruct root_map_ok as (r & -> & Hr). cbn [mbind result_bind].
  assert (PSEUDOMAP ∈ chans m) as Hch by (unfold chans; rewrite Hh; set_solver).
  assert (∃ p0, (match r with Some r => FindColorInRootCmap r (ColormapEntries (pVisual m)) rgb 0 PSEUDOMAP | None => Ok 0 end) = Ok p0 ∧ 0 <= p0) as (p0 & -> & Hp0).
  { destruct r as [rm|]; [|by exists 0]. destruct (Hr rm eq_refl) as (w' & Hrm & Ec & Hlen).
    assert (PSEUDOMAP ∈ chans rm) by (unfold chans; rewrite Ec, Hh; set_solver). eapply FindColorInRootCmap_ok; eauto. }
  cbn [mbind result_bind]. change (ColormapEntries (pVisual m)) with (numents (pVisual m) PSEUDOMAP).
  destruct (FindColor_ok m PSEUDOMAP client rgb w Hm (proj1 Hv) Hch (or_intror Hcl) Hmem p0 Hp0 (Hlim _ Hch)) as [(m' & w' & i & p & -> & Hm' & F & Hmem' & _ & Hi & -> & Hgot & _)|[-> Hfull]].
  - exists Success, i, m', w'. split; [done|]. split; [done|]. split; [done|]. split; [done|]. left. split; [done|]. exists (λ _, i). split.
    + intros ch Hc. unfold chans in Hc. rewrite Hh in Hc. apply list_elem_of_singleton in Hc as ->. by split.
    + by rewrite Hh.
  - exists BadAlloc, p0, m, w. split; [done|]. split; [done|]. split; [reflexivity|]. split; [done|]. right. split; [done|]. split; [apply as_before_refl|by exists PSEUDOMAP].
Qed.

(** *** A pixel that was just found is freed again *)

Lemma quiet_all_ok a b : quiet a b -> all_ok (mem a) -> all_ok (mem b).
Proof. intros (_ & _ & _ & k & ->). apply Forall_drop. Qed.

Lemma in_RGBMASK v ch p : ch ≠ PSEUDOMAP -> Z.land p (mask_of v ch) = p -> Z.land p (u32 (Z.lnot (RGBMASK COMPOSITE v))) = 0.
Proof.
  intros Hne E. apply Z.bits_inj. intros i. rewrite Z.land_spec, Z.bits_0. destruct (Z.lt_ge_cases i 0) as [|Hi]; [by rewrite !Z.testbit_neg_r|].
  rewrite <- E, Z.land_spec. destruct (Z.lt_ge_cases i 32).
  - rewrite not_mask_bits by lia. unfold RGBMASK. rewrite !Z.lor_spec. destruct (Z.testbit p i); [|done].
    destruct ch; simpl; try done; destruct (Z.testbit (redMask v) i), (Z.testbit (greenMask v) i), (Z.testbit (blueMask v) i); done.
  - unfold u32. rewrite Z.mod_pow2_bits_high by lia. by rewrite andb_false_r.
Qed.

Lemma tests_one v ch i :
  ch ≠ PSEUDOMAP -> contiguous v ch -> 0 <= i < numents v ch -> i < 2 ^ 32 ->
  tests v ch (rgbbad_of COMPOSITE v ch) [shift_pixel v ch i] 0 = [Some i].
Proof.
  intros Hne Hc Hi Hi32. destruct (pixel_of_shift v ch i (λ _, Hc) Hi Hi32) as [Ep El].
  assert (rgbbad_of COMPOSITE v ch = u32 (Z.lnot (RGBMASK COMPOSITE v))) as Er by (by destruct ch).
  unfold tests, tests_of. change (submasks 32 0) with [0]. cbn [fmap list_fmap concat app]. unfold test. rewrite Z.lor_0_r, Ep, Er.
  rewrite (in_RGBMASK v ch) by done. rewrite (proj2 (Z.leb_gt _ _) (proj2 Hi)). done.
Qed.

Lemma undo_ok (m1 : ColormapRec) w1 ch i l e e1 :
  map_ok m1 w1 -> same_frame m m1 -> ch ∈ chans m -> ch ≠ PSEUDOMAP -> 0 <= i < numents (pVisual m) ch -> all_ok (mem w1) ->
  clientPixels (get_chan m ch) !! Z.to_nat client = Some l ->
  clientPixels (get_chan m1 ch) = <[Z.to_nat client := l ++ [i]]> (clientPixels (get_chan m ch)) ->
  cells (get_chan m ch) !! Z.to_nat i = Some e -> cells (get_chan m1 ch) = <[Z.to_nat i := e1]> (cells (get_chan m ch)) -> counted e e1 ->
  ∃ rc m' w' l', FreeCo COMPOSITE m1 client ch [shift_pixel (pVisual m) ch i] 0 w1 = Ok (rc, m', w') ∧ map_ok m' w' ∧ same_frame m m' ∧ all_ok (mem w') ∧
    clientPixels (get_chan m' ch) = <[Z.to_nat client := l']> (clientPixels (get_chan m ch)) ∧
    (∀ q, 0 <= q < numents (pVisual m) ch -> occ q l' = occ q l) ∧
    counts_back (numents (pVisual m) ch) (cells (get_chan m ch)) (cells (get_chan m' ch)) ∧
    (∀ a, same_table ch a = false -> get_chan m' a = get_chan m1 a).
Proof.
  intros Hm1 F Hch Hne Hi Hmem1 Hl Hl1 He He1 Hcnt. assert (pVisual m1 = pVisual m) as V1 by apply F. assert (cm_class m1 = cm_class m) as C1 by apply F.
  pose proof (proj2 Hv ch Hch Hne) as Hc. assert (ch ∈ chans m1) as Hch1 by (unfold chans in *; by rewrite C1).
  assert (0 <= mask_of (pVisual m1) ch) as Hmask.
  { rewrite V1. destruct Hc as (k & Hk & Ho & _ & ->). apply Z.shiftl_nonneg. rewrite Z.ones_equiv. assert (0 < 2 ^ k) by (apply Z.pow_pos_nonneg; lia). lia. }
  destruct (FreeCo_ok COMPOSITE m1 ch client [shift_pixel (pVisual m) ch i] 0 w1 Hm1 Hch1 Hcl ltac:(lia) Hmask)
    as (rc & m' & w' & l1 & l' & E & Hm' & F' & Q & El1 & El' & [Hocc _] & Hgv & Ho).
  assert (i < 2 ^ 32) as Hi32 by (destruct Hm as (_ & _ & Ht); destruct (Ht ch Hch) as (? & _); lia).
  rewrite V1 in Hocc. rewrite tests_one in Hocc by done.
  rewrite Hl1 in El1, El'. rewrite list_insert_insert_eq in El'. rewrite list_lookup_insert_eq in El1 by (eapply lookup_lt_Some; eauto). injection El1 as <-.
  exists rc, m', w', l'. split; [exact E|]. split; [done|]. split; [etrans; eassumption|]. split; [by eapply quiet_all_ok|]. split; [done|].
  assert (∀ q, 0 <= q < numents (pVisual m) ch -> occ q l' = occ q l) as Hback.
  { intros q Hq. rewrite Hocc, occ_app by done. change (good_tests [Some i]) with [i]. pose proof (occ_nonneg q l). lia. }
  split; [done|]. split; [|done]. rewrite V1, He1 in Hgv. by eapply counted_given_back.
Qed.

Lemma same_pixels_list (m' : ColormapRec) ch l' :
  ch ∈ chans m -> (∃ l, clientPixels (get_chan m ch) !! Z.to_nat client = Some l ∧ ∀ q, 0 <= q < numents (pVisual m) ch -> occ q l' = occ q l) ->
  clientPixels (get_chan m' ch) = <[Z.to_nat client := l']> (clientPixels (get_chan m ch)) ->
  length (clientPixels (get_chan m' ch)) = length (clientPixels (get_chan m ch)) ∧
  ∀ k l, clientPixels (get_chan m ch) !! k = Some l ->
    ∃ l', clientPixels (get_chan m' ch) !! k = Some l' ∧ ∀ q, 0 <= q < numents (pVisual m) ch -> occ q l' = occ q l.
Proof.
  intros Hch (l0 & Hl0 & Hocc) E. split; [by rewrite E, length_insert|]. intros k l Hl. rewrite E. destruct (decide (k = Z.to_nat client)) as [->|Hne].
  - rewrite Hl0 in Hl. injection Hl as <-. exists l'. split; [|done]. apply list_lookup_insert_eq. by eapply lookup_lt_Some.
  - exists l. split; [|done]. by rewrite list_lookup_insert_ne by congruence.
Qed.

Lemma recorded_client m1 ch : same_frame m m1 -> recorded m1 ch client = true.
Proof.
  intros (_ & _ & _ & Ef). unfold recorded, has_flag in *. rewrite Ef, Hcr. destruct Hcl. rewrite (proj2 (Z.eqb_neq client (-1))) by lia. done.
Qed.

(** [FindColor] in one of the three tables, after others. *)
Lemma find_table m1 w1 ch p0 :
  map_ok m1 w1 -> same_frame m m1 -> ch ∈ chans m -> all_ok (mem w1) -> 0 <= p0 -> get_chan m1 ch = get_chan m ch ->
  (∃ m' w' i l, FindColor m1 (numents (pVisual m) ch) rgb p0 ch client w1 = Ok (Success, shift_pixel (pVisual m) ch i, m', w') ∧
     map_ok m' w' ∧ same_frame m m' ∧ all_ok (mem w') ∧ 0 <= i < numents (pVisual m) ch ∧ got_color m m' ch client rgb i ∧
     clientPixels (get_chan m ch) !! Z.to_nat client = Some l ∧
     clientPixels (get_chan m' ch) = <[Z.to_nat client := l ++ [i]]> (clientPixels (get_chan m ch)) ∧
     (∃ e e', cells (get_chan m ch) !! Z.to_nat i = Some e ∧ cells (get_chan m' ch) = <[Z.to_nat i := e']> (cells (get_chan m ch)) ∧ counted e e') ∧
     (∀ a, same_table ch a = false -> get_chan m' a = get_chan m1 a)) ∨
  FindColor m1 (numents (pVisual m) ch) rgb p0 ch client w1 = Ok (BadAlloc, p0, m1, w1) ∧ table_full ch.
Proof.
  intros Hm1 F Hch Hmem1 Hp0 Esame. assert (pVisual m1 = pVisual m) as V1 by apply F. assert (cm_class m1 = cm_class m) as C1 by apply F.
  assert (chans m1 = chans m) as Echs by (unfold chans; by rewrite C1).
  destruct (FindColor_ok m1 ch client rgb w1 Hm1) with (pPixel := p0) as [(m' & w' & i & p & E & Hm' & F' & Hmem' & _ & Hi & -> & Hgot & Ho)|[E Hfull]];
    [intros a Ha; rewrite Echs in Ha; rewrite V1; by apply Hv|by rewrite Echs|by right|done|done|rewrite Esame; by apply Hlim| |].
  - left. rewrite V1 in *. pose proof Hgot as (_ & Hrec & _). rewrite (recorded_client m1 ch F), Esame in Hrec. destruct Hrec as (l & Hl & Hl').
    unfold got_color in Hgot. rewrite Esame in Hgot. destruct Hgot as (Hcell & _ & Hcnt). exists m', w', i, l. split; [done|]. split; [done|]. split; [etrans; eassumption|]. split; [done|].
    split; [done|]. split; [|split; [done|]; split; [done|]; split; [apply Hcnt, Hcl|done]].
    split; [done|]. split; [rewrite (recorded_client m ch ltac:(reflexivity)); eauto|done].
  - right. rewrite V1 in E, Hfull. rewrite Esame in Hfull. by split.
Qed.

Lemma got_color_later m1 m2 ch i :
  get_chan m2 ch = get_chan m1 ch -> got_color m m1 ch client rgb i -> got_color m m2 ch client rgb i.
Proof. unfold got_color. by intros ->. Qed.

Lemma root_direct_ok r w' :
  has_channels (cm_class m) = true -> map_ok r w' -> cm_class r = cm_class m ->
  (∀ ch, ch ∈ chans r -> ColormapEntries (pVisual m) <= Z.of_nat (length (cells (get_chan r ch)))) ->
  ∃ p, root_direct m r rgb 0 = Ok p ∧ 0 <= p.
Proof.
  intros Hh Hr Ec Hlen. assert (∀ ch, ch ≠ PSEUDOMAP -> ch ∈ chans r) as Hin by (intros [] ?; unfold chans; rewrite Ec, Hh; set_solver).
  assert (∀ ch, ch ≠ PSEUDOMAP -> ∃ p, FindColorInRootCmap r (ColormapEntries (pVisual m)) rgb (pixel_of (pVisual m) ch 0) ch = Ok p ∧ 0 <= p) as H.
  { intros ch Hne. unfold pixel_of. rewrite Z.land_0_l, Z.shiftr_0_l. eapply FindColorInRootCmap_ok; [exact Hr|by apply Hin|by apply Hlen, Hin]. }
  unfold root_direct. destruct (H REDMAP) as (pr & -> & ?); [done|]. destruct (H GREENMAP) as (pg & -> & ?); [done|]. destruct (H BLUEMAP) as (pb & -> & ?); [done|].
  cbn [mbind result_bind]. eexists. split; [done|]. rewrite !Z.lor_nonneg. done.
Qed.

Lemma alloc_direct_ok :
  has_channels (cm_class m) = true ->
  ∃ rc p m' w', alloc_direct COMPOSITE defColormap rootVisual m prootmap rgb 0 client w = Ok (rc, p, m', w') ∧
    map_ok m' w' ∧ same_frame m m' ∧ all_ok (mem w') ∧ ((rc = Success ∧ got_all m' p) ∨ (rc = BadAlloc ∧ as_before m m' ∧ ∃ ch, table_full ch)).
Proof.
  intros Hh. unfold alloc_direct. destruct root_map_ok as (r & -> & Hr). cbn [mbind result_bind].
  assert (∀ ch, ch ≠ PSEUDOMAP -> ch ∈ chans m) as Hin by (intros [] ?; unfold chans; rewrite Hh; set_solver).
  assert (∀ ch, ch ∈ chans m -> ch = REDMAP ∨ ch = GREENMAP ∨ ch = BLUEMAP) as Hcases by (intros ch; unfold chans; rewrite Hh; set_solver).
  assert (∃ p0, (match r with Some r => root_direct m r rgb 0 | None => Ok 0 end) = Ok p0 ∧ 0 <= p0) as (p0 & -> & Hp0).
  { destruct r as [rm|]; [|by exists 0]. destruct (Hr rm eq_refl) as (w' & Hrm & Ec & Hlen). by eapply root_direct_ok. }
  cbn [mbind result_bind].
  assert (∀ ch, 0 <= pixel_of (pVisual m) ch p0) as Hpp by (intros ch; unfold pixel_of; apply Z.shiftr_nonneg, Z.land_nonneg; by left).
  destruct (find_table m w REDMAP (pixel_of (pVisual m) REDMAP p0) Hm) as [(m1 & w1 & ir & lr & -> & Hm1 & F1 & Hmem1 & Hir & Gr & Lr & Lr' & (er & er' & Er & Er' & Cr) & O1)|[-> Hfull]];
    [reflexivity|by apply Hin|done|done|done| |]; cbn [mbind result_bind].
  2:{ rewrite decide_True by done. exists BadAlloc, p0, m, w. split; [done|]. split; [done|]. split; [reflexivity|]. split; [done|]. right. split; [done|]. split; [apply as_before_refl|by exists REDMAP]. }
  rewrite decide_False by tauto.
  destruct (find_table m1 w1 GREENMAP (pixel_of (pVisual m) GREENMAP p0) Hm1) as [(m2 & w2 & ig & lg & -> & Hm2 & F2 & Hmem2 & Hig & Gg & Lg & Lg' & (eg & eg' & Eg & Eg' & Cg) & O2)|[-> Hfull]];
    [done|by apply Hin|done|done|by apply O1| |]; cbn [mbind result_bind].
  2:{ rewrite decide_True by done.
    destruct (undo_ok m1 w1 REDMAP ir lr er er' Hm1 F1) as (rc & m' & w' & l' & -> & Hm' & F' & Hmem' & L' & Hocc & Hback & O'); [by apply Hin|done..|].
    cbn [mbind result_bind]. exists BadAlloc, p0, m', w'. split; [done|]. split; [done|]. split; [done|]. split; [done|]. right. split; [done|].
    split; [|by exists GREENMAP]. assert (∀ ch, ch = GREENMAP ∨ ch = BLUEMAP -> get_chan m' ch = get_chan m ch) as Hsame by (intros ch [->| ->]; rewrite O', O1; done).
    split; intros ch Hch; destruct (Hcases ch Hch) as [->|Ho]; rewrite ?Hsame by done; [eapply same_pixels_list; eauto|by apply same_pixels_refl|done|apply counts_back_refl]. }
  rewrite decide_False by tauto.
  destruct (find_table m2 w2 BLUEMAP (pixel_of (pVisual m) BLUEMAP p0) Hm2) as [(m3 & w3 & ib & lb & -> & Hm3 & F3 & Hmem3 & Hib & Gb & Lb & Lb' & _ & O3)|[-> Hfull]];
    [done|by apply Hin|done|done|rewrite O2, O1; done| |]; cbn [mbind result_bind].
  2:{ rewrite decide_True by done.
    destruct (undo_ok m2 w2 GREENMAP ig lg eg eg' Hm2 F2) as (rc & m' & w' & l' & -> & Hm' & F' & Hmem' & L' & Hocc & Hback & O'); [by apply Hin|done..|].
    cbn [mbind result_bind].
    destruct (undo_ok m' w' REDMAP ir lr er er' Hm' F') as (rc2 & m4 & w4 & l4 & -> & Hm4 & F4 & Hmem4 & L4 & Hocc4 & Hback4 & O4);
      [by apply Hin|done|done|done|done|rewrite O', O2; done|done|rewrite O', O2; done|done|].
    cbn [mbind result_bind]. exists BadAlloc, p0, m4, w4. split; [done|]. split; [done|]. split; [done|]. split; [done|]. right. split; [done|].
    split; [|by exists BLUEMAP]. assert (get_chan m4 BLUEMAP = get_chan m BLUEMAP) as Eb by (rewrite O4, O', O2, O1; done). assert (get_chan m4 GREENMAP = get_chan m' GREENMAP) as Eg4 by (rewrite O4; done).
    split; intros ch Hch; destruct (Hcases ch Hch) as [->|[->| ->]]; rewrite ?Eb, ?Eg4;
      [eapply same_pixels_list; eauto|eapply same_pixels_list; eauto; congruence|by apply same_pixels_refl|done|done|apply counts_back_refl]. }
  rewrite decide_False by tauto. eexists Success, _, m3, w3. split; [done|]. split; [done|]. split; [done|]. split; [done|]. left. split; [done|].
  exists (λ ch, match ch with GREENMAP => ig | BLUEMAP => ib | _ => ir end). split.
  - intros ch Hch. destruct (Hcases ch Hch) as [->|[->| ->]]; (split; [done|]).
    + eapply got_color_later; [|exact Gr]. rewrite O3, O2; done.
    + eapply got_color_later; [|exact Gg]. rewrite O3; done.
    + done.
  - by rewrite Hh.
Qed.

(** The class of a map with cells that can be changed. *)
Definition known_class : Prop := cm_class m = GrayScale ∨ cm_class m = PseudoColor ∨ cm_class m = DirectColor.

Lemma map_ok_entries m' w' e : map_ok m' w' -> map_ok m' (set_entries w' e).
Proof. done. Qed.

Lemma AllocColor_ok pred :
  known_class -> ResolveColor (pVisual m) pred = rgb ->
  ∃ rc p m' w', AllocColor COMPOSITE ResolveColor defColormap rootVisual m prootmap pred 0 client w = Ok (rc, rgb, p, m', w') ∧
    map_ok m' w' ∧ same_frame m m' ∧ ((rc = Success ∧ got_all m' p) ∨ (rc = BadAlloc ∧ as_before m m' ∧ ∃ ch, table_full ch)).
Proof.
  intros Hk Hrgb. unfold AllocColor. rewrite Hrgb, Hcr.
  assert (∃ rc p m' w', (if (cm_class m =? StaticColor) || (cm_class m =? StaticGray) then alloc_static m rgb client w
     else if cm_class m =? TrueColor then alloc_true COMPOSITE m rgb client w
     else if (cm_class m =? GrayScale) || (cm_class m =? PseudoColor) then
       '(rc, p, m, w) ← alloc_pseudo defColormap rootVisual m prootmap rgb 0 client w; Ok (rc, rgb, p, m, w)
     else if cm_class m =? DirectColor then
       '(rc, p, m, w) ← alloc_direct COMPOSITE defColormap rootVisual m prootmap rgb 0 client w; Ok (rc, rgb, p, m, w)
     else Ok (Success, rgb, 0, m, w)) = Ok (rc, rgb, p, m', w') ∧
    map_ok m' w' ∧ same_frame m m' ∧ all_ok (mem w') ∧ ((rc = Success ∧ got_all m' p) ∨ (rc = BadAlloc ∧ as_before m m' ∧ ∃ ch, table_full ch))) as (rc & p & m' & w' & -> & Hm' & F & Hmem' & Hres).
  { destruct Hk as [E|[E|E]]; rewrite E; cbn [Z.eqb orb StaticColor StaticGray TrueColor GrayScale PseudoColor DirectColor Pos.eqb].
    1,2: destruct alloc_pseudo_ok as (rc & p & m' & w' & -> & ?); [by rewrite E|exists rc, p, m', w'; by split].
    destruct alloc_direct_ok as (rc & p & m' & w' & -> & ?); [by rewrite E|exists rc, p, m', w'; by split]. }
  cbn [mbind result_bind]. destruct (decide (rc ≠ Success)) as [Hrc|Hrc].
  { exists rc, p, m', w'. by split. }
  destruct Hres as [[-> Hgot]|[-> _]]; [|by destruct Hrc].
  assert (∃ l, get_pixels (red m') client = Ok l) as [l ->].
  { destruct Hm' as (_ & _ & Ht). destruct (chans_cases m') as [[_ E]|[_ E]]; rewrite E in Ht;
      [destruct (Ht REDMAP ltac:(set_solver)) as (_ & Hlen & _)|destruct (Ht PSEUDOMAP ltac:(set_solver)) as (_ & Hlen & _)];
      destruct (get_pixels_ok _ _ Hlen Hcl) as (l & E' & _); by exists l. }
  cbn [mbind result_bind]. destruct (_ && _ && _).
  - destruct (xalloc_ok w' Hmem') as (w1 & -> & Hmem1 & S1 & _ & _). unfold add_cmapentry.
    destruct (xalloc_ok w1 Hmem1) as (w2 & -> & _ & S2 & _ & _). cbn [mbind result_bind].
    eexists Success, p, m', _. split; [done|]. split; [|split; [done|by left]]. destruct Hm' as (? & Hs & ?). split; [done|]. split; [|done].
    apply (sharing_shared _ w'); [by rewrite <- S1, <- S2|done].
  - exists Success, p, m', w'. split; [done|]. split; [done|]. split; [done|by left].
Qed.

End Alloc.
