(* ===== verification/ColorNearest.v ===== *)
(** * ColorNearest: the nearest color of a map (dix/colormap.c)

    [FindBestPixel] compares squares of distances as numbers of two parts, of 24 and 16 bits. *)

From S2P Require Import Prelude Atom ResourceDB PixelBits ColorCells ColorAccounts.

#[local] Set Warnings "-clear-no-such-hyp".

(** ** The value of a number of two parts *)

Definition big_val (b : BigNumRec) : Z := upper b * BIGNUMLOWER + lower b.
Definition big_ok (b : BigNumRec) : Prop := 0 <= lower b < BIGNUMLOWER ∧ 0 <= upper b < BIGNUMUPPER.

Lemma BigNumGreater_spec x y : big_ok x -> big_ok y -> BigNumGreater x y = (big_val y <? big_val x).
Proof.
  unfold big_ok, big_val, BigNumGreater, BIGNUMLOWER, BIGNUMUPPER. intros [? ?] [? ?]. apply eq_true_iff_eq.
  rewrite orb_true_iff, andb_true_iff, !Z.ltb_lt, Z.eqb_eq. lia.
Qed.

Lemma UnsignedToBigNum_spec u :
  0 <= u < 2 ^ 40 -> big_ok (UnsignedToBigNum u) ∧ big_val (UnsignedToBigNum u) = u.
Proof.
  intros Hu. unfold UnsignedToBigNum, big_ok, big_val, BIGNUMLOWER, BIGNUMUPPER. cbn [upper lower].
  rewrite Z.shiftr_div_pow2 by done. change (2 ^ 24 - 1) with (Z.ones 24). rewrite Z.land_ones by done.
  pose proof (Z.div_mod u (2 ^ 24) ltac:(done)). pose proof (Z.mod_pos_bound u (2 ^ 24) ltac:(done)).
  unfold u16. rewrite (Z.mod_small (u / 2 ^ 24)) by lia. lia.
Qed.

Lemma BigNumAdd_spec x y :
  big_ok x -> big_ok y -> big_val x + big_val y < 2 ^ 40 ->
  big_ok (BigNumAdd x y) ∧ big_val (BigNumAdd x y) = big_val x + big_val y.
Proof.
  unfold big_ok, big_val, BigNumAdd, BIGNUMLOWER, BIGNUMUPPER. intros [? ?] [? ?] Hsum. destruct (Z.leb_spec (2 ^ 24) (lower x + lower y)); cbn [upper lower].
  all: unfold u16; rewrite Z.mod_small by lia; lia.
Qed.

(** ** Distances *)

Definition color_ok (c : xrgb) : Prop := 0 <= rgb_red c < 2 ^ 16 ∧ 0 <= rgb_green c < 2 ^ 16 ∧ 0 <= rgb_blue c < 2 ^ 16.

(** The square of the distance of two colors, in one component or in all. *)
Definition distance (ch : channel) (c v : xrgb) : Z :=
  let dr := rgb_red c - rgb_red v in
  let dg := rgb_green c - rgb_green v in
  let db := rgb_blue c - rgb_blue v in
  match ch with PSEUDOMAP => dr * dr + dg * dg + db * db | REDMAP => dr * dr | GREENMAP => dg * dg | BLUEMAP => db * db end.

Lemma square_bound a b : 0 <= a < 2 ^ 16 -> 0 <= b < 2 ^ 16 -> 0 <= (a - b) * (a - b) < 2 ^ 32.
Proof.
  intros Ha Hb. assert (0 < (2 ^ 16 - (a - b)) * (2 ^ 16 + (a - b))) as H by (apply Z.mul_pos_pos; lia).
  pose proof (Z.square_nonneg (a - b)). lia.
Qed.

Lemma color_distance_spec ch c v :
  color_ok c -> color_ok v -> big_ok (color_distance ch c v) ∧ big_val (color_distance ch c v) = distance ch c v ∧ distance ch c v < 2 ^ 34.
Proof.
  intros (Hr & Hg & Hb) (Hr' & Hg' & Hb').
  pose proof (square_bound _ _ Hr Hr') as Sr. pose proof (square_bound _ _ Hg Hg') as Sg. pose proof (square_bound _ _ Hb Hb') as Sb.
  assert (∀ a b c, 0 <= a < 2 ^ 32 -> 0 <= b < 2 ^ 32 -> 0 <= c < 2 ^ 32 ->
    let s := BigNumAdd (BigNumAdd (UnsignedToBigNum (u64 a)) (UnsignedToBigNum (u64 b))) (UnsignedToBigNum (u64 c)) in big_ok s ∧ big_val s = a + b + c) as H.
  { intros x y z Hx Hy Hz. cbv zeta. rewrite !u64_small by lia.
    destruct (UnsignedToBigNum_spec x) as [Ox Ex]; [lia|]. destruct (UnsignedToBigNum_spec y) as [Oy Ey]; [lia|]. destruct (UnsignedToBigNum_spec z) as [Oz Ez]; [lia|].
    destruct (BigNumAdd_spec _ _ Ox Oy) as [O1 E1]; [lia|]. destruct (BigNumAdd_spec _ _ O1 Oz) as [O2 E2]; [lia|]. split; [done|lia]. }
  unfold color_distance, distance. destruct ch.
  - destruct (H ((rgb_red c - rgb_red v) * (rgb_red c - rgb_red v)) (0 * 0) (0 * 0)) as [? E]; [lia..|]. split; [done|]. rewrite E. lia.
  - destruct (H (0 * 0) ((rgb_green c - rgb_green v) * (rgb_green c - rgb_green v)) (0 * 0)) as [? E]; [lia..|]. split; [done|]. rewrite E. lia.
  - destruct (H (0 * 0) (0 * 0) ((rgb_blue c - rgb_blue v) * (rgb_blue c - rgb_blue v))) as [? E]; [lia..|]. split; [done|]. rewrite E. lia.
  - destruct (H ((rgb_red c - rgb_red v) * (rgb_red c - rgb_red v)) ((rgb_green c - rgb_green v) * (rgb_green c - rgb_green v)) ((rgb_blue c - rgb_blue v) * (rgb_blue c - rgb_blue v))) as [? E]; [done..|].
    split; [done|]. rewrite E. lia.
Qed.

(** ** The search *)

(** Cell [p] has this color of its own. *)
Definition cell_color (c : Chan) (p : Pixel) (v : xrgb) : Prop := ∃ e, get_cell c p = Ok e ∧ co e = local_color v.

(** [final] is the first of the nearest cells below [pixel], at the distance [minval]; there is
    one as soon as a cell was looked at. *)
Definition best_so_far (c : Chan) (prgb : xrgb) (ch : channel) (pixel final : Pixel) (minval : BigNumRec) : Prop :=
  big_ok minval ∧
  (∀ q v, 0 <= q < pixel -> cell_color c q v -> big_val minval <= distance ch v prgb ∧ (q < final -> big_val minval < distance ch v prgb)) ∧
  ((pixel = 0 ∧ final = 0 ∧ minval = MaxBigNum) ∨ (0 <= final < pixel ∧ ∃ v, cell_color c final v ∧ big_val minval = distance ch v prgb)).

Lemma MaxBigNum_ok : big_ok MaxBigNum ∧ big_val MaxBigNum = 2 ^ 40 - 1.
Proof. by vm_compute. Qed.

Lemma best_pixel_ok c prgb ch n pixel final minval :
  color_ok prgb -> 0 <= pixel ->
  (∀ q, 0 <= q < pixel + Z.of_nat n -> ∃ v, cell_color c q v ∧ color_ok v) ->
  best_so_far c prgb ch pixel final minval ->
  ∃ p m, best_pixel n c prgb ch pixel final minval = Ok p ∧ best_so_far c prgb ch (pixel + Z.of_nat n) p m.
Proof.
  intros Hc. revert pixel final minval. induction n as [|n IH]; intros pixel final minval Hp Hcells Hbest; cbn [best_pixel].
  { exists final, minval. rewrite Z.add_0_r. by split. }
  destruct (Hcells pixel) as (v & Hcv & Hv); [lia|]. pose proof Hcv as (e & Eg & Ev). rewrite Eg. cbn [mbind result_bind].
  unfold local_of. rewrite Ev. cbn [mbind result_bind].
  destruct (color_distance_spec ch v prgb Hv Hc) as (Hok & Hval & Hlt). pose proof Hbest as (Hmo & Hmin & Hfin).
  rewrite BigNumGreater_spec, Hval by done. replace (pixel + Z.of_nat (S n)) with (pixel + 1 + Z.of_nat n) by lia.
  assert (∀ v', cell_color c pixel v' -> v' = v) as Huniq by (intros v' (e2 & G2 & E2); rewrite Eg in G2; injection G2 as <-; congruence).
  destruct (Z.ltb_spec (distance ch v prgb) (big_val minval)) as [Hless|Hge]; (apply IH; [lia|intros q Hq; apply Hcells; lia|]).
  - split; [done|]. split; [|right; split; [lia|by exists v]]. intros q v' Hq Hv'. rewrite Hval. destruct (decide (q = pixel)) as [->|Hne].
    + rewrite (Huniq v' Hv'). lia.
    + destruct (Hmin q v') as [Hle _]; [lia|done|]. lia.
  - split; [done|]. destruct Hfin as [(-> & -> & ->)|(Hf & v0 & Hv0 & E0)].
    { exfalso. rewrite (proj2 MaxBigNum_ok) in Hge. lia. }
    split; [|right; split; [lia|by exists v0]]. intros q v' Hq Hv'. destruct (decide (q = pixel)) as [->|Hne].
    + rewrite (Huniq v' Hv'). lia.
    + apply Hmin; [lia|done].
Qed.
