(* ===== verification/ColorAlloc.v ===== *)
(** * ColorAlloc: private cells, planes and shared planes (dix/colormap.c)

    [AllocCP] looks for cells that are free in all combinations of some planes;
    [AllocColorCells] and [AllocColorPlanes] give them to a client, the latter with colours
    that cells share plane by plane.  [StoreColors] sets the colours of such cells. *)

From S2P Require Import Prelude Atom ResourceDB PixelBits ColorCells.

#[local] Set Warnings "-clear-no-such-hyp".

(** ** [AllocCP] *)

(** [refcnt = AllocPrivate; fShared = FALSE] *)
Definition take_private (c : Chan) (p : Pixel) : result Chan :=
  e ← get_cell c p; Ok (set_cell c p (mkEntry (co e) AllocPrivate false)).

(** *** Pixels only *)

Fixpoint skip_used (fuel : nat) (c : Chan) (pixel : Pixel) : result Pixel :=
  match fuel with
  | O => Err OutOfFuel
  | S fuel => e ← get_cell c pixel; if refcnt e =? 0 then Ok pixel else skip_used fuel c (pixel + 1)
  end.

Fixpoint take_cells (count : nat) (c : Chan) (pixel : Pixel) : result (Chan * list Pixel) :=
  match count with
  | O => Ok (c, [])
  | S count =>
      p ← skip_used (S (length (cells c))) c pixel;
      c ← take_private c p;
      '(c, l) ← take_cells count c p;
      Ok (c, p :: l)
  end.

(** *** Contiguous planes *)

(** [while (pixel != maxp && ent[pixel].refcnt == 0) pixel += base;] *)
Fixpoint free_run (fuel : nat) (c : Chan) (pixel maxp base : Pixel) : result Pixel :=
  match fuel with
  | O => Err OutOfFuel
  | S fuel =>
      if pixel =? maxp then Ok pixel else
      e ← get_cell c pixel;
      if refcnt e =? 0 then free_run fuel c (u32 (pixel + base)) maxp base else Ok pixel
  end.

(** The bases that were found, until there are enough. *)
Fixpoint scan_contig (fuel : nat) (c : Chan) (mask base entries pixel : Pixel) (count : nat) (found : list Pixel) : result (option (list Pixel)) :=
  match fuel with
  | O => Err OutOfFuel
  | S fuel =>
      if entries <=? pixel then Ok None else
      let maxp := u32 (pixel + mask + base) in
      last ← free_run (S (length (cells c))) c pixel maxp base;
      let found := if last =? maxp then found ++ [pixel] else found in
      if (last =? maxp) && (length found =? count)%nat then Ok (Some found) else
      let next := u32 (pixel + 1) in
      scan_contig fuel c mask base entries (if Z.land next mask =? 0 then next else u32 (next + mask)) count found
  end.

(** From a base to [maxp]; the pixels after the base are written. *)
Fixpoint take_run (fuel : nat) (c : Chan) (pixel maxp base : Pixel) : result (Chan * list Pixel) :=
  match fuel with
  | O => Err OutOfFuel
  | S fuel =>
      c ← take_private c pixel;
      if pixel =? maxp then Ok (c, []) else
      let pixel := u32 (pixel + base) in
      '(c, l) ← take_run fuel c pixel maxp base; Ok (c, pixel :: l)
  end.

(** [while (--count >= 0)]: the bases from the last one to the first. *)
Fixpoint take_runs (bases : list Pixel) (c : Chan) (mask base : Pixel) : result (Chan * list Pixel) :=
  match bases with
  | [] => Ok (c, [])
  | p :: bases =>
      '(c, l) ← take_run (S (length (cells c))) c p (u32 (p + mask)) base;
      '(c, k) ← take_runs bases c mask base;
      Ok (c, l ++ k)
  end.

(** [n] masks are left. *)
Fixpoint contig_masks (n : nat) (c : Chan) (v : VisualRec) (count : nat) (mask base : Pixel) : result (option (Chan * list Pixel * Pixel)) :=
  match n with
  | O => Ok None
  | S n =>
      found ← scan_contig (S (length (cells c))) c mask base (u32 (ColormapEntries v - mask)) 0 count [];
      match found with
      | Some found => '(c, l) ← take_runs (rev found) c mask base; Ok (Some (c, found ++ l, mask))
      | None => contig_masks n c v count (u32 (mask + mask)) (u32 (base + base))
      end
  end.

(** *** Any planes *)

(** [while (ent[pixel + maxp].refcnt == 0) GetNextBitsOrBreak(maxp, mask, base);] *)
Fixpoint free_bits (fuel : nat) (c : Chan) (pixel maxp mask base : Pixel) : result Pixel :=
  match fuel with
  | O => Err OutOfFuel
  | S fuel =>
      e ← get_cell c (u32 (pixel + maxp));
      if refcnt e =? 0 then
        next ← GetNextBitsOrBreak maxp mask base;
        match next with None => Ok maxp | Some b => free_bits fuel c pixel b mask base end
      else Ok maxp
  end.

Fixpoint scan_bits (fuel : nat) (c : Chan) (mask entries pixel : Pixel) (count : nat) (found : list Pixel) : result (option (list Pixel)) :=
  match fuel with
  | O => Err OutOfFuel
  | S fuel =>
      if entries <=? pixel then Ok None else
      if negb (Z.land pixel mask =? 0) then scan_bits fuel c mask entries (u32 (pixel + 1)) count found else
      maxp ← free_bits (bits_fuel mask) c pixel 0 mask (lowbit mask);
      good ← (if maxp <? mask then Ok false else e ← get_cell c (u32 (pixel + mask)); Ok (refcnt e =? 0));
      if good : bool then
        let found := found ++ [pixel] in
        if (length found <? count)%nat then scan_bits fuel c mask entries (u32 (pixel + 1)) count found else Ok (Some found)
      else scan_bits fuel c mask entries (u32 (pixel + 1)) count found
  end.

(** [while (1) { ...; GetNextBitsOrBreak(maxp, mask, base); *ppix++ = pixel + maxp; }] *)
Fixpoint take_bits (fuel : nat) (c : Chan) (pixel maxp mask base : Pixel) : result (Chan * list Pixel) :=
  match fuel with
  | O => Err OutOfFuel
  | S fuel =>
      c ← take_private c (u32 (pixel + maxp));
      next ← GetNextBitsOrBreak maxp mask base;
      match next with
      | None => Ok (c, [])
      | Some b => '(c, l) ← take_bits fuel c pixel b mask base; Ok (c, u32 (pixel + b) :: l)
      end
  end.

Fixpoint take_all_bits (bases : list Pixel) (c : Chan) (mask : Pixel) : result (Chan * list Pixel) :=
  match bases with
  | [] => Ok (c, [])
  | p :: bases =>
      '(c, l) ← take_bits (bits_fuel mask) c p 0 mask (lowbit mask);
      '(c, k) ← take_all_bits bases c mask;
      Ok (c, l ++ k)
  end.

Fixpoint any_masks (n : nat) (c : Chan) (v : VisualRec) (count : nat) (planes mask : Z) : result (option (Chan * list Pixel * Pixel)) :=
  match n with
  | O => Ok None
  | S n =>
      if negb (count_ones mask =? planes) then any_masks n c v count planes (u32 (mask + 1)) else
      found ← scan_bits (S (length (cells c))) c mask (u32 (ColormapEntries v - mask)) 0 count [];
      match found with
      | Some found => '(c, l) ← take_all_bits (rev found) c mask; Ok (Some (c, found ++ l, mask))
      | None => any_masks n c v count planes (u32 (mask + 1))
      end
  end.

(** The table, the pixels and the mask, or [None] for [FALSE]; a shift by a negative number is
    a fault. *)
Definition AllocCP (v : VisualRec) (c : Chan) (count : nat) (planes : Z) (contig : bool) : result (option (Chan * list Pixel * Pixel)) :=
  let dplanes := nplanes v in
  if planes =? 0 then '(c, l) ← take_cells count c 0; Ok (Some (c, l, 0)) else
  if dplanes <? planes then Ok None else
  r ← contig_masks (Z.to_nat (dplanes - (planes - 1))) c v count (u32 (Z.shiftl 1 planes - 1)) 1;
  match r with
  | Some r => Ok (Some r)
  | None =>
      if contig || (planes =? 1) || (dplanes <? 3) then Ok None else
      if dplanes - planes - 1 <? 0 then Err Corrupted else
      let finalmask := u32 (Z.shiftl (Z.shiftl 1 (planes - 1) - 1) (dplanes - planes + 1) + Z.shiftl 1 (dplanes - planes - 1)) in
      let mask := u32 (Z.shiftl 3 (planes - 1) - 1) in
      any_masks (Z.to_nat (finalmask - mask + 1)) c v count planes mask
  end.

(** ** Cells for a client *)

(** The new pixels after those that the client has; [None] without memory. *)
Definition append_pixels (c : Chan) (client : Z) (l : list Pixel) (w : CmapWorld) : result (option Chan * CmapWorld) :=
  k ← get_pixels c client;
  let '(ok, w) := c_alloc w in
  Ok ((if ok : bool then Some (set_pixels c client (k ++ l)) else None), w).

(** [refcnt = 0] for cells that were just taken. *)
Definition untake (c : Chan) (l : list Pixel) : result Chan :=
  foldM (λ p c, e ← get_cell c p; Ok (set_cell c p (with_refcnt e 0))) l c.

(** [c << r], of type [int] *)
Definition int_shift (c r : Z) : Z := wrap_s 32 (Z.shiftl c r).

(** The result, the [c] unique pixels, the mask, and all the new pixels of the client. *)
Definition AllocPseudo (m : ColormapRec) (client c r : Z) (contig : bool) (w : CmapWorld)
    : result (Status * list Pixel * Pixel * list Pixel * ColormapRec * CmapWorld) :=
  let npix := int_shift c r in
  if (32 <=? r) || (nfree (red m) <? npix) || (npix <? c) then Ok (BadAlloc, [], 0, [], m, w) else
  let '(ok, w) := c_alloc w in
  if negb ok then Ok (BadAlloc, [], 0, [], m, w) else
  got ← AllocCP (pVisual m) (red m) (Z.to_nat c) r contig;
  match got with
  | None => Ok (BadAlloc, [], 0, [], m, w)
  | Some (ch, pix, mask) =>
      '(ch', w) ← append_pixels ch client pix w;
      match ch' with
      | None => ch ← untake ch pix; Ok (BadAlloc, [], 0, [], set_chan m PSEUDOMAP ch, w)
      | Some ch => Ok (Success, take (Z.to_nat c) pix, mask, pix, set_chan m PSEUDOMAP (add_free ch (- npix)), w)
      end
  end.

(** The part of a pixel that a table gives. *)
Definition or_pixels (v : VisualRec) (ch : channel) (pixels new : list Pixel) : list Pixel :=
  zip_with (λ a p, Z.lor a (shift_pixel v ch p)) pixels new.

Section Screen.
Context (COMPOSITE : bool).

(** The result, the pixels, and the three masks. *)
Definition AllocDirect (m : ColormapRec) (client c r g b : Z) (contig : bool) (w : CmapWorld)
    : result (Status * list Pixel * (Pixel * Pixel * Pixel) * ColormapRec * CmapWorld) :=
  let v := pVisual m in
  let npixR := int_shift c r in let npixG := int_shift c g in let npixB := int_shift c b in
  let fails m w := Ok (BadAlloc, [], (0, 0, 0), m, w) in
  if (32 <=? r) || (32 <=? g) || (32 <=? b) || (nfree (red m) <? npixR) || (npixR <? c) ||
     (nfree (green m) <? npixG) || (npixG <? c) || (nfree (blue m) <? npixB) || (npixB <? c) then fails m w else
  let '(ok1, w) := c_alloc w in let '(ok2, w) := c_alloc w in let '(ok3, w) := c_alloc w in
  if negb (ok1 && ok2 && ok3) then fails m w else
  gr ← AllocCP v (red m) (Z.to_nat c) r contig;
  gg ← AllocCP v (green m) (Z.to_nat c) g contig;
  gb ← AllocCP v (blue m) (Z.to_nat c) b contig;
  '(lists, w) ←
    (match gr, gg, gb with
     | Some (cr, pr, _), Some (cg, pg, _), Some (cb, pb, _) =>
         '(cr, w) ← append_pixels cr client pr w;
         '(cg, w) ← append_pixels cg client pg w;
         '(cb, w) ← append_pixels cb client pb w;
         Ok ((match cr, cg, cb with Some cr, Some cg, Some cb => Some (cr, cg, cb) | _, _, _ => None end), w)
     | _, _, _ => Ok (None, w)
     end);
  match lists, gr, gg, gb with
  | Some (cr, cg, cb), Some (_, pr, mr), Some (_, pg, mg), Some (_, pb, mb) =>
      let m := set_chan m REDMAP (add_free cr (- npixR)) in
      let m := set_chan m GREENMAP (add_free cg (- npixG)) in
      let m := set_chan m BLUEMAP (add_free cb (- npixB)) in
      let n := Z.to_nat c in
      let pixels := or_pixels v REDMAP (replicate n 0) (take n pr) in
      let pixels := or_pixels v BLUEMAP (or_pixels v GREENMAP pixels (take n pg)) (take n pb) in
      Ok (Success, (λ p, Z.lor p (ALPHAMASK COMPOSITE v)) <$> pixels,
          (shift_pixel v REDMAP mr, shift_pixel v GREENMAP mg, shift_pixel v BLUEMAP mb), m, w)
  | _, _, _, _ =>
      let undo ch got m := match got with Some (c, l, _) => c ← untake c l; Ok (set_chan m ch c) | None => Ok m end in
      m ← undo REDMAP gr m; m ← undo GREENMAP gg m; m ← undo BLUEMAP gb m;
      fails m w
  end.

(** [while (!(mask & r)) r += r;] *)
Fixpoint next_bit (fuel : nat) (mask r : Pixel) : result Pixel :=
  match fuel with
  | O => Err OutOfFuel
  | S fuel => if Z.land mask r =? 0 then next_bit fuel mask (u32 (r + r)) else Ok r
  end.

(** The first [n] bits of a mask from [r] on, and the bit after them. *)
Fixpoint split_mask (n : nat) (mask r : Pixel) : result (list Pixel * Pixel) :=
  match n with
  | O => Ok ([], r)
  | S n => r ← next_bit 33 mask r; '(l, s) ← split_mask n mask (u32 (r + r)); Ok (r :: l, s)
  end.

(** [AddResource] for the first pixels of a client in the map of another one *)
Definition needs_entry (m : ColormapRec) (client : Z) : result bool :=
  lr ← get_pixels (red m) client;
  oldcount ← (if cm_class m =? DirectColor then
                lg ← get_pixels (green m) client; lb ← get_pixels (blue m) client; Ok (length lr + length lg + length lb)%nat
              else Ok (length lr));
  Ok ((oldcount =? 0)%nat && negb (CLIENT_ID (cm_mid m) =? client)).

Definition AllocColorCells (m : ColormapRec) (client colors planes : Z) (contig : bool) (w : CmapWorld)
    : result (Status * list Pixel * list Pixel * ColormapRec * CmapWorld) :=
  if negb (dynamic (cm_class m)) then Ok (BadAlloc, [], [], m, w) else
  first ← needs_entry m client;
  let '(okp, w) := if first : bool then c_alloc w else (true, w) in
  if negb okp then Ok (BadAlloc, [], [], m, w) else
  '(ok, pixels, masks, m, w) ←
    (if cm_class m =? DirectColor then
       '(ok, pixels, (rmask, gmask, bmask), m, w) ← AllocDirect m client colors planes planes planes contig w;
       masks ← (if decide (ok = Success) then
                  '(r, _) ← split_mask (Z.to_nat planes) rmask 1;
                  '(g, _) ← split_mask (Z.to_nat planes) gmask 1;
                  '(b, _) ← split_mask (Z.to_nat planes) bmask 1;
                  Ok (zip_with Z.lor (zip_with Z.lor r g) b)
                else Ok []);
       Ok (ok, pixels, masks, m, w)
     else
       '(ok, pixels, rmask, _, m, w) ← AllocPseudo m client colors planes contig w;
       masks ← (if decide (ok = Success) then '(r, _) ← split_mask (Z.to_nat planes) rmask 1; Ok r else Ok []);
       Ok (ok, pixels, masks, m, w));
  if decide (ok = Success) then
    if first then '(ok, m, w) ← add_cmapentry m client w; Ok (ok, pixels, masks, m, w)
    else Ok (ok, pixels, masks, m, w)
  else Ok (ok, pixels, masks, m, w).

(** ** Shared planes *)

(** What is in the memory of a new shared color. *)
Context (garbage : nat -> Z).

Fixpoint alloc_many (n : nat) (w : CmapWorld) : bool * CmapWorld :=
  match n with
  | O => (true, w)
  | S n => let '(ok, w) := c_alloc w in if ok : bool then alloc_many n w else (false, w)
  end.

(** [co.shco.red = pshared], and so on; the other pointers of the union stay. *)
Definition point_to (ch : channel) (p : nat) (e : Entry) : Entry :=
  let '(r, g, b) := match co e with shco r g b => (r, g, b) | local_color _ => (None, None, None) end in
  match ch with
  | GREENMAP => mkEntry (shco r (Some p) b) (refcnt e) (fShared e)
  | BLUEMAP => mkEntry (shco r g (Some p)) (refcnt e) (fShared e)
  | _ => mkEntry (shco (Some p) g b) (refcnt e) true
  end.

(** The new pixels with these bits point to a new shared color. *)
Definition share_bits (ch : channel) (ppixFirst : list Pixel) (basemask common : Pixel) (refs : Z) (bits : Pixel) (s : ColormapRec * CmapWorld)
    : result (ColormapRec * CmapWorld) :=
  let '(m, w) := s in
  let p := next_shared w in
  let w := set_shared w (<[p := mkShared (garbage p) (wrap_s 16 refs)]> (shared w)) (S p) in
  c ← foldM (λ x c, if Z.land x basemask =? Z.lor common bits then e ← get_cell c x; Ok (set_cell c x (point_to ch p e)) else Ok c) ppixFirst (red m);
  Ok (set_chan m PSEUDOMAP c, w).

(** One component for one of the unique pixels; [others] are the masks of the other components. *)
Definition share_component (ch : channel) (ppixFirst : list Pixel) (pixel mask others : Pixel) (refs refs0 : Z) (s : ColormapRec * CmapWorld)
    : result (ColormapRec * CmapWorld) :=
  let basemask := u32 (Z.lnot others) in
  let common := Z.land pixel basemask in
  if mask =? 0 then share_bits ch ppixFirst basemask common refs0 0 s
  else for_bits (bits_fuel mask) (share_bits ch ppixFirst basemask common refs) 0 mask (lowbit mask) s.

Definition AllocShared (m : ColormapRec) (ppix : list Pixel) (c r g b : Z) (rmask gmask bmask : Pixel) (ppixFirst : list Pixel) (w : CmapWorld)
    : result (bool * ColormapRec * CmapWorld) :=
  let npixShared := Z.shiftl c r + Z.shiftl c g + Z.shiftl c b in
  let '(ok, w) := c_alloc w in
  if negb ok then Ok (false, m, w) else
  let '(ok, w) := alloc_many (Z.to_nat npixShared) w in
  if negb ok then Ok (false, m, w) else
  '(m, w) ← foldM (λ pixel s,
      s ← share_component REDMAP ppixFirst pixel rmask (Z.lor gmask bmask) (Z.shiftl 1 (g + b)) (Z.shiftl 1 (g + b)) s;
      s ← share_component GREENMAP ppixFirst pixel gmask (Z.lor rmask bmask) (Z.shiftl 1 (r + b)) (Z.shiftl 1 (g + b)) s;
      share_component BLUEMAP ppixFirst pixel bmask (Z.lor rmask gmask) (Z.shiftl 1 (r + g)) (Z.shiftl 1 (g + b)) s) ppix (m, w);
  Ok (true, m, w).

Definition or_all (l : list Pixel) : Pixel := foldr Z.lor 0 l.

Definition AllocColorPlanes (m : ColormapRec) (client colors r g b : Z) (contig : bool) (w : CmapWorld)
    : result (Status * list Pixel * (Pixel * Pixel * Pixel) * ColormapRec * CmapWorld) :=
  if negb (dynamic (cm_class m)) then Ok (BadAlloc, [], (0, 0, 0), m, w) else
  first ← needs_entry m client;
  let '(okp, w) := if first : bool then c_alloc w else (true, w) in
  if negb okp then Ok (BadAlloc, [], (0, 0, 0), m, w) else
  '(ok, pixels, masks, m, w) ←
    (if cm_class m =? DirectColor then AllocDirect m client colors r g b contig w
     else
       '(ok, pixels, mask, ppixFirst, m, w) ← AllocPseudo m client colors (r + g + b) contig w;
       if decide (ok = Success) then
         '(lr, s) ← split_mask (Z.to_nat r) mask 1;
         '(lg, s) ← split_mask (Z.to_nat g) mask s;
         '(lb, s) ← split_mask (Z.to_nat b) mask s;
         '(shared_ok, m, w) ← AllocShared m pixels colors r g b (or_all lr) (or_all lg) (or_all lb) ppixFirst w;
         if shared_ok : bool then Ok (Success, pixels, (or_all lr, or_all lg, or_all lb), m, w)
         else '(_, m, w) ← FreeColors COMPOSITE m client pixels mask w; Ok (BadAlloc, pixels, (or_all lr, or_all lg, or_all lb), m, w)
       else Ok (ok, pixels, (0, 0, 0), m, w));
  if decide (ok = Success) then
    if first then '(ok, m, w) ← add_cmapentry m client w; Ok (ok, pixels, masks, m, w)
    else Ok (ok, pixels, masks, m, w)
  else Ok (ok, pixels, masks, m, w).

End Screen.

(** ** [StoreColors] *)

Section Store.
Context (COMPOSITE : bool) (ResolveColor : VisualRec -> xrgb -> xrgb).

Definition item_flag (ch : channel) : Z := match ch with REDMAP => DoRed | GREENMAP => DoGreen | _ => DoBlue end.
Definition wants (it : xColorItem) (ch : channel) : bool := negb (Z.land (it_flags it) (item_flag ch) =? 0).
Definition with_rgb (it : xColorItem) (c : xrgb) : xColorItem := mkItem (it_pixel it) c (it_flags it).

(** One component of an item for a map with channels; [(ok, errVal)] *)
Definition store_channel (ch : channel) (s : ColormapRec * xColorItem * bool * Status) : result (ColormapRec * xColorItem * bool * Status) :=
  let '(m, it, ok, errVal) := s in
  let v := pVisual m in
  let pix := pixel_of v ch (it_pixel it) in
  if numents v ch <=? pix then Ok (m, it, false, BadValue) else
  e ← get_cell (get_chan m ch) pix;
  if negb (refcnt e =? AllocPrivate) then Ok (m, it, false, BadAccess) else
  c ← local_of e;
  if wants it ch then
    e ← store_local ch e (it_rgb it); Ok (set_chan m ch (set_cell (get_chan m ch) pix e), it, ok, errVal)
  else Ok (m, with_rgb it (set_comp ch (it_rgb it) c), ok, errVal).

(** All items; the result has those for the hardware. *)
Fixpoint store_direct (m : ColormapRec) (defs : list xColorItem) (errVal : Status) (w : CmapWorld)
    : result (ColormapRec * list xColorItem * Status * CmapWorld) :=
  match defs with
  | [] => Ok (m, [], errVal, w)
  | it :: defs =>
      let it := with_rgb it (ResolveColor (pVisual m) (it_rgb it)) in
      if negb (Z.land (it_pixel it) (u32 (Z.lnot (RGBMASK COMPOSITE (pVisual m)))) =? 0) then
        store_direct m defs BadValue (set_error w (it_pixel it))
      else
        s ← store_channel REDMAP (m, it, true, errVal);
        s ← store_channel GREENMAP s;
        '(m, it, ok, errVal) ← store_channel BLUEMAP s;
        '(m, l, errVal, w) ← store_direct m defs errVal (if (ok : bool) then w else set_error w (it_pixel it));
        Ok (m, (if ok : bool then it :: l else l), errVal, w)
  end.

(** A component of a shared colour: its cells, and whether others see it too. *)
Definition component_of (ch : channel) (c : xrgb) : Z := match ch with REDMAP => rgb_red c | GREENMAP => rgb_green c | _ => rgb_blue c end.
Definition share_of (ch : channel) (e : Entry) : result (option nat) :=
  match co e with
  | shco r g b => Ok (match ch with REDMAP => r | GREENMAP => g | _ => b end)
  | local_color _ => Err Corrupted
  end.

(** The bytes of the pointers of a cell that was shared, as a color. *)
Context (bytes_of : option nat -> option nat -> option nat -> xrgb).

Definition local_bytes (e : Entry) : xrgb := match co e with local_color c => c | shco r g b => bytes_of r g b end.

(** One component of an item for a map with one table; [ok] is false when other cells share it. *)
Definition store_component (pix : Pixel) (ch : channel) (s : ColormapRec * xColorItem * bool * CmapWorld)
    : result (ColormapRec * xColorItem * bool * CmapWorld) :=
  let '(m, it, ok, w) := s in
  e ← get_cell (red m) pix;
  if fShared e then
    p ← share_of ch e; '(p, sc) ← shared_at w p;
    if wants it ch then
      Ok (m, it, (if 1 <? sh_refcnt sc then false else ok),
          set_shared w (<[p := mkShared (component_of ch (it_rgb it)) (sh_refcnt sc)]> (shared w)) (next_shared w))
    else
      let c := sh_color sc in
      Ok (m, with_rgb it (set_comp ch (it_rgb it) (mkRGB c c c)), ok, w)
  else if wants it ch then
    Ok (set_chan m PSEUDOMAP (set_cell (red m) pix (with_color e (local_color (set_comp ch (local_bytes e) (it_rgb it))))), it, ok, w)
  else c ← local_of e; Ok (m, with_rgb it (set_comp ch (it_rgb it) c), ok, w).

(** "have to run through the colormap and change anybody who shares this value" *)
Fixpoint tell_sharers (n : nat) (m : ColormapRec) (pent i : Pixel) (it : xColorItem) (pred pgreen pblue : option nat) (w : CmapWorld) : result CmapWorld :=
  match n with
  | O => Ok w
  | S n =>
      e ← get_cell (red m) i;
      w ← (if fShared e && negb (i =? pent) then
             r ← share_of REDMAP e; g ← share_of GREENMAP e; b ← share_of BLUEMAP e;
             let flags := (if wants it REDMAP && bool_decide (r = pred) then DoRed else 0) +
                          (if wants it GREENMAP && bool_decide (g = pgreen) then DoGreen else 0) +
                          (if wants it BLUEMAP && bool_decide (b = pblue) then DoBlue else 0) in
             if flags =? 0 then Ok w else
             c ← shown w e; Ok (call_StoreColors w [mkItem i c flags])
           else Ok w);
      tell_sharers n m pent (i + 1) it pred pgreen pblue w
  end.

(** [skipped]: an item was rejected before, so that the items are copied to the front, each
    before its colors are resolved and completed. *)
Fixpoint store_pseudo (m : ColormapRec) (defs : list xColorItem) (skipped : bool) (errVal : Status) (w : CmapWorld)
    : result (ColormapRec * list xColorItem * Status * CmapWorld) :=
  match defs with
  | [] => Ok (m, [], errVal, w)
  | it :: defs =>
      let pix := it_pixel it in
      if ColormapEntries (pVisual m) <=? pix then store_pseudo m defs true BadValue (set_error w pix) else
      e ← get_cell (red m) pix;
      if negb (refcnt e =? AllocPrivate) then store_pseudo m defs true BadAccess w else
      let given := it in
      let it := with_rgb it (ResolveColor (pVisual m) (it_rgb it)) in
      s ← store_component pix REDMAP (m, it, true, w);
      s ← store_component pix GREENMAP s;
      '(m, it, ok, w) ← store_component pix BLUEMAP s;
      w ← (if ok : bool then Ok w else
             e ← get_cell (red m) pix;
             pred ← share_of REDMAP e; pgreen ← share_of GREENMAP e; pblue ← share_of BLUEMAP e;
             tell_sharers (Z.to_nat (ColormapEntries (pVisual m))) m pix 0 it pred pgreen pblue w);
      '(m, l, errVal, w) ← store_pseudo m defs skipped errVal w;
      Ok (m, (if skipped then given else it) :: l, errVal, w)
  end.

Definition StoreColors (m : ColormapRec) (defs : list xColorItem) (w : CmapWorld) : result (Status * ColormapRec * CmapWorld) :=
  if negb (dynamic (cm_class m)) && negb (has_flag m BeingCreated) then Ok (BadAccess, m, w) else
  '(m, l, errVal, w) ←
    (if has_channels (cm_class m) then store_direct m defs Success w else store_pseudo m defs false Success w : result (_ * list xColorItem * _ * _));
  Ok (errVal, m, match l with [] => w | _ => call_StoreColors w l end).

End Store.
