(* ===== verification/ColorPlanes.v ===== *)
(** * ColorPlanes: what [AllocCP] allocates (dix/colormap.c)

    The pixels are all combinations of the unique ones with the bits of the mask; no two are
    the same, and all of their cells were free. *)

From Stdlib Require Import Sorting.Sorted.
From S2P Require Import Prelude Atom ResourceDB PixelBits ColorCells ColorAccounts ColorAlloc.

#[local] Set Warnings "-clear-no-such-hyp".

#[local] Opaque submasks popcount bits_fuel.

(** ** Combinations *)

(** The pixels of one base. *)
Definition combos (mask b : Pixel) : list Pixel := Z.add b <$> submasks 32 mask.

Definition all_combos (mask : Pixel) (bases : list Pixel) : list Pixel := concat (combos mask <$> bases).

Definition apart (mask b : Pixel) : Prop := 0 <= b ∧ Z.land b mask = 0.

Lemma apart_lor mask b s : apart mask b -> submask s mask -> b + s = Z.lor b s ∧ Z.land (b + s) mask = s.
Proof.
  intros [Hb H0] [Hs Hsub]%submask_land. assert (Z.land b s = 0) as E.
  { apply Z.bits_inj. intros i. rewrite Z.bits_0. pose proof (Z.land_spec b mask i) as H. rewrite H0, Z.bits_0 in H.
    rewrite <- Hsub, !Z.land_spec. by destruct (Z.testbit b i), (Z.testbit s i), (Z.testbit mask i). }
  assert (b + s = Z.lor b s) as El by (rewrite Z.add_nocarry_lxor by done; by apply Z.lxor_lor).
  split; [done|]. rewrite El, Z.land_lor_distr_l, H0. by rewrite Z.lor_0_l.
Qed.

Lemma elem_of_combos mask b p : 0 <= mask < 2 ^ 32 -> p ∈ combos mask b <-> ∃ s, submask s mask ∧ p = b + s.
Proof.
  intros Hm. unfold combos. rewrite list_elem_of_fmap. split.
  - intros (s & -> & Hs). apply elem_of_submasks in Hs; eauto.
  - intros (s & Hs & ->). exists s. split; [done|]. by apply elem_of_submasks.
Qed.

Lemma submasks_nodup n m : NoDup (submasks n m).
Proof.
  pose proof (submasks_sorted n m) as H. induction H as [|s l Hl IH Hs]; constructor; [|done].
  intros Hin. rewrite Forall_forall in Hs. specialize (Hs s Hin). lia.
Qed.

Lemma combos_nodup mask b : NoDup (combos mask b).
Proof. apply NoDup_fmap_2; [intros x y; lia|apply submasks_nodup]. Qed.

Lemma elem_of_all_combos mask bases p : p ∈ all_combos mask bases <-> ∃ b, b ∈ bases ∧ p ∈ combos mask b.
Proof.
  unfold all_combos. induction bases as [|b bases IH]; cbn [fmap list_fmap concat].
  - split; [intros H; by apply elem_of_nil in H|]. intros (x & H & _). by apply elem_of_nil in H.
  - rewrite elem_of_app, IH. split.
    + intros [H|(x & H1 & H2)]; [exists b; split; [by left|done]|exists x; split; [by right|done]].
    + intros (x & H1 & H2). apply elem_of_cons in H1 as [->|H1]; [by left|right; eauto].
Qed.

Lemma all_combos_nodup mask bases :
  0 <= mask < 2 ^ 32 -> NoDup bases -> Forall (apart mask) bases -> NoDup (all_combos mask bases).
Proof.
  intros Hm Hn Ha. induction bases as [|b bases IH]; [constructor|]. apply NoDup_cons in Hn as [Hnb Hn]. apply Forall_cons in Ha as [Hb Ha].
  change (all_combos mask (b :: bases)) with (combos mask b ++ all_combos mask bases). apply NoDup_app. split; [apply combos_nodup|].
  split; [|by apply IH]. intros p Hp Hq. apply elem_of_combos in Hp as (s & Hs & ->); [|done]. apply elem_of_all_combos in Hq as (b' & Hb' & Hq).
  apply elem_of_combos in Hq as (s' & Hs' & E); [|done]. rewrite Forall_forall in Ha.
  destruct (apart_lor mask b s Hb Hs) as [_ E1]. destruct (apart_lor mask b' s' (Ha b' Hb') Hs') as [_ E2]. rewrite E, E2 in E1. subst s'.
  apply Hnb. replace b with b' by lia. done.
Qed.

Lemma all_combos_length mask bases : length (all_combos mask bases) = (length bases * 2 ^ popcount 32 mask)%nat.
Proof.
  induction bases as [|b bases IH]; [done|]. change (all_combos mask (b :: bases)) with (combos mask b ++ all_combos mask bases).
  rewrite length_app, IH. unfold combos. rewrite length_fmap, submasks_length. cbn [length]. lia.
Qed.

(** ** Cells that are taken *)

Definition mark_private (c : Chan) (p : Pixel) : Chan :=
  match cells c !! Z.to_nat p with Some e => set_cell c p (mkEntry (co e) AllocPrivate false) | None => c end.

Definition mark_list (c : Chan) (l : list Pixel) : Chan := foldl mark_private c l.

Definition in_table (c : Chan) (p : Pixel) : Prop := 0 <= p < Z.of_nat (length (cells c)).

Lemma get_cell_in c p : in_table c p -> ∃ e, get_cell c p = Ok e ∧ cells c !! Z.to_nat p = Some e.
Proof.
  intros [H1 H2]. destruct (lookup_lt_is_Some_2 (cells c) (Z.to_nat p)) as [e He]; [lia|]. exists e. unfold get_cell.
  by rewrite (proj2 (Z.ltb_ge p 0)), He by lia.
Qed.

Lemma mark_length c p : length (cells (mark_private c p)) = length (cells c).
Proof. unfold mark_private. destruct (cells c !! Z.to_nat p); [|done]. simpl. by rewrite length_insert. Qed.

Lemma in_table_mark c p q : in_table (mark_private c p) q <-> in_table c q.
Proof. unfold in_table. by rewrite mark_length. Qed.

Lemma mark_list_length c l : length (cells (mark_list c l)) = length (cells c).
Proof. revert c. induction l as [|p l IH]; intros c; [done|]. cbn. change (foldl mark_private ?c l) with (mark_list c l). by rewrite IH, mark_length. Qed.

Lemma mark_list_app c l k : mark_list c (l ++ k) = mark_list (mark_list c l) k.
Proof. apply foldl_app. Qed.

Lemma take_private_ok c p : in_table c p -> take_private c p = Ok (mark_private c p).
Proof.
  intros H. destruct (get_cell_in c p H) as (e & Hg & He). unfold take_private, mark_private. by rewrite Hg, He.
Qed.

Definition free_at (c : Chan) (p : Pixel) : Prop := ∃ e, cells c !! Z.to_nat p = Some e ∧ refcnt e = 0.

(** ** Pixels with all combinations *)

(** [all_bits] as a list of what is left. *)
Lemma take_bits_ok fuel c pixel maxp mask l :
  all_bits fuel maxp mask (lowbit mask) = Ok l -> Forall (λ s, in_table c (pixel + s) ∧ pixel + s < 2 ^ 32) l ->
  ∃ k, l = maxp :: k ∧ take_bits fuel c pixel maxp mask (lowbit mask) = Ok (mark_list c (Z.add pixel <$> l), Z.add pixel <$> k).
Proof.
  revert c maxp l. induction fuel as [|fuel IH]; intros c maxp l H Hl; [done|]. cbn [all_bits take_bits] in *.
  destruct (GetNextBitsOrBreak maxp mask (lowbit mask)) as [[b|]|]; cbn [mbind result_bind] in *; [|injection H as <-|done].
  - destruct (all_bits fuel b mask (lowbit mask)) as [k|] eqn:E; [|done]. injection H as <-. apply Forall_cons in Hl as [[Hin Hlt] Hl].
    exists k. split; [done|]. rewrite (u32_small (pixel + maxp)) by (destruct Hin; lia). rewrite take_private_ok by done. cbn [mbind result_bind].
    destruct (IH (mark_private c (pixel + maxp)) b k E) as (k' & -> & Et).
    { eapply Forall_impl; [exact Hl|]. intros s [Hs ?]. split; [by apply in_table_mark|done]. }
    rewrite Et. cbn [mbind result_bind]. apply Forall_cons in Hl as [[Hb Hbl] _]. rewrite (u32_small (pixel + b)) by (destruct Hb; lia). done.
  - apply Forall_cons in Hl as [[Hin Hlt] _]. exists []. split; [done|]. rewrite (u32_small (pixel + maxp)) by (destruct Hin; lia). by rewrite take_private_ok.
Qed.

Lemma free_bits_run_ok fuel c pixel maxp mask l :
  all_bits fuel maxp mask (lowbit mask) = Ok l -> Forall (λ s, in_table c (pixel + s) ∧ pixel + s < 2 ^ 32) l ->
  ∃ q, free_bits fuel c pixel maxp mask (lowbit mask) = Ok q ∧ q ∈ l ∧
       ((∀ s, s ∈ l -> free_at c (pixel + s)) ∨ ¬ free_at c (pixel + q)).
Proof.
  revert maxp l. induction fuel as [|fuel IH]; intros maxp l H Hl; [done|]. cbn [all_bits free_bits] in *.
  assert (∃ k, l = maxp :: k) as [k ->].
  { destruct (GetNextBitsOrBreak maxp mask (lowbit mask)) as [[b|]|]; cbn [mbind result_bind] in *; [|injection H as <-; eauto|done].
    destruct (all_bits fuel b mask (lowbit mask)); [|done]. injection H as <-. eauto. }
  apply Forall_cons in Hl as [[Hin Hlt] Hl]. rewrite (u32_small (pixel + maxp)) by (destruct Hin; lia). destruct (get_cell_in c _ Hin) as (e & -> & He).
  cbn [mbind result_bind]. destruct (Z.eqb_spec (refcnt e) 0) as [H0|H0].
  2:{ exists maxp. split; [done|]. split; [by left|]. right. intros (e' & He' & ?). rewrite He in He'. injection He' as <-. done. }
  assert (free_at c (pixel + maxp)) as Hf by (by exists e).
  destruct (GetNextBitsOrBreak maxp mask (lowbit mask)) as [[b|]|]; cbn [mbind result_bind] in *; [|injection H as <-|done].
  - destruct (all_bits fuel b mask (lowbit mask)) as [k'|] eqn:E; [|done]. injection H as <-.
    destruct (IH b k' E Hl) as (q & Eq & Hq & Hres). exists q. split; [done|]. split; [by right|]. destruct Hres as [Hall|Hn]; [left|by right].
    intros s [->|Hs]%elem_of_cons; auto.
  - exists maxp. split; [done|]. split; [by left|]. left. intros s ->%list_elem_of_singleton. done.
Qed.

(** ** Bases that are found *)

(** A base that was found below [pixel]: all of its combinations are free cells. *)
Definition good_base (c : Chan) (mask entries pixel b : Pixel) : Prop :=
  apart mask b ∧ b < entries ∧ b < pixel ∧ ∀ s, submask s mask -> free_at c (b + s).

Definition good_bases (c : Chan) (mask entries pixel : Pixel) (found : list Pixel) : Prop :=
  NoDup found ∧ Forall (good_base c mask entries pixel) found.

Lemma good_bases_more c mask entries pixel pixel' found :
  pixel <= pixel' -> good_bases c mask entries pixel found -> good_bases c mask entries pixel' found.
Proof. intros Hle [Hn H]. split; [done|]. eapply Forall_impl; [exact H|]. intros b (?&?&?&?). split; [done|]. split; [done|]. split; [lia|done]. Qed.

Lemma good_bases_snoc c mask entries pixel pixel' found :
  good_bases c mask entries pixel found -> pixel < pixel' -> apart mask pixel -> pixel < entries -> (∀ s, submask s mask -> free_at c (pixel + s)) ->
  good_bases c mask entries pixel' (found ++ [pixel]).
Proof.
  intros Hg Hlt Ha He Hf. pose proof Hg as [Hn Hb]. split.
  - apply NoDup_app. split; [done|]. split; [|apply NoDup_singleton]. intros x Hx ->%list_elem_of_singleton.
    rewrite Forall_forall in Hb. destruct (Hb pixel Hx) as (_ & _ & ? & _). lia.
  - apply Forall_app. split; [by eapply good_bases_more; [|exact Hg]; lia|]. apply Forall_singleton. by split.
Qed.

Section Scan.
Context (c : Chan) (mask entries : Pixel) (count : nat).
Context (Hmask : 0 < mask < 2 ^ 31) (Hent : 0 <= entries) (Hlen : entries + mask <= Z.of_nat (length (cells c))) (Hmax : entries + mask < 2 ^ 31).

Lemma combos_in b s : 0 <= b < entries -> submask s mask -> in_table c (b + s) ∧ b + s < 2 ^ 32.
Proof. intros Hb Hs. pose proof (submask_le s mask ltac:(lia) Hs). destruct Hs. unfold in_table. lia. Qed.

Lemma scan_bits_ok fuel pixel found :
  0 <= pixel -> Z.max 0 (entries - pixel) < Z.of_nat fuel -> (length found < count)%nat -> good_bases c mask entries pixel found ->
  ∃ r, scan_bits fuel c mask entries pixel count found = Ok r ∧
    ∀ f, r = Some f -> length f = count ∧ ∃ p, good_bases c mask entries p f.
Proof.
  revert pixel found. induction fuel as [|fuel IH]; intros pixel found Hp Hfuel Hlf Hg; cbn [scan_bits].
  - lia.
  - destruct (Z.leb_spec entries pixel) as [Hle|Hgt]; [by exists None|]. rewrite (u32_small (pixel + 1)) by lia.
    destruct (Z.eqb_spec (Z.land pixel mask) 0) as [Hap|Hap]; cbn [negb]; [|apply IH; [lia|lia|done|by eapply good_bases_more; [|exact Hg]; lia]].
    destruct (free_bits_run_ok (bits_fuel mask) c pixel 0 mask (submasks 32 mask)) as (q & -> & Hq & Hres);
      [apply all_bits_fuel; lia| |].
    { apply Forall_forall. intros s Hs. apply elem_of_submasks in Hs; [|simpl; lia]. by apply combos_in. }
    cbn [mbind result_bind]. apply elem_of_submasks in Hq; [|simpl; lia]. pose proof (submask_le q mask ltac:(lia) Hq) as Hqm.
    assert (∃ good, (if q <? mask then Ok false else e ← get_cell c (u32 (pixel + mask)); Ok (refcnt e =? 0)) = Ok good ∧
              (good = true -> ∀ s, submask s mask -> free_at c (pixel + s))) as (good & -> & Hgood).
    { destruct (Z.ltb_spec q mask); [by exists false|]. assert (q = mask) as -> by lia.
      destruct (combos_in pixel mask) as [Hin Hlt]; [lia|by apply submask_refl; lia|]. rewrite u32_small by lia.
      destruct (get_cell_in c _ Hin) as (e & -> & He). cbn [mbind result_bind]. exists (refcnt e =? 0). split; [done|]. intros H0%Z.eqb_eq s Hs.
      destruct Hres as [Hall|Hn]; [apply Hall, elem_of_submasks; [simpl; lia|done]|]. destruct Hn. by exists e. }
    cbn [mbind result_bind]. destruct good.
    + assert (good_bases c mask entries (pixel + 1) (found ++ [pixel])) as Hg' by (eapply good_bases_snoc; [exact Hg|lia|by split|done|by apply Hgood]).
      destruct (Nat.ltb_spec (length (found ++ [pixel])) count) as [Hlt|Hge]; [apply IH; [lia|lia|done|done]|].
      eexists. split; [done|]. intros f [= <-]. rewrite length_app in *. cbn [length] in *. split; [lia|]. by exists (pixel + 1).
    + apply IH; [lia|lia|done|]. eapply good_bases_more; [|exact Hg]. lia.
Qed.

End Scan.

(** ** The bases are taken, the last one first *)

Lemma take_all_bits_ok c mask bases :
  0 <= mask < 2 ^ 32 -> (∀ b s, b ∈ bases -> submask s mask -> in_table c (b + s) ∧ b + s < 2 ^ 32) ->
  ∃ l, take_all_bits bases c mask = Ok (mark_list c (all_combos mask bases), l) ∧ bases ++ l ≡ₚ all_combos mask bases.
Proof.
  intros Hm. revert c. induction bases as [|b bases IH]; intros c Hin; cbn [take_all_bits]; [by exists []|].
  destruct (take_bits_ok (bits_fuel mask) c b 0 mask (submasks 32 mask)) as (k & Ek & ->).
  { by apply all_bits_fuel. }
  { apply Forall_forall. intros s Hs. apply elem_of_submasks in Hs; [|done]. apply Hin; [by left|done]. }
  cbn [mbind result_bind]. change (Z.add b <$> submasks 32 mask) with (combos mask b).
  destruct (IH (mark_list c (combos mask b))) as (l & -> & Hl).
  { intros b' s Hb' Hs. unfold in_table. rewrite mark_list_length. apply Hin; [by right|done]. }
  cbn [mbind result_bind]. exists ((Z.add b <$> k) ++ l). change (all_combos mask (b :: bases)) with (combos mask b ++ all_combos mask bases).
  rewrite mark_list_app. split; [done|]. assert (combos mask b = b :: (Z.add b <$> k)) as ->.
  { unfold combos. rewrite Ek. cbn [fmap list_fmap]. by rewrite Z.add_0_r. }
  cbn [app]. rewrite <- Hl. rewrite !app_assoc. rewrite (Permutation_app_comm bases (Z.add b <$> k)). done.
Qed.

(** What [AllocCP] promises: [count] unique pixels with a mask of [planes] bits, and cells that were free. *)
Definition allocated (c : Chan) (count : nat) (planes : Z) (c' : Chan) (l : list Pixel) (mask : Pixel) : Prop :=
  0 <= mask < 2 ^ 32 ∧ Z.of_nat (popcount 32 mask) = planes ∧
  ∃ k, c' = mark_list c k ∧ l ≡ₚ k ∧ NoDup k ∧ Forall (λ p, in_table c p ∧ free_at c p) k ∧
    k ≡ₚ all_combos mask (take count l) ∧ length (take count l) = count ∧ Forall (apart mask) (take count l).

Lemma allocated_intro c mask entries p found l k planes :
  0 <= mask < 2 ^ 32 -> Z.of_nat (popcount 32 mask) = planes -> good_bases c mask entries p found ->
  (∀ b s, b ∈ found -> submask s mask -> in_table c (b + s)) ->
  k = all_combos mask (rev found) -> rev found ++ l ≡ₚ k ->
  allocated c (length found) planes (mark_list c k) (found ++ l) mask.
Proof.
  intros Hm Hpop [Hn Hg] Hin -> Hperm. split; [done|]. split; [done|]. exists (all_combos mask (rev found)).
  assert (rev found ≡ₚ found) as Hrev by (symmetry; apply Permutation_rev).
  assert (Forall (apart mask) found) as Hap by (eapply Forall_impl; [exact Hg|]; by intros b (? & _)).
  split; [done|]. split; [by rewrite <- Hperm, Hrev|]. split.
  { apply all_combos_nodup; [done|by rewrite Hrev|by rewrite Hrev]. }
  split.
  { apply Forall_forall. intros q Hq. apply elem_of_all_combos in Hq as (b & Hb & Hq). rewrite Hrev in Hb.
    apply elem_of_combos in Hq as (s & Hs & ->); [|done]. rewrite Forall_forall in Hg. destruct (Hg b Hb) as (_ & _ & _ & Hf). split; [by apply Hin|by apply Hf]. }
  rewrite take_app_length. split; [|by split]. unfold all_combos. by rewrite Hrev.
Qed.

(** ** Contiguous planes

    The mask is [N - 1] times its lowest bit [base]. *)

Section Contiguous.
Context (p k : Z) (Hp : 0 < p) (Hk : 0 <= k) (Hpk : p + k < 31).

Local Abbreviation N := (2 ^ p).
Local Abbreviation base := (2 ^ k).
Local Abbreviation cmask := ((2 ^ p - 1) * 2 ^ k).

Lemma contig_mask_bits : cmask = Z.shiftl (Z.ones p) k.
Proof. rewrite Z.shiftl_mul_pow2, Z.ones_equiv by done. lia. Qed.

Lemma N_pos : 1 < N ∧ 0 < base.
Proof. split; [|by apply Z.pow_pos_nonneg]. change 1 with (2 ^ 0). apply Z.pow_lt_mono_r; lia. Qed.

Lemma contig_mask_range : 0 < cmask < 2 ^ 31 ∧ cmask + base = N * base ∧ N * base < 2 ^ 31.
Proof.
  destruct N_pos as [Hn Hb]. assert (N * base < 2 ^ 31) as H by (rewrite <- Z.pow_add_r by lia; apply Z.pow_lt_mono_r; lia). nia.
Qed.

Lemma land_contig x : 0 <= x -> Z.land x cmask = (x / base) mod N * base.
Proof.
  intros Hx. rewrite contig_mask_bits, <- Z.shiftl_mul_pow2, <- Z.land_ones, <- Z.shiftr_div_pow2 by lia.
  apply Z.bits_inj. intros i. destruct (Z.lt_ge_cases i 0) as [|Hi]; [by rewrite !Z.testbit_neg_r|].
  rewrite Z.land_spec, !Z.shiftl_spec, Z.land_spec by done. destruct (Z.lt_ge_cases i k) as [Hik|Hik].
  - rewrite (Z.testbit_neg_r _ (i - k)) by lia. by rewrite andb_false_r, (Z.testbit_neg_r (Z.shiftr x k)) by lia.
  - rewrite Z.shiftr_spec by lia. by replace (i - k + k) with i by lia.
Qed.

Lemma contig_submask s : submask s cmask <-> ∃ i, 0 <= i < N ∧ s = i * base.
Proof.
  destruct N_pos as [Hn Hb]. rewrite submask_land. split.
  - intros [Hs E]. rewrite land_contig in E by done. exists ((s / base) mod N). split; [apply Z.mod_pos_bound; lia|done].
  - intros (i & Hi & ->). split; [nia|]. rewrite land_contig, Z.div_mul, Z.mod_small by nia. done.
Qed.

Lemma seqZ_sorted a n : StronglySorted Z.lt (Z.mul base <$> seqZ a n).
Proof.
  destruct N_pos as [_ Hb]. unfold seqZ. rewrite <- list_fmap_compose. generalize 0%nat as b. induction (Z.to_nat n) as [|m IH]; intros b; [constructor|].
  cbn [seq fmap list_fmap]. constructor; [apply IH|]. apply Forall_forall. intros x Hx. apply list_elem_of_fmap in Hx as (y & -> & Hy).
  apply elem_of_seq in Hy. unfold compose. nia.
Qed.

Lemma contig_submasks : submasks 32 cmask = Z.mul base <$> seqZ 0 N.
Proof.
  destruct contig_mask_range as (Hm & _). apply sorted_unique; [apply submasks_sorted|apply seqZ_sorted|]. intros s.
  rewrite elem_of_submasks by (simpl; lia). rewrite contig_submask, list_elem_of_fmap. split.
  - intros (i & Hi & ->). exists i. split; [lia|]. apply elem_of_seqZ. lia.
  - intros (i & -> & Hi). apply elem_of_seqZ in Hi. exists i. split; [lia|lia].
Qed.

Lemma contig_popcount : Z.of_nat (popcount 32 cmask) = p.
Proof.
  assert (2 ^ Z.of_nat (popcount 32 cmask) = 2 ^ p) as E.
  { pose proof (submasks_length 32 cmask) as H. rewrite contig_submasks, length_fmap, length_seqZ in H. destruct N_pos as [Hn _].
    transitivity (Z.of_nat (2 ^ popcount 32 cmask)); [rewrite Nat2Z.inj_pow; reflexivity|]. rewrite <- H. apply Z2Nat.id. lia. }
  apply Z.pow_inj_r in E; lia.
Qed.

(** The combinations of a base, from the [j]-th on. *)
Definition run (b j : Z) : list Pixel := (λ i, b + base * i) <$> seqZ j (N - j).

Lemma run_combos b : combos cmask b = run b 0.
Proof. unfold combos, run. by rewrite contig_submasks, <- list_fmap_compose, Z.sub_0_r. Qed.

Lemma run_cons b j : j < N -> run b j = (b + base * j) :: run b (j + 1).
Proof. intros H. unfold run. rewrite seqZ_cons by lia. cbn [fmap list_fmap]. do 2 f_equal. f_equal; lia. Qed.

Lemma free_run_ok fuel c b j :
  0 <= b -> 0 <= j <= N -> b + N * base < 2 ^ 32 -> (∀ i, 0 <= i < N -> in_table c (b + base * i)) -> N - j < Z.of_nat fuel ->
  ∃ q, free_run fuel c (b + base * j) (b + N * base) base = Ok q ∧ (q = b + N * base <-> ∀ i, j <= i < N -> free_at c (b + base * i)).
Proof.
  destruct N_pos as [Hn Hb]. intros Hb0 Hj Hmax Hin. revert j Hj. induction fuel as [|fuel IH]; intros j Hj Hf; [lia|]. cbn [free_run].
  destruct (Z.eqb_spec (b + base * j) (b + N * base)) as [E|E].
  { exists (b + base * j). split; [done|]. assert (j = N) by nia. split; [intros _ i Hi; lia|done]. }
  assert (j < N) as Hlt by (destruct (Z.eq_dec j N) as [->|]; [lia|lia]). destruct (get_cell_in c _ (Hin j ltac:(lia))) as (e & -> & He). cbn [mbind result_bind].
  destruct (Z.eqb_spec (refcnt e) 0) as [H0|H0].
  - rewrite u32_small by nia. replace (b + base * j + base) with (b + base * (j + 1)) by lia. destruct (IH (j + 1)) as (q & -> & Hq); [lia|lia|].
    exists q. split; [done|]. rewrite Hq. split; intros H i Hi; [|apply H; lia]. destruct (decide (i = j)) as [->|]; [by exists e|apply H; lia].
  - exists (b + base * j). split; [done|]. split; [done|]. intros H. destruct (H j ltac:(lia)) as (e' & He' & Hz). rewrite He in He'. injection He' as <-. done.
Qed.

Lemma take_run_ok fuel c b j :
  0 <= b -> 0 <= j < N -> b + N * base < 2 ^ 32 -> (∀ i, 0 <= i < N -> in_table c (b + base * i)) -> N - j <= Z.of_nat fuel ->
  take_run fuel c (b + base * j) (b + cmask) base = Ok (mark_list c (run b j), run b (j + 1)).
Proof.
  destruct N_pos as [Hn Hb]. intros Hb0 Hj Hmax. revert c j Hj. induction fuel as [|fuel IH]; intros c j Hj Hin Hf; [lia|]. cbn [take_run].
  rewrite take_private_ok by (apply Hin; lia). cbn [mbind result_bind]. rewrite (run_cons b j) by lia.
  destruct (Z.eqb_spec (b + base * j) (b + cmask)) as [E|E].
  { assert (j = N - 1) as -> by nia. replace (N - 1 + 1) with N by lia. unfold run. by rewrite Z.sub_diag. }
  assert (j + 1 < N) as Hlt by (destruct (Z.eq_dec j (N - 1)) as [->|]; [lia|lia]). rewrite u32_small by nia.
  replace (b + base * j + base) with (b + base * (j + 1)) by lia. rewrite IH; [|lia| |lia].
  - cbn [mbind result_bind]. by rewrite (run_cons b (j + 1)) by lia.
  - intros i Hi. apply in_table_mark, Hin, Hi.
Qed.

Lemma take_runs_ok c bases :
  (∀ b, b ∈ bases -> 0 <= b ∧ ∀ i, 0 <= i < N -> in_table c (b + base * i)) -> (∀ b, b ∈ bases -> b + N * base < 2 ^ 32) ->
  ∃ l, take_runs bases c cmask base = Ok (mark_list c (all_combos cmask bases), l) ∧ bases ++ l ≡ₚ all_combos cmask bases.
Proof.
  destruct N_pos as [Hn Hb]. destruct contig_mask_range as (Hm & Hmb & _).
  intros Hin Hmax. revert c Hin. induction bases as [|b bases IH]; intros c Hin; cbn [take_runs]; [by exists []|].
  destruct (Hin b ltac:(by left)) as [Hb0 Hb']. specialize (Hmax b ltac:(by left)) as Hbm. rewrite u32_small by lia.
  pose proof (take_run_ok (S (length (cells c))) c b 0 Hb0 ltac:(lia) Hbm Hb') as E. rewrite Z.mul_0_r, Z.add_0_r in E. rewrite E; clear E.
  2:{ pose proof (Hb' (N - 1) ltac:(lia)) as [_ Hl]. nia. }
  cbn [mbind result_bind]. destruct (IH (λ b' H, Hmax b' (list_elem_of_further _ _ _ H)) (mark_list c (run b 0))) as (l & -> & Hl).
  { intros b' Hb'0. destruct (Hin b' ltac:(by right)) as [? H]. split; [done|]. intros i Hi. unfold in_table. rewrite mark_list_length. by apply H. }
  cbn [mbind result_bind]. exists (run b 1 ++ l). change (all_combos cmask (b :: bases)) with (combos cmask b ++ all_combos cmask bases).
  rewrite run_combos, mark_list_app. split; [done|]. rewrite (run_cons b 0) by lia. rewrite Z.mul_0_r, Z.add_0_r. cbn [app]. rewrite <- Hl.
  rewrite !app_assoc. by rewrite (Permutation_app_comm bases (run b (0 + 1))).
Qed.

(** The next pixel without bits of the mask. *)
Lemma next_apart x :
  apart cmask x -> x < 2 ^ 31 ->
  let y := if Z.land (x + 1) cmask =? 0 then x + 1 else x + 1 + cmask in apart cmask y ∧ x < y <= x + 1 + cmask.
Proof.
  destruct N_pos as [Hn Hb]. destruct contig_mask_range as (Hm & Hmb & _). intros [Hx H0] Hlt. cbv zeta.
  destruct (Z.eqb_spec (Z.land (x + 1) cmask) 0) as [E|E]; [split; [by split; [lia|]|lia]|]. split; [|lia]. split; [lia|].
  rewrite land_contig in * by lia.
  pose proof (Z.div_mod x base ltac:(lia)) as Ex. pose proof (Z.mod_pos_bound x base ltac:(lia)) as Bx.
  assert ((x / base) mod N = 0) as Hq by nia. pose proof (Z.div_mod (x / base) N ltac:(lia)) as Eq. rewrite Hq, Z.add_0_r in Eq.
  destruct (Z.lt_ge_cases (x mod base + 1) base) as [Hc|Hc].
  { exfalso. apply E. replace ((x + 1) / base) with (x / base) by (apply (Z.div_unique _ _ _ (x mod base + 1)); lia). by rewrite Hq. }
  replace (x + 1 + cmask) with ((x / base + N) * base) by nia. rewrite Z.div_mul by lia. rewrite Eq.
  replace (N * (x / base / N) + N) with ((x / base / N + 1) * N) by lia. rewrite Z.mod_mul by lia. done.
Qed.

Section Search.
Context (c : Chan) (entries : Pixel) (count : nat).
Context (Hent : 0 <= entries) (Hlen : entries + cmask <= Z.of_nat (length (cells c))) (Hmax : entries + cmask < 2 ^ 30).

Lemma contig_in b i : 0 <= b < entries -> 0 <= i < N -> in_table c (b + base * i).
Proof. destruct N_pos. intros Hb Hi. unfold in_table. nia. Qed.

Lemma scan_contig_ok fuel pixel found :
  apart cmask pixel -> pixel <= entries + cmask -> Z.max 0 (entries - pixel) < Z.of_nat fuel -> (length found < count)%nat -> good_bases c cmask entries pixel found ->
  ∃ r, scan_contig fuel c cmask base entries pixel count found = Ok r ∧
    ∀ f, r = Some f -> length f = count ∧ ∃ p, good_bases c cmask entries p f.
Proof.
  destruct N_pos as [Hn Hb]. destruct contig_mask_range as (Hm & Hmb & HNb).
  revert pixel found. induction fuel as [|fuel IH]; intros pixel found Hap Hpe Hfuel Hlf Hg; [lia|]. cbn [scan_contig].
  destruct (Z.leb_spec entries pixel) as [Hle|Hgt]; [by exists None|]. pose proof (proj1 Hap) as Hp0.
  rewrite (u32_small (pixel + cmask + base)) by lia. replace (pixel + cmask + base) with (pixel + N * base) by lia.
  destruct (free_run_ok (S (length (cells c))) c pixel 0 Hp0) as (q & Eq & Hq);
    [lia|lia|intros i Hi; apply contig_in; lia|pose proof (contig_in pixel (N - 1) ltac:(lia) ltac:(lia)) as [_ ?]; nia|].
  rewrite Z.mul_0_r, Z.add_0_r in Eq. rewrite Eq. cbn [mbind result_bind]. rewrite (u32_small (pixel + 1)) by lia.
  rewrite (u32_small (pixel + 1 + cmask)) by lia. destruct (next_apart pixel Hap ltac:(lia)) as [Hap' Hlt'].
  set (next := if Z.land (pixel + 1) cmask =? 0 then pixel + 1 else pixel + 1 + cmask) in *.
  assert (next <= entries + cmask) as Hnext by lia.
  destruct (Z.eqb_spec q (pixel + N * base)) as [->|Hne]; cbn [andb].
  - assert (good_bases c cmask entries next (found ++ [pixel])) as Hg'.
    { eapply good_bases_snoc; [exact Hg|lia|done|done|]. intros s (i & Hi & ->)%contig_submask. rewrite (Z.mul_comm i). apply Hq; [done|lia]. }
    rewrite length_app. cbn [length]. destruct (Nat.eqb_spec (length found + 1) count) as [Hc|Hc].
    + eexists. split; [done|]. intros f [= <-]. rewrite length_app. split; [done|]. by exists next.
    + apply IH; [done|done|lia|rewrite length_app; cbn [length]; lia|done].
  - apply IH; [done|done|lia|done|]. eapply good_bases_more; [|exact Hg]. lia.
Qed.

(** When the first base is free one is found at once. *)
Lemma scan_contig_first :
  0 < entries -> count = 1%nat -> (∀ i, 0 <= i < N -> free_at c (base * i)) -> ∀ fuel, scan_contig (S fuel) c cmask base entries 0 count [] = Ok (Some [0]).
Proof.
  destruct N_pos as [Hn Hb]. destruct contig_mask_range as (Hm & Hmb & HNb). intros He -> Hf fuel. cbn [scan_contig].
  destruct (Z.leb_spec entries 0); [lia|]. rewrite (u32_small (0 + cmask + base)) by lia. replace (0 + cmask + base) with (0 + N * base) by lia.
  destruct (free_run_ok (S (length (cells c))) c 0 0 ltac:(lia)) as (q & Eq & Hq);
    [lia|lia|intros i Hi; apply contig_in; lia|pose proof (contig_in 0 (N - 1) ltac:(lia) ltac:(lia)) as [_ ?]; nia|].
  rewrite Z.mul_0_r, Z.add_0_r in Eq. rewrite Eq. cbn [mbind result_bind]. assert (q = 0 + N * base) as ->.
  { apply Hq. intros i Hi. apply Hf. lia. }
  by rewrite Z.eqb_refl.
Qed.

End Search.

End Contiguous.

(** ** [AllocCP] *)

Section AllocCP.
Context (v : VisualRec) (c : Chan) (count : nat) (d : Z).
Context (Hd : 0 <= d < 30) (Hplanes : nplanes v = d) (Hentries : ColormapEntries v = 2 ^ d).
Context (Hlen : 2 ^ d <= Z.of_nat (length (cells c))) (Hcount : (0 < count)%nat).

Definition alloc_result (planes : Z) (r : option (Chan * list Pixel * Pixel)) : Prop :=
  ∀ c' l mask, r = Some (c', l, mask) -> allocated c count planes c' l mask.

Lemma contig_masks_ok n p k :
  0 < p -> 0 <= k -> k + Z.of_nat n = d - (p - 1) ->
  ∃ r, contig_masks n c v count ((2 ^ p - 1) * 2 ^ k) (2 ^ k) = Ok r ∧ alloc_result p r.
Proof.
  intros Hp. revert k. induction n as [|n IH]; intros k Hk Hn; cbn [contig_masks]; [by exists None|].
  destruct (contig_mask_range p k Hp Hk ltac:(lia)) as (Hm & Hmb & HNb). destruct (N_pos p k Hp Hk) as [HN Hb].
  assert ((2 ^ p - 1) * 2 ^ k < 2 ^ d) as Hmd.
  { assert (2 ^ p * 2 ^ k <= 2 ^ d) by (rewrite <- Z.pow_add_r by lia; apply Z.pow_le_mono_r; lia). lia. }
  assert (2 ^ d < 2 ^ 30) as Hd30 by (apply Z.pow_lt_mono_r; lia).
  rewrite Hentries, (u32_small (2 ^ d - _)) by lia. remember (2 ^ d - (2 ^ p - 1) * 2 ^ k) as entries eqn:Eent. assert (0 <= entries) as He0 by lia.
  assert (entries + (2 ^ p - 1) * 2 ^ k <= Z.of_nat (length (cells c))) as He1 by lia. assert (entries + (2 ^ p - 1) * 2 ^ k < 2 ^ 30) as He2 by lia.
  destruct (scan_contig_ok p k Hp Hk ltac:(lia) c entries count He1 He2 (S (length (cells c))) 0 []) as (r & -> & Hr);
    [by split|lia|lia|done|by split; constructor|].
  cbn [mbind result_bind]. destruct r as [found|].
  - destruct (Hr found eq_refl) as [Hlf (q & Hg)]. pose proof Hg as [_ Hgb]. rewrite Forall_forall in Hgb.
    assert (∀ b, b ∈ rev found -> 0 <= b < entries) as Hrange.
    { intros b Hb'. rewrite <- Permutation_rev in Hb'. destruct (Hgb b Hb') as ((? & _) & ? & _). lia. }
    destruct (take_runs_ok p k Hp Hk ltac:(lia) c (rev found)) as (l & -> & Hl).
    { intros b Hb'. split; [by apply Hrange|]. intros i Hi. eapply (contig_in p k) with (entries := entries); solve [lia|by apply Hrange|apply Hrange; by rewrite <- Permutation_rev|done]. }
    { intros b Hb'. specialize (Hrange b Hb'). lia. }
    cbn [mbind result_bind]. eexists. split; [done|]. intros c' l' mask' [= <- <- <-]. rewrite <- Hlf.
    eapply allocated_intro; [lia|apply contig_popcount; lia|exact Hg| |done|exact Hl].
    intros b s Hb' (i & Hi & ->)%contig_submask; [|lia..]. rewrite (Z.mul_comm i). eapply (contig_in p k) with (entries := entries); solve [lia|by apply Hrange|apply Hrange; by rewrite <- Permutation_rev|done].
  - rewrite !u32_small by lia.
    replace (2 ^ k + 2 ^ k) with (2 ^ (k + 1)) by (rewrite Z.pow_add_r; lia).
    replace ((2 ^ p - 1) * 2 ^ k + (2 ^ p - 1) * 2 ^ k) with ((2 ^ p - 1) * 2 ^ (k + 1)) by (rewrite Z.pow_add_r by lia; lia). apply IH; lia.
Qed.

Lemma any_masks_ok n planes mask :
  0 < mask -> mask + Z.of_nat n <= 2 ^ d ->
  ∃ r, any_masks n c v count planes mask = Ok r ∧ alloc_result planes r.
Proof.
  revert mask. assert (2 ^ d < 2 ^ 30) as Hd30 by (apply Z.pow_lt_mono_r; lia).
  induction n as [|n IH]; intros mask Hm Hn; cbn [any_masks]; [by exists None|]. rewrite (u32_small (mask + 1)) by lia.
  destruct (Z.eqb_spec (count_ones mask) planes) as [Hones|Hones]; cbn [negb]; [|apply IH; lia].
  rewrite count_ones_spec in Hones by lia. rewrite Hentries, (u32_small (2 ^ d - mask)) by lia. remember (2 ^ d - mask) as entries eqn:Eent.
  assert (entries + mask <= Z.of_nat (length (cells c))) as He1 by lia. assert (entries + mask < 2 ^ 31) as He2 by lia.
  destruct (scan_bits_ok c mask entries count ltac:(lia) He1 He2 (S (length (cells c))) 0 [])
    as (r & -> & Hr); [done|lia|done|by split; constructor|].
  cbn [mbind result_bind]. destruct r as [found|]; [|apply IH; lia].
  destruct (Hr found eq_refl) as [Hlf (q & Hg)]. pose proof Hg as [_ Hgb]. rewrite Forall_forall in Hgb.
  assert (∀ b s, b ∈ found -> submask s mask -> in_table c (b + s) ∧ b + s < 2 ^ 32) as Hin.
  { intros b s Hb Hs. destruct (Hgb b Hb) as ((? & _) & ? & _). eapply (combos_in c mask entries); solve [lia|done]. }
  destruct (take_all_bits_ok c mask (rev found)) as (l & -> & Hl); [lia|intros b s Hb Hs; apply Hin; [by rewrite Permutation_rev|done]|].
  cbn [mbind result_bind]. eexists. split; [done|]. intros c' l' mask' [= <- <- <-]. rewrite <- Hlf.
  eapply allocated_intro; [lia|done|exact Hg| |done|exact Hl]. intros b s Hb Hs. by apply Hin.
Qed.

End AllocCP.

(** *** Pixels only *)

Definition zero_cells (es : list Entry) : Z := sum_of (λ e, if refcnt e =? 0 then 1 else 0) es.

Lemma zero_cells_cons e es : zero_cells (e :: es) = (if refcnt e =? 0 then 1 else 0) + zero_cells es.
Proof. done. Qed.

Lemma zero_cells_le es : 0 <= zero_cells es <= Z.of_nat (length es).
Proof. induction es as [|e es IH]; [done|]. rewrite zero_cells_cons. cbn [length]. destruct (refcnt e =? 0); lia. Qed.

Lemma zero_cells_all es : Z.of_nat (length es) <= zero_cells es -> Forall (λ e, refcnt e = 0) es.
Proof.
  induction es as [|e es IH]; intros H; [constructor|]. rewrite zero_cells_cons in H. cbn [length] in H. pose proof (zero_cells_le es).
  destruct (Z.eqb_spec (refcnt e) 0); [|lia]. constructor; [done|]. apply IH. lia.
Qed.

Lemma skip_used_ok fuel c p :
  0 <= p -> 1 <= zero_cells (drop (Z.to_nat p) (cells c)) -> Z.of_nat (length (cells c)) - p < Z.of_nat fuel ->
  ∃ q, skip_used fuel c p = Ok q ∧ p <= q ∧ in_table c q ∧ free_at c q ∧
    zero_cells (drop (Z.to_nat q) (cells c)) = zero_cells (drop (Z.to_nat p) (cells c)).
Proof.
  revert p. induction fuel as [|fuel IH]; intros p Hp Hz Hf.
  { pose proof (zero_cells_le (drop (Z.to_nat p) (cells c))) as H. rewrite length_drop in H. lia. }
  cbn [skip_used]. assert (in_table c p) as Hin.
  { pose proof (zero_cells_le (drop (Z.to_nat p) (cells c))) as H. rewrite length_drop in H. unfold in_table. lia. }
  destruct (get_cell_in c p Hin) as (e & -> & He). cbn [mbind result_bind]. pose proof (drop_S _ _ _ He) as Ed.
  destruct (Z.eqb_spec (refcnt e) 0) as [H0|H0].
  - exists p. split; [done|]. split; [lia|]. split; [done|]. split; [by exists e|done].
  - rewrite Ed, zero_cells_cons, (proj2 (Z.eqb_neq _ _) H0) in Hz |- *. replace (S (Z.to_nat p)) with (Z.to_nat (p + 1)) in * by lia.
    destruct (IH (p + 1)) as (q & -> & Hq & ? & ? & E); [lia|lia|lia|]. exists q. split; [done|]. split; [lia|]. split; [done|]. split; [done|]. lia.
Qed.

Lemma mark_drop c q : in_table c q -> free_at c q ->
  zero_cells (drop (Z.to_nat q) (cells (mark_private c q))) = zero_cells (drop (Z.to_nat q) (cells c)) - 1.
Proof.
  intros Hin (e & He & H0). unfold mark_private. rewrite He. cbn [cells set_cell].
  rewrite (drop_S _ _ _ He), (drop_S (<[Z.to_nat q := _]> (cells c)) (mkEntry (co e) AllocPrivate false)) by (apply list_lookup_insert_eq; by eapply lookup_lt_Some).
  rewrite drop_insert_lt, !zero_cells_cons, H0 by lia. cbn. lia.
Qed.

Lemma free_at_mark c q p : 0 <= p -> 0 <= q -> free_at (mark_private c q) p -> free_at c p ∧ p ≠ q.
Proof.
  intros Hp Hq (e & He & H0). unfold mark_private in He. destruct (cells c !! Z.to_nat q) as [e'|] eqn:E.
  - cbn [cells set_cell] in He. destruct (decide (p = q)) as [->|Hne].
    + rewrite list_lookup_insert_eq in He by (by eapply lookup_lt_Some). injection He as <-. done.
    + rewrite list_lookup_insert_ne in He by lia. split; [by exists e|done].
  - split; [by exists e|]. intros ->. congruence.
Qed.

Lemma take_cells_ok count c p :
  0 <= p -> Z.of_nat count <= zero_cells (drop (Z.to_nat p) (cells c)) ->
  ∃ l, take_cells count c p = Ok (mark_list c l, l) ∧ length l = count ∧ NoDup l ∧ Forall (λ q, p <= q ∧ in_table c q ∧ free_at c q) l.
Proof.
  revert c p. induction count as [|count IH]; intros c p Hp Hz; cbn [take_cells].
  { exists []. split; [done|]. split; [done|]. split; constructor. }
  destruct (skip_used_ok (S (length (cells c))) c p Hp ltac:(lia) ltac:(lia)) as (q & -> & Hq & Hin & Hf & E). cbn [mbind result_bind].
  rewrite take_private_ok by done. cbn [mbind result_bind].
  destruct (IH (mark_private c q) q) as (l & -> & Hlen & Hnd & Hl); [lia|rewrite mark_drop by done; lia|]. cbn [mbind result_bind]. exists (q :: l).
  assert (∀ x, x ∈ l -> q <= x ∧ in_table c x ∧ free_at c x ∧ x ≠ q) as Hall.
  { intros x Hx. rewrite Forall_forall in Hl. destruct (Hl x Hx) as (? & Hi & Hfx). rewrite in_table_mark in Hi. destruct (free_at_mark c q x) as [? ?]; [lia|lia|done|]. split; [done|]. split; [done|]. by split. }
  split; [done|]. split; [by rewrite <- Hlen|]. split.
  - constructor; [|done]. intros Hx. by apply (Hall q Hx).
  - constructor; [done|]. apply Forall_forall. intros x Hx. destruct (Hall x Hx) as (? & ? & ? & _). split; [lia|done].
Qed.

Lemma submasks_zero : submasks 32 0 = [0] ∧ popcount 32 0 = 0%nat.
Proof. split; vm_compute; reflexivity. Qed.

Lemma all_combos_zero l : all_combos 0 l = l.
Proof.
  induction l as [|p l IH]; [done|]. change (all_combos 0 (p :: l)) with (combos 0 p ++ all_combos 0 l). rewrite IH. unfold combos.
  rewrite (proj1 submasks_zero). cbn [fmap list_fmap app]. by rewrite Z.add_0_r.
Qed.

(** ** All of [AllocCP] *)

Lemma AllocCP_ok v c count d planes contig :
  0 <= d < 30 -> nplanes v = d -> ColormapEntries v = 2 ^ d -> Z.of_nat (length (cells c)) = 2 ^ d -> (0 < count)%nat -> 0 <= planes ->
  Z.of_nat count * 2 ^ planes <= zero_cells (cells c) ->
  ∃ r, AllocCP v c count planes contig = Ok r ∧ alloc_result c count planes r.
Proof.
  intros Hd Hv Hent Hlen Hcount Hpl Hfree. unfold AllocCP. rewrite Hv. destruct (Z.eqb_spec planes 0) as [->|Hne].
  { destruct (take_cells_ok count c 0) as (l & -> & Hll & Hnd & Hl); [lia|change (drop (Z.to_nat 0) (cells c)) with (cells c); lia|].
    cbn [mbind result_bind]. eexists. split; [done|]. intros c' l' mask' [= <- <- <-]. split; [done|]. split; [by rewrite (proj2 submasks_zero)|].
    exists l. rewrite take_ge by lia. split; [done|]. split; [done|]. split; [done|]. split; [eapply Forall_impl; [exact Hl|]; tauto|].
    split; [by rewrite all_combos_zero|]. split; [done|]. eapply Forall_impl; [exact Hl|]. intros q (? & _). split; [lia|apply Z.land_0_r]. }
  destruct (Z.ltb_spec d planes) as [|Hle]; [by exists None|].
  assert (2 ^ planes <= 2 ^ d) as Hpd by (apply Z.pow_le_mono_r; lia). assert (2 ^ d < 2 ^ 30) as Hd30 by (apply Z.pow_lt_mono_r; lia).
  assert (1 < 2 ^ planes) as Hp1 by (change 1 with (2 ^ 0); apply Z.pow_lt_mono_r; lia).
  rewrite (Z.shiftl_1_l planes). rewrite (u32_small (2 ^ planes - 1)) by lia.
  pose proof (contig_masks_ok v c count d Hd Hent ltac:(lia) Hcount (Z.to_nat (d - (planes - 1))) planes 0 ltac:(lia) ltac:(lia) ltac:(lia)) as (r & Er & Hr).
  change (2 ^ 0) with 1 in Er. rewrite Z.mul_1_r in Er. rewrite Er. cbn [mbind result_bind]. destruct r as [r|]; [by exists (Some r)|].
  destruct (_ || _) eqn:Eb; [by exists None|]. destruct (Z.ltb_spec (d - planes - 1) 0) as [Hneg|Hpos].
  { exfalso. assert (planes = d) as -> by lia. assert (count = 1%nat) as -> by (pose proof (zero_cells_le (cells c)); nia).
    replace (Z.to_nat (d - (d - 1))) with 1%nat in Er by lia. cbn [contig_masks] in Er. rewrite Hent, (u32_small (2 ^ d - (2 ^ d - 1))) in Er by lia.
    assert (∀ i, 0 <= i < 2 ^ d -> free_at c (1 * i)) as Hall.
    { pose proof (zero_cells_all (cells c) ltac:(lia)) as Hz. rewrite Forall_lookup in Hz. intros i Hi.
      destruct (get_cell_in c (1 * i)) as (e & _ & He); [unfold in_table; lia|]. exists e. eauto. }
    pose proof (scan_contig_first d 0 ltac:(lia) ltac:(lia) ltac:(lia) c (2 ^ d - (2 ^ d - 1)) 1) as Hs. change (2 ^ 0) with 1 in Hs. rewrite Z.mul_1_r in Hs.
    rewrite Hs in Er; [|lia..|done]. cbn [mbind result_bind rev app] in Er.
    destruct (take_runs_ok d 0 ltac:(lia) ltac:(lia) ltac:(lia) c [0]) as (l & El & _).
    { intros b ->%list_elem_of_singleton. split; [lia|]. intros i Hi. change (2 ^ 0) with 1. unfold in_table. lia. }
    { intros b ->%list_elem_of_singleton. change (2 ^ 0) with 1. lia. }
    change (2 ^ 0) with 1 in El. rewrite Z.mul_1_r in El. rewrite El in Er. done. }
  assert (2 ^ (d - planes + 1) = 4 * 2 ^ (d - planes - 1)) as E4 by (change 4 with (2 ^ 2); rewrite <- Z.pow_add_r by lia; f_equal; lia).
  assert (2 ^ (planes - 1) * 2 ^ (d - planes + 1) = 2 ^ d) as Ed by (rewrite <- Z.pow_add_r by lia; f_equal; lia).
  assert (0 < 2 ^ (d - planes - 1)) by (apply Z.pow_pos_nonneg; lia). assert (0 < 2 ^ (planes - 1)) by (apply Z.pow_pos_nonneg; lia).
  assert (4 * 2 ^ (planes - 1) <= 2 ^ d) as Hst.
  { change 4 with (2 ^ 2). rewrite <- Z.pow_add_r by lia. apply Z.pow_le_mono_r; lia. }
  rewrite !Z.shiftl_mul_pow2 by lia. rewrite !Z.mul_1_l. rewrite (u32_small (3 * _ - 1)) by lia. rewrite u32_small by nia.
  apply any_masks_ok with (d := d); [done|done|lia|done|lia|]. nia.
Qed.
