(* ===== verification/ColorCellsReq.v ===== *)
(** * ColorCellsReq: private cells for a client (dix/colormap.c)

    [AllocColorCells] on a map with one table gives cells that were free, keeps the counts of
    the map, and splits the mask into its bits. *)

From S2P Require Import Prelude Atom ResourceDB PixelBits ColorCells ColorAccounts ColorFind ColorAlloc ColorPlanes.

#[local] Set Warnings "-clear-no-such-hyp".

#[local] Opaque submasks popcount bits_fuel.

(** ** Cells become private *)

Lemma private_shared e : shared_cell (mkEntry (co e) AllocPrivate false).
Proof. split; [done|]. intros H. unfold AllocPrivate in H. cbn in H. lia. Qed.

Lemma mark_ok m p n l w :
  chan_inv n (red m) l -> 0 <= p < n -> free_at (red m) p -> sharing m w ->
  let c := mkChan (cells (mark_private (red m) p)) (nfree (red m) - 1) (clientPixels (red m)) in
  chan_inv n c (p :: l) ∧ sharing (set_chan m PSEUDOMAP c) w.
Proof.
  intros Hi Hp (e & He & H0) Hs. cbv zeta. pose proof (sharing_cell m PSEUDOMAP w _ e Hs He) as Hc.
  destruct (chan_inv_cell _ _ _ _ Hi Hp) as (e1 & _ & He1 & _ & Hr & Ho). rewrite He in He1. injection He1 as <-.
  assert (fShared e = false) as Hns.
  { destruct (fShared e) eqn:Ef; [|done]. destruct Hc as [Hc _]. destruct (Hc Ef) as [E _]. unfold AllocPrivate in E. lia. }
  assert (room e = 0 ∧ vacant e = true) as [Er Ev] by (unfold room, vacant; by rewrite H0). unfold mark_private. rewrite He. cbn [cells set_cell].
  assert (∀ q, q ≠ p -> occ q (p :: l) = occ q l) as Hoth by (intros q Hq; cbn [occ]; by rewrite (proj2 (Z.eqb_neq p q)) by congruence).
  split.
  - eapply chan_inv_set; [exact Hi|done|exact He|done|exact Hoth| |].
    + cbn [occ]. rewrite Z.eqb_refl. change (room (mkEntry (co e) AllocPrivate false)) with 1. lia.
    + rewrite Ev. change (vacant (mkEntry (co e) AllocPrivate false)) with false. cbn. lia.
  - eapply (sharing_set m PSEUDOMAP); [exact He|exact Hs|apply private_shared|done|]. intros f Hf _. eapply store_inv_ext; [|exact Hf].
    intros q. unfold own. rewrite Hns. cbn. lia.
Qed.

Lemma chan_inv_cells n cs f cp c l : chan_inv n (mkChan cs f cp) l -> cells c = cs -> nfree c = f -> chan_inv n c l.
Proof. intros H <- <-. by destruct c. Qed.

Lemma mark_list_ok k : ∀ m n l w,
  chan_inv n (red m) l -> Forall (λ p, 0 <= p < n) k -> Forall (free_at (red m)) k -> NoDup k -> sharing m w ->
  let c := mkChan (cells (mark_list (red m) k)) (nfree (red m) - Z.of_nat (length k)) (clientPixels (red m)) in
  chan_inv n c (k ++ l) ∧ sharing (set_chan m PSEUDOMAP c) w.
Proof.
  induction k as [|p k IH]; intros m n l w Hi Hr Hf Hn Hs; cbv zeta.
  { cbn [mark_list foldl length app]. rewrite Z.sub_0_r. change (mkChan (cells (red m)) (nfree (red m)) (clientPixels (red m))) with (mkChan (cells (red m)) (nfree (red m)) (clientPixels (red m))).
    destruct m as [? ? ? ? [? ? ?] ? ?]. by split. }
  apply Forall_cons in Hr as [Hp Hr]. apply Forall_cons in Hf as [Hfp Hf]. apply NoDup_cons in Hn as [Hnp Hn].
  destruct (mark_ok m p n l w Hi Hp Hfp Hs) as [Hi1 Hs1]. set (c1 := mkChan (cells (mark_private (red m) p)) (nfree (red m) - 1) (clientPixels (red m))) in *.
  destruct (IH (set_chan m PSEUDOMAP c1) n (p :: l) w) as [Hi2 Hs2]; [done|done| |done|done|].
  - apply Forall_forall. intros q Hq. rewrite Forall_forall in Hf, Hr. destruct (Hf q Hq) as (e & He & H0). exists e. split; [|done].
    cbn [set_chan red c1 cells]. destruct Hfp as (e' & He' & _). unfold mark_private. rewrite He'. cbn [cells set_cell].
    assert (q ≠ p) by congruence. specialize (Hr q Hq). rewrite list_lookup_insert_ne by lia. done.
  - cbn [red set_chan] in Hi2, Hs2. assert (cells (mark_list c1 k) = cells (mark_list (mark_private (red m) p) k)) as Ec.
    { assert (∀ a b, cells a = cells b -> cells (mark_list a k) = cells (mark_list b k)) as H.
      { clear. induction k as [|x k IH]; intros a b E; [done|]. cbn. apply IH. unfold mark_private. rewrite E. destruct (cells b !! Z.to_nat x); [|exact E]. cbn. by rewrite E. }
      by apply H. }
    rewrite Ec in Hi2, Hs2. cbn [mark_list foldl length]. fold (mark_list (mark_private (red m) p) k).
    replace (nfree (red m) - Z.of_nat (S (length k))) with (nfree c1 - Z.of_nat (length k)) by (unfold c1; cbn [nfree]; lia). split.
    + eapply chan_inv_ext; [|exact Hi2]. intros q _. cbn [app]. rewrite !occ_app. cbn [occ]. rewrite occ_app. lia.
    + exact Hs2.
Qed.

(** ** [AllocPseudo] *)

(** A map with one table, for all combinations of its planes and without temporary cells. *)
Record plain_map (m : ColormapRec) (d : Z) : Prop := {
  pl_depth : 0 <= d <= 14;
  pl_class : has_channels (cm_class m) = false;
  pl_planes : nplanes (pVisual m) = d;
  pl_entries : ColormapEntries (pVisual m) = 2 ^ d;
  pl_cells : Z.of_nat (length (cells (red m))) = 2 ^ d;
  pl_temp : Forall (λ e, refcnt e ≠ AllocTemporary) (cells (red m))
}.

(** The number of cells [c << r] is compared as it should be, although it may not fit in an [int]. *)
Lemma int_shift_ok c r :
  0 < c < 2 ^ 16 -> 0 <= r < 32 -> c <= int_shift c r <= 2 ^ 14 -> int_shift c r = c * 2 ^ r ∧ r <= 14.
Proof.
  intros Hc Hr. unfold int_shift, wrap_s. rewrite Z.shiftl_mul_pow2 by lia. cbv zeta.
  destruct (Z.ltb_spec ((c * 2 ^ r) mod 2 ^ 32) (2 ^ (32 - 1))) as [Hlt|Hge].
  2:{ pose proof (Z.mod_pos_bound (c * 2 ^ r) (2 ^ 32) ltac:(lia)). lia. }
  intros [H1 H2]. destruct (Z.le_gt_cases r 14) as [Hle|Hgt].
  - split; [|done]. assert (2 ^ r <= 2 ^ 14) by (apply Z.pow_le_mono_r; lia). assert (0 < 2 ^ r) by (apply Z.pow_pos_nonneg; lia).
    apply Z.mod_small. nia.
  - exfalso. assert (2 ^ 32 = 2 ^ (32 - r) * 2 ^ r) as E by (rewrite <- Z.pow_add_r by lia; f_equal; lia).
    assert (2 ^ 15 <= 2 ^ r) by (apply Z.pow_le_mono_r; lia). assert (0 < 2 ^ (32 - r)) by (apply Z.pow_pos_nonneg; lia).
    rewrite E, Z.mul_mod_distr_r in H1, H2 by lia.
    pose proof (Z.mod_pos_bound c (2 ^ (32 - r)) ltac:(lia)). nia.
Qed.

(** What a client is given: [c] pixels and a mask of [r] bits; all combinations are new pixels of the client. *)
Definition given (m m' : ColormapRec) (client c r : Z) (pixels : list Pixel) (mask : Pixel) (pix : list Pixel) : Prop :=
  pixels = take (Z.to_nat c) pix ∧ Z.of_nat (length pixels) = c ∧
  0 <= mask < ColormapEntries (pVisual m) ∧ Z.of_nat (popcount 32 mask) = r ∧
  pix ≡ₚ all_combos mask pixels ∧ Forall (apart mask) pixels ∧ NoDup pix ∧
  Forall (λ p, 0 <= p < ColormapEntries (pVisual m) ∧ free_at (red m) p) pix ∧
  (∀ i e, cells (red m) !! i = Some e ->
     cells (red m') !! i = Some (if decide (Z.of_nat i ∈ pix) then mkEntry (co e) AllocPrivate false else e)) ∧
  ∃ l, clientPixels (red m) !! Z.to_nat client = Some l ∧
       clientPixels (red m') = <[Z.to_nat client := l ++ pix]> (clientPixels (red m)).

Lemma mark_list_lookup k c i e :
  cells c !! i = Some e -> Forall (λ p, 0 <= p) k ->
  cells (mark_list c k) !! i = Some (if decide (Z.of_nat i ∈ k) then mkEntry (co e) AllocPrivate false else e).
Proof.
  revert c e. induction k as [|p k IH]; intros c e He Hk.
  { cbn. rewrite decide_False by apply not_elem_of_nil. done. }
  apply Forall_cons in Hk as [Hp Hk]. cbn [mark_list foldl]. fold (mark_list (mark_private c p) k). destruct (decide (Z.of_nat i = p)) as [<-|Hne].
  - assert (cells (mark_private c (Z.of_nat i)) !! i = Some (mkEntry (co e) AllocPrivate false)) as H1.
    { unfold mark_private. rewrite Nat2Z.id, He. cbn [cells set_cell]. rewrite Nat2Z.id. apply list_lookup_insert_eq. by eapply lookup_lt_Some. }
    rewrite (IH _ _ H1 Hk). rewrite (decide_True (P := Z.of_nat i ∈ Z.of_nat i :: k)) by (by left). by case_decide.
  - assert (cells (mark_private c p) !! i = Some e) as H1.
    { unfold mark_private. destruct (cells c !! Z.to_nat p); [|done]. cbn [cells set_cell]. rewrite list_lookup_insert_ne by lia. done. }
    rewrite (IH _ _ H1 Hk). destruct (decide (Z.of_nat i ∈ k)) as [Hin|Hin].
    + rewrite decide_True by (by right). done.
    + rewrite decide_False; [done|]. intros [?|?]%elem_of_cons; done.
Qed.

Lemma zero_vacant es : Forall (λ e, refcnt e ≠ AllocTemporary) es -> zero_cells es = vacancies es.
Proof.
  induction 1 as [|e es He Hes IH]; [done|]. rewrite zero_cells_cons, IH. unfold vacancies, sum_of. cbn [foldr]. f_equal. unfold vacant.
  by rewrite (proj2 (Z.eqb_neq _ _) He), orb_false_r.
Qed.

Lemma pseudo_chan m d : plain_map m d -> PSEUDOMAP ∈ chans m.
Proof. intros Hpl. unfold chans. rewrite (pl_class _ _ Hpl). by apply list_elem_of_singleton. Qed.

Lemma pseudo_inv m d w :
  map_ok m w -> plain_map m d -> chan_inv (2 ^ d) (red m) (concat (clientPixels (red m))) ∧ nfree (red m) = zero_cells (cells (red m)) ∧ 2 ^ d <= 2 ^ 14.
Proof.
  intros (_ & _ & Ht) Hpl. destruct (Ht _ (pseudo_chan m d Hpl)) as (_ & _ & _ & Hi). cbn [numents get_chan] in Hi. rewrite (pl_entries _ _ Hpl) in Hi.
  split; [done|]. destruct Hi as [_ [_ _ ->]]. pose proof (pl_cells _ _ Hpl). rewrite take_ge by lia.
  split; [symmetry; apply zero_vacant, (pl_temp _ _ Hpl)|]. destruct (pl_depth _ _ Hpl). apply Z.pow_le_mono_r; lia.
Qed.

Section Alloc.
Context (m : ColormapRec) (d client : Z) (w : CmapWorld).
Context (Hm : map_ok m w) (Hpl : plain_map m d) (Hcl : a_client client) (Hmem : all_ok (mem w)).

Lemma AllocPseudo_ok c r contig :
  0 < c < 2 ^ 16 -> 0 <= r ->
  ∃ rc pixels mask pix m' w', AllocPseudo m client c r contig w = Ok (rc, pixels, mask, pix, m', w') ∧
    map_ok m' w' ∧ same_frame m m' ∧ all_ok (mem w') ∧ same_store w w' ∧
    ((rc = BadAlloc ∧ m' = m ∧ pixels = []) ∨ (rc = Success ∧ given m m' client c r pixels mask pix)).
Proof.
  intros Hc Hr. destruct (pseudo_inv m d w Hm Hpl) as (Hi & Hfree & Hd14). destruct (pl_depth _ _ Hpl) as [Hd0 Hd1]. unfold AllocPseudo.
  assert (∀ w', all_ok (mem w') -> same_store w w' -> ∃ rc pixels mask pix m' w'0, Ok (BadAlloc, @nil Pixel, 0, @nil Pixel, m, w') = Ok (rc, pixels, mask, pix, m', w'0) ∧
    map_ok m' w'0 ∧ same_frame m m' ∧ all_ok (mem w'0) ∧ same_store w w'0 ∧
    ((rc = BadAlloc ∧ m' = m ∧ pixels = []) ∨ (rc = Success ∧ given m m' client c r pixels mask pix))) as Hfail.
  { intros w' Hw Hst. exists BadAlloc, [], 0, [], m, w'. split; [done|]. split.
    - destruct Hm as (Hd & Hs & Ht). split; [done|]. split; [|done]. apply (sharing_shared _ w); [apply Hst|done].
    - split; [reflexivity|]. split; [done|]. split; [done|]. by left. }
  destruct (_ || _) eqn:Eb; [by apply Hfail|]. apply orb_false_iff in Eb as [Eb Hge]. apply orb_false_iff in Eb as [Hr32 Hle]. zbool.
  pose proof (zero_cells_le (cells (red m))) as Hz. rewrite (pl_cells _ _ Hpl) in Hz.
  destruct (int_shift_ok c r Hc ltac:(lia) ltac:(lia)) as [Enp Hr14]. rewrite Enp in *.
  destruct (xalloc_ok w Hmem) as (w1 & -> & Hmem1 & Hsh1 & (Q1 & Q2 & Q3 & _) & He1). cbn [negb].
  assert (same_store w w1) as Hst1 by done.
  destruct (AllocCP_ok (pVisual m) (red m) (Z.to_nat c) d r contig) as (got & -> & Hgot);
    [lia|apply Hpl|apply Hpl|apply Hpl|lia|done|rewrite Z2Nat.id by lia; lia|].
  cbn [mbind result_bind]. destruct got as [[[ch pix] mask]|]; [|by apply Hfail].
  destruct (Hgot _ _ _ eq_refl) as (Hmask & Hpop & k & -> & Hperm & Hnd & Hk & Hcomb & Hlen & Hap).
  assert (Forall (λ p, 0 <= p < 2 ^ d) k) as Hkr by (eapply Forall_impl; [exact Hk|]; intros p [Hin _]; unfold in_table in Hin; rewrite (pl_cells _ _ Hpl) in Hin; done).
  assert (Forall (free_at (red m)) k) as Hkf by (eapply Forall_impl; [exact Hk|]; by intros p [_ ?]).
  pose proof Hm as (Hdyn & Hs & Ht). destruct (Ht _ (pseudo_chan m d Hpl)) as (Hn & Hcp & Hrange & _). cbn [get_chan numents] in Hn, Hcp, Hrange. rewrite (pl_entries _ _ Hpl) in Hn, Hrange.
  destruct (mark_list_ok k m (2 ^ d) _ w Hi Hkr Hkf Hnd Hs) as [Hi2 Hs2]. cbv zeta in Hi2, Hs2.
  destruct (get_pixels_ok _ _ Hcp Hcl) as (l & Hg & Hl).
  assert (∀ x, clientPixels (mark_list (red m) x) = clientPixels (red m) ∧ nfree (mark_list (red m) x) = nfree (red m)) as Hsame.
  { assert (∀ x a, clientPixels (mark_list a x) = clientPixels a ∧ nfree (mark_list a x) = nfree a) as H; [|intros x; apply H].
    clear. induction x as [|p x IH]; intros a; [done|]. cbn. destruct (IH (mark_private a p)) as [E1 E2]. fold (mark_list (mark_private a p) x). rewrite E1, E2.
    unfold mark_private. by destruct (cells a !! Z.to_nat p). }
  destruct (Hsame k) as [Ecp Enf]. unfold append_pixels, get_pixels in *. rewrite Ecp, Hg. cbn [mbind result_bind].
  destruct (xalloc_ok w1 Hmem1) as (w2 & -> & Hmem2 & Hsh2 & (Q4 & Q5 & Q6 & _) & He2). cbn [mbind result_bind].
  assert (Z.of_nat (length k) = c * 2 ^ r) as Elen.
  { rewrite Hcomb, all_combos_length, Hlen, Nat2Z.inj_mul, Nat2Z.inj_pow, Hpop, Z2Nat.id by lia. done. }
  set (c' := add_free (set_pixels (mark_list (red m) k) client (l ++ pix)) (- (c * 2 ^ r))).
  assert (same_store w w2) as Hst2 by (split; [congruence|]; split; [congruence|]; split; congruence).
  eexists Success, _, mask, pix, _, w2. split; [done|]. split; [|split; [apply set_chan_frame|]; split; [done|]; split; [done|]].
  - apply (map_ok_set m PSEUDOMAP c' w); [done|by eapply pseudo_chan| |].
    + cbn [numents]. rewrite (pl_entries _ _ Hpl). unfold c', add_free, set_pixels. cbn [cells nfree clientPixels]. rewrite Ecp, Enf.
      replace (nfree (red m) + - (c * 2 ^ r)) with (nfree (red m) - Z.of_nat (length k)) by lia.
      eapply (table_ok_pixels (2 ^ d) (red m) _ _ _ (Z.to_nat client) l); [by split; [|split; [|split]]|done|done| |].
      * eapply chan_inv_ext; [|exact Hi2]. intros q _. rewrite !occ_app, (occ_concat_insert _ _ _ _ _ Hl). cbn [occ].
        assert (occ q pix = occ q k) as -> by (clear - Hperm; induction Hperm; cbn [occ]; lia). lia.
      * apply Forall_app. split; [by eapply (table_ok_client (2 ^ d) (red m))|]. rewrite Forall_forall in Hkr |- *. intros p Hp. apply Hkr. by rewrite <- Hperm.
    + apply (sharing_shared _ w); [congruence|]. pose proof (sharing_pixels _ PSEUDOMAP w (nfree c') (clientPixels c') Hs2) as H. exact H.
  - right. split; [done|]. split; [done|]. split; [rewrite Hlen; lia|]. rewrite (pl_entries _ _ Hpl). split.
    { split; [lia|]. destruct (take (Z.to_nat c) pix) as [|b bs] eqn:Et; [cbn in Hlen; lia|]. apply Forall_cons in Hap as [[Hb _] _].
      assert (b + mask ∈ k) as Hin.
      { rewrite Hcomb. apply elem_of_all_combos. exists b. split; [by left|]. apply elem_of_combos; [done|]. exists mask. split; [apply submask_refl; lia|done]. }
      rewrite Forall_forall in Hkr. specialize (Hkr _ Hin). lia. }
    split; [done|]. split; [etrans; [exact Hperm|exact Hcomb]|]. split; [done|]. split; [by rewrite Hperm|]. split.
    { rewrite Hperm. apply Forall_forall. intros p Hp. rewrite Forall_forall in Hkr, Hkf. split; [by apply Hkr|by apply Hkf]. }
    split; [|exists l; split; [done|]; unfold c'; cbn; by rewrite Ecp].
    intros i e He. assert (Forall (λ p, 0 <= p) k) as Hk0 by (eapply Forall_impl; [exact Hkr|]; by intros ? [? _]).
    change (cells (red (set_chan m PSEUDOMAP c'))) with (cells (mark_list (red m) k)). rewrite (mark_list_lookup k _ i e He Hk0). f_equal.
    destruct (decide (Z.of_nat i ∈ k)) as [H|H]; [rewrite decide_True by (by rewrite Hperm); done|rewrite decide_False; [done|by rewrite Hperm]].
Qed.

End Alloc.

(** ** The mask is split into its bits *)

#[local] Transparent popcount.

Lemma land_pow mask j : 0 <= j -> Z.land mask (2 ^ j) = if Z.testbit mask j then 2 ^ j else 0.
Proof.
  intros Hj. apply Z.bits_inj. intros i. rewrite Z.land_spec, Z.pow2_bits_eqb by done. destruct (Z.eqb_spec j i) as [->|Hne].
  - destruct (Z.testbit mask i) eqn:E; cbn [andb]; [by rewrite Z.pow2_bits_true|by rewrite Z.bits_0].
  - rewrite andb_false_r. destruct (Z.testbit mask j); [|by rewrite Z.bits_0]. rewrite Z.pow2_bits_false by done. done.
Qed.

(** The bits of the mask from [j] on, of 32. *)
Definition bits_left (mask j : Z) : nat := popcount (Z.to_nat (32 - j)) (Z.shiftr mask j).

Lemma bits_left_step mask j : 0 <= j < 32 -> bits_left mask j = ((if Z.testbit mask j then 1 else 0) + bits_left mask (j + 1))%nat.
Proof.
  intros Hj. unfold bits_left. replace (Z.to_nat (32 - j)) with (S (Z.to_nat (32 - (j + 1)))) by lia. cbn [popcount].
  rewrite <- Z.bit0_odd, Z.shiftr_spec, Z.add_0_l by lia. f_equal. f_equal. rewrite Z.div2_spec, Z.shiftr_shiftr by lia. done.
Qed.

Lemma next_bit_ok mask fuel j :
  0 <= j <= 32 -> (1 <= bits_left mask j)%nat -> 32 - j < Z.of_nat fuel ->
  ∃ i, next_bit fuel mask (2 ^ j) = Ok (2 ^ i) ∧ j <= i < 32 ∧ Z.testbit mask i = true ∧ (∀ a, j <= a < i -> Z.testbit mask a = false) ∧
       bits_left mask (i + 1) = (bits_left mask j - 1)%nat.
Proof.
  revert j. induction fuel as [|fuel IH]; intros j Hj Hb Hf; [lia|]. destruct (Z.eq_dec j 32) as [->|Hne]; [by change (bits_left mask 32) with 0%nat in Hb; lia|].
  cbn [next_bit]. rewrite land_pow by lia. rewrite bits_left_step in Hb |- * by lia. assert (0 < 2 ^ j) by (apply Z.pow_pos_nonneg; lia).
  destruct (Z.testbit mask j) eqn:Eb.
  - rewrite (proj2 (Z.eqb_neq (2 ^ j) 0)) by lia. exists j. split; [done|]. split; [lia|]. split; [done|]. split; [intros a Ha; lia|]. lia.
  - rewrite Z.eqb_refl. assert (j < 31) as Hj31.
    { destruct (Z.eq_dec j 31) as [->|]; [|lia]. change (bits_left mask (31 + 1)) with 0%nat in Hb. lia. }
    assert (2 ^ (j + 1) <= 2 ^ 31) as Hp by (apply Z.pow_le_mono_r; lia).
    replace (2 ^ j + 2 ^ j) with (2 ^ (j + 1)) by (rewrite Z.pow_add_r; lia). rewrite u32_small by lia.
    destruct (IH (j + 1)) as (i & -> & Hi & Ht & Hno & El); [lia|lia|lia|]. exists i. split; [done|]. split; [lia|]. split; [done|]. split; [|lia].
    intros a Ha. destruct (Z.eq_dec a j) as [->|]; [done|apply Hno; lia].
Qed.

(** The positions of [n] bits in increasing order. *)
Lemma split_mask_ok mask n j :
  0 <= j <= 32 -> (n <= bits_left mask j)%nat ->
  ∃ ps s, split_mask n mask (u32 (2 ^ j)) = Ok (Z.pow 2 <$> ps, s) ∧ length ps = n ∧
    Forall (λ i, j <= i < 32 ∧ Z.testbit mask i = true) ps ∧ (n = bits_left mask j -> ∀ a, j <= a < 32 -> Z.testbit mask a = true -> a ∈ ps).
Proof.
  revert j. induction n as [|n IH]; intros j Hj Hn; cbn [split_mask].
  { exists [], (u32 (2 ^ j)). split; [done|]. split; [done|]. split; [constructor|]. intros H0 a Ha Ht. exfalso. clear -H0 Ha Ht Hj.
    remember (Z.to_nat (a - j)) as t eqn:Et. revert j H0 Ha Hj Et. induction t as [|t IH]; intros j H0 Ha Hj Et; rewrite bits_left_step in H0 by lia.
    - assert (a = j) as -> by lia. rewrite Ht in H0. lia.
    - apply (IH (j + 1)); lia. }
  assert (j <> 32) as Hne by (intros ->; change (bits_left mask 32) with 0%nat in Hn; lia). assert (2 ^ j <= 2 ^ 31) by (apply Z.pow_le_mono_r; lia).
  assert (0 < 2 ^ j) by (apply Z.pow_pos_nonneg; lia). rewrite (u32_small (2 ^ j)) by lia.
  destruct (next_bit_ok mask 33 j Hj ltac:(lia) ltac:(lia)) as (i & -> & Hi & Ht & Hno & El). cbn [mbind result_bind].
  replace (2 ^ i + 2 ^ i) with (2 ^ (i + 1)) by (rewrite Z.pow_add_r; lia).
  destruct (IH (i + 1)) as (ps & s & -> & Hlen & His & Hall); [lia|lia|]. cbn [mbind result_bind]. exists (i :: ps), s.
  split; [done|]. split; [cbn; lia|]. split.
  - constructor; [by split|]. eapply Forall_impl; [exact His|]. intros x [? ?]. split; [lia|done].
  - intros E a Ha Hta. destruct (Z.lt_trichotomy a i) as [Hlt|[->|Hgt]].
    + rewrite Hno in Hta by lia. done.
    + by left.
    + right. apply Hall; [lia|lia|done].
Qed.

Lemma or_all_bits ps a : 0 <= a -> Forall (λ i, 0 <= i) ps -> Z.testbit (or_all (Z.pow 2 <$> ps)) a = bool_decide (a ∈ ps).
Proof.
  intros Ha. induction 1 as [|i ps Hi His IH]; cbn [fmap list_fmap or_all foldr].
  { rewrite Z.bits_0. symmetry. apply bool_decide_eq_false. apply not_elem_of_nil. }
  unfold or_all in IH. rewrite Z.lor_spec, IH, Z.pow2_bits_eqb by done. destruct (Z.eqb_spec i a) as [->|Hne]; cbn [orb].
  - symmetry. apply bool_decide_eq_true. by left.
  - apply bool_decide_ext. rewrite elem_of_cons. split; [by right|]. intros [?|?]; [congruence|done].
Qed.

(** All the bits of a mask, one by one. *)
Definition single_bits (mask : Pixel) (masks : list Pixel) : Prop :=
  or_all masks = mask ∧ Forall (λ x, ∃ i, 0 <= i < 32 ∧ x = 2 ^ i) masks.

Lemma split_all_ok mask :
  0 <= mask < 2 ^ 32 -> ∃ masks s, split_mask (popcount 32 mask) mask 1 = Ok (masks, s) ∧ length masks = popcount 32 mask ∧ single_bits mask masks.
Proof.
  intros Hm. assert (bits_left mask 0 = popcount 32 mask) as E0 by (unfold bits_left; by rewrite Z.shiftr_0_r).
  destruct (split_mask_ok mask (popcount 32 mask) 0) as (ps & s & E & Hlen & His & Hall); [lia|rewrite E0; done|].
  change (u32 (2 ^ 0)) with 1 in E. exists (Z.pow 2 <$> ps), s. split; [done|]. split; [by rewrite length_fmap|]. split.
  - apply Z.bits_inj. intros a. destruct (Z.lt_ge_cases a 0) as [|Ha]; [by rewrite !Z.testbit_neg_r|].
    rewrite or_all_bits; [|done|eapply Forall_impl; [exact His|]; intros x [? _]; lia]. rewrite Forall_forall in His.
    destruct (Z.testbit mask a) eqn:Et.
    + apply bool_decide_eq_true. apply Hall; [by rewrite E0| |done]. split; [done|]. destruct (Z.lt_ge_cases a 32) as [|H32]; [done|].
      rewrite <- (Z.mod_small mask (2 ^ 32)), Z.mod_pow2_bits_high in Et by lia. done.
    + apply bool_decide_eq_false. intros Hin. destruct (His a Hin) as [_ ?]. congruence.
  - apply Forall_forall. intros x Hx. apply list_elem_of_fmap in Hx as (i & -> & Hi). rewrite Forall_forall in His. exists i. split; [|done].
    destruct (His i Hi). lia.
Qed.

(** ** [AllocColorCells] *)

Section Cells.
Context (COMPOSITE : bool) (m : ColormapRec) (d client : Z) (w : CmapWorld).
Context (Hm : map_ok m w) (Hpl : plain_map m d) (Hcl : a_client client) (Hmem : all_ok (mem w)).

Lemma needs_entry_ok : cm_class m ≠ DirectColor -> ∃ b, needs_entry m client = Ok b.
Proof.
  intros Hne. destruct Hm as (_ & _ & Ht). destruct (Ht _ (pseudo_chan m d Hpl)) as (_ & Hlen & _). destruct (get_pixels_ok _ _ Hlen Hcl) as (l & E & _).
  unfold needs_entry. cbn [get_chan] in E. rewrite E. cbn [mbind result_bind]. rewrite (proj2 (Z.eqb_neq _ _) Hne). cbn [mbind result_bind]. eauto.
Qed.

Lemma map_ok_shared m1 w1 w2 : shared w2 = shared w1 -> map_ok m1 w1 -> map_ok m1 w2.
Proof. intros E (? & Hs & ?). split; [done|]. split; [by apply (sharing_shared _ w1)|done]. Qed.

Lemma given_mask m' c r pixels mask pix : 0 <= r -> given m m' client c r pixels mask pix -> 0 <= mask < 2 ^ 32 ∧ Z.to_nat r = popcount 32 mask.
Proof.
  intros Hr (_ & _ & Hmask & Hpop & _). rewrite (pl_entries _ _ Hpl) in Hmask. destruct (pseudo_inv m d w Hm Hpl) as (_ & _ & Hd). lia.
Qed.

Lemma AllocColorCells_ok c r contig :
  0 < c < 2 ^ 16 -> 0 <= r ->
  ∃ rc pixels masks m' w', AllocColorCells COMPOSITE m client c r contig w = Ok (rc, pixels, masks, m', w') ∧
    map_ok m' w' ∧ same_frame m m' ∧
    ((rc = BadAlloc ∧ m' = m) ∨ (rc = Success ∧ ∃ mask pix, given m m' client c r pixels mask pix ∧ Z.of_nat (length masks) = r ∧ single_bits mask masks)).
Proof.
  intros Hc Hr. assert (cm_class m ≠ DirectColor) as Hne.
  { intros E. pose proof (pl_class _ _ Hpl) as H. by rewrite E in H. }
  unfold AllocColorCells. rewrite (proj1 Hm). cbn [negb]. destruct (needs_entry_ok Hne) as [first ->]. cbn [mbind result_bind].
  assert (∃ w0, (if first then c_alloc w else (true, w)) = (true, w0) ∧ all_ok (mem w0) ∧ shared w0 = shared w) as (w0 & -> & Hmem0 & Hsh0).
  { destruct first; [|by exists w]. destruct (xalloc_ok w Hmem) as (w' & -> & ? & ? & _). by exists w'. }
  cbn [negb]. rewrite (proj2 (Z.eqb_neq _ _) Hne). pose proof (map_ok_shared m w w0 Hsh0 Hm) as Hm0.
  destruct (AllocPseudo_ok m d client w0 Hm0 Hpl Hcl Hmem0 c r contig Hc Hr) as (rc & pixels & mask & pix & m' & w1 & -> & Hm' & F & Hmem1 & _ & Hres).
  cbn [mbind result_bind]. destruct Hres as [(-> & -> & ->)|[-> Hg]].
  { rewrite decide_False by done. cbn [mbind result_bind]. rewrite decide_False by done.
    exists BadAlloc, [], [], m, w1. split; [done|]. split; [done|]. split; [done|]. by left. }
  destruct (given_mask m' c r pixels mask pix Hr Hg) as [Hmask Er]. rewrite decide_True by done. rewrite Er.
  destruct (split_all_ok mask Hmask) as (masks & s & -> & Hlen & Hbits). cbn [mbind result_bind]. rewrite decide_True by done.
  assert (Z.of_nat (length masks) = r) as Elen by lia. destruct first.
  - unfold add_cmapentry. destruct (xalloc_ok w1 Hmem1) as (w2 & -> & _ & Hsh2 & _). cbn [mbind result_bind].
    eexists Success, pixels, masks, m', _. split; [done|]. split; [by apply (map_ok_shared _ w1)|]. split; [done|]. right. split; [done|]. by exists mask, pix.
  - exists Success, pixels, masks, m', w1. split; [done|]. split; [done|]. split; [done|]. right. split; [done|]. by exists mask, pix.
Qed.

End Cells.
