(* ===== verification/ColorShared.v ===== *)
(** * ColorShared: planes with colors that cells share (dix/colormap.c)

    [AllocColorPlanes] splits a mask into planes for red, green and blue, and makes the new
    cells point to one color for every combination of the planes of a component.  The counts
    of these colors are right when there is no plane for red, or some for both of the others. *)

From S2P Require Import Prelude Atom ResourceDB PixelBits ColorCells ColorAccounts ColorFind ColorAlloc ColorPlanes ColorCellsReq.

#[local] Set Warnings "-clear-no-such-hyp".

(** ** Masks in parts *)

Lemma popcount_0 n : popcount n 0 = 0%nat.
Proof. induction n as [|n IH]; [done|]. cbn [popcount]. change (Z.div2 0) with 0. by rewrite IH. Qed.

Lemma div2_bits a b : Z.land a b = 0 -> Z.land (Z.div2 a) (Z.div2 b) = 0 ∧ (Z.odd a && Z.odd b) = false.
Proof.
  intros H. rewrite !Z.div2_spec, <- Z.shiftr_land, H. split; [done|]. by rewrite <- !Z.bit0_odd, <- Z.land_spec, H, Z.bits_0.
Qed.

Lemma popcount_lor n a b : Z.land a b = 0 -> popcount n (Z.lor a b) = (popcount n a + popcount n b)%nat.
Proof.
  revert a b. induction n as [|n IH]; intros a b H; [done|]. cbn [popcount]. destruct (div2_bits a b H) as [H' Ho].
  assert (Z.div2 (Z.lor a b) = Z.lor (Z.div2 a) (Z.div2 b)) as -> by (by rewrite !Z.div2_spec, Z.shiftr_lor). rewrite IH by done.
  assert (Z.odd (Z.lor a b) = Z.odd a || Z.odd b) as -> by (by rewrite <- !Z.bit0_odd, Z.lor_spec). destruct (Z.odd a), (Z.odd b); try done; lia.
Qed.

Lemma popcount_pow n i : 0 <= i < Z.of_nat n -> popcount n (2 ^ i) = 1%nat.
Proof.
  revert i. induction n as [|n IH]; intros i Hi; [lia|]. cbn [popcount]. destruct (Z.eq_dec i 0) as [->|Hne].
  - change (2 ^ 0) with 1. change (Z.div2 1) with 0. by rewrite popcount_0.
  - replace i with (i - 1 + 1) by lia. rewrite Z.pow_add_r, Z.mul_comm by lia. change (2 ^ 1) with 2.
    rewrite Z.odd_mul, Z.div2_div, Z.mul_comm, Z.div_mul by done. cbn [Z.odd andb]. rewrite IH by lia. done.
Qed.

#[local] Opaque submasks popcount bits_fuel.

Lemma or_all_popcount ps : NoDup ps -> Forall (λ i, 0 <= i < 32) ps -> popcount 32 (or_all (Z.pow 2 <$> ps)) = length ps.
Proof.
  induction 1 as [|i ps Hi Hn IH]; intros Hps; [by rewrite popcount_0|]. apply Forall_cons in Hps as [Hi32 Hps].
  cbn [fmap list_fmap or_all foldr]. fold (or_all (Z.pow 2 <$> ps)). rewrite popcount_lor, popcount_pow, IH; [done|done|done|].
  rewrite Z.land_comm, land_pow by lia. rewrite or_all_bits; [|lia|eapply Forall_impl; [exact Hps|]; by intros ? [? _]].
  by rewrite bool_decide_eq_false_2.
Qed.

(** The bits of a mask from [j] to [k]. *)
Definition part (mask j k a : Z) : bool := (j <=? a) && (a <? k) && Z.testbit mask a.

Lemma split_mask_part mask n j :
  0 <= j <= 32 -> (n <= bits_left mask j)%nat ->
  ∃ l k, split_mask n mask (u32 (2 ^ j)) = Ok (l, u32 (2 ^ k)) ∧ j <= k <= 32 ∧ bits_left mask k = (bits_left mask j - n)%nat ∧
    popcount 32 (or_all l) = n ∧ 0 <= or_all l ∧ ∀ a, 0 <= a -> Z.testbit (or_all l) a = part mask j k a.
Proof.
  intros Hj Hn.
  assert (∃ ps k, split_mask n mask (u32 (2 ^ j)) = Ok (Z.pow 2 <$> ps, u32 (2 ^ k)) ∧ j <= k <= 32 ∧ bits_left mask k = (bits_left mask j - n)%nat ∧
    length ps = n ∧ NoDup ps ∧ ∀ a, a ∈ ps <-> j <= a < k ∧ Z.testbit mask a = true) as (ps & k & E & Hk & El & Hlen & Hnd & Hps).
  { revert j Hj Hn. induction n as [|n IH]; intros j Hj Hn; cbn [split_mask].
    { exists [], j. split; [done|]. split; [lia|]. split; [lia|]. split; [done|]. split; [constructor|]. intros a. rewrite elem_of_nil. lia. }
    assert (j <> 32) as Hne by (intros ->; change (bits_left mask 32) with 0%nat in Hn; lia). assert (2 ^ j <= 2 ^ 31) by (apply Z.pow_le_mono_r; lia).
    assert (0 < 2 ^ j) by (apply Z.pow_pos_nonneg; lia). rewrite (u32_small (2 ^ j)) by lia.
    destruct (next_bit_ok mask 33 j Hj ltac:(lia) ltac:(lia)) as (i & -> & Hi & Ht & Hno & El). cbn [mbind result_bind].
    replace (2 ^ i + 2 ^ i) with (2 ^ (i + 1)) by (rewrite Z.pow_add_r; lia).
    destruct (IH (i + 1)) as (ps & k & -> & Hk & El' & Hlen & Hnd & Hps); [lia|lia|]. cbn [mbind result_bind]. exists (i :: ps), k.
    split; [done|]. split; [lia|]. split; [lia|]. split; [cbn; lia|]. split.
    - constructor; [|done]. rewrite Hps. lia.
    - intros a. rewrite elem_of_cons, Hps. split; [intros [->|[? ?]]; (split; [lia|done])|]. intros [Ha Hta].
      destruct (Z.lt_trichotomy a i) as [Hlt|[->|Hgt]]; [rewrite Hno in Hta by lia; done|by left|right; split; [lia|done]]. }
  assert (Forall (λ i, 0 <= i < 32) ps) as Hr by (apply Forall_forall; intros a [? _]%Hps; lia).
  assert (Forall (λ i, 0 <= i) ps) as Hr0 by (eapply Forall_impl; [exact Hr|]; by intros ? [? _]).
  exists (Z.pow 2 <$> ps), k. split; [done|]. split; [done|]. split; [done|]. split; [by rewrite or_all_popcount|]. split.
  - clear -Hr0. induction Hr0 as [|i ps Hi _ IH]; [done|]. cbn [fmap list_fmap or_all foldr]. apply Z.lor_nonneg. split; [|done]. apply Z.pow_nonneg. lia.
  - intros a Ha. rewrite or_all_bits by done. unfold part. destruct (Z.testbit mask a) eqn:Et.
    + rewrite andb_true_r. apply eq_true_iff_eq. rewrite bool_decide_eq_true, andb_true_iff, Z.leb_le, Z.ltb_lt, Hps. split; [by intros [? _]|by intros].
    + rewrite andb_false_r. apply bool_decide_eq_false. rewrite Hps, Et. by intros [_ ?].
Qed.

(** A mask that is split between the three components. *)
Record planes (mask rm gm bm : Pixel) (r g b : nat) : Prop := {
  pn_mask : Z.lor (Z.lor rm gm) bm = mask;
  pn_rg : Z.land rm gm = 0; pn_rb : Z.land rm bm = 0; pn_gb : Z.land gm bm = 0;
  pn_pos : 0 <= rm ∧ 0 <= gm ∧ 0 <= bm;
  pn_r : popcount 32 rm = r; pn_g : popcount 32 gm = g; pn_b : popcount 32 bm = b
}.

Lemma split_three mask r g b :
  0 <= mask < 2 ^ 32 -> popcount 32 mask = (r + g + b)%nat ->
  ∃ lr lg lb s1 s2 s3, split_mask r mask 1 = Ok (lr, s1) ∧ split_mask g mask s1 = Ok (lg, s2) ∧ split_mask b mask s2 = Ok (lb, s3) ∧
    planes mask (or_all lr) (or_all lg) (or_all lb) r g b.
Proof.
  intros Hm Hp. assert (bits_left mask 0 = popcount 32 mask) as E0 by (unfold bits_left; by rewrite Z.shiftr_0_r).
  destruct (split_mask_part mask r 0) as (lr & k1 & E1 & Hk1 & B1 & P1 & N1 & T1); [lia|lia|]. change (u32 (2 ^ 0)) with 1 in E1.
  destruct (split_mask_part mask g k1) as (lg & k2 & E2 & Hk2 & B2 & P2 & N2 & T2); [lia|lia|].
  destruct (split_mask_part mask b k2) as (lb & k3 & E3 & Hk3 & B3 & P3 & N3 & T3); [lia|lia|].
  exists lr, lg, lb, (u32 (2 ^ k1)), (u32 (2 ^ k2)), (u32 (2 ^ k3)). split; [done|]. split; [done|]. split; [done|].
  assert (∀ j k, 0 <= j <= 32 -> (k <= 32 - j) -> 0 <= k -> bits_left mask j = 0%nat -> k < 32 - j -> Z.testbit mask (j + k) = false) as Hnone.
  { intros j k Hj _ Hk Hb Hlt. remember (Z.to_nat k) as t eqn:Et. revert j k Hj Hk Hb Hlt Et. induction t as [|t IH]; intros j k Hj Hk Hb Hlt Et; rewrite bits_left_step in Hb by lia.
    - replace (j + k) with j by lia. destruct (Z.testbit mask j); [lia|done].
    - replace (j + k) with (j + 1 + (k - 1)) by lia. apply IH; lia. }
  assert (∀ j k j' k' a c, (∀ i, 0 <= i -> Z.testbit a i = part mask j k i) -> (∀ i, 0 <= i -> Z.testbit c i = part mask j' k' i) -> k <= j' -> Z.land a c = 0) as Hdis.
  { intros j k j' k' a c Ha Hc Hle. apply Z.bits_inj. intros i. rewrite Z.land_spec, Z.bits_0. destruct (Z.lt_ge_cases i 0) as [|Hi]; [by rewrite !Z.testbit_neg_r|].
    rewrite Ha, Hc by done. unfold part. destruct (Z.testbit mask i); [|by rewrite !andb_false_r]. rewrite !andb_true_r.
    destruct (Z.ltb_spec i k), (Z.leb_spec j' i); rewrite ?andb_false_r, ?andb_false_l; try done. lia. }
  split; [|by eapply (Hdis 0 k1 k1 k2)|by eapply (Hdis 0 k1 k2 k3); [..|lia]|by eapply (Hdis k1 k2 k2 k3)|done..].
  apply Z.bits_inj. intros i. rewrite !Z.lor_spec. destruct (Z.lt_ge_cases i 0) as [|Hi]; [by rewrite !Z.testbit_neg_r|].
  rewrite T1, T2, T3 by done. unfold part. destruct (Z.testbit mask i) eqn:Ei; [|by rewrite !andb_false_r]. rewrite !andb_true_r.
  assert (i < k3) as Hlt.
  { destruct (Z.lt_ge_cases i k3) as [|Hge]; [done|]. exfalso. destruct (Z.lt_ge_cases i 32) as [Hlt|Hge'].
    - replace i with (k3 + (i - k3)) in Ei by lia. rewrite Hnone in Ei by lia. done.
    - rewrite <- (Z.mod_small mask (2 ^ 32)), Z.mod_pow2_bits_high in Ei by lia. done. }
  destruct (Z.leb_spec 0 i), (Z.ltb_spec i k1), (Z.leb_spec k1 i), (Z.ltb_spec i k2), (Z.leb_spec k2 i), (Z.ltb_spec i k3); try done; lia.
Qed.

(** ** One shared color after the other *)

Record call := mkCall { c_ch : channel; c_base : Pixel; c_common : Pixel; c_refs : Z; c_bits : Pixel }.

(** The cells that a call points to its color. *)
Definition c_sel (k : call) (x : Pixel) : bool := Z.land x (c_base k) =? Z.lor (c_common k) (c_bits k).

Definition comp (ch : channel) (e : Entry) : option nat :=
  match co e with
  | shco r g b => match ch with GREENMAP => g | BLUEMAP => b | _ => r end
  | local_color _ => None
  end.

Definition point_cells (ch : channel) (p : nat) (sel : Pixel -> bool) (pix : list Pixel) (cs : list Entry) : list Entry :=
  imap (λ i e, if bool_decide (Z.of_nat i ∈ pix) && sel (Z.of_nat i) then point_to ch p e else e) cs.

Lemma point_to_twice ch p e : point_to ch p (point_to ch p e) = point_to ch p e.
Proof. destruct e as [[c|r g b] n f], ch; done. Qed.

Lemma point_to_refcnt ch p e : refcnt (point_to ch p e) = refcnt e.
Proof. destruct e as [[c|r g b] n f], ch; done. Qed.

Lemma point_to_comp a ch p e :
  a ≠ PSEUDOMAP -> ch ≠ PSEUDOMAP -> comp ch (point_to a p e) = if decide (a = ch) then Some p else comp ch e.
Proof. intros Ha Hc. destruct e as [[c|r g b] n f], a, ch; done. Qed.

Lemma point_to_shared a p e : fShared (point_to a p e) = match a with GREENMAP | BLUEMAP => fShared e | _ => true end.
Proof. destruct e as [[c|r g b] n f], a; done. Qed.

Lemma point_loop_ok ch p (sel : Pixel -> bool) pix : ∀ cs n cp,
  Forall (λ x, 0 <= x < Z.of_nat (length cs)) pix ->
  foldM (λ x c, if sel x then e ← get_cell c x; Ok (set_cell c x (point_to ch p e)) else Ok c) pix (mkChan cs n cp) =
    Ok (mkChan (point_cells ch p sel pix cs) n cp).
Proof.
  induction pix as [|x pix IH]; intros cs n cp Hr; cbn [foldM].
  { f_equal. f_equal. apply list_eq. intros i. unfold point_cells. rewrite list_lookup_imap. by destruct (cs !! i). }
  apply Forall_cons in Hr as [Hx Hr].
  assert (∀ cs' : list Entry, length cs' = length cs -> Forall (λ x, 0 <= x < Z.of_nat (length cs')) pix) as Hr' by (intros cs' E; by rewrite E).
  destruct (sel x) eqn:Es.
  - destruct (lookup_lt_is_Some_2 cs (Z.to_nat x)) as [e He]; [lia|]. unfold get_cell. cbn [cells]. rewrite (proj2 (Z.ltb_ge _ _) (proj1 Hx)), He.
    cbn [of_option mbind result_bind]. unfold set_cell. cbn [cells nfree clientPixels]. rewrite IH by (apply Hr'; by rewrite length_insert). f_equal. f_equal.
    apply list_eq. intros i. unfold point_cells. rewrite !list_lookup_imap. destruct (decide (i = Z.to_nat x)) as [->|Hne].
    + rewrite list_lookup_insert_eq by (eapply lookup_lt_Some; eauto). rewrite He. cbn [fmap option_fmap option_map]. rewrite Z2Nat.id, Es by lia.
      rewrite (bool_decide_eq_true_2 (x ∈ x :: pix)) by (by left). cbn [andb]. destruct (_ && _); [by rewrite point_to_twice|done].
    + rewrite list_lookup_insert_ne by congruence. destruct (cs !! i) as [e'|]; [|done]. cbn [fmap option_fmap option_map]. f_equal.
      rewrite (bool_decide_ext (Z.of_nat i ∈ pix) (Z.of_nat i ∈ x :: pix)); [done|]. rewrite elem_of_cons. split; [by right|]. intros [?|?]; [lia|done].
  - cbn [mbind result_bind]. rewrite IH by done. f_equal. f_equal. apply list_eq. intros i. unfold point_cells. rewrite !list_lookup_imap.
    destruct (cs !! i) as [e'|]; [|done]. cbn [fmap option_fmap option_map]. f_equal. destruct (sel (Z.of_nat i)) eqn:Ei; [|by rewrite !andb_false_r].
    rewrite (bool_decide_ext (Z.of_nat i ∈ pix) (Z.of_nat i ∈ x :: pix)); [done|]. rewrite elem_of_cons. split; [by right|]. intros [<-|?]; [congruence|done].
Qed.

Section Calls.
Context (garbage : nat -> Z) (pix : list Pixel).

Definition share_call (k : call) (s : ColormapRec * CmapWorld) : result (ColormapRec * CmapWorld) :=
  share_bits garbage (c_ch k) pix (c_base k) (c_common k) (c_refs k) (c_bits k) s.

Fixpoint call_cells (calls : list call) (n : nat) (cs : list Entry) : list Entry :=
  match calls with [] => cs | k :: calls => call_cells calls (S n) (point_cells (c_ch k) n (c_sel k) pix cs) end.

Fixpoint call_store (calls : list call) (n : nat) (sh : gmap nat SHAREDCOLOR) : gmap nat SHAREDCOLOR :=
  match calls with [] => sh | k :: calls => call_store calls (S n) (<[n := mkShared (garbage n) (wrap_s 16 (c_refs k))]> sh) end.

Lemma point_cells_length ch p sel cs : length (point_cells ch p sel pix cs) = length cs.
Proof. apply length_imap. Qed.

Lemma share_call_ok k m w :
  Forall (λ x, 0 <= x < Z.of_nat (length (cells (red m)))) pix ->
  share_call k (m, w) =
    Ok (set_chan m PSEUDOMAP (mkChan (point_cells (c_ch k) (next_shared w) (c_sel k) pix (cells (red m))) (nfree (red m)) (clientPixels (red m))),
        set_shared w (<[next_shared w := mkShared (garbage (next_shared w)) (wrap_s 16 (c_refs k))]> (shared w)) (S (next_shared w))).
Proof.
  intros Hr. unfold share_call, share_bits. destruct m as [mv mc mm mf [cs nf cp] mg mb]. cbn [red cells nfree clientPixels] in *.
  pose proof (point_loop_ok (c_ch k) (next_shared w) (c_sel k) pix cs nf cp Hr) as E. unfold c_sel at 1 in E. by rewrite E.
Qed.

Lemma share_calls_ok calls : ∀ m w,
  Forall (λ x, 0 <= x < Z.of_nat (length (cells (red m)))) pix ->
  foldM share_call calls (m, w) =
    Ok (set_chan m PSEUDOMAP (mkChan (call_cells calls (next_shared w) (cells (red m))) (nfree (red m)) (clientPixels (red m))),
        set_shared w (call_store calls (next_shared w) (shared w)) (next_shared w + length calls)).
Proof.
  induction calls as [|k calls IH]; intros m w Hr; cbn [foldM].
  { cbn [call_cells call_store length]. rewrite Nat.add_0_r. destruct m as [? ? ? ? [? ? ?] ? ?], w. done. }
  rewrite share_call_ok by done. cbn [mbind result_bind]. rewrite IH by (cbn [red set_chan cells]; by rewrite point_cells_length).
  f_equal. f_equal. unfold set_shared. cbn [next_shared]. f_equal. cbn [length]. lia.
Qed.

(** *** What the calls do to a cell *)

Fixpoint apply_calls (calls : list call) (n : nat) (x : Pixel) (e : Entry) : Entry :=
  match calls with [] => e | k :: calls => apply_calls calls (S n) x (if c_sel k x then point_to (c_ch k) n e else e) end.

Lemma call_cells_lookup calls : ∀ n cs i e,
  cs !! i = Some e -> call_cells calls n cs !! i = Some (if bool_decide (Z.of_nat i ∈ pix) then apply_calls calls n (Z.of_nat i) e else e).
Proof.
  induction calls as [|k calls IH]; intros n cs i e He; cbn [call_cells apply_calls]; [by case_bool_decide|].
  erewrite IH; [|unfold point_cells; rewrite list_lookup_imap, He; done]. case_bool_decide; done.
Qed.

Lemma call_cells_length calls : ∀ n cs, length (call_cells calls n cs) = length cs.
Proof. induction calls as [|k calls IH]; intros n cs; cbn [call_cells]; [done|]. by rewrite IH, point_cells_length. Qed.

Lemma call_store_old calls : ∀ n sh p, (p < n)%nat -> call_store calls n sh !! p = sh !! p.
Proof.
  induction calls as [|k calls IH]; intros n sh p Hp; cbn [call_store]; [done|]. rewrite IH by lia. by rewrite lookup_insert_ne by lia.
Qed.

Lemma call_store_new calls : ∀ n sh i k, calls !! i = Some k -> call_store calls n sh !! (n + i)%nat = Some (mkShared (garbage (n + i)) (wrap_s 16 (c_refs k))).
Proof.
  induction calls as [|k0 calls IH]; intros n sh i k Hk; [done|]. cbn [call_store]. destruct i as [|i].
  - injection Hk as ->. rewrite Nat.add_0_r, call_store_old by lia. by rewrite lookup_insert_eq.
  - replace (n + S i)%nat with (S n + i)%nat by lia. by apply IH.
Qed.

Lemma call_store_fresh calls : ∀ n sh p, (n + length calls <= p)%nat -> call_store calls n sh !! p = sh !! p.
Proof.
  induction calls as [|k calls IH]; intros n sh p Hp; cbn [call_store length] in *; [done|]. rewrite IH by lia. by rewrite lookup_insert_ne by lia.
Qed.

Lemma apply_refcnt calls : ∀ n x e, refcnt (apply_calls calls n x e) = refcnt e.
Proof.
  induction calls as [|k calls IH]; intros n x e; cbn [apply_calls]; [done|]. rewrite IH. destruct (c_sel k x); [apply point_to_refcnt|done].
Qed.

Lemma apply_other calls : ∀ n x e ch,
  ch ≠ PSEUDOMAP -> Forall (λ k, c_ch k ≠ PSEUDOMAP) calls -> (∀ k, k ∈ calls -> c_ch k = ch -> c_sel k x = false) ->
  comp ch (apply_calls calls n x e) = comp ch e.
Proof.
  induction calls as [|k calls IH]; intros n x e ch Hch Hc H; cbn [apply_calls]; [done|]. apply Forall_cons in Hc as [Hk Hc].
  rewrite IH; [|done|done|intros k' Hk'; apply H; by right]. destruct (c_sel k x) eqn:Es; [|done].
  rewrite point_to_comp by done. rewrite decide_False; [done|]. intros E. rewrite (H k) in Es; [done|by left|done].
Qed.

(** One call and no other selects the cell for a component. *)
Definition the_call (calls : list call) (ch : channel) (x : Pixel) (i : nat) : Prop :=
  (∃ k, calls !! i = Some k ∧ c_ch k = ch ∧ c_sel k x = true) ∧
  ∀ j k, calls !! j = Some k -> c_ch k = ch -> c_sel k x = true -> j = i.

Lemma apply_the_call calls : ∀ n x e ch i,
  ch ≠ PSEUDOMAP -> Forall (λ k, c_ch k ≠ PSEUDOMAP) calls -> the_call calls ch x i -> comp ch (apply_calls calls n x e) = Some (n + i)%nat.
Proof.
  induction calls as [|k calls IH]; intros n x e ch i Hch Hc [(k0 & Hk & Hkc & Hs) Hu]; [done|]. apply Forall_cons in Hc as [Hkp Hc]. cbn [apply_calls].
  destruct i as [|i].
  - injection Hk as ->. rewrite Hs, Nat.add_0_r. rewrite apply_other; [|done|done|].
    + rewrite point_to_comp by done. by rewrite decide_True.
    + intros k' Hk' E. destruct (c_sel k' x) eqn:Es; [|done]. apply list_elem_of_lookup in Hk' as [j Hj].
      by specialize (Hu (S j) k' Hj E Es).
  - replace (n + S i)%nat with (S n + i)%nat by lia. apply IH; [done|done|]. split; [by exists k0|].
    intros j k' Hj E Es. specialize (Hu (S j) k' Hj E Es). lia.
Qed.

Lemma apply_shared calls : ∀ n x e, (fShared e = true ∨ ∃ k, k ∈ calls ∧ c_ch k = REDMAP ∧ c_sel k x = true) -> fShared (apply_calls calls n x e) = true.
Proof.
  induction calls as [|k calls IH]; intros n x e H; cbn [apply_calls].
  { destruct H as [?|(k & H & _)]; [done|]. by apply elem_of_nil in H. }
  apply IH. destruct H as [H|(k' & Hk & E & Es)].
  - left. destruct (c_sel k x); [|done]. rewrite point_to_shared, H. by destruct (c_ch k).
  - apply elem_of_cons in Hk as [->|Hk]; [|right; eauto]. left. by rewrite Es, point_to_shared, E.
Qed.

End Calls.

(** ** The counts of the new colors *)

Lemma sum_pointwise (f : Entry -> Z) (δ : nat -> Z) : ∀ cs cs' s,
  length cs' = length cs -> (∀ i e e', cs !! i = Some e -> cs' !! i = Some e' -> f e' = f e + δ (s + i)%nat) ->
  sum_of f cs' = sum_of f cs + sum_of δ (seq s (length cs)).
Proof.
  induction cs as [|e cs IH]; intros [|e' cs'] s Hl H; try done. unfold sum_of in *. cbn [foldr length seq]. cbn in Hl.
  rewrite (IH cs' (S s)) by (try lia; intros i a b Ha Hb; replace (S s + i)%nat with (s + S i)%nat by lia; by apply (H (S i))).
  rewrite (H 0%nat e e' eq_refl eq_refl), Nat.add_0_r. lia.
Qed.

Lemma sum_filter (P : nat -> Prop) `{HPd : ∀ i, Decision (P i)} l : sum_of (λ i, if decide (P i) then 1 else 0) l = Z.of_nat (length (filter P l)).
Proof.
  induction l as [|i l IH]; [done|]. rewrite filter_cons. unfold sum_of in *. cbn [foldr]. rewrite IH. case_decide; cbn [length]; lia.
Qed.

Lemma filter_all_false (f : Pixel -> bool) l : (∀ x, f x = false) -> filter (λ x, f x = true) l = [].
Proof. intros H. induction l as [|x l IH]; [done|]. rewrite filter_cons, decide_False by (by rewrite H). done. Qed.

(** The sum of what cells add, over the cells of a list. *)
Lemma sum_pix (f : Entry -> Z) (P : Pixel -> Prop) `{HPd : ∀ x, Decision (P x)} cs cs' pix :
  length cs' = length cs -> NoDup pix -> Forall (λ x, 0 <= x < Z.of_nat (length cs)) pix ->
  (∀ i e e', cs !! i = Some e -> cs' !! i = Some e' -> f e' = f e + (if decide (Z.of_nat i ∈ pix ∧ P (Z.of_nat i)) then 1 else 0)) ->
  sum_of f cs' = sum_of f cs + Z.of_nat (length (filter P pix)).
Proof.
  intros Hl Hn Hr H. rewrite (sum_pointwise f (λ i, if decide (Z.of_nat i ∈ pix ∧ P (Z.of_nat i)) then 1 else 0) cs cs' 0 Hl) by done.
  rewrite (sum_filter (λ i, Z.of_nat i ∈ pix ∧ P (Z.of_nat i))). f_equal. f_equal.
  rewrite <- (length_fmap Z.of_nat). apply Permutation_length, NoDup_Permutation.
  - apply NoDup_fmap_2; [intros x y; lia|]. apply NoDup_filter, NoDup_seq.
  - by apply NoDup_filter.
  - intros x. rewrite list_elem_of_fmap, list_elem_of_filter. rewrite Forall_forall in Hr. split.
    + intros (i & -> & Hi). apply list_elem_of_filter in Hi as [[? ?] _]. done.
    + intros [Hp Hx]. exists (Z.to_nat x). pose proof (Hr x Hx). rewrite Z2Nat.id by lia. split; [done|].
      apply list_elem_of_filter. rewrite Z2Nat.id by lia. split; [done|]. apply elem_of_seq. lia.
Qed.

(** No color is in memory at an address that is yet to come. *)
Definition fresh_store (w : CmapWorld) : Prop := ∀ p, (next_shared w <= p)%nat -> shared w !! p = None.

Section Sharing.
Context (garbage : nat -> Z) (m : ColormapRec) (w : CmapWorld) (pix : list Pixel) (calls : list call).
Context (Hs : sharing m w) (Hfresh : fresh_store w) (Hh : has_channels (cm_class m) = false) (Hnd : NoDup pix).
Context (Hpix : ∀ x, x ∈ pix -> 0 <= x ∧ ∃ e, cells (red m) !! Z.to_nat x = Some e ∧ refcnt e = AllocPrivate ∧ fShared e = false).
Context (Hchs : Forall (λ k, c_ch k ≠ PSEUDOMAP) calls).
Context (Hrefs : ∀ k, k ∈ calls -> Z.of_nat (length (filter (λ x, c_sel k x = true) pix)) = c_refs k ∧ c_refs k < 2 ^ 15).
Context (Huniq : ∀ x ch, x ∈ pix -> ch ≠ PSEUDOMAP -> ∃ i, the_call calls ch x i).

Let n := next_shared w.
Let cs' := call_cells pix calls n (cells (red m)).

(** Whether the color [p] is the one of a call that selects the cell. *)
Definition hits (p : nat) (x : Pixel) : bool :=
  bool_decide (n <= p)%nat && match calls !! (p - n)%nat with Some k => c_sel k x | None => false end.

(** The cells that are made are private and point to three colors. *)
Lemma shared_cell_made x e :
  x ∈ pix -> cells (red m) !! Z.to_nat x = Some e ->
  ∃ r g b, apply_calls calls n x e = mkEntry (shco (Some (n + r)%nat) (Some (n + g)%nat) (Some (n + b)%nat)) AllocPrivate true ∧
    the_call calls REDMAP x r ∧ the_call calls GREENMAP x g ∧ the_call calls BLUEMAP x b.
Proof.
  intros Hx He. destruct (Hpix x Hx) as (_ & e0 & He0 & Hr & _). rewrite He in He0. injection He0 as <-.
  destruct (Huniq x REDMAP Hx ltac:(done)) as [r Cr]. destruct (Huniq x GREENMAP Hx ltac:(done)) as [g Cg]. destruct (Huniq x BLUEMAP Hx ltac:(done)) as [b Cb].
  exists r, g, b. split; [|done].
  pose proof (apply_the_call calls n x e REDMAP r ltac:(done) Hchs Cr) as Er. pose proof (apply_the_call calls n x e GREENMAP g ltac:(done) Hchs Cg) as Eg.
  pose proof (apply_the_call calls n x e BLUEMAP b ltac:(done) Hchs Cb) as Eb. pose proof (apply_refcnt calls n x e) as En.
  assert (fShared (apply_calls calls n x e) = true) as Ef.
  { apply apply_shared. right. destruct Cr as [(k & Hk & ? & ?) _]. exists k. split; [by eapply list_elem_of_lookup_2|done]. }
  destruct (apply_calls calls n x e) as [[c|r' g' b'] nn ff]; cbn [comp co refcnt fShared] in *; [done|]. congruence.
Qed.

Lemma the_call_points p x ch i : the_call calls ch x i ->
  points p (Some (n + i)%nat) = if hits p x && bool_decide (c_ch <$> calls !! (p - n)%nat = Some ch) then 1 else 0.
Proof.
  intros [(k & Hk & Ec & Es) Hu]. unfold points, hits. case_decide as Hp.
  - injection Hp as <-. rewrite bool_decide_eq_true_2 by lia. replace (n + i - n)%nat with i by lia. rewrite Hk, Es. cbn [andb].
    cbn [fmap option_fmap option_map]. by rewrite Ec, bool_decide_eq_true_2.
  - destruct (bool_decide (n ≤ p)%nat) eqn:En; [|done]. apply bool_decide_eq_true in En. cbn [andb].
    destruct (calls !! (p - n)%nat) as [k'|] eqn:Ek; [|done]. destruct (c_sel k' x) eqn:Es'; [|done]. cbn [andb].
    cbn [fmap option_fmap option_map]. rewrite bool_decide_eq_false_2; [done|]. intros [= Ec']. specialize (Hu _ _ Ek Ec' Es'). apply Hp. f_equal. lia.
Qed.

Lemma own_made p x e : x ∈ pix -> cells (red m) !! Z.to_nat x = Some e -> own p (apply_calls calls n x e) = if hits p x then 1 else 0.
Proof.
  intros Hx He. destruct (shared_cell_made x e Hx He) as (r & g & b & -> & Cr & Cg & Cb). unfold own. cbn [fShared co].
  rewrite (the_call_points p x REDMAP r Cr), (the_call_points p x GREENMAP g Cg), (the_call_points p x BLUEMAP b Cb).
  destruct (hits p x) eqn:Eh; [|done]. cbn [andb]. unfold hits in Eh. apply andb_true_iff in Eh as [_ Eh].
  destruct (calls !! (p - n)%nat) as [k|] eqn:Ek; [|done]. pose proof Hchs as Hc. rewrite Forall_lookup in Hc. specialize (Hc _ _ Ek).
  cbn [fmap option_fmap option_map]. by destruct (c_ch k).
Qed.

Lemma cells_made i e e' :
  cells (red m) !! i = Some e -> cs' !! i = Some e' -> e' = if bool_decide (Z.of_nat i ∈ pix) then apply_calls calls n (Z.of_nat i) e else e.
Proof. intros He He'. unfold cs' in He'. rewrite (call_cells_lookup pix calls n _ i e He) in He'. by injection He' as <-. Qed.

Lemma refs_made p :
  sum_of (own p) cs' = sum_of (own p) (cells (red m)) + Z.of_nat (length (filter (λ x, hits p x = true) pix)).
Proof.
  apply sum_pix; [apply call_cells_length|done| |].
  - apply Forall_forall. intros x Hx. destruct (Hpix x Hx) as (H0 & e & He & _). apply lookup_lt_Some in He. lia.
  - intros i e e' He He'. rewrite (cells_made i e e' He He'). case_bool_decide as Hi.
    + rewrite (own_made p (Z.of_nat i) e Hi ltac:(by rewrite Nat2Z.id)). destruct (Hpix _ Hi) as (_ & e0 & He0 & _ & Hf). rewrite Nat2Z.id, He in He0. injection He0 as <-.
      assert (own p e = 0) as -> by (unfold own; by rewrite Hf). destruct (hits p (Z.of_nat i)) eqn:Eh; [by rewrite decide_True|]. by rewrite decide_False by (by intros [_ ?]).
    + rewrite decide_False by (by intros [? _]). lia.
Qed.

Lemma old_refs p : (n <= p)%nat -> refs p m = 0.
Proof.
  intros Hp. assert (0 <= refs p m) as H0.
  { unfold refs. generalize (all_cells m). intros l. induction l as [|e l IH]; [done|]. unfold sum_of in *. cbn [foldr]. pose proof (own_nonneg p e). lia. }
  destruct (Z.eq_dec (refs p m) 0) as [|Hne]; [done|]. destruct Hs as (_ & Hst & _). destruct (Hst p ltac:(lia)) as (s & Hsp & _). by rewrite Hfresh in Hsp.
Qed.

Lemma sharing_made :
  sharing (set_chan m PSEUDOMAP (mkChan cs' (nfree (red m)) (clientPixels (red m)))) (set_shared w (call_store garbage calls n (shared w)) (n + length calls)).
Proof.
  destruct Hs as (Hc & Hst & _). set (m' := set_chan m PSEUDOMAP (mkChan cs' (nfree (red m)) (clientPixels (red m)))). split; [|split].
  - unfold all_cells, m' in *. cbn [red green blue set_chan cells]. apply Forall_app in Hc as [Hc1 Hc2]. apply Forall_app. split; [|exact Hc2].
    apply Forall_lookup. intros i e' He'. destruct (lookup_lt_is_Some_2 (cells (red m)) i) as [e He].
    { apply lookup_lt_Some in He'. unfold cs' in He'. by rewrite call_cells_length in He'. }
    rewrite (cells_made i e e' He He'). case_bool_decide as Hi; [|rewrite Forall_lookup in Hc1; eauto].
    destruct (shared_cell_made _ e Hi ltac:(by rewrite Nat2Z.id)) as (r & g & b & -> & _). split; [intros _; split; [done|by eexists _, _, _]|].
    unfold AllocPrivate. cbn. lia.
  - assert (∀ p, refs p m' = refs p m + Z.of_nat (length (filter (λ x, hits p x = true) pix))) as Er.
    { intros p. unfold refs, all_cells, m'. cbn [red green blue set_chan cells]. rewrite !sum_app, refs_made. lia. }
    intros p Hp. rewrite Er in Hp |- *. cbn [shared set_shared]. destruct (Nat.lt_ge_cases p n) as [Hlt|Hge].
    + assert (filter (λ x, hits p x = true) pix = []) as E0.
      { apply filter_all_false. intros x. unfold hits. rewrite bool_decide_eq_false_2 by lia. done. }
      rewrite E0 in Hp |- *. cbn [length] in Hp |- *. rewrite call_store_old by done. destruct (Hst p ltac:(lia)) as (s & ? & ? & ?). exists s. split; [done|]. lia.
    + rewrite old_refs in Hp |- * by done. destruct (calls !! (p - n)%nat) as [k|] eqn:Ek.
      * assert (filter (λ x, hits p x = true) pix = filter (λ x, c_sel k x = true) pix) as E1.
        { apply list_filter_iff. intros x. unfold hits. rewrite bool_decide_eq_true_2, Ek by done. done. }
        rewrite E1 in Hp |- *. destruct (Hrefs k) as [Ecnt Hlt]; [by eapply list_elem_of_lookup_2|]. rewrite Ecnt in Hp |- *.
        replace p with (n + (p - n))%nat by lia. rewrite (call_store_new garbage calls n _ (p - n) k Ek). eexists. split; [done|]. cbn [sh_refcnt].
        unfold wrap_s. rewrite Z.mod_small by lia. destruct (Z.ltb_spec (c_refs k) (2 ^ (16 - 1))) as [|Hge']; [lia|]. change (2 ^ (16 - 1)) with (2 ^ 15) in Hge'. lia.
      * exfalso. assert (filter (λ x, hits p x = true) pix = []) as E0; [|rewrite E0 in Hp; cbn in Hp; lia].
        apply filter_all_false. intros x. unfold hits. rewrite Ek, andb_false_r. done.
  - intros E. unfold m' in E. cbn [cm_class set_chan] in E. by rewrite Hh in E.
Qed.

End Sharing.
