(* ===== verification/ColorPlanesReq.v ===== *)
(** * ColorPlanesReq: planes for a client (dix/colormap.c)

    [AllocColorPlanes] on a map with one table: the calls that it makes for every color, how
    many cells each of them selects, and what the client gets. *)

From S2P Require Import Prelude Atom ResourceDB PixelBits ColorCells ColorAccounts ColorFind ColorAlloc ColorPlanes ColorCellsReq ColorShared.

#[local] Set Warnings "-clear-no-such-hyp".

#[local] Opaque submasks popcount bits_fuel.

(** ** The calls *)

Definition comp_calls (ch : channel) (b mine others : Pixel) (refs : Z) : list call :=
  (λ bits, mkCall ch (u32 (Z.lnot others)) (Z.land b (u32 (Z.lnot others))) refs bits) <$> submasks 32 mine.

Definition refs_of (mine : Pixel) (refs refs0 : Z) : Z := if mine =? 0 then refs0 else refs.

Lemma foldM_app {A S} (f : A -> S -> result S) l k s : foldM f (l ++ k) s = (s ← foldM f l s; foldM f k s).
Proof. revert s. induction l as [|x l IH]; intros s; [done|]. cbn [foldM app]. destruct (f x s); [by apply IH|done]. Qed.

Lemma foldM_map {A B S} (f : B -> S -> result S) (g : A -> B) l s : foldM f (g <$> l) s = foldM (λ x, f (g x)) l s.
Proof. revert s. induction l as [|x l IH]; intros s; [done|]. cbn [foldM fmap list_fmap]. destruct (f (g x) s); [by apply IH|done]. Qed.

Lemma foldM_ext {A S} (f g : A -> S -> result S) l s : (∀ x s, f x s = g x s) -> foldM f l s = foldM g l s.
Proof. intros H. revert s. induction l as [|x l IH]; intros s; [done|]. cbn [foldM]. rewrite H. destruct (g x s); [by apply IH|done]. Qed.

Lemma share_component_calls garbage ch pix b mine others refs refs0 s :
  0 <= mine < 2 ^ 32 ->
  share_component garbage ch pix b mine others refs refs0 s =
    foldM (share_call garbage pix) (comp_calls ch b mine others (refs_of mine refs refs0)) s.
Proof.
  intros Hm. unfold share_component, comp_calls, refs_of. rewrite foldM_map. destruct (Z.eqb_spec mine 0) as [->|Hne].
  - assert (submasks 32 0 = [0]) as -> by (vm_compute; reflexivity). cbn [foldM]. unfold share_call. cbn [c_ch c_base c_common c_refs c_bits].
    cbv zeta. by destruct (share_bits _ _ _ _ _ _ _ s).
  - rewrite for_bits_submasks by done. done.
Qed.

Section Pixels.
Context (mask rm gm bm : Pixel) (r g b : Z) (pixels pix : list Pixel).
Context (Hr : 0 <= r) (Hg : 0 <= g) (Hb : 0 <= b).
Context (Hmask : 0 <= mask < 2 ^ 32) (Hpl : planes mask rm gm bm (Z.to_nat r) (Z.to_nat g) (Z.to_nat b)).
Context (Hperm : pix ≡ₚ all_combos mask pixels) (Hap : Forall (apart mask) pixels) (Hnd : NoDup pix) (Hpn : NoDup pixels).
Context (Hrange : Forall (λ x, 0 <= x < 2 ^ 32) pix).

Definition mine_of (ch : channel) : Pixel := match ch with GREENMAP => gm | BLUEMAP => bm | _ => rm end.
Definition others_of (ch : channel) : Pixel := match ch with GREENMAP => Z.lor rm bm | BLUEMAP => Z.lor rm gm | _ => Z.lor gm bm end.

(** The counts that the code gives to the colors. *)
Definition count_of (ch : channel) : Z :=
  match ch with
  | GREENMAP => refs_of gm (Z.shiftl 1 (r + b)) (Z.shiftl 1 (g + b))
  | BLUEMAP => refs_of bm (Z.shiftl 1 (r + g)) (Z.shiftl 1 (g + b))
  | _ => refs_of rm (Z.shiftl 1 (g + b)) (Z.shiftl 1 (g + b))
  end.

Definition chan_calls (ch : channel) (p : Pixel) : list call := comp_calls ch p (mine_of ch) (others_of ch) (count_of ch).
Definition pixel_calls (p : Pixel) : list call := chan_calls REDMAP p ++ chan_calls GREENMAP p ++ chan_calls BLUEMAP p.
Definition all_calls : list call := concat (pixel_calls <$> pixels).

(** Every bit belongs to at most one of the masks. *)
Lemma mask_bits i :
  Z.testbit mask i = Z.testbit rm i || Z.testbit gm i || Z.testbit bm i ∧
  Z.testbit rm i && Z.testbit gm i = false ∧ Z.testbit rm i && Z.testbit bm i = false ∧ Z.testbit gm i && Z.testbit bm i = false.
Proof.
  destruct Hpl as [<- H1 H2 H3 _ _ _ _]. rewrite !Z.lor_spec, <- !Z.land_spec, H1, H2, H3, Z.bits_0. done.
Qed.

Lemma parts_range ch : 0 <= mine_of ch < 2 ^ 32 ∧ 0 <= others_of ch < 2 ^ 32.
Proof.
  assert (∀ s, 0 <= s -> (∀ i, Z.testbit s i = true -> Z.testbit mask i = true) -> 0 <= s < 2 ^ 32) as H by (intros s Hs Hi; by apply (submask_u32 s mask)).
  destruct (pn_pos _ _ _ _ _ _ _ Hpl) as (P1 & P2 & P3).
  assert (0 <= mine_of ch ∧ 0 <= others_of ch) as [Hm Ho] by (destruct ch; cbn [mine_of others_of]; rewrite Z.lor_nonneg; split_and!; done).
  split; apply H; try done; intros i; destruct (mask_bits i) as (-> & _).
  - destruct ch; cbn [mine_of]; intros ->; by rewrite ?orb_true_r.
  - destruct ch; cbn [others_of]; rewrite Z.lor_spec; intros [-> | ->]%orb_true_iff; by rewrite ?orb_true_r.
Qed.

Lemma AllocShared_calls garbage s :
  foldM (λ pixel s,
      s ← share_component garbage REDMAP pix pixel rm (Z.lor gm bm) (Z.shiftl 1 (g + b)) (Z.shiftl 1 (g + b)) s;
      s ← share_component garbage GREENMAP pix pixel gm (Z.lor rm bm) (Z.shiftl 1 (r + b)) (Z.shiftl 1 (g + b)) s;
      share_component garbage BLUEMAP pix pixel bm (Z.lor rm gm) (Z.shiftl 1 (r + g)) (Z.shiftl 1 (g + b)) s) pixels s =
  foldM (share_call garbage pix) all_calls s.
Proof.
  destruct (parts_range REDMAP) as [R1 _]. destruct (parts_range GREENMAP) as [R2 _]. destruct (parts_range BLUEMAP) as [R3 _]. cbn [mine_of] in R1, R2, R3.
  unfold all_calls. clear Hperm Hap Hpn. revert s. induction pixels as [|p ps IH]; intros s; [done|]. cbn [foldM fmap list_fmap concat]. unfold pixel_calls at 1.
  rewrite !foldM_app. unfold chan_calls, mine_of, others_of, count_of. rewrite share_component_calls by done.
  destruct (foldM _ (comp_calls REDMAP _ _ _ _) s) as [s1|]; cbn [mbind result_bind]; [|done]. rewrite foldM_app, share_component_calls by done.
  destruct (foldM _ (comp_calls GREENMAP _ _ _ _) s1) as [s2|]; cbn [mbind result_bind]; [|done]. rewrite share_component_calls by done.
  destruct (foldM _ (comp_calls BLUEMAP _ _ _ _) s2) as [s3|]; cbn [mbind result_bind]; [|done]. apply IH.
Qed.

(** *** What a call selects *)

Lemma land_not x o : 0 <= x < 2 ^ 32 -> Z.land x (u32 (Z.lnot o)) = Z.ldiff x o.
Proof.
  intros Hx. apply Z.bits_inj. intros i. rewrite Z.land_spec, Z.ldiff_spec. destruct (Z.lt_ge_cases i 0) as [|Hi]; [by rewrite !Z.testbit_neg_r|].
  destruct (Z.lt_ge_cases i 32).
  - by rewrite not_mask_bits by lia.
  - assert (Z.testbit x i = false) as ->; [|done]. rewrite <- (Z.mod_small x (2 ^ 32)) by lia. by apply Z.mod_pow2_bits_high.
Qed.

Lemma apart_bits p i : apart mask p -> Z.testbit p i && Z.testbit mask i = false.
Proof. intros [_ H]. by rewrite <- Z.land_spec, H, Z.bits_0. Qed.

Lemma selects ch p bits q s :
  ch ≠ PSEUDOMAP -> apart mask p -> apart mask q -> submask s mask -> submask bits (mine_of ch) -> 0 <= p < 2 ^ 32 -> 0 <= q + s < 2 ^ 32 ->
  c_sel (mkCall ch (u32 (Z.lnot (others_of ch))) (Z.land p (u32 (Z.lnot (others_of ch)))) (count_of ch) bits) (q + s) = true <->
  q = p ∧ Z.land s (mine_of ch) = bits.
Proof.
  intros Hne Hp Hq Hs Hbits Hpr Hqr. unfold c_sel. cbn [c_base c_common c_bits]. destruct (apart_lor mask q s Hq Hs) as [Eqs _]. rewrite Eqs in *.
  rewrite !land_not by done. rewrite Z.eqb_eq. destruct Hs as [Hs0 Hs], Hbits as [Hb0 Hbits].
  assert (∀ i, (Z.testbit (Z.ldiff (Z.lor q s) (others_of ch)) i = Z.testbit (Z.lor (Z.ldiff p (others_of ch)) bits) i) <->
               (Z.testbit q i = Z.testbit p i ∧ Z.testbit (Z.land s (mine_of ch)) i = Z.testbit bits i)) as H.
  { intros i. pose proof (apart_bits p i Hp) as Ap. pose proof (apart_bits q i Hq) as Aq. specialize (Hs i). specialize (Hbits i).
    destruct (mask_bits i) as (Em & E1 & E2 & E3). rewrite Z.ldiff_spec, !Z.lor_spec, Z.ldiff_spec, Z.land_spec.
    destruct ch; try done; cbn [mine_of others_of] in *; rewrite !Z.lor_spec in *;
      destruct (Z.testbit rm i), (Z.testbit gm i), (Z.testbit bm i); cbn in E1, E2, E3, Em; try done; rewrite Em in *; clear Em;
      destruct (Z.testbit p i), (Z.testbit q i), (Z.testbit s i), (Z.testbit bits i); cbn in *; intuition congruence. }
  split.
  - intros E. split; apply Z.bits_inj; intros i; specialize (H i); rewrite E in H; by apply H.
  - intros [-> E]. apply Z.bits_inj. intros i. apply H. split; [done|]. by rewrite E.
Qed.

(** *** How often, and which *)

Definition the_one (ch : channel) (p bits : Pixel) : call :=
  mkCall ch (u32 (Z.lnot (others_of ch))) (Z.land p (u32 (Z.lnot (others_of ch)))) (count_of ch) bits.

Lemma elem_chan_calls ch p k : k ∈ chan_calls ch p <-> ∃ bits, submask bits (mine_of ch) ∧ k = the_one ch p bits.
Proof.
  destruct (parts_range ch) as [Hm _]. unfold chan_calls, comp_calls. rewrite list_elem_of_fmap. split.
  - intros (bits & -> & Hb'). exists bits. split; [by apply (elem_of_submasks 32)|done].
  - intros (bits & Hb' & ->). exists bits. split; [done|by apply (elem_of_submasks 32)].
Qed.

Lemma elem_pixel_calls p k : k ∈ pixel_calls p <-> ∃ ch bits, ch ≠ PSEUDOMAP ∧ submask bits (mine_of ch) ∧ k = the_one ch p bits.
Proof.
  unfold pixel_calls. rewrite !elem_of_app, !elem_chan_calls. split.
  - intros [(bits & ? & ?)|[(bits & ? & ?)|(bits & ? & ?)]]; eexists _, bits; (split; [|by split]; done).
  - intros (ch & bits & Hne & ?). destruct ch; [left|right; left|right; right|done]; by exists bits.
Qed.

Lemma elem_all_calls k : k ∈ all_calls <-> ∃ p ch bits, p ∈ pixels ∧ ch ≠ PSEUDOMAP ∧ submask bits (mine_of ch) ∧ k = the_one ch p bits.
Proof.
  unfold all_calls. rewrite list_elem_of_In, in_concat. split.
  - intros (l & Hl & Hk). apply list_elem_of_In, list_elem_of_fmap in Hl as (p & -> & Hp). apply list_elem_of_In, elem_pixel_calls in Hk as (ch & bits & Hk).
    by exists p, ch, bits.
  - intros (p & ch & bits & Hp & Hk). exists (pixel_calls p). split; apply list_elem_of_In; [apply list_elem_of_fmap; by exists p|].
    apply elem_pixel_calls. by exists ch, bits.
Qed.

Lemma elem_pix x : x ∈ pix <-> ∃ p s, p ∈ pixels ∧ submask s mask ∧ x = p + s.
Proof.
  rewrite Hperm, elem_of_all_combos. split.
  - intros (p & Hp & Hx). apply elem_of_combos in Hx as (s & Hs & ->); [|done]. by exists p, s.
  - intros (p & s & Hp & Hs & ->). exists p. split; [done|]. apply elem_of_combos; [done|]. by exists s.
Qed.

Lemma pixel_range p : p ∈ pixels -> apart mask p ∧ 0 <= p < 2 ^ 32.
Proof.
  intros Hp. rewrite Forall_forall in Hap, Hrange. split; [by apply Hap|]. apply Hrange, elem_pix. exists p, 0.
  split; [done|]. split; [apply submask_0|lia].
Qed.

Lemma the_one_selects ch p bits q s :
  ch ≠ PSEUDOMAP -> p ∈ pixels -> q ∈ pixels -> submask s mask -> submask bits (mine_of ch) ->
  c_sel (the_one ch p bits) (q + s) = true <-> q = p ∧ Z.land s (mine_of ch) = bits.
Proof.
  intros Hne Hp Hq Hs Hbits. destruct (pixel_range p Hp) as [Ap Rp]. destruct (pixel_range q Hq) as [Aq Rq]. apply selects; try done.
  rewrite Forall_forall in Hrange. apply Hrange, elem_pix. by exists q, s.
Qed.

Lemma mine_submask ch : submask (mine_of ch) mask.
Proof.
  split; [apply parts_range|]. intros i. destruct (mask_bits i) as (-> & _). destruct ch; cbn [mine_of]; intros ->; by rewrite ?orb_true_r.
Qed.

Lemma submask_trans x y z : submask x y -> submask y z -> submask x z.
Proof. intros [Ha H1] [_ H2]. split; [done|]. intros i Hi. by apply H2, H1. Qed.

Lemma all_calls_nodup : NoDup all_calls.
Proof.
  assert (∀ ch p, NoDup (chan_calls ch p)) as Hone.
  { intros ch p. unfold chan_calls, comp_calls. apply NoDup_fmap_2; [by intros x y [= ->]|apply submasks_nodup]. }
  assert (∀ ch ch' p k, ch ≠ ch' -> k ∈ chan_calls ch p -> k ∉ chan_calls ch' p) as Hdiff.
  { intros ch ch' p k Hne (bits & _ & ->)%elem_chan_calls (bits' & _ & [= E _])%elem_chan_calls. done. }
  assert (∀ ps, (∀ p, p ∈ ps -> p ∈ pixels) -> NoDup ps -> NoDup (concat (pixel_calls <$> ps))) as H; [|by apply H].
  intros ps Hsub. induction 1 as [|p ps Hp Hn IH]; [constructor|]. cbn [fmap list_fmap concat]. apply NoDup_app. split; [|split].
  - unfold pixel_calls. apply NoDup_app. split; [done|]. split.
    + intros k Hk [?|?]%elem_of_app; by eapply Hdiff in Hk.
    + apply NoDup_app. split; [done|]. split; [|done]. intros k Hk ?. by eapply Hdiff in Hk.
  - intros k (ch & bits & Hne & Hb' & Ek)%elem_pixel_calls Hk. apply list_elem_of_In, in_concat in Hk as (l & Hl & Hk).
    apply list_elem_of_In, list_elem_of_fmap in Hl as (q & -> & Hq). apply list_elem_of_In, elem_pixel_calls in Hk as (ch' & bits' & Hne' & Hb'' & Ek').
    assert (p ∈ pixels) as Hpp by (apply Hsub; by left). assert (q ∈ pixels) as Hqp by (apply Hsub; by right).
    pose proof (submask_trans _ _ _ Hb' (mine_submask ch)) as Hbm.
    assert (c_sel (the_one ch p bits) (p + bits) = true) as E by (apply the_one_selects; try done; split; [done|by apply submask_land in Hb' as [_ ?]]).
    rewrite <- Ek, Ek' in E. apply the_one_selects in E as [-> _]; done.
  - apply IH. intros q Hq. apply Hsub. by right.
Qed.

(** Every new cell is selected once for every component. *)
Lemma every_call x ch : x ∈ pix -> ch ≠ PSEUDOMAP -> ∃ i, the_call all_calls ch x i.
Proof.
  intros (p & s & Hp & Hs & ->)%elem_pix Hne.
  assert (submask (Z.land s (mine_of ch)) (mine_of ch)) as Hsm.
  { split; [apply Z.land_nonneg; left; apply Hs|]. intros i. rewrite Z.land_spec. by intros [_ ?]%andb_true_iff. }
  assert (the_one ch p (Z.land s (mine_of ch)) ∈ all_calls) as Hin by (apply elem_all_calls; by exists p, ch, (Z.land s (mine_of ch))).
  apply list_elem_of_lookup in Hin as [i Hi]. exists i. split.
  - eexists. split; [done|]. split; [done|]. by apply the_one_selects.
  - intros j k Hk Ec Es. pose proof (list_elem_of_lookup_2 _ _ _ Hk) as Hin. apply elem_all_calls in Hin as (q & ch' & bits & Hq & Hne' & Hbits & ->).
    cbn [c_ch the_one] in Ec. subst ch'. apply the_one_selects in Es as [-> <-]; [|done..]. by eapply NoDup_lookup; [apply all_calls_nodup|..].
Qed.

(** *** The counts *)

Context (Hcond : r = 0 ∨ (0 < g ∧ 0 < b)) (Hlen : Z.of_nat (length pix) < 2 ^ 15).

Lemma count_right ch : ch ≠ PSEUDOMAP -> count_of ch = Z.of_nat (2 ^ popcount 32 (others_of ch)).
Proof.
  intros Hne. destruct Hpl as [_ H1 H2 H3 _ P1 P2 P3]. rewrite Nat2Z.inj_pow. change (Z.of_nat 2) with 2.
  assert (gm = 0 -> g = 0) as Hg0 by (intros ->; rewrite popcount_0 in P2; lia). assert (bm = 0 -> b = 0) as Hb0 by (intros ->; rewrite popcount_0 in P3; lia).
  destruct ch; try done; cbn [count_of others_of]; unfold refs_of.
  - rewrite popcount_lor by done. rewrite P2, P3, Nat2Z.inj_add, !Z2Nat.id by done. destruct (rm =? 0); by rewrite Z.shiftl_1_l.
  - rewrite popcount_lor by done. rewrite P1, P3, Nat2Z.inj_add, !Z2Nat.id by done. destruct (Z.eqb_spec gm 0) as [E|_]; rewrite Z.shiftl_1_l; [|done].
    specialize (Hg0 E). destruct Hcond; [|lia]. by subst.
  - rewrite popcount_lor by done. rewrite P1, P2, Nat2Z.inj_add, !Z2Nat.id by done. destruct (Z.eqb_spec bm 0) as [E|_]; rewrite Z.shiftl_1_l; [|done].
    specialize (Hb0 E). destruct Hcond; [|lia]. subst. f_equal. lia.
Qed.

Lemma add_disjoint a c : Z.land a c = 0 -> a + c = Z.lor a c.
Proof. intros H. rewrite Z.add_nocarry_lxor by done. by apply Z.lxor_lor. Qed.

Lemma mine_others s ch : ch ≠ PSEUDOMAP -> submask s mask -> Z.land s (mine_of ch) + Z.land s (others_of ch) = s.
Proof.
  intros Hne [Hs0 Hs]. rewrite add_disjoint; apply Z.bits_inj; intros i; rewrite ?Z.lor_spec, !Z.land_spec, ?Z.bits_0; specialize (Hs i);
    destruct (mask_bits i) as (Em & E1 & E2 & E3); rewrite Em in Hs; destruct ch; try done; cbn [mine_of others_of]; rewrite !Z.lor_spec;
    destruct (Z.testbit s i), (Z.testbit rm i), (Z.testbit gm i), (Z.testbit bm i); cbn in *; try done; by discriminate Hs.
Qed.

Lemma others_submask t ch : ch ≠ PSEUDOMAP -> submask t (others_of ch) -> ∀ bits, submask bits (mine_of ch) ->
  submask (bits + t) mask ∧ Z.land (bits + t) (mine_of ch) = bits.
Proof.
  intros Hne [Ht0 Ht] bits [Hb0 Hb']. assert (Z.land bits t = 0) as E.
  { apply Z.bits_inj. intros i. rewrite Z.land_spec, Z.bits_0. specialize (Ht i). specialize (Hb' i). destruct (mask_bits i) as (_ & E1 & E2 & E3).
    destruct (Z.testbit bits i); [|done]. destruct (Z.testbit t i); [|done]. specialize (Ht eq_refl). specialize (Hb' eq_refl).
    destruct ch; try done; cbn [mine_of others_of] in *; rewrite Z.lor_spec in Ht; rewrite Hb' in *; destruct (Z.testbit rm i), (Z.testbit gm i), (Z.testbit bm i); done. }
  rewrite (add_disjoint _ _ E). split.
  - split; [by apply Z.lor_nonneg|]. intros i. rewrite Z.lor_spec. destruct (mask_bits i) as (-> & _). specialize (Ht i). specialize (Hb' i).
    intros [H|H]%orb_true_iff; [apply Hb' in H; clear Ht|apply Ht in H; rewrite ?Z.lor_spec in H];
      destruct ch; try done; cbn [mine_of others_of] in *; rewrite ?Z.lor_spec in H; destruct (Z.testbit rm i), (Z.testbit gm i), (Z.testbit bm i); done.
  - rewrite Z.land_lor_distr_l. assert (Z.land t (mine_of ch) = 0) as ->; [|by rewrite Z.lor_0_r; apply submask_land].
    apply Z.bits_inj. intros i. rewrite Z.land_spec, Z.bits_0. specialize (Ht i). destruct (mask_bits i) as (_ & E1 & E2 & E3).
    destruct (Z.testbit t i); [|done]. specialize (Ht eq_refl).
    destruct ch; try done; cbn [mine_of others_of] in *; rewrite Z.lor_spec in Ht; destruct (Z.testbit rm i), (Z.testbit gm i), (Z.testbit bm i); done.
Qed.

Lemma call_count k : k ∈ all_calls -> Z.of_nat (length (filter (λ x, c_sel k x = true) pix)) = c_refs k ∧ c_refs k < 2 ^ 15.
Proof.
  intros (p & ch & bits & Hp & Hne & Hbits & ->)%elem_all_calls. destruct (parts_range ch) as [_ Ho].
  assert (Z.of_nat (length (filter (λ x, c_sel (the_one ch p bits) x = true) pix)) = c_refs (the_one ch p bits)) as E.
  { cbn [c_refs the_one]. rewrite count_right, <- submasks_length by done. rewrite <- (length_fmap (λ t, p + (bits + t)) (submasks 32 (others_of ch))). f_equal.
    apply Permutation_length, NoDup_Permutation; [by apply NoDup_filter|apply NoDup_fmap_2; [intros x y; lia|apply submasks_nodup]|].
    intros x. rewrite list_elem_of_filter, list_elem_of_fmap, elem_pix. split.
    - intros [Hx (q & s & Hq & Hs & ->)]. apply the_one_selects in Hx as [-> Hx]; [|done..]. exists (Z.land s (others_of ch)).
      rewrite <- (mine_others s ch Hne Hs) at 1. rewrite Hx. split; [done|]. apply (elem_of_submasks 32); [done|].
      split; [apply Z.land_nonneg; left; apply Hs|]. intros i. rewrite Z.land_spec. by intros [_ ?]%andb_true_iff.
    - intros (t & -> & Ht). apply (elem_of_submasks 32) in Ht; [|done]. destruct (others_submask t ch Hne Ht bits Hbits) as [Hsm El].
      split; [by apply the_one_selects|]. by exists p, (bits + t). }
  split; [done|]. rewrite <- E. pose proof (length_filter (λ x, c_sel (the_one ch p bits) x = true) pix). lia.
Qed.

Lemma same_call ch x y i j :
  ch ≠ PSEUDOMAP -> the_call all_calls ch x i -> the_call all_calls ch y j ->
  i = j <-> Z.land x (u32 (Z.lnot (others_of ch))) = Z.land y (u32 (Z.lnot (others_of ch))).
Proof.
  intros Hne [(k & Hk & Ec & Es) Hu] [(k' & Hk' & Ec' & Es') Hu'].
  assert (∀ k0 i0, all_calls !! i0 = Some k0 -> c_ch k0 = ch -> c_base k0 = u32 (Z.lnot (others_of ch))) as Hbase.
  { intros k0 i0 H0 E0. apply list_elem_of_lookup_2, elem_all_calls in H0 as (p & ch' & bits & _ & _ & _ & ->). cbn [c_ch c_base the_one] in *. by subst. }
  unfold c_sel in Es, Es'. rewrite (Hbase k i Hk Ec) in Es. rewrite (Hbase k' j Hk' Ec') in Es'. apply Z.eqb_eq in Es, Es'. split.
  - intros <-. rewrite Hk in Hk'. injection Hk' as <-. congruence.
  - intros E. apply (Hu' i k Hk Ec). unfold c_sel. rewrite (Hbase k i Hk Ec), <- E, Es. apply Z.eqb_refl.
Qed.

End Pixels.

(** ** [AllocShared] *)

(** What counts a table only depends on the counts of its cells. *)
Lemma accounts_refcnt es es' free l : refcnt <$> es' = refcnt <$> es -> accounts es free l -> accounts es' free l.
Proof.
  intros E [Hr Ho Hf]. assert (∀ x : list Entry, vacancies x = sum_of (λ n, if (n =? 0) || (n =? AllocTemporary) then 1 else 0) (refcnt <$> x)) as Hv.
  { intros x. induction x as [|e x IH]; [done|]. unfold vacancies, sum_of in *. cbn [fmap list_fmap foldr]. by rewrite IH. }
  assert (∀ i e', es' !! i = Some e' -> ∃ e, es !! i = Some e ∧ refcnt e = refcnt e') as Hback.
  { intros i e' He'. assert ((refcnt <$> es) !! i = Some (refcnt e')) as H by (by rewrite <- E, list_lookup_fmap, He').
    rewrite list_lookup_fmap in H. destruct (es !! i) as [e|]; [|done]. injection H as H. by exists e. }
  split.
  - rewrite Forall_lookup in Hr |- *. intros i e' He'. destruct (Hback i e' He') as (e & He & <-). by apply (Hr i).
  - intros i e' He'. destruct (Hback i e' He') as (e & He & H). replace (room e') with (room e) by (unfold room; by rewrite H). by apply Ho.
  - by rewrite Hf, !Hv, E.
Qed.

Lemma table_ok_refcnt n c cs' : table_ok n c -> refcnt <$> cs' = refcnt <$> cells c -> table_ok n (mkChan cs' (nfree c) (clientPixels c)).
Proof.
  intros (H1 & H2 & H3 & H4 & H5) E. split; [done|]. split; [done|]. split; [done|]. split; cbn [cells nfree clientPixels].
  - assert (length cs' = length (cells c)) as -> by (rewrite <- (length_fmap refcnt), E; apply length_fmap). done.
  - eapply accounts_refcnt; [|exact H5]. by rewrite !fmap_take, E.
Qed.

Lemma alloc_many_ok n w : all_ok (mem w) -> ∃ w', alloc_many n w = (true, w') ∧ all_ok (mem w') ∧ shared w' = shared w ∧ next_shared w' = next_shared w.
Proof.
  revert w. induction n as [|n IH]; intros w Hm; cbn [alloc_many]; [by exists w|].
  destruct (xalloc_ok w Hm) as (w1 & -> & Hm1 & S1 & (N1 & _) & _). destruct (IH w1 Hm1) as (w2 & -> & Hm2 & S2 & N2). exists w2.
  split; [done|]. split; [done|]. split; congruence.
Qed.

(** The new cells have shared colors: the same one for a component when they differ in no other plane than those of the
    other components. *)
Definition made (m1 m2 : ColormapRec) (pix : list Pixel) (rm gm bm : Pixel) : Prop :=
  nfree (red m2) = nfree (red m1) ∧ clientPixels (red m2) = clientPixels (red m1) ∧
  (∀ i, Z.of_nat i ∉ pix -> cells (red m2) !! i = cells (red m1) !! i) ∧
  (∀ x, x ∈ pix -> ∃ r g b, cells (red m2) !! Z.to_nat x = Some (mkEntry (shco (Some r) (Some g) (Some b)) AllocPrivate true)) ∧
  ∀ ch x y e e', ch ≠ PSEUDOMAP -> x ∈ pix -> y ∈ pix -> cells (red m2) !! Z.to_nat x = Some e -> cells (red m2) !! Z.to_nat y = Some e' ->
    (comp ch e = comp ch e' <-> Z.land x (u32 (Z.lnot (others_of rm gm bm ch))) = Z.land y (u32 (Z.lnot (others_of rm gm bm ch)))).

Section Shared.
Context (garbage : nat -> Z) (m : ColormapRec) (w : CmapWorld) (mask rm gm bm : Pixel) (c r g b : Z) (pixels pix : list Pixel).
Context (Hm : map_ok m w) (Hh : has_channels (cm_class m) = false) (Hmem : all_ok (mem w)) (Hfresh : fresh_store w).
Context (Hr : 0 <= r) (Hg : 0 <= g) (Hb : 0 <= b) (Hcond : r = 0 ∨ (0 < g ∧ 0 < b)).
Context (Hmask : 0 <= mask < 2 ^ 32) (Hpl : planes mask rm gm bm (Z.to_nat r) (Z.to_nat g) (Z.to_nat b)).
Context (Hperm : pix ≡ₚ all_combos mask pixels) (Hap : Forall (apart mask) pixels) (Hnd : NoDup pix) (Hpn : NoDup pixels).
Context (Hpix : ∀ x, x ∈ pix -> 0 <= x < 2 ^ 32 ∧ ∃ e, cells (red m) !! Z.to_nat x = Some e ∧ refcnt e = AllocPrivate ∧ fShared e = false).
Context (Hlen : Z.of_nat (length pix) < 2 ^ 15).

Let calls := all_calls rm gm bm r g b pixels.

Lemma pix_range : Forall (λ x, 0 <= x < 2 ^ 32) pix.
Proof. apply Forall_forall. intros x Hx. by apply Hpix. Qed.

Lemma calls_not_pseudo : Forall (λ k, c_ch k ≠ PSEUDOMAP) calls.
Proof. apply Forall_forall. intros k Hk. apply (elem_all_calls mask rm gm bm r g b pixels pix Hmask Hpl Hperm Hap) in Hk as (p & ch & bits & _ & Hne & _ & ->). exact Hne. Qed.

Lemma pix_private x : x ∈ pix -> 0 <= x ∧ ∃ e, cells (red m) !! Z.to_nat x = Some e ∧ refcnt e = AllocPrivate ∧ fShared e = false.
Proof. intros Hx. destruct (Hpix x Hx) as [[? _] ?]. done. Qed.

Lemma calls_unique x ch : x ∈ pix -> ch ≠ PSEUDOMAP -> ∃ i, the_call calls ch x i.
Proof. apply (every_call mask rm gm bm r g b pixels pix Hmask Hpl Hperm Hap Hpn pix_range). Qed.

Lemma calls_counts k : k ∈ calls -> Z.of_nat (length (filter (λ x, c_sel k x = true) pix)) = c_refs k ∧ c_refs k < 2 ^ 15.
Proof. by apply (call_count mask rm gm bm r g b pixels pix Hr Hg Hb Hmask Hpl Hperm Hap Hnd pix_range Hcond Hlen). Qed.

Lemma AllocShared_ok :
  ∃ m2 w2, AllocShared garbage m pixels c r g b rm gm bm pix w = Ok (true, m2, w2) ∧ map_ok m2 w2 ∧ same_frame m m2 ∧ fresh_store w2 ∧
    all_ok (mem w2) ∧ made m m2 pix rm gm bm.
Proof.
  unfold AllocShared. destruct (xalloc_ok w Hmem) as (w0 & -> & Hm0 & S0 & (N0 & _) & _). cbn [negb].
  destruct (alloc_many_ok (Z.to_nat (Z.shiftl c r + Z.shiftl c g + Z.shiftl c b)) w0 Hm0) as (w1 & -> & Hm1 & S1 & N1). cbn [negb].
  assert (fresh_store w1) as Hf1 by (intros p Hp; rewrite S1, S0; apply Hfresh; congruence).
  pose proof Hm as (Hd & Hs & Ht). assert (sharing m w1) as Hs1 by (apply (sharing_shared _ w); [congruence|done]).
  rewrite (AllocShared_calls mask rm gm bm r g b pixels pix Hmask Hpl Hperm Hap). fold calls.
  assert (Forall (λ x, 0 <= x < Z.of_nat (length (cells (red m)))) pix) as Hin.
  { apply Forall_forall. intros x Hx. destruct (pix_private x Hx) as (? & e & He & _). apply lookup_lt_Some in He. lia. }
  rewrite share_calls_ok by done. cbn [mbind result_bind]. set (n := next_shared w1).
  set (m2 := set_chan m PSEUDOMAP (mkChan (call_cells pix calls n (cells (red m))) (nfree (red m)) (clientPixels (red m)))).
  assert (∀ i e, cells (red m) !! i = Some e -> cells (red m2) !! i = Some (if bool_decide (Z.of_nat i ∈ pix) then apply_calls calls n (Z.of_nat i) e else e)) as Hlook.
  { intros i e He. unfold m2. cbn [red set_chan cells]. by apply call_cells_lookup. }
  assert (∀ x e, x ∈ pix -> cells (red m2) !! Z.to_nat x = Some e ->
    ∃ r g b, e = mkEntry (shco (Some (n + r)%nat) (Some (n + g)%nat) (Some (n + b)%nat)) AllocPrivate true ∧
      the_call calls REDMAP x r ∧ the_call calls GREENMAP x g ∧ the_call calls BLUEMAP x b) as Hmade.
  { intros x e Hx He. destruct (pix_private x Hx) as (Hx0 & e0 & He0 & _). rewrite (Hlook _ _ He0) in He. injection He as <-.
    rewrite Z2Nat.id, bool_decide_eq_true_2 by done. apply (shared_cell_made m w1 pix calls pix_private calls_not_pseudo calls_unique); done. }
  eexists m2, _. split; [done|]. split; [|split; [apply set_chan_frame|split; [|split; [done|]]]].
  - split; [done|]. split.
    + apply (sharing_made garbage m w1 pix calls Hs1 Hf1 Hh Hnd pix_private calls_not_pseudo calls_counts calls_unique).
    + intros ch Hch. unfold chans in Hch. change (cm_class m2) with (cm_class m) in Hch. rewrite Hh in Hch. apply list_elem_of_singleton in Hch as ->.
      apply (table_ok_refcnt (numents (pVisual m) PSEUDOMAP) (red m)); [apply (Ht PSEUDOMAP); unfold chans; rewrite Hh; by apply list_elem_of_singleton|].
      apply list_eq. intros i. rewrite !list_lookup_fmap. destruct (cells (red m) !! i) as [e|] eqn:He.
      * pose proof (Hlook i e He) as H. unfold m2 in H. cbn [red set_chan cells] in H. rewrite H. cbn [fmap option_fmap option_map]. f_equal. destruct (bool_decide _); [apply apply_refcnt|done].
      * rewrite lookup_ge_None_2; [done|]. rewrite call_cells_length. by apply lookup_ge_None_1.
  - intros p Hp. cbn [next_shared set_shared shared] in *. rewrite call_store_fresh by done. apply Hf1. unfold n in Hp. lia.
  - split; [done|]. split; [done|]. split; [|split].
    + intros i Hi. destruct (cells (red m) !! i) as [e|] eqn:He.
      * rewrite (Hlook i e He). by rewrite bool_decide_eq_false_2.
      * unfold m2. cbn [red set_chan cells]. apply lookup_ge_None_2. rewrite call_cells_length. by apply lookup_ge_None_1.
    + intros x Hx. destruct (pix_private x Hx) as (Hx0 & e0 & He0 & _). destruct (Hmade x _ Hx (Hlook _ _ He0)) as (r' & g' & b' & E & _).
      eexists _, _, _. rewrite (Hlook _ _ He0). by rewrite E.
    + intros ch x y e e' Hne Hx Hy He He'. destruct (Hmade x e Hx He) as (i1 & i2 & i3 & -> & C1 & C2 & C3). destruct (Hmade y e' Hy He') as (j1 & j2 & j3 & -> & D1 & D2 & D3).
      pose proof (same_call mask rm gm bm r g b pixels pix Hmask Hpl Hperm Hap ch) as Hsame. fold calls in Hsame.
      destruct ch; try done; cbn [comp co]; [rewrite <- (Hsame x y i1 j1)|rewrite <- (Hsame x y i2 j2)|rewrite <- (Hsame x y i3 j3)]; try done;
        (split; [intros [= ?]; lia|by intros ->]).
Qed.

End Shared.

(** ** [AllocColorPlanes] *)

Section Planes.
Context (COMPOSITE : bool) (garbage : nat -> Z) (m : ColormapRec) (d client : Z) (w : CmapWorld).
Context (Hm : map_ok m w) (Hpl : plain_map m d) (Hcl : a_client client) (Hmem : all_ok (mem w)) (Hfresh : fresh_store w).

Lemma fresh_store_same w1 w2 : shared w2 = shared w1 -> next_shared w2 = next_shared w1 -> fresh_store w1 -> fresh_store w2.
Proof. intros E1 E2 H p Hp. rewrite E1. apply H. congruence. Qed.

Lemma given_private m' c n pixels mask pix x :
  given m m' client c n pixels mask pix -> x ∈ pix ->
  0 <= x < 2 ^ 32 ∧ ∃ e, cells (red m') !! Z.to_nat x = Some e ∧ refcnt e = AllocPrivate ∧ fShared e = false.
Proof.
  intros (_ & _ & _ & _ & _ & _ & _ & Hr & Hc & _) Hx. rewrite Forall_forall in Hr. destruct (Hr x Hx) as [Hrx (e & He & _)].
  rewrite (pl_entries _ _ Hpl) in Hrx. destruct (pseudo_inv m d w Hm Hpl) as (_ & _ & Hd). split; [lia|].
  exists (mkEntry (co e) AllocPrivate false). rewrite (Hc _ _ He), Z2Nat.id, decide_True by (done || lia). done.
Qed.

Lemma given_length m' c n pixels mask pix : given m m' client c n pixels mask pix -> Z.of_nat (length pix) < 2 ^ 15.
Proof.
  intros (_ & _ & _ & _ & _ & _ & Hnd & Hr & _). rewrite (pl_entries _ _ Hpl) in Hr. destruct (pseudo_inv m d w Hm Hpl) as (_ & _ & Hd).
  assert (length pix <= length (seqZ 0 (2 ^ d)))%nat as H.
  { apply submseteq_length, NoDup_submseteq; [done|]. intros x Hx. rewrite Forall_forall in Hr. apply elem_of_seqZ. destruct (Hr x Hx). lia. }
  rewrite length_seqZ in H. lia.
Qed.

Lemma NoDup_sublist_take (n : nat) (l : list Z) : NoDup l -> NoDup (take n l).
Proof. intros H. rewrite <- (take_drop n l) in H. by apply NoDup_app in H as [H _]. Qed.

Lemma AllocColorPlanes_ok c r g b contig :
  0 < c < 2 ^ 16 -> 0 <= r -> 0 <= g -> 0 <= b -> r = 0 ∨ (0 < g ∧ 0 < b) ->
  ∃ rc pixels masks m' w', AllocColorPlanes COMPOSITE garbage m client c r g b contig w = Ok (rc, pixels, masks, m', w') ∧
    map_ok m' w' ∧ same_frame m m' ∧ fresh_store w' ∧
    ((rc = BadAlloc ∧ m' = m) ∨
     (rc = Success ∧ ∃ mask rm gm bm pix m1, masks = (rm, gm, bm) ∧ planes mask rm gm bm (Z.to_nat r) (Z.to_nat g) (Z.to_nat b) ∧
        given m m1 client c (r + g + b) pixels mask pix ∧ made m1 m' pix rm gm bm)).
Proof.
  intros Hc Hr Hg Hb Hcond. assert (cm_class m ≠ DirectColor) as Hne.
  { intros E. pose proof (pl_class _ _ Hpl) as H. by rewrite E in H. }
  unfold AllocColorPlanes. rewrite (proj1 Hm). cbn [negb]. destruct (needs_entry_ok m d client w Hm Hpl Hcl Hne) as [first ->]. cbn [mbind result_bind].
  assert (∃ w0, (if first then c_alloc w else (true, w)) = (true, w0) ∧ all_ok (mem w0) ∧ shared w0 = shared w ∧ next_shared w0 = next_shared w) as (w0 & -> & Hmem0 & Hsh0 & Hn0).
  { destruct first; [|by exists w]. destruct (xalloc_ok w Hmem) as (w' & -> & ? & ? & (? & _) & _). by exists w'. }
  cbn [negb]. rewrite (proj2 (Z.eqb_neq _ _) Hne). pose proof (map_ok_shared m w w0 Hsh0 Hm) as Hm0. pose proof (fresh_store_same w w0 Hsh0 Hn0 Hfresh) as Hf0.
  destruct (AllocPseudo_ok m d client w0 Hm0 Hpl Hcl Hmem0 c (r + g + b) contig Hc ltac:(lia)) as (rc & pixels & mask & pix & m1 & w1 & -> & Hm1 & F & Hmem1 & (Sh1 & Sn1 & _) & Hres).
  cbn [mbind result_bind]. pose proof (fresh_store_same w0 w1 Sh1 Sn1 Hf0) as Hf1. destruct Hres as [(-> & -> & ->)|[-> Hgv]].
  { rewrite decide_False by done. cbn [mbind result_bind]. rewrite decide_False by done.
    exists BadAlloc, [], (0, 0, 0), m, w1. split; [done|]. split; [done|]. split; [reflexivity|]. split; [done|]. by left. }
  destruct (given_mask m d client w Hm Hpl m1 c (r + g + b) pixels mask pix ltac:(lia) Hgv) as [Hmask Epop].
  destruct (split_three mask (Z.to_nat r) (Z.to_nat g) (Z.to_nat b) Hmask) as (lr & lg & lb & s1 & s2 & s3 & E1 & E2 & E3 & Hparts); [lia|].
  rewrite decide_True by done. rewrite E1. cbn [mbind result_bind]. rewrite E2. cbn [mbind result_bind]. rewrite E3. cbn [mbind result_bind].
  pose proof Hgv as (Epx & _ & _ & _ & Hperm & Hap & Hnd & _). assert (NoDup pixels) as Hpn by (rewrite Epx; by apply NoDup_sublist_take).
  assert (has_channels (cm_class m1) = false) as Hh1 by (destruct F as (_ & -> & _); apply (pl_class _ _ Hpl)).
  destruct (AllocShared_ok garbage m1 w1 mask (or_all lr) (or_all lg) (or_all lb) c r g b pixels pix Hm1 Hh1 Hmem1 Hf1 Hr Hg Hb Hcond Hmask Hparts Hperm Hap Hnd Hpn
    (λ x, given_private m1 c (r + g + b) pixels mask pix x Hgv) (given_length m1 c (r + g + b) pixels mask pix Hgv)) as (m2 & w2 & -> & Hm2 & F2 & Hf2 & Hmem2 & Hmade).
  cbn [mbind result_bind]. rewrite decide_True by done.
  assert (∃ w3, (if first then '(ok, m3, w4) ← add_cmapentry m2 client w2; Ok (ok, pixels, (or_all lr, or_all lg, or_all lb), m3, w4)
                 else Ok (Success, pixels, (or_all lr, or_all lg, or_all lb), m2, w2)) = Ok (Success, pixels, (or_all lr, or_all lg, or_all lb), m2, w3) ∧
            shared w3 = shared w2 ∧ next_shared w3 = next_shared w2) as (w3 & -> & Sh3 & Sn3).
  { destruct first; [|by exists w2]. unfold add_cmapentry. destruct (xalloc_ok w2 Hmem2) as (w3 & -> & _ & Hsh3 & (Hn3 & _) & _). cbn [mbind result_bind]. by eexists. }
  exists Success, pixels, (or_all lr, or_all lg, or_all lb), m2, w3. split; [done|]. split; [by apply (map_ok_shared _ w2)|].
  split; [by etrans|]. split; [by apply (fresh_store_same w2)|]. right. split; [done|].
  by exists mask, (or_all lr), (or_all lg), (or_all lb), pix, m1.
Qed.

End Planes.
