(* ===== verification/ColorTheorems.v ===== *)
(** * ColorTheorems: what colour maps promise, and where they do not keep it (dix/colormap.c) *)

From Stdlib Require Import Sorting.Sorted.
From S2P Require Import Prelude Atom ResourceDB PixelBits ColorCells ColorAccounts ColorFind ColorNearest ColorAlloc ColorPlanes ColorCellsReq ColorShared ColorPlanesReq.

#[local] Set Warnings "-clear-no-such-hyp".

(** ** A new map *)

Lemma room_nonneg e : 0 <= room e.
Proof. unfold room. destruct (Z.ltb_spec 0 (refcnt e)); [lia|]. by destruct (refcnt e =? AllocPrivate). Qed.

Lemma concat_nil_replicate n : concat (replicate n (@nil Pixel)) = [].
Proof. apply concat_replicate_nil. Qed.

Lemma new_chan_ok v ch :
  0 <= numents v ch <= ColormapEntries v -> numents v ch < 2 ^ 31 -> table_ok (numents v ch) (new_chan v ch).
Proof.
  intros Hn Hlt. unfold table_ok, new_chan. cbn [clientPixels]. rewrite length_replicate, concat_nil_replicate. split; [done|]. split; [done|]. split; [constructor|].
  split; cbn [cells nfree]; [rewrite length_replicate; lia|]. rewrite take_replicate. split.
  - apply Forall_forall. intros e [-> _]%elem_of_replicate. done.
  - intros i e _. cbn [occ]. apply room_nonneg.
  - replace (Z.to_nat (numents v ch) `min` Z.to_nat (ColormapEntries v))%nat with (Z.to_nat (numents v ch)) by lia.
    assert (∀ k, vacancies (replicate k zero_entry) = Z.of_nat k) as H; [|rewrite H; lia].
    intros k. induction k as [|k IH]; [done|]. cbn [replicate]. unfold vacancies, sum_of in *. cbn [foldr]. rewrite IH. cbn. lia.
Qed.

Lemma zero_cells_shared (l : list Entry) (w : CmapWorld) :
  Forall (eq zero_entry) l -> Forall shared_cell l ∧ (∀ p, sum_of (own p) l = 0) ∧ Forall is_local l.
Proof.
  induction 1 as [|e l <- Hl (IH1 & IH2 & IH3)]; [by repeat split|]. split; [|split].
  - constructor; [|done]. split; [done|]. intros H. cbn in H. lia.
  - intros p. unfold sum_of in *. cbn [foldr]. by rewrite IH2.
  - constructor; [by eexists|done].
Qed.

(** [CreateColormap] starts from a map that satisfies the invariant. *)
Lemma first_map_ok defColormap mid v w :
  dynamic (v_class v) = true ->
  (∀ ch, ch ∈ chans (first_map defColormap mid v) -> 0 <= numents v ch <= ColormapEntries v ∧ numents v ch < 2 ^ 31) ->
  map_ok (first_map defColormap mid v) w.
Proof.
  intros Hd Hn.
  assert (Forall (eq zero_entry) (all_cells (first_map defColormap mid v))) as Hz.
  { unfold first_map, all_cells. destruct (has_channels (v_class v)); cbn [red green blue new_chan no_chan cells].
    all: repeat (apply Forall_app; split); try constructor; apply Forall_forall; by intros e [-> _]%elem_of_replicate. }
  destruct (zero_cells_shared _ w Hz) as (H1 & H2 & H3).
  assert (cm_class (first_map defColormap mid v) = v_class v ∧ pVisual (first_map defColormap mid v) = v) as [Ec Ev] by (unfold first_map; by destruct (has_channels (v_class v))).
  split; [by rewrite Ec|]. split; [split; [done|]; split; [|done]; intros p Hp; unfold refs in Hp; rewrite H2 in Hp; lia|].
  intros ch Hch. rewrite Ev. destruct (Hn ch Hch) as [? ?]. assert (get_chan (first_map defColormap mid v) ch = new_chan v ch) as ->; [|by apply new_chan_ok].
  unfold chans in Hch. rewrite Ec in Hch. unfold first_map. destruct (has_channels (v_class v)) eqn:Eh.
  - repeat (apply elem_of_cons in Hch as [->|Hch]; [done|]). by apply elem_of_nil in Hch.
  - apply list_elem_of_singleton in Hch as ->. done.
Qed.

(** ** Bits of a mask *)

(** C40: a loop around [GetNextBitsOrBreak] runs its body for every combination of the bits of any mask exactly
    once, in increasing order, needs no more than 32 steps to carry, and ends after 2^n of them,
    where n is the number of ones, which the "magic statements" of [AllocCP] count without a
    loop. *)
Theorem GetNextBits_enumerates mask :
  0 <= mask < 2 ^ 32 ->
  count_ones mask = Z.of_nat (popcount 32 mask) ∧
  ∃ l, (∀ S (body : Z -> S -> result S) s, for_bits (bits_fuel mask) body 0 mask (lowbit mask) s = foldM body l s) ∧
       StronglySorted Z.lt l ∧ Z.of_nat (length l) = 2 ^ count_ones mask ∧ ∀ s, s ∈ l <-> submask s mask.
Proof.
  intros Hm. rewrite count_ones_spec by done. split; [done|]. exists (submasks 32 mask). split; [intros S body s; by apply for_bits_submasks|].
  split; [apply submasks_sorted|]. split; [by rewrite submasks_length, Nat2Z.inj_pow|]. intros s. by apply elem_of_submasks.
Qed.

Lemma GetNextBits_enumerates_witness :
  (for_bits (bits_fuel 10) (λ b l, Ok (l ++ [b])) 0 10 (lowbit 10) [] = Ok [0; 2; 8; 10] ∧ count_ones 0xF00F8001 = 10) ∧
  count_ones 10 = Z.of_nat (popcount 32 10) ∧
  ∃ l, (∀ S (body : Z -> S -> result S) s, for_bits (bits_fuel 10) body 0 10 (lowbit 10) s = foldM body l s) ∧
       StronglySorted Z.lt l ∧ Z.of_nat (length l) = 2 ^ count_ones 10 ∧ ∀ s, s ∈ l <-> submask s 10.
Proof. split; [split; vm_compute; reflexivity|]. apply (GetNextBits_enumerates 10). lia. Defined.

(** ** The nearest color *)

(** C24: among cells with colors of their own [FindBestPixel] finds the first of those with the least
    sum of squares of the differences to the requested color, although it computes with numbers
    of 16 and 24 bits. *)
Theorem FindBestPixel_nearest c size prgb ch :
  0 < size -> color_ok prgb -> (∀ q, 0 <= q < size -> ∃ v, cell_color c q v ∧ color_ok v) ->
  ∃ p v, FindBestPixel c size prgb ch = Ok p ∧ 0 <= p < size ∧ cell_color c p v ∧
    ∀ q u, 0 <= q < size -> cell_color c q u -> distance ch v prgb <= distance ch u prgb ∧ (q < p -> distance ch v prgb < distance ch u prgb).
Proof.
  intros Hs Hc Hcells. unfold FindBestPixel.
  destruct (best_pixel_ok c prgb ch (Z.to_nat size) 0 0 MaxBigNum Hc ltac:(lia)) as (p & m & E & Hmo & Hmin & Hfin).
  - intros q Hq. apply Hcells. lia.
  - split; [apply MaxBigNum_ok|]. split; [intros q v Hq; lia|by left].
  - replace (0 + Z.of_nat (Z.to_nat size)) with size in * by lia. destruct Hfin as [[? _]|(Hp & v & Hv & Ev)]; [lia|].
    exists p, v. split; [done|]. split; [done|]. split; [done|]. intros q u Hq Hu. rewrite <- Ev. by apply Hmin.
Qed.

Definition grays : Chan := mkChan ((λ g, mkEntry (local_color (mkRGB g g g)) 1 false) <$> [0; 65535; 30000; 31000]) 0 [].

Lemma FindBestPixel_nearest_witness :
  FindBestPixel grays 4 (mkRGB 30500 30500 30500) PSEUDOMAP = Ok 2 ∧
  ∃ p v, FindBestPixel grays 4 (mkRGB 30500 30500 30500) PSEUDOMAP = Ok p ∧ 0 <= p < 4 ∧ cell_color grays p v ∧
    ∀ q u, 0 <= q < 4 -> cell_color grays q u ->
      distance PSEUDOMAP v (mkRGB 30500 30500 30500) <= distance PSEUDOMAP u (mkRGB 30500 30500 30500) ∧
      (q < p -> distance PSEUDOMAP v (mkRGB 30500 30500 30500) < distance PSEUDOMAP u (mkRGB 30500 30500 30500)).
Proof.
  split; [vm_compute; reflexivity|]. apply (FindBestPixel_nearest grays 4 (mkRGB 30500 30500 30500) PSEUDOMAP); [lia|unfold color_ok; simpl; lia|].
  intros q Hq. assert (q = 0 ∨ q = 1 ∨ q = 2 ∨ q = 3) as [->|[->|[->| ->]]] by lia;
    (eexists; split; [eexists; split; [vm_compute; reflexivity|reflexivity]|unfold color_ok; simpl; lia]).
Defined.

(** ** The invariant *)

(** C9: [AllocColor] for a client, on a map of class GrayScale, PseudoColor or DirectColor,
    either gives the client one more pixel of each table, in a cell with the color that
    [ResolveColor] made of the request, or gives [BadAlloc], which it does only where one of the
    tables has neither a cell in use with that color nor a free one. With the pixel the count of
    its cell grows by exactly one, or the cell was free and now has the count one and a color of
    its own, and no other cell of the table changes. With [BadAlloc] every client has the
    pixels it had, as often, and every cell the count it had, also when the second or the third table is
    the one that is full and what the tables before it gave is taken back. The invariant of the map (counts cover
    the lists of the clients, the free cells are counted, the counts of shared colors are right)
    is kept. This is so under the conditions of the theorem: the map satisfies the invariant and is not
    just being created, its masks are contiguous, memory does not fail ([FindColor_counts_a_free_cell]
    shows what happens where it does), no cell of the map has the count 2^15 - 1 (after which
    [FindColor_count_overflows]), and the default map, where it is looked into, has tables that
    are large enough. *)
Theorem AllocColor_correct COMPOSITE ResolveColor defColormap rootVisual m prootmap client pred w :
  map_ok m w -> visual_ok m -> a_client client -> all_ok (mem w) -> has_flag m BeingCreated = false ->
  (∀ ch, ch ∈ chans m -> below_limit (get_chan m ch)) -> root_ok defColormap rootVisual m prootmap -> known_class m ->
  let rgb := ResolveColor (pVisual m) pred in
  ∃ rc p m' w', AllocColor COMPOSITE ResolveColor defColormap rootVisual m prootmap pred 0 client w = Ok (rc, rgb, p, m', w') ∧
    map_ok m' w' ∧ same_frame m m' ∧ ((rc = Success ∧ got_all COMPOSITE m client rgb m' p) ∨ (rc = BadAlloc ∧ as_before m m' ∧ ∃ ch, table_full m rgb ch)).
Proof. intros Hm Hv Hcl Hmem Hcr Hlim Hroot Hk. cbv zeta. by apply AllocColor_ok. Qed.

(** C10: [FreeColors] on a map that is not allocated as a whole (the flag [AllAllocated], for which it
    refuses) runs to its end without reading beyond a table or following a
    pointer to freed memory. In every table it takes each cell that the pixels and the
    combinations of the mask name from the list of the client as often as it is named there, or
    as often as it is there (and no others), does not touch the lists of
    other clients, and lowers the count of each cell by exactly the number of its places that the
    client lost: a cell whose count is used up is free, with the count 0 and not shared, and any
    other cell only has the smaller count. It answers [Success] exactly when all of the named
    cells were in the list and, where there is a pixel at all, the mask has no bits that the map
    does not have. The invariant of the map is kept, and the world changes only in the shared colors. *)
Theorem FreeColors_correct COMPOSITE m client pixels mask w :
  map_ok m w -> masks_ok m -> has_flag m AllAllocated = false -> a_client client -> 0 <= mask < 2 ^ 32 ->
  ∃ rc m' w' ls, FreeColors COMPOSITE m client pixels mask w = Ok (rc, m', w') ∧
    map_ok m' w' ∧ same_frame m m' ∧ quiet w w' ∧
    (∀ ch, ch ∈ chans m -> table_freed COMPOSITE m m' client pixels mask ch (ls ch)) ∧
    (rc = Success <-> ((∀ ch, ch ∈ chans m -> all_found (table_tests COMPOSITE (pVisual m) ch pixels mask) (ls ch)) ∧
                       (pixels = [] ∨ Z.land mask (whole_mask COMPOSITE m) = mask))).
Proof. apply FreeColors_ok. Qed.

(** When a client goes away, [FreePixels] gives back each of its cells in every table of
    the map, keeps the invariant for the clients that stay, and changes of the world nothing but
    the shared colors that no cell needs any more. *)
Theorem FreePixels_correct m client w :
  map_ok m w -> a_client client ->
  ∃ m' w', FreePixels m client w = Ok (m', w') ∧ map_ok m' w' ∧ same_frame m m' ∧ only_shared w w' ∧
    ∀ ch, ch ∈ chans m -> clientPixels (get_chan m' ch) = <[Z.to_nat client := []]> (clientPixels (get_chan m ch)).
Proof. apply FreePixels_ok. Qed.

(** C11: [AllocColorCells] on a map with one table, whose entries are all the 2^d values of a pixel of
    d <= 14 planes and none of which is a temporary cell of the server, where memory does not
    fail, keeps the invariant and either changes
    nothing or gives the pixels and a mask of as many bits as were asked for, such that all
    combinations of a pixel and bits of the mask are different cells that were free and now
    belong to this client alone; the plane masks of the reply are the single bits of the mask.
    On such a map it never reads a cell beyond the table, for any numbers of colors and planes, although
    [c << r] may overflow. On others it does: see [AllocCP_out_of_bounds] for a map with
    three tables and [AllocCP_beyond_temporary_cells] for one with a temporary cell. *)
Theorem AllocColorCells_correct COMPOSITE m d client w c r contig :
  map_ok m w -> plain_map m d -> a_client client -> all_ok (mem w) -> 0 < c < 2 ^ 16 -> 0 <= r ->
  ∃ rc pixels masks m' w', AllocColorCells COMPOSITE m client c r contig w = Ok (rc, pixels, masks, m', w') ∧
    map_ok m' w' ∧ same_frame m m' ∧
    ((rc = BadAlloc ∧ m' = m) ∨ (rc = Success ∧ ∃ mask pix, given m m' client c r pixels mask pix ∧ Z.of_nat (length masks) = r ∧ single_bits mask masks)).
Proof. intros Hm Hpl Hcl Hmem Hc Hr. by apply (AllocColorCells_ok _ m d). Qed.

(** C12: [AllocColorPlanes] on a map as in [AllocColorCells_correct], where memory does not fail,
    keeps the invariant where there is no plane for red or there are planes for both green and blue (it does not where this fails, see
    [AllocColorPlanes_use_after_free]), and either changes nothing or gives three masks without a common
    bit, of as many bits as were asked for, such that the combinations of a pixel and bits
    of the masks are new cells of the client alone; two of these cells share the value
    of a component exactly when they differ only in planes of the other components, and the
    count of every shared color is the number of cells that point to it. *)
Theorem AllocColorPlanes_correct COMPOSITE garbage m d client w c r g b contig :
  map_ok m w -> plain_map m d -> a_client client -> all_ok (mem w) -> fresh_store w ->
  0 < c < 2 ^ 16 -> 0 <= r -> 0 <= g -> 0 <= b -> r = 0 ∨ (0 < g ∧ 0 < b) ->
  ∃ rc pixels masks m' w', AllocColorPlanes COMPOSITE garbage m client c r g b contig w = Ok (rc, pixels, masks, m', w') ∧
    map_ok m' w' ∧ same_frame m m' ∧ fresh_store w' ∧
    ((rc = BadAlloc ∧ m' = m) ∨
     (rc = Success ∧ ∃ mask rm gm bm pix m1, masks = (rm, gm, bm) ∧ planes mask rm gm bm (Z.to_nat r) (Z.to_nat g) (Z.to_nat b) ∧
        given m m1 client c (r + g + b) pixels mask pix ∧ made m1 m' pix rm gm bm)).
Proof. intros Hm Hpl Hcl Hmem Hf Hc Hr Hg Hb Hcond. by apply (AllocColorPlanes_ok _ _ m d). Qed.

(** ** What was allocated can be read *)

(** The color masks of a visual have no bit in common. *)
Definition masks_apart (v : VisualRec) : Prop :=
  ∀ a b, a ≠ PSEUDOMAP -> b ≠ PSEUDOMAP -> a ≠ b -> Z.land (mask_of v a) (mask_of v b) = 0.

Lemma land_other p a b : Z.land p a = p -> Z.land a b = 0 -> Z.land p b = 0.
Proof. intros <- H. by rewrite <- Z.land_assoc, H, Z.land_0_r. Qed.

Lemma ALPHAMASK_other COMPOSITE v ch : ch ≠ PSEUDOMAP -> Z.land (ALPHAMASK COMPOSITE v) (mask_of v ch) = 0.
Proof.
  intros Hne. unfold ALPHAMASK. destruct COMPOSITE; [|by rewrite Z.land_0_l]. destruct (nplanes v <? 32); [by rewrite Z.land_0_l|].
  apply Z.bits_inj. intros i. rewrite Z.land_spec, Z.bits_0. destruct (Z.lt_ge_cases i 0) as [|Hi]; [by rewrite !Z.testbit_neg_r|].
  destruct (Z.lt_ge_cases i 32); [|unfold u32; by rewrite Z.mod_pow2_bits_high by lia].
  rewrite not_mask_bits, !Z.lor_spec by lia. destruct ch; try done; cbn [mask_of];
    destruct (Z.testbit (redMask v) i), (Z.testbit (greenMask v) i), (Z.testbit (blueMask v) i); done.
Qed.

Lemma ALPHAMASK_in COMPOSITE v : Z.land (ALPHAMASK COMPOSITE v) (u32 (Z.lnot (RGBMASK COMPOSITE v))) = 0.
Proof.
  apply Z.bits_inj. intros i. rewrite Z.land_spec, Z.bits_0. destruct (Z.lt_ge_cases i 0) as [|Hi]; [by rewrite !Z.testbit_neg_r|].
  destruct (Z.lt_ge_cases i 32); [|unfold u32; rewrite Z.mod_pow2_bits_high by lia; by rewrite andb_false_r].
  rewrite not_mask_bits by lia. unfold RGBMASK. rewrite !Z.lor_spec. destruct (Z.testbit (ALPHAMASK COMPOSITE v) i); [|done].
  by rewrite orb_true_r.
Qed.

(** A pixel is put together from three cells, and taken apart again. *)
Definition joined (COMPOSITE : bool) (v : VisualRec) (i : channel -> Z) : Pixel :=
  Z.lor (Z.lor (Z.lor (shift_pixel v REDMAP (i REDMAP)) (shift_pixel v GREENMAP (i GREENMAP))) (shift_pixel v BLUEMAP (i BLUEMAP))) (ALPHAMASK COMPOSITE v).

Lemma joined_parts COMPOSITE v i :
  masks_apart v ->
  (∀ ch, ch ≠ PSEUDOMAP -> contiguous v ch ∧ 0 <= i ch < numents v ch ∧ i ch < 2 ^ 32) ->
  Z.land (joined COMPOSITE v i) (u32 (Z.lnot (RGBMASK COMPOSITE v))) = 0 ∧ ∀ ch, ch ≠ PSEUDOMAP -> pixel_of v ch (joined COMPOSITE v i) = i ch.
Proof.
  intros Hap Hi.
  assert (∀ ch, ch ≠ PSEUDOMAP -> pixel_of v ch (shift_pixel v ch (i ch)) = i ch ∧ Z.land (shift_pixel v ch (i ch)) (mask_of v ch) = shift_pixel v ch (i ch)) as Hs.
  { intros ch Hne. destruct (Hi ch Hne) as (Hc & Hr & H32). by apply pixel_of_shift. }
  unfold joined. split.
  - rewrite !Z.land_lor_distr_l, ALPHAMASK_in.
    rewrite (in_RGBMASK COMPOSITE v REDMAP), (in_RGBMASK COMPOSITE v GREENMAP), (in_RGBMASK COMPOSITE v BLUEMAP); [done|done|by apply Hs|done|by apply Hs|done|by apply Hs].
  - intros ch Hne. destruct (Hs ch Hne) as [Hp _]. unfold pixel_of in *.
    assert (∀ a, a ≠ PSEUDOMAP -> a ≠ ch -> Z.land (shift_pixel v a (i a)) (mask_of v ch) = 0) as Ho.
    { intros a Ha Hac. apply (land_other _ (mask_of v a)); [by apply Hs|by apply Hap]. }
    rewrite !Z.land_lor_distr_l, ALPHAMASK_other, Z.lor_0_r by done.
    destruct ch; try done.
    + rewrite (Ho GREENMAP), (Ho BLUEMAP), !Z.lor_0_r by done. done.
    + rewrite (Ho REDMAP), (Ho BLUEMAP), Z.lor_0_l, Z.lor_0_r by done. done.
    + rewrite (Ho REDMAP), (Ho GREENMAP), !Z.lor_0_l by done. done.
Qed.

Lemma same_color_pseudo c v : same_color PSEUDOMAP c v = true -> c = v.
Proof. destruct c, v. cbn. intros [[?%Z.eqb_eq ?%Z.eqb_eq]%andb_true_iff ?%Z.eqb_eq]%andb_true_iff. by subst. Qed.

(** C18: a client that gets a pixel from [AllocColor] and asks [QueryColors] for its color is told
    the color that [AllocColor] reported, for maps of class GrayScale, PseudoColor and
    DirectColor, however the channels of the last lie in a pixel as long as their masks are contiguous
    and have no bit in common. The other conditions are those of [AllocColor_correct]: the invariant of the
    map, which is not just being created, memory that does not fail, counts below their limit and a
    default map that can be read. *)
Theorem AllocColor_QueryColors COMPOSITE ResolveColor defColormap rootVisual m prootmap client pred w p rgb m' w' before :
  map_ok m w -> visual_ok m -> masks_apart (pVisual m) -> a_client client -> all_ok (mem w) -> has_flag m BeingCreated = false ->
  (∀ ch, ch ∈ chans m -> below_limit (get_chan m ch)) -> root_ok defColormap rootVisual m prootmap -> known_class m ->
  AllocColor COMPOSITE ResolveColor defColormap rootVisual m prootmap pred 0 client w = Ok (Success, rgb, p, m', w') ->
  QueryColors COMPOSITE m' [(p, before)] w' = Ok ([rgb], Success, w').
Proof.
  intros Hm Hv Hap Hcl Hmem Hcr Hlim Hroot Hk E.
  destruct (AllocColor_ok COMPOSITE ResolveColor defColormap rootVisual m prootmap client _ w Hm Hv Hcl Hmem Hcr Hlim Hroot pred Hk eq_refl)
    as (rc & q & m1 & w1 & E1 & Hm1 & F & Hres). rewrite E in E1. injection E1 as <- -> <- <- <-.
  destruct Hres as [[_ (i & Hi & Hp)]|[? _]]; [|done]. assert (pVisual m' = pVisual m) as EV by apply F. assert (cm_class m' = cm_class m) as EC by apply F.
  assert (∀ ch, ch ∈ chans m -> ∃ e v, get_cell (get_chan m' ch) (i ch) = Ok e ∧ co e = local_color v ∧
            same_color ch v (ResolveColor (pVisual m) pred) = true ∧ fShared e = false) as Hcell.
  { intros ch Hch. destruct (Hi ch Hch) as [Hr [(e & v & He & Hco & Hsame & Hpos) _]]. exists e, v. unfold get_cell.
    rewrite (proj2 (Z.ltb_ge _ _) (proj1 Hr)), He. split; [done|]. split; [done|]. split; [done|]. destruct (fShared e) eqn:Ef; [|done].
    destruct (sharing_cell m' ch w' _ e (proj1 (proj2 Hm1)) He) as [Hsh _]. destruct (Hsh Ef) as [Hn _]. specialize (Hpos (proj1 Hcl)).
    unfold AllocPrivate in Hn. lia. }
  unfold QueryColors. cbn [query_loop]. unfold query_pixel. rewrite EC.
  destruct (chans_cases m) as [[Hh Hchs]|[Hh Hchs]]; rewrite Hh in Hp |- *; subst p.
  - assert (∀ ch, ch ≠ PSEUDOMAP -> ch ∈ chans m) as Hin by (intros ch Hne; rewrite Hchs; destruct ch; [set_solver..|done]).
    destruct (joined_parts COMPOSITE (pVisual m) i Hap) as [Hbits Hpix].
    { intros ch Hne. split; [by apply (proj2 Hv), Hne; apply Hin|]. destruct (Hi ch (Hin ch Hne)) as [Hr _]. split; [done|].
      destruct (proj2 (proj2 Hm) ch (Hin ch Hne)) as [? _]. lia. }
    unfold query_channels. fold (joined COMPOSITE (pVisual m) i). rewrite EV, Hbits. cbn [negb Z.eqb]. rewrite !Hpix by done.
    destruct (Hcell REDMAP (Hin REDMAP ltac:(done))) as (er & vr & -> & Hcr' & Hsr & _). destruct (Hcell GREENMAP (Hin GREENMAP ltac:(done))) as (eg & vg & -> & Hcg & Hsg & _).
    destruct (Hcell BLUEMAP (Hin BLUEMAP ltac:(done))) as (eb & vb & -> & Hcb & Hsb & _).
    rewrite !(λ ch H, proj2 (Z.leb_gt (numents (pVisual m) ch) (i ch)) (proj2 (proj1 (Hi ch (Hin ch H))))) by done.
    cbn [mbind result_bind]. unfold local_of. rewrite Hcr', Hcg, Hcb. cbn [mbind result_bind set_comp rgb_red rgb_green rgb_blue].
    cbn [same_color] in Hsr, Hsg, Hsb. apply Z.eqb_eq in Hsr, Hsg, Hsb. rewrite Hsr, Hsg, Hsb. by destruct (ResolveColor _ _).
  - assert (PSEUDOMAP ∈ chans m) as Hin by (rewrite Hchs; set_solver). destruct (Hcell PSEUDOMAP Hin) as (e & v & He & Hco & Hs & Hf).
    rewrite EV. cbn [get_chan] in He. destruct (Hi PSEUDOMAP Hin) as [[_ Hlt] _]. cbn [numents] in Hlt.
    rewrite (proj2 (Z.leb_gt (ColormapEntries (pVisual m)) (i PSEUDOMAP))) by done. rewrite He. cbn [mbind result_bind]. unfold shown, local_of. rewrite Hf, Hco.
    cbn [mbind result_bind]. apply same_color_pseudo in Hs. by rewrite Hs.
Qed.

(** *** Maps of two clients *)

Definition vis3 : VisualRec := mkVisual 33 PseudoColor 8 3 0 0 0 0 0 0.
Definition new_map : ColormapRec := first_map 32 2097153 vis3.
Definition new_world : CmapWorld := mkCmapWorld ∅ 0 [] [] 0 [].

Lemma new_map_ok : map_ok new_map new_world.
Proof.
  apply first_map_ok; [done|]. intros ch Hch. change (chans (first_map 32 2097153 vis3)) with [PSEUDOMAP] in Hch.
  apply list_elem_of_singleton in Hch as ->. cbn. lia.
Qed.

Lemma new_map_limits ch : ch ∈ chans new_map -> below_limit (get_chan new_map ch).
Proof.
  change (chans new_map) with [PSEUDOMAP]. intros ->%list_elem_of_singleton. cbn [get_chan]. unfold below_limit.
  apply Forall_forall. intros e He. change (cells (red new_map)) with (replicate 8 zero_entry) in He. apply elem_of_replicate in He as [-> _]. done.
Qed.

Lemma new_map_visual : visual_ok new_map.
Proof. split; intros ch Hch; change (chans new_map) with [PSEUDOMAP] in Hch; apply list_elem_of_singleton in Hch as ->; [done|intros []; done]. Qed.

(** The client that owns the map asks for gray. *)
Definition gray_alloc := AllocColor false (λ _ c, c) 32 33 new_map (Some new_map) (mkRGB 1000 1000 1000) 0 1 new_world.
Definition gray_map : ColormapRec := match gray_alloc with Ok (_, _, _, m, _) => m | Err _ => new_map end.
Definition gray_world : CmapWorld := match gray_alloc with Ok (_, _, _, _, w) => w | Err _ => new_world end.

Lemma new_map_root : root_ok 32 33 new_map (Some new_map).
Proof.
  right; right. exists new_map, new_world. split; [done|]. intros _. split; [apply new_map_ok|].
  intros ch Hch. change (chans new_map) with [PSEUDOMAP] in Hch. apply list_elem_of_singleton in Hch as ->. done.
Qed.

Lemma a_client_1 : a_client 1.
Proof. unfold a_client. split; [lia|reflexivity]. Qed.

Lemma gray_map_ok : map_ok gray_map gray_world.
Proof.
  pose proof (AllocColor_ok false (λ _ c, c) 32 33 new_map (Some new_map) 1 (mkRGB 1000 1000 1000) new_world new_map_ok new_map_visual a_client_1
    (Forall_nil_2 _) eq_refl new_map_limits new_map_root (mkRGB 1000 1000 1000) (or_intror (or_introl eq_refl)) eq_refl) as (rc & p & m' & w' & E & Hm' & _).
  fold gray_alloc in E. unfold gray_map, gray_world. rewrite E. exact Hm'.
Qed.

(** What replies and maps have, to be computed. *)
Definition pixel_answer (r : result (Status * xrgb * Pixel * ColormapRec * CmapWorld)) : result (Status * Pixel) :=
  '(rc, _, p, _, _) ← r; Ok (rc, p).
Definition free_answer (r : result (Status * ColormapRec * CmapWorld)) : result (Status * Z * list (list Pixel)) :=
  '(rc, m, _) ← r; Ok (rc, nfree (red m), take 2 (clientPixels (red m))).
Definition map_answer (r : result (ColormapRec * CmapWorld)) : result (Z * list (list Pixel)) :=
  '(m, _) ← r; Ok (nfree (red m), take 2 (clientPixels (red m))).
Definition cells_answer (r : result (Status * list Pixel * list Pixel * ColormapRec * CmapWorld)) : result (Status * list Pixel * list Pixel * Z) :=
  '(rc, l, masks, m, _) ← r; Ok (rc, l, masks, nfree (red m)).

Lemma mask_nonneg m ch : redMask (pVisual m) = 0 -> greenMask (pVisual m) = 0 -> blueMask (pVisual m) = 0 -> 0 <= mask_of (pVisual m) ch.
Proof. intros H1 H2 H3. destruct ch; cbn [mask_of]; rewrite ?H1, ?H2, ?H3; try done. Qed.

Lemma gray_plain : plain_map gray_map 3.
Proof.
  split; [lia|vm_compute; reflexivity..|]. apply Forall_forall. intros e He.
  assert (Forall (λ e, negb (refcnt e =? AllocTemporary) = true) (cells (red gray_map))) as H by (vm_compute; repeat constructor).
  rewrite Forall_forall in H. specialize (H e He). by apply negb_true_iff, Z.eqb_neq in H.
Qed.

Lemma AllocColor_correct_witness :
  pixel_answer gray_alloc = Ok (Success, 0) ∧
  ∃ rc p m' w', gray_alloc = Ok (rc, mkRGB 1000 1000 1000, p, m', w') ∧
    map_ok m' w' ∧ same_frame new_map m' ∧ ((rc = Success ∧ got_all false new_map 1 (mkRGB 1000 1000 1000) m' p) ∨ (rc = BadAlloc ∧ as_before new_map m' ∧ ∃ ch, table_full new_map (mkRGB 1000 1000 1000) ch)).
Proof.
  split; [vm_compute; reflexivity|].
  exact (AllocColor_correct false (λ _ c, c) 32 33 new_map (Some new_map) 1 (mkRGB 1000 1000 1000) new_world new_map_ok new_map_visual a_client_1
    (Forall_nil_2 _) eq_refl new_map_limits new_map_root (or_intror (or_introl eq_refl))).
Defined.

Lemma FreeColors_correct_witness :
  free_answer (FreeColors false gray_map 1 [0; 0] 0 gray_world) = Ok (BadAccess, 8, [[]; []]) ∧
  ∃ rc m' w' ls, FreeColors false gray_map 1 [0; 0] 0 gray_world = Ok (rc, m', w') ∧
    map_ok m' w' ∧ same_frame gray_map m' ∧ quiet gray_world w' ∧
    (∀ ch, ch ∈ chans gray_map -> table_freed false gray_map m' 1 [0; 0] 0 ch (ls ch)) ∧
    (rc = Success <-> ((∀ ch, ch ∈ chans gray_map -> all_found (table_tests false (pVisual gray_map) ch [0; 0] 0) (ls ch)) ∧
                       ([0; 0] = [] ∨ Z.land 0 (whole_mask false gray_map) = 0))).
Proof.
  split; [vm_compute; reflexivity|].
  exact (FreeColors_correct false gray_map 1 [0; 0] 0 gray_world gray_map_ok (λ ch _, mask_nonneg gray_map ch eq_refl eq_refl eq_refl) eq_refl a_client_1 (conj (Z.le_refl 0) eq_refl)).
Defined.

Lemma FreePixels_correct_witness :
  map_answer (FreePixels gray_map 1 gray_world) = Ok (8, [[]; []]) ∧
  ∃ m' w', FreePixels gray_map 1 gray_world = Ok (m', w') ∧ map_ok m' w' ∧ same_frame gray_map m' ∧ only_shared gray_world w' ∧
    ∀ ch, ch ∈ chans gray_map -> clientPixels (get_chan m' ch) = <[Z.to_nat 1 := []]> (clientPixels (get_chan gray_map ch)).
Proof. split; [vm_compute; reflexivity|]. exact (FreePixels_correct gray_map 1 gray_world gray_map_ok a_client_1). Defined.

Lemma AllocColorCells_correct_witness :
  cells_answer (AllocColorCells false gray_map 1 2 1 false gray_world) = Ok (Success, [2; 4], [1], 3) ∧
  ∃ rc pixels masks m' w', AllocColorCells false gray_map 1 2 1 false gray_world = Ok (rc, pixels, masks, m', w') ∧
    map_ok m' w' ∧ same_frame gray_map m' ∧
    ((rc = BadAlloc ∧ m' = gray_map) ∨
     (rc = Success ∧ ∃ mask pix, given gray_map m' 1 2 1 pixels mask pix ∧ Z.of_nat (length masks) = 1 ∧ single_bits mask masks)).
Proof.
  split; [vm_compute; reflexivity|].
  exact (AllocColorCells_correct false gray_map 3 1 gray_world 2 1 false gray_map_ok gray_plain a_client_1 (Forall_nil_2 _) (conj eq_refl eq_refl) Z.le_0_1).
Defined.

Lemma gray_fresh : fresh_store gray_world.
Proof. assert (shared gray_world = ∅) as E by (vm_compute; reflexivity). intros p _. rewrite E. apply lookup_empty. Qed.

Definition planes_answer (r : result (Status * list Pixel * (Pixel * Pixel * Pixel) * ColormapRec * CmapWorld)) :=
  '(rc, l, masks, m, w) ← r; Ok (rc, l, masks, nfree (red m), sh_refcnt <$> (shared w !! 1%nat)).

Lemma AllocColorPlanes_correct_witness :
  planes_answer (AllocColorPlanes true (λ _, 7) gray_map 1 1 0 1 1 false gray_world) = Ok (Success, [4], (0, 1, 2), 3, Some 2) ∧
  ∃ rc pixels masks m' w', AllocColorPlanes true (λ _, 7) gray_map 1 1 0 1 1 false gray_world = Ok (rc, pixels, masks, m', w') ∧
    map_ok m' w' ∧ same_frame gray_map m' ∧ fresh_store w' ∧
    ((rc = BadAlloc ∧ m' = gray_map) ∨
     (rc = Success ∧ ∃ mask rm gm bm pix m1, masks = (rm, gm, bm) ∧ planes mask rm gm bm (Z.to_nat 0) (Z.to_nat 1) (Z.to_nat 1) ∧
        given gray_map m1 1 1 (0 + 1 + 1) pixels mask pix ∧ made m1 m' pix rm gm bm)).
Proof.
  split; [vm_compute; reflexivity|].
  exact (AllocColorPlanes_correct true (λ _, 7) gray_map 3 1 gray_world 1 0 1 1 false gray_map_ok gray_plain a_client_1 (Forall_nil_2 _) gray_fresh
    (conj eq_refl eq_refl) (Z.le_refl 0) Z.le_0_1 Z.le_0_1 (or_introl eq_refl)).
Defined.

(** A map with three tables of four cells. *)
Definition direct_vis : VisualRec := mkVisual 34 DirectColor 4 6 48 12 3 4 2 0.
Definition new_direct : ColormapRec := first_map 32 2097153 direct_vis.

Lemma new_direct_cases ch : ch ∈ chans new_direct -> ch = REDMAP ∨ ch = GREENMAP ∨ ch = BLUEMAP.
Proof. change (chans new_direct) with [REDMAP; GREENMAP; BLUEMAP]. set_solver. Qed.

Lemma new_direct_ok : map_ok new_direct new_world.
Proof. apply first_map_ok; [done|]. intros ch [->|[->| ->]]%new_direct_cases; vm_compute; repeat split; discriminate. Qed.

Lemma new_direct_visual : visual_ok new_direct.
Proof.
  split; [intros ch [->|[->| ->]]%new_direct_cases; done|].
  intros ch [->|[->| ->]]%new_direct_cases _; exists 2; repeat split; done.
Qed.

Lemma new_direct_limits ch : ch ∈ chans new_direct -> below_limit (get_chan new_direct ch).
Proof. intros [->|[->| ->]]%new_direct_cases; repeat constructor. Qed.

Lemma direct_apart : masks_apart direct_vis.
Proof. intros [] [] ? ? ?; done. Qed.

Lemma AllocColor_QueryColors_witness :
  ∃ m w, AllocColor true (λ _ c, c) 32 33 new_direct None (mkRGB 5 6 7) 0 1 new_world = Ok (Success, mkRGB 5 6 7, 0, m, w) ∧
         QueryColors true m [(0, mkRGB 0 0 0)] w = Ok ([mkRGB 5 6 7], Success, w).
Proof.
  eexists _, _. split; [vm_compute; reflexivity|].
  refine (AllocColor_QueryColors true (λ _ c, c) 32 33 new_direct None 1 (mkRGB 5 6 7) new_world 0 _ _ _ _ new_direct_ok new_direct_visual direct_apart a_client_1
    (Forall_nil_2 _) eq_refl new_direct_limits (or_intror (or_introl _)) (or_intror (or_intror eq_refl)) _); [done|vm_compute; reflexivity].
Defined.

(** ** Where the code does not do what it means to *)

(** One color with a plane for red only: the two cells share the colors of green and blue,
    whose counts are [1 << (g + b)], which is 1; the second cell that is freed follows a pointer
    to memory that the first one gave back. *)
Definition red_plane : result (Status * list Pixel * (Pixel * Pixel * Pixel) * ColormapRec * CmapWorld) :=
  AllocColorPlanes false (λ _, 7) new_map 1 1 1 0 0 false new_world.

Theorem AllocColorPlanes_use_after_free :
  (∃ m w, red_plane = Ok (Success, [0], (1, 0, 0), m, w)) ∧
  ('(_, p, _, m, w) ← red_plane; FreeColors false m 1 p 1 w) = Err Dangling.
Proof. split; [|vm_compute; reflexivity]. vm_compute. eexists _, _. reflexivity. Qed.

(** With a plane for each component the counts are right. *)
Example planes_freed :
  free_answer ('(_, p, _, m, w) ← AllocColorPlanes false (λ _, 7) new_map 1 1 1 1 1 false new_world; FreeColors false m 1 p 7 w) = Ok (Success, 8, [[]; []]).
Proof. vm_compute. reflexivity. Qed.

(** A [DirectColor] map of 4 entries for channels of 2 bits, of which the map has 6 planes: the masks
    of [AllocCP] grow beyond the table, and what is left of the entries wraps around. *)
Definition taken (c : Chan) (p : Pixel) : Chan := match take_private c p with Ok c => add_free c (-1) | Err _ => c end.
Definition direct_map : ColormapRec :=
  let m := first_map 32 2097153 direct_vis in set_chan m REDMAP (taken (taken (red m) 1) 2).

Theorem AllocCP_out_of_bounds :
  nfree (red direct_map) = 2 ∧ AllocColorCells false direct_map 1 1 1 false new_world = Err OutOfBounds.
Proof. split; vm_compute; reflexivity. Qed.

(** An item for a cell that is not the client's is followed by one that is: the hardware gets the
    color that was asked for, and the map the one that the screen can show. *)
Definition private_map : ColormapRec := match AllocColorCells false new_map 1 1 0 false new_world with Ok (_, _, _, m, _) => m | Err _ => new_map end.
Definition four_bits (v : VisualRec) (c : xrgb) : xrgb := mkRGB (Z.land (rgb_red c) 0xF000) (Z.land (rgb_green c) 0xF000) (Z.land (rgb_blue c) 0xF000).
Definition no_bytes (r g b : option nat) : xrgb := mkRGB 0 0 0.
Definition odd_color : xrgb := mkRGB 0x1234 0x1234 0x1234.

Definition stored (defs : list xColorItem) : result (Status * list (list xColorItem) * option Entry) :=
  '(rc, m, w) ← StoreColors false four_bits no_bytes private_map defs new_world; Ok (rc, hardware w, cells (red m) !! 0%nat).

Theorem StoreColors_after_a_bad_item :
  let cell := Some (mkEntry (local_color (mkRGB 0x1000 0x1000 0x1000)) AllocPrivate false) in
  stored [mkItem 0 odd_color 7] = Ok (Success, [[mkItem 0 (mkRGB 0x1000 0x1000 0x1000) 7]], cell) ∧
  stored [mkItem 5 odd_color 7; mkItem 0 odd_color 7] = Ok (BadAccess, [[mkItem 0 odd_color 7]], cell).
Proof. split; vm_compute; reflexivity. Qed.

(** The second client that asks for a color while there is no memory for one more pixel: the map
    has one more free cell than before, although no cell became free. *)
Definition shared_alloc (o : oracle) := 
  AllocColor false (λ _ c, c) 32 33 gray_map (Some gray_map) (mkRGB 1000 1000 1000) 0 2 (mkCmapWorld ∅ 0 [] [] 0 o).

Theorem FindColor_counts_a_free_cell :
  nfree (red gray_map) = 7 ∧ vacancies (cells (red gray_map)) = 7 ∧
  ('(rc, _, _, m, _) ← shared_alloc [false]; Ok (rc, nfree (red m), vacancies (cells (red m)))) = Ok (BadAlloc, 8, 7).
Proof. split; [vm_compute; reflexivity|]. split; vm_compute; reflexivity. Qed.

(** The count of a cell is a [short]: one more user of a color that 32767 use makes it negative,
    and the next search takes the cell for one that is not in use. *)
Definition popular_map : ColormapRec :=
  set_chan new_map PSEUDOMAP (set_cell (red new_map) 0 (mkEntry (local_color (mkRGB 1000 1000 1000)) 32767 false)).

Theorem FindColor_count_overflows :
  ('(rc, p, m, _) ← FindColor popular_map 8 (mkRGB 1000 1000 1000) 0 PSEUDOMAP 1 new_world; e ← get_cell (red m) 0; Ok (rc, p, refcnt e)) =
    Ok (Success, 0, -32768).
Proof. vm_compute. reflexivity. Qed.

(** Without memory for its resource a new map is freed before its private values are set. *)
Theorem CreateColormap_frees_an_unfinished_map :
  CreateColormap 32 (λ m w, Ok (true, m, w)) 0 2097153 vis3 false 1 (mkCmapWorld ∅ 0 [] [] 0 [true; false]) = Err Dangling ∧
  ∃ m w, CreateColormap 32 (λ m w, Ok (true, m, w)) 0 2097153 vis3 false 1 new_world = Ok (Success, Some m, w) ∧ map_ok m w.
Proof.
  split; [vm_compute; reflexivity|]. exists new_map, new_world. split; [vm_compute; reflexivity|apply new_map_ok].
Qed.

(** A map whose cells all have shared colors: the search of the nearest color reads the pointers of
    a cell as if they were its color. *)
Theorem FindBestPixel_reads_pointers :
  ('(_, _, _, m, w) ← AllocColorPlanes false (λ _, 7) new_map 1 1 1 1 1 false new_world;
   '(p, _, _) ← FakeAllocColor (λ _ c, c) m (mkItem 0 (mkRGB 9 9 9) 7) 0 w; Ok p) = Err Corrupted.
Proof. vm_compute. reflexivity. Qed.

(** Cells of the server itself are not taken off the number of free cells: while there is one, a client
    that asks for as many cells as are free makes the search run beyond the table. *)
Theorem AllocCP_beyond_temporary_cells :
  ('(_, m, w) ← FakeAllocColor (λ _ c, c) new_map (mkItem 0 (mkRGB 9 9 9) 7) 0 new_world;
   '(rc, l, _, _, _) ← AllocColorCells false m 1 8 0 false w; Ok (rc, l)) = Err OutOfBounds.
Proof. vm_compute. reflexivity. Qed.

(** Private cells keep what was in them: after planes were freed, a client that gets the cells and asks for their colors
    is told the bytes of pointers. *)
Theorem QueryColors_reads_pointers :
  ('(_, p, _, m, w) ← AllocColorPlanes false (λ _, 7) new_map 1 1 1 1 1 false new_world;
   '(_, m, w) ← FreeColors false m 1 p 7 w;
   '(_, l, _, m, w) ← AllocColorCells false m 2 1 0 false w;
   '(c, _, _) ← QueryColors false m ((λ p, (p, mkRGB 0 0 0)) <$> l) w; Ok c) = Err Corrupted.
Proof. vm_compute. reflexivity. Qed.

(** Two items for cells that share the value of red: the second item changes what both of them show, and the hardware is
    told so, but then it is told the items, of which the first one has the old value. *)
Definition two_cells : result (ColormapRec * CmapWorld) :=
  '(_, _, _, m, w) ← AllocColorPlanes false (λ _, 7) new_map 1 1 0 0 1 false new_world; Ok (m, w).
Definition reds : list xColorItem := [mkItem 0 (mkRGB 100 0 0) DoRed; mkItem 1 (mkRGB 200 0 0) DoRed].

(** The color that the hardware was told last for a cell. *)
Definition told (w : CmapWorld) (p : Pixel) : option Z :=
  last (omap (λ it, if it_pixel it =? p then Some (rgb_red (it_rgb it)) else None) (concat (hardware w))).

Definition shown_and_told : option (Status * list Z * list (option Z)) :=
  match two_cells with
  | Ok (m, w) =>
      match StoreColors false (λ _ c, c) no_bytes m reds w with
      | Ok (rc, m, w) =>
          match QueryColors false m [(0, mkRGB 0 0 0); (1, mkRGB 0 0 0)] w with
          | Ok (cs, _, _) => Some (rc, rgb_red <$> cs, [told w 0; told w 1])
          | Err _ => None
          end
      | Err _ => None
      end
  | Err _ => None
  end.

Theorem StoreColors_tells_old_colors : shown_and_told = Some (Success, [200; 200], [Some 100; Some 200]).
Proof. vm_compute. reflexivity. Qed.
